(* ===== verification/_CoqProject ===== *)
-Q . S2P
Prelude.v
U256.v
Bytes.v
Floats.v
FixedPoint.v
LogExpMath.v
WeightedMath.v
StableMath.v
BaselineSolver.v
UniswapV2.v
BalancerSwap.v
RateLimit.v
ModelOrder.v
RemainingAmounts.v
RecentBlockCache.v
EventHandling.v
DriverOrder.v
Auction.v
Trade.v
Scoring.v
Solution.v
Encoding.v
Competition.v
OrderQuoting.v
OrderValidation.v
OrderStore.v
OrderBook.v
SettlementEncoder.v
DecodedSettlement.v
OnchainSettlement.v
SolverSolution.v
BaselineEngine.v
NaiveSolver.v
Estimators.v
Caches.v
ProtocolFees.v
SolvableOrders.v
SettlementIndex.v
CompetitionStore.v
RunLoop.v
OnchainOrders.v
Refunder.v
