(* ===== verification/Prelude.v ===== *)
(** * The CoW Protocol services, verified

    The repository holds the off-chain services of CoW Protocol. Users sign
    limit orders; the order book collects them; the autopilot cuts auctions out
    of them and asks every driver to solve each auction; a driver prepares the
    auction for its solver engine, turns the engine's answer into settlements,
    scores them and bids; the winner submits its settlement, and the autopilot
    reads it back from the chain to compute what it was worth. Solvers and
    drivers look for routes over on-chain pools, whose states are read from a
    node through rate limited clients, caches of recent blocks and event
    indexers.

    The development models the logic of these parts as executable functions and
    proves what makes each part correct. A function that can fail answers in
    [res E A] (below): a value, an error, or a panic, so that the absence of
    panics is always part of a statement about an operation. Arithmetic is
    over [Z] with the bounds of the machine type written out (U256.v).

    ** Files, and the code they model

    - Prelude.v: outcomes, loops that stop at the first failure, lists, and the
      tactics ([inv_ok], [no_panic] and others) that take computations apart.
    - U256.v: 256 bit integers and their checked, saturating and panicking
      operators, with the helpers of driver/src/util, number/src/conversions.rs
      and shared/src/conversions.rs.
    - Bytes.v: bytes and numbers in big endian, of which encodings, hashes and
      identifiers are made. Floats.v: binary64 and its conversions.

    Orders of the API:
    - ModelOrder.v: crates/model/src/order.rs and signature.rs. The data a user
      signs with its EIP-712 hash, uids, signatures and their recovery, order
      creations with the verification of their owner, cancellations.
    - RemainingAmounts.v: shared/src/remaining_amounts.rs.

    The order book, from a request to the tables (its operations thread a
    state and may fail: the monad [st] below):
    - OrderQuoting.v: quotes (shared/src/order_quoting.rs, fee.rs,
      model/src/quote.rs). The store of quotes is the class [QuoteStoring], of
      which the table of database/src/quotes.rs is an instance; the quoter is
      an instance of the class [Quoting] the validator and the service use.
    - OrderValidation.v: app data (crates/app-data), banned users
      (crates/order-validation) and the rules for orders
      (shared/src/order_validation.rs).
    - OrderStore.v: the tables of orders, their events and app data
      (crates/database/src), the transactions and queries over them
      (orderbook/src/database/orders.rs, shared/src/db_order_conversions.rs).
    - OrderBook.v: the service (orderbook/src/orderbook.rs, quoter.rs,
      app_data.rs), whose calls interleave with other services in [step].

    Prices and balances (crates/shared/src):
    - Estimators.v: price estimators as functions from queries to answers: the
      sanitizer, the estimator of native prices, and the competition in stages
      with its two rankings (price_estimation/), and the detector of bad tokens
      with explicit lists (bad_token/).
    - Caches.v: the caches of native prices (price_estimation/
      native_price_cache.rs), balances (account_balances/cached.rs) and bad
      tokens (bad_token/cache.rs). Each critical section is a function on the
      state under the lock, and histories are sequences of them.

    Liquidity (crates/shared/src):
    - FixedPoint.v, LogExpMath.v, WeightedMath.v, StableMath.v: the mathematics
      of Balancer pools (sources/balancer_v2/swap). The numbers a Solidity
      contract computes on chain are computed here in [U256]; what matters is
      that no input panics and that rounding is on the right side.
    - BalancerSwap.v: the pools as liquidity (swap.rs, pools/): fees, scaling,
      and the search [converge_in_amount] for an input that buys an output.
    - UniswapV2.v: constant product pools (sources/uniswap_v2/pool_fetching.rs).
    - BaselineSolver.v: token pairs, candidate paths and the best route
      (baseline_solver.rs). The trait [BaselineSolvable] is a class; the class
      [Covering] is the promise of its implementations that the input they
      quote buys the output asked for. Both kinds of pools keep it, and the
      theorem about routes is proved against it.

    Following the chain:
    - RateLimit.v: crates/rate-limit/src/lib.rs. The strategy as a record with
      its transitions; the limiter as a step relation of interleaved tasks.
    - RecentBlockCache.v: shared/src/recent_block_cache.rs. Each critical
      section of [fetch] and [update_cache_at_block] is a function on the state
      under the lock; [step] lets them interleave.
    - EventHandling.v: shared/src/event_handling.rs with the block ranges of
      ethrpc/src/current_block. The stores are instances of the class
      [EventStoring]; [EventStoringLaws], over a relation between the store and
      the events it holds, is what the handler needs of them ([EventKey] says
      which events the chain cannot hold twice). The
      stores of uniswap_v3/event_fetching.rs and cow-amm/src/cache.rs are
      modelled; the second breaks the promise, and a lemma says how.

    The driver (crates/driver/src/domain/competition), in the order of a
    competition:
    - DriverOrder.v: amounts, allowances (domain/eth), orders and what is
      available of them (order/), token prices (auction.rs).
    - Auction.v: the auction and its preprocessing: fetching balances, sorting
      by priority, handing out the balance of each trader (auction.rs).
    - Trade.v: fulfillments and JIT trades, and the protocol fees taken from
      them (solution/trade.rs, solution/fee.rs).
    - Scoring.v: the score of a solution (solution/scoring.rs).
    - Solution.v: construction with fees, merging, allowances, prices
      (solution/mod.rs, solution/interaction.rs).
    - Encoding.v: slippage and the transaction (solution/slippage.rs,
      solution/encoding.rs).
    - Competition.v: settlements and their rules (solution/settlement.rs), and
      the competition (competition/mod.rs) as a machine whose state is the
      settlement that is stored, with the operations solve, reveal, settle and
      the arrival of blocks.

    The autopilot (crates/autopilot/src):
    - ProtocolFees.v: which fee policies an order of an auction has
      (domain/fee), over the quotes of the database (infra/persistence/dto).
    - SolvableOrders.v: how an auction is cut (solvable_orders.rs): the filters,
      the prices, the counter of what they remove, and the events logged. It
      composes the query of OrderStore.v, the caches of Caches.v, the banned
      users of OrderValidation.v and the policies of ProtocolFees.v.
    - OnchainSettlement.v: decoding the call data of a mined settlement and
      scoring it (domain/settlement/solution/). Here the driver and the autopilot
      meet: the theorems relate what one encodes to what the other decodes.
    - SettlementIndex.v: the tables of the contract's logs and of what is derived
      from them (database/events.rs, boundary/events/settlement.rs and
      crates/database/src), an instance of [EventStoring] and its laws, and the
      task that finds the auction of each settlement and records what it
      achieved (on_settlement_event_updater.rs), with DecodedSettlement.v.
    - CompetitionStore.v: what is kept of a competition: the tables, the
      transactions that fill them (database/competition.rs), the data transfer
      objects of auctions and policies (infra/persistence/dto), the queries that
      put an auction and its winner together again (infra/persistence/mod.rs),
      and the settlement made of them (domain/settlement/mod.rs).
    - RunLoop.v: the run loop (run_loop.rs, infra/solvers/dto/solve.rs): orders in
      flight, the competition of the drivers, revealing, saving, settling. What is
      answered while an auction is run is a record [Answers]; [world_op] lets
      runs and the tasks of SettlementIndex.v take turns on the same tables.
    - OnchainOrders.v: orders that contracts place (database/onchain_order_events.rs,
      ethflow_events.rs, ethflow_events/event_storing.rs, and their tables in
      crates/database/src): another instance of [EventStoring] with its laws. What
      a kind of order has in its event is the class [OnchainOrderParsing] with
      its laws, of which ETH flow orders are the instance; the quoter and the
      order in which futures complete are the record [Services].

    The refunder (crates/refunder/src):
    - Refunder.v: the orders that expired unfilled, the transaction that refunds
      them, its gas prices, and the loop, over the tables of OnchainOrders.v.

    Solvers (crates/solvers, crates/solver):
    - SolverSolution.v: solutions of the engines (solvers/src/domain/solution.rs,
      order.rs, auction.rs): fulfillments and fees, solutions for single orders,
      internalization of interactions.
    - BaselineEngine.v: the baseline engine (domain/solver/baseline.rs with
      boundary/baseline.rs and the liquidity of both): the loop over orders and
      partial fills around the routes of BaselineSolver.v, whose class it
      instantiates with the liquidity of an auction.
    - NaiveSolver.v: the naive engine (domain/solver/naive.rs, boundary/naive.rs,
      solver/src/solver/naive_solver/multi_order_solver.rs): the orders of a pair
      are matched with each other, and the rest with a pool, over the encoder of
      SettlementEncoder.v. What the handler of the pool captures is a state, as
      it outlives an attempt that fails.
    - SettlementEncoder.v: the encoder solvers build a settlement with
      (solver/src/settlement/settlement_encoder.rs, settlement.rs) and the trades
      it is made of (shared/src/encoded_settlement.rs). Module [EncoderSpec]
      has the operations as data, what the contract executes, and the
      invariant.
    - DecodedSettlement.v: the decoder of the autopilot for the same call data
      (autopilot/src/decoded_settlement.rs), with surplus and fees over
      shared/src/external_prices.rs.

    ** What the theorems show

    - Across services: the autopilot reads from the call data the driver sent
      the score the driver bid with ([onchain_score_is_driver_score], from
      [autopilot_scores_like_driver] for the mathematics and the encoding
      below); it decodes from a settlement of the solvers' encoder the orders
      that were added to it and the fees they were priced for; the flags of a
      trade survive the round trip, the parts of an order identifier do not.
    - Orders: the hashed data determines the order, an owner is verified when
      all who name one agree, and what a key signs verifies.
    - The order book: what is accepted is the signed order of its unanimous
      owner and obeys the rules, and is read back as it was stored; quotes are
      found with the amounts that were answered until they expire, documents
      for good; only owners cancel orders; the query that feeds auctions and
      the status that clients see agree.
    - Auctions: every order of an auction is settleable by what the services
      answer, no order disappears without a report, and the fee policies are
      those a specification lists. The best estimate wins a competition,
      which asks no more estimators than it waits for; cached prices and balances
      are recent answers, and balances those of the current block. The best bid
      of an auction wins, what is saved of it reads back, its orders are not
      offered again while they settle, and ([rewards_go_to_best_bids], across the
      run loop, the indexer and the updater) rewards are recorded for settlements
      of solvers that made the best bid.
    - Solvers: the solutions of the baseline engine settle orders of the
      auction within their limits, over routes that quote what they use; those
      of the naive engine fill orders within their limits, and the swap that
      balances them covers what they lack at a price where demand meets supply;
      internalized interactions stay within the buffers; the encoder executes
      trades as it announced them, whatever was added in between.
    - Following the chain: an update leaves the store with the events of the
      new chain, through reorganizations; an interrupted one leaves it behind
      but repairable; a cache answers what the fetcher would, however fetches
      and updates interleave; the rate limiter lets tasks through again. The
      tables of the autopilot have the trades and settlements of the chain; every
      settlement gets an auction, and an auction is rewarded at most once, to its
      winner.
    - Orders placed on chain: the live ones and the invalidations are those of the
      chain; one that is offered to solvers has the quote, validity and
      interaction its settlement needs; the indexing of a batch fails as a whole, for
      reasons that are listed; refunds go to orders that are due, name what
      was placed, and a transaction that replaces another outbids it.
    - The competition: protocol fees keep users within their limits, conserve
      the value of a trade and are taken in every policy; the balance of a
      trader is handed out once; merging keeps prices consistent, settles an
      order once and terminates; the call data reproduces the amounts of every
      trade; the settlement kept is the best one, obeys the rules of the
      protocol and is executed at most once.
    - Liquidity: candidate paths are exactly the simple ones; quotes never
      panic, stay within reserves, and an input quoted for an output buys it;
      the product of a constant product pool does not shrink; the Newton
      iterations of stable pools end on the curve.

    ** Fuel and bounds

    Loops of the code that are bounded keep their bound (255 Newton rounds, 6
    bumps of an input amount, 10 merged solutions). [merge] of two solutions
    calls itself with swapped arguments; its model takes fuel 2 and
    [merge_terminates] shows that more makes no difference. Recursions of the
    logarithm and the exponential take fuel 2 for the one call on the inverse
    argument. Everything else is structural.

    ** What is a parameter, and what is assumed of it

    The node, the fetchers, the contracts' bindings and encoders, the LRU list
    of the cache, the hash function keccak256, the recovery of signers from
    ECDSA signatures, the parser of JSON, estimators of gas and prices, and the
    lossy conversions between [U256] and floats, the comparison of a slippage that
    the database computes and the bump of a gas price are parameters of the
    definitions that use them. The theorems assume of them what their documentation says:
    that the decoder of call data inverts the encoder, that recovery finds the
    key that signed, that hashes have 32 bytes, that a node answers with
    linked blocks, that a fetcher answers for the keys it is asked, that the
    lossy conversion is nonnegative, monotone or below its argument where that
    is used, that bumped fees are numbers. Each theorem with such an assumption has a witness in which the
    parameter is a concrete function. Floats are those of SpecFloat at the
    format of binary64.

    ** Not modelled

    The HTTP services, their serialization, the configuration, metrics and the
    clients of external services: their logic is that of the systems they talk
    to. Of the database, the tables and queries of quotes and orders are
    modelled as finite maps and functions of them; a transaction is atomic.
    Of the parts with logic of their own, the verification of quotes by
    simulation and the adapters of the legacy liquidity are calls of contract
    bindings, and the mempools of the driver a loop over a node's answers; they
    are left out. Requests that the code
    makes concurrently are made in order where their answers do not depend on
    it; HashMap iteration follows the order of stdpp's [map_to_list] and the
    theorems do not depend on it, save for which of several errors is reported.
    *)
From Stdlib Require Import ZArith Lia.
From stdpp Require Import prelude.

#[global] Set Default Goal Selector "!".

Open Scope Z_scope.

(** * Outcomes of a Rust computation

    A fallible function of the code either returns a value, returns an error
    through [Result]/[Option], or panics (an [unwrap]/[expect] on the wrong
    variant, an arithmetic operator that overflows, an index out of range).
    [res E A] keeps the three apart; an [Option]-returning function that can
    panic is a [res unit A]. *)
Inductive res (E A : Type) : Type :=
| Ok (a : A)
| Err (e : E)
| Panic.
Arguments Ok {E A} a.
Arguments Err {E A} e.
Arguments Panic {E A}.

Definition rbind {E A B} (m : res E A) (k : A -> res E B) : res E B :=
  match m with
  | Ok a => k a
  | Err e => Err e
  | Panic => Panic
  end.

Declare Scope rust_scope.
Delimit Scope rust_scope with rust.
Notation "'let*' x := m 'in' k" := (rbind m (fun x => k))
  (at level 10, x name, m at level 100, k at level 200) : rust_scope.
Notation "'let*' ' p := m 'in' k" := (rbind m (fun p => k))
  (at level 10, p strict pattern, m at level 100, k at level 200) : rust_scope.
Open Scope rust_scope.

(** [Option::ok_or], [Result::ok], [Result::map_err], [Option::expect]. *)
Definition ok_or {E A} (o : option A) (e : E) : res E A :=
  match o with Some a => Ok a | None => Err e end.
Definition res_ok {E A} (m : res E A) : res unit A :=
  match m with Ok a => Ok a | Err _ => Err tt | Panic => Panic end.
Definition map_err {E F A} (f : E -> F) (m : res E A) : res F A :=
  match m with Ok a => Ok a | Err e => Err (f e) | Panic => Panic end.
Definition opt_expect {E A} (o : option A) : res E A :=
  match o with Some a => Ok a | None => Panic end.
Definition res_expect {E F A} (m : res E A) : res F A :=
  match m with Ok a => Ok a | _ => Panic end.
Definition res_map {E A B} (f : A -> B) (m : res E A) : res E B :=
  let* a := m in Ok (f a).
Definition opt {A} (o : option A) : res unit A := ok_or o tt.

(** A loop over a list that threads a state and may stop early. *)
Fixpoint rfold {E A S} (f : S -> A -> res E S) (s : S) (l : list A) : res E S :=
  match l with
  | [] => Ok s
  | a :: l => let* s' := f s a in rfold f s' l
  end.

Fixpoint rmap {E A B} (f : A -> res E B) (l : list A) : res E (list B) :=
  match l with
  | [] => Ok []
  | a :: l => let* b := f a in let* bs := rmap f l in Ok (b :: bs)
  end.

(** ** Computations over a state, which they change even when they fail *)
Definition st (S E A : Type) : Type := S -> S * res E A.
Definition st_lift {S E A} (m : res E A) : st S E A := fun s => (s, m).
Definition st_bind {S E A B} (m : st S E A) (k : A -> st S E B) : st S E B := fun s =>
  match m s with
  | (s, Ok a) => k a s
  | (s, Err e) => (s, Err e)
  | (s, Panic) => (s, Panic)
  end.
Definition st_map_err {S E F A} (f : E -> F) (m : st S E A) : st S F A := fun s => let '(s, r) := m s in (s, map_err f r).
(** A computation over a part of the state. *)
Definition st_fst {S T E A} (m : st S E A) : st (S * T) E A := fun s => let '(s1, r) := m s.1 in ((s1, s.2), r).
Definition st_snd {S T E A} (m : st T E A) : st (S * T) E A := fun s => let '(s2, r) := m s.2 in ((s.1, s2), r).
Notation "'let!' x := m 'in' k" := (st_bind m (fun x => k))
  (at level 10, x name, m at level 100, k at level 200) : rust_scope.
Notation "'let!' ' p := m 'in' k" := (st_bind m (fun p => k))
  (at level 10, p strict pattern, m at level 100, k at level 200) : rust_scope.

(** ** Reasoning about outcomes

    [returns Q m]: [m] does not panic, and a value it returns satisfies [Q].
    [total Q m]: [m] returns a value, and it satisfies [Q]. *)
Definition returns {E A} (Q : A -> Prop) (m : res E A) : Prop :=
  match m with Ok a => Q a | Err _ => True | Panic => False end.
Definition total {E A} (Q : A -> Prop) (m : res E A) : Prop :=
  match m with Ok a => Q a | _ => False end.
Definition panic_free {E A} (m : res E A) : Prop := m <> Panic.
Definition is_ok {E A} (m : res E A) : bool :=
  match m with Ok _ => true | _ => false end.

Create HintDb rust.

Section outcome_lemmas.
Context {E F A B : Type}.
Implicit Types (m : res E A) (k : A -> res E B).

Lemma rbind_Ok m k b :
  rbind m k = Ok b <-> exists a, m = Ok a /\ k a = Ok b.
Proof. destruct m; simpl; naive_solver. Qed.

Lemma rbind_Err m k e :
  rbind m k = Err e <-> m = Err e \/ exists a, m = Ok a /\ k a = Err e.
Proof. destruct m; simpl; naive_solver. Qed.

Lemma st_bind_Ok {S} (m : st S E A) (k : A -> st S E B) s s' b :
  st_bind m k s = (s', Ok b) <-> exists s1 a, m s = (s1, Ok a) /\ k a s1 = (s', Ok b).
Proof. unfold st_bind. destruct (m s) as [s1 []]; naive_solver. Qed.

Lemma st_lift_Ok {S} m (s s' : S) a : st_lift m s = (s', Ok a) <-> s' = s /\ m = Ok a.
Proof. unfold st_lift. naive_solver. Qed.

Lemma st_map_err_Ok {S} (f : E -> F) (m : st S E A) (s s' : S) a :
  st_map_err f m s = (s', Ok a) <-> m s = (s', Ok a).
Proof. unfold st_map_err. destruct (m s) as [s1 []]; naive_solver. Qed.

Lemma st_fst_Ok {S T} (m : st S E A) (s s' : S * T) a :
  st_fst m s = (s', Ok a) <-> m s.1 = (s'.1, Ok a) /\ s'.2 = s.2.
Proof. unfold st_fst. destruct (m s.1) as [s1 r], s, s'. naive_solver. Qed.

Lemma st_snd_Ok {S T} (m : st T E A) (s s' : S * T) a :
  st_snd m s = (s', Ok a) <-> m s.2 = (s'.2, Ok a) /\ s'.1 = s.1.
Proof. unfold st_snd. destruct (m s.2) as [s2 r], s, s'. naive_solver. Qed.

Lemma ok_or_Ok (o : option A) (e : E) a : ok_or o e = Ok a <-> o = Some a.
Proof. destruct o; simpl; naive_solver. Qed.

Lemma opt_expect_Ok (o : option A) a :
  (opt_expect o : res E A) = Ok a <-> o = Some a.
Proof. destruct o; simpl; naive_solver. Qed.

Lemma res_ok_Ok m a : res_ok m = Ok a <-> m = Ok a.
Proof. destruct m; simpl; naive_solver. Qed.

Lemma map_err_Ok (f : E -> F) m a : map_err f m = Ok a <-> m = Ok a.
Proof. destruct m; simpl; naive_solver. Qed.

Lemma res_expect_Ok m a : (res_expect m : res F A) = Ok a <-> m = Ok a.
Proof. destruct m; simpl; naive_solver. Qed.

Lemma res_map_Ok (f : A -> B) m b :
  res_map f m = Ok b <-> exists a, m = Ok a /\ f a = b.
Proof. destruct m; simpl; naive_solver. Qed.

Lemma returns_bind (P : A -> Prop) (Q : B -> Prop) m k :
  returns P m -> (forall a, P a -> returns Q (k a)) -> returns Q (rbind m k).
Proof. destruct m; simpl; auto. Qed.

Lemma returns_mono (P Q : A -> Prop) m :
  returns P m -> (forall a, P a -> Q a) -> returns Q m.
Proof. destruct m; simpl; auto. Qed.

Lemma returns_Ok (Q : A -> Prop) m a : returns Q m -> m = Ok a -> Q a.
Proof. intros H ->. exact H. Qed.

Lemma returns_panic_free (Q : A -> Prop) m : returns Q m -> panic_free m.
Proof. unfold panic_free. destruct m; simpl; naive_solver. Qed.

Lemma panic_free_returns m : panic_free m -> returns (fun _ => True) m.
Proof. unfold panic_free. destruct m; simpl; naive_solver. Qed.

Lemma total_returns (Q : A -> Prop) m : total Q m -> returns Q m.
Proof. destruct m; simpl; tauto. Qed.

Lemma total_bind (P : A -> Prop) (Q : B -> Prop) m k :
  total P m -> (forall a, P a -> total Q (k a)) -> total Q (rbind m k).
Proof. destruct m; simpl; auto; tauto. Qed.

Lemma total_mono (P Q : A -> Prop) m :
  total P m -> (forall a, P a -> Q a) -> total Q m.
Proof. destruct m; simpl; auto. Qed.

Lemma total_Ok (Q : A -> Prop) m : total Q m -> exists a, m = Ok a /\ Q a.
Proof. destruct m; simpl; naive_solver. Qed.

Lemma returns_ok_or (Q : A -> Prop) (o : option A) (e : E) :
  (forall a, o = Some a -> Q a) -> returns Q (ok_or o e).
Proof. destruct o; simpl; auto. Qed.

Lemma returns_map_err (Q : A -> Prop) (f : E -> F) m :
  returns Q m -> returns Q (map_err f m).
Proof. destruct m; simpl; auto. Qed.

Lemma returns_res_ok (Q : A -> Prop) m : returns Q m -> returns Q (res_ok m).
Proof. destruct m; simpl; auto. Qed.

Lemma total_res_expect (Q : A -> Prop) m :
  total Q m -> total Q (res_expect m : res F A).
Proof. destruct m; simpl; auto. Qed.
End outcome_lemmas.

#[export] Hint Resolve returns_map_err returns_res_ok total_returns : rust.

Section loop_lemmas.
Context {E A S : Type}.

(** Hoare rule of the loop: an invariant the body keeps holds at the end. *)
Lemma rfold_returns (I : S -> Prop) (f : S -> A -> res E S) (l : list A) s :
  I s -> (forall s a, a ∈ l -> I s -> returns I (f s a)) -> returns I (rfold f s l).
Proof.
  revert s. induction l as [|a l IH]; intros s Hs Hf; simpl; [exact Hs|].
  eapply returns_bind; [apply Hf; [left|exact Hs]|].
  intros s' Hs'. apply IH; [exact Hs'|]. intros; apply Hf; [by right|done].
Qed.

Lemma rfold_total (I : S -> Prop) (f : S -> A -> res E S) (l : list A) s :
  I s -> (forall s a, a ∈ l -> I s -> total I (f s a)) -> total I (rfold f s l).
Proof.
  revert s. induction l as [|a l IH]; intros s Hs Hf; simpl; [exact Hs|].
  eapply total_bind; [apply Hf; [left|exact Hs]|].
  intros s' Hs'. apply IH; [exact Hs'|]. intros; apply Hf; [by right|done].
Qed.

(** The same with an invariant that depends on the number of rounds done. *)
Lemma rfold_total_count (I : nat -> S -> Prop) (f : S -> A -> res E S) (l : list A) k s :
  I k s ->
  (forall j s a, (j < k + length l)%nat -> a ∈ l -> I j s -> total (I (Datatypes.S j)) (f s a)) ->
  total (I (k + length l)%nat) (rfold f s l).
Proof.
  revert k s. induction l as [|a l IH]; intros k s Hs Hf; simpl.
  { by rewrite Nat.add_0_r. }
  eapply total_bind; [apply (Hf k); [simpl; lia|left|exact Hs]|].
  intros s' Hs'. rewrite Nat.add_succ_r. apply (IH (Datatypes.S k)); [exact Hs'|].
  intros; apply Hf; [simpl; lia|by right|done].
Qed.

Lemma rfold_Ok_inv (I : S -> Prop) (f : S -> A -> res E S) (l : list A) s s' :
  rfold f s l = Ok s' -> I s ->
  (forall s a s1, a ∈ l -> I s -> f s a = Ok s1 -> I s1) -> I s'.
Proof.
  revert s. induction l as [|a l IH]; intros s Hr Hs Hf; simpl in Hr.
  { by simplify_eq. }
  apply rbind_Ok in Hr as (s1 & H1 & H2).
  apply (IH _ H2); [eapply Hf; [left|done..]|].
  intros; eapply Hf; [by right|done..].
Qed.

Lemma rfold_app (f : S -> A -> res E S) (l l' : list A) s :
  rfold f s (l ++ l') = let* s' := rfold f s l in rfold f s' l'.
Proof.
  revert s. induction l as [|a l IH]; intros s; simpl; [done|].
  destruct (f s a); simpl; auto.
Qed.
End loop_lemmas.

Lemma rmap_Ok {E A B} (f : A -> res E B) (l : list A) (bs : list B) :
  rmap f l = Ok bs <-> Forall2 (fun a b => f a = Ok b) l bs.
Proof.
  revert bs. induction l as [|a l IH]; intros bs; simpl.
  - split; [intros [= <-]; constructor|by inversion 1].
  - rewrite rbind_Ok. setoid_rewrite rbind_Ok. setoid_rewrite IH. split.
    + intros (b & Hb & bs' & Hbs & [= <-]). by constructor.
    + inversion 1; subst. eauto 10.
Qed.

Lemma rmap_returns {E A B} (Q : B -> Prop) (f : A -> res E B) (l : list A) :
  (forall a, a ∈ l -> returns Q (f a)) -> returns (Forall Q) (rmap f l).
Proof.
  induction l as [|a l IH]; intros Hf; simpl; [constructor|].
  eapply returns_bind; [apply Hf; left|]. intros b Hb.
  eapply returns_bind; [apply IH; intros; apply Hf; by right|].
  intros bs Hbs. simpl. by constructor.
Qed.

Lemma Forall_elem {A} (P : A -> Prop) (l : list A) x : Forall P l -> x ∈ l -> P x.
Proof. induction 1; [by intros ?%not_elem_of_nil|]. by intros [->|?]%elem_of_cons; auto. Qed.

Lemma existsb_false {A} (f : A -> bool) (l : list A) :
  existsb f l = false <-> Forall (fun x => f x = false) l.
Proof.
  induction l as [|x l IH]; cbn; [split; [constructor|done]|].
  rewrite orb_false_iff, IH, Forall_cons. done.
Qed.

Lemma rmap_returns2 {E A B} (Q : A -> B -> Prop) (f : A -> res E B) (l : list A) :
  (forall a, a ∈ l -> returns (Q a) (f a)) -> returns (Forall2 Q l) (rmap f l).
Proof.
  induction l as [|a l IH]; intros Hf; simpl; [constructor|].
  eapply returns_bind; [apply Hf; left|]. intros b Hb.
  eapply returns_bind; [apply IH; intros; apply Hf; by right|].
  intros bs Hbs. simpl. by constructor.
Qed.

Lemma Forall2_chain {A B C} (P : A -> B -> Prop) (Q : B -> C -> Prop) (R : A -> C -> Prop) l l' l'' :
  Forall2 P l l' -> Forall2 Q l' l'' -> (forall a b c, P a b -> Q b c -> R a c) -> Forall2 R l l''.
Proof.
  intros H1. revert l''. induction H1; intros l'' H2 HR; inversion H2; subst; constructor; eauto.
Qed.

Lemma filter_all {A} (P : A -> Prop) `{forall x, Decision (P x)} (l : list A) :
  Forall P l -> filter P l = l.
Proof. induction 1; [done|]. rewrite filter_cons_True by done. by f_equal. Qed.

Lemma filter_none {A} (P : A -> Prop) `{forall x, Decision (P x)} (l : list A) :
  Forall (fun x => ~ P x) l -> filter P l = [].
Proof. induction 1; [done|]. by rewrite filter_cons_False. Qed.

(** ** BTreeMap: an association list in the order of its keys *)
Abbreviation btree A := (list (Z * A)) (only parsing).
Fixpoint bt_get {A} (m : btree A) (k : Z) : option A :=
  match m with
  | [] => None
  | (k', a) :: m => if k' =? k then Some a else bt_get m k
  end.
(** Insertion in order; the value of a key already there is replaced. *)
Fixpoint bt_insert {A} (m : btree A) (k : Z) (a : A) : btree A :=
  match m with
  | [] => [(k, a)]
  | (k', a') :: m' =>
      if k <? k' then (k, a) :: m
      else if k =? k' then (k, a) :: m'
      else (k', a') :: bt_insert m' k a
  end.
Definition bt_wf {A} (m : btree A) : Prop := NoDup (map fst m).

Lemma bt_get_elem {A} (m : btree A) k a : bt_get m k = Some a -> (k, a) ∈ m.
Proof.
  induction m as [|[k' a'] m IH]; simpl; [done|].
  destruct (Z.eqb_spec k' k) as [->|]; [intros [= ->]; by left|]. right. auto.
Qed.

Lemma bt_elem_get {A} (m : btree A) k a : bt_wf m -> (k, a) ∈ m -> bt_get m k = Some a.
Proof.
  unfold bt_wf. induction m as [|[k' a'] m IH]; simpl; [by intros _ ?%elem_of_nil|].
  intros [Hk Hm]%NoDup_cons [Heq|Hin]%elem_of_cons.
  - simplify_eq. by rewrite Z.eqb_refl.
  - destruct (Z.eqb_spec k' k) as [->|]; [|auto]. destruct Hk.
    apply list_elem_of_fmap. by exists (k, a).
Qed.

(** ** Library functions of the code: [u64::saturating_sub], [slice::chunks] *)
Definition saturating_sub (a b : Z) : Z := Z.max (a - b) 0.

Fixpoint chunks_fuel {A} (fuel n : nat) (l : list A) : list (list A) :=
  match fuel, l with
  | S fuel, _ :: _ => take n l :: chunks_fuel fuel n (drop n l)
  | _, _ => []
  end.
(** [slice::chunks] *)
Definition chunks {A} (n : nat) (l : list A) : list (list A) := chunks_fuel (length l) n l.

Lemma chunks_concat {A} n (l : list A) : (0 < n)%nat -> concat (chunks n l) = l.
Proof.
  intros Hn. unfold chunks. assert (Hg : forall fuel (l : list A), (length l <= fuel)%nat ->
    concat (chunks_fuel fuel n l) = l).
  { clear l. induction fuel as [|fuel IH]; intros l Hl; [by destruct l; simpl in *; [|lia]|].
    destruct l as [|x l]; [done|]. cbn [chunks_fuel concat]. rewrite IH.
    - by rewrite take_drop.
    - rewrite length_drop. simpl in *. lia. }
  by apply Hg.
Qed.

(** [Vec::swap_remove] of an index in range *)
Definition swap_remove {A} (l : list A) (i : nat) : list A :=
  match last l with
  | Some x => take (length l - 1) (<[i := x]> l)
  | None => l
  end.

Lemma swap_remove_perm {A} (l : list A) i x : l !! i = Some x -> x :: swap_remove l i ≡ₚ l.
Proof.
  intros Hi. unfold swap_remove. destruct l as [|y l _] using rev_ind; [done|].
  rewrite last_snoc, length_app. cbn [length]. replace (length l + 1 - 1)%nat with (length l) by lia.
  destruct (decide (i < length l)%nat) as [Hlt|Hge].
  - rewrite lookup_app_l in Hi by done. rewrite insert_app_l by done.
    rewrite take_app_le by (rewrite length_insert; lia). rewrite take_ge by (rewrite length_insert; lia).
    rewrite <- (take_drop_middle l i x) at 2 by done. rewrite insert_take_drop by done.
    rewrite <- app_assoc. cbn. rewrite <- !Permutation_middle. rewrite Permutation_app_comm. solve_Permutation.
  - apply lookup_lt_Some in Hi as Hlt. rewrite length_app in Hlt. cbn in Hlt. assert (i = length l) as -> by lia.
    rewrite lookup_app_r, Nat.sub_diag in Hi by lia. cbn in Hi. injection Hi as ->.
    rewrite insert_app_r_alt, Nat.sub_diag by lia. cbn. rewrite take_app_length. solve_Permutation.
Qed.
Lemma submseteq_NoDup {A} (l k : list A) : l ⊆+ k -> NoDup k -> NoDup l.
Proof. intros [k' ->]%submseteq_Permutation. by intros [? _]%NoDup_app. Qed.

(** ** Tactics *)

(** Break every hypothesis that says a composite computation returned [Ok]
    into the facts about its steps. *)
Ltac inv_ok_step :=
  match goal with
  | H : rbind _ _ = Ok _ |- _ =>
      apply (proj1 (rbind_Ok _ _ _)) in H;
      let a := fresh "v" in let H1 := fresh "Hv" in
      destruct H as (a & H1 & H)
  | H : ok_or _ _ = Ok _ |- _ => apply (proj1 (ok_or_Ok _ _ _)) in H
  | H : opt _ = Ok _ |- _ => apply (proj1 (ok_or_Ok _ _ _)) in H
  | H : opt_expect _ = Ok _ |- _ => apply (proj1 (opt_expect_Ok _ _)) in H
  | H : res_ok _ = Ok _ |- _ => apply (proj1 (res_ok_Ok _ _)) in H
  | H : map_err _ _ = Ok _ |- _ => apply (proj1 (map_err_Ok _ _ _)) in H
  | H : res_expect _ = Ok _ |- _ => apply (proj1 (res_expect_Ok _ _)) in H
  | H : Ok _ = Ok _ |- _ => injection H as H; try subst
  | H : Err _ = Ok _ |- _ => discriminate H
  | H : Panic = Ok _ |- _ => discriminate H
  | H : Some _ = Some _ |- _ => injection H as H; try subst
  | H : None = Some _ |- _ => discriminate H
  end.
Ltac inv_ok := repeat inv_ok_step.

(** Boolean tests of [Z] as propositions, in hypotheses. *)
Ltac bool_to_prop :=
  repeat match goal with
  | H : (_ && _)%bool = true |- _ => apply andb_prop in H as [? ?]
  | H : (_ || _)%bool = false |- _ => apply orb_false_iff in H as [? ?]
  | H : negb _ = true |- _ => apply negb_true_iff in H
  | H : negb _ = false |- _ => apply negb_false_iff in H
  | H : (_ <=? _) = true |- _ => apply Z.leb_le in H
  | H : (_ <=? _) = false |- _ => apply Z.leb_gt in H
  | H : (_ <? _) = true |- _ => apply Z.ltb_lt in H
  | H : (_ <? _) = false |- _ => apply Z.ltb_ge in H
  | H : (_ =? _) = true |- _ => apply Z.eqb_eq in H
  | H : (_ =? _) = false |- _ => apply Z.eqb_neq in H
  end.

(** Case analysis on the [if]s and [match]es in sight, closing what the
    resulting equations contradict. *)
Ltac split_cases :=
  repeat (case_match; simplify_eq/=; try done); bool_to_prop.

(** [returns] of a composite computation none of whose steps can panic. *)
Ltac no_panic :=
  repeat match goal with
  | |- returns _ (rbind _ _) => eapply (returns_bind (fun _ => True)); [|intros ? _]
  | |- returns _ (ok_or _ _) => apply returns_ok_or; intros ? _
  | |- returns _ (map_err _ _) => apply returns_map_err
  | |- returns _ (Ok _) => cbn [returns]
  | |- returns _ (Err _) => exact I
  | |- returns _ (if ?b then _ else _) => destruct b
  | |- returns _ (match ?x with _ => _ end) => destruct x
  end.

(** A closed (in)equality of numbers, by evaluation. *)
Ltac closed := vm_compute; first [reflexivity | discriminate | congruence].
