(* ===== verification/U256.v ===== *)
(** Machine integers of the services.

    [primitive_types::U256] is a [Z] in [0 .. 2^256 - 1]: the [checked_*]
    methods return [None] out of range, the operators [+ - * /] panic there
    and the [saturating_*] methods clamp. [ethcontract::I256] is a [Z] in
    [-2^255 .. 2^255 - 1] with panicking operators and division truncated
    towards zero. [num::BigInt] is [Z], [num::BigRational] is stdpp's
    normalised [Qc], [U512] (the result of [U256::full_mul]) is a [Z] that
    cannot overflow. [H160] addresses are their unsigned value.

    The helpers of src/ are here as well: [checked_ceil_div] and [ceil_div] of
    crates/driver/src/util/conv/u256.rs and crates/shared/src/conversions.rs,
    [mul_ratio] and [mul_ratio_ceil] of crates/driver/src/util/math.rs, and the
    conversions of crates/number/src/conversions.rs. *)
From stdpp Require Import base numbers option tactics.
From Stdlib Require Import ZArith Lia QArith Qcanon.
From S2P Require Import Prelude.

Open Scope Z_scope.
Open Scope rust_scope.

(** * U256 *)
Definition U256_MAX : Z := 2 ^ 256 - 1.
Definition u256 (z : Z) : Prop := 0 <= z <= U256_MAX.
Definition u256b (z : Z) : bool := (0 <=? z) && (z <=? U256_MAX).

Definition checked_add (a b : Z) : option Z :=
  if a + b <=? U256_MAX then Some (a + b) else None.
Definition checked_sub (a b : Z) : option Z :=
  if b <=? a then Some (a - b) else None.
Definition checked_mul (a b : Z) : option Z :=
  if a * b <=? U256_MAX then Some (a * b) else None.
Definition checked_div (a b : Z) : option Z :=
  if b =? 0 then None else Some (a / b).
Definition checked_rem (a b : Z) : option Z :=
  if b =? 0 then None else Some (a mod b).

Definition saturating_add (a b : Z) : Z := Z.min (a + b) U256_MAX.
Definition saturating_sub (a b : Z) : Z := Z.max (a - b) 0.

(** The operators, which panic out of range. *)
Definition u_add {E} (a b : Z) : res E Z := opt_expect (checked_add a b).
Definition u_sub {E} (a b : Z) : res E Z := opt_expect (checked_sub a b).
Definition u_mul {E} (a b : Z) : res E Z := opt_expect (checked_mul a b).
Definition u_div {E} (a b : Z) : res E Z := opt_expect (checked_div a b).

(** [U256::try_from(U512)] *)
Definition u256_try_from (z : Z) : option Z := if z <=? U256_MAX then Some z else None.

(** ** [U256Ext] *)
Definition checked_ceil_div (self other : Z) : option Z :=
  match checked_sub other 1 with
  | None => None
  | Some o => match checked_add self o with
              | None => None
              | Some s => checked_div s other
              end
  end.

Definition ceil_div {E} (self other : Z) : res E Z :=
  opt_expect (checked_ceil_div self other).

(** ** util/math.rs of the driver: [x * q / d] over the full product *)
Definition mul_ratio (x q d : Z) : option Z :=
  match checked_div (x * q) d with
  | None => None
  | Some r => u256_try_from r
  end.

Definition mul_ratio_ceil (x q d : Z) : option Z :=
  let p := x * q in
  match checked_div p d with
  | None => None
  | Some r =>
      match u256_try_from r with
      | None => None
      | Some result =>
          match checked_rem p d with
          | None => None
          | Some m => checked_add result (if negb (m =? 0) then 1 else 0)
          end
      end
  end.

(** ** number/src/conversions.rs *)
Definition big_uint_to_u256 (input : Z) : option Z := u256_try_from input.
Definition big_int_to_u256 (input : Z) : option Z :=
  if input <? 0 then None else big_uint_to_u256 (Z.abs input).
Definition u256_to_big_rational (input : Z) : Qc := Qc_of_Z input.
Definition qc_numer (q : Qc) : Z := Qnum (this q).
Definition qc_denom (q : Qc) : Z := Zpos (Qden (this q)).
Definition big_rational_to_u256 (ratio : Qc) : option Z :=
  if qc_denom ratio =? 0 then None
  else big_int_to_u256 (Z.quot (qc_numer ratio) (qc_denom ratio)).
(** [BigRational::new], which panics on a zero denominator. *)
Definition big_rational_new {E} (n d : Z) : res E Qc :=
  if d =? 0 then Panic else Ok (Qc_of_Z n / Qc_of_Z d)%Qc.

(** * I256 *)
Definition I256_MAX : Z := 2 ^ 255 - 1.
Definition I256_MIN : Z := - 2 ^ 255.
Definition i256 (z : Z) : Prop := I256_MIN <= z <= I256_MAX.
Definition i_ret {E} (z : Z) : res E Z :=
  if (I256_MIN <=? z) && (z <=? I256_MAX) then Ok z else Panic.
Definition i_add {E} (a b : Z) : res E Z := i_ret (a + b).
Definition i_sub {E} (a b : Z) : res E Z := i_ret (a - b).
Definition i_mul {E} (a b : Z) : res E Z := i_ret (a * b).
Definition i_neg {E} (a : Z) : res E Z := i_ret (- a).
Definition i_div {E} (a b : Z) : res E Z :=
  if b =? 0 then Panic else i_ret (Z.quot a b).
Definition i_rem {E} (a b : Z) : res E Z :=
  if b =? 0 then Panic else i_ret (Z.rem a b).
(** [I256::try_from(U256)] *)
Definition i256_try_from (z : Z) : option Z := if z <=? I256_MAX then Some z else None.

(** * Lemmas *)
Section checked.
Implicit Types a b c : Z.

Lemma checked_add_Some a b c :
  checked_add a b = Some c <-> c = a + b /\ a + b <= U256_MAX.
Proof. unfold checked_add. case_match; bool_to_prop; naive_solver lia. Qed.

Lemma checked_sub_Some a b c : checked_sub a b = Some c <-> c = a - b /\ b <= a.
Proof. unfold checked_sub. case_match; bool_to_prop; naive_solver lia. Qed.

Lemma checked_mul_Some a b c :
  checked_mul a b = Some c <-> c = a * b /\ a * b <= U256_MAX.
Proof. unfold checked_mul. case_match; bool_to_prop; naive_solver lia. Qed.

Lemma checked_div_Some a b c : checked_div a b = Some c <-> c = a / b /\ b <> 0.
Proof. unfold checked_div. case_match; bool_to_prop; naive_solver lia. Qed.

Lemma u256_try_from_Some a c : u256_try_from a = Some c <-> c = a /\ a <= U256_MAX.
Proof. unfold u256_try_from. case_match; bool_to_prop; naive_solver lia. Qed.

Lemma u_add_Ok {E} a b c : (u_add a b : res E Z) = Ok c <-> c = a + b /\ a + b <= U256_MAX.
Proof. unfold u_add. by rewrite opt_expect_Ok, checked_add_Some. Qed.

Lemma u_sub_Ok {E} a b c : (u_sub a b : res E Z) = Ok c <-> c = a - b /\ b <= a.
Proof. unfold u_sub. by rewrite opt_expect_Ok, checked_sub_Some. Qed.

Lemma u_mul_Ok {E} a b c : (u_mul a b : res E Z) = Ok c <-> c = a * b /\ a * b <= U256_MAX.
Proof. unfold u_mul. by rewrite opt_expect_Ok, checked_mul_Some. Qed.

Lemma u_div_Ok {E} a b c : (u_div a b : res E Z) = Ok c <-> c = a / b /\ b <> 0.
Proof. unfold u_div. by rewrite opt_expect_Ok, checked_div_Some. Qed.

(** The range is closed under the operations that succeed. *)
Lemma checked_add_u256 a b c : u256 a -> u256 b -> checked_add a b = Some c -> u256 c.
Proof. unfold u256. rewrite checked_add_Some. lia. Qed.

Lemma checked_sub_u256 a b c : u256 a -> u256 b -> checked_sub a b = Some c -> u256 c.
Proof. unfold u256. rewrite checked_sub_Some. lia. Qed.

Lemma checked_mul_u256 a b c : u256 a -> u256 b -> checked_mul a b = Some c -> u256 c.
Proof. unfold u256. rewrite checked_mul_Some. nia. Qed.

Lemma div_u256 a b : u256 a -> 0 < b -> u256 (a / b).
Proof.
  unfold u256. intros Ha Hb. split; [apply Z.div_pos; lia|].
  transitivity a; [|lia]. apply Z.div_le_upper_bound; [lia|]. nia.
Qed.

Lemma checked_div_u256 a b c : u256 a -> u256 b -> checked_div a b = Some c -> u256 c.
Proof. rewrite checked_div_Some. intros ? Hb [-> ?]. apply div_u256; [done|]. unfold u256 in Hb. lia. Qed.
End checked.

(** ** Rounded division *)
Definition cdiv (a b : Z) : Z := (a + (b - 1)) / b.

Lemma cdiv_spec a b : 0 < b -> a <= cdiv a b * b < a + b.
Proof.
  intros Hb. unfold cdiv. pose proof (Z.div_mod (a + (b - 1)) b ltac:(lia)).
  pose proof (Z.mod_pos_bound (a + (b - 1)) b Hb). nia.
Qed.

Lemma cdiv_unique a b q : 0 < b -> a <= q * b < a + b -> q = cdiv a b.
Proof. intros Hb Hq. pose proof (cdiv_spec a b Hb). nia. Qed.

Lemma fdiv_spec a b : 0 < b -> a / b * b <= a < a / b * b + b.
Proof.
  intros Hb. pose proof (Z.div_mod a b ltac:(lia)).
  pose proof (Z.mod_pos_bound a b Hb). nia.
Qed.

Lemma cdiv_le_mono a a' b : 0 < b -> a <= a' -> cdiv a b <= cdiv a' b.
Proof. intros. unfold cdiv. apply Z.div_le_mono; lia. Qed.

Lemma div_le_cdiv a b : 0 < b -> a / b <= cdiv a b.
Proof. intros. unfold cdiv. apply Z.div_le_mono; lia. Qed.

Lemma cdiv_le_div_succ a b : 0 < b -> cdiv a b <= a / b + 1.
Proof. intros Hb. pose proof (cdiv_spec a b Hb). pose proof (fdiv_spec a b Hb). nia. Qed.

Lemma cdiv_nonneg a b : 0 < b -> 0 <= a -> 0 <= cdiv a b.
Proof. intros. unfold cdiv. apply Z.div_pos; lia. Qed.

(** [((a - 1) / b) + 1] is the same rounding for a positive [a]. *)
Lemma cdiv_pred a b : 0 < b -> 0 < a -> (a - 1) / b + 1 = cdiv a b.
Proof.
  intros Hb Ha. apply cdiv_unique; [done|].
  pose proof (fdiv_spec (a - 1) b Hb). nia.
Qed.

Lemma checked_ceil_div_Some a b c :
  0 <= b ->
  checked_ceil_div a b = Some c <-> c = cdiv a b /\ 0 < b /\ a + (b - 1) <= U256_MAX.
Proof.
  intros Hb. unfold checked_ceil_div, checked_sub, checked_add, checked_div, cdiv.
  repeat case_match; bool_to_prop; simplify_eq; naive_solver lia.
Qed.

Lemma mul_ratio_Some x q d c :
  mul_ratio x q d = Some c <-> c = x * q / d /\ d <> 0 /\ x * q / d <= U256_MAX.
Proof.
  unfold mul_ratio, checked_div, u256_try_from.
  repeat case_match; bool_to_prop; simplify_eq; naive_solver lia.
Qed.

(** [mul_ratio_ceil] is the exact rounding up of the full product, whenever it
    fits. *)
Lemma mul_ratio_ceil_Some x q d c :
  0 <= x -> 0 <= q -> 0 <= d ->
  mul_ratio_ceil x q d = Some c <-> c = cdiv (x * q) d /\ 0 < d /\ cdiv (x * q) d <= U256_MAX.
Proof.
  intros Hx Hq Hd. unfold mul_ratio_ceil, checked_div, checked_rem, u256_try_from, checked_add.
  destruct (Z.eqb_spec d 0) as [->|Hd0]; [naive_solver lia|].
  assert (Hd' : 0 < d) by lia.
  assert (Hc : cdiv (x * q) d = x * q / d + (if negb ((x * q) mod d =? 0) then 1 else 0)).
  { symmetry. apply cdiv_unique; [lia|].
    pose proof (Z.div_mod (x * q) d Hd0). pose proof (Z.mod_pos_bound (x * q) d Hd').
    case_match; bool_to_prop; nia. }
  rewrite Hc. repeat case_match; bool_to_prop; simplify_eq; naive_solver lia.
Qed.

(** ** Rationals *)
Lemma big_rational_to_u256_of_Z z : u256 z -> big_rational_to_u256 (u256_to_big_rational z) = Some z.
Proof.
  intros [H0 H1]. unfold big_rational_to_u256, u256_to_big_rational, qc_numer, qc_denom, Qc_of_Z.
  cbn [this Q2Qc]. rewrite Z.quot_1_r. unfold big_int_to_u256, big_uint_to_u256, u256_try_from.
  simpl. repeat case_match; bool_to_prop; f_equal; lia.
Qed.

(** ** I256 *)
Lemma i_ret_Ok {E} z c : (i_ret z : res E Z) = Ok c <-> c = z /\ i256 z.
Proof.
  unfold i_ret, i256.
  destruct (Z.leb_spec I256_MIN z), (Z.leb_spec z I256_MAX); simpl; naive_solver lia.
Qed.

Lemma i_ret_total {E} (Q : Z -> Prop) z : i256 z -> Q z -> total Q (i_ret z : res E Z).
Proof.
  unfold i_ret, i256. intros Hz HQ.
  destruct (Z.leb_spec I256_MIN z), (Z.leb_spec z I256_MAX); simpl; auto; lia.
Qed.

Lemma i_div_total {E} (Q : Z -> Prop) a b :
  0 <= a -> 0 < b -> i256 a -> Q (a / b) -> total Q (i_div a b : res E Z).
Proof.
  intros Ha Hb Hi HQ. unfold i_div.
  destruct (Z.eqb_spec b 0); [lia|]. rewrite Z.quot_div_nonneg by lia.
  apply i_ret_total; [|done]. unfold i256 in *.
  assert (0 <= a / b) by (apply Z.div_pos; lia).
  assert (a / b <= a) by (apply Z.div_le_upper_bound; nia). unfold I256_MIN in *. lia.
Qed.
