(* ===== verification/Bytes.v ===== *)
(** Bytes, and numbers in big endian: the conversions [to_be_bytes],
    [to_big_endian] and [from_be_bytes] of the standard library and of
    primitive_types, which encodings and hashes are made of. *)
From Stdlib Require Import ZArith Lia.
From Stdlib Require Strings.Byte.
From stdpp Require Import prelude numbers countable.
From S2P Require Import Prelude.

Open Scope Z_scope.

Abbreviation byte := Init.Byte.byte (only parsing).
#[export] Instance byte_eq_dec : EqDecision byte := Byte.byte_eq_dec.
#[export] Instance byte_countable : Countable byte := inj_countable Byte.to_N Byte.of_N Byte.of_to_N.
Definition byte_of_Z (z : Z) : byte := default Byte.x00 (Byte.of_N (Z.to_N (z mod 256))).
Definition Z_of_byte (b : byte) : Z := Z.of_N (Byte.to_N b).
(** [to_big_endian], [to_be_bytes]: the last [n] bytes of a number. *)
Fixpoint be_bytes (n : nat) (z : Z) : list byte :=
  match n with O => [] | S n => byte_of_Z (z / 256 ^ Z.of_nat n) :: be_bytes n z end.
(** [from_be_bytes] *)
Definition from_be_bytes (l : list byte) : Z := foldl (fun z b => z * 256 + Z_of_byte b) 0 l.

(** * Lemmas *)
Lemma Z_of_byte_of_Z z : Z_of_byte (byte_of_Z z) = z mod 256.
Proof.
  unfold Z_of_byte, byte_of_Z. pose proof (Z.mod_pos_bound z 256 ltac:(lia)).
  destruct (Byte.of_N (Z.to_N (z mod 256))) as [b|] eqn:Hb; cbn [default from_option Datatypes.id].
  - apply Byte.to_of_N in Hb. lia.
  - apply Byte.of_N_None_iff in Hb. lia.
Qed.

Lemma length_be_bytes n z : length (be_bytes n z) = n.
Proof. induction n; cbn; congruence. Qed.

Lemma be_bytes_roundtrip n z : 0 <= z < 256 ^ Z.of_nat n -> from_be_bytes (be_bytes n z) = z.
Proof.
  unfold from_be_bytes. assert (Hg : forall acc z, 
    foldl (fun z b => z * 256 + Z_of_byte b) acc (be_bytes n z) =
    acc * 256 ^ Z.of_nat n + z mod 256 ^ Z.of_nat n).
  { clear z. induction n as [|n IH]; intros acc z.
    { cbn. rewrite Z.mod_1_r. lia. }
    cbn [be_bytes foldl]. rewrite IH, Z_of_byte_of_Z, Nat2Z.inj_succ, Z.pow_succ_r by lia.
    assert (Hp : 0 < 256 ^ Z.of_nat n) by lia.
    rewrite (Z.mul_comm 256 (256 ^ Z.of_nat n)), Z.rem_mul_r by lia. lia. }
  intros Hz. rewrite Hg, Z.mod_small by done. lia.
Qed.

Lemma from_be_bytes_app l l' : from_be_bytes (l ++ l') = from_be_bytes l * 256 ^ Z.of_nat (length l') + from_be_bytes l'.
Proof.
  unfold from_be_bytes. rewrite foldl_app. generalize (foldl (fun z b => z * 256 + Z_of_byte b) 0 l). intros z.
  assert (Hg : forall acc, foldl (fun z b => z * 256 + Z_of_byte b) acc l' =
    acc * 256 ^ Z.of_nat (length l') + foldl (fun z b => z * 256 + Z_of_byte b) 0 l').
  { induction l' as [|b l' IH]; intros acc; cbn [foldl length]; [change (256 ^ Z.of_nat 0) with 1; lia|].
    rewrite IH, (IH (0 * 256 + _)), Nat2Z.inj_succ, Z.pow_succ_r by lia. lia. }
  apply Hg.
Qed.


Lemma Z_of_byte_bound b : 0 <= Z_of_byte b < 256.
Proof.
  unfold Z_of_byte. pose proof (proj1 (N2Z.inj_le _ _) (Byte.to_N_bounded b)) as H.
  change (Z.of_N 255) with 255 in H. lia.
Qed.

Lemma Z_of_byte_inj b b' : Z_of_byte b = Z_of_byte b' -> b = b'.
Proof.
  unfold Z_of_byte. intros H%N2Z.inj. pose proof (Byte.of_to_N b) as Hb. rewrite H, Byte.of_to_N in Hb. congruence.
Qed.

Lemma from_be_bytes_cons b l :
  from_be_bytes (b :: l) = Z_of_byte b * 256 ^ Z.of_nat (length l) + from_be_bytes l.
Proof. exact (from_be_bytes_app [b] l). Qed.

Lemma from_be_bytes_bound l : 0 <= from_be_bytes l < 256 ^ Z.of_nat (length l).
Proof.
  induction l as [|b l IH]; [cbn; lia|]. rewrite from_be_bytes_cons.
  cbn [length]. rewrite Nat2Z.inj_succ, Z.pow_succ_r by lia. pose proof (Z_of_byte_bound b). nia.
Qed.

Lemma from_be_bytes_inj l l' : length l = length l' -> from_be_bytes l = from_be_bytes l' -> l = l'.
Proof.
  revert l'. induction l as [|b l IH]; intros [|b' l']; try done. intros Hlen.
  cbn in Hlen. injection Hlen as Hlen. rewrite !from_be_bytes_cons, <- Hlen. intros H.
  pose proof (from_be_bytes_bound l). pose proof (from_be_bytes_bound l'). rewrite <- Hlen in *.
  assert (Z_of_byte b = Z_of_byte b') as Hb by nia. rewrite Hb in H.
  f_equal; [by apply Z_of_byte_inj|apply IH; [done|lia]].
Qed.

(** Bytes are those of their number. *)
Lemma be_bytes_from_be_bytes l : be_bytes (length l) (from_be_bytes l) = l.
Proof.
  apply from_be_bytes_inj; [apply length_be_bytes|].
  apply be_bytes_roundtrip, from_be_bytes_bound.
Qed.

Lemma be_bytes_inj n z z' : 0 <= z < 256 ^ Z.of_nat n -> 0 <= z' < 256 ^ Z.of_nat n ->
  be_bytes n z = be_bytes n z' -> z = z'.
Proof.
  intros Hz Hz' H. rewrite <- (be_bytes_roundtrip n z Hz), <- (be_bytes_roundtrip n z' Hz'). by rewrite H.
Qed.
