(* ===== verification/Floats.v ===== *)
(** [f64]: the numbers of the Standard Library's SpecFloat at the format of
    binary64, with the operations the services use. *)
From Stdlib Require Import ZArith Lia.
From Stdlib Require Import SpecFloat.
From stdpp Require Import prelude.
From S2P Require Import Prelude.

Open Scope Z_scope.

(** * binary64 *)
Module F64.
Definition prec : Z := 53.
Definition emax : Z := 1024.
Definition f64 : Type := spec_float.
Definition of_Z (z : Z) : f64 := binary_normalize prec emax z 0 false.
Definition mul (x y : f64) : f64 := SFmul prec emax x y.
Definition add (x y : f64) : f64 := SFadd prec emax x y.
Definition sub (x y : f64) : f64 := SFsub prec emax x y.
Definition div (x y : f64) : f64 := SFdiv prec emax x y.
Definition ltb (x y : f64) : bool := SFltb x y.
Definition leb (x y : f64) : bool := SFleb x y.
(** [f64::is_normal]: neither zero, infinite, subnormal nor NaN. *)
Definition is_normal (x : f64) : bool :=
  match x with
  | S754_finite _ m _ => Zpos (digits2_pos m) =? prec
  | _ => false
  end.
(** [f64::ceil]: the value rounded up to an integer, which [of_Z] represents
    exactly when the exponent is negative. *)
Definition ceil (x : f64) : f64 :=
  match x with
  | S754_finite s m e =>
      if 0 <=? e then x
      else
        let z := - ((- (if s then Zneg m else Zpos m)) / 2 ^ (- e)) in
        if z =? 0 then S754_zero s else of_Z z
  | _ => x
  end.
(** The cast [as u64], which saturates; a NaN becomes zero. *)
Definition as_u64 (x : f64) : Z :=
  match x with
  | S754_finite false m e =>
      Z.min (2 ^ 64 - 1) (if 0 <=? e then Zpos m * 2 ^ e else Zpos m / 2 ^ (- e))
  | S754_infinity false => 2 ^ 64 - 1
  | _ => 0
  end.
End F64.

Lemma as_u64_bounds x : 0 <= F64.as_u64 x <= 2 ^ 64 - 1.
Proof.
  assert (0 < 2 ^ 64 - 1) by closed. unfold F64.as_u64. destruct x as [|[]| |[] m e]; try lia.
  assert (0 <= if 0 <=? e then Zpos m * 2 ^ e else Zpos m / 2 ^ (- e)); [|lia].
  destruct (Z.leb_spec 0 e).
  - apply Z.mul_nonneg_nonneg; [lia|]. apply Z.pow_nonneg. lia.
  - apply Z.div_pos; [lia|]. apply Z.pow_pos_nonneg; lia.
Qed.

(** [ceil (3/2) = 2], [ceil (-3/2) = -1] and [ceil (1/4) = 1]. *)
Example ceil_halves :
  map (fun z => F64.ceil (F64.div (F64.of_Z z) (F64.of_Z 4))) [6; -6; 1; -1; 8] =
  [F64.of_Z 2; F64.of_Z (-1); F64.of_Z 1; S754_zero true; F64.of_Z 2].
Proof. vm_compute. reflexivity. Qed.
Example as_u64_saturates :
  map F64.as_u64 [F64.div (F64.of_Z 7) (F64.of_Z 2); F64.of_Z (-1); F64.of_Z (2 ^ 70); S754_nan] = [3; 0; 2 ^ 64 - 1; 0].
Proof. vm_compute. reflexivity. Qed.
