(* ===== verification/FixedPoint.v ===== *)
(** Balancer's 18-decimal fixed point numbers ([Bfp]), as emulated by
    crates/shared/src/sources/balancer_v2/swap/fixed_point.rs, with the error
    codes of swap/error.rs and the checked [U256] arithmetic of swap/math.rs.

    [Bfp] is a newtype around [U256]; a [Bfp] is its raw [Z]. The power
    functions, which need logexpmath.rs, are in LogExpMath.v. *)
From stdpp Require Import base numbers option tactics.
From Stdlib Require Import ZArith Lia.
From S2P Require Import Prelude U256.

Open Scope Z_scope.
Open Scope rust_scope.

(** * Errors of the Balancer contracts *)
Inductive Error :=
| AddOverflow
| SubOverflow
| MulOverflow
| ZeroDivision
| DivInternal
| XOutOfBounds
| YOutOfBounds
| ProductOutOfBounds
| InvalidExponent
| MaxInRatio
| MaxOutRatio
| InvalidToken
| StableInvariantDidntConverge
| StableGetBalanceDidntConverge.

#[export] Instance Error_eq_dec : EqDecision Error.
Proof. solve_decision. Defined.

(** [BAL#] codes: [Display for Error] *)
Definition error_code (e : Error) : Z :=
  match e with
  | AddOverflow => 0 | SubOverflow => 1 | MulOverflow => 3 | ZeroDivision => 4
  | DivInternal => 5 | XOutOfBounds => 6 | YOutOfBounds => 7
  | ProductOutOfBounds => 8 | InvalidExponent => 9 | MaxInRatio => 304
  | MaxOutRatio => 305 | InvalidToken => 309
  | StableInvariantDidntConverge => 321 | StableGetBalanceDidntConverge => 322
  end.

(** * math.rs: [BalU256] *)
Module BalU256.
Definition bmul (self other : Z) : res Error Z := ok_or (checked_mul self other) MulOverflow.
Definition badd (self other : Z) : res Error Z := ok_or (checked_add self other) AddOverflow.
Definition bsub (self other : Z) : res Error Z := ok_or (checked_sub self other) SubOverflow.
Definition bdiv_down (self other : Z) : res Error Z :=
  if other =? 0 then Err ZeroDivision else u_div self other.
Definition bdiv_up (self other : Z) : res Error Z :=
  if other =? 0 then Err ZeroDivision
  else if self =? 0 then Ok 0
  else let* s := u_sub self 1 in
       let* q := u_div s other in
       u_add 1 q.
End BalU256.

(** * fixed_point.rs: [Bfp] *)
Module Bfp.
Definition ONE_18 : Z := 10 ^ 18.
Definition ZERO : Z := 0.
Definition EPSILON : Z := 1.
Definition ONE : Z := ONE_18.
Definition TWO : Z := ONE_18 * 2.
Definition FOUR : Z := ONE_18 * 4.
Definition MAX_POW_RELATIVE_ERROR : Z := 10000.

(** [U256::exp10], a chain of multiplications that panics on overflow. *)
Definition u256_exp10 {E} (n : Z) : res E Z :=
  if 10 ^ n <=? U256_MAX then Ok (10 ^ n) else Panic.

Definition I32_MAX : Z := 2 ^ 31 - 1.
Definition exp10 {E} (exp : Z) : res E Z :=
  let exp := Z.min (exp + 18) I32_MAX in
  if exp <? 0 then Ok ZERO else u256_exp10 exp.

Definition from_usize {E} (num : Z) : res E Z := opt_expect (checked_mul num ONE_18).

Definition add (self other : Z) : res Error Z := ok_or (checked_add self other) AddOverflow.
Definition sub (self other : Z) : res Error Z := ok_or (checked_sub self other) SubOverflow.

Definition mul_down (self other : Z) : res Error Z :=
  let* p := ok_or (checked_mul self other) MulOverflow in
  u_div p ONE_18.

Definition mul_up (self other : Z) : res Error Z :=
  let* product := ok_or (checked_mul self other) MulOverflow in
  if product =? 0 then Ok ZERO
  else let* p := u_sub product 1 in
       let* q := u_div p ONE_18 in
       u_add q 1.

Definition div_down (self other : Z) : res Error Z :=
  if other =? 0 then Err ZeroDivision
  else let* p := ok_or (checked_mul self ONE_18) DivInternal in
       u_div p other.

Definition div_up (self other : Z) : res Error Z :=
  if other =? 0 then Err ZeroDivision
  else if self =? 0 then Ok ZERO
  else let* a_inflated := ok_or (checked_mul self ONE_18) DivInternal in
       let* p := u_sub a_inflated 1 in
       let* q := u_div p other in
       u_add q 1.

Definition complement {E} (self : Z) : res E Z :=
  if self <? ONE_18 then u_sub ONE_18 self else Ok ZERO.
End Bfp.

(** * The operations as rounded arithmetic *)
Section bal_lemmas.
Implicit Types a b c : Z.

Lemma bmul_Ok a b c : BalU256.bmul a b = Ok c <-> c = a * b /\ a * b <= U256_MAX.
Proof. unfold BalU256.bmul. by rewrite ok_or_Ok, checked_mul_Some. Qed.

Lemma badd_Ok a b c : BalU256.badd a b = Ok c <-> c = a + b /\ a + b <= U256_MAX.
Proof. unfold BalU256.badd. by rewrite ok_or_Ok, checked_add_Some. Qed.

Lemma bsub_Ok a b c : BalU256.bsub a b = Ok c <-> c = a - b /\ b <= a.
Proof. unfold BalU256.bsub. by rewrite ok_or_Ok, checked_sub_Some. Qed.

Lemma bdiv_down_Ok a b c : BalU256.bdiv_down a b = Ok c <-> c = a / b /\ b <> 0.
Proof.
  unfold BalU256.bdiv_down. destruct (Z.eqb_spec b 0); [naive_solver|].
  by rewrite u_div_Ok.
Qed.

(** A rounded quotient [(p - 1) / d + 1] of an in-range [p] does not panic. *)
Lemma ceil_steps {E} p d :
  0 < d -> 0 < p -> p <= U256_MAX ->
  (let* s := u_sub p 1 in let* q := u_div s d in u_add q 1) = (Ok (cdiv p d) : res E Z).
Proof.
  intros Hd Hp Hm. rewrite <- (cdiv_pred p d Hd Hp).
  unfold u_sub, checked_sub. destruct (Z.leb_spec 1 p); [simpl|lia].
  unfold u_div, checked_div. destruct (Z.eqb_spec d 0); [lia|simpl].
  unfold u_add, checked_add.
  assert ((p - 1) / d <= p - 1) by (apply Z.div_le_upper_bound; nia).
  destruct (Z.leb_spec ((p - 1) / d + 1) U256_MAX); [done|lia].
Qed.

Lemma cdiv_0_l b : 0 < b -> cdiv 0 b = 0.
Proof. intros. symmetry. apply cdiv_unique; lia. Qed.

Lemma bdiv_up_eq a b :
  u256 a -> u256 b ->
  BalU256.bdiv_up a b = if b =? 0 then Err ZeroDivision else Ok (cdiv a b).
Proof.
  intros [Ha Ha'] [Hb Hb']. unfold BalU256.bdiv_up.
  destruct (Z.eqb_spec b 0); [done|]. destruct (Z.eqb_spec a 0) as [->|].
  { by rewrite cdiv_0_l by lia. }
  rewrite <- (ceil_steps a b) by lia.
  destruct (u_sub a 1); simpl; [|done..]. destruct (u_div a0 b); simpl; [|done..].
  unfold u_add, checked_add. by rewrite Z.add_comm.
Qed.

Lemma bdiv_up_Ok a b c :
  u256 a -> u256 b -> BalU256.bdiv_up a b = Ok c <-> c = cdiv a b /\ b <> 0.
Proof.
  intros Ha Hb. rewrite bdiv_up_eq by done. destruct (Z.eqb_spec b 0); naive_solver.
Qed.

Lemma bfp_add_Ok a b c : Bfp.add a b = Ok c <-> c = a + b /\ a + b <= U256_MAX.
Proof. apply badd_Ok. Qed.

Lemma bfp_sub_Ok a b c : Bfp.sub a b = Ok c <-> c = a - b /\ b <= a.
Proof. apply bsub_Ok. Qed.

Lemma ONE_18_pos : 0 < Bfp.ONE_18.
Proof. reflexivity. Qed.

Lemma mul_down_eq a b :
  Bfp.mul_down a b =
  if a * b <=? U256_MAX then Ok (a * b / Bfp.ONE_18) else Err MulOverflow.
Proof. unfold Bfp.mul_down, checked_mul. by case_match. Qed.

Lemma mul_down_Ok a b c :
  Bfp.mul_down a b = Ok c <-> c = a * b / Bfp.ONE_18 /\ a * b <= U256_MAX.
Proof. rewrite mul_down_eq. case_match; bool_to_prop; naive_solver lia. Qed.

Lemma mul_up_eq a b :
  u256 a -> u256 b ->
  Bfp.mul_up a b =
  if a * b <=? U256_MAX then Ok (cdiv (a * b) Bfp.ONE_18) else Err MulOverflow.
Proof.
  intros [Ha ?] [Hb ?]. unfold Bfp.mul_up, checked_mul.
  destruct (Z.leb_spec (a * b) U256_MAX); [cbn [rbind ok_or]|done].
  destruct (Z.eqb_spec (a * b) 0) as [->|].
  { by rewrite cdiv_0_l by apply ONE_18_pos. }
  apply ceil_steps; [apply ONE_18_pos|nia|done].
Qed.

Lemma mul_up_Ok a b c :
  u256 a -> u256 b ->
  Bfp.mul_up a b = Ok c <-> c = cdiv (a * b) Bfp.ONE_18 /\ a * b <= U256_MAX.
Proof. intros. rewrite mul_up_eq by done. case_match; bool_to_prop; naive_solver lia. Qed.

Lemma div_down_eq a b :
  Bfp.div_down a b =
  if b =? 0 then Err ZeroDivision
  else if a * Bfp.ONE_18 <=? U256_MAX then Ok (a * Bfp.ONE_18 / b) else Err DivInternal.
Proof.
  unfold Bfp.div_down, checked_mul, u_div, checked_div.
  destruct (Z.eqb_spec b 0); [done|]. case_match; simpl; [|done].
  by destruct (Z.eqb_spec b 0).
Qed.

Lemma div_down_Ok a b c :
  Bfp.div_down a b = Ok c <->
  c = a * Bfp.ONE_18 / b /\ b <> 0 /\ a * Bfp.ONE_18 <= U256_MAX.
Proof. rewrite div_down_eq. repeat case_match; bool_to_prop; naive_solver lia. Qed.

Lemma div_up_eq a b :
  u256 a -> u256 b ->
  Bfp.div_up a b =
  if b =? 0 then Err ZeroDivision
  else if a * Bfp.ONE_18 <=? U256_MAX then Ok (cdiv (a * Bfp.ONE_18) b) else Err DivInternal.
Proof.
  intros [Ha ?] [Hb ?]. pose proof ONE_18_pos. unfold Bfp.div_up, checked_mul.
  destruct (Z.eqb_spec b 0); [done|].
  destruct (Z.eqb_spec a 0) as [->|].
  { rewrite Z.mul_0_l, cdiv_0_l by lia. done. }
  destruct (Z.leb_spec (a * Bfp.ONE_18) U256_MAX); [cbn [rbind ok_or]|done].
  apply ceil_steps; nia.
Qed.

Lemma div_up_Ok a b c :
  u256 a -> u256 b ->
  Bfp.div_up a b = Ok c <->
  c = cdiv (a * Bfp.ONE_18) b /\ b <> 0 /\ a * Bfp.ONE_18 <= U256_MAX.
Proof. intros. rewrite div_up_eq by done. repeat case_match; bool_to_prop; naive_solver lia. Qed.

Lemma complement_eq {E} a :
  0 <= a -> (Bfp.complement a : res E Z) = Ok (Z.max (Bfp.ONE_18 - a) 0).
Proof.
  intros Ha. unfold Bfp.complement, u_sub, checked_sub, Bfp.ZERO.
  destruct (Z.ltb_spec a Bfp.ONE_18).
  - destruct (Z.leb_spec a Bfp.ONE_18); [simpl; f_equal; lia|lia].
  - f_equal. lia.
Qed.

(** Results stay in range. *)
Lemma cdiv_u256 p d : 0 < d -> u256 p -> u256 (cdiv p d).
Proof.
  intros Hd [Hp Hm]. split; [by apply cdiv_nonneg|].
  pose proof (cdiv_spec p d Hd). destruct (Z.eq_dec p 0) as [->|].
  { rewrite cdiv_0_l; lia. }
  nia.
Qed.

Lemma mul_up_u256 a b c : u256 a -> u256 b -> Bfp.mul_up a b = Ok c -> u256 c.
Proof.
  intros Ha Hb. rewrite mul_up_Ok by done. intros [-> ?].
  apply cdiv_u256; [apply ONE_18_pos|]. unfold u256 in *. nia.
Qed.

Lemma mul_down_u256 a b c : u256 a -> u256 b -> Bfp.mul_down a b = Ok c -> u256 c.
Proof.
  intros Ha Hb. rewrite mul_down_Ok. intros [-> ?].
  apply div_u256; [|apply ONE_18_pos]. unfold u256 in *. nia.
Qed.

Lemma div_up_u256 a b c : u256 a -> u256 b -> Bfp.div_up a b = Ok c -> u256 c.
Proof.
  intros Ha Hb. rewrite div_up_Ok by done. intros (-> & ? & ?).
  pose proof ONE_18_pos. apply cdiv_u256; unfold u256 in *; nia.
Qed.

Lemma div_down_u256 a b c : u256 a -> u256 b -> Bfp.div_down a b = Ok c -> u256 c.
Proof.
  intros Ha Hb. rewrite div_down_Ok. intros (-> & ? & ?).
  pose proof ONE_18_pos. apply div_u256; unfold u256 in *; nia.
Qed.
End bal_lemmas.
