(* ===== verification/LogExpMath.v ===== *)
(** Integer exponentiation of the Balancer contracts:
    crates/shared/src/sources/balancer_v2/swap/fixed_point/logexpmath.rs, and
    the two power functions of fixed_point.rs built on it.

    The code computes in [I256] with operators that panic on overflow (in a
    debug build; a release build wraps). The model panics, and the theorems
    show that no input reaches a panic, so both builds agree. *)
From stdpp Require Import base numbers list option tactics.
From Stdlib Require Import ZArith Lia.
From S2P Require Import Prelude U256 FixedPoint.

Open Scope Z_scope.
Open Scope rust_scope.

Module LogExp.
Definition ONE_18 : Z := 10 ^ 18.
Definition ONE_20 : Z := 10 ^ 20.
Definition ONE_36 : Z := 10 ^ 36.
Definition UFIXED256X18_ONE : Z := ONE_18.
Definition MAX_NATURAL_EXPONENT : Z := ONE_18 * 130.
Definition MIN_NATURAL_EXPONENT : Z := ONE_18 * -41.
Definition LN_36_LOWER_BOUND : Z := ONE_18 - 10 ^ 17.
Definition LN_36_UPPER_BOUND : Z := ONE_18 + 10 ^ 17.
Definition MILD_EXPONENT_BOUND : Z := 2 ^ 254 / ONE_20.

Definition constant_x_20 (i : Z) : res Error Z :=
  match i with
  | 2 => Ok 3200000000000000000000
  | 3 => Ok 1600000000000000000000
  | 4 => Ok 800000000000000000000
  | 5 => Ok 400000000000000000000
  | 6 => Ok 200000000000000000000
  | 7 => Ok 100000000000000000000
  | 8 => Ok 50000000000000000000
  | 9 => Ok 25000000000000000000
  | 10 => Ok 12500000000000000000
  | 11 => Ok 6250000000000000000
  | _ => Panic
  end.
Definition constant_x_18 (i : Z) : res Error Z :=
  match i with
  | 0 => Ok 128000000000000000000
  | 1 => Ok 64000000000000000000
  | _ => Panic
  end.
Definition constant_a_20 (i : Z) : res Error Z :=
  match i with
  | 2 => Ok 7896296018268069516100000000000000
  | 3 => Ok 888611052050787263676000000
  | 4 => Ok 298095798704172827474000
  | 5 => Ok 5459815003314423907810
  | 6 => Ok 738905609893065022723
  | 7 => Ok 271828182845904523536
  | 8 => Ok 164872127070012814685
  | 9 => Ok 128402541668774148407
  | 10 => Ok 113314845306682631683
  | 11 => Ok 106449445891785942956
  | _ => Panic
  end.
Definition constant_a_18 (i : Z) : res Error Z :=
  match i with
  | 0 => Ok 38877084059945950922200000000000000000000000000000000000
  | 1 => Ok 6235149080811616882910000000
  | _ => Panic
  end.

(** One round of the decomposition loop [for i in 2..=9] of [exp]. *)
Definition exp_step (st : Z * Z) (i : Z) : res Error (Z * Z) :=
  let '(x, product) := st in
  let* xi := constant_x_20 i in
  if xi <=? x then
    let* x := i_sub x xi in
    let* ai := constant_a_20 i in
    let* p := i_mul product ai in
    let* p := i_div p ONE_20 in
    Ok (x, p)
  else Ok (x, product).

(** One term of the Taylor series [for i in 2..=12] of [exp]. *)
Definition exp_term (x : Z) (st : Z * Z) (i : Z) : res Error (Z * Z) :=
  let '(term, series_sum) := st in
  let* t := i_mul term x in
  let* t := i_div t ONE_20 in
  let* t := i_div t i in
  let* s := i_add series_sum t in
  Ok (t, s).

(** Reduction by the two largest constants, which keep no decimals. *)
Definition exp_first (x : Z) : res Error (Z * Z) :=
  let* x0 := constant_x_18 0 in
  let* x1 := constant_x_18 1 in
  if x0 <=? x then
    let* x := i_sub x x0 in let* a := constant_a_18 0 in Ok (x, a)
  else if x1 <=? x then
    let* x := i_sub x x1 in let* a := constant_a_18 1 in Ok (x, a)
  else Ok (x, 1).

(** The rest of the computation, at 20 decimals. *)
Definition exp_rest (x first_an : Z) : res Error Z :=
  let* x := i_mul x 100 in
  let* x_product := rfold exp_step (x, ONE_20) [2; 3; 4; 5; 6; 7; 8; 9] in
  let x := fst x_product in
  let product := snd x_product in
  let* series_sum := i_add ONE_20 x in
  let* term_sum := rfold (exp_term x) (x, series_sum) [2; 3; 4; 5; 6; 7; 8; 9; 10; 11; 12] in
  let* r := i_mul product (snd term_sum) in
  let* r := i_div r ONE_20 in
  let* r := i_mul r first_an in
  i_div r 100.

Definition exp_nonneg (x : Z) : res Error Z :=
  let* x_first := exp_first x in
  exp_rest (fst x_first) (snd x_first).

(** [exp] calls itself once on a negative exponent; [fuel] bounds the calls. *)
Fixpoint exp_fuel (fuel : nat) (x : Z) : res Error Z :=
  match fuel with
  | O => Panic
  | S fuel =>
      if negb ((MIN_NATURAL_EXPONENT <=? x) && (x <=? MAX_NATURAL_EXPONENT)) then
        Err InvalidExponent
      else if x <? 0 then
        let* n := i_mul ONE_18 ONE_18 in
        let* m := i_neg x in
        let* e := exp_fuel fuel m in
        i_div n e
      else exp_nonneg x
  end.
Definition exp (x : Z) : res Error Z := exp_fuel 2 x.

(** The loop [for i in 0..=1] of [_ln]. *)
Definition ln_step_18 (st : Z * Z) (i : Z) : res Error (Z * Z) :=
  let '(a, sum) := st in
  let* ai := constant_a_18 i in
  let* bound := i_mul ai ONE_18 in
  if bound <=? a then
    let* a := i_div a ai in
    let* xi := constant_x_18 i in
    let* sum := i_add sum xi in
    Ok (a, sum)
  else Ok (a, sum).

(** The loop [for i in 2..=11] of [_ln]. *)
Definition ln_step_20 (st : Z * Z) (i : Z) : res Error (Z * Z) :=
  let '(a, sum) := st in
  let* ai := constant_a_20 i in
  if ai <=? a then
    let* p := i_mul a ONE_20 in
    let* a := i_div p ai in
    let* xi := constant_x_20 i in
    let* sum := i_add sum xi in
    Ok (a, sum)
  else Ok (a, sum).

(** One term of the arctanh series of [_ln] and [_ln_36], at scale [one]. *)
Definition ln_term (one z_squared : Z) (st : Z * Z) (i : Z) : res Error (Z * Z) :=
  let '(num, series_sum) := st in
  let* n := i_mul num z_squared in
  let* n := i_div n one in
  let* t := i_div n i in
  let* s := i_add series_sum t in
  Ok (n, s).

(** [z = (a - one) * one / (a + one)] and the terms of the series over [l]. *)
Definition ln_series (one a : Z) (l : list Z) : res Error Z :=
  let* d := i_sub a one in
  let* n := i_mul d one in
  let* s := i_add a one in
  let* z := i_div n s in
  let* z2 := i_mul z z in
  let* z_squared := i_div z2 one in
  let* num_sum := rfold (ln_term one z_squared) (z, z) l in
  i_mul (snd num_sum) 2.

Definition ln_ge_one (a : Z) : res Error Z :=
  let* a_sum := rfold ln_step_18 (a, 0) [0; 1] in
  let* sum := i_mul (snd a_sum) 100 in
  let* a := i_mul (fst a_sum) 100 in
  let* a_sum := rfold ln_step_20 (a, sum) [2; 3; 4; 5; 6; 7; 8; 9; 10; 11] in
  let* series_sum := ln_series ONE_20 (fst a_sum) [3; 5; 7; 9; 11] in
  let* r := i_add (snd a_sum) series_sum in
  i_div r 100.

(** [_ln] calls itself once below one. *)
Fixpoint ln_fuel (fuel : nat) (a : Z) : res Error Z :=
  match fuel with
  | O => Panic
  | S fuel =>
      if a <? ONE_18 then
        let* n := i_mul ONE_18 ONE_18 in
        let* a := i_div n a in
        let* r := ln_fuel fuel a in
        i_neg r
      else ln_ge_one a
  end.
Definition _ln (a : Z) : res Error Z := ln_fuel 2 a.

Definition _ln_36 (x : Z) : res Error Z :=
  let* x := i_mul x ONE_18 in
  ln_series ONE_36 x [3; 5; 7; 9; 11; 13; 15].

Definition log_times (x_int256 y_int256 : Z) : res Error Z :=
  if (LN_36_LOWER_BOUND <? x_int256) && (x_int256 <? LN_36_UPPER_BOUND) then
    let* ln_36_x := _ln_36 x_int256 in
    let* q := i_div ln_36_x ONE_18 in
    let* a := i_mul q y_int256 in
    let* r := i_rem ln_36_x ONE_18 in
    let* b := i_mul r y_int256 in
    let* b := i_div b ONE_18 in
    i_add a b
  else
    let* l := _ln x_int256 in
    i_mul l y_int256.

Definition pow (x y : Z) : res Error Z :=
  if y =? 0 then Ok UFIXED256X18_ONE
  else if x =? 0 then Ok 0
  else
    let* x_int256 := ok_or (i256_try_from x) XOutOfBounds in
    let* y_int256 :=
      if y <? MILD_EXPONENT_BOUND then opt_expect (i256_try_from y) else Err YOutOfBounds in
    let* logx_times_y := log_times x_int256 y_int256 in
    let* logx_times_y := i_div logx_times_y ONE_18 in
    if negb ((MIN_NATURAL_EXPONENT <=? logx_times_y) && (logx_times_y <=? MAX_NATURAL_EXPONENT))
    then Err ProductOutOfBounds
    else res_map (fun v => v mod 2 ^ 256) (exp logx_times_y).
End LogExp.

(** fixed_point.rs: [Bfp::pow_up] and [Bfp::pow_up_v3] *)
Module BfpPow.
Definition pow_up (self exp : Z) : res Error Z :=
  let* raw := LogExp.pow self exp in
  let* m := Bfp.mul_up raw Bfp.MAX_POW_RELATIVE_ERROR in
  let* max_error := Bfp.add m 1 in
  Bfp.add raw max_error.

Definition pow_up_v3 (self exp : Z) : res Error Z :=
  if exp =? Bfp.ONE then Ok self
  else if exp =? Bfp.TWO then Bfp.mul_up self self
  else if exp =? Bfp.FOUR then
    let* square := Bfp.mul_up self self in
    Bfp.mul_up square square
  else
    let* raw := LogExp.pow self exp in
    let* m := Bfp.mul_up raw Bfp.MAX_POW_RELATIVE_ERROR in
    let* max_error := Bfp.add m 1 in
    Bfp.add raw max_error.
End BfpPow.

(** The values the unit tests of logexpmath.rs check against the contract. *)
Example ln_smallest : LogExp._ln 1 = Ok (-41446531673892822312).
Proof. vm_compute. reflexivity. Qed.
Example ln_large : LogExp._ln (10 ^ 76) = Ok 133549935393654649672.
Proof. vm_compute. reflexivity. Qed.
Example ln_36_lower : LogExp._ln_36 950000000000000000 = Ok (-51293294387550533426196144149312054).
Proof. vm_compute. reflexivity. Qed.

(** * Bounds of the exponential *)

Section exponential.
Import LogExp.

Lemma mul_bound a A b B : 0 <= a <= A -> 0 <= b <= B -> 0 <= a * b <= A * B.
Proof. nia. Qed.

(** A nonnegative product or quotient within the type. *)
Lemma i_mul_total (Q : Z -> Prop) a A b B :
  0 <= a <= A -> 0 <= b <= B -> A * B <= I256_MAX ->
  Q (a * b) -> total Q (i_mul a b : res Error Z).
Proof.
  intros Ha Hb HM HQ. pose proof (mul_bound a A b B Ha Hb).
  apply i_ret_total; [|done]. unfold i256, I256_MIN, I256_MAX in *. lia.
Qed.

Lemma i_div_nn_total (Q : Z -> Prop) a b :
  0 <= a <= I256_MAX -> 0 < b -> Q (a / b) -> total Q (i_div a b : res Error Z).
Proof.
  intros Ha Hb HQ. apply i_div_total; [lia|done| |done].
  unfold i256, I256_MIN, I256_MAX in *. lia.
Qed.

Lemma i_add_total (Q : Z -> Prop) a b :
  0 <= a -> 0 <= b -> a + b <= I256_MAX -> Q (a + b) -> total Q (i_add a b : res Error Z).
Proof. intros. apply i_ret_total; [|done]. unfold i256, I256_MIN, I256_MAX in *. lia. Qed.

Lemma i_sub_total (Q : Z -> Prop) a b :
  0 <= b <= a -> a <= I256_MAX -> Q (a - b) -> total Q (i_sub a b : res Error Z).
Proof. intros. apply i_ret_total; [|done]. unfold i256, I256_MIN, I256_MAX in *. lia. Qed.

Definition exp_inv (X P : Z) (st : Z * Z) : Prop :=
  0 <= fst st <= X /\ ONE_20 <= snd st <= P.

(** A round whose constant may be subtracted. *)
Lemma exp_step_may i xi ai X P X' P' st :
  exp_inv X P st ->
  constant_x_20 i = Ok xi -> constant_a_20 i = Ok ai ->
  0 < xi -> ONE_20 <= ai -> X <= I256_MAX -> P * ai <= I256_MAX ->
  P * ai / ONE_20 <= P' -> P <= P' -> X - xi <= X' -> xi - 1 <= X' ->
  total (exp_inv X' P') (exp_step st i).
Proof.
  intros [Hst Hp] Hx Ha Hxi Hai HX HP HP1 HP2 HX1 HX2. destruct st as [x p]; simpl in *.
  rewrite Hx; cbn [rbind]. destruct (Z.leb_spec xi x); cbn [rbind]; [|split; simpl; lia].
  assert (H20 : 0 < ONE_20) by reflexivity.
  eapply total_bind; [apply (i_sub_total (fun r => r = x - xi)); lia|]. intros ? ->.
  rewrite Ha; cbn [rbind].
  eapply total_bind;
    [apply (i_mul_total (fun r => r = p * ai) p P ai ai); [lia..|done|done]|]. intros ? ->.
  assert (ONE_20 * ONE_20 <= p * ai <= P * ai) by nia.
  eapply total_bind; [apply (i_div_nn_total (fun r => r = p * ai / ONE_20)); [lia..|done]|].
  intros ? ->. split; simpl; [lia|]. split.
  - apply Z.div_le_lower_bound; lia.
  - transitivity (P * ai / ONE_20); [|done]. apply Z.div_le_mono; lia.
Qed.

(** A round whose constant is too large to be subtracted. *)
Lemma exp_step_not i xi X P st :
  exp_inv X P st -> constant_x_20 i = Ok xi -> X < xi -> total (exp_inv X P) (exp_step st i).
Proof.
  intros [Hst Hp] Hx HX. destruct st as [x p]; simpl in *. rewrite Hx; cbn [rbind].
  destruct (Z.leb_spec xi x); [lia|]. split; simpl; lia.
Qed.
End exponential.

(** Run the decomposition loop over its interval abstraction. *)
Ltac exp_may i X' P' :=
  eapply total_bind;
  [ eapply (exp_step_may i _ _ _ _ X' P'); [eassumption|reflexivity|reflexivity|closed..]
  | let st := fresh "st" in intros st ? ].
Ltac exp_not i :=
  eapply total_bind;
  [ eapply (exp_step_not i); [eassumption|reflexivity|closed]
  | let st := fresh "st" in intros st ? ].

Section exponential_total.
Import LogExp.

Lemma exp_loop_large st :
  exp_inv (64 * ONE_20 - 1) ONE_20 st ->
  total (exp_inv (25 * ONE_18 - 1) (6 * 10 ^ 47))
    (rfold exp_step st [2; 3; 4; 5; 6; 7; 8; 9]).
Proof.
  intros H. cbn [rfold].
  exp_may 2 (32 * ONE_20 - 1) 7896296018268069516100000000000000.
  exp_may 3 (16 * ONE_20 - 1) (71 * 10 ^ 39).
  exp_may 4 (8 * ONE_20 - 1) (212 * 10 ^ 42).
  exp_may 5 (4 * ONE_20 - 1) (116 * 10 ^ 44).
  exp_may 6 (2 * ONE_20 - 1) (86 * 10 ^ 45).
  exp_may 7 (ONE_20 - 1) (234 * 10 ^ 45).
  exp_may 8 (50 * ONE_18 - 1) (386 * 10 ^ 45).
  exp_may 9 (25 * ONE_18 - 1) (6 * 10 ^ 47). done.
Qed.

Lemma exp_loop_small st :
  exp_inv (2 * ONE_20 - 1) ONE_20 st ->
  total (exp_inv (25 * ONE_18 - 1) (576 * 10 ^ 18))
    (rfold exp_step st [2; 3; 4; 5; 6; 7; 8; 9]).
Proof.
  intros H. cbn [rfold].
  exp_not 2. exp_not 3. exp_not 4. exp_not 5. exp_not 6.
  exp_may 7 (ONE_20 - 1) 271828182845904523536.
  exp_may 8 (50 * ONE_18 - 1) (4482 * 10 ^ 17).
  exp_may 9 (25 * ONE_18 - 1) (576 * 10 ^ 18).
  done.
Qed.

Definition exp_series_inv (st : Z * Z) : Prop :=
  0 <= fst st <= 25 * ONE_18 /\ ONE_20 <= snd st /\ snd st + fst st <= 150 * ONE_18.

Lemma exp_series_total x (l : list Z) :
  0 <= x <= 25 * ONE_18 -> (forall i, i ∈ l -> 2 <= i) ->
  total exp_series_inv (rfold (exp_term x) (x, ONE_20 + x) l).
Proof.
  intros Hx Hl. apply rfold_total.
  { split_and!; simpl; unfold ONE_20, ONE_18 in *; lia. }
  intros [t s] i Hi%Hl (Ht & Hs & Hts); simpl in *.
  unfold exp_term, ONE_20, ONE_18 in *.
  eapply total_bind; [apply (i_mul_total (fun r => r = t * x) t _ x _ Ht Hx); closed|].
  intros ? ->. pose proof (mul_bound _ _ _ _ Ht Hx).
  eapply total_bind; [apply (i_div_nn_total (fun r => 0 <= r <= t)); [split; [lia|]|lia|]|].
  { unfold I256_MAX. lia. }
  { split; [apply Z.div_pos; lia|apply Z.div_le_upper_bound; nia]. }
  intros u [Hu0 Hu1].
  eapply total_bind; [apply (i_div_nn_total (fun r => 0 <= r /\ 2 * r <= t)); [split; [lia|]|lia|]|].
  { unfold I256_MAX. lia. }
  { split; [apply Z.div_pos; lia|]. pose proof (fdiv_spec u i ltac:(lia)). nia. }
  intros v [Hv Hv'].
  eapply total_bind; [apply (i_add_total (fun r => r = s + v)); [unfold I256_MAX; lia..|done]|].
  intros ? ->. unfold exp_series_inv, ONE_20, ONE_18; cbn [total fst snd]; lia.
Qed.

(** The final products, for a product [P] and a factor [F] that fit. *)
Lemma exp_tail_total product series first_an P F :
  ONE_20 <= product <= P -> ONE_20 <= series <= 150 * ONE_18 -> 1 <= first_an <= F ->
  P * (150 * ONE_18) <= I256_MAX -> P * (150 * ONE_18) / ONE_20 * F <= I256_MAX ->
  total (fun r => ONE_18 <= r <= I256_MAX)
    (let* r := i_mul product series in
     let* r := i_div r ONE_20 in
     let* r := i_mul r first_an in
     i_div r 100 : res Error Z).
Proof.
  intros Hp Hs Hf HP HF. assert (H20 : 0 < ONE_20) by reflexivity.
  eapply total_bind;
    [apply (i_mul_total (fun r => r = product * series) _ P _ (150 * ONE_18)); [lia..|done]|].
  intros ? ->. assert (ONE_20 * ONE_20 <= product * series <= P * (150 * ONE_18)) by nia.
  eapply total_bind;
    [apply (i_div_nn_total (fun r => ONE_20 <= r <= P * (150 * ONE_18) / ONE_20)); [lia..|]|].
  { split; [by apply Z.div_le_lower_bound; lia|by apply Z.div_le_mono; lia]. }
  intros q [Hq Hq'].
  eapply total_bind; [apply (i_mul_total (fun r => r = q * first_an) _
    (P * (150 * ONE_18) / ONE_20) _ F); [lia..|done]|].
  intros ? ->. assert (ONE_20 <= q * first_an <= I256_MAX) by nia.
  apply i_div_nn_total; [lia..|]. split.
  - transitivity (ONE_20 / 100); [reflexivity|by apply Z.div_le_mono; lia].
  - apply Z.div_le_upper_bound; lia.
Qed.

Lemma exp_rest_total x first_an P F :
  0 <= x -> x * 100 <= I256_MAX ->
  total (exp_inv (25 * ONE_18 - 1) P) (rfold exp_step (x * 100, ONE_20) [2; 3; 4; 5; 6; 7; 8; 9]) ->
  1 <= first_an <= F ->
  P * (150 * ONE_18) <= I256_MAX -> P * (150 * ONE_18) / ONE_20 * F <= I256_MAX ->
  total (fun r => ONE_18 <= r <= I256_MAX) (exp_rest x first_an).
Proof.
  intros Hx HxM Hloop Hf HP HF. unfold exp_rest.
  eapply total_bind;
    [apply (i_ret_total (fun r => r = x * 100)); [unfold i256, I256_MIN; lia|done]|].
  intros ? ->. eapply total_bind; [exact Hloop|]. intros [x' p] [Hx' Hp]; cbn [fst snd] in *.
  assert (25 * ONE_18 - 1 + ONE_20 <= I256_MAX) by closed.
  eapply total_bind; [apply (i_add_total (fun r => r = ONE_20 + x')); [by auto with lia|lia|lia|done]|].
  intros ? ->. eapply total_bind; [apply exp_series_total; [lia|]|].
  { intros i Hi. repeat (apply elem_of_cons in Hi as [->|Hi]; [done|]). by apply elem_of_nil in Hi. }
  intros [t s] (Ht & Hs & Hts); cbn [fst snd] in *.
  by apply (exp_tail_total p s first_an P F); [lia..|].
Qed.

Lemma exp_nonneg_total x :
  0 <= x <= MAX_NATURAL_EXPONENT ->
  total (fun r => ONE_18 <= r <= I256_MAX) (exp_nonneg x).
Proof.
  intros [Hx HM]. change MAX_NATURAL_EXPONENT with 130000000000000000000 in HM.
  unfold exp_nonneg, exp_first. cbn [constant_x_18 constant_a_18 rbind].
  assert (Hsub : forall d, 0 <= d <= x -> (i_sub x d : res Error Z) = Ok (x - d)).
  { intros d Hd. apply i_ret_Ok. unfold i256, I256_MIN, I256_MAX. lia. }
  assert (Hinv : forall X y, 0 <= y * 100 <= X -> exp_inv X ONE_20 (y * 100, ONE_20)).
  { intros X y Hy. split; cbn [fst snd]; lia. }
  destruct (Z.leb_spec 128000000000000000000 x);
    [|destruct (Z.leb_spec 64000000000000000000 x)].
  - rewrite Hsub by lia; cbn [rbind fst snd].
    destruct (Z.eq_dec x 130000000000000000000) as [->|].
    + apply (exp_rest_total _ _ 738905609893065022723 (4 * 10 ^ 55)); [closed..| |split; closed|closed|closed].
      vm_compute. repeat split; discriminate.
    + eapply (exp_rest_total _ _ (576 * 10 ^ 18) (4 * 10 ^ 55)); [lia|unfold I256_MAX; lia| |split; closed|closed|closed].
      apply exp_loop_small, Hinv. change ONE_20 with 100000000000000000000. lia.
  - rewrite Hsub by lia; cbn [rbind fst snd].
    eapply (exp_rest_total _ _ (6 * 10 ^ 47) (7 * 10 ^ 27)); [lia|unfold I256_MAX; lia| |split; closed|closed|closed].
    apply exp_loop_large, Hinv. change ONE_20 with 100000000000000000000. lia.
  - cbn [rbind fst snd].
    eapply (exp_rest_total _ _ (6 * 10 ^ 47) 1); [lia|unfold I256_MAX; lia| |lia|closed|closed].
    apply exp_loop_large, Hinv. change ONE_20 with 100000000000000000000. lia.
Qed.
End exponential_total.

(** * Bounds of the logarithms *)
Section logarithm.
Import LogExp.

Lemma quot_abs_le a b c : 0 < b -> Z.abs a <= c * b -> Z.abs (Z.quot a b) <= c.
Proof.
  intros Hb H. rewrite <- Z.quot_abs by lia. rewrite (Z.abs_eq b) by lia.
  rewrite Z.quot_div_nonneg by lia. apply Z.div_le_upper_bound; lia.
Qed.

(** Signed operations, with a bound [c] on the result's magnitude. *)
Lemma i_ret_abs_total (Q : Z -> Prop) z c :
  Z.abs z <= c -> c <= I256_MAX -> Q z -> total Q (i_ret z : res Error Z).
Proof. intros. apply i_ret_total; [|done]. unfold i256, I256_MIN, I256_MAX in *. lia. Qed.

Lemma i_div_abs_total (Q : Z -> Prop) a b c :
  0 < b -> Z.abs a <= c * b -> c <= I256_MAX ->
  (forall q, Z.abs q <= c -> (0 <= a -> 0 <= q) -> Q q) -> total Q (i_div a b : res Error Z).
Proof.
  intros Hb Ha Hc HQ. unfold i_div. destruct (Z.eqb_spec b 0); [lia|].
  pose proof (quot_abs_le a b c Hb Ha).
  apply (i_ret_abs_total _ _ c); [done|done|]. apply HQ; [done|].
  intros. by apply Z.quot_pos.
Qed.

Lemma abs_mul_bound a A b B : Z.abs a <= A -> Z.abs b <= B -> Z.abs (a * b) <= A * B.
Proof. intros. rewrite Z.abs_mul. apply Z.mul_le_mono_nonneg; lia. Qed.

Definition ln_term_inv (one : Z) (pos : Prop) (k : nat) (st : Z * Z) : Prop :=
  Z.abs (fst st) <= one /\ Z.abs (snd st) <= (1 + Z.of_nat k) * one /\
  (pos -> 0 <= fst st /\ 0 <= snd st).

Lemma ln_term_total one z2 pos k i st :
  0 < one -> 0 <= z2 <= one -> 0 < i -> one * one <= I256_MAX ->
  (2 + Z.of_nat k) * one <= I256_MAX ->
  ln_term_inv one pos k st -> total (ln_term_inv one pos (S k)) (ln_term one z2 st i).
Proof.
  intros Ho Hz Hi HM HK (Hn & Hs & Hpos). destruct st as [num sum]; cbn [fst snd] in *.
  unfold ln_term. pose proof (abs_mul_bound num one z2 one Hn ltac:(lia)).
  eapply total_bind; [by apply (i_ret_abs_total (fun r => r = num * z2) _ (one * one))|].
  intros ? ->.
  eapply total_bind; [apply (i_div_abs_total
    (fun q => Z.abs q <= one /\ (0 <= num -> 0 <= q)) _ _ one); [lia|lia|nia|]|].
  { intros q Hq Hq'. split; [done|]. intros. apply Hq'. nia. }
  intros n [Hn1 Hn2].
  eapply total_bind; [apply (i_div_abs_total
    (fun q => Z.abs q <= one /\ (0 <= n -> 0 <= q)) _ _ one); [lia|nia|nia|auto]|].
  intros t [Ht1 Ht2].
  eapply total_bind; [apply (i_ret_abs_total (fun r => r = sum + t) _ ((2 + Z.of_nat k) * one)); [nia|done|done]|].
  intros ? ->. unfold ln_term_inv; cbn [total fst snd]. split_and!; [lia|lia|].
  intros [? ?]%Hpos. split; [by apply Hn2|]. assert (0 <= t) by auto. lia.
Qed.

(** The series is small, and nonnegative above one. *)
Lemma ln_series_total one a (l : list Z) :
  0 < one -> 0 <= a -> (a + one) * one <= I256_MAX ->
  (forall i, i ∈ l -> 0 < i) -> 2 * (1 + Z.of_nat (length l)) * one <= I256_MAX ->
  total (fun s => Z.abs s <= 2 * (1 + Z.of_nat (length l)) * one /\ (one <= a -> 0 <= s))
    (ln_series one a l).
Proof.
  intros Ho Ha HM Hl HK. unfold ln_series.
  eapply total_bind; [apply (i_ret_abs_total (fun r => r = a - one) _ (a + one)); [lia|nia|done]|].
  intros ? ->. eapply total_bind;
    [apply (i_ret_abs_total (fun r => r = (a - one) * one) _ ((a + one) * one)); [|done..]|].
  { rewrite Z.abs_mul. nia. }
  intros ? ->. eapply total_bind;
    [apply (i_ret_abs_total (fun r => r = a + one) _ (a + one)); [lia|nia|done]|].
  intros ? ->. eapply total_bind; [apply (i_div_abs_total
    (fun z => Z.abs z <= one /\ (one <= a -> 0 <= z)) _ _ one); [lia| |nia|]|].
  { rewrite Z.abs_mul. nia. }
  { intros q Hq Hq'. split; [done|]. intros. apply Hq'. nia. }
  intros z [Hz Hz']. pose proof (abs_mul_bound z one z one Hz Hz).
  eapply total_bind; [apply (i_ret_abs_total (fun r => r = z * z) _ (one * one)); [done|nia|done]|].
  intros ? ->. eapply total_bind; [apply (i_div_abs_total
    (fun q => 0 <= q <= one) _ _ one); [lia|lia|nia|]|].
  { intros q Hq Hq'. assert (0 <= q) by (apply Hq'; nia). lia. }
  intros z2 [Hz20 Hz21]. eapply total_bind.
  { apply (rfold_total_count (ln_term_inv one (one <= a)) _ _ 0).
    - split_and!; cbn [fst snd]; [lia|lia|]. intros Hp. by apply Hz' in Hp.
    - intros j st i Hj Hi. apply ln_term_total; [lia|lia|by apply Hl|nia|nia]. }
  intros [n s] (_ & Hs & Hpos); cbn [fst snd] in *.
  apply (i_ret_abs_total _ _ (2 * (1 + Z.of_nat (length l)) * one)); [lia|done|].
  split; [lia|]. intros [_ ?]%Hpos. lia.
Qed.

(** The reduction loops of [_ln]. *)
Definition ln_inv (A S S' : Z) (st : Z * Z) : Prop :=
  ONE_20 <= fst st <= A /\ S <= snd st <= S'.

Lemma ln_step_may i ai xi A S S' T st :
  ln_inv A S S' st -> constant_a_20 i = Ok ai -> constant_x_20 i = Ok xi ->
  ONE_20 <= ai -> 0 <= xi -> A * ONE_20 <= I256_MAX -> 0 <= S -> S' + xi <= T -> T <= I256_MAX ->
  total (ln_inv A S T) (ln_step_20 st i).
Proof.
  intros [Ha Hs] Hai Hxi H1 H2 HM HS HT HTM. destruct st as [a sum]; cbn [fst snd] in *.
  unfold ln_step_20. rewrite Hai; cbn [rbind]. assert (H20 : 0 < ONE_20) by reflexivity.
  destruct (Z.leb_spec ai a); [|unfold ln_inv; cbn [total fst snd]; lia].
  eapply total_bind; [apply (i_mul_total (fun r => r = a * ONE_20) _ A _ ONE_20); [lia..|done]|].
  intros ? ->. eapply total_bind; [apply (i_div_nn_total (fun r => ONE_20 <= r <= A)); [nia|lia|]|].
  { split; [apply Z.div_le_lower_bound; nia|]. apply Z.div_le_upper_bound; nia. }
  intros q [Hq0 Hq1]. rewrite Hxi; cbn [rbind].
  eapply total_bind; [apply (i_add_total (fun r => r = sum + xi)); [lia..|done]|].
  intros ? ->. unfold ln_inv; cbn [total fst snd]; lia.
Qed.

Lemma ln_step_not i ai A S S' st :
  ln_inv A S S' st -> constant_a_20 i = Ok ai -> A < ai ->
  total (ln_inv A S S') (ln_step_20 st i).
Proof.
  intros [Ha Hs] Hai HA. destruct st as [a sum]; cbn [fst snd] in *.
  unfold ln_step_20. rewrite Hai; cbn [rbind].
  destruct (Z.leb_spec ai a); [lia|]. split; cbn [fst snd]; lia.
Qed.
End logarithm.

Ltac ln_may i T :=
  eapply total_bind;
  [ eapply (ln_step_may i _ _ _ _ _ T); [eassumption|reflexivity|reflexivity|closed..]
  | let st := fresh "st" in intros st ? ].
Ltac ln_not i :=
  eapply total_bind;
  [ eapply (ln_step_not i); [eassumption|reflexivity|closed]
  | let st := fresh "st" in intros st ? ].

Section logarithm_total.
Import LogExp.

Definition x_sum : Z := 79375 * 10 ^ 16.

Lemma ln_loop_small st :
  ln_inv (15 * 10 ^ 22) 0 (128 * ONE_20) st ->
  total (ln_inv (15 * 10 ^ 22) 0 (136 * ONE_20))
    (rfold ln_step_20 st [2; 3; 4; 5; 6; 7; 8; 9; 10; 11]).
Proof.
  intros H. cbn [rfold]. ln_not 2. ln_not 3. ln_not 4.
  ln_may 5 (132 * ONE_20). ln_may 6 (134 * ONE_20). ln_may 7 (135 * ONE_20).
  ln_may 8 (1355 * 10 ^ 19). ln_may 9 (13575 * 10 ^ 18). ln_may 10 (135875 * 10 ^ 17).
  ln_may 11 (136 * ONE_20). done.
Qed.

Lemma ln_loop_large st :
  ln_inv (63 * 10 ^ 46) 0 (64 * ONE_20) st ->
  total (ln_inv (63 * 10 ^ 46) 0 (128 * ONE_20))
    (rfold ln_step_20 st [2; 3; 4; 5; 6; 7; 8; 9; 10; 11]).
Proof.
  intros H. cbn [rfold]. ln_may 2 (96 * ONE_20). ln_may 3 (112 * ONE_20).
  ln_may 4 (120 * ONE_20). ln_may 5 (124 * ONE_20). ln_may 6 (126 * ONE_20).
  ln_may 7 (127 * ONE_20). ln_may 8 (1275 * 10 ^ 19). ln_may 9 (12775 * 10 ^ 18).
  ln_may 10 (127875 * 10 ^ 17). ln_may 11 (128 * ONE_20). done.
Qed.

(** Division of the signed type on a positive range is exact. *)
Lemma i_div_nn_Ok a b : 0 <= a <= I256_MAX -> 0 < b -> (i_div a b : res Error Z) = Ok (a / b).
Proof.
  intros Ha Hb. assert (Ht : total (fun r => r = a / b) (i_div a b : res Error Z)).
  { by apply i_div_nn_total. }
  destruct (i_div a b) as [r| |]; simpl in Ht; [by subst|done..].
Qed.

Lemma i_ret_nn_Ok z : 0 <= z <= I256_MAX -> (i_ret z : res Error Z) = Ok z.
Proof. intros. apply i_ret_Ok. unfold i256, I256_MIN, I256_MAX in *. lia. Qed.

(** After the two largest constants, either the sum is at least 128 and the
    argument below e^8, or the sum is at most 64. *)
Lemma ln_first_total a :
  ONE_18 <= a <= I256_MAX ->
  total (fun st => ONE_18 <= fst st /\ 0 <= snd st /\
           (fst st <= 15 * 10 ^ 20 /\ snd st <= 128 * ONE_18 \/
            fst st <= 63 * 10 ^ 44 /\ snd st <= 64 * ONE_18))
    (rfold ln_step_18 (a, 0) [0; 1]).
Proof.
  intros [Ha HM]. unfold ONE_18 in *. cbn [rfold]. unfold ln_step_18.
  cbn [constant_a_18 constant_x_18 rbind]. unfold i_mul, i_add, ONE_18.
  set (A0 := 38877084059945950922200000000000000000000000000000000000).
  set (A1 := 6235149080811616882910000000).
  assert (HA0 : A0 * 10 ^ 18 <= I256_MAX < A0 * (15 * 10 ^ 20 + 1)) by (split; closed).
  assert (HA1 : A0 * 10 ^ 18 < A1 * (63 * 10 ^ 44)) by closed.
  assert (0 < A0) by closed. assert (0 < A1) by closed.
  assert (HA1M : A1 * 10 ^ 18 < 63 * 10 ^ 44) by closed.
  assert (HA2 : 15 * 10 ^ 20 < A1 * 10 ^ 18) by closed.
  clearbody A0 A1. rewrite (i_ret_nn_Ok (A0 * 10 ^ 18)) by lia. cbn [rbind].
  destruct (Z.leb_spec (A0 * 10 ^ 18) a).
  - rewrite (i_div_nn_Ok a) by lia. cbn [rbind]. rewrite i_ret_nn_Ok by (unfold I256_MAX; lia).
    cbn [rbind]. rewrite i_ret_nn_Ok by (unfold I256_MAX in *; lia). cbn [rbind].
    assert (10 ^ 18 <= a / A0) by (apply Z.div_le_lower_bound; lia).
    assert (a / A0 < 15 * 10 ^ 20 + 1) by (apply Z.div_lt_upper_bound; lia).
    destruct (Z.leb_spec (A1 * 10 ^ 18) (a / A0)); [lia|]. cbn [rbind total fst snd]. lia.
  - cbn [rbind]. rewrite i_ret_nn_Ok by (unfold I256_MAX in *; lia). cbn [rbind].
    destruct (Z.leb_spec (A1 * 10 ^ 18) a).
    + rewrite (i_div_nn_Ok a) by lia. cbn [rbind]. rewrite i_ret_nn_Ok by (unfold I256_MAX; lia).
      cbn [rbind total fst snd].
      assert (10 ^ 18 <= a / A1) by (apply Z.div_le_lower_bound; lia).
      assert (a / A1 < 63 * 10 ^ 44) by (apply Z.div_lt_upper_bound; lia). lia.
    + cbn [rbind total fst snd]. lia.
Qed.

(** The largest logarithm, scaled: enough for [ln x * y] to fit. *)
Definition LN_BOUND : Z := 148 * ONE_18.

Lemma ln_ge_one_total a :
  ONE_18 <= a <= I256_MAX -> total (fun r => 0 <= r <= LN_BOUND) (ln_ge_one a).
Proof.
  intros Ha. unfold ln_ge_one, i_mul, i_add. unfold LN_BOUND, ONE_18 in *.
  eapply total_bind; [by apply ln_first_total|].
  intros [b sum] (Hb & Hsum & Hcase); cbn [fst snd] in *. unfold ONE_18 in *.
  rewrite !i_ret_nn_Ok by (unfold I256_MAX; lia). cbn [rbind].
  eapply (total_bind (fun st =>
    0 <= fst st <= 63 * 10 ^ 46 /\ ONE_20 <= fst st /\ 0 <= snd st <= 136 * ONE_20)).
  - unfold ONE_20 in *. destruct Hcase as [[]|[]].
    + eapply total_mono; [apply ln_loop_small|]; unfold ln_inv, ONE_20; cbn [fst snd]; lia.
    + eapply total_mono; [apply ln_loop_large|]; unfold ln_inv, ONE_20; cbn [fst snd]; lia.
  - intros [c s] ([Hc0 Hc] & Hc1 & Hs); cbn [fst snd] in *. unfold ONE_20 in *.
    eapply total_bind; [apply (ln_series_total (10 ^ 20) c); [lia|lia| | |]|].
    + unfold I256_MAX. lia.
    + intros i Hi. repeat (apply elem_of_cons in Hi as [->|Hi]; [done|]). by apply elem_of_nil in Hi.
    + closed.
    + cbn [length]. intros r [Hr Hr']. specialize (Hr' Hc1).
      rewrite i_ret_nn_Ok by (unfold I256_MAX; lia). cbn [rbind].
      apply i_div_nn_total; [unfold I256_MAX; lia|lia|].
      split; [apply Z.div_pos; lia|apply Z.div_le_upper_bound; lia].
Qed.
End logarithm_total.

(** * [pow] never panics *)
Section power.
Import LogExp.

Lemma ln_total a :
  0 < a <= I256_MAX ->
  total (fun r => Z.abs r <= LN_BOUND /\ (ONE_18 <= a -> 0 <= r)) (_ln a).
Proof.
  intros [Ha HM]. unfold _ln. cbn [ln_fuel].
  assert (Hge : forall b, ONE_18 <= b <= I256_MAX ->
    total (fun r => Z.abs r <= LN_BOUND /\ 0 <= r) (ln_ge_one b)).
  { intros b Hb. eapply total_mono; [by apply ln_ge_one_total|]. cbn beta. lia. }
  destruct (Z.ltb_spec a ONE_18).
  - unfold i_mul. rewrite i_ret_nn_Ok by (split; closed). cbn [rbind].
    rewrite (i_div_nn_Ok (ONE_18 * ONE_18)) by (first [split; closed|lia]). cbn [rbind].
    assert (Hb : ONE_18 <= ONE_18 * ONE_18 / a <= I256_MAX).
    { split; [apply Z.div_le_lower_bound; nia|].
      apply Z.div_le_upper_bound; [lia|]. transitivity (I256_MAX * 1); [closed|nia]. }
    destruct (Z.ltb_spec (ONE_18 * ONE_18 / a) ONE_18); [lia|].
    eapply total_bind; [apply Hge; lia|]. intros r [Hr Hr0].
    apply (i_ret_abs_total _ _ LN_BOUND); [lia|closed|]. split; lia.
  - eapply total_mono; [apply Hge; lia|]. intros r [Hr Hr0]. by split.
Qed.

Lemma ln_36_total x :
  LN_36_LOWER_BOUND < x < LN_36_UPPER_BOUND ->
  total (fun r => Z.abs r <= 16 * ONE_36 /\ (ONE_18 <= x -> 0 <= r)) (_ln_36 x).
Proof.
  intros Hx. unfold LN_36_LOWER_BOUND, LN_36_UPPER_BOUND, ONE_18 in *.
  unfold _ln_36, i_mul, ONE_18. rewrite i_ret_nn_Ok by (unfold I256_MAX; lia). cbn [rbind].
  eapply total_mono; [apply (ln_series_total ONE_36)|]; unfold ONE_36.
  - lia.
  - lia.
  - unfold I256_MAX. lia.
  - intros i Hi. repeat (apply elem_of_cons in Hi as [->|Hi]; [done|]). by apply elem_of_nil in Hi.
  - closed.
  - cbn [length]. intros r [Hr Hr']. split; [lia|]. intros. apply Hr'. lia.
Qed.

Lemma log_times_total x y :
  0 < x <= I256_MAX -> 0 <= y <= MILD_EXPONENT_BOUND ->
  total (fun r => Z.abs r <= I256_MAX /\ (ONE_18 <= x -> 0 <= r)) (log_times x y).
Proof.
  intros Hx Hy. assert (H18 : 0 < ONE_18) by reflexivity.
  assert (HM1 : LN_BOUND * MILD_EXPONENT_BOUND <= I256_MAX) by closed.
  assert (HM2 : 16 * ONE_18 * MILD_EXPONENT_BOUND + ONE_18 * MILD_EXPONENT_BOUND <= I256_MAX) by closed.
  unfold log_times. destruct (_ && _)%bool eqn:Hb; bool_to_prop.
  - eapply total_bind; [apply ln_36_total; lia|]. intros l [Hl Hl'].
    eapply total_bind; [apply (i_div_abs_total
      (fun q => Z.abs q <= 16 * ONE_18 /\ (0 <= l -> 0 <= q)) _ _ (16 * ONE_18)); [exact H18| |closed|by auto]|].
    { by change (16 * ONE_18 * ONE_18) with (16 * ONE_36). }
    intros q [Hq Hq'].
    pose proof (abs_mul_bound q (16 * ONE_18) y MILD_EXPONENT_BOUND Hq ltac:(lia)).
    eapply total_bind; [apply (i_ret_abs_total (fun r => r = q * y) _ I256_MAX); [lia|done|done]|].
    intros ? ->. unfold i_rem. destruct (Z.eqb_spec ONE_18 0); [done|].
    pose proof (Z.rem_bound_abs l ONE_18 ltac:(done)) as Hrem. rewrite (Z.abs_eq ONE_18) in Hrem by done.
    eapply total_bind; [apply (i_ret_abs_total (fun r => r = Z.rem l ONE_18) _ ONE_18); [lia|closed|done]|].
    intros ? ->.
    pose proof (abs_mul_bound (Z.rem l ONE_18) ONE_18 y MILD_EXPONENT_BOUND ltac:(lia) ltac:(lia)).
    eapply total_bind; [apply (i_ret_abs_total (fun r => r = Z.rem l ONE_18 * y) _ I256_MAX); [lia|done|done]|].
    intros ? ->.
    eapply total_bind; [apply (i_div_abs_total (fun r => Z.abs r <= MILD_EXPONENT_BOUND /\
      (0 <= l -> 0 <= r)) _ _ MILD_EXPONENT_BOUND); [done|lia|closed|]|].
    { intros r Hr Hr'. split; [done|]. intros Hl0. apply Hr'.
      pose proof (Z.rem_nonneg l ONE_18 ltac:(done) Hl0). nia. }
    intros b [Hb1 Hb2]. assert (MILD_EXPONENT_BOUND <= ONE_18 * MILD_EXPONENT_BOUND) by closed.
    apply (i_ret_abs_total _ _ I256_MAX); [lia|done|]. split; [lia|].
    intros Hx1. specialize (Hl' Hx1). specialize (Hq' Hl'). specialize (Hb2 Hl'). nia.
  - eapply total_bind; [by apply ln_total|]. intros l [Hl Hl'].
    pose proof (abs_mul_bound l LN_BOUND y MILD_EXPONENT_BOUND Hl ltac:(lia)).
    apply (i_ret_abs_total _ _ I256_MAX); [lia|done|]. split; [lia|]. intros Hx1%Hl'. nia.
Qed.

Lemma exp_returns x :
  returns (fun r => 0 <= r <= I256_MAX /\ (0 <= x -> ONE_18 <= r)) (exp x).
Proof.
  unfold exp. cbn [exp_fuel].
  destruct (Z.leb_spec MIN_NATURAL_EXPONENT x); cbn [andb negb returns]; [|done].
  destruct (Z.leb_spec x MAX_NATURAL_EXPONENT); cbn [negb returns]; [|done].
  destruct (Z.ltb_spec x 0).
  - unfold i_mul. rewrite i_ret_nn_Ok by (split; closed). cbn [rbind].
    assert (Hn : 0 <= - x <= MAX_NATURAL_EXPONENT).
    { split; [lia|]. transitivity (- MIN_NATURAL_EXPONENT); [lia|closed]. }
    unfold i_neg. rewrite i_ret_nn_Ok by (split; [lia|transitivity MAX_NATURAL_EXPONENT; [lia|closed]]).
    cbn [rbind]. destruct (Z.leb_spec MIN_NATURAL_EXPONENT (- x)); cbn [andb negb];
      [|unfold MIN_NATURAL_EXPONENT, ONE_18 in *; lia].
    destruct (Z.leb_spec (- x) MAX_NATURAL_EXPONENT); cbn [negb]; [|lia].
    destruct (Z.ltb_spec (- x) 0); [lia|]. apply total_returns.
    eapply total_bind; [by apply exp_nonneg_total|]. intros e [He He'].
    assert (0 < ONE_18) by reflexivity. assert (ONE_18 * ONE_18 <= I256_MAX) by closed.
    apply i_div_nn_total; [nia|lia|]. split; [|lia].
    split; [apply Z.div_pos; nia|]. apply Z.div_le_upper_bound; nia.
  - apply total_returns. eapply total_mono; [by apply exp_nonneg_total|].
    cbn beta. unfold ONE_18. lia.
Qed.

Lemma pow_returns x y :
  0 <= x -> 0 <= y ->
  returns (fun r => u256 r /\ (ONE_18 <= x -> ONE_18 <= r)) (pow x y).
Proof.
  intros Hx Hy. unfold pow.
  destruct (Z.eqb_spec y 0) as [->|Hy0].
  { cbn [returns]. split; [split; closed|done]. }
  destruct (Z.eqb_spec x 0) as [->|Hx0].
  { cbn [returns]. split; [split; closed|]. intros H%Z.leb_le. discriminate H. }
  eapply returns_bind; [apply (returns_ok_or (fun v => v = x /\ x <= I256_MAX))|].
  { unfold i256_try_from. intros a. case_match; bool_to_prop; naive_solver. }
  intros ? [-> HxM]. destruct (Z.ltb_spec y MILD_EXPONENT_BOUND); cbn [rbind]; [|done].
  assert (Hyi : i256_try_from y = Some y).
  { unfold i256_try_from. assert (MILD_EXPONENT_BOUND <= I256_MAX) by closed.
    destruct (Z.leb_spec y I256_MAX); [done|lia]. }
  rewrite Hyi. cbn [opt_expect rbind].
  eapply returns_bind; [apply total_returns, log_times_total; lia|]. intros l [Hl Hl'].
  assert (H18 : 0 < ONE_18) by reflexivity.
  eapply returns_bind; [apply total_returns, (i_div_abs_total
    (fun q => 0 <= l -> 0 <= q) _ _ I256_MAX); [done|nia|done|auto]|].
  intros q Hq. cbn beta in Hq. destruct (negb _); [done|].
  pose proof (exp_returns q) as He. destruct (exp q) as [e| |]; [|done|done]. simpl in He |- *.
  destruct He as [He He']. rewrite Z.mod_small.
  - split; [|auto]. split; [lia|]. transitivity I256_MAX; [lia|closed].
  - split; [lia|]. apply Z.le_lt_trans with I256_MAX; [lia|closed].
Qed.
End power.

(** [Bfp::pow_up] and [Bfp::pow_up_v3]: no panic, in range, and at least one
    above one. *)
Section bfp_power.

(** What the weighted pool mathematics needs of a power function. *)
Definition pow_spec (f : Z -> Z -> res Error Z) : Prop :=
  forall x y, u256 x -> u256 y ->
  returns (fun r => u256 r /\ (Bfp.ONE <= x -> Bfp.ONE <= r)) (f x y).

Lemma mul_up_returns a b :
  u256 a -> u256 b ->
  returns (fun c => u256 c /\ c = cdiv (a * b) Bfp.ONE_18) (Bfp.mul_up a b).
Proof.
  intros Ha Hb. rewrite mul_up_eq by done. case_match; bool_to_prop; [|done].
  split; [|done]. apply cdiv_u256; [apply ONE_18_pos|]. unfold u256 in *. nia.
Qed.

Lemma bfp_add_returns a b :
  u256 a -> u256 b -> returns (fun c => u256 c /\ c = a + b) (Bfp.add a b).
Proof.
  intros Ha Hb. apply returns_ok_or. intros c Hc. split; [by apply (checked_add_u256 a b)|].
  by apply checked_add_Some in Hc as [-> _].
Qed.

Lemma square_ge_one x : Bfp.ONE <= x -> Bfp.ONE <= cdiv (x * x) Bfp.ONE_18.
Proof.
  intros Hx. pose proof ONE_18_pos. pose proof (cdiv_spec (x * x) _ H). unfold Bfp.ONE in *. nia.
Qed.

Lemma raw_with_error x y :
  u256 x -> u256 y ->
  returns (fun r => u256 r /\ (Bfp.ONE <= x -> Bfp.ONE <= r))
    (let* raw := LogExp.pow x y in
     let* m := Bfp.mul_up raw Bfp.MAX_POW_RELATIVE_ERROR in
     let* max_error := Bfp.add m 1 in
     Bfp.add raw max_error).
Proof.
  intros Hx Hy. eapply returns_bind; [apply pow_returns; [apply Hx|apply Hy]|].
  intros raw [Hraw Hge]. assert (H1 : u256 1) by (split; closed).
  assert (H2 : u256 Bfp.MAX_POW_RELATIVE_ERROR) by (split; closed).
  eapply returns_bind; [exact (mul_up_returns _ _ Hraw H2)|].
  intros m [Hm _]. eapply returns_bind; [exact (bfp_add_returns _ _ Hm H1)|].
  intros e [He _]. eapply returns_mono; [by apply bfp_add_returns|].
  intros r [Hr ->]. split; [done|]. intros H%Hge. unfold u256 in He. unfold Bfp.ONE, Bfp.ONE_18, LogExp.ONE_18 in *. lia.
Qed.

Lemma pow_up_spec : pow_spec BfpPow.pow_up.
Proof. intros x y Hx Hy. by apply raw_with_error. Qed.

Lemma pow_up_v3_spec : pow_spec BfpPow.pow_up_v3.
Proof.
  intros x y Hx Hy. unfold BfpPow.pow_up_v3.
  destruct (y =? Bfp.ONE); [by split|].
  destruct (y =? Bfp.TWO).
  { eapply returns_mono; [by apply mul_up_returns|]. intros c [Hc ->].
    split; [done|apply square_ge_one]. }
  destruct (y =? Bfp.FOUR); [|by apply raw_with_error].
  eapply returns_bind; [by apply mul_up_returns|]. intros c [Hc Hcx].
  eapply returns_mono; [by apply mul_up_returns|]. intros d [Hd ->].
  split; [done|]. intros H. apply square_ge_one. rewrite Hcx. by apply square_ge_one.
Qed.
End bfp_power.

#[export] Hint Resolve pow_up_spec pow_up_v3_spec : rust.

(** * Properties *)

(** The exponentiation is total over all 256-bit inputs: whatever the base
    and the exponent, [pow] returns a 256-bit number or one of the contract's
    error codes, and no intermediate [I256] operation overflows, divides by
    zero or recurses without end; a base of at least one gives a power of at
    least one. *)
Theorem pow_never_overflows (x y : Z) :
  u256 x -> u256 y ->
  LogExp.pow x y <> Panic /\
  forall r, LogExp.pow x y = Ok r -> u256 r /\ (LogExp.ONE_18 <= x -> LogExp.ONE_18 <= r).
Proof.
  intros [Hx _] [Hy _]. pose proof (pow_returns x y Hx Hy) as H. split.
  - exact (returns_panic_free _ _ H).
  - intros r Hr. exact (returns_Ok _ _ _ H Hr).
Qed.

Lemma pow_never_overflows_witness :
  LogExp.pow (U256_MAX / 4) (10 ^ 17) <> Panic /\
  forall r, LogExp.pow (U256_MAX / 4) (10 ^ 17) = Ok r ->
    u256 r /\ (LogExp.ONE_18 <= U256_MAX / 4 -> LogExp.ONE_18 <= r).
Proof. apply (pow_never_overflows (U256_MAX / 4) (10 ^ 17)); split; closed. Defined.
