(* ===== verification/WeightedMath.v ===== *)
(** Weighted pools: crates/shared/src/sources/balancer_v2/swap/weighted_math.rs. *)
From stdpp Require Import base numbers option tactics.
From Stdlib Require Import ZArith Lia.
From S2P Require Import Prelude U256 FixedPoint LogExpMath.

Open Scope Z_scope.
Open Scope rust_scope.

Module WeightedMath.
Definition MAX_IN_RATIO : Z := 10 ^ 17 * 3.
Definition MAX_OUT_RATIO : Z := 10 ^ 17 * 3.

Definition calc_out_given_in
    (balance_in weight_in balance_out weight_out amount_in : Z) : res Error Z :=
  let* max := Bfp.mul_down balance_in MAX_IN_RATIO in
  if max <? amount_in then Err MaxInRatio else
  let* denominator := res_expect (Bfp.add balance_in amount_in) in
  let* base := Bfp.div_up balance_in denominator in
  let* exponent := Bfp.div_down weight_in weight_out in
  let* power := BfpPow.pow_up base exponent in
  let* c := Bfp.complement power in
  Bfp.mul_down balance_out c.

Definition calc_in_given_out
    (balance_in weight_in balance_out weight_out amount_out : Z) : res Error Z :=
  let* max := Bfp.mul_down balance_out MAX_OUT_RATIO in
  if max <? amount_out then Err MaxOutRatio else
  let* denominator := res_expect (Bfp.sub balance_out amount_out) in
  let* base := Bfp.div_up balance_out denominator in
  let* exponent := Bfp.div_up weight_out weight_in in
  let* power := BfpPow.pow_up base exponent in
  let* ratio := res_expect (Bfp.sub power Bfp.ONE) in
  Bfp.mul_up balance_in ratio.

Definition calc_out_given_in_v3
    (balance_in weight_in balance_out weight_out amount_in : Z) : res Error Z :=
  let* max := Bfp.mul_down balance_in MAX_IN_RATIO in
  if max <? amount_in then Err MaxInRatio else
  let* denominator := res_expect (Bfp.add balance_in amount_in) in
  let* base := Bfp.div_up balance_in denominator in
  let* exponent := Bfp.div_down weight_in weight_out in
  let* power := BfpPow.pow_up_v3 base exponent in
  let* c := Bfp.complement power in
  Bfp.mul_down balance_out c.

Definition calc_in_given_out_v3
    (balance_in weight_in balance_out weight_out amount_out : Z) : res Error Z :=
  let* max := Bfp.mul_down balance_out MAX_OUT_RATIO in
  if max <? amount_out then Err MaxOutRatio else
  let* denominator := res_expect (Bfp.sub balance_out amount_out) in
  let* base := Bfp.div_up balance_out denominator in
  let* exponent := Bfp.div_up weight_out weight_in in
  let* power := BfpPow.pow_up_v3 base exponent in
  let* ratio := res_expect (Bfp.sub power Bfp.ONE) in
  Bfp.mul_up balance_in ratio.
End WeightedMath.

(** [calc_out_given_in] of the tests of weighted_math.rs. *)
Example calc_out_test :
  WeightedMath.calc_out_given_in (100000000000000000000000) (300000000000000)
    (10000000000000000000) (700000000000000) (10000000000000000) =
  Ok 428571297950.
Proof. vm_compute. reflexivity. Qed.

Example calc_in_test :
  WeightedMath.calc_in_given_out (100000000000000000000000) (300000000000000)
    (10000000000000000000) (700000000000000) (10000000000000000) =
  Ok 233722784701541000000.
Proof. vm_compute. reflexivity. Qed.

Example calc_out_test_errors :
  WeightedMath.calc_out_given_in U256_MAX 0 0 0 2 = Err MulOverflow /\
  WeightedMath.calc_out_given_in 1 0 0 0 2 = Err MaxInRatio /\
  WeightedMath.calc_out_given_in (2 ^ 128 - 1) 0 0 0 1 = Err ZeroDivision /\
  WeightedMath.calc_out_given_in (2 ^ 128 - 1) (2 ^ 128 - 1) 1 1 1 = Err YOutOfBounds.
Proof. by vm_compute. Qed.

(** * The two directions, for any power function that meets [pow_spec] *)
Section weighted.
Context (powf : Z -> Z -> res Error Z) (Hpow : pow_spec powf).

Lemma mul_down_returns a b :
  u256 a -> u256 b ->
  returns (fun c => c = a * b / Bfp.ONE_18 /\ u256 c /\ a * b <= U256_MAX) (Bfp.mul_down a b).
Proof.
  intros Ha Hb. rewrite mul_down_eq. case_match; bool_to_prop; [|done].
  split; [done|]. split; [|done]. apply div_u256; [unfold u256 in *; nia|apply ONE_18_pos].
Qed.

Lemma div_up_returns a b :
  u256 a -> u256 b ->
  returns (fun c => c = cdiv (a * Bfp.ONE_18) b /\ u256 c /\ 0 < b) (Bfp.div_up a b).
Proof.
  intros Ha Hb. pose proof ONE_18_pos. rewrite div_up_eq by done.
  destruct (Z.eqb_spec b 0); [done|]. case_match; bool_to_prop; [|done].
  split; [done|]. unfold u256 in Ha, Hb. split; [|lia]. apply cdiv_u256; unfold u256; nia.
Qed.

Lemma div_down_returns a b :
  u256 a -> u256 b -> returns u256 (Bfp.div_down a b).
Proof.
  intros Ha Hb. pose proof ONE_18_pos. rewrite div_down_eq.
  destruct (Z.eqb_spec b 0); [done|]. case_match; bool_to_prop; [|done].
  unfold u256 in *. apply div_u256; unfold u256; nia.
Qed.

(** The sum the code calls infallible: an amount within the ratio fits. *)
Lemma denominator_fits balance amount :
  u256 balance -> u256 amount -> balance * WeightedMath.MAX_IN_RATIO <= U256_MAX ->
  amount <= balance * WeightedMath.MAX_IN_RATIO / Bfp.ONE_18 ->
  Bfp.add balance amount = Ok (balance + amount).
Proof.
  intros [Hb Hb'] [Ha Ha'] HM Hr. apply bfp_add_Ok. split; [done|].
  assert (balance * WeightedMath.MAX_IN_RATIO / Bfp.ONE_18 <= balance).
  { apply Z.div_le_upper_bound; [apply ONE_18_pos|].
    unfold WeightedMath.MAX_IN_RATIO, Bfp.ONE_18. lia. }
  unfold WeightedMath.MAX_IN_RATIO in HM. lia.
Qed.

Lemma base_out_of_zero balance : 0 < balance -> cdiv (balance * Bfp.ONE_18) balance = Bfp.ONE_18.
Proof. intros. symmetry. apply cdiv_unique; lia. Qed.

Lemma calc_out_with_returns balance_in weight_in balance_out weight_out amount_in :
  u256 balance_in -> u256 weight_in -> u256 balance_out -> u256 weight_out -> u256 amount_in ->
  returns (fun out => 0 <= out <= balance_out /\ (amount_in = 0 -> out = 0))
    (let* max := Bfp.mul_down balance_in WeightedMath.MAX_IN_RATIO in
     if max <? amount_in then Err MaxInRatio else
     let* denominator := res_expect (Bfp.add balance_in amount_in) in
     let* base := Bfp.div_up balance_in denominator in
     let* exponent := Bfp.div_down weight_in weight_out in
     let* power := powf base exponent in
     let* c := Bfp.complement power in
     Bfp.mul_down balance_out c).
Proof.
  intros Hbi Hwi Hbo Hwo Hai.
  eapply returns_bind; [apply mul_down_returns; [done|split; closed]|].
  intros ? (-> & _ & HM). case_match; bool_to_prop; [done|].
  rewrite denominator_fits by done. cbn [res_expect rbind].
  assert (Hd : u256 (balance_in + amount_in)).
  { eapply (checked_add_u256 balance_in amount_in); [exact Hbi|exact Hai|]. apply checked_add_Some.
    split; [done|]. by apply (bfp_add_Ok _ _ (balance_in + amount_in)), denominator_fits. }
  eapply returns_bind; [by apply div_up_returns|]. intros base (Hbase & Hub & Hpos).
  eapply returns_bind; [by apply div_down_returns|]. intros exponent He.
  eapply returns_bind; [by apply Hpow|]. intros power [Hp Hp1].
  rewrite complement_eq by apply Hp. cbn [rbind].
  set (c := Z.max _ 0). assert (Hc : 0 <= c <= Bfp.ONE_18).
  { subst c. pose proof ONE_18_pos. unfold u256 in Hp. lia. }
  eapply returns_mono; [apply mul_down_returns; [done|]|].
  { split; [lia|]. transitivity Bfp.ONE_18; [lia|closed]. }
  intros out (-> & _ & _). pose proof ONE_18_pos. unfold u256 in Hbo. split_and!.
  - apply Z.div_pos; nia.
  - apply Z.div_le_upper_bound; nia.
  - intros ->. rewrite Z.add_0_r in *. rewrite base_out_of_zero in Hbase by done.
    assert (c = 0) as ->; [|by rewrite Z.mul_0_r].
    subst c. rewrite Hbase in Hp1. unfold Bfp.ONE in Hp1. lia.
Qed.

Lemma calc_in_with_returns balance_in weight_in balance_out weight_out amount_out :
  u256 balance_in -> u256 weight_in -> u256 balance_out -> u256 weight_out -> u256 amount_out ->
  returns u256
    (let* max := Bfp.mul_down balance_out WeightedMath.MAX_OUT_RATIO in
     if max <? amount_out then Err MaxOutRatio else
     let* denominator := res_expect (Bfp.sub balance_out amount_out) in
     let* base := Bfp.div_up balance_out denominator in
     let* exponent := Bfp.div_up weight_out weight_in in
     let* power := powf base exponent in
     let* ratio := res_expect (Bfp.sub power Bfp.ONE) in
     Bfp.mul_up balance_in ratio).
Proof.
  intros Hbi Hwi Hbo Hwo Hao.
  eapply returns_bind; [apply mul_down_returns; [done|split; closed]|].
  intros ? (-> & _ & HM). case_match; bool_to_prop; [done|].
  assert (Hle : amount_out <= balance_out).
  { transitivity (balance_out * WeightedMath.MAX_OUT_RATIO / Bfp.ONE_18); [done|].
    apply Z.div_le_upper_bound; [apply ONE_18_pos|].
    unfold WeightedMath.MAX_OUT_RATIO, Bfp.ONE_18, u256 in *. lia. }
  assert (Bfp.sub balance_out amount_out = Ok (balance_out - amount_out)) as ->.
  { by apply bfp_sub_Ok. }
  cbn [res_expect rbind].
  eapply returns_bind; [apply div_up_returns; [done|unfold u256 in *; lia]|].
  intros base (Hbase & Hub & Hpos).
  eapply returns_bind; [by apply div_up_returns|]. intros exponent (_ & He & _).
  eapply returns_bind; [by apply Hpow|]. intros power [Hp Hp1].
  assert (Bfp.ONE <= base).
  { pose proof (cdiv_spec (balance_out * Bfp.ONE_18) _ Hpos) as Hcd. rewrite <- Hbase in Hcd.
    pose proof ONE_18_pos. unfold Bfp.ONE, u256 in *. nia. }
  assert (Bfp.sub power Bfp.ONE = Ok (power - Bfp.ONE)) as ->.
  { apply bfp_sub_Ok. auto. }
  cbn [res_expect rbind]. eapply returns_mono; [apply mul_up_returns; [done|]|naive_solver].
  specialize (Hp1 ltac:(done)). pose proof ONE_18_pos. unfold u256, Bfp.ONE in *. lia.
Qed.
End weighted.

(** * Properties *)

(** The output of a weighted swap is safe for every 256-bit input, in both
    pool versions: the addition the code marks "See proof above" cannot
    overflow and nothing else panics, the amount paid out never exceeds the
    pool's output balance, and nothing is paid for nothing. *)
Theorem weighted_out_never_panics (bi wi bo wo amount_in : Z) :
  u256 bi -> u256 wi -> u256 bo -> u256 wo -> u256 amount_in ->
  returns (fun out => 0 <= out <= bo /\ (amount_in = 0 -> out = 0))
    (WeightedMath.calc_out_given_in bi wi bo wo amount_in) /\
  returns (fun out => 0 <= out <= bo /\ (amount_in = 0 -> out = 0))
    (WeightedMath.calc_out_given_in_v3 bi wi bo wo amount_in).
Proof.
  intros. split; [apply (calc_out_with_returns BfpPow.pow_up)|
    apply (calc_out_with_returns BfpPow.pow_up_v3)]; auto with rust.
Qed.

Lemma weighted_out_never_panics_witness :
  returns (fun out => 0 <= out <= 10 ^ 19 /\ (10 ^ 16 = 0 -> out = 0))
    (WeightedMath.calc_out_given_in (10 ^ 23) (3 * 10 ^ 14) (10 ^ 19) (7 * 10 ^ 14) (10 ^ 16)) /\
  returns (fun out => 0 <= out <= 10 ^ 19 /\ (10 ^ 16 = 0 -> out = 0))
    (WeightedMath.calc_out_given_in_v3 (10 ^ 23) (3 * 10 ^ 14) (10 ^ 19) (7 * 10 ^ 14) (10 ^ 16)).
Proof. apply (weighted_out_never_panics (10 ^ 23)); split; closed. Defined.

(** The input of a weighted swap is computed without a panic for every
    256-bit input, in both pool versions: neither the balance subtraction nor
    the [power - 1] that the code [expect]s to succeed can underflow. *)
Theorem weighted_in_never_panics (bi wi bo wo amount_out : Z) :
  u256 bi -> u256 wi -> u256 bo -> u256 wo -> u256 amount_out ->
  returns u256 (WeightedMath.calc_in_given_out bi wi bo wo amount_out) /\
  returns u256 (WeightedMath.calc_in_given_out_v3 bi wi bo wo amount_out).
Proof.
  intros. split; [apply (calc_in_with_returns BfpPow.pow_up)|
    apply (calc_in_with_returns BfpPow.pow_up_v3)]; auto with rust.
Qed.

Lemma weighted_in_never_panics_witness :
  returns u256 (WeightedMath.calc_in_given_out (10 ^ 23) (3 * 10 ^ 14) (10 ^ 19) (7 * 10 ^ 14) (10 ^ 16)) /\
  returns u256 (WeightedMath.calc_in_given_out_v3 (10 ^ 23) (3 * 10 ^ 14) (10 ^ 19) (7 * 10 ^ 14) (10 ^ 16)).
Proof. apply (weighted_in_never_panics (10 ^ 23)); split; closed. Defined.
