(* ===== verification/StableMath.v ===== *)
(** Stable pools: crates/shared/src/sources/balancer_v2/swap/stable_math.rs.

    The two Newton iterations, with their 255 rounds, and the two swap
    directions, which change the slice of balances in place: their model is a
    computation over the slice, so that what an early return leaves in it is
    visible. *)
From Stdlib Require Import ZArith Lia.
From stdpp Require Import prelude.
From S2P Require Import Prelude U256 FixedPoint.

Open Scope Z_scope.
Open Scope rust_scope.

(** * Computations over a mutable slice [&mut [Bfp]] *)
Definition slice (A : Type) : Type := list Z -> res Error A * list Z.

Definition sret {A} (a : A) : slice A := fun bs => (Ok a, bs).
Definition sbind {A B} (m : slice A) (k : A -> slice B) : slice B := fun bs =>
  match m bs with
  | (Ok a, bs') => k a bs'
  | (Err e, bs') => (Err e, bs')
  | (Panic, bs') => (Panic, bs')
  end.
Definition slift {A} (m : res Error A) : slice A := fun bs => (m, bs).
(** A computation that reads the slice as a whole. *)
Definition sread {A} (f : list Z -> res Error A) : slice A := fun bs => (f bs, bs).
(** [balances[i]] and [balances[i] = v]: out of range panics. *)
Definition sget (i : nat) : slice Z := fun bs => (opt_expect (bs !! i), bs).
Definition sset (i : nat) (v : Z) : slice unit := fun bs =>
  match bs !! i with Some _ => (Ok tt, <[i := v]> bs) | None => (Panic, bs) end.

Notation "'do*' x := m 'in' k" := (sbind m (fun x => k))
  (at level 10, x name, m at level 100, k at level 200) : rust_scope.

Module StableMath.
Definition AMP_PRECISION : Z := 1000.
Definition ROUNDS : nat := 255.

Definition convergence_criteria (curr_value prev_value : Z) : res Error (option Z) :=
  let one := 1 in
  if prev_value <? curr_value then
    let* d := res_expect (BalU256.bsub curr_value prev_value) in
    if d <=? one then Ok (Some curr_value) else Ok None
  else
    let* d := res_expect (BalU256.bsub prev_value curr_value) in
    if d <=? one then Ok (Some curr_value) else Ok None.

(** The loop [for _ in 0..255] of both iterations. *)
Fixpoint newton (n : nat) (step : Z -> res Error Z) (diverged : Error) (value : Z) : res Error Z :=
  match n with
  | O => Err diverged
  | S n =>
      let prev_value := value in
      let* value := step prev_value in
      let* c := convergence_criteria value prev_value in
      match c with
      | None => newton n step diverged value
      | Some value => Ok value
      end
  end.

Definition invariant_step (amp_times_total num_tokens sum : Z) (balances : list Z) (invariant : Z)
  : res Error Z :=
  let* d_p := rfold (fun d_p balance =>
    let* a := BalU256.bmul d_p invariant in
    let* b := BalU256.bmul balance num_tokens in
    BalU256.bdiv_down a b) invariant balances in
  let* n1 := BalU256.bmul amp_times_total sum in
  let* n2 := BalU256.bdiv_down n1 AMP_PRECISION in
  let* n3 := BalU256.bmul d_p num_tokens in
  let* n4 := BalU256.badd n2 n3 in
  let* numerator := BalU256.bmul n4 invariant in
  let* d1 := BalU256.bsub amp_times_total AMP_PRECISION in
  let* d2 := BalU256.bmul d1 invariant in
  let* d3 := BalU256.bdiv_down d2 AMP_PRECISION in
  let* d4 := BalU256.badd num_tokens 1 in
  let* d5 := BalU256.bmul d4 d_p in
  let* denominator := BalU256.badd d3 d5 in
  BalU256.bdiv_down numerator denominator.

Definition sum_balances (balances : list Z) : res Error Z :=
  rfold BalU256.badd 0 balances.

Definition calculate_invariant (amplification_parameter : Z) (balances : list Z) : res Error Z :=
  let* sum := sum_balances balances in
  if sum =? 0 then Ok sum else
  let num_tokens := Z.of_nat (length balances) in
  let* amp_times_total := BalU256.bmul amplification_parameter num_tokens in
  newton ROUNDS (invariant_step amp_times_total num_tokens sum balances)
    StableInvariantDidntConverge sum.

(** The loop over [balances[1..]] of the balance computation: [(p_d, sum)]. *)
Definition product_and_sum (num_tokens invariant : Z) (balances : list Z) : res Error (Z * Z) :=
  let* sum := opt_expect (balances !! 0%nat) in
  let* p_d := BalU256.bmul sum num_tokens in
  rfold (fun '(p_d, sum) balance_j =>
    let* a := BalU256.bmul p_d balance_j in
    let* b := BalU256.bmul a num_tokens in
    let* p_d := BalU256.bdiv_down b invariant in
    let* sum := BalU256.badd sum balance_j in
    Ok (p_d, sum)) (p_d, sum) (drop 1 balances).

(** The coefficients [(inv2, b, c)] of the quadratic the balance solves. *)
Definition coefficients (amplification_parameter : Z) (balances : list Z)
    (invariant : Z) (token_index : nat) : res Error (Z * Z * Z) :=
  let num_tokens := Z.of_nat (length balances) in
  let* amp_times_total := BalU256.bmul amplification_parameter num_tokens in
  let* ' (p_d, sum) := product_and_sum num_tokens invariant balances in
  let* balance := opt_expect (balances !! token_index) in
  let* sum := u_sub sum balance in
  let* inv2 := BalU256.bmul invariant invariant in
  let* c1 := BalU256.bmul amp_times_total p_d in
  let* c2 := BalU256.bdiv_up inv2 c1 in
  let* c3 := BalU256.bmul c2 AMP_PRECISION in
  let* c := BalU256.bmul c3 balance in
  let* b1 := BalU256.bdiv_down invariant amp_times_total in
  let* b2 := BalU256.bmul b1 AMP_PRECISION in
  let* b := BalU256.badd sum b2 in
  Ok (inv2, b, c).

Definition balance_step (b c invariant token_balance : Z) : res Error Z :=
  let* n1 := BalU256.bmul token_balance token_balance in
  let* n2 := BalU256.badd n1 c in
  let* d1 := BalU256.bmul token_balance 2 in
  let* d2 := BalU256.badd d1 b in
  let* d3 := BalU256.bsub d2 invariant in
  BalU256.bdiv_up n2 d3.

Definition get_token_balance_given_invariant_and_all_other_balances
    (amplification_parameter : Z) (balances : list Z) (invariant : Z) (token_index : nat)
  : res Error Z :=
  let* ' (inv2, b, c) := coefficients amplification_parameter balances invariant token_index in
  let* t1 := BalU256.badd inv2 c in
  let* t2 := BalU256.badd invariant b in
  let* token_balance := BalU256.bdiv_up t1 t2 in
  newton ROUNDS (balance_step b c invariant) StableGetBalanceDidntConverge token_balance.

Definition calc_out_given_in (amplification_parameter : Z) (token_index_in token_index_out : nat)
    (token_amount_in : Z) : slice Z :=
  do* len := sread (fun balances => Ok (length balances)) in
  if ((len <=? token_index_out)%nat || (len <=? token_index_in)%nat)%bool
  then slift (Err InvalidToken) else
  do* invariant := sread (calculate_invariant amplification_parameter) in
  do* old := sget token_index_in in
  do* new := slift (Bfp.add old token_amount_in) in
  do* _ := sset token_index_in new in
  do* final_balance_out := sread (fun balances =>
    get_token_balance_given_invariant_and_all_other_balances
      amplification_parameter balances invariant token_index_out) in
  do* old := sget token_index_in in
  do* new := slift (res_expect (Bfp.sub old token_amount_in)) in
  do* _ := sset token_index_in new in
  do* balance_out := sget token_index_out in
  do* d := slift (Bfp.sub balance_out final_balance_out) in
  slift (Bfp.sub d 1).

Definition calc_in_given_out (amplification_parameter : Z) (token_index_in token_index_out : nat)
    (token_amount_out : Z) : slice Z :=
  do* len := sread (fun balances => Ok (length balances)) in
  if ((len <=? token_index_out)%nat || (len <=? token_index_in)%nat)%bool
  then slift (Err InvalidToken) else
  do* invariant := sread (calculate_invariant amplification_parameter) in
  do* old := sget token_index_out in
  do* new := slift (Bfp.sub old token_amount_out) in
  do* _ := sset token_index_out new in
  do* final_balance_in := sread (fun balances =>
    get_token_balance_given_invariant_and_all_other_balances
      amplification_parameter balances invariant token_index_in) in
  do* old := sget token_index_out in
  do* new := slift (res_expect (Bfp.add old token_amount_out)) in
  do* _ := sset token_index_out new in
  do* balance_in := sget token_index_in in
  do* d := slift (Bfp.sub final_balance_in balance_in) in
  slift (Bfp.add d 1).
End StableMath.

Example invariant_test :
  StableMath.calculate_invariant 100000 [10 * 10 ^ 18; 12 * 10 ^ 18; 14 * 10 ^ 18] =
  Ok 35996606648215225132.
Proof. vm_compute. reflexivity. Qed.

(** * Ranges of the operations *)
Section ranges.
Implicit Types a b : Z.

Lemma bmul_returns a b : u256 a -> u256 b -> returns u256 (BalU256.bmul a b).
Proof. intros. apply returns_ok_or. intros c. by apply checked_mul_u256. Qed.

Lemma badd_returns a b : u256 a -> u256 b -> returns u256 (BalU256.badd a b).
Proof. intros. apply returns_ok_or. intros c. by apply checked_add_u256. Qed.

Lemma bsub_returns a b : u256 a -> u256 b -> returns u256 (BalU256.bsub a b).
Proof. intros. apply returns_ok_or. intros c. by apply checked_sub_u256. Qed.

Lemma bdiv_down_returns a b : u256 a -> u256 b -> returns u256 (BalU256.bdiv_down a b).
Proof.
  intros Ha Hb. unfold BalU256.bdiv_down, u_div, checked_div.
  destruct (b =? 0) eqn:H0; [done|]. bool_to_prop. apply div_u256; [done|].
  unfold u256 in Hb. lia.
Qed.

Lemma bdiv_up_returns a b : u256 a -> u256 b -> returns u256 (BalU256.bdiv_up a b).
Proof.
  intros Ha Hb. rewrite bdiv_up_eq by done. case_match; [done|]. bool_to_prop.
  apply cdiv_u256; [|done]. unfold u256 in Hb. lia.
Qed.

Lemma u256_small (z : Z) : 0 <= z <= 1000 -> u256 z.
Proof. unfold u256, U256_MAX. lia. Qed.
End ranges.

#[export] Hint Resolve bmul_returns badd_returns bsub_returns bdiv_down_returns
  bdiv_up_returns : rust.

(** Step through a chain of [let*] whose operations keep to 256 bits. *)
Ltac u256_chain :=
  repeat (eapply returns_bind; [eauto with rust|intros ? ?; cbn beta in * ]);
  eauto with rust.

Section iteration.
Implicit Types (step : Z -> res Error Z) (x y : Z).

Lemma convergence_criteria_eq x y :
  StableMath.convergence_criteria x y = Ok (if Z.abs (x - y) <=? 1 then Some x else None).
Proof.
  unfold StableMath.convergence_criteria, BalU256.bsub, checked_sub.
  destruct (Z.ltb_spec y x).
  - destruct (Z.leb_spec y x); [|lia]. cbn [ok_or res_expect rbind].
    rewrite Z.abs_eq by lia. by case_match.
  - destruct (Z.leb_spec x y); [|lia]. cbn [ok_or res_expect rbind].
    rewrite Z.abs_neq by lia. replace (- (x - y)) with (y - x) by lia. by case_match.
Qed.

(** The iteration neither panics nor leaves the range, and what it returns is
    one step away from a value at most one off. *)
Lemma newton_returns step n e x :
  (forall x, u256 x -> returns u256 (step x)) -> u256 x ->
  returns (fun y => u256 y /\ exists p, u256 p /\ step p = Ok y /\ Z.abs (y - p) <= 1)
    (StableMath.newton n step e x).
Proof.
  intros Hstep. revert x. induction n as [|n IH]; intros x Hx; [done|].
  cbn [StableMath.newton]. pose proof (Hstep x Hx) as Hs.
  destruct (step x) as [y| |] eqn:Hy; cbn [returns rbind] in *; [|done|done].
  rewrite convergence_criteria_eq. cbn [rbind]. destruct (_ <=? _) eqn:Hc; [|by apply IH].
  bool_to_prop. split; [done|]. by exists x.
Qed.
End iteration.

(** * The two computations *)
Section stable.
Context (amp : Z) (bs : list Z).
Context (Hamp : u256 amp) (Hbs : Forall u256 bs) (Hlen : Z.of_nat (length bs) < U256_MAX).

Local Hint Resolve Hamp : rust.

Lemma u256_num_tokens : u256 (Z.of_nat (length bs)).
Proof. unfold u256. lia. Qed.
Local Hint Resolve u256_num_tokens : rust.

Lemma u256_precision : u256 StableMath.AMP_PRECISION.
Proof. apply u256_small. unfold StableMath.AMP_PRECISION. lia. Qed.
Local Hint Resolve u256_precision : rust.

Lemma u256_balance i b : bs !! i = Some b -> u256 b.
Proof. intros Hi. by apply (Forall_lookup_1 _ _ _ _ Hbs Hi). Qed.

Lemma sum_balances_returns :
  returns (fun s => u256 s /\ s = foldr Z.add 0 bs) (StableMath.sum_balances bs).
Proof.
  unfold StableMath.sum_balances.
  assert (Hg : forall s, u256 s ->
    returns (fun r => u256 r /\ r = s + foldr Z.add 0 bs) (rfold BalU256.badd s bs)).
  { clear Hlen. induction Hbs as [|b l Hb Hl IH]; intros s Hs; cbn [rfold foldr].
    { cbn [returns]. split; [done|lia]. }
    destruct (BalU256.badd s b) as [s'| |] eqn:Hs'; [|done|].
    - cbn [rbind]. assert (u256 s') by (pose proof (badd_returns s b Hs Hb) as H; by rewrite Hs' in H).
      eapply returns_mono; [by apply IH|]. apply badd_Ok in Hs' as [-> _].
      intros r [? ->]. split; [done|lia].
    - pose proof (badd_returns s b Hs Hb) as H. by rewrite Hs' in H. }
  eapply returns_mono; [apply (Hg 0), u256_small; lia|]. intros r [? ->]. split; [done|lia].
Qed.

Lemma invariant_step_returns amp_times_total sum x :
  u256 amp_times_total -> u256 sum -> u256 x ->
  returns u256 (StableMath.invariant_step amp_times_total (Z.of_nat (length bs)) sum bs x).
Proof.
  intros Ha Hs Hx. unfold StableMath.invariant_step.
  eapply returns_bind.
  { apply (rfold_returns u256); [done|]. intros d b Hb Hd.
    pose proof (Forall_elem _ _ _ Hbs Hb). u256_chain. }
  intros d Hd. assert (u256 1) by (apply u256_small; lia). cbn beta in *. u256_chain.
Qed.

Lemma calculate_invariant_returns :
  returns (fun d => u256 d /\
    let sum := foldr Z.add 0 bs in
    (sum = 0 /\ d = 0 \/
     sum <> 0 /\ exists prev, u256 prev /\ Z.abs (d - prev) <= 1 /\
       StableMath.invariant_step (amp * Z.of_nat (length bs)) (Z.of_nat (length bs)) sum bs prev
       = Ok d))
    (StableMath.calculate_invariant amp bs).
Proof.
  unfold StableMath.calculate_invariant.
  eapply returns_bind; [apply sum_balances_returns|]. intros sum [Hsum Hfold]. cbv zeta.
  rewrite <- Hfold. destruct (Z.eqb_spec sum 0) as [->|Hne]; [cbn [returns]; by auto|].
  destruct (BalU256.bmul amp (Z.of_nat (length bs))) as [att| |] eqn:Hatt; [|done|].
  - assert (u256 att).
    { pose proof (bmul_returns _ _ Hamp u256_num_tokens) as H. by rewrite Hatt in H. }
    apply bmul_Ok in Hatt as [-> _]. cbn [rbind].
    eapply returns_mono; [apply newton_returns; [|done]|].
    { intros x Hx. by apply invariant_step_returns. }
    intros d (Hd & p & ? & ? & ?). split; [done|]. right. eauto.
  - pose proof (bmul_returns _ _ Hamp u256_num_tokens) as H. by rewrite Hatt in H.
Qed.

(** The running sum dominates the balances added so far. *)
Lemma product_loop_returns n inv l seen p s :
  u256 n -> u256 inv -> Forall u256 l -> u256 p -> u256 s -> Forall (fun b => b <= s) seen ->
  returns (fun '(p_d, sum) => u256 p_d /\ u256 sum /\ Forall (fun b => b <= sum) (seen ++ l))
    (rfold (fun '(p_d, sum) balance_j =>
       let* a := BalU256.bmul p_d balance_j in
       let* b := BalU256.bmul a n in
       let* p_d := BalU256.bdiv_down b inv in
       let* sum := BalU256.badd sum balance_j in
       Ok (p_d, sum)) (p, s) l : res Error (Z * Z)).
Proof.
  intros Hn Hinv. revert seen p s.
  induction l as [|b l IH]; intros seen p s Hl Hp Hs Hd; cbn [rfold].
  { cbn [returns]. by rewrite app_nil_r. }
  apply Forall_cons in Hl as [Hb Hl].
  eapply (returns_bind (fun '(p', s') => u256 p' /\ u256 s' /\ s' = s + b)).
  - do 3 (eapply returns_bind; [by eauto with rust|intros ? ?]).
    eapply (returns_bind (fun s' => u256 s' /\ s' = s + b)); [|by intros s' []].
    apply returns_ok_or. intros s' Hs'. split; [by eapply (checked_add_u256 s b)|].
    by apply checked_add_Some in Hs' as [-> _].
  - intros [p' s'] (Hp' & Hs' & ->). rewrite (cons_middle b seen l), app_assoc.
    apply IH; [done..|]. apply Forall_app. split; [|constructor; [unfold u256 in *; lia|done]].
    eapply Forall_impl; [exact Hd|]. cbn beta. intros. unfold u256 in Hb. lia.
Qed.

Lemma product_and_sum_returns inv :
  u256 inv -> bs <> [] ->
  returns (fun '(p_d, sum) => u256 p_d /\ u256 sum /\ Forall (fun b => b <= sum) bs)
    (StableMath.product_and_sum (Z.of_nat (length bs)) inv bs).
Proof.
  intros Hinv Hne. pose proof u256_num_tokens as Hn. revert Hn.
  generalize (Z.of_nat (length bs)). intros n Hn.
  destruct bs as [|b0 l]; [done|]. apply Forall_cons in Hbs as [Hb0 Hlb].
  unfold StableMath.product_and_sum. cbn [lookup list_lookup opt_expect rbind drop].
  eapply returns_bind; [by apply bmul_returns|]. intros p0 Hp0.
  apply (product_loop_returns n inv l [b0]); [done..|]. constructor; [lia|done].
Qed.

Lemma coefficients_returns inv i :
  u256 inv -> (i < length bs)%nat ->
  returns (fun '(inv2, b, c) => u256 inv2 /\ u256 b /\ u256 c)
    (StableMath.coefficients amp bs inv i).
Proof.
  intros Hinv Hi. unfold StableMath.coefficients.
  eapply returns_bind; [by apply bmul_returns; auto with rust|]. intros att Hatt. cbn beta in Hatt.
  eapply returns_bind; [apply product_and_sum_returns; [done|by intros ->; simpl in Hi; lia]|].
  intros [p_d sum] (Hp & Hs & Hall).
  destruct (lookup_lt_is_Some_2 bs i Hi) as [bal Hbal]. rewrite Hbal. cbn [opt_expect rbind].
  pose proof (Forall_lookup_1 _ _ _ _ Hall Hbal) as Hle. cbn beta in Hle.
  pose proof (u256_balance i bal Hbal) as Hub.
  unfold u_sub, checked_sub. destruct (Z.leb_spec bal sum); [|lia]. cbn [opt_expect rbind].
  assert (u256 (sum - bal)) by (unfold u256 in *; lia). u256_chain. by cbn [returns].
Qed.

Lemma balance_step_returns b c inv x :
  u256 b -> u256 c -> u256 inv -> u256 x -> returns u256 (StableMath.balance_step b c inv x).
Proof.
  intros. assert (u256 2) by (apply u256_small; lia). unfold StableMath.balance_step. u256_chain.
Qed.

(** The quadratic [y^2 + (b - D) y = c] the balance is the root of: the value
    returned lies on or above the root, by less than one unit and a rounding. *)
Definition on_curve (amp : Z) (bs : list Z) (inv : Z) (i : nat) (y : Z) : Prop :=
  exists inv2 b c, StableMath.coefficients amp bs inv i = Ok (inv2, b, c) /\
    inv * y + c <= y * y + b * y /\
    (y - 1) * (y - 1) + b * (y - 1) <= inv * (y - 1) + c + 3.

Lemma balance_step_curve b c inv p y :
  u256 b -> u256 c -> u256 inv -> u256 p ->
  StableMath.balance_step b c inv p = Ok y -> Z.abs (y - p) <= 1 ->
  inv * y + c <= y * y + b * y /\
  (y - 1) * (y - 1) + b * (y - 1) <= inv * (y - 1) + c + 3.
Proof.
  intros Hb Hc Hi Hp Hstep Habs. unfold StableMath.balance_step in Hstep. inv_ok.
  apply bmul_Ok in Hv as [-> Hm1]. apply badd_Ok in Hv0 as [-> Ha1].
  apply bmul_Ok in Hv1 as [-> Hm2]. apply badd_Ok in Hv2 as [-> Ha2].
  apply bsub_Ok in Hv3 as [-> Hs]. apply bdiv_up_Ok in Hstep as [Hy Hne].
  - unfold u256 in *. set (den := p * 2 + b - inv) in *.
    pose proof (cdiv_spec (p * p + c) den ltac:(lia)) as Hcd. rewrite <- Hy in Hcd.
    subst den. nia.
  - unfold u256 in *. nia.
  - unfold u256 in *. lia.
Qed.

Lemma get_token_balance_returns inv i :
  u256 inv -> (i < length bs)%nat ->
  returns (fun y => u256 y /\ on_curve amp bs inv i y)
    (StableMath.get_token_balance_given_invariant_and_all_other_balances amp bs inv i).
Proof.
  intros Hinv Hi. unfold StableMath.get_token_balance_given_invariant_and_all_other_balances.
  unfold on_curve. pose proof (coefficients_returns inv i Hinv Hi) as Hco.
  destruct (StableMath.coefficients amp bs inv i) as [[[inv2 b] c]| |]; [|done|done].
  cbn [returns rbind] in *. destruct Hco as (? & ? & ?).
  eapply returns_bind; [by eauto with rust|]. intros ? ?; cbn beta in *.
  eapply returns_bind; [by eauto with rust|]. intros ? ?; cbn beta in *.
  eapply returns_bind; [by eauto with rust|]. intros ? ?; cbn beta in *.
  eapply returns_mono; [apply newton_returns; [|done]|].
  { intros x Hx. by apply balance_step_returns. }
  intros y (Hy & p & Hp & Hstep & Habs). split; [done|].
  exists inv2, b, c. split; [done|]. by eapply balance_step_curve.
Qed.
End stable.

(** * The two directions: what happens to the slice *)
Section swaps.
Context (amp : Z) (bs : list Z) (i j : nat) (bi bj : Z).
Context (Hi : bs !! i = Some bi) (Hj : bs !! j = Some bj).

Lemma indices_in_range : ((length bs <=? j)%nat || (length bs <=? i)%nat)%bool = false.
Proof.
  apply lookup_lt_Some in Hi, Hj.
  apply orb_false_iff. split; apply Nat.leb_gt; lia.
Qed.

(** Both directions change one balance, solve for another and change the first
    one back. *)
Lemma calc_out_given_in_eq amount :
  StableMath.calc_out_given_in amp i j amount bs =
  match (let* inv := StableMath.calculate_invariant amp bs in
         let* new := Bfp.add bi amount in Ok (inv, new)) with
  | Ok (inv, new) =>
      match StableMath.get_token_balance_given_invariant_and_all_other_balances
              amp (<[i := new]> bs) inv j with
      | Ok final =>
          if amount <=? new then (let* d := Bfp.sub bj final in Bfp.sub d 1, <[i := new - amount]> bs)
          else (Panic, <[i := new]> bs)
      | Err e => (Err e, <[i := new]> bs)
      | Panic => (Panic, <[i := new]> bs)
      end
  | Err e => (Err e, bs)
  | Panic => (Panic, bs)
  end.
Proof.
  unfold StableMath.calc_out_given_in, sbind, sread, slift, sget, sset.
  rewrite indices_in_range, Hi. cbn [opt_expect].
  destruct (StableMath.calculate_invariant amp bs) as [inv| |]; [|done|done]. cbn [rbind].
  destruct (Bfp.add bi amount) as [new| |] eqn:Hnew; [|done|done]. cbn [rbind].
  destruct (StableMath.get_token_balance_given_invariant_and_all_other_balances _ _ _ _);
    [|done|done].
  assert (i < length bs)%nat as Hlt by (by eapply lookup_lt_Some).
  rewrite list_lookup_insert_eq by done. cbn [opt_expect].
  unfold Bfp.sub at 1, checked_sub. destruct (Z.leb_spec amount new); [|done].
  cbn [ok_or res_expect]. rewrite list_insert_insert_eq.
  destruct (decide (i = j)) as [<-|Hij].
  - rewrite list_lookup_insert_eq by done. cbn [opt_expect].
    apply bfp_add_Ok in Hnew as [-> _]. simplify_eq.
    replace (bi + amount - amount) with bi by lia. by destruct (Bfp.sub bi a).
  - rewrite list_lookup_insert_ne, Hj by done. cbn [opt_expect]. by destruct (Bfp.sub bj a).
Qed.

Lemma calc_in_given_out_eq amount :
  StableMath.calc_in_given_out amp i j amount bs =
  match (let* inv := StableMath.calculate_invariant amp bs in
         let* new := Bfp.sub bj amount in Ok (inv, new)) with
  | Ok (inv, new) =>
      match StableMath.get_token_balance_given_invariant_and_all_other_balances
              amp (<[j := new]> bs) inv i with
      | Ok final =>
          if new + amount <=? U256_MAX
          then (let* d := Bfp.sub final bi in Bfp.add d 1, <[j := new + amount]> bs)
          else (Panic, <[j := new]> bs)
      | Err e => (Err e, <[j := new]> bs)
      | Panic => (Panic, <[j := new]> bs)
      end
  | Err e => (Err e, bs)
  | Panic => (Panic, bs)
  end.
Proof.
  unfold StableMath.calc_in_given_out, sbind, sread, slift, sget, sset.
  rewrite indices_in_range, Hj. cbn [opt_expect].
  destruct (StableMath.calculate_invariant amp bs) as [inv| |]; [|done|done]. cbn [rbind].
  destruct (Bfp.sub bj amount) as [new| |] eqn:Hnew; [|done|done]. cbn [rbind].
  destruct (StableMath.get_token_balance_given_invariant_and_all_other_balances _ _ _ _);
    [|done|done].
  assert (j < length bs)%nat as Hlt by (by eapply lookup_lt_Some).
  rewrite list_lookup_insert_eq by done. cbn [opt_expect].
  unfold Bfp.add at 1, checked_add. destruct (Z.leb_spec (new + amount) U256_MAX); [|done].
  cbn [ok_or res_expect]. rewrite list_insert_insert_eq.
  destruct (decide (i = j)) as [<-|Hij].
  - rewrite list_lookup_insert_eq by done. cbn [opt_expect].
    apply bfp_sub_Ok in Hnew as [-> _]. simplify_eq.
    replace (bi - amount + amount) with bi by lia. by destruct (Bfp.sub a bi).
  - rewrite list_lookup_insert_ne, Hi by done. cbn [opt_expect]. by destruct (Bfp.sub a bi).
Qed.

Lemma insert_same (k : nat) (x y : Z) : bs !! k = Some x -> y = x -> <[k := y]> bs = bs.
Proof. intros Hk ->. by apply list_insert_id. Qed.
End swaps.

(** What a swap leaves and returns, given the two balances. *)
Section swap_results.
Context (amp : Z) (bs : list Z) (i j : nat) (bi bj amount : Z).
Context (Hamp : u256 amp) (Hbs : Forall u256 bs) (Hlen : Z.of_nat (length bs) < U256_MAX).
Context (Hbi : bs !! i = Some bi) (Hbj : bs !! j = Some bj) (Ham : u256 amount).

(** The solver on the slice with one balance replaced. *)
Lemma solver_after_insert k v inv l :
  u256 v -> u256 inv -> (l < length bs)%nat ->
  returns u256 (StableMath.get_token_balance_given_invariant_and_all_other_balances
    amp (<[k := v]> bs) inv l).
Proof.
  intros Hv Hinv Hl. apply (returns_mono (fun y => u256 y /\ on_curve amp (<[k := v]> bs) inv l y));
    [|intros y [Hy _]; exact Hy].
  apply get_token_balance_returns; rewrite ?length_insert; auto using Forall_insert.
Qed.

Lemma calc_out_safe :
  let '(r, bs') := StableMath.calc_out_given_in amp i j amount bs in
  r <> Panic /\ forall out, r = Ok out -> bs' = bs /\ 0 <= out < bj.
Proof.
  rewrite (calc_out_given_in_eq amp bs i j bi bj) by done.
  pose proof (calculate_invariant_returns amp bs Hamp Hbs Hlen) as Hinv.
  destruct (StableMath.calculate_invariant amp bs) as [inv| |]; [|by split|by destruct Hinv].
  cbn [returns rbind] in *. destruct Hinv as [Hinv _].
  pose proof (Forall_lookup_1 _ _ _ _ Hbs Hbi) as Hubi.
  unfold Bfp.add, checked_add. destruct (Z.leb_spec (bi + amount) U256_MAX); [|by split].
  cbn [ok_or rbind].
  pose proof (solver_after_insert i (bi + amount) inv j) as Hget.
  specialize (Hget ltac:(unfold u256 in *; lia) Hinv (lookup_lt_Some _ _ _ Hbj)).
  destruct (StableMath.get_token_balance_given_invariant_and_all_other_balances _ _ _ _)
    as [final| |]; [|by split|by destruct Hget].
  cbn [returns] in Hget. destruct (Z.leb_spec amount (bi + amount)); [|unfold u256 in *; lia].
  rewrite (insert_same bs i bi) by (done || lia). split.
  - unfold Bfp.sub. destruct (checked_sub bj final) as [d|]; [|done]. cbn. by destruct (checked_sub d 1).
  - intros out Ho. split; [done|]. inv_ok.
    apply bfp_sub_Ok in Hv as [-> ?]. apply bfp_sub_Ok in Ho as [-> ?]. unfold u256 in *. lia.
Qed.

Lemma calc_in_safe :
  let '(r, bs') := StableMath.calc_in_given_out amp i j amount bs in
  r <> Panic /\ forall amount_in, r = Ok amount_in -> bs' = bs /\ 1 <= amount_in <= U256_MAX.
Proof.
  rewrite (calc_in_given_out_eq amp bs i j bi bj) by done.
  pose proof (calculate_invariant_returns amp bs Hamp Hbs Hlen) as Hinv.
  destruct (StableMath.calculate_invariant amp bs) as [inv| |]; [|by split|by destruct Hinv].
  cbn [returns rbind] in *. destruct Hinv as [Hinv _].
  pose proof (Forall_lookup_1 _ _ _ _ Hbs Hbj) as Hubj.
  unfold Bfp.sub at 1, checked_sub at 1. destruct (Z.leb_spec amount bj); [|by split].
  cbn [ok_or rbind].
  pose proof (solver_after_insert j (bj - amount) inv i) as Hget.
  specialize (Hget ltac:(unfold u256 in *; lia) Hinv (lookup_lt_Some _ _ _ Hbi)).
  destruct (StableMath.get_token_balance_given_invariant_and_all_other_balances _ _ _ _)
    as [final| |]; [|by split|by destruct Hget].
  cbn [returns] in Hget. destruct (Z.leb_spec (bj - amount + amount) U256_MAX);
    [|unfold u256 in *; lia].
  rewrite (insert_same bs j bj) by (done || lia). split.
  - unfold Bfp.sub, Bfp.add. destruct (checked_sub final bi) as [d|]; [|done]. cbn.
    by destruct (checked_add d 1).
  - intros ain Ho. split; [done|]. inv_ok.
    apply bfp_sub_Ok in Hv as [-> ?]. apply bfp_add_Ok in Ho as [-> ?]. unfold u256 in *. lia.
Qed.
End swap_results.

(** * Properties *)

(** The StableMath invariant: on any 256-bit balances [calculate_invariant]
    does not panic; the value it returns is zero exactly when the sum of the
    balances is, and otherwise is the image under one Newton step of a value
    that differs from it by at most one, so the iteration did converge. *)
Theorem stable_invariant_converged (amp : Z) (bs : list Z) :
  u256 amp -> Forall u256 bs -> Z.of_nat (length bs) < U256_MAX ->
  let n := Z.of_nat (length bs) in
  let sum := foldr Z.add 0 bs in
  returns (fun d => u256 d /\
      (sum = 0 /\ d = 0 \/
       sum <> 0 /\ exists prev, u256 prev /\ Z.abs (d - prev) <= 1 /\
         StableMath.invariant_step (amp * n) n sum bs prev = Ok d))
    (StableMath.calculate_invariant amp bs).
Proof. intros. by apply calculate_invariant_returns. Qed.

Lemma stable_invariant_converged_witness :
  let bs := [10 * 10 ^ 18; 12 * 10 ^ 18; 14 * 10 ^ 18] in
  let n := Z.of_nat (length bs) in
  let sum := foldr Z.add 0 bs in
  returns (fun d => u256 d /\
      (sum = 0 /\ d = 0 \/
       sum <> 0 /\ exists prev, u256 prev /\ Z.abs (d - prev) <= 1 /\
         StableMath.invariant_step (100000 * n) n sum bs prev = Ok d))
    (StableMath.calculate_invariant 100000 bs).
Proof.
  apply (stable_invariant_converged 100000); [split; closed| |reflexivity].
  repeat constructor; closed.
Defined.

(** The balance solver rounds in the pool's favour: whenever
    [get_token_balance_given_invariant_and_all_other_balances] returns [y], it
    satisfies [y^2 + b*y >= D*y + c] for the coefficients the code computed,
    that is [y] is never below the root of the swap curve, and [y - 1]
    exceeds the curve by at most 3; no subtraction of the code (the unchecked
    [sum -= balances\[token_index\]] included) underflows. *)
Theorem stable_balance_on_curve (amp : Z) (bs : list Z) (inv : Z) (i : nat) :
  u256 amp -> Forall u256 bs -> Z.of_nat (length bs) < U256_MAX ->
  u256 inv -> (i < length bs)%nat ->
  returns (fun y => u256 y /\
      exists inv2 b c, StableMath.coefficients amp bs inv i = Ok (inv2, b, c) /\
        inv * y + c <= y * y + b * y /\
        (y - 1) * (y - 1) + b * (y - 1) <= inv * (y - 1) + c + 3)
    (StableMath.get_token_balance_given_invariant_and_all_other_balances amp bs inv i).
Proof. intros. by apply (get_token_balance_returns amp bs). Qed.

Lemma stable_balance_on_curve_witness :
  returns (fun y => u256 y /\
      exists inv2 b c,
        StableMath.coefficients 100000 [11 * 10 ^ 18; 12 * 10 ^ 18] (22 * 10 ^ 18) 1 = Ok (inv2, b, c) /\
        22 * 10 ^ 18 * y + c <= y * y + b * y /\
        (y - 1) * (y - 1) + b * (y - 1) <= 22 * 10 ^ 18 * (y - 1) + c + 3)
    (StableMath.get_token_balance_given_invariant_and_all_other_balances
       100000 [11 * 10 ^ 18; 12 * 10 ^ 18] (22 * 10 ^ 18) 1).
Proof.
  apply (stable_balance_on_curve 100000); [split; closed| |reflexivity|split; closed|simpl; lia].
  repeat constructor; closed.
Defined.

(** Both stable swap directions, run on the shared slice of balances,
    never panic: the subtraction and the addition the code expects to succeed
    undo the change made just before. On success the slice is back to what it
    was; the amount out is strictly below the pool's balance of the output
    token, and the amount in is at least one. *)
Theorem stable_swap_restores_balances (amp : Z) (bs : list Z) (i j : nat) (amount : Z) :
  u256 amp -> Forall u256 bs -> Z.of_nat (length bs) < U256_MAX -> u256 amount ->
  (let '(r, bs') := StableMath.calc_out_given_in amp i j amount bs in
   r <> Panic /\ forall out, r = Ok out ->
     bs' = bs /\ exists bj, bs !! j = Some bj /\ 0 <= out < bj) /\
  (let '(r, bs') := StableMath.calc_in_given_out amp i j amount bs in
   r <> Panic /\ forall amount_in, r = Ok amount_in -> bs' = bs /\ 1 <= amount_in <= U256_MAX).
Proof.
  intros Hamp Hbs Hlen Ham.
  destruct (((length bs <=? j)%nat || (length bs <=? i)%nat)%bool) eqn:Hr.
  { unfold StableMath.calc_out_given_in, StableMath.calc_in_given_out, sbind, sread, slift.
    rewrite Hr. by split. }
  apply orb_false_iff in Hr as [Hj%Nat.leb_gt Hi%Nat.leb_gt].
  destruct (lookup_lt_is_Some_2 bs i Hi) as [bi Hbi].
  destruct (lookup_lt_is_Some_2 bs j Hj) as [bj Hbj].
  pose proof (calc_out_safe amp bs i j bi bj amount Hamp Hbs Hlen Hbi Hbj Ham) as Hout.
  pose proof (calc_in_safe amp bs i j bi bj amount Hamp Hbs Hlen Hbi Hbj Ham) as Hin.
  split; [|exact Hin]. destruct (StableMath.calc_out_given_in amp i j amount bs) as [r bs'].
  destruct Hout as [Hp Hout]. split; [exact Hp|].
  intros out Ho. destruct (Hout out Ho). eauto.
Qed.

Lemma stable_swap_restores_balances_witness :
  let bs := [10 * 10 ^ 18; 12 * 10 ^ 18] in
  (let '(r, bs') := StableMath.calc_out_given_in 100000 0 1 (10 ^ 18) bs in
   r <> Panic /\ forall out, r = Ok out ->
     bs' = bs /\ exists bj, bs !! 1%nat = Some bj /\ 0 <= out < bj) /\
  (let '(r, bs') := StableMath.calc_in_given_out 100000 0 1 (10 ^ 18) bs in
   r <> Panic /\ forall amount_in, r = Ok amount_in -> bs' = bs /\ 1 <= amount_in <= U256_MAX).
Proof.
  apply (stable_swap_restores_balances 100000 _ 0 1 (10 ^ 18));
    [split; closed|repeat constructor; closed|reflexivity|split; closed].
Defined.

Example stable_swaps :
  StableMath.calc_out_given_in 100000 0 1 (10 ^ 18) [10 * 10 ^ 18; 12 * 10 ^ 18] =
    (Ok 1000907478822554418, [10 * 10 ^ 18; 12 * 10 ^ 18]).
Proof. vm_compute. reflexivity. Qed.
