(* ===== verification/BaselineSolver.v ===== *)
(** Path finding over on-chain liquidity: crates/shared/src/baseline_solver.rs,
    with the token pairs of crates/model/src/lib.rs.

    [BaselineSolvable] is the trait as a class; [Covering] is what its
    implementations promise beyond their types, and what the estimates over a
    path rely on. *)
From Stdlib Require Import ZArith Lia.
From stdpp Require Import prelude gmap sorting.
From S2P Require Import Prelude U256.

Open Scope Z_scope.
Open Scope rust_scope.

(** An [H160], by its value: the order of addresses is that of the numbers. *)
Abbreviation H160 := Z (only parsing).

(** * model/src/lib.rs: [TokenPair] *)
Module TokenPair.
Definition TokenPair : Type := H160 * H160.

Definition new (token_a token_b : H160) : option TokenPair :=
  match token_a ?= token_b with
  | Lt => Some (token_a, token_b)
  | Eq => None
  | Gt => Some (token_b, token_a)
  end.

Definition contains (self : TokenPair) (token : H160) : bool :=
  (self.1 =? token) || (self.2 =? token).

Definition other (self : TokenPair) (token : H160) : option H160 :=
  if self.1 =? token then Some self.2
  else if self.2 =? token then Some self.1
  else None.

Definition get (self : TokenPair) : H160 * H160 := (self.1, self.2).

Definition first_ord : TokenPair := (0, 1).

(** [IntoIterator] *)
Definition into_iter (self : TokenPair) : list H160 := [self.1; self.2].
End TokenPair.

Class BaselineSolvable (L : Type) : Type := {
  get_amount_out : L -> H160 -> Z * H160 -> res unit Z;
  get_amount_in : L -> H160 -> Z * H160 -> res unit Z;
  gas_cost : L -> Z;
}.

(** What "the required amount of input token" promises: selling it over the
    same liquidity buys at least the amount asked for. *)
Class Covering (L : Type) `{BaselineSolvable L} : Type := {
  well_formed : L -> Prop;
  in_covers_out : forall l in_token out_amount out_token in_amount,
    well_formed l -> u256 out_amount ->
    get_amount_in l in_token (out_amount, out_token) = Ok in_amount ->
    u256 in_amount /\ exists out, get_amount_out l out_token (in_amount, in_token) = Ok out /\ out_amount <= out;
}.

(** * Iterator adapters *)

(** [filter_map] with a closure that may panic. *)
Fixpoint rfilter_map {A B} (f : A -> res unit B) (l : list A) : res unit (list B) :=
  match l with
  | [] => Ok []
  | a :: l =>
      match f a with
      | Ok b => let* bs := rfilter_map f l in Ok (b :: bs)
      | Err _ => rfilter_map f l
      | Panic => Panic
      end
  end.

(** The fold of [max_by] and [min_by]: [take best a] says that [a] replaces the
    best so far. [max_by_key] keeps the last of several maxima, [min_by_key]
    the first of several minima. *)
Definition fold_best {A} (take : A -> A -> bool) (best : option A) (l : list A) : option A :=
  foldl (fun best a =>
    match best with
    | None => Some a
    | Some b => if take b a then Some a else Some b
    end) best l.
Definition max_by_key {A} (key : A -> Z) (l : list A) : option A :=
  fold_best (fun b a => key b <=? key a) None l.
Definition min_by_key {A} (key : A -> Z) (l : list A) : option A :=
  fold_best (fun b a => key a <? key b) None l.

(** [Vec::dedup]: drop the repetitions of consecutive elements. *)
Fixpoint dedup (l : list Z) : list Z :=
  match l with
  | x :: ((y :: _) as l') => if x =? y then dedup l' else x :: dedup l'
  | _ => l
  end.

Module Baseline.
Section estimate.
Context {L : Type} `{BaselineSolvable L}.

Record Estimate : Type := mkEstimate { value : Z; path : list L }.

Definition estimate_gas_cost (self : Estimate) : Z :=
  50000 + foldr Z.add 0 (map gas_cost (path self)).

Definition buy_hop (liquidity : gmap TokenPair.TokenPair (list L))
    (previous : Z * H160 * list L) (current : H160) : res unit (Z * H160 * list L) :=
  let '(amount, previous, path) := previous in
  let* pair := opt (TokenPair.new current previous) in
  let* pools := opt (liquidity !! pair) in
  let* offers := rfilter_map (fun liquidity =>
    let* out := get_amount_out liquidity current (amount, previous) in
    Ok (liquidity, out)) pools in
  let* ' (best_liquidity, amount) := opt (max_by_key snd offers) in
  Ok (amount, current, path ++ [best_liquidity]).

Definition estimate_buy_amount (sell_amount : Z) (path : list H160)
    (liquidity : gmap TokenPair.TokenPair (list L)) : res unit Estimate :=
  let* sell_token := opt (path !! 0%nat) in
  res_map (fun '(amount, _, liquidity) => mkEstimate amount liquidity)
    (rfold (buy_hop liquidity) (sell_amount, sell_token, []) (drop 1 path)).

Definition sell_hop (liquidity : gmap TokenPair.TokenPair (list L))
    (previous : Z * H160 * list L) (current : H160) : res unit (Z * H160 * list L) :=
  let '(amount, previous, path) := previous in
  let* pair := opt (TokenPair.new current previous) in
  let* pools := opt (liquidity !! pair) in
  let* offers := rfilter_map (fun liquidity =>
    let* inp := get_amount_in liquidity current (amount, previous) in
    Ok (liquidity, inp)) pools in
  let* ' (best_liquidity, amount) := opt (min_by_key snd offers) in
  Ok (amount, current, path ++ [best_liquidity]).

Definition estimate_sell_amount (buy_amount : Z) (path : list H160)
    (liquidity : gmap TokenPair.TokenPair (list L)) : res unit Estimate :=
  let* buy_token := opt (last path) in
  res_map (fun '(amount, _, liquidity) => mkEstimate amount (reverse liquidity))
    (rfold (sell_hop liquidity) (buy_amount, buy_token, []) (drop 1 (reverse path))).
End estimate.

(** All token pairs between base tokens. *)
Definition base_token_pairs (base_tokens : list H160) : list TokenPair.TokenPair :=
  concat (imap (fun index token =>
    omap (fun token_ => TokenPair.new token token_) (drop index base_tokens)) base_tokens).

Record BaseTokens : Type := mkBaseTokens {
  tokens : gset H160;
  pairs : gset TokenPair.TokenPair;
}.

Definition new (native_token : H160) (base_tokens : list H160) : BaseTokens :=
  let tokens := dedup (merge_sort Z.le (base_tokens ++ [native_token])) in
  {| tokens := list_to_set tokens; pairs := list_to_set (base_token_pairs tokens) |}.

Definition relevant_pairs (self : BaseTokens) (iter : list TokenPair.TokenPair)
  : gset TokenPair.TokenPair :=
  let result := foldl (fun result pair =>
    foldl (fun result token =>
      result ∪ list_to_set (omap (fun base_token => TokenPair.new base_token token)
        (elements (tokens self))))
      ({[pair]} ∪ result) (TokenPair.into_iter pair)) ∅ iter in
  if decide (result = ∅) then result else result ∪ pairs self.

(** One round: every prefix gives a candidate and the prefixes of the next
    round. *)
Definition extend_prefix (buy_token : H160) (base_tokens : gset H160) (path_prefix : list H160)
  : list (list H160) :=
  omap (fun base_token =>
    if negb (bool_decide (base_token = buy_token)) && negb (bool_decide (base_token ∈ path_prefix))
    then Some (path_prefix ++ [base_token]) else None) (elements base_tokens).

Definition candidates_round (buy_token : H160) (base_tokens : gset H160)
    (st : gset (list H160) * list (list H160)) : gset (list H160) * list (list H160) :=
  foldl (fun '(candidates, next) path_prefix =>
    ({[path_prefix ++ [buy_token]]} ∪ candidates,
     next ++ extend_prefix buy_token base_tokens path_prefix)) (st.1, []) st.2.

Definition path_candidates (sell_token buy_token : H160) (base_tokens : gset H160)
    (max_hops : nat) : gset (list H160) :=
  if sell_token =? buy_token then ∅
  else (Nat.iter (max_hops + 1) (candidates_round buy_token base_tokens)
          (∅, [[sell_token]])).1.

Definition DEFAULT_MAX_HOPS : nat := 2.

Definition path_candidates_with_hops (self : BaseTokens) (sell_token buy_token : H160)
    (max_hops : nat) : gset (list H160) :=
  path_candidates sell_token buy_token (tokens self) max_hops.
Definition base_path_candidates (self : BaseTokens) (sell_token buy_token : H160)
  : gset (list H160) :=
  path_candidates_with_hops self sell_token buy_token DEFAULT_MAX_HOPS.
End Baseline.

(** The counts of [test_path_candidates]. *)
Example path_candidates_counts :
  map (fun hops => size (Baseline.path_candidates 4 5 {[0; 1; 2]} hops)) [0; 1; 2; 3; 4]%nat =
  [1; 4; 10; 16; 16]%nat.
Proof. vm_compute. reflexivity. Qed.

(** * Iterators *)
Section iterator_lemmas.
Context {A B : Type}.

Lemma rfilter_map_elem (f : A -> res unit B) (l : list A) (bs : list B) b :
  rfilter_map f l = Ok bs -> b ∈ bs <-> exists a, a ∈ l /\ f a = Ok b.
Proof.
  revert bs. induction l as [|a l IH]; intros bs Hr; simpl in Hr; simplify_eq.
  - set_solver.
  - destruct (f a) as [b'|[]|] eqn:Hf; [| |done].
    + inv_ok. rewrite elem_of_cons, (IH _ Hv). split.
      * intros [->|(a' & Ha & Hb)]; [by exists a; split; [left|]|exists a'; by split; [right|]].
      * intros (a' & [->|Ha]%elem_of_cons & Hb); [left; congruence|right; eauto].
    + rewrite (IH _ Hr). split.
      * intros (a' & Ha & Hb). exists a'. by split; [right|].
      * intros (a' & [->|Ha]%elem_of_cons & Hb); [congruence|eauto].
Qed.

(** Whatever the order, the fold returns an element no other one beats. *)
Lemma fold_best_Some (R : A -> A -> Prop) (take : A -> A -> bool) (l : list A) o m :
  (forall x, R x x) -> (forall x y z, R x y -> R y z -> R x z) ->
  (forall b a, if take b a then R b a else R a b) ->
  fold_best take o l = Some m ->
  (o = Some m \/ m ∈ l) /\ forall x, o = Some x \/ x ∈ l -> R x m.
Proof.
  intros Hrefl Htrans Htake. revert o. induction l as [|a l IH]; intros o Hm; simpl in Hm.
  { subst. split; [by left|]. intros x [?|?%elem_of_nil]; [by simplify_eq|done]. }
  apply IH in Hm as [Hin Hbest]. clear IH. split.
  - destruct o as [b|]; [destruct (take b a)|]; set_solver.
  - destruct o as [b|]; [|set_solver]. specialize (Htake b a).
    destruct (take b a); intros x [Hx|[->|Hx]%elem_of_cons]; simplify_eq; eauto.
Qed.

Lemma max_by_key_Some (key : A -> Z) (l : list A) m :
  max_by_key key l = Some m -> m ∈ l /\ forall x, x ∈ l -> key x <= key m.
Proof.
  intros Hm. eapply (fold_best_Some (fun x y => key x <= key y)) in Hm; [naive_solver| |lia|].
  - lia.
  - intros b a. destruct (Z.leb_spec (key b) (key a)); lia.
Qed.

Lemma min_by_key_Some (key : A -> Z) (l : list A) m :
  min_by_key key l = Some m -> m ∈ l /\ forall x, x ∈ l -> key m <= key x.
Proof.
  intros Hm. eapply (fold_best_Some (fun x y => key y <= key x)) in Hm; [naive_solver| |lia|].
  - lia.
  - intros b a. destruct (Z.ltb_spec (key a) (key b)); lia.
Qed.
End iterator_lemmas.

Section token_pairs.
Implicit Types a b : H160.

Lemma pair_new_Some a b p :
  TokenPair.new a b = Some p <-> a <> b /\ p = (Z.min a b, Z.max a b).
Proof.
  unfold TokenPair.new. destruct (Z.compare_spec a b); split; intros; destruct_and?; simplify_eq.
  all: try (split; [lia|]); f_equal; (lia || f_equal; lia).
Qed.

Lemma pair_new_comm a b : TokenPair.new a b = TokenPair.new b a.
Proof.
  apply option_eq. intros p. rewrite !pair_new_Some, Z.min_comm, Z.max_comm. naive_solver.
Qed.
End token_pairs.

(** * Estimates along a path

    A route over a path of tokens: which liquidity each hop uses and which
    amounts go in and come out. *)
Inductive route {L} (hop : H160 -> H160 -> L -> Z -> Z -> Prop)
  : list H160 -> list L -> Z -> Z -> Prop :=
| route_one t a : route hop [t] [] a a
| route_hop t u ts l ls a b c :
    hop t u l a b -> route hop (u :: ts) ls b c -> route hop (t :: u :: ts) (l :: ls) a c.

Section routes.
Context {L : Type} (hop : H160 -> H160 -> L -> Z -> Z -> Prop).

Lemma route_snoc p t u l ls a b c :
  route hop (p ++ [t]) ls a b -> hop t u l b c -> route hop (p ++ [t; u]) (ls ++ [l]) a c.
Proof.
  intros Hr Hh. remember (p ++ [t]) as q eqn:Hq. revert p Hq.
  induction Hr as [t' a|t' u' ts l' ls a b' b Hh' Hr IH]; intros p Hq.
  - destruct p as [|x p]; simpl in *; [|by destruct p]. simplify_eq.
    econstructor; [done|constructor].
  - destruct p as [|x p]; simpl in *; [done|]. injection Hq as -> Hq.
    destruct p as [|y p]; simpl in *; injection Hq as -> Hq.
    + subst ts. econstructor; [done|]. by apply (IH Hh []).
    + subst ts. econstructor; [done|]. by apply (IH Hh (y :: p)).
Qed.

Lemma route_length p ls a b : route hop p ls a b -> length p = Datatypes.S (length ls).
Proof. induction 1; simpl in *; lia. Qed.
End routes.

Section estimates.
Context {L : Type} `{Hsolv : !BaselineSolvable L}.
Context (liquidity : gmap TokenPair.TokenPair (list L)).

Definition pools_between (t u : H160) (pools : list L) : Prop :=
  exists pair, TokenPair.new t u = Some pair /\ liquidity !! pair = Some pools.

(** The hop of [estimate_buy_amount]: the best output among the pools. *)
Definition best_buy_hop (t u : H160) (l : L) (a b : Z) : Prop :=
  exists pools, pools_between t u pools /\ l ∈ pools /\
    get_amount_out l u (a, t) = Ok b /\
    forall l' b', l' ∈ pools -> get_amount_out l' u (a, t) = Ok b' -> b' <= b.

(** The hop of [estimate_sell_amount]: the least input among the pools. *)
Definition best_sell_hop (t u : H160) (l : L) (a b : Z) : Prop :=
  exists pools, pools_between t u pools /\ l ∈ pools /\
    get_amount_in l t (b, u) = Ok a /\
    forall l' a', l' ∈ pools -> get_amount_in l' t (b, u) = Ok a' -> a <= a'.

(** A hop that buys at least what is needed. *)
Definition covering_hop (t u : H160) (l : L) (a b : Z) : Prop :=
  exists pools out, pools_between t u pools /\ l ∈ pools /\
    get_amount_out l u (a, t) = Ok out /\ b <= out.

Lemma offers_best {K} (f : L -> res unit Z) pools (offers : list (L * Z)) (le : K) l b :
  rfilter_map (fun l => let* out := f l in Ok (l, out)) pools = Ok offers ->
  (l, b) ∈ offers <-> l ∈ pools /\ f l = Ok b.
Proof.
  intros Ho. rewrite (rfilter_map_elem _ _ _ _ Ho). split.
  - intros (l' & Hl' & Hf). destruct (f l') eqn:Hfl; simpl in Hf; simplify_eq. done.
  - intros [Hl Hf]. exists l. by rewrite Hf.
Qed.

Lemma buy_hop_Ok a t acc u a' t' acc' :
  Baseline.buy_hop liquidity (a, t, acc) u = Ok (a', t', acc') ->
  t' = u /\ exists l, acc' = acc ++ [l] /\ best_buy_hop t u l a a'.
Proof.
  unfold Baseline.buy_hop. intros Hb. inv_ok. destruct v2 as [l out]. inv_ok.
  split; [done|]. exists l. split; [done|].
  apply max_by_key_Some in Hv2 as [Hin Hmax].
  apply (offers_best (fun l => get_amount_out l t' (a, t)) _ _ 0 _ _ Hv1) in Hin as [Hl Hout].
  exists v0. split; [exists v; by rewrite pair_new_comm|]. do 2 (split; [done|]).
  intros l' b' Hl' Hb'. apply (Hmax (l', b')).
  by apply (offers_best (fun l => get_amount_out l t' (a, t)) _ _ 0 _ _ Hv1).
Qed.

Lemma sell_hop_Ok b u acc t a' t' acc' :
  Baseline.sell_hop liquidity (b, u, acc) t = Ok (a', t', acc') ->
  t' = t /\ exists l, acc' = acc ++ [l] /\ best_sell_hop t u l a' b.
Proof.
  unfold Baseline.sell_hop. intros Hb. inv_ok. destruct v2 as [l inp]. inv_ok.
  split; [done|]. exists l. split; [done|].
  apply min_by_key_Some in Hv2 as [Hin Hmin].
  apply (offers_best (fun l => get_amount_in l t' (b, u)) _ _ 0 _ _ Hv1) in Hin as [Hl Hout].
  exists v0. split; [by exists v|]. do 2 (split; [done|]).
  intros l' a2 Hl' Ha2. apply (Hmin (l', a2)).
  by apply (offers_best (fun l => get_amount_in l t' (b, u)) _ _ 0 _ _ Hv1).
Qed.

Lemma buy_fold ts a t acc b t' acc' :
  rfold (Baseline.buy_hop liquidity) (a, t, acc) ts = Ok (b, t', acc') ->
  exists ls, acc' = acc ++ ls /\ route best_buy_hop (t :: ts) ls a b.
Proof.
  revert a t acc. induction ts as [|u ts IH]; intros a t acc Hr; cbn [rfold] in Hr.
  { simplify_eq. exists []. rewrite app_nil_r. split; [done|constructor]. }
  apply rbind_Ok in Hr as ([[a1 t1] acc1] & [-> (l & -> & Hh)]%buy_hop_Ok & Hr).
  apply IH in Hr as (ls & -> & Hr). exists (l :: ls). rewrite <- app_assoc. split; [done|].
  by econstructor.
Qed.

Lemma sell_fold ts b u acc a t' acc' :
  rfold (Baseline.sell_hop liquidity) (b, u, acc) ts = Ok (a, t', acc') ->
  exists ls, acc' = acc ++ ls /\ route best_sell_hop (reverse (u :: ts)) (reverse ls) a b.
Proof.
  revert b u acc. induction ts as [|t ts IH]; intros b u acc Hr; cbn [rfold] in Hr.
  { simplify_eq. exists []. rewrite app_nil_r. split; [done|constructor]. }
  apply rbind_Ok in Hr as ([[a1 t1] acc1] & [-> (l & -> & Hh)]%sell_hop_Ok & Hr).
  apply IH in Hr as (ls & -> & Hr). exists (l :: ls). rewrite <- app_assoc. split; [done|].
  rewrite !reverse_cons in *. rewrite <- app_assoc. by apply (route_snoc _ _ t u l _ a a1 b).
Qed.

(** The routes of the two estimates. *)
Lemma estimate_buy_route sell_amount path e :
  Baseline.estimate_buy_amount sell_amount path liquidity = Ok e ->
  route best_buy_hop path (Baseline.path e) sell_amount (Baseline.value e).
Proof.
  unfold Baseline.estimate_buy_amount, res_map. intros He. inv_ok.
  destruct path as [|t ts]; simpl in Hv; simplify_eq. simpl in Hv0. rewrite drop_0 in Hv0.
  destruct v0 as [[b t'] ls]. simplify_eq/=. apply buy_fold in Hv0 as (ls' & -> & Hr). done.
Qed.

Lemma estimate_sell_route buy_amount path e :
  Baseline.estimate_sell_amount buy_amount path liquidity = Ok e ->
  route best_sell_hop path (Baseline.path e) (Baseline.value e) buy_amount.
Proof.
  unfold Baseline.estimate_sell_amount, res_map. intros He. inv_ok.
  destruct v0 as [[a t'] ls]. simplify_eq/=. apply last_Some in Hv as [p ->].
  rewrite reverse_app in Hv0. simpl in Hv0. rewrite drop_0 in Hv0.
  apply sell_fold in Hv0 as (ls' & -> & Hr). by rewrite reverse_cons, reverse_involutive in Hr.
Qed.

(** Strengthen the hops of a route, from its end, by an invariant of amounts. *)
Lemma route_impl (I : Z -> Prop) (h1 h2 : H160 -> H160 -> L -> Z -> Z -> Prop) p ls a b :
  (forall t u l a b, I b -> h1 t u l a b -> I a /\ h2 t u l a b) ->
  route h1 p ls a b -> I b -> I a /\ route h2 p ls a b.
Proof.
  intros Himp. induction 1 as [t a|t u ts l ls a b c Hh Hr IH]; intros Hb; [split; [done|constructor]|].
  destruct (IH Hb) as [Hb' Hr']. destruct (Himp t u l a b Hb' Hh) as [Ha Hh2].
  split; [done|]. by econstructor.
Qed.
End estimates.

(** * Path candidates *)
Section candidates.
Context (buy : H160) (base : gset H160).
Implicit Types (p : list H160).

Lemma extend_prefix_elem p q :
  q ∈ Baseline.extend_prefix buy base p <->
  exists t, q = p ++ [t] /\ t ∈ base /\ t <> buy /\ t ∉ p.
Proof.
  unfold Baseline.extend_prefix. rewrite list_elem_of_omap. setoid_rewrite elem_of_elements.
  split.
  - intros (t & Ht & Hq). exists t. destruct (bool_decide_reflect (t = buy)); [done|].
    destruct (bool_decide_reflect (t ∈ p)); [done|]. by simplify_eq/=.
  - intros (t & -> & Ht & Hne & Hnin). exists t. split; [done|].
    rewrite (bool_decide_eq_false_2 _ Hne), (bool_decide_eq_false_2 _ Hnin). done.
Qed.

(** What a round adds to the candidates and hands to the next round. *)
Lemma candidates_round_spec cands prefixes :
  let st := Baseline.candidates_round buy base (cands, prefixes) in
  (forall q, q ∈ st.1 <-> q ∈ cands \/ exists p, p ∈ prefixes /\ q = p ++ [buy]) /\
  (forall q, q ∈ st.2 <-> exists p t, p ∈ prefixes /\ q = p ++ [t] /\ t ∈ base /\ t <> buy /\ t ∉ p).
Proof.
  unfold Baseline.candidates_round. cbn [fst snd].
  assert (Hg : forall (ps : list (list H160)) (c : gset (list H160)) (n : list (list H160)),
    let st := foldl (fun '(candidates, next) path_prefix =>
      ({[path_prefix ++ [buy]]} ∪ candidates,
       next ++ Baseline.extend_prefix buy base path_prefix)) (c, n) ps : gset (list H160) * list (list H160) in
    (forall q, q ∈ st.1 <-> q ∈ c \/ exists p, p ∈ ps /\ q = p ++ [buy]) /\
    (forall q, q ∈ st.2 <-> q ∈ n \/ exists p, p ∈ ps /\ q ∈ Baseline.extend_prefix buy base p)).
  { induction ps as [|p ps IH]; intros c n; cbn [foldl fst snd]; [set_solver|].
    destruct (IH ({[p ++ [buy]]} ∪ c) (n ++ Baseline.extend_prefix buy base p)) as [IH1 IH2].
    split; intros q; [rewrite IH1|rewrite IH2]; [|rewrite elem_of_app]; set_solver. }
  destruct (Hg prefixes cands []) as [H1 H2]. split; [exact H1|].
  intros q. rewrite H2. setoid_rewrite extend_prefix_elem. split.
  - intros [?%elem_of_nil|(p & Hp & t & Ht)]; [done|eauto].
  - intros (p & t & Hp & Ht). right. eauto.
Qed.

(** A simple path from [sell] over [k] base tokens other than [buy]. *)
Definition simple_path (sell : H160) (k : nat) (p : list H160) : Prop :=
  exists mids, p = sell :: mids /\ length mids = k /\ NoDup (sell :: mids) /\
    Forall (fun t => t ∈ base /\ t <> buy) mids.

Lemma simple_path_S sell k q :
  simple_path sell (Datatypes.S k) q <->
  exists p t, simple_path sell k p /\ q = p ++ [t] /\ t ∈ base /\ t <> buy /\ t ∉ p.
Proof.
  split.
  - intros (mids & -> & Hlen & Hnd & Hall).
    destruct mids as [|t mids _] using rev_ind; [done|].
    rewrite length_app in Hlen. simpl in Hlen. apply Forall_app in Hall as [Hall [[]]%Forall_cons].
    rewrite app_comm_cons in Hnd. apply NoDup_app in Hnd as (Hnd & Hdis & _).
    exists (sell :: mids), t. split_and!; try done.
    + exists mids. split_and!; [done|lia|done|done].
    + intros Hin. apply (Hdis _ Hin). by left.
  - intros (p & t & (mids & -> & Hlen & Hnd & Hall) & -> & Hb & Hne & Hnin).
    exists (mids ++ [t]). split_and!; [done|rewrite length_app; simpl; lia| |].
    + rewrite app_comm_cons. apply NoDup_app. split_and!; [done|set_solver|apply NoDup_singleton].
    + apply Forall_app. split; [done|]. by repeat constructor.
Qed.

Lemma rounds_spec sell k :
  let st := Nat.iter k (Baseline.candidates_round buy base) (∅, [[sell]]) in
  (forall q, q ∈ st.1 <-> exists j p, (j < k)%nat /\ simple_path sell j p /\ q = p ++ [buy]) /\
  (forall q, q ∈ st.2 <-> simple_path sell k q).
Proof.
  induction k as [|k [IH1 IH2]]; cbn [Nat.iter nat_rect fst snd].
  - split; intros q.
    + split; [set_solver|]. intros (j & p & Hj & _). lia.
    + rewrite list_elem_of_singleton. split.
      * intros ->. exists []. split_and!; [done|done|apply NoDup_singleton|constructor].
      * intros ([|] & -> & Hlen & _); done.
  - change (nat_rect _ _ _ k) with
      (Nat.iter k (Baseline.candidates_round buy base) (∅, [[sell]])) in *.
    destruct (Nat.iter k _ _) as [cands prefixes]. cbn [fst snd] in *.
    destruct (candidates_round_spec cands prefixes) as [H1 H2]. split; intros q.
    + rewrite H1, IH1. setoid_rewrite IH2. split.
      * intros [(j & p & Hj & Hp & ->)|(p & Hp & ->)]; [exists j, p|exists k, p];
          split_and!; (done || lia).
      * intros (j & p & Hj & Hp & ->). destruct (decide (j = k)) as [->|]; [right; eauto|].
        left. exists j, p. split_and!; (done || lia).
    + rewrite H2, simple_path_S. setoid_rewrite IH2. done.
Qed.
End candidates.

Lemma path_candidates_elem sell buy base hops p :
  p ∈ Baseline.path_candidates sell buy base hops <->
  sell <> buy /\ exists mids, p = sell :: mids ++ [buy] /\ (length mids <= hops)%nat /\
    NoDup (sell :: mids) /\ Forall (fun t => t ∈ base /\ t <> buy) mids.
Proof.
  unfold Baseline.path_candidates. destruct (Z.eqb_spec sell buy) as [->|Hne]; [set_solver|].
  destruct (rounds_spec buy base sell (hops + 1)) as [H1 _]. rewrite H1. clear H1. split.
  - intros (j & q & Hj & (mids & -> & Hlen & Hnd & Hall) & ->). split; [done|].
    exists mids. split_and!; [done|lia|done|done].
  - intros (_ & mids & -> & Hlen & Hnd & Hall). exists (length mids), (sell :: mids).
    split_and!; [lia| |done]. exists mids. done.
Qed.

(** * Base tokens and relevant pairs *)
Section base_tokens.
Implicit Types (l : list H160) (bt : Baseline.BaseTokens).

Lemma dedup_elem l x : x ∈ dedup l <-> x ∈ l.
Proof.
  induction l as [|y l IH]; [done|]. destruct l as [|z l]; [done|].
  cbn [dedup] in *. destruct (Z.eqb_spec y z) as [->|]; set_solver.
Qed.

Lemma new_tokens native base t :
  t ∈ Baseline.tokens (Baseline.new native base) <-> t = native \/ t ∈ base.
Proof.
  unfold Baseline.new. cbn [Baseline.tokens]. rewrite elem_of_list_to_set, dedup_elem.
  rewrite (merge_sort_Permutation Z.le (base ++ [native])). set_solver.
Qed.

Lemma base_token_pairs_elem l q :
  q ∈ Baseline.base_token_pairs l <->
  exists i j x y, (i <= j)%nat /\ l !! i = Some x /\ l !! j = Some y /\ TokenPair.new x y = Some q.
Proof.
  unfold Baseline.base_token_pairs. rewrite list_elem_of_In, in_concat. split.
  - intros (ps & Hps%list_elem_of_In & Hq%list_elem_of_In).
    apply elem_of_lookup_imap in Hps as (i & x & -> & Hx).
    apply list_elem_of_omap in Hq as (y & Hy & Hq).
    apply list_elem_of_lookup in Hy as [k Hk]. rewrite lookup_drop in Hk.
    exists i, (i + k)%nat, x, y. split_and!; (lia || done).
  - intros (i & j & x & y & Hij & Hx & Hy & Hq). eexists. split; apply list_elem_of_In.
    + apply elem_of_lookup_imap. by exists i, x.
    + apply list_elem_of_omap. exists y. split; [|done].
      apply list_elem_of_lookup. exists (j - i)%nat. rewrite lookup_drop.
      by replace (i + (j - i))%nat with j by lia.
Qed.

Lemma new_pairs native base x y q :
  let bt := Baseline.new native base in
  x ∈ Baseline.tokens bt -> y ∈ Baseline.tokens bt -> TokenPair.new x y = Some q ->
  q ∈ Baseline.pairs bt.
Proof.
  unfold Baseline.new. cbn [Baseline.tokens Baseline.pairs]. rewrite !elem_of_list_to_set.
  intros Hx Hy Hq. apply list_elem_of_lookup in Hx as [i Hi], Hy as [j Hj].
  apply base_token_pairs_elem. destruct (decide (i <= j)%nat).
  - by exists i, j, x, y.
  - exists j, i, y, x. rewrite pair_new_comm. split_and!; (lia || done).
Qed.

(** The pairs a pair makes relevant, before those between base tokens. *)
Lemma relevant_fold bt iter q :
  let step := fun (result : gset TokenPair.TokenPair) pair =>
    foldl (fun result token =>
      result ∪ list_to_set (omap (fun base_token => TokenPair.new base_token token)
        (elements (Baseline.tokens bt))))
      ({[pair]} ∪ result) (TokenPair.into_iter pair) in
  q ∈ foldl step ∅ iter <->
  exists p, p ∈ iter /\ (q = p \/ exists b t, b ∈ Baseline.tokens bt /\
    (t = p.1 \/ t = p.2) /\ TokenPair.new b t = Some q).
Proof.
  cbv zeta. assert (Hg : forall r, q ∈ foldl (fun (result : gset TokenPair.TokenPair) pair =>
    foldl (fun result token =>
      result ∪ list_to_set (omap (fun base_token => TokenPair.new base_token token)
        (elements (Baseline.tokens bt))))
      ({[pair]} ∪ result) (TokenPair.into_iter pair)) r iter <->
    q ∈ r \/ exists p, p ∈ iter /\ (q = p \/ exists b t, b ∈ Baseline.tokens bt /\
    (t = p.1 \/ t = p.2) /\ TokenPair.new b t = Some q)).
  { induction iter as [|p iter IH]; intros r; cbn [foldl].
    { set_solver. }
    rewrite IH. cbn [TokenPair.into_iter foldl].
    rewrite !elem_of_union, !elem_of_list_to_set, !list_elem_of_omap.
    setoid_rewrite elem_of_elements. setoid_rewrite elem_of_cons. set_solver. }
  rewrite Hg. set_solver.
Qed.
End base_tokens.

(** Two consecutive tokens of a candidate. *)
Lemma candidate_hop base sell buy hops p i x y :
  p ∈ Baseline.path_candidates sell buy base hops ->
  p !! i = Some x -> p !! Datatypes.S i = Some y ->
  (x = sell \/ x ∈ base) /\ (y = buy \/ y ∈ base) /\ y <> x.
Proof.
  intros Hp Hx Hy. apply path_candidates_elem in Hp as (Hne & mids & -> & _ & Hnd & Hall).
  rewrite Forall_forall in Hall.
  assert (Hn : NoDup (sell :: mids ++ [buy])).
  { rewrite app_comm_cons. apply NoDup_app. split_and!; [done| |apply NoDup_singleton].
    intros z [->|Hz]%elem_of_cons ->%list_elem_of_singleton; [done|by destruct (Hall _ Hz)]. }
  split_and!.
  - destruct i as [|i]; simpl in Hx; [left; congruence|right].
    apply lookup_app_Some in Hx as [Hx|[Hlen _]]; [by apply list_elem_of_lookup_2, Hall in Hx as []|].
    simpl in Hy. apply lookup_lt_Some in Hy. rewrite length_app in Hy. simpl in Hy. lia.
  - simpl in Hy. apply lookup_app_Some in Hy as [Hy|[_ Hy]].
    + right. by apply list_elem_of_lookup_2, Hall in Hy as [].
    + left. apply list_lookup_singleton_Some in Hy as [_ ->]. done.
  - intros ->. pose proof (NoDup_lookup _ _ _ _ Hn Hx Hy). lia.
Qed.

Lemma relevant_pairs_covers native base iter pair sell buy hops p i x y :
  let bt := Baseline.new native base in
  TokenPair.new sell buy = Some pair -> pair ∈ iter ->
  p ∈ Baseline.path_candidates_with_hops bt sell buy hops ->
  p !! i = Some x -> p !! Datatypes.S i = Some y ->
  exists q, TokenPair.new y x = Some q /\ q ∈ Baseline.relevant_pairs bt iter.
Proof.
  intros bt Hpair Hiter Hp Hx Hy.
  destruct (candidate_hop _ _ _ _ _ _ _ _ Hp Hx Hy) as (Hxs & Hys & Hxy).
  assert (Hnew : TokenPair.new y x = Some (Z.min y x, Z.max y x)) by by apply pair_new_Some.
  exists (Z.min y x, Z.max y x). split; [exact Hnew|].
  unfold Baseline.relevant_pairs. set (result := foldl _ _ iter).
  assert (Hres : pair ∈ result) by (apply relevant_fold; eauto).
  destruct (decide (result = ∅)) as [->|_]; [set_solver|]. apply elem_of_union.
  apply pair_new_Some in Hpair as [_ ->].
  destruct Hxs as [->|Hxt], Hys as [->|Hyt].
  - left. rewrite Z.min_comm, Z.max_comm. done.
  - left. apply relevant_fold. eexists. split; [done|]. right. exists y, sell.
    split_and!; [done| |done]. cbn. lia.
  - left. apply relevant_fold. eexists. split; [done|]. right. exists x, buy.
    split_and!; [done|cbn; lia|]. by rewrite pair_new_comm.
  - right. exact (new_pairs native base y x _ Hyt Hxt Hnew).
Qed.

(** * Properties *)

(** C35: the path candidates are exactly the simple paths: every candidate goes
    from the sell token over at most [max_hops] pairwise distinct base tokens,
    none of them the buy token, to the buy token, and every such path is a
    candidate; there is none when the two tokens are equal. *)
Theorem path_candidates_complete (sell buy : H160) (base : gset H160) (hops : nat) (p : list H160) :
  p ∈ Baseline.path_candidates sell buy base hops <->
  sell <> buy /\ exists mids, p = sell :: mids ++ [buy] /\ (length mids <= hops)%nat /\
    NoDup (sell :: mids) /\ Forall (fun t => t ∈ base /\ t <> buy) mids.
Proof. apply path_candidates_elem. Qed.

(** [relevant_pairs] names all the liquidity a path candidate can use: for
    an order pair passed to it, every two consecutive tokens of every path
    candidate between the pair's tokens, in either direction and with any
    number of hops, form a pair of the result. *)
Theorem relevant_pairs_cover_candidates (native : H160) (base : list H160)
    (iter : list TokenPair.TokenPair) (pair : TokenPair.TokenPair) (sell buy : H160) (hops : nat)
    (p : list H160) (i : nat) (x y : H160) :
  TokenPair.new sell buy = Some pair -> pair ∈ iter ->
  p ∈ Baseline.path_candidates_with_hops (Baseline.new native base) sell buy hops ->
  p !! i = Some x -> p !! Datatypes.S i = Some y ->
  exists q, TokenPair.new y x = Some q /\
    q ∈ Baseline.relevant_pairs (Baseline.new native base) iter.
Proof. apply relevant_pairs_covers. Qed.

Lemma relevant_pairs_cover_candidates_witness :
  exists q, TokenPair.new 7 2 = Some q /\ q ∈ Baseline.relevant_pairs (Baseline.new 1 [7; 2]) [(3, 9)].
Proof.
  apply (relevant_pairs_cover_candidates 1 [7; 2] [(3, 9)] (3, 9) 9 3 2 [9; 2; 7; 3] 1 2 7);
    [reflexivity|by left| |reflexivity|reflexivity].
  apply (bool_decide_eq_true_1 _). vm_compute. reflexivity.
Defined.

(** [estimate_buy_amount] follows the path: the result is a route over
    exactly the tokens of the path, each hop sells the previous hop's output,
    over a pool registered for that pair of tokens, and no other pool of the
    pair would have paid more. *)
Theorem estimate_buy_amount_best_route {L} `{BaselineSolvable L}
    (liquidity : gmap TokenPair.TokenPair (list L)) (sell_amount : Z) (path : list H160) e :
  Baseline.estimate_buy_amount sell_amount path liquidity = Ok e ->
  route (best_buy_hop liquidity) path (Baseline.path e) sell_amount (Baseline.value e).
Proof. apply estimate_buy_route. Qed.

(** What [estimate_sell_amount] asks to sell is enough: over liquidity
    that keeps the [Covering] promise, every hop of the returned route is the
    cheapest of its pair, and selling the amount computed for it buys at
    least what the next hop needs, down to the amount asked for. *)
Theorem estimate_sell_amount_covers {L} `{Covering L}
    (liquidity : gmap TokenPair.TokenPair (list L)) (buy_amount : Z) (path : list H160) e :
  (forall pair pools, liquidity !! pair = Some pools -> Forall well_formed pools) ->
  u256 buy_amount ->
  Baseline.estimate_sell_amount buy_amount path liquidity = Ok e ->
  route (fun t u l a b => best_sell_hop liquidity t u l a b /\ covering_hop liquidity t u l a b)
    path (Baseline.path e) (Baseline.value e) buy_amount.
Proof.
  intros Hwf Hnn Hr%estimate_sell_route.
  eapply (route_impl u256); [|exact Hr|exact Hnn]. intros t u l a' b Hb Hh.
  destruct (Hh) as (pools & Hp & Hl & Hin & _). destruct (Hp) as (pair & _ & Hpair).
  pose proof (Forall_elem _ _ _ (Hwf _ _ Hpair) Hl) as Hl'.
  destruct (in_covers_out l t b u a' Hl' Hb Hin) as (Ha & out & Hout & Hle).
  split; [exact Ha|]. split; [exact Hh|]. by exists pools, out.
Qed.
