(* ===== verification/UniswapV2.v ===== *)
(** Constant product pools: crates/shared/src/sources/uniswap_v2/pool_fetching.rs.

    The swap functions of [Pool], its [BaselineSolvable] implementation with
    the [Covering] promise, and the sanity check of a fetched pool. *)
From Stdlib Require Import ZArith Lia.
From stdpp Require Import prelude gmap.
From S2P Require Import Prelude U256 BaselineSolver.

Open Scope Z_scope.
Open Scope rust_scope.

Module UniswapV2.
Definition POOL_SWAP_GAS_COST : Z := 60000.
Definition POOL_MAX_RESERVES : Z := Z.shiftl 1 112 - 1.

(** [num::rational::Ratio<u32>], reduced by the constructor. *)
Record Ratio : Type := mkRatio { numer : Z; denom : Z }.

(** [u32::checked_sub] *)
Definition checked_sub_u32 (a b : Z) : option Z := checked_sub a b.

Record Pool : Type := mkPool {
  address : H160;
  tokens : TokenPair.TokenPair;
  reserves : Z * Z;
  fee : Ratio;
}.

(** [Ratio::new(3, 1000)] is already in lowest terms. *)
Definition uniswap (address : H160) (tokens : TokenPair.TokenPair) (reserves : Z * Z) : Pool :=
  mkPool address tokens reserves (mkRatio 3 1000).

(** [get_relative_reserves]: the [assert_eq!] panics on a foreign token. *)
Definition get_relative_reserves (self : Pool) (token : H160) : res unit (Z * Z * H160) :=
  if token =? (TokenPair.get (tokens self)).1
  then Ok ((reserves self).1, (reserves self).2, (TokenPair.get (tokens self)).2)
  else if negb (token =? (TokenPair.get (tokens self)).2) then Panic
  else Ok ((reserves self).2, (reserves self).1, (TokenPair.get (tokens self)).1).

Definition check_final_reserves (amount_in amount_out reserve_in reserve_out : Z)
  : res unit (Z * Z) :=
  let* final_reserve_in := opt (checked_add reserve_in amount_in) in
  let* final_reserve_out := opt (checked_sub reserve_out amount_out) in
  if POOL_MAX_RESERVES <? final_reserve_in then Err tt
  else Ok (final_reserve_in, final_reserve_out).

Definition amount_out (self : Pool) (amount_in reserve_in reserve_out : Z) : res unit Z :=
  if (amount_in =? 0) || (reserve_in =? 0) || (reserve_out =? 0) then Err tt else
  let* kept := opt (checked_sub_u32 (denom (fee self)) (numer (fee self))) in
  let* amount_in_with_fee := opt (checked_mul amount_in kept) in
  let* numerator := opt (checked_mul amount_in_with_fee reserve_out) in
  let* d := opt (checked_mul reserve_in (denom (fee self))) in
  let* denominator := opt (checked_add d amount_in_with_fee) in
  let* amount_out := opt (checked_div numerator denominator) in
  let* _ := check_final_reserves amount_in amount_out reserve_in reserve_out in
  Ok amount_out.

Definition amount_in (self : Pool) (amount_out reserve_in reserve_out : Z) : res unit Z :=
  if (amount_out =? 0) || (reserve_in =? 0) || (reserve_out =? 0) then Err tt else
  let* n := opt (checked_mul reserve_in amount_out) in
  let* numerator := opt (checked_mul n (denom (fee self))) in
  let* rest := opt (checked_sub reserve_out amount_out) in
  let* kept := opt (checked_sub_u32 (denom (fee self)) (numer (fee self))) in
  let* denominator := opt (checked_mul rest kept) in
  let* q := opt (checked_div numerator denominator) in
  let* amount_in := opt (checked_add q 1) in
  let* _ := check_final_reserves amount_in amount_out reserve_in reserve_out in
  Ok amount_in.

Definition pool_get_amount_out (self : Pool) (token_in : H160) (amount_in : Z)
  : res unit (Z * H160) :=
  let* ' (reserve_in, reserve_out, token_out) := get_relative_reserves self token_in in
  let* out := amount_out self amount_in reserve_in reserve_out in
  Ok (out, token_out).

Definition pool_get_amount_in (self : Pool) (token_out : H160) (out : Z)
  : res unit (Z * H160) :=
  let* ' (reserve_out, reserve_in, token_in) := get_relative_reserves self token_out in
  let* inp := amount_in self out reserve_in reserve_out in
  Ok (inp, token_in).

#[global] Instance pool_solvable : BaselineSolvable Pool := {
  get_amount_out self out_token inp :=
    let* ' (out_amount, token) := pool_get_amount_out self inp.2 inp.1 in
    if token =? out_token then Ok out_amount else Panic;
  get_amount_in self in_token out :=
    let* ' (in_amount, token) := pool_get_amount_in self out.2 out.1 in
    if token =? in_token then Ok in_amount else Panic;
  gas_cost _ := POOL_SWAP_GAS_COST;
}.

(** ** Fetching: [handle_contract_error] and [handle_results]

    [EthcontractErrorType::classify] separates the errors of the node from
    those of the contract. *)
Inductive MethodError : Type := Node | Contract.

Definition handle_contract_error {T} (result : res MethodError T)
  : res MethodError (option T) :=
  match result with
  | Ok t => Ok (Some t)
  | Err Node => Err Node
  | Err Contract => Ok None
  | Panic => Panic
  end.

Record FetchedPool : Type := mkFetchedPool {
  pair : TokenPair.TokenPair;
  fetched_reserves : res MethodError (Z * Z * Z);
  token0_balance : res MethodError Z;
  token1_balance : res MethodError Z;
}.

Definition handle_results (fetched_pool : FetchedPool) (address : H160)
  : res MethodError (option Pool) :=
  let* reserves := handle_contract_error (fetched_reserves fetched_pool) in
  let* token0_balance := handle_contract_error (token0_balance fetched_pool) in
  let* token1_balance := handle_contract_error (token1_balance fetched_pool) in
  Ok (match reserves with
      | None => None
      | Some (r0, r1, _) =>
          match token0_balance with
          | None => None
          | Some b0 =>
              if b0 <? r0 then None
              else match token1_balance with
                   | None => None
                   | Some b1 =>
                       if b1 <? r1 then None
                       else Some (uniswap address (pair fetched_pool) (r0, r1))
                   end
          end
      end).
End UniswapV2.

(** The values of [test_get_amounts_out] and [test_get_amounts_in]. *)
Section tests.
Import UniswapV2.
Let even : Pool := uniswap 1 (1, 2) (100, 100).
Let large : Pool := uniswap 3 (1, 2) (2 ^ 90, 2 ^ 90).

Example amounts_out_test :
  pool_get_amount_out even 1 10 = Ok (9, 2) /\ pool_get_amount_out even 1 1000 = Ok (90, 2) /\
  pool_get_amount_out large 1 (10 ^ 20) = Ok (99699991970459889807, 2) /\
  pool_get_amount_out large 1 U256_MAX = Err tt.
Proof. by vm_compute. Qed.

Example amounts_in_test :
  pool_get_amount_in even 2 99 = Ok (9930, 1) /\ pool_get_amount_in even 2 100 = Err tt /\
  pool_get_amount_in large 2 (10 ^ 20) = Ok (100300910810367424267, 1).
Proof. by vm_compute. Qed.
End tests.

(** * What a swap does to the reserves *)
Section swaps.
Import UniswapV2.

(** A pool as the contracts keep it: [uint112] reserves, a [u32] fee below
    one, and a pair of distinct tokens in order. *)
Definition pool_wf (p : Pool) : Prop :=
  0 <= (reserves p).1 <= POOL_MAX_RESERVES /\ 0 <= (reserves p).2 <= POOL_MAX_RESERVES /\
  0 <= numer (fee p) /\ 0 <= denom (fee p) < 2 ^ 32 /\ (tokens p).1 < (tokens p).2.

Lemma check_final_reserves_Ok ain aout rin rout fin fout :
  check_final_reserves ain aout rin rout = Ok (fin, fout) <->
  fin = rin + ain /\ fout = rout - aout /\ aout <= rout /\ rin + ain <= POOL_MAX_RESERVES.
Proof.
  unfold check_final_reserves, checked_add, checked_sub. assert (POOL_MAX_RESERVES <= U256_MAX) by closed.
  destruct (Z.leb_spec (rin + ain) U256_MAX); cbn [opt ok_or rbind]; [|split; [done|lia]].
  destruct (Z.leb_spec aout rout); cbn [opt ok_or rbind]; [|split; [done|lia]].
  destruct (Z.ltb_spec POOL_MAX_RESERVES (rin + ain)); [split; [done|lia]|].
  split; [intros [= <- <-]; lia|]. intros (-> & -> & _). done.
Qed.

(** The amount out, from the fee kept, as a rounded-down quotient. *)
Lemma amount_out_Ok p ain rin rout out :
  amount_out p ain rin rout = Ok out ->
  ain <> 0 /\ rin <> 0 /\ rout <> 0 /\
  let kept := denom (fee p) - numer (fee p) in
  numer (fee p) <= denom (fee p) /\
  rin * denom (fee p) + ain * kept <> 0 /\
  out = ain * kept * rout / (rin * denom (fee p) + ain * kept) /\
  out <= rout /\ rin + ain <= POOL_MAX_RESERVES.
Proof.
  unfold amount_out, checked_sub_u32. destruct (_ || _) eqn:Hz; [done|]. intros Ho. bool_to_prop. inv_ok.
  apply checked_sub_Some in Hv as [-> ?]. apply checked_mul_Some in Hv0 as [-> ?].
  apply checked_mul_Some in Hv1 as [-> ?]. apply checked_mul_Some in Hv2 as [-> ?].
  apply checked_add_Some in Hv3 as [-> ?]. apply checked_div_Some in Hv4 as [-> ?].
  destruct v5 as [fin fout]. apply check_final_reserves_Ok in Hv5 as (_ & _ & ? & ?). auto 10.
Qed.

Lemma amount_in_Ok p out rin rout ain :
  amount_in p out rin rout = Ok ain ->
  out <> 0 /\ rin <> 0 /\ rout <> 0 /\
  let kept := denom (fee p) - numer (fee p) in
  numer (fee p) <= denom (fee p) /\
  (rout - out) * kept <> 0 /\
  ain = rin * out * denom (fee p) / ((rout - out) * kept) + 1 /\
  out <= rout /\ rin + ain <= POOL_MAX_RESERVES.
Proof.
  unfold amount_in, checked_sub_u32. destruct (_ || _) eqn:Hz; [done|]. intros Ho. bool_to_prop. inv_ok.
  apply checked_mul_Some in Hv as [-> ?]. apply checked_mul_Some in Hv0 as [-> ?].
  apply checked_sub_Some in Hv1 as [-> ?]. apply checked_sub_Some in Hv2 as [-> ?].
  apply checked_mul_Some in Hv3 as [-> ?]. apply checked_div_Some in Hv4 as [-> ?].
  apply checked_add_Some in Hv5 as [-> ?].
  destruct v6 as [fin fout]. apply check_final_reserves_Ok in Hv6 as (_ & _ & ? & ?). auto 10.
Qed.

(** Selling never decreases the product of the reserves. *)
Lemma amount_out_product p ain rin rout out :
  0 <= numer (fee p) -> 0 < rin -> 0 < rout -> 0 <= ain ->
  amount_out p ain rin rout = Ok out ->
  0 <= out < rout /\ rin * rout <= (rin + ain) * (rout - out).
Proof.
  intros Hf Hri Hro Ha (Ha0 & _ & _ & Hnd & Hden & Hout & _ & _)%amount_out_Ok.
  set (kept := denom (fee p) - numer (fee p)) in *. set (d := denom (fee p)) in *.
  assert (Hk : 0 <= kept <= d) by lia. assert (0 < d) by nia.
  set (den := rin * d + ain * kept) in *. assert (Hd0 : 0 < den) by nia.
  pose proof (fdiv_spec (ain * kept * rout) den Hd0) as Hfd. rewrite <- Hout in Hfd.
  assert (H0 : 0 <= out) by (rewrite Hout; apply Z.div_pos; nia).
  (* out * (rin * d + ain * kept) <= ain * kept * rout <= ain * d * (rout - out) + ... *)
  assert (Hlt : out < rout).
  { apply Z.nle_gt. intros Hge.
    assert (rout * den <= out * den) by (apply Z.mul_le_mono_nonneg_r; lia).
    assert (0 < rout * (rin * d)) by (apply Z.mul_pos_pos; [lia|apply Z.mul_pos_pos; lia]).
    subst den. lia. }
  split; [lia|].
  assert (out * (rin * d) <= ain * kept * (rout - out)) by (subst den; nia).
  assert (ain * kept * (rout - out) <= ain * d * (rout - out))
    by (apply Z.mul_le_mono_nonneg_r; [lia|apply Z.mul_le_mono_nonneg_l; lia]).
  assert (d * (rin * out) <= d * (ain * (rout - out))) by lia.
  assert (rin * out <= ain * (rout - out)) by (by apply (Z.mul_le_mono_pos_l _ _ d)). lia.
Qed.

(** Selling what [amount_in] computed buys at least the amount asked for. *)
Lemma amount_in_covers p out rin rout ain :
  0 <= numer (fee p) -> 0 <= denom (fee p) < 2 ^ 32 ->
  0 <= rin <= POOL_MAX_RESERVES -> 0 <= rout <= POOL_MAX_RESERVES -> 0 <= out ->
  amount_in p out rin rout = Ok ain ->
  u256 ain /\ exists out', amount_out p ain rin rout = Ok out' /\ out <= out'.
Proof.
  intros Hn Hd Hri Hro Ho (Ho0 & Hri0 & Hro0 & Hnd & Hden & Hain & Hle & Hmax)%amount_in_Ok.
  set (kept := denom (fee p) - numer (fee p)) in *. set (d := denom (fee p)) in *.
  assert (Hk : 0 < kept <= d) by nia. assert (Hrest : 0 < rout - out) by nia.
  set (M := (rout - out) * kept) in *. assert (HM : 0 < M) by nia.
  pose proof (fdiv_spec (rin * out * d) M HM) as Hfd.
  set (q := rin * out * d / M) in *. assert (Hq : 0 <= q) by (apply Z.div_pos; nia).
  assert (Hcov : rin * out * d < ain * M) by (subst ain; nia).
  assert (Hain0 : 0 < ain) by lia.
  set (den := rin * d + ain * kept). assert (Hd0 : 0 < den) by (subst den; nia).
  set (out' := ain * kept * rout / den).
  assert (Hge : out <= out').
  { apply Z.div_le_lower_bound; [done|]. subst den M. nia. }
  assert (Hout' : out' <= rout).
  { apply Z.div_le_upper_bound; [done|]. subst den. nia. }
  assert (HP : POOL_MAX_RESERVES * 2 ^ 32 * POOL_MAX_RESERVES <= U256_MAX) by closed.
  assert (HP2 : POOL_MAX_RESERVES * 2 ^ 32 * 2 <= U256_MAX) by closed.
  assert (Hak : 0 <= ain * kept <= POOL_MAX_RESERVES * 2 ^ 32).
  { split; [apply Z.mul_nonneg_nonneg; lia|apply Z.mul_le_mono_nonneg; lia]. }
  assert (Hrd : 0 <= rin * d <= POOL_MAX_RESERVES * 2 ^ 32).
  { split; [apply Z.mul_nonneg_nonneg; lia|apply Z.mul_le_mono_nonneg; lia]. }
  split; [unfold u256; lia|]. exists out'. split; [|done]. unfold amount_out, checked_sub_u32.
  rewrite (proj2 (Z.eqb_neq ain 0)), (proj2 (Z.eqb_neq rin 0)), (proj2 (Z.eqb_neq rout 0)) by lia.
  cbn [orb]. fold d. rewrite (proj2 (checked_sub_Some d _ kept)) by lia. cbn [opt ok_or rbind].
  rewrite (proj2 (checked_mul_Some ain kept _)) by (split; [done|lia]). cbn [opt ok_or rbind].
  rewrite (proj2 (checked_mul_Some (ain * kept) rout _)) by
    (split; [done|transitivity (POOL_MAX_RESERVES * 2 ^ 32 * POOL_MAX_RESERVES);
      [apply Z.mul_le_mono_nonneg; lia|exact HP]]).
  cbn [opt ok_or rbind].
  rewrite (proj2 (checked_mul_Some rin d _)) by (split; [done|lia]). cbn [opt ok_or rbind].
  rewrite (proj2 (checked_add_Some (rin * d) (ain * kept) den)) by (split; [done|lia]).
  cbn [opt ok_or rbind].
  rewrite (proj2 (checked_div_Some _ den out')) by (split; [done|lia]). cbn [opt ok_or rbind].
  rewrite (proj2 (check_final_reserves_Ok ain out' rin rout _ _)) by (split_and!; (done || lia)).
  done.
Qed.

Lemma relative_reserves_other p t rt ro u :
  (tokens p).1 < (tokens p).2 ->
  get_relative_reserves p t = Ok (rt, ro, u) -> get_relative_reserves p u = Ok (ro, rt, t).
Proof.
  intros Hlt. unfold get_relative_reserves, TokenPair.get. cbn [fst snd].
  destruct (Z.eqb_spec t (tokens p).1) as [->|Hne].
  - intros [= <- <- <-]. destruct (Z.eqb_spec (tokens p).2 (tokens p).1); [lia|].
    by rewrite Z.eqb_refl.
  - destruct (Z.eqb_spec t (tokens p).2) as [->|]; cbn [negb]; [|done].
    intros [= <- <- <-]. by rewrite Z.eqb_refl.
Qed.

Lemma relative_reserves_wf p t rt ro u :
  pool_wf p -> get_relative_reserves p t = Ok (rt, ro, u) ->
  0 <= rt <= POOL_MAX_RESERVES /\ 0 <= ro <= POOL_MAX_RESERVES.
Proof.
  intros (H1 & H2 & _) Hr. unfold get_relative_reserves in Hr. repeat case_match; by simplify_eq.
Qed.
End swaps.

(** The trait's operations in terms of the relative reserves. *)
Lemma pool_out_Ok (p : UniswapV2.Pool) t u a out :
  get_amount_out p u (a, t) = Ok out <->
  exists rin rout, UniswapV2.get_relative_reserves p t = Ok (rin, rout, u) /\
    UniswapV2.amount_out p a rin rout = Ok out.
Proof.
  cbn [get_amount_out UniswapV2.pool_solvable fst snd]. unfold UniswapV2.pool_get_amount_out.
  destruct (UniswapV2.get_relative_reserves p t) as [[[rin rout] u']| |]; cbn [rbind]; [|split; [done|intros (? & ? & ? & ?); congruence]..].
  destruct (UniswapV2.amount_out p a rin rout) as [o| |] eqn:Ho; cbn [rbind]; [|split; [done|intros (? & ? & ? & ?); congruence]..].
  destruct (Z.eqb_spec u' u) as [->|]; [|split; [done|intros (? & ? & ? & ?); congruence]].
  split; [intros [= <-]; eauto|]. intros (? & ? & [= -> ->] & ?). congruence.
Qed.

Lemma pool_in_Ok (p : UniswapV2.Pool) t u out a :
  get_amount_in p t (out, u) = Ok a <->
  exists rin rout, UniswapV2.get_relative_reserves p u = Ok (rout, rin, t) /\
    UniswapV2.amount_in p out rin rout = Ok a.
Proof.
  cbn [get_amount_in UniswapV2.pool_solvable fst snd]. unfold UniswapV2.pool_get_amount_in.
  destruct (UniswapV2.get_relative_reserves p u) as [[[rout rin] t']| |]; cbn [rbind]; [|split; [done|intros (? & ? & ? & ?); congruence]..].
  destruct (UniswapV2.amount_in p out rin rout) as [o| |] eqn:Ho; cbn [rbind]; [|split; [done|intros (? & ? & ? & ?); congruence]..].
  destruct (Z.eqb_spec t' t) as [->|]; [|split; [done|intros (? & ? & ? & ?); congruence]].
  split; [intros [= <-]; eauto|]. intros (? & ? & [= -> ->] & ?). congruence.
Qed.

(** The promise of the trait, for a pool as the contracts keep it. *)
#[global] Program Instance pool_covering : Covering UniswapV2.Pool := {
  well_formed := pool_wf;
}.
Next Obligation.
  intros p in_token out out_token ain Hwf Hout (ri & ro & Hr & Hin)%pool_in_Ok.
  pose proof (relative_reserves_wf _ _ _ _ _ Hwf Hr) as [Hro Hri].
  destruct Hwf as (_ & _ & Hn & Hd & Hlt).
  destruct (amount_in_covers p out ri ro _ Hn Hd Hri Hro (proj1 Hout) Hin) as (Hain & out' & Ho & Hle).
  split; [done|]. exists out'. split; [|done]. apply pool_out_Ok. exists ri, ro.
  split; [|done]. by apply relative_reserves_other.
Qed.

(** * Properties *)

(** A sale over a constant product pool keeps the pool solvent: when
    [get_amount_out] returns an amount, it is strictly less than the reserve
    it is taken from, the reserve it is added to stays within [uint112], and
    the product of the reserves does not decrease, whatever fee below one the
    pool charges. *)
Theorem uniswap_product_kept (p : UniswapV2.Pool) (token_in token_out : H160)
    (amount_in out : Z) (reserve_in reserve_out : Z) :
  pool_wf p -> 0 <= amount_in ->
  UniswapV2.get_relative_reserves p token_in = Ok (reserve_in, reserve_out, token_out) ->
  get_amount_out p token_out (amount_in, token_in) = Ok out ->
  0 <= out < reserve_out /\
  reserve_in + amount_in <= UniswapV2.POOL_MAX_RESERVES /\
  reserve_in * reserve_out <= (reserve_in + amount_in) * (reserve_out - out).
Proof.
  intros Hwf Ha Hr (ri & ro & Hr' & Ho)%pool_out_Ok. rewrite Hr in Hr'. injection Hr' as <- <-.
  pose proof (relative_reserves_wf _ _ _ _ _ Hwf Hr). destruct Hwf as (_ & _ & Hn & _).
  pose proof (amount_out_Ok _ _ _ _ _ Ho) as (? & ? & ? & _ & _ & _ & _ & ?).
  destruct (amount_out_product p amount_in reserve_in reserve_out _ Hn ltac:(lia) ltac:(lia) Ha Ho).
  done.
Qed.

(** The input computed for a purchase is enough and in range: over a pool
    with [uint112] reserves, selling what [get_amount_in] returned succeeds
    and buys at least the amount that was asked for; this discharges the
    promise [estimate_sell_amount] relies on. *)
Theorem uniswap_amount_in_covers (p : UniswapV2.Pool) (in_token out_token : H160) (out ain : Z) :
  pool_wf p -> u256 out ->
  get_amount_in p in_token (out, out_token) = Ok ain ->
  u256 ain /\ exists out', get_amount_out p out_token (ain, in_token) = Ok out' /\ out <= out'.
Proof. apply pool_covering. Qed.

(** The pools of [test_estimate_amount] for the witnesses. *)
Section witnesses.
Let first_pool : UniswapV2.Pool := UniswapV2.uniswap 1 (1, 2) (100, 100).
Let second_pool : UniswapV2.Pool := UniswapV2.uniswap 2 (2, 3) (200, 50).
Let liquidity : gmap TokenPair.TokenPair (list UniswapV2.Pool) :=
  {[ (1, 2) := [first_pool]; (2, 3) := [second_pool] ]}.

Example estimates_test :
  res_map Baseline.value (Baseline.estimate_buy_amount 10 [1; 2; 3] liquidity) = Ok 2 /\
  res_map Baseline.value (Baseline.estimate_sell_amount 10 [1; 2; 3] liquidity) = Ok 105 /\
  Baseline.estimate_sell_amount 100 [1; 2; 3] liquidity = Err tt.
Proof. by vm_compute. Qed.

Lemma uniswap_product_kept_witness :
  0 <= 9 < 100 /\ 100 + 10 <= UniswapV2.POOL_MAX_RESERVES /\ 100 * 100 <= (100 + 10) * (100 - 9).
Proof.
  apply (uniswap_product_kept (UniswapV2.uniswap 1 (1, 2) (100, 100)) 1 2 10 9 100 100).
  - unfold pool_wf. split_and!; closed.
  - lia.
  - reflexivity.
  - vm_compute. reflexivity.
Defined.

Lemma uniswap_amount_in_covers_witness :
  u256 12 /\ exists out', get_amount_out (UniswapV2.uniswap 1 (1, 2) (100, 100)) 2 (12, 1) = Ok out' /\ 10 <= out'.
Proof.
  apply (uniswap_amount_in_covers (UniswapV2.uniswap 1 (1, 2) (100, 100)) 1 2 10 12).
  - unfold pool_wf. split_and!; closed.
  - split; closed.
  - vm_compute. reflexivity.
Defined.

Lemma estimate_buy_amount_best_route_witness :
  route (best_buy_hop liquidity) [1; 2; 3] [first_pool; second_pool] 10 2.
Proof.
  apply (estimate_buy_amount_best_route liquidity 10 [1; 2; 3]
    (Baseline.mkEstimate 2 [first_pool; second_pool])).
  vm_compute. reflexivity.
Defined.

Lemma estimate_sell_amount_covers_witness :
  route (fun t u l a b => best_sell_hop liquidity t u l a b /\ covering_hop liquidity t u l a b)
    [1; 2; 3] [first_pool; second_pool] 105 10.
Proof.
  apply (estimate_sell_amount_covers liquidity 10 [1; 2; 3]
    (Baseline.mkEstimate 105 [first_pool; second_pool])).
  - intros pair pools [[<- <-]|[_ [<- <-]%lookup_singleton_Some]]%lookup_insert_Some;
      (constructor; [split_and!; closed|constructor]).
  - split; closed.
  - vm_compute. reflexivity.
Defined.
End witnesses.
