(* ===== verification/BalancerSwap.v ===== *)
(** Swaps over Balancer V2 pools: crates/shared/src/sources/balancer_v2/swap.rs,
    with the pool states of pools/common.rs, pools/weighted.rs and
    pools/stable.rs.

    Fees and scaling around the two pool mathematics, the reserves without the
    pool's own token, and the search for an input amount that really buys the
    output asked for, which discharges the [Covering] promise. *)
From Stdlib Require Import ZArith Lia.
From stdpp Require Import prelude.
From S2P Require Import Prelude U256 FixedPoint LogExpMath WeightedMath StableMath BaselineSolver.

Open Scope Z_scope.
Open Scope rust_scope.

Module BalancerSwap.
Definition WEIGHTED_SWAP_GAS_COST : Z := 100000.
Definition STABLE_SWAP_GAS_COST : Z := 183520.

Definition add_swap_fee_amount (amount swap_fee : Z) : res Error Z :=
  let* c := Bfp.complement swap_fee in
  Bfp.div_up amount c.

Definition subtract_swap_fee_amount (amount swap_fee : Z) : res Error Z :=
  let* fee_amount := Bfp.mul_up amount swap_fee in
  Bfp.sub amount fee_amount.

(** ** Token states *)
Record TokenState : Type := mkTokenState { balance : Z; scaling_factor : Z }.
Record WeightedTokenState : Type := mkWeightedTokenState { common : TokenState; weight : Z }.
Inductive WeightedPoolVersion : Type := V0 | V3Plus.

Definition upscale (self : TokenState) (amount : Z) : res Error Z :=
  Bfp.mul_down amount (scaling_factor self).
Definition upscaled_balance (self : TokenState) : res Error Z := upscale self (balance self).
Definition downscale_up (self : TokenState) (amount : Z) : res Error Z :=
  Bfp.div_up amount (scaling_factor self).
Definition downscale_down (self : TokenState) (amount : Z) : res Error Z :=
  Bfp.div_down amount (scaling_factor self).

(** ** [AmplificationParameter] of pools/stable.rs *)
Record AmplificationParameter : Type := mkAmplificationParameter { factor : Z; precision : Z }.
Definition amplification_new (factor precision : Z) : res unit AmplificationParameter :=
  if precision =? 0 then Err tt else Ok (mkAmplificationParameter factor precision).
Definition with_base (self : AmplificationParameter) (base : Z) : res unit Z :=
  let* p := opt (checked_mul (factor self) base) in
  u_div p (precision self).

(** ** [converge_in_amount] *)
Fixpoint bump_loop (n : nat) (get_amount_out : Z -> res unit Z)
    (in_amount exact_out_amount bump : Z) : res unit Z :=
  match n with
  | O => Err tt
  | S n =>
      let* bumped_in_amount := opt (checked_add in_amount bump) in
      let* out_amount := get_amount_out bumped_in_amount in
      if exact_out_amount <=? out_amount then Ok bumped_in_amount
      else let* bump := u_mul bump 10 in
           bump_loop n get_amount_out in_amount exact_out_amount bump
  end.

Definition converge_in_amount (in_amount exact_out_amount : Z)
    (get_amount_out : Z -> res unit Z) : res unit Z :=
  let* out_amount := get_amount_out in_amount in
  if exact_out_amount <=? out_amount then Ok in_amount else
  let* deficit := u_sub exact_out_amount out_amount in
  let* scaled := opt (checked_mul deficit in_amount) in
  let* bump := ceil_div scaled (Z.max out_amount 1) in
  bump_loop 6 get_amount_out in_amount exact_out_amount (Z.max bump 1).

(** ** Weighted pools *)
Record WeightedPoolRef : Type := mkWeightedPoolRef {
  w_reserves : btree WeightedTokenState;
  w_swap_fee : Z;
  w_version : WeightedPoolVersion;
}.

Definition weighted_get_amount_out (self : WeightedPoolRef) (out_token : H160)
    (inp : Z * H160) : res unit Z :=
  let '(in_amount, in_token) := inp in
  let* in_reserves := opt (bt_get (w_reserves self) in_token) in
  let* out_reserves := opt (bt_get (w_reserves self) out_token) in
  let* in_amount_minus_fees := res_ok (subtract_swap_fee_amount in_amount (w_swap_fee self)) in
  let calc_out_given_in :=
    match w_version self with
    | V0 => WeightedMath.calc_out_given_in
    | V3Plus => WeightedMath.calc_out_given_in_v3
    end in
  let* balance_in := res_ok (upscaled_balance (common in_reserves)) in
  let* balance_out := res_ok (upscaled_balance (common out_reserves)) in
  let* amount_in := res_ok (upscale (common in_reserves) in_amount_minus_fees) in
  let* out_amount := res_ok (calc_out_given_in balance_in (weight in_reserves)
    balance_out (weight out_reserves) amount_in) in
  res_ok (downscale_down (common out_reserves) out_amount).

Definition weighted_get_amount_in (self : WeightedPoolRef) (in_token : H160)
    (out : Z * H160) : res unit Z :=
  let '(out_amount, out_token) := out in
  let* in_reserves := opt (bt_get (w_reserves self) in_token) in
  let* out_reserves := opt (bt_get (w_reserves self) out_token) in
  let calc_in_given_out :=
    match w_version self with
    | V0 => WeightedMath.calc_in_given_out
    | V3Plus => WeightedMath.calc_in_given_out_v3
    end in
  let* balance_in := res_ok (upscaled_balance (common in_reserves)) in
  let* balance_out := res_ok (upscaled_balance (common out_reserves)) in
  let* amount_out := res_ok (upscale (common out_reserves) out_amount) in
  let* in_amount := res_ok (calc_in_given_out balance_in (weight in_reserves)
    balance_out (weight out_reserves) amount_out) in
  let* amount_in_before_fee := res_ok (downscale_up (common in_reserves) in_amount) in
  let* in_amount := res_ok (add_swap_fee_amount amount_in_before_fee (w_swap_fee self)) in
  converge_in_amount in_amount out_amount
    (fun x => weighted_get_amount_out self out_token (x, in_token)).

#[global] Instance weighted_pool_solvable : BaselineSolvable WeightedPoolRef := {
  get_amount_out := weighted_get_amount_out;
  get_amount_in := weighted_get_amount_in;
  gas_cost _ := WEIGHTED_SWAP_GAS_COST;
}.

(** ** Stable pools *)
Record StablePoolRef : Type := mkStablePoolRef {
  address : H160;
  s_reserves : btree TokenState;
  s_swap_fee : Z;
  amplification_parameter : AmplificationParameter;
}.

Record BalancesWithIndices : Type := mkBalancesWithIndices {
  token_index_in : nat;
  token_index_out : nat;
  balances : list Z;
}.

Definition reserves_without_bpt (self : StablePoolRef) : list (H160 * TokenState) :=
  filter (fun '(token, _) => token <> address self) (s_reserves self).

Definition upscale_balances_with_token_indices (self : StablePoolRef) (in_token out_token : H160)
  : res Error BalancesWithIndices :=
  rfold (fun st '(index, (token, balance)) =>
    let token_index_in := if token =? in_token then index else token_index_in st in
    let token_index_out := if token =? out_token then index else token_index_out st in
    let* b := upscaled_balance balance in
    Ok (mkBalancesWithIndices token_index_in token_index_out (balances st ++ [b])))
    (mkBalancesWithIndices 0 0 []) (imap pair (reserves_without_bpt self)).

Definition amplification_parameter_u256 (self : StablePoolRef) : res unit Z :=
  with_base (amplification_parameter self) StableMath.AMP_PRECISION.

Definition regular_swap_given_in (self : StablePoolRef) (out_token : H160) (inp : Z * H160)
  : res unit Z :=
  let '(in_amount, in_token) := inp in
  let* in_reserves := opt (bt_get (s_reserves self) in_token) in
  let* out_reserves := opt (bt_get (s_reserves self) out_token) in
  let* b := res_ok (upscale_balances_with_token_indices self in_token out_token) in
  let* in_amount_minus_fees := res_ok (subtract_swap_fee_amount in_amount (s_swap_fee self)) in
  let* amp := amplification_parameter_u256 self in
  let* amount_in := res_ok (upscale in_reserves in_amount_minus_fees) in
  let* out_amount := res_ok (fst (StableMath.calc_out_given_in amp
    (token_index_in b) (token_index_out b) amount_in (balances b))) in
  res_ok (downscale_down out_reserves out_amount).

Definition regular_swap_given_out (self : StablePoolRef) (in_token : H160) (out : Z * H160)
  : res unit Z :=
  let '(out_amount, out_token) := out in
  let* in_reserves := opt (bt_get (s_reserves self) in_token) in
  let* out_reserves := opt (bt_get (s_reserves self) out_token) in
  let* b := res_ok (upscale_balances_with_token_indices self in_token out_token) in
  let* amp := amplification_parameter_u256 self in
  let* amount_out := res_ok (upscale out_reserves out_amount) in
  let* in_amount := res_ok (fst (StableMath.calc_in_given_out amp
    (token_index_in b) (token_index_out b) amount_out (balances b))) in
  let* amount_in_before_fee := res_ok (downscale_up in_reserves in_amount) in
  res_ok (add_swap_fee_amount amount_in_before_fee (s_swap_fee self)).

Definition swap_with_bpt (self : StablePoolRef) : res unit Z := Err tt.

Definition stable_get_amount_out (self : StablePoolRef) (out_token : H160) (inp : Z * H160)
  : res unit Z :=
  if (inp.2 =? address self) || (out_token =? address self) then swap_with_bpt self
  else regular_swap_given_in self out_token inp.

Definition stable_get_amount_in (self : StablePoolRef) (in_token : H160) (out : Z * H160)
  : res unit Z :=
  if (in_token =? address self) || (out.2 =? address self) then swap_with_bpt self
  else
    let* in_amount := regular_swap_given_out self in_token out in
    converge_in_amount in_amount out.1 (fun x => stable_get_amount_out self out.2 (x, in_token)).

#[global] Instance stable_pool_solvable : BaselineSolvable StablePoolRef := {
  get_amount_out := stable_get_amount_out;
  get_amount_in := stable_get_amount_in;
  gas_cost _ := STABLE_SWAP_GAS_COST;
}.
End BalancerSwap.

(** The swaps of the tests, taken from mainnet transactions. *)
Section tests.
Import BalancerSwap.

Example downscale_test :
  let s := mkTokenState 0 (10 ^ 30) in
  downscale_up s 900546079866630330575 = Ok 900546080 /\
  downscale_down s 900546079866630330575 = Ok 900546079.
Proof. by vm_compute. Qed.

Example weighted_get_amount_out_test :
  weighted_get_amount_out (mkWeightedPoolRef
      [(21, mkWeightedTokenState (mkTokenState 1850304144768426873445489 (10 ^ 18)) (9 * 10 ^ 17));
       (42, mkWeightedTokenState (mkTokenState 95671347892391047965654 (10 ^ 18)) (10 ^ 17))]
      2000000000000000 V0) 21 (227937106828652254870, 42) = Ok 488192591864344551330.
Proof. vm_compute. reflexivity. Qed.

Example weighted_get_amount_in_test :
  weighted_get_amount_in (mkWeightedPoolRef
      [(21, mkWeightedTokenState (mkTokenState 60000000000000000 (10 ^ 18)) (5 * 10 ^ 17));
       (42, mkWeightedTokenState (mkTokenState 250000000 (10 ^ 30)) (5 * 10 ^ 17))]
      1000000000000000 V0) 21 (5000000, 42) = Ok 1225715511430411.
Proof. vm_compute. reflexivity. Qed.

Example stable_get_amount_out_test :
  stable_get_amount_out (mkStablePoolRef 0
      [(1, mkTokenState 40927687702846622465144342 (10 ^ 18));
       (2, mkTokenState 59448574675062 (10 ^ 30)); (3, mkTokenState 55199308926456 (10 ^ 30))]
      300000000000000 (mkAmplificationParameter 570000 1000)) 2 (1886982823746269817650, 1)
  = Ok 1887770905.
Proof. vm_compute. reflexivity. Qed.

Example stable_get_amount_in_test :
  stable_get_amount_in (mkStablePoolRef 0
      [(1, mkTokenState 34869494603218073631628580 (10 ^ 18));
       (2, mkTokenState 48176005970419 (10 ^ 30)); (3, mkTokenState 44564350355030 (10 ^ 30))]
      300000000000000 (mkAmplificationParameter 570000 1000)) 2 (900000000000000000000, 1)
  = Ok 900816325.
Proof. vm_compute. reflexivity. Qed.
End tests.

(** * Fees *)
Section fees.
Import BalancerSwap.

Lemma add_swap_fee_Ok amount fee a :
  u256 amount -> 0 <= fee ->
  add_swap_fee_amount amount fee = Ok a ->
  a = cdiv (amount * Bfp.ONE_18) (Bfp.ONE_18 - fee) /\ fee < Bfp.ONE_18 /\ u256 a.
Proof.
  intros Ha Hf. unfold add_swap_fee_amount. rewrite complement_eq by done. cbn [rbind].
  intros H. pose proof ONE_18_pos. assert (Bfp.ONE_18 <= U256_MAX) by closed.
  assert (Hc : u256 (Z.max (Bfp.ONE_18 - fee) 0)) by (unfold u256; lia).
  pose proof (div_up_u256 _ _ _ Ha Hc H) as Hu. apply div_up_Ok in H as (-> & Hne & _); [|done..].
  assert (HM : Z.max (Bfp.ONE_18 - fee) 0 = Bfp.ONE_18 - fee) by lia. rewrite HM in Hu |- *.
  split; [done|]. split; [lia|done].
Qed.

Lemma subtract_swap_fee_Ok amount fee r :
  u256 amount -> u256 fee ->
  subtract_swap_fee_amount amount fee = Ok r <->
  r = amount - cdiv (amount * fee) Bfp.ONE_18 /\ amount * fee <= U256_MAX /\
  cdiv (amount * fee) Bfp.ONE_18 <= amount.
Proof.
  intros Ha Hf. unfold subtract_swap_fee_amount. rewrite mul_up_eq by done.
  case_match; bool_to_prop; cbn [rbind]; [rewrite bfp_sub_Ok|split; [done|lia]]. naive_solver lia.
Qed.

Lemma subtract_swap_fee_returns amount fee :
  u256 amount -> u256 fee ->
  returns (fun r => 0 <= r <= amount) (subtract_swap_fee_amount amount fee).
Proof.
  intros Ha Hf. destruct (subtract_swap_fee_amount amount fee) as [r| |] eqn:Hr; [|done|].
  - apply subtract_swap_fee_Ok in Hr as (-> & _ & ?); [|done..].
    assert (0 <= amount * fee) by (unfold u256 in *; nia).
    pose proof (cdiv_nonneg (amount * fee) _ ONE_18_pos H0). cbn [returns]. lia.
  - unfold subtract_swap_fee_amount in Hr. rewrite mul_up_eq in Hr by done.
    case_match; [|done]. unfold Bfp.sub in Hr. cbn [rbind] in Hr.
    by destruct (checked_sub amount _).
Qed.

Lemma add_swap_fee_returns amount fee :
  u256 amount -> u256 fee -> returns u256 (add_swap_fee_amount amount fee).
Proof.
  intros Ha Hf. unfold add_swap_fee_amount. rewrite complement_eq by apply Hf. cbn [rbind].
  assert (Bfp.ONE_18 <= U256_MAX) by closed.
  eapply returns_mono; [apply div_up_returns; [done|]|naive_solver].
  unfold u256 in *. lia.
Qed.

(** Scaling a balance up and an amount below it down stays below. *)
Lemma downscale_of_upscaled b s x out d :
  0 <= b -> 0 < s -> 0 <= out -> x = b * s / Bfp.ONE_18 -> out <= x ->
  d = out * Bfp.ONE_18 / s -> 0 <= d <= b.
Proof.
  intros Hb Hs Hout -> Hx ->. pose proof ONE_18_pos. pose proof (fdiv_spec (b * s) _ H).
  split; [apply Z.div_pos; nia|]. apply Z.div_le_upper_bound; [done|]. nia.
Qed.
End fees.

(** * The search for an input amount *)
Section converge.
Import BalancerSwap.
Context (f : Z -> res unit Z) (in_amount exact : Z).

Lemma bump_loop_Ok n bump x :
  0 < bump -> bump_loop n f in_amount exact bump = Ok x ->
  exists k out, (k < n)%nat /\ x = in_amount + bump * 10 ^ Z.of_nat k /\ x <= U256_MAX /\
    f x = Ok out /\ exact <= out.
Proof.
  revert bump. induction n as [|n IH]; intros bump Hb Hl; [done|]. cbn [bump_loop] in Hl. inv_ok.
  apply checked_add_Some in Hv as [-> Hfit]. destruct (Z.leb_spec exact v0).
  - inv_ok. exists 0%nat, v0. split_and!; [lia|lia|done|done|done].
  - inv_ok. apply u_mul_Ok in Hv as [-> _]. apply IH in Hl as (k & out & Hk & Hx & Hout); [|lia].
    exists (Datatypes.S k), out. split_and!; [lia| |apply Hout..].
    rewrite Hx, Nat2Z.inj_succ, Z.pow_succ_r by lia. lia.
Qed.

Lemma converge_Ok x :
  u256 in_amount -> converge_in_amount in_amount exact f = Ok x ->
  u256 x /\ exists out, f x = Ok out /\ exact <= out.
Proof.
  intros Hin. unfold converge_in_amount. intros Hc. inv_ok. destruct (Z.leb_spec exact v).
  { inv_ok. eauto. }
  inv_ok. apply bump_loop_Ok in Hc as (k & out & _ & -> & Hx & Hf & Hle); [|lia].
  split; [|eauto]. assert (0 <= 10 ^ Z.of_nat k) by (apply Z.pow_nonneg; lia). unfold u256 in *. nia.
Qed.

(** No panic as long as the quotes only succeed on amounts that leave room for
    the multiplication by ten, and the scaled deficit leaves room for rounding. *)
Lemma bump_loop_returns n bump :
  (forall x, u256 x -> returns (fun _ => x * 10 <= U256_MAX) (f x)) ->
  0 <= in_amount -> 0 <= bump ->
  returns (fun _ => True) (bump_loop n f in_amount exact bump).
Proof.
  intros Hf Hin. revert bump. induction n as [|n IH]; intros bump Hb; [done|]. cbn [bump_loop].
  unfold checked_add. destruct (Z.leb_spec (in_amount + bump) U256_MAX); [|done].
  cbn [opt ok_or rbind].
  eapply returns_bind; [apply Hf; unfold u256; lia|]. intros out Hroom. cbn beta in Hroom.
  case_match; [done|]. unfold u_mul, checked_mul.
  destruct (Z.leb_spec (bump * 10) U256_MAX); [|lia]. cbn [opt_expect rbind]. apply IH. lia.
Qed.

Lemma converge_returns :
  (forall x, u256 x -> returns (fun out => x * 10 <= U256_MAX /\ 0 <= out) (f x)) ->
  u256 in_amount -> 0 <= exact -> exact * in_amount + exact <= U256_MAX ->
  returns (fun _ => True) (converge_in_amount in_amount exact f).
Proof.
  intros Hf Hin Hex Hroom. unfold converge_in_amount.
  eapply returns_bind; [by apply Hf|]. intros out [Hout Hnn].
  destruct (Z.leb_spec exact out); [done|].
  unfold u_sub, checked_sub. destruct (Z.leb_spec out exact); [|lia]. cbn [opt_expect rbind].
  eapply (returns_bind (fun s => 0 <= s <= exact * in_amount)).
  { unfold opt, checked_mul. case_match; [|done]. simpl. unfold u256 in *. nia. }
  intros s Hs. unfold ceil_div.
  assert (Hcd : checked_ceil_div s (Z.max out 1) = Some (cdiv s (Z.max out 1))).
  { apply checked_ceil_div_Some; [lia|]. split_and!; [done|lia|lia]. }
  rewrite Hcd. cbn [opt_expect rbind]. apply bump_loop_returns; [|apply Hin|lia].
  intros x Hx. eapply returns_mono; [by apply Hf|]. naive_solver.
Qed.
End converge.

(** * What the swaps return *)
Section pools.
Import BalancerSwap.

Definition token_wf (s : TokenState) : Prop := u256 (balance s) /\ u256 (scaling_factor s).

Lemma upscale_returns s a :
  u256 a -> token_wf s ->
  returns (fun c => c = a * scaling_factor s / Bfp.ONE_18 /\ u256 c /\
    a * scaling_factor s <= U256_MAX) (upscale s a).
Proof. intros Ha [_ Hs]. by apply mul_down_returns. Qed.

(** A factor of at least one leaves room to spare. *)
Lemma scaled_room s a :
  Bfp.ONE_18 <= scaling_factor s -> 0 <= a -> a * scaling_factor s <= U256_MAX -> a * 10 ^ 18 <= U256_MAX.
Proof. unfold Bfp.ONE_18. nia. Qed.

Lemma downscale_down_Ok s a d :
  downscale_down s a = Ok d -> d = a * Bfp.ONE_18 / scaling_factor s /\ scaling_factor s <> 0.
Proof. unfold downscale_down. rewrite div_down_Ok. naive_solver. Qed.

Definition weighted_wf (p : WeightedPoolRef) : Prop :=
  u256 (w_swap_fee p) /\
  forall t s, bt_get (w_reserves p) t = Some s -> token_wf (common s) /\ u256 (weight s).

Lemma weighted_out_returns p out_token a in_token :
  weighted_wf p -> u256 a ->
  returns (fun out => exists s, bt_get (w_reserves p) out_token = Some s /\
      0 <= out <= balance (common s))
    (weighted_get_amount_out p out_token (a, in_token)).
Proof.
  intros [Hfee Hres] Ha. unfold weighted_get_amount_out.
  destruct (bt_get (w_reserves p) in_token) as [si|] eqn:Hsi; [|done].
  destruct (bt_get (w_reserves p) out_token) as [so|] eqn:Hso; [|done]. cbn [opt ok_or rbind].
  destruct (Hres _ _ Hsi) as [Hti Hwi], (Hres _ _ Hso) as [Hto Hwo].
  eapply returns_bind; [by apply returns_res_ok, subtract_swap_fee_returns|]. intros am Ham.
  eapply returns_bind; [apply returns_res_ok, upscale_returns; [apply Hti|done]|]. intros bi (_ & Hbi & _).
  eapply returns_bind; [apply returns_res_ok, upscale_returns; [apply Hto|done]|].
  intros bo (Hbo' & Hbo & _).
  eapply returns_bind; [apply returns_res_ok, upscale_returns; [unfold u256 in *; lia|done]|].
  intros ai (_ & Hai & _).
  eapply (returns_bind (fun out => 0 <= out <= bo)).
  { apply returns_res_ok. destruct (w_version p).
    - eapply returns_mono; [by apply (calc_out_with_returns _ pow_up_spec)|]. naive_solver.
    - eapply returns_mono; [by apply (calc_out_with_returns _ pow_up_v3_spec)|]. naive_solver. }
  intros out Hout. apply returns_res_ok.
  destruct (downscale_down (common so) out) as [d| |] eqn:Hd; [|done|].
  - apply downscale_down_Ok in Hd as [-> Hne]. exists so. split; [done|].
    destruct Hto as [Hb Hs]. unfold u256 in *.
    eapply downscale_of_upscaled; [lia| |apply Hout|exact Hbo'|apply Hout|done]. lia.
  - unfold downscale_down in Hd. rewrite div_down_eq in Hd. repeat case_match; done.
Qed.
End pools.

(** * The balances and indices of a stable pool *)
Section indices.
Import BalancerSwap.
Context (in_token out_token : H160).

(** The body of the loop. *)
Definition index_step (st : BalancesWithIndices) (e : nat * (H160 * TokenState))
  : res Error BalancesWithIndices :=
  let '(index, (token, balance)) := e in
  let token_index_in := if token =? in_token then index else token_index_in st in
  let token_index_out := if token =? out_token then index else token_index_out st in
  let* b := upscaled_balance balance in
  Ok (mkBalancesWithIndices token_index_in token_index_out (balances st ++ [b])).

(** After the tokens [l]: one upscaled balance each, and the position of either
    token if it is among them. *)
Definition indexed (l : list (H160 * TokenState)) (st : BalancesWithIndices) : Prop :=
  Forall2 (fun e b => upscaled_balance e.2 = Ok b) l (balances st) /\
  (forall i s, l !! i = Some (in_token, s) -> token_index_in st = i) /\
  (forall i s, l !! i = Some (out_token, s) -> token_index_out st = i).

Lemma position_snoc (l : list (H160 * TokenState)) t x s' i j k :
  NoDup (map fst (l ++ [(x, s')])) ->
  (forall i s, l !! i = Some (t, s) -> k = i) ->
  (exists s, (l ++ [(x, s')]) !! i = Some (t, s)) ->
  j = (if x =? t then length l else k) -> j = i.
Proof.
  intros Hnd Hk [s Hi] ->. apply lookup_app_Some in Hi as [Hi|[Hle Hi]].
  - destruct (Z.eqb_spec x t) as [->|]; [|by eapply Hk].
    rewrite map_app in Hnd. apply NoDup_app in Hnd as (_ & Hnd & _). exfalso.
    apply (Hnd t); [|by left]. apply list_elem_of_fmap. exists (t, s).
    split; [done|]. by eapply list_elem_of_lookup_2.
  - apply list_lookup_singleton_Some in Hi as [Hi Heq]. simplify_eq. rewrite Z.eqb_refl. lia.
Qed.

Lemma index_loop l st :
  NoDup (map fst l) ->
  rfold index_step (mkBalancesWithIndices 0 0 []) (imap pair l) = Ok st -> indexed l st.
Proof.
  revert st. induction l as [|[x s'] l IH] using rev_ind; intros st Hnd Hr.
  { simpl in Hr. simplify_eq. split; [apply Forall2_nil_2|]. split; intros i s Hs; by rewrite lookup_nil in Hs. }
  rewrite imap_app, rfold_app in Hr. cbn [imap rfold] in Hr. inv_ok.
  assert (Hnd' : NoDup (map fst l)) by (rewrite map_app in Hnd; by apply NoDup_app in Hnd as [? _]).
  destruct (IH _ Hnd' Hv) as (Hb & Hi & Ho). unfold index_step in Hv0. inv_ok.
  rewrite Nat.add_0_r in *. split; [|split]; cbn [balances token_index_in token_index_out].
  - apply Forall2_app; [done|]. by constructor.
  - intros i s Hs. apply (position_snoc l in_token x s' i _ (token_index_in v)); [done..|by exists s|done].
  - intros i s Hs. apply (position_snoc l out_token x s' i _ (token_index_out v)); [done..|by exists s|done].
Qed.
End indices.

Section stable_pools.
Import BalancerSwap.

Lemma upscale_balances_Ok p tin tout b :
  bt_wf (s_reserves p) ->
  upscale_balances_with_token_indices p tin tout = Ok b ->
  indexed tin tout (reserves_without_bpt p) b.
Proof.
  intros Hwf Hb. apply index_loop; [|exact Hb].
  unfold bt_wf, reserves_without_bpt in *. clear Hb.
  induction (s_reserves p) as [|[t s] l IH]; [constructor|]. cbn [map fst] in Hwf.
  apply NoDup_cons in Hwf as [Ht Hl]. rewrite filter_cons. case_decide; [|auto].
  cbn [map fst]. apply NoDup_cons. split; [|auto].
  intros [[t' s'] [-> Hin]]%list_elem_of_fmap. apply list_elem_of_filter in Hin as [_ Hin].
  apply Ht. apply list_elem_of_fmap. by exists (t', s').
Qed.

(** A swapped token has its upscaled balance at its index. *)
Lemma indexed_lookup p tin tout b t s :
  bt_wf (s_reserves p) -> upscale_balances_with_token_indices p tin tout = Ok b ->
  bt_get (s_reserves p) t = Some s -> t <> address p ->
  exists i v, reserves_without_bpt p !! i = Some (t, s) /\ upscaled_balance s = Ok v /\
    balances b !! i = Some v /\
    (t = tin -> token_index_in b = i) /\ (t = tout -> token_index_out b = i).
Proof.
  intros Hwf Hb Hs Hne. destruct (upscale_balances_Ok _ _ _ _ Hwf Hb) as (Hall & Hin & Hout).
  assert (Hel : (t, s) ∈ reserves_without_bpt p).
  { apply list_elem_of_filter. split; [done|]. by apply bt_get_elem. }
  apply list_elem_of_lookup in Hel as [i Hi].
  destruct (Forall2_lookup_l _ _ _ _ _ Hall Hi) as (v & Hv & Hu).
  exists i, v. split_and!; [done|done|done| |]; intros ->; eauto.
Qed.

Definition stable_wf (p : StablePoolRef) : Prop :=
  bt_wf (s_reserves p) /\ u256 (s_swap_fee p) /\
  (forall t s, (t, s) ∈ s_reserves p -> token_wf s) /\
  Z.of_nat (length (s_reserves p)) < U256_MAX /\
  u256 (factor (amplification_parameter p)) /\ u256 (precision (amplification_parameter p)) /\
  precision (amplification_parameter p) <> 0.

Lemma amplification_returns p :
  stable_wf p -> returns u256 (amplification_parameter_u256 p).
Proof.
  intros (_ & _ & _ & _ & Hf & Hp & Hne). unfold amplification_parameter_u256, with_base.
  eapply (returns_bind u256).
  - apply returns_ok_or. intros c. apply checked_mul_u256; [done|].
    apply u256_small. unfold StableMath.AMP_PRECISION. lia.
  - intros m Hm. unfold u_div, checked_div. destruct (Z.eqb_spec (precision (amplification_parameter p)) 0); [done|].
    cbn [opt_expect returns]. apply div_u256; [done|]. unfold u256 in Hp. lia.
Qed.

(** The loop neither panics nor leaves the range. *)
Lemma upscale_balances_returns p tin tout :
  stable_wf p ->
  returns (fun b => Forall u256 (balances b) /\ Z.of_nat (length (balances b)) < U256_MAX)
    (upscale_balances_with_token_indices p tin tout).
Proof.
  intros (Hwf & _ & Htok & Hlen & _).
  destruct (upscale_balances_with_token_indices p tin tout) as [b| |] eqn:Hb; [|done|].
  - cbn [returns]. destruct (upscale_balances_Ok _ _ _ _ Hwf Hb) as (Hall & _ & _).
    assert (Hsub : forall e, e ∈ reserves_without_bpt p -> e ∈ s_reserves p).
    { intros e He. by apply list_elem_of_filter in He as [_ He]. }
    split.
    + apply Forall_forall. intros v Hv. apply list_elem_of_lookup in Hv as [i Hi].
      destruct (Forall2_lookup_r _ _ _ _ _ Hall Hi) as ([t s] & Hts & Hu).
      apply list_elem_of_lookup_2, Hsub, Htok in Hts as Hs. cbn [snd] in Hu.
      pose proof (upscale_returns s (balance s) (proj1 Hs) Hs) as Hr. unfold upscaled_balance in Hu.
      rewrite Hu in Hr. apply Hr.
    + rewrite <- (Forall2_length _ _ _ Hall). unfold reserves_without_bpt.
      pose proof (length_filter (fun '(t, _) => t <> address p) (s_reserves p)). lia.
  - exfalso. assert (Hr : returns (fun _ => True) (upscale_balances_with_token_indices p tin tout));
      [|by rewrite Hb in Hr].
    apply rfold_returns; [done|]. intros st [i [t s]] Hin _.
    apply elem_of_lookup_imap in Hin as (j & e & [= -> <-] & He).
    apply list_elem_of_lookup_2, list_elem_of_filter in He as [_ He]. apply Htok in He.
    eapply returns_bind; [apply upscale_returns; [apply He|done]|]. done.
Qed.
End stable_pools.

(** * Stable swaps *)
Section stable_swaps.
Import BalancerSwap.

Lemma bt_get_wf p t s :
  stable_wf p -> bt_get (s_reserves p) t = Some s -> token_wf s.
Proof. intros (_ & _ & Htok & _) Hs. by apply (Htok t), bt_get_elem. Qed.

Lemma regular_given_in_returns p out_token a in_token :
  stable_wf p -> u256 a -> in_token <> address p -> out_token <> address p ->
  returns (fun out => exists s, bt_get (s_reserves p) out_token = Some s /\ 0 <= out <= balance s)
    (regular_swap_given_in p out_token (a, in_token)).
Proof.
  intros Hp Ha Hin Hout. destruct (Hp) as (Hwf & Hfee & _). unfold regular_swap_given_in.
  destruct (bt_get (s_reserves p) in_token) as [si|] eqn:Hsi; [|done].
  destruct (bt_get (s_reserves p) out_token) as [so|] eqn:Hso; [|done]. cbn [opt ok_or rbind].
  pose proof (bt_get_wf _ _ _ Hp Hsi) as Hti. pose proof (bt_get_wf _ _ _ Hp Hso) as Hto.
  pose proof (upscale_balances_returns p in_token out_token Hp) as Hbr.
  destruct (upscale_balances_with_token_indices p in_token out_token) as [b| |] eqn:Hb;
    [|done|done]. cbn [returns res_ok rbind] in *. destruct Hbr as [Hbs Hlen].
  destruct (indexed_lookup _ _ _ _ _ _ Hwf Hb Hsi Hin) as (i & vi & _ & _ & Hvi & Hii & _).
  destruct (indexed_lookup _ _ _ _ _ _ Hwf Hb Hso Hout) as (j & vj & _ & Huj & Hvj & _ & Hjj).
  rewrite (Hii eq_refl), (Hjj eq_refl).
  eapply returns_bind; [by apply returns_res_ok, subtract_swap_fee_returns|]. intros am Ham. cbn beta in Ham.
  eapply returns_bind; [by apply amplification_returns|]. intros amp Hamp. cbn beta in Hamp.
  eapply returns_bind; [apply returns_res_ok, upscale_returns; [unfold u256 in *; lia|done]|].
  intros ai (_ & Hai & _).
  pose proof (calc_out_safe amp (balances b) i j vi vj ai Hamp Hbs Hlen Hvi Hvj Hai) as Hsafe.
  destruct (StableMath.calc_out_given_in amp i j ai (balances b)) as [[out| |] bs'];
    cbn [fst res_ok rbind]; [|done|naive_solver].
  destruct Hsafe as [_ Hsafe]. destruct (Hsafe out eq_refl) as [_ Hrange]. apply returns_res_ok.
  destruct (downscale_down so out) as [d| |] eqn:Hd; [|done|].
  - apply downscale_down_Ok in Hd as [-> Hne]. exists so. split; [done|].
    pose proof (upscale_returns so (balance so) (proj1 Hto) Hto) as Hr.
    unfold upscaled_balance in Huj. rewrite Huj in Hr. destruct Hr as (Hvj' & _ & _).
    destruct Hto as [Hbal Hsf]. unfold u256 in *.
    eapply downscale_of_upscaled; [lia| |apply Hrange|exact Hvj'|lia|done]. lia.
  - unfold downscale_down in Hd. rewrite div_down_eq in Hd. repeat case_match; done.
Qed.

Lemma stable_out_returns p out_token a in_token :
  stable_wf p -> u256 a ->
  returns (fun out => exists s, bt_get (s_reserves p) out_token = Some s /\ 0 <= out <= balance s)
    (stable_get_amount_out p out_token (a, in_token)).
Proof.
  intros Hp Ha. unfold stable_get_amount_out, swap_with_bpt. cbn [snd].
  destruct (Z.eqb_spec in_token (address p)); [done|].
  destruct (Z.eqb_spec out_token (address p)); [done|]. cbn [orb].
  by apply regular_given_in_returns.
Qed.

End stable_swaps.

(** * The inputs computed before the search *)
Section estimates.
Import BalancerSwap.

Definition weighted_in_estimate (self : WeightedPoolRef) (in_token : H160)
    (out : Z * H160) : res unit Z :=
  let '(out_amount, out_token) := out in
  let* in_reserves := opt (bt_get (w_reserves self) in_token) in
  let* out_reserves := opt (bt_get (w_reserves self) out_token) in
  let* balance_in := res_ok (upscaled_balance (common in_reserves)) in
  let* balance_out := res_ok (upscaled_balance (common out_reserves)) in
  let* amount_out := res_ok (upscale (common out_reserves) out_amount) in
  let* in_amount := res_ok (match w_version self with
    | V0 => WeightedMath.calc_in_given_out
    | V3Plus => WeightedMath.calc_in_given_out_v3
    end balance_in (weight in_reserves) balance_out (weight out_reserves) amount_out) in
  let* amount_in_before_fee := res_ok (downscale_up (common in_reserves) in_amount) in
  res_ok (add_swap_fee_amount amount_in_before_fee (w_swap_fee self)).

Lemma weighted_in_eq p in_token out_amount out_token :
  weighted_get_amount_in p in_token (out_amount, out_token) =
  let* in_amount := weighted_in_estimate p in_token (out_amount, out_token) in
  converge_in_amount in_amount out_amount
    (fun x => weighted_get_amount_out p out_token (x, in_token)).
Proof.
  unfold weighted_get_amount_in, weighted_in_estimate.
  repeat match goal with
  | |- rbind ?m _ = _ => destruct m; cbn [rbind]; [|done|done]
  end. done.
Qed.

Lemma downscale_up_returns s a : u256 a -> token_wf s -> returns u256 (downscale_up s a).
Proof. intros Ha [_ Hs]. eapply returns_mono; [by apply div_up_returns|]. naive_solver. Qed.

Lemma weighted_in_estimate_returns p in_token out_amount out_token :
  weighted_wf p -> u256 out_amount ->
  returns u256 (weighted_in_estimate p in_token (out_amount, out_token)).
Proof.
  intros [Hfee Hres] Hout. unfold weighted_in_estimate.
  destruct (bt_get (w_reserves p) in_token) as [si|] eqn:Hsi; [|done].
  destruct (bt_get (w_reserves p) out_token) as [so|] eqn:Hso; [|done]. cbn [opt ok_or rbind].
  destruct (Hres _ _ Hsi) as [Hti Hwi], (Hres _ _ Hso) as [Hto Hwo].
  eapply returns_bind; [apply returns_res_ok, upscale_returns; [apply Hti|done]|]. intros bi (_ & Hbi & _).
  eapply returns_bind; [apply returns_res_ok, upscale_returns; [apply Hto|done]|]. intros bo (_ & Hbo & _).
  eapply returns_bind; [by apply returns_res_ok, upscale_returns|]. intros ao (_ & Hao & _).
  eapply (returns_bind u256).
  { apply returns_res_ok. destruct (w_version p).
    - by apply (calc_in_with_returns _ pow_up_spec).
    - by apply (calc_in_with_returns _ pow_up_v3_spec). }
  intros ia Hia. eapply returns_bind; [by apply returns_res_ok, downscale_up_returns|].
  intros before Hbefore. by apply returns_res_ok, add_swap_fee_returns.
Qed.

Lemma regular_given_out_returns p in_token out_amount out_token :
  stable_wf p -> u256 out_amount -> in_token <> address p -> out_token <> address p ->
  returns u256 (regular_swap_given_out p in_token (out_amount, out_token)).
Proof.
  intros Hp Ha Hin Hout. destruct (Hp) as (Hwf & Hfee & _). unfold regular_swap_given_out.
  destruct (bt_get (s_reserves p) in_token) as [si|] eqn:Hsi; [|done].
  destruct (bt_get (s_reserves p) out_token) as [so|] eqn:Hso; [|done]. cbn [opt ok_or rbind].
  pose proof (bt_get_wf _ _ _ Hp Hsi) as Hti. pose proof (bt_get_wf _ _ _ Hp Hso) as Hto.
  pose proof (upscale_balances_returns p in_token out_token Hp) as Hbr.
  destruct (upscale_balances_with_token_indices p in_token out_token) as [b| |] eqn:Hb;
    [|done|done]. cbn [returns res_ok rbind] in *. destruct Hbr as [Hbs Hlen].
  destruct (indexed_lookup _ _ _ _ _ _ Hwf Hb Hsi Hin) as (i & vi & _ & _ & Hvi & Hii & _).
  destruct (indexed_lookup _ _ _ _ _ _ Hwf Hb Hso Hout) as (j & vj & _ & _ & Hvj & _ & Hjj).
  rewrite (Hii eq_refl), (Hjj eq_refl).
  eapply returns_bind; [by apply amplification_returns|]. intros amp Hamp. cbn beta in Hamp.
  eapply returns_bind; [by apply returns_res_ok, upscale_returns|]. intros ao (_ & Hao & _).
  pose proof (calc_in_safe amp (balances b) i j vi vj ao Hamp Hbs Hlen Hvi Hvj Hao) as Hsafe.
  destruct (StableMath.calc_in_given_out amp i j ao (balances b)) as [[ia| |] bs'];
    cbn [fst res_ok rbind]; [|done|naive_solver].
  destruct Hsafe as [_ Hsafe]. destruct (Hsafe ia eq_refl) as [_ Hia].
  eapply returns_bind; [apply returns_res_ok, downscale_up_returns; [unfold u256; lia|done]|].
  intros before Hbefore. by apply returns_res_ok, add_swap_fee_returns.
Qed.
End estimates.

(** * The promise of the trait *)
#[global] Program Instance weighted_covering : Covering BalancerSwap.WeightedPoolRef := {
  well_formed := weighted_wf;
}.
Next Obligation.
  intros p in_token out_amount out_token a Hp Hout.
  cbn [get_amount_in get_amount_out BalancerSwap.weighted_pool_solvable]. rewrite weighted_in_eq.
  intros (x & Hx & Hc)%rbind_Ok.
  pose proof (returns_Ok _ _ _ (weighted_in_estimate_returns p in_token out_amount out_token Hp Hout) Hx).
  exact (converge_Ok _ _ _ _ H Hc).
Qed.

#[global] Program Instance stable_covering : Covering BalancerSwap.StablePoolRef := {
  well_formed := stable_wf;
}.
Next Obligation.
  intros p in_token out_amount out_token a Hp Hout.
  cbn [get_amount_in get_amount_out BalancerSwap.stable_pool_solvable].
  unfold BalancerSwap.stable_get_amount_in. cbn [fst snd].
  destruct (Z.eqb_spec in_token (BalancerSwap.address p)); [done|].
  destruct (Z.eqb_spec out_token (BalancerSwap.address p)); [done|]. cbn [orb].
  intros (x & Hx & Hc)%rbind_Ok.
  pose proof (returns_Ok _ _ _ (regular_given_out_returns p in_token out_amount out_token
    Hp Hout ltac:(done) ltac:(done)) Hx).
  exact (converge_Ok _ _ _ _ H Hc).
Qed.

(** The search can panic: its arithmetic is only partly checked. With quotes
    that keep failing to buy enough, the unchecked [bump *= 10] overflows. *)
Lemma converge_in_amount_can_panic :
  BalancerSwap.converge_in_amount 2 (U256_MAX / 4) (fun _ => Ok 0) = Panic.
Proof. vm_compute. reflexivity. Qed.

(** * No panic over real pools *)
Section panics.
Import BalancerSwap.

(** Quotes only succeed on amounts that survive the scaling. *)
Lemma weighted_out_room p out_token a in_token :
  weighted_wf p -> (forall t s, bt_get (w_reserves p) t = Some s -> Bfp.ONE_18 <= scaling_factor (common s)) ->
  w_swap_fee p <= Bfp.ONE_18 / 2 -> u256 a ->
  returns (fun out => a * 10 <= U256_MAX /\ 0 <= out) (weighted_get_amount_out p out_token (a, in_token)).
Proof.
  intros Hp Hsf Hfee Ha. pose proof (weighted_out_returns p out_token a in_token Hp Ha) as Hr.
  destruct (weighted_get_amount_out p out_token (a, in_token)) as [out| |] eqn:Ho; [|done|done].
  destruct Hr as (s & _ & Hout). split; [|lia]. destruct Hp as [Hf _].
  unfold weighted_get_amount_out in Ho. inv_ok.
  apply subtract_swap_fee_Ok in Hv1 as (-> & Hprod & _); [|done..].
  unfold upscale in Hv4. apply mul_down_Ok in Hv4 as [_ Hfit]. specialize (Hsf _ _ Hv).
  pose proof ONE_18_pos. pose proof (cdiv_spec (a * w_swap_fee p) _ H) as Hcd.
  set (fee := cdiv (a * w_swap_fee p) Bfp.ONE_18) in *. set (sf := scaling_factor (common v)) in *.
  assert (Hhalf : w_swap_fee p <= 5 * 10 ^ 17) by exact Hfee.
  assert (H1 : a * w_swap_fee p <= a * (5 * 10 ^ 17)).
  { apply Z.mul_le_mono_nonneg_l; [apply Ha|exact Hhalf]. }
  assert (H2 : (a - fee) * 10 ^ 18 <= (a - fee) * sf).
  { apply Z.mul_le_mono_nonneg_l; [|exact Hsf]. unfold Bfp.ONE_18, u256 in *. lia. }
  assert (H3 : 10 ^ 30 <= U256_MAX) by closed. unfold Bfp.ONE_18 in *. lia.
Qed.
End panics.

(** * Properties *)

(** Swap fees round-trip: whatever the fee below one, subtracting the fee
    from an amount it was added to gives back exactly the original amount,
    although both steps round (the addition up, the fee taken up). *)
Theorem swap_fee_roundtrip (amount fee with_fee : Z) :
  u256 amount -> u256 fee ->
  BalancerSwap.add_swap_fee_amount amount fee = Ok with_fee ->
  with_fee * fee <= U256_MAX ->
  BalancerSwap.subtract_swap_fee_amount with_fee fee = Ok amount.
Proof.
  intros Ha Hf Hadd Hfit. apply add_swap_fee_Ok in Hadd as (Hw & Hlt & Hu); [|done|apply Hf].
  apply subtract_swap_fee_Ok; [done..|]. pose proof ONE_18_pos as H18.
  pose proof (cdiv_spec (amount * Bfp.ONE_18) (Bfp.ONE_18 - fee) ltac:(lia)) as H1.
  rewrite <- Hw in H1.
  assert (Hc : with_fee - amount = cdiv (with_fee * fee) Bfp.ONE_18).
  { apply cdiv_unique; [done|]. unfold u256 in *. lia. }
  rewrite <- Hc. unfold u256 in *. lia.
Qed.

Lemma swap_fee_roundtrip_witness :
  BalancerSwap.subtract_swap_fee_amount 1003009027081243732 3000000000000000 = Ok (10 ^ 18).
Proof.
  apply (swap_fee_roundtrip (10 ^ 18) 3000000000000000 1003009027081243732);
    [split; closed|split; closed|vm_compute; reflexivity|closed].
Defined.

(** A Balancer pool never quotes more than it holds: over any 256-bit
    balances, factors, weights, fees and input amounts, quoting a sale over a
    weighted pool (either version) or a stable pool does not panic, and the
    amount quoted, after scaling up, the pool's mathematics and scaling down,
    is at most the pool's balance of the output token. *)
Theorem balancer_out_within_reserves (w : BalancerSwap.WeightedPoolRef)
    (s : BalancerSwap.StablePoolRef) (in_token out_token : H160) (amount : Z) :
  weighted_wf w -> stable_wf s -> u256 amount ->
  returns (fun out => exists t, bt_get (BalancerSwap.w_reserves w) out_token = Some t /\
      0 <= out <= BalancerSwap.balance (BalancerSwap.common t))
    (BalancerSwap.weighted_get_amount_out w out_token (amount, in_token)) /\
  returns (fun out => exists t, bt_get (BalancerSwap.s_reserves s) out_token = Some t /\
      0 <= out <= BalancerSwap.balance t)
    (BalancerSwap.stable_get_amount_out s out_token (amount, in_token)).
Proof. intros. split; [by apply weighted_out_returns|by apply stable_out_returns]. Qed.

(** C34: the input amount a Balancer pool quotes for a purchase really buys it:
    when [get_amount_in] of a weighted or a stable pool returns an amount,
    [get_amount_out] on that amount returns at least the output asked for,
    although the mathematics alone is off by rounding in either direction. *)
Theorem balancer_amount_in_covers (w : BalancerSwap.WeightedPoolRef)
    (s : BalancerSwap.StablePoolRef) (in_token out_token : H160) (out_amount : Z) :
  weighted_wf w -> stable_wf s -> u256 out_amount ->
  (forall x, BalancerSwap.weighted_get_amount_in w in_token (out_amount, out_token) = Ok x ->
    u256 x /\ exists out, BalancerSwap.weighted_get_amount_out w out_token (x, in_token) = Ok out /\
      out_amount <= out) /\
  (forall x, BalancerSwap.stable_get_amount_in s in_token (out_amount, out_token) = Ok x ->
    u256 x /\ exists out, BalancerSwap.stable_get_amount_out s out_token (x, in_token) = Ok out /\
      out_amount <= out).
Proof.
  intros Hw Hs Hout. split; intros x Hx.
  - exact (in_covers_out w in_token out_amount out_token x Hw Hout Hx).
  - exact (in_covers_out s in_token out_amount out_token x Hs Hout Hx).
Qed.

(** Quoting a purchase over a weighted pool whose factors are at least one
    and whose fee is at most one half does not panic, provided the product of
    the output asked for and the first estimate of the input leaves the room
    of one rounding: the unchecked [bump *= 10] and [ceil_div] of the search
    cannot overflow, because an amount large enough for that is not quoted. *)
Theorem weighted_amount_in_never_panics (p : BalancerSwap.WeightedPoolRef)
    (in_token out_token : H160) (out_amount : Z) :
  weighted_wf p -> u256 out_amount ->
  (forall t s, bt_get (BalancerSwap.w_reserves p) t = Some s ->
    Bfp.ONE_18 <= BalancerSwap.scaling_factor (BalancerSwap.common s)) ->
  BalancerSwap.w_swap_fee p <= Bfp.ONE_18 / 2 ->
  (forall x, weighted_in_estimate p in_token (out_amount, out_token) = Ok x ->
    out_amount * x + out_amount <= U256_MAX) ->
  BalancerSwap.weighted_get_amount_in p in_token (out_amount, out_token) <> Panic.
Proof.
  intros Hp Hout Hsf Hfee Hroom. rewrite weighted_in_eq.
  pose proof (weighted_in_estimate_returns p in_token out_amount out_token Hp Hout) as Hest.
  destruct (weighted_in_estimate p in_token (out_amount, out_token)) as [x| |]; [|done|done].
  cbn [returns rbind] in *. eapply returns_panic_free. apply converge_returns;
    [|done|apply Hout|by apply Hroom].
  intros y Hy. by apply weighted_out_room.
Qed.

(** The balances of a stable pool and the two indices agree: the pool's own
    token is skipped, every other reserve contributes its upscaled balance in
    order, and the index found for a token of the pool is the position of its
    balance. *)
Theorem stable_indices_select_balances (p : BalancerSwap.StablePoolRef) (tin tout : H160)
    (b : BalancerSwap.BalancesWithIndices) (s_in s_out : BalancerSwap.TokenState) :
  bt_wf (BalancerSwap.s_reserves p) ->
  BalancerSwap.upscale_balances_with_token_indices p tin tout = Ok b ->
  bt_get (BalancerSwap.s_reserves p) tin = Some s_in -> tin <> BalancerSwap.address p ->
  bt_get (BalancerSwap.s_reserves p) tout = Some s_out -> tout <> BalancerSwap.address p ->
  Forall2 (fun e v => BalancerSwap.upscaled_balance e.2 = Ok v)
    (BalancerSwap.reserves_without_bpt p) (BalancerSwap.balances b) /\
  (forall e, e ∈ BalancerSwap.reserves_without_bpt p -> e.1 <> BalancerSwap.address p) /\
  (exists v, BalancerSwap.balances b !! BalancerSwap.token_index_in b = Some v /\
    BalancerSwap.upscaled_balance s_in = Ok v) /\
  (exists v, BalancerSwap.balances b !! BalancerSwap.token_index_out b = Some v /\
    BalancerSwap.upscaled_balance s_out = Ok v).
Proof.
  intros Hwf Hb Hin Hni Hout Hno.
  destruct (upscale_balances_Ok _ _ _ _ Hwf Hb) as (Hall & _ & _).
  destruct (indexed_lookup _ _ _ _ _ _ Hwf Hb Hin Hni) as (i & vi & _ & Hui & Hvi & Hii & _).
  destruct (indexed_lookup _ _ _ _ _ _ Hwf Hb Hout Hno) as (j & vj & _ & Huj & Hvj & _ & Hjj).
  split; [exact Hall|]. rewrite (Hii eq_refl), (Hjj eq_refl). split; [|split; eauto].
  intros [t s] He. by apply list_elem_of_filter in He as [He _].
Qed.

(** The pools of the tests, for the witnesses. *)
Section witnesses.
Import BalancerSwap.
Let weighted_pool : WeightedPoolRef := mkWeightedPoolRef
  [(21, mkWeightedTokenState (mkTokenState 60000000000000000 (10 ^ 18)) (5 * 10 ^ 17));
   (42, mkWeightedTokenState (mkTokenState 250000000 (10 ^ 30)) (5 * 10 ^ 17))]
  1000000000000000 V0.
Let stable_pool : StablePoolRef := mkStablePoolRef 42
  [(21, mkTokenState 34869494603218073631628580 (10 ^ 18));
   (42, mkTokenState 48176005970419 (10 ^ 30)); (84, mkTokenState 44564350355030 (10 ^ 30))]
  300000000000000 (mkAmplificationParameter 570000 1000).

Ltac small := split; closed.

Lemma weighted_pool_wf : weighted_wf weighted_pool.
Proof.
  split; [small|]. intros t s Hs%bt_get_elem. cbn [w_reserves weighted_pool] in Hs.
  repeat (apply elem_of_cons in Hs as [[= -> ->]|Hs]; [split; [split; small|small]|]).
  by apply elem_of_nil in Hs.
Qed.

Lemma stable_pool_wf : stable_wf stable_pool.
Proof.
  split; [|split; [small|split; [|split; [closed|split; [small|split; [small|closed]]]]]].
  - repeat (apply NoDup_cons; split; [set_solver|]). constructor.
  - intros t s Hs. cbn [s_reserves stable_pool] in Hs.
    repeat (apply elem_of_cons in Hs as [[= -> ->]|Hs]; [split; small|]). by apply elem_of_nil in Hs.
Qed.

Lemma balancer_out_within_reserves_witness :
  returns (fun out => exists t, bt_get (w_reserves weighted_pool) 42 = Some t /\
      0 <= out <= balance (common t)) (weighted_get_amount_out weighted_pool 42 (10 ^ 15, 21)) /\
  returns (fun out => exists t, bt_get (s_reserves stable_pool) 42 = Some t /\
      0 <= out <= balance t) (stable_get_amount_out stable_pool 42 (10 ^ 15, 21)).
Proof.
  apply (balancer_out_within_reserves weighted_pool stable_pool 21 42 (10 ^ 15)
    weighted_pool_wf stable_pool_wf). small.
Defined.

Lemma balancer_amount_in_covers_witness :
  (forall x, weighted_get_amount_in weighted_pool 21 (5000000, 42) = Ok x ->
    u256 x /\ exists out, weighted_get_amount_out weighted_pool 42 (x, 21) = Ok out /\ 5000000 <= out) /\
  (forall x, stable_get_amount_in stable_pool 21 (5000000, 42) = Ok x ->
    u256 x /\ exists out, stable_get_amount_out stable_pool 42 (x, 21) = Ok out /\ 5000000 <= out).
Proof.
  apply (balancer_amount_in_covers weighted_pool stable_pool 21 42 5000000
    weighted_pool_wf stable_pool_wf). small.
Defined.

Lemma weighted_amount_in_never_panics_witness :
  weighted_get_amount_in weighted_pool 21 (5000000, 42) <> Panic.
Proof.
  apply (weighted_amount_in_never_panics weighted_pool 21 42 5000000 weighted_pool_wf).
  - small.
  - intros t s Hs%bt_get_elem. cbn [w_reserves weighted_pool] in Hs.
    repeat (apply elem_of_cons in Hs as [[= -> ->]|Hs]; [closed|]). by apply elem_of_nil in Hs.
  - closed.
  - intros x Hx. vm_compute in Hx. injection Hx as <-. closed.
Defined.

Lemma stable_indices_select_balances_witness :
  let b := mkBalancesWithIndices 0 1 [34869494603218073631628580; 44564350355030 * 10 ^ 12] in
  Forall2 (fun e v => upscaled_balance e.2 = Ok v) (reserves_without_bpt stable_pool) (balances b) /\
  (forall e, e ∈ reserves_without_bpt stable_pool -> e.1 <> address stable_pool) /\
  (exists v, balances b !! token_index_in b = Some v /\
    upscaled_balance (mkTokenState 34869494603218073631628580 (10 ^ 18)) = Ok v) /\
  (exists v, balances b !! token_index_out b = Some v /\
    upscaled_balance (mkTokenState 44564350355030 (10 ^ 30)) = Ok v).
Proof.
  apply (stable_indices_select_balances stable_pool 21 84).
  - apply stable_pool_wf.
  - vm_compute. reflexivity.
  - reflexivity.
  - closed.
  - reflexivity.
  - closed.
Defined.
End witnesses.
