(* ===== verification/RateLimit.v ===== *)
(** The rate limiter: crates/rate-limit/src/lib.rs.

    [Strategy] and its transitions, and the limiter as a system of concurrent
    tasks: between the check that lets a task start and the response that
    updates the strategy the lock is released, so other tasks interleave.
    Durations and instants are in nanoseconds; an [Instant] is a point of an
    unbounded clock (its representation is the platform's). [powf], whose precision Rust leaves unspecified, is a parameter. *)
From Stdlib Require Import ZArith Lia.
From Stdlib Require Import SpecFloat.
From stdpp Require Import prelude gmap.
From S2P Require Import Prelude Floats.

Open Scope Z_scope.
Open Scope rust_scope.

(** * std::time::Duration *)
Module Duration.
Definition NANOS_PER_SEC : Z := 1000000000.
Definition MAX_SECS : Z := 2 ^ 64.
Definition as_secs_f64 (d : Z) : F64.f64 :=
  F64.add (F64.of_Z (d / NANOS_PER_SEC))
    (F64.div (F64.of_Z (d mod NANOS_PER_SEC)) (F64.of_Z NANOS_PER_SEC)).

(** The nearest integer to [n / d], ties to even. *)
Definition round_half_even (n d : Z) : Z :=
  let q := n / d in
  match 2 * (n mod d) ?= d with
  | Lt => q
  | Gt => q + 1
  | Eq => if Z.even q then q else q + 1
  end.

(** [Duration::try_from_secs_f64]: [None] is its error. *)
Definition try_from_secs_f64 (x : F64.f64) : option Z :=
  match x with
  | S754_zero _ => Some 0
  | S754_finite true _ _ | S754_infinity _ | S754_nan => None
  | S754_finite false m e =>
      let nanos := if 0 <=? e then Zpos m * 2 ^ e * NANOS_PER_SEC
                   else round_half_even (Zpos m * NANOS_PER_SEC) (2 ^ (- e)) in
      if nanos <? MAX_SECS * NANOS_PER_SEC then Some nanos else None
  end.
End Duration.

Module RateLimit.
Definition U64 : Z := 2 ^ 64.

Record Strategy : Type := mkStrategy {
  drop_requests_until : Z;
  times_rate_limited : Z;
  back_off_growth_factor : F64.f64;
  min_back_off : Z;
  max_back_off : Z;
}.

Inductive StrategyError : Type :=
| NotNormal
| GrowthBelowOne
| MinAboveMax.

(** [now] is the value of [Instant::now()] in each operation that reads it. *)
Definition try_new (now : Z) (back_off_growth_factor : F64.f64) (min_back_off max_back_off : Z)
  : res StrategyError Strategy :=
  if negb (F64.is_normal back_off_growth_factor) then Err NotNormal
  else if negb (F64.leb (F64.of_Z 1) back_off_growth_factor) then Err GrowthBelowOne
  else if negb (min_back_off <=? max_back_off) then Err MinAboveMax
  else Ok (mkStrategy now 0 back_off_growth_factor min_back_off max_back_off).

Definition default (now : Z) : res StrategyError Strategy :=
  res_expect (try_new now (F64.of_Z 1) 0 0).

Definition response_ok (now : Z) (self : Strategy) : Strategy :=
  mkStrategy now 0 (back_off_growth_factor self) (min_back_off self) (max_back_off self).

Section with_powf.
Context (powf : F64.f64 -> F64.f64 -> F64.f64).

Definition get_current_back_off (self : Strategy) : Z :=
  let factor := powf (back_off_growth_factor self) (F64.of_Z (times_rate_limited self)) in
  let back_off_secs := F64.mul (Duration.as_secs_f64 (min_back_off self)) factor in
  Z.min (match Duration.try_from_secs_f64 back_off_secs with
         | Some d => d
         | None => max_back_off self
         end) (max_back_off self).

(** The counter is a [u64] whose increment wraps. *)
Definition response_rate_limited (now previous_rate_limits : Z) (self : Strategy)
  : option Z * Strategy :=
  if negb (times_rate_limited self =? previous_rate_limits) then (None, self)
  else
    let new_back_off := get_current_back_off self in
    (Some new_back_off,
     mkStrategy (now + new_back_off) ((times_rate_limited self + 1) mod U64)
       (back_off_growth_factor self) (min_back_off self) (max_back_off self)).

(** [Strategy::times_rate_limited] *)
Definition get_times_rate_limited (now : Z) (self : Strategy) : option Z :=
  if now <? drop_requests_until self then None else Some (times_rate_limited self).

Definition get_back_off_duration_if_limited (now : Z) (self : Strategy) : option Z :=
  if now <? drop_requests_until self then Some (drop_requests_until self - now) else None.

(** [execute] up to the task and after it; the lock is held in neither the
    task nor between the two. *)
Definition execute_start (now : Z) (self : Strategy) : option Z := get_times_rate_limited now self.
Definition execute_finish (now : Z) (requires_back_off : bool) (times : Z) (self : Strategy)
  : Strategy :=
  if requires_back_off then (response_rate_limited now times self).2 else response_ok now self.

(** [execute] of one task that runs alone from [now] to [done]. *)
Definition execute (now done : Z) (requires_back_off : bool) (self : Strategy) : bool * Strategy :=
  match execute_start now self with
  | None => (false, self)
  | Some times => (true, execute_finish done requires_back_off times self)
  end.

(** [execute_with_back_off]: sleep out the back off first; the task runs for
    [run] nanoseconds. *)
Definition execute_with_back_off (now run : Z) (requires_back_off : bool) (self : Strategy)
  : bool * Strategy :=
  let start := now + match get_back_off_duration_if_limited now self with Some d => d | None => 0 end in
  execute start (start + run) requires_back_off self.

(** ** The limiter shared by concurrent tasks *)
Inductive task : Type :=
| Waiting
| InFlight (times : Z)
| Finished
| Dropped.

Record system : Type := mkSystem {
  clock : Z;
  strategy : Strategy;
  tasks : gmap nat task;
}.

Inductive label : Type :=
| LTick (d : Z)
| LSpawn (i : nat)
| LStart (i : nat)
| LFinish (i : nat) (requires_back_off : bool).

Inductive step : system -> label -> system -> Prop :=
| step_tick c s ts d : 0 <= d -> step (mkSystem c s ts) (LTick d) (mkSystem (c + d) s ts)
| step_spawn c s ts i : ts !! i = None ->
    step (mkSystem c s ts) (LSpawn i) (mkSystem c s (<[i := Waiting]> ts))
| step_start c s ts i : ts !! i = Some Waiting ->
    step (mkSystem c s ts) (LStart i)
      (mkSystem c s (<[i := match execute_start c s with
                            | Some n => InFlight n
                            | None => Dropped
                            end]> ts))
| step_finish c s ts i n b : ts !! i = Some (InFlight n) ->
    step (mkSystem c s ts) (LFinish i b)
      (mkSystem c (execute_finish c b n s) (<[i := Finished]> ts)).

Inductive steps : system -> list label -> system -> Prop :=
| steps_nil s : steps s [] s
| steps_cons s l s1 ls s2 : step s l s1 -> steps s1 ls s2 -> steps s (l :: ls) s2.
End with_powf.
End RateLimit.

(** A power for whole exponents, to evaluate the model with. *)
Definition powi (x y : F64.f64) : F64.f64 :=
  match y with
  | S754_finite false m e =>
      Nat.iter (Z.to_nat (Z.shiftl (Zpos m) e)) (F64.mul x) (F64.of_Z 1)
  | _ => F64.of_Z 1
  end.

(** [current_back_off_does_not_panic]: growth that overflows gives the
    maximum; otherwise the back off doubles. *)
Example current_back_off_test :
  let f64_max := S754_finite false (2 ^ 53 - 1) 971 in
  let strategy times growth := RateLimit.mkStrategy 0 times growth 16000000 60000000000 in
  RateLimit.get_current_back_off powi (strategy 1 f64_max) = 60000000000 /\
  RateLimit.get_current_back_off powi (strategy 2 f64_max) = 60000000000 /\
  RateLimit.get_current_back_off powi (strategy 3 (F64.of_Z 2)) = 16000000 * 8.
Proof. by vm_compute. Qed.

Example default_strategy : is_ok (RateLimit.default 7) = true.
Proof. vm_compute. reflexivity. Qed.

(** * Reachable limiters *)
Section limiter.
Import RateLimit.
Context (powf : F64.f64 -> F64.f64 -> F64.f64).

Lemma current_back_off_le s : get_current_back_off powf s <= max_back_off s.
Proof. unfold get_current_back_off. lia. Qed.

(** Requests are dropped for at most the maximal back off from now on. *)
Definition bounded (max : Z) (sys : system) : Prop :=
  max_back_off (strategy sys) = max /\ drop_requests_until (strategy sys) <= clock sys + max.

Lemma execute_finish_bounded c b n s max :
  0 <= max -> max_back_off s = max -> drop_requests_until s <= c + max ->
  max_back_off (execute_finish powf c b n s) = max /\
  drop_requests_until (execute_finish powf c b n s) <= c + max.
Proof.
  intros H0 Hm Hd. unfold execute_finish, response_rate_limited, response_ok.
  pose proof (current_back_off_le s).
  destruct b; [destruct (negb _)|]; cbn [snd max_back_off drop_requests_until]; lia.
Qed.

Lemma steps_bounded max sys ls sys' :
  0 <= max -> bounded max sys -> steps powf sys ls sys' -> bounded max sys'.
Proof.
  intros H0 Hb Hs. induction Hs as [|s l s1 ls s2 Hstep _ IH]; [done|]. apply IH. clear IH.
  destruct Hb as [Hm Hd]. destruct Hstep; cbn [strategy clock] in *; split; cbn [strategy clock];
    try done; try lia; by apply execute_finish_bounded.
Qed.

(** Without a good response the counter only moves forward. *)
Definition no_reset (l : label) : Prop := match l with LFinish _ false => False | _ => True end.

Lemma step_counter sys l sys' :
  no_reset l -> step powf sys l sys' ->
  times_rate_limited (strategy sys') = times_rate_limited (strategy sys) \/
  times_rate_limited (strategy sys') = (times_rate_limited (strategy sys) + 1) mod U64.
Proof.
  intros Hl Hstep. destruct Hstep as [| | |c s ts i n b]; cbn [strategy]; auto.
  destruct b; [|done]. unfold execute_finish, response_rate_limited.
  destruct (negb _); cbn [snd times_rate_limited]; auto.
Qed.

Lemma steps_counter sys ls sys' :
  Forall no_reset ls -> steps powf sys ls sys' ->
  0 <= times_rate_limited (strategy sys) < U64 ->
  exists k, 0 <= k <= Z.of_nat (length ls) /\
    times_rate_limited (strategy sys') = (times_rate_limited (strategy sys) + k) mod U64.
Proof.
  intros Hl Hs. induction Hs as [s|s l s1 ls s2 Hstep Hs IH]; intros Hr.
  { exists 0. rewrite Z.add_0_r, Z.mod_small by done. simpl. lia. }
  apply Forall_cons in Hl as [Hl Hls].
  assert (Hc := step_counter _ _ _ Hl Hstep).
  assert (Hr1 : 0 <= times_rate_limited (strategy s1) < U64).
  { destruct Hc as [->| ->]; [done|]. apply Z.mod_pos_bound. reflexivity. }
  destruct (IH Hls Hr1) as (k & Hk & Heq). rewrite Heq. cbn [length].
  destruct Hc as [->| ->]; [exists k; split; [lia|done]|].
  exists (k + 1). split; [lia|]. rewrite Zplus_mod_idemp_l. f_equal. lia.
Qed.
End limiter.

(** * Properties *)

(** The limiter always recovers: however tasks interleave and respond, once
    the maximal back off has passed without another response, a waiting task
    is admitted. *)
Theorem limiter_recovers powf (sys sys' sys1 sys2 : RateLimit.system) ls d i :
  0 <= RateLimit.max_back_off (RateLimit.strategy sys) ->
  RateLimit.drop_requests_until (RateLimit.strategy sys) <= RateLimit.clock sys ->
  RateLimit.steps powf sys ls sys' ->
  RateLimit.max_back_off (RateLimit.strategy sys) <= d ->
  RateLimit.step powf sys' (RateLimit.LTick d) sys1 ->
  RateLimit.step powf sys1 (RateLimit.LStart i) sys2 ->
  exists n, RateLimit.tasks sys2 !! i = Some (RateLimit.InFlight n).
Proof.
  intros H0 Hinit Hs Hd Htick Hstart.
  assert (Hb : bounded (RateLimit.max_back_off (RateLimit.strategy sys)) sys) by (split; [done|lia]).
  apply (steps_bounded powf _ _ _ _ H0 Hb) in Hs as [Hm Hdrop].
  inversion Htick; subst. inversion Hstart; subst. cbn [RateLimit.strategy RateLimit.clock] in *.
  cbn [RateLimit.tasks]. rewrite lookup_insert_eq.
  unfold RateLimit.execute_start, RateLimit.get_times_rate_limited.
  destruct (Z.ltb_spec (c + d) (RateLimit.drop_requests_until s)); [lia|eauto].
Qed.

(** A burst of rate-limited responses backs off once: after a task that was
    admitted at some count has extended the back off, another task admitted at
    the same count does not extend it again, whatever the interleaving, until
    a good response resets the counter (or it has wrapped around). *)
Theorem rate_limited_counts_once powf (s0 s1 s2 s3 : RateLimit.system) ls i j n :
  0 <= n < RateLimit.U64 ->
  RateLimit.times_rate_limited (RateLimit.strategy s0) = n ->
  RateLimit.tasks s0 !! i = Some (RateLimit.InFlight n) ->
  RateLimit.step powf s0 (RateLimit.LFinish i true) s1 ->
  Forall no_reset ls -> Z.of_nat (length ls) < RateLimit.U64 - 1 ->
  RateLimit.steps powf s1 ls s2 ->
  RateLimit.tasks s2 !! j = Some (RateLimit.InFlight n) ->
  RateLimit.step powf s2 (RateLimit.LFinish j true) s3 ->
  RateLimit.strategy s3 = RateLimit.strategy s2.
Proof.
  intros Hn Ht Hi Hfirst Hls Hlen Hs Hj Hsecond.
  assert (HU : 0 < RateLimit.U64) by reflexivity.
  assert (H1 : RateLimit.times_rate_limited (RateLimit.strategy s1) = (n + 1) mod RateLimit.U64).
  { inversion Hfirst; subst. cbn [RateLimit.tasks RateLimit.strategy] in *. simplify_eq.
    unfold RateLimit.execute_finish, RateLimit.response_rate_limited.
    rewrite Z.eqb_refl. done. }
  destruct (steps_counter powf _ _ _ Hls Hs) as (k & Hk & H2).
  { rewrite H1. by apply Z.mod_pos_bound. }
  rewrite H1, Zplus_mod_idemp_l in H2.
  inversion Hsecond; subst. cbn [RateLimit.tasks RateLimit.strategy] in *. simplify_eq.
  unfold RateLimit.execute_finish, RateLimit.response_rate_limited.
  destruct (Z.eqb_spec (RateLimit.times_rate_limited s) (RateLimit.times_rate_limited (RateLimit.strategy s0)))
    as [Heq|Hne]; [|done].
  exfalso. rewrite H2 in Heq. set (t := RateLimit.times_rate_limited (RateLimit.strategy s0)) in *.
  destruct (Z.lt_ge_cases (t + 1 + k) RateLimit.U64).
  - rewrite Z.mod_small in Heq by lia. lia.
  - rewrite <- (Z_mod_plus_full _ (-1)), Z.mod_small in Heq by lia. lia.
Qed.

(** [execute_with_back_off] never loses its task to the limiter when
    nothing else runs meanwhile: after sleeping the back off it computed, the
    task is admitted, and a response that is not rate limited leaves the
    limiter open with its counter at zero. *)
Theorem back_off_sleeps_long_enough powf (s : RateLimit.Strategy) (now run : Z) (b : bool) :
  0 <= run ->
  let r := RateLimit.execute_with_back_off powf now run b s in
  r.1 = true /\
  (b = false -> RateLimit.times_rate_limited r.2 = 0 /\
    forall later, RateLimit.drop_requests_until r.2 <= later ->
      RateLimit.get_times_rate_limited later r.2 = Some 0).
Proof.
  intros Hrun. cbv zeta. unfold RateLimit.execute_with_back_off, RateLimit.execute,
    RateLimit.execute_start, RateLimit.get_back_off_duration_if_limited, RateLimit.get_times_rate_limited.
  set (start := now + _).
  assert (Hst : RateLimit.drop_requests_until s <= start).
  { subst start. destruct (Z.ltb_spec now (RateLimit.drop_requests_until s)); lia. }
  destruct (Z.ltb_spec start (RateLimit.drop_requests_until s)); [lia|]. cbn [fst snd].
  split; [done|]. intros ->. cbn. split; [done|]. intros later Hl.
  destruct (Z.ltb_spec later (start + run)); [lia|done].
Qed.

(** A limiter whose first of two concurrent tasks is rate limited. *)
Section witnesses.
Import RateLimit.
Let strat : Strategy := mkStrategy 0 0 (F64.of_Z 2) 20000000 50000000.
Let limited : Strategy := mkStrategy 20000005 1 (F64.of_Z 2) 20000000 50000000.

Lemma first_response : execute_finish powi 5 true 0 strat = limited.
Proof. vm_compute. reflexivity. Qed.

Let sys0 : system := mkSystem 5 strat {[ 1%nat := InFlight 0; 2%nat := InFlight 0 ]}.
Let sys1 : system := mkSystem 5 limited (<[1%nat := Finished]> (tasks sys0)).

Lemma limiter_recovers_witness :
  exists n, tasks (mkSystem (5 + 50000000) limited
    (<[3%nat := InFlight 1]> (<[3%nat := Waiting]> (tasks sys1)))) !! 3%nat = Some (InFlight n).
Proof.
  apply (limiter_recovers powi sys0 (mkSystem 5 limited (<[3%nat := Waiting]> (tasks sys1)))
    (mkSystem (5 + 50000000) limited (<[3%nat := Waiting]> (tasks sys1)))
    (mkSystem (5 + 50000000) limited (<[3%nat := InFlight 1]> (<[3%nat := Waiting]> (tasks sys1))))
    [LFinish 1 true; LSpawn 3] 50000000 3).
  - closed.
  - closed.
  - eapply steps_cons; [eapply (step_finish powi 5 strat _ 1 0 true); reflexivity|].
    rewrite first_response.
    eapply steps_cons; [apply step_spawn; reflexivity|apply steps_nil].
  - closed.
  - apply step_tick. closed.
  - apply (step_start powi (5 + 50000000) limited (<[3%nat := Waiting]> (tasks sys1)) 3). reflexivity.
Defined.

Lemma rate_limited_counts_once_witness :
  strategy (mkSystem 5 limited (<[2%nat := Finished]> (tasks sys1))) = strategy sys1.
Proof.
  apply (rate_limited_counts_once powi sys0 sys1 sys1 (mkSystem 5 limited (<[2%nat := Finished]> (tasks sys1)))
    [] 1 2 0).
  - split; closed.
  - reflexivity.
  - reflexivity.
  - unfold sys1. rewrite <- first_response.
    apply (step_finish powi 5 strat (tasks sys0) 1 0 true). reflexivity.
  - constructor.
  - closed.
  - apply steps_nil.
  - reflexivity.
  - apply (step_finish powi 5 limited (tasks sys1) 2 0 true). reflexivity.
Defined.

Lemma back_off_sleeps_long_enough_witness :
  let r := execute_with_back_off powi 5 1000 false limited in
  r.1 = true /\
  (false = false -> times_rate_limited r.2 = 0 /\
    forall later, drop_requests_until r.2 <= later -> get_times_rate_limited later r.2 = Some 0).
Proof. apply (back_off_sleeps_long_enough powi limited 5 1000 false). closed. Defined.
End witnesses.
