(* ===== verification/ModelOrder.v ===== *)
(** Orders of the API: crates/model/src/order.rs and signature.rs, with the hash
    of app data (crates/app-data-hash/src/lib.rs) and the flags and trades of
    crates/shared/src/encoded_settlement.rs.

    Addresses are their unsigned value, hashes and keys are bytes. The hash
    function keccak256 and the recovery of a signer from an ECDSA signature
    (the crate web3) are parameters. *)
From Stdlib Require Import ZArith Lia.
From Stdlib Require Strings.Byte.
From stdpp Require Import prelude numbers.
From S2P Require Import Prelude U256 Bytes.

Open Scope Z_scope.
Open Scope rust_scope.

(** * order.rs and the autopilot's domain/auction/order.rs: an order uid is 32
    bytes of digest, 20 of owner and 4 of validity. *)
Module OrderUid.
Definition from_parts (hash owner valid_to : Z) : Z :=
  from_be_bytes (be_bytes 32 hash ++ be_bytes 20 owner ++ be_bytes 4 valid_to).
Definition owner (uid : Z) : Z := (uid / 2 ^ 32) mod 2 ^ 160.
Definition valid_to_bytes (uid : Z) : list byte := be_bytes 4 (uid mod 2 ^ 32).
(** The third part is read in little endian. *)
Definition parts (uid : Z) : Z * Z * Z :=
  (uid / 2 ^ 192, owner uid, from_be_bytes (rev (valid_to_bytes uid))).
End OrderUid.

(** * signature.rs *)
Module ModelSignature.
Inductive SigningScheme : Type := SEip712 | SEthSign | SEip1271 | SPreSign.
Inductive EcdsaSigningScheme : Type := EEip712 | EEthSign.
(** [r] and [s] are the numbers of an [H256], [v] that of a byte. *)
Record EcdsaSignature : Type := mkEcdsa { r : Z; s : Z; v : Z }.
Inductive Signature : Type :=
| Eip712 (signature : EcdsaSignature)
| EthSign (signature : EcdsaSignature)
| Eip1271 (signature : list byte)
| PreSign.
Record Recovered : Type := mkRecovered { message : list byte; signer : Z }.

Definition scheme (self : Signature) : SigningScheme :=
  match self with
  | Eip712 _ => SEip712
  | EthSign _ => SEthSign
  | Eip1271 _ => SEip1271
  | PreSign => SPreSign
  end.
Definition try_to_ecdsa_scheme (self : SigningScheme) : option EcdsaSigningScheme :=
  match self with SEip712 => Some EEip712 | SEthSign => Some EEthSign | SEip1271 | SPreSign => None end.
Definition is_ecdsa_scheme (self : SigningScheme) : bool :=
  bool_decide (is_Some (try_to_ecdsa_scheme self)).
Definition to_signature (self : EcdsaSignature) (scheme : EcdsaSigningScheme) : Signature :=
  match scheme with EEip712 => Eip712 self | EEthSign => EthSign self end.

(** [EcdsaSignature::to_bytes] and [from_bytes]: r, s and v. *)
Definition ecdsa_to_bytes (self : EcdsaSignature) : list byte :=
  be_bytes 32 (r self) ++ be_bytes 32 (s self) ++ be_bytes 1 (v self).
Definition ecdsa_from_bytes (bytes : list byte) : EcdsaSignature :=
  mkEcdsa (from_be_bytes (take 32 bytes)) (from_be_bytes (take 32 (drop 32 bytes)))
    (from_be_bytes (take 1 (drop 64 bytes))).

Definition to_bytes (self : Signature) : list byte :=
  match self with
  | Eip712 signature | EthSign signature => ecdsa_to_bytes signature
  | Eip1271 signature => signature
  | PreSign => []
  end.
Definition from_bytes (scheme : SigningScheme) (bytes : list byte) : res unit Signature :=
  match scheme with
  | SEip712 | SEthSign =>
      if bool_decide (length bytes = 65%nat)
      then
        let* ecdsa := opt_expect (try_to_ecdsa_scheme scheme) in
        Ok (to_signature (ecdsa_from_bytes bytes) ecdsa)
      else Err tt
  | SEip1271 => Ok (Eip1271 bytes)
  | SPreSign =>
      if bool_decide (length bytes = 0%nat) || bool_decide (length bytes = 20%nat)
      then Ok PreSign else Err tt
  end.
Definition encode_for_settlement (self : Signature) (owner : Z) : list byte :=
  match self with
  | Eip712 signature | EthSign signature => ecdsa_to_bytes signature
  | Eip1271 signature => be_bytes 20 owner ++ signature
  | PreSign => be_bytes 20 owner
  end.

Section hashing.
Context (keccak256 : list byte -> list byte).

Definition hashed_eip712_message (domain_separator struct_hash : list byte) : list byte :=
  keccak256 (be_bytes 2 0x1901 ++ domain_separator ++ struct_hash).
(** The prefix of a personal message: "\x19Ethereum Signed Message:\n32". *)
Definition ETHSIGN_PREFIX : list byte :=
  be_bytes 28 0x19457468657265756d205369676e6564204d6573736167653a0a3332.
Definition hashed_ethsign_message (domain_separator struct_hash : list byte) : list byte :=
  keccak256 (ETHSIGN_PREFIX ++ hashed_eip712_message domain_separator struct_hash).
Definition hashed_signing_message (signing_scheme : EcdsaSigningScheme)
    (domain_separator struct_hash : list byte) : list byte :=
  match signing_scheme with
  | EEip712 => hashed_eip712_message domain_separator struct_hash
  | EEthSign => hashed_ethsign_message domain_separator struct_hash
  end.

(** [signing::recover] of a message from [v], [r] and [s], of which
    [Recovery::as_signature] makes the signature. *)
Context (ec_recover : list byte -> Z -> Z -> Z -> option Z).

Definition ecdsa_recover (self : EcdsaSignature) (signing_scheme : EcdsaSigningScheme)
    (domain_separator struct_hash : list byte) : res unit Recovered :=
  let message := hashed_signing_message signing_scheme domain_separator struct_hash in
  let* signer := opt (ec_recover message (v self) (r self) (s self)) in
  Ok (mkRecovered message signer).
Definition recover (self : Signature) (domain_separator struct_hash : list byte)
  : res unit (option Recovered) :=
  match self with
  | Eip712 signature => res_map Some (ecdsa_recover signature EEip712 domain_separator struct_hash)
  | EthSign signature => res_map Some (ecdsa_recover signature EEthSign domain_separator struct_hash)
  | Eip1271 _ | PreSign => Ok None
  end.
(** [Key::sign] *)
Definition sign (key_sign : list byte -> EcdsaSignature) (signing_scheme : EcdsaSigningScheme)
    (domain_separator struct_hash : list byte) : EcdsaSignature :=
  key_sign (hashed_signing_message signing_scheme domain_separator struct_hash).
(** [H160::from_slice] panics unless it gets 20 bytes. *)
Definition h160_from_slice (bytes : list byte) : res unit Z :=
  if bool_decide (length bytes = 20%nat) then Ok (from_be_bytes bytes) else Panic.
Definition recover_owner (self : Signature) (signature domain_separator struct_hash : list byte)
  : res unit Z :=
  match self with
  | Eip712 _ | EthSign _ =>
      let* recovered := recover self domain_separator struct_hash in
      let* recovered := opt recovered in
      Ok (signer recovered)
  | Eip1271 _ => if bool_decide (length signature < 20)%nat then Panic else h160_from_slice (take 20 signature)
  | PreSign => h160_from_slice signature
  end.
End hashing.
End ModelSignature.

(** * order.rs *)
Module ModelOrder.
Import ModelSignature.
(** The address that stands for the native token. *)
Definition BUY_ETH_ADDRESS : Z := 0xeeeeeeeeeeeeeeeeeeeeeeeeeeeeeeeeeeeeeeee.
Inductive OrderKind : Type := Buy | Sell.
Inductive SellTokenSource : Type := SellErc20 | SellExternal | SellInternal.
Inductive BuyTokenDestination : Type := BuyErc20 | BuyInternal.
Inductive OrderClass : Type := Market | Liquidity | Limit.
Inductive OrderStatus : Type := PresignaturePending | Open | Fulfilled | Cancelled | Expired.
#[export] Instance OrderKind_eq_dec : EqDecision OrderKind.
Proof. solve_decision. Defined.
#[export] Instance SellTokenSource_eq_dec : EqDecision SellTokenSource.
Proof. solve_decision. Defined.
#[export] Instance BuyTokenDestination_eq_dec : EqDecision BuyTokenDestination.
Proof. solve_decision. Defined.
#[export] Instance OrderClass_eq_dec : EqDecision OrderClass.
Proof. solve_decision. Defined.

Record OrderData : Type := mkOrderData {
  sell_token : Z;
  buy_token : Z;
  receiver : option Z;
  sell_amount : Z;
  buy_amount : Z;
  valid_to : Z;
  app_data : list byte;
  fee_amount : Z;
  kind : OrderKind;
  partially_fillable : bool;
  sell_token_balance : SellTokenSource;
  buy_token_balance : BuyTokenDestination;
}.

Record InteractionData : Type := mkInteractionData { target : Z; value : Z; call_data : list byte }.
Record Interactions : Type := mkInteractions { pre : list InteractionData; post : list InteractionData }.

Record EthflowData : Type := mkEthflowData { user_valid_to : Z; refund_tx_hash : option Z }.
(** The same enum as that of the database. *)
Inductive OnchainOrderPlacementError : Type :=
| PlacementQuoteNotFound
| PlacementInvalidQuote
| PreValidationError
| DisabledOrderClass
| ValidToTooFarInFuture
| InvalidOrderData
| InsufficientFee
| PlacementNonZeroFee
| PlacementOther.
Record OnchainOrderData : Type := mkOnchainOrderData {
  sender : Z;
  placement_error : option OnchainOrderPlacementError;
}.
(** What the order book knows of an order; the executed amounts are [BigUint]s.
    The deprecated fields are left out. *)
Record OrderMetadata : Type := mkOrderMetadata {
  creation_date : Z;
  owner : Z;
  order_uid : Z;
  executed_buy_amount : Z;
  executed_sell_amount : Z;
  executed_sell_amount_before_fees : Z;
  executed_fee_amount : Z;
  executed_surplus_fee : Z;
  invalidated : bool;
  status : OrderStatus;
  class : OrderClass;
  settlement_contract : Z;
  full_fee_amount : Z;
  solver_fee : Z;
  full_app_data : option (list byte);
  ethflow_data : option EthflowData;
  onchain_order_data : option OnchainOrderData;
  onchain_user : option Z;
}.
Record Order : Type := mkOrder {
  metadata : OrderMetadata;
  data : OrderData;
  signature : Signature;
  interactions : Interactions;
}.

(** The hashes of the names, by which the contract knows the variants. *)
Definition kind_bytes (self : OrderKind) : list byte :=
  match self with
  | Sell => be_bytes 32 0xf3b277728b3fee749481eb3e0b3b48980dbbab78658fc419025cb16eee346775
  | Buy => be_bytes 32 0x6ed88e868af0a1983e3886d5f3e95a2fafbd6c3450bc229e27342283dc429ccc
  end.
Definition sell_token_source_bytes (self : SellTokenSource) : list byte :=
  match self with
  | SellErc20 => be_bytes 32 0x5a28e9363bb942b639270062aa6bb295f434bcdfc42c97267bf003f272060dc9
  | SellExternal => be_bytes 32 0xabee3b73373acd583a130924aad6dc38cfdc44ba0555ba94ce2ff63980ea0632
  | SellInternal => be_bytes 32 0x4ac99ace14ee0a5ef932dc609df0943ab7ac16b7583634612f8dc35a4289a6ce
  end.
Definition buy_token_destination_bytes (self : BuyTokenDestination) : list byte :=
  match self with
  | BuyErc20 => be_bytes 32 0x5a28e9363bb942b639270062aa6bb295f434bcdfc42c97267bf003f272060dc9
  | BuyInternal => be_bytes 32 0x4ac99ace14ee0a5ef932dc609df0943ab7ac16b7583634612f8dc35a4289a6ce
  end.
(** [from_contract_bytes] of the three. *)
Definition kind_from_bytes (bytes : list byte) : option OrderKind :=
  if bool_decide (bytes = kind_bytes Sell) then Some Sell
  else if bool_decide (bytes = kind_bytes Buy) then Some Buy else None.
Definition sell_token_source_from_bytes (bytes : list byte) : option SellTokenSource :=
  if bool_decide (bytes = sell_token_source_bytes SellErc20) then Some SellErc20
  else if bool_decide (bytes = sell_token_source_bytes SellExternal) then Some SellExternal
  else if bool_decide (bytes = sell_token_source_bytes SellInternal) then Some SellInternal else None.
Definition buy_token_destination_from_bytes (bytes : list byte) : option BuyTokenDestination :=
  if bool_decide (bytes = buy_token_destination_bytes BuyErc20) then Some BuyErc20
  else if bool_decide (bytes = buy_token_destination_bytes BuyInternal) then Some BuyInternal else None.

(** Zero bytes: the slots of a word that are not assigned. *)
Definition zeros (n : nat) : list byte := repeat (byte_of_Z 0) n.
Definition address_word (a : Z) : list byte := zeros 12 ++ be_bytes 20 a.
Definition bool_byte (b : bool) : list byte := be_bytes 1 (Z.b2z b).

Definition TYPE_HASH : list byte :=
  be_bytes 32 0xd5a25ba2e97094ad7d83dc28a6572da797d6b3e7fc6663bd93efb789fc17e489.
(** The 416 bytes that [hash_struct] hashes. *)
Definition hash_data (self : OrderData) : list byte :=
  TYPE_HASH ++ address_word (sell_token self) ++ address_word (buy_token self)
  ++ address_word (default 0 (receiver self))
  ++ be_bytes 32 (sell_amount self) ++ be_bytes 32 (buy_amount self)
  ++ (zeros 28 ++ be_bytes 4 (valid_to self)) ++ app_data self
  ++ be_bytes 32 (fee_amount self) ++ kind_bytes (kind self)
  ++ (zeros 31 ++ bool_byte (partially_fillable self))
  ++ sell_token_source_bytes (sell_token_balance self)
  ++ buy_token_destination_bytes (buy_token_balance self).

Record QuoteAmounts : Type := mkQuoteAmounts { quote_sell : Z; quote_buy : Z; quote_fee : Z }.
Definition within_market (self : OrderData) (quote : QuoteAmounts) : res unit bool :=
  let* lhs := u_add (sell_amount self) (fee_amount self) in
  let* rhs := u_add (quote_sell quote) (quote_fee quote) in
  Ok (rhs * buy_amount self <=? lhs * quote_buy quote).

Definition is_limit (self : OrderClass) : bool :=
  match self with Limit => true | Market | Liquidity => false end.
Definition is_user_order (self : Order) : bool :=
  match class (metadata self) with Market | Limit => true | Liquidity => false end.
Definition is_limit_order (self : Order) : bool := is_limit (class (metadata self)).
Definition solver_determines_fee (self : Order) : bool := is_limit_order self.

Section hashed.
Context (keccak256 : list byte -> list byte).

Definition hash_struct (self : OrderData) : list byte := keccak256 (hash_data self).
Definition uid (self : OrderData) (domain : list byte) (owner : Z) : Z :=
  OrderUid.from_parts (from_be_bytes (hashed_eip712_message keccak256 domain (hash_struct self)))
    owner (valid_to self).

(** *** Cancellations; a uid is 56 bytes. *)
Definition cancellations_type_hash : list byte :=
  be_bytes 32 0x4c89efb91ae246f78d2fe68b47db2fa1444a121a4f2dc3fda7a5a408c2e3588e.
Definition cancellations_hash_struct (order_uids : list Z) : list byte :=
  keccak256 (cancellations_type_hash ++ keccak256 (concat (map (fun u => keccak256 (be_bytes 56 u)) order_uids))).
Definition cancellation_type_hash : list byte :=
  be_bytes 32 0x7b41b3a6e2b3cae020a3b2f9cdc997e0d420643957e7fea81747e984e47c88ec.
Definition cancellation_hash_struct (order_uid : Z) : list byte :=
  keccak256 (cancellation_type_hash ++ keccak256 (be_bytes 56 order_uid)).

Context (ec_recover : list byte -> Z -> Z -> Z -> option Z).

Record SignedOrderCancellations : Type := mkSignedOrderCancellations {
  order_uids : list Z;
  cancellations_signature : EcdsaSignature;
  cancellations_scheme : EcdsaSigningScheme;
}.
Definition validate_cancellations (self : SignedOrderCancellations) (domain : list byte) : res unit Z :=
  res_map signer (ecdsa_recover keccak256 ec_recover (cancellations_signature self) (cancellations_scheme self) domain
    (cancellations_hash_struct (order_uids self))).
Record OrderCancellation : Type := mkOrderCancellation {
  cancelled_uid : Z;
  cancellation_signature : EcdsaSignature;
  cancellation_scheme : EcdsaSigningScheme;
}.
Definition cancellation_for_order (order_uid : Z) (domain : list byte)
    (key_sign : list byte -> EcdsaSignature) : OrderCancellation :=
  mkOrderCancellation order_uid
    (sign keccak256 key_sign EEip712 domain (cancellation_hash_struct order_uid)) EEip712.
Definition validate_cancellation (self : OrderCancellation) (domain : list byte) : res unit Z :=
  res_map signer (ecdsa_recover keccak256 ec_recover (cancellation_signature self) (cancellation_scheme self) domain
    (cancellation_hash_struct (cancelled_uid self))).
End hashed.
End ModelOrder.

(** ** An order as it is provided to the API *)
Module OrderCreation.
Import ModelSignature ModelOrder.
Inductive OrderCreationAppData : Type :=
| Both (full : list byte) (expected : list byte)
| Hash (hash : list byte)
| Full (full : list byte).
Inductive VerificationError : Type :=
| UnableToRecoverSigner
| UnexpectedSigner (recovered : Recovered)
| MissingFrom
| AppdataFromMismatch (from app_data_signer : Z).

Record OrderCreation : Type := mkOrderCreation {
  sell_token : Z;
  buy_token : Z;
  receiver : option Z;
  sell_amount : Z;
  buy_amount : Z;
  valid_to : Z;
  fee_amount : Z;
  kind : OrderKind;
  partially_fillable : bool;
  sell_token_balance : SellTokenSource;
  buy_token_balance : BuyTokenDestination;
  from : option Z;
  signature : Signature;
  quote_id : option Z;
  app_data : OrderCreationAppData;
}.
Definition set_signature (self : OrderCreation) (s : Signature) : OrderCreation :=
  mkOrderCreation (sell_token self) (buy_token self) (receiver self) (sell_amount self) (buy_amount self)
    (valid_to self) (fee_amount self) (kind self) (partially_fillable self) (sell_token_balance self)
    (buy_token_balance self) (from self) s (quote_id self) (app_data self).

Section creation.
Context (keccak256 : list byte -> list byte).

(** The hash function of the crate app-data-hash is keccak256 as well. *)
Definition hash_full_app_data (app_data : list byte) : list byte := keccak256 app_data.
Definition app_data_hash (self : OrderCreationAppData) : list byte :=
  match self with
  | Hash hash => hash
  | Full full | Both full _ => hash_full_app_data full
  end.
Definition data (self : OrderCreation) : OrderData :=
  mkOrderData (sell_token self) (buy_token self) (receiver self) (sell_amount self) (buy_amount self)
    (valid_to self) (app_data_hash (app_data self)) (fee_amount self) (kind self) (partially_fillable self)
    (sell_token_balance self) (buy_token_balance self).
Definition sign (self : OrderCreation) (signing_scheme : EcdsaSigningScheme) (domain : list byte)
    (key_sign : list byte -> EcdsaSignature) : OrderCreation :=
  set_signature self
    (to_signature (ModelSignature.sign keccak256 key_sign signing_scheme domain (hash_struct keccak256 (data self)))
      signing_scheme).

Context (ec_recover : list byte -> Z -> Z -> Z -> option Z).

Definition verify_owner (self : OrderCreation) (domain : list byte) (app_data_signer : option Z)
  : res VerificationError Z :=
  let* recovered :=
    map_err (fun _ => UnableToRecoverSigner)
      (recover keccak256 ec_recover (signature self) domain (hash_struct keccak256 (data self))) in
  let* from :=
    match from self, app_data_signer with
    | None, None => Ok None
    | None, Some addr => Ok (Some addr)
    | Some addr, None => Ok (Some addr)
    | Some from, Some app_data_signer =>
        if from =? app_data_signer then Ok (Some from) else Err (AppdataFromMismatch from app_data_signer)
    end in
  match from, recovered with
  | Some from, Some recovered => if from =? signer recovered then Ok from else Err (UnexpectedSigner recovered)
  | Some from, None => Ok from
  | None, Some recovered => Ok (signer recovered)
  | None, None => Err MissingFrom
  end.
End creation.
End OrderCreation.

(** * Lemmas *)
Import ModelSignature ModelOrder.

Lemma from_parts_eq hash owner valid_to :
  0 <= hash < 2 ^ 256 -> 0 <= owner < 2 ^ 160 -> 0 <= valid_to < 2 ^ 32 ->
  OrderUid.from_parts hash owner valid_to = (hash * 2 ^ 160 + owner) * 2 ^ 32 + valid_to.
Proof.
  intros Hh Ho Hv. unfold OrderUid.from_parts. rewrite !from_be_bytes_app, !length_app, !length_be_bytes.
  rewrite !be_bytes_roundtrip by done.
  change (256 ^ Z.of_nat (20 + 4)) with (2 ^ 160 * 2 ^ 32). change (256 ^ Z.of_nat 4) with (2 ^ 32). lia.
Qed.

(** What is within the types. *)
Record order_ok (o : OrderData) : Prop := {
  ok_sell_token : 0 <= sell_token o < 2 ^ 160;
  ok_buy_token : 0 <= buy_token o < 2 ^ 160;
  ok_receiver : 0 <= default 0 (receiver o) < 2 ^ 160;
  ok_sell_amount : 0 <= sell_amount o < 2 ^ 256;
  ok_buy_amount : 0 <= buy_amount o < 2 ^ 256;
  ok_fee_amount : 0 <= fee_amount o < 2 ^ 256;
  ok_valid_to : 0 <= valid_to o < 2 ^ 32;
  ok_app_data : length (app_data o) = 32%nat;
}.
Definition ecdsa_ok (e : EcdsaSignature) : Prop :=
  0 <= r e < 2 ^ 256 /\ 0 <= s e < 2 ^ 256 /\ 0 <= v e < 2 ^ 8.
Definition signature_ok (self : Signature) : Prop :=
  match self with Eip712 e | EthSign e => ecdsa_ok e | Eip1271 _ | PreSign => True end.
(** An order without a receiver is signed as one with the receiver zero. *)
Definition signed_as (o : OrderData) : OrderData :=
  mkOrderData (sell_token o) (buy_token o) (Some (default 0 (receiver o))) (sell_amount o) (buy_amount o)
    (valid_to o) (app_data o) (fee_amount o) (kind o) (partially_fillable o) (sell_token_balance o)
    (buy_token_balance o).

(** ** The words of the hashed data *)
Lemma length_kind_bytes k : length (kind_bytes k) = 32%nat.
Proof. by destruct k. Qed.
Lemma length_source_bytes k : length (sell_token_source_bytes k) = 32%nat.
Proof. by destruct k. Qed.
Lemma length_destination_bytes k : length (buy_token_destination_bytes k) = 32%nat.
Proof. by destruct k. Qed.

(** The bytes of each variant are read back as that variant. *)
Lemma kind_from_bytes_spec l k : kind_from_bytes l = Some k <-> l = kind_bytes k.
Proof.
  split.
  - unfold kind_from_bytes. do 2 (case_bool_decide; [by intros [= <-]|]). done.
  - intros ->. destruct k; vm_compute; done.
Qed.
Lemma source_from_bytes_spec l k : sell_token_source_from_bytes l = Some k <-> l = sell_token_source_bytes k.
Proof.
  split.
  - unfold sell_token_source_from_bytes. do 3 (case_bool_decide; [by intros [= <-]|]). done.
  - intros ->. destruct k; vm_compute; done.
Qed.
Lemma destination_from_bytes_spec l k :
  buy_token_destination_from_bytes l = Some k <-> l = buy_token_destination_bytes k.
Proof.
  split.
  - unfold buy_token_destination_from_bytes. do 2 (case_bool_decide; [by intros [= <-]|]). done.
  - intros ->. destruct k; vm_compute; done.
Qed.

(** Encodings that can be read back are injective. *)
Lemma read_back_inj {A} (enc : A -> list byte) (dec : list byte -> option A) :
  (forall l k, dec l = Some k <-> l = enc k) -> forall k k', enc k = enc k' -> k = k'.
Proof.
  intros H k k' He. pose proof (proj2 (H _ k) eq_refl) as H1. pose proof (proj2 (H _ k') eq_refl) as H2.
  congruence.
Qed.
Lemma kind_bytes_inj k k' : kind_bytes k = kind_bytes k' -> k = k'.
Proof. exact (read_back_inj _ _ kind_from_bytes_spec k k'). Qed.
Lemma source_bytes_inj k k' : sell_token_source_bytes k = sell_token_source_bytes k' -> k = k'.
Proof. exact (read_back_inj _ _ source_from_bytes_spec k k'). Qed.
Lemma destination_bytes_inj k k' : buy_token_destination_bytes k = buy_token_destination_bytes k' -> k = k'.
Proof. exact (read_back_inj _ _ destination_from_bytes_spec k k'). Qed.

Lemma address_word_inj a a' : 0 <= a < 2 ^ 160 -> 0 <= a' < 2 ^ 160 -> address_word a = address_word a' -> a = a'.
Proof. intros Ha Ha' H. apply app_inj_2 in H as [_ H]; [|by rewrite !length_be_bytes]. by apply (be_bytes_inj 20) in H. Qed.
Lemma amount_word_inj a a' : 0 <= a < 2 ^ 256 -> 0 <= a' < 2 ^ 256 -> be_bytes 32 a = be_bytes 32 a' -> a = a'.
Proof. exact (be_bytes_inj 32 a a'). Qed.
Lemma validity_word_inj a a' : 0 <= a < 2 ^ 32 -> 0 <= a' < 2 ^ 32 -> be_bytes 4 a = be_bytes 4 a' -> a = a'.
Proof. exact (be_bytes_inj 4 a a'). Qed.
Lemma bool_byte_inj b b' : bool_byte b = bool_byte b' -> b = b'.
Proof. destruct b, b'; vm_compute; congruence. Qed.
Lemma length_address_word a : length (address_word a) = 32%nat.
Proof. unfold address_word. by rewrite length_app, length_be_bytes. Qed.

Lemma length_bool_byte b : length (bool_byte b) = 1%nat.
Proof. apply length_be_bytes. Qed.

(** Two concatenations of words agree word by word. *)
Ltac split_words :=
  repeat match goal with
  | H : ?a ++ _ = ?a ++ _ |- _ => apply app_inv_head in H
  | H : _ ++ _ = _ ++ _ |- _ =>
      apply app_inj_1 in H as [? H];
      [|rewrite ?length_app, ?length_be_bytes, ?length_address_word, ?length_bool_byte, ?length_kind_bytes, ?length_source_bytes;
        congruence]
  end.

Lemma hash_data_inj o o' : order_ok o -> order_ok o' -> hash_data o = hash_data o' -> signed_as o = signed_as o'.
Proof.
  intros Ho Ho' H. destruct Ho, Ho'. unfold hash_data in H. split_words.
  unfold signed_as. f_equal.
  all: try match goal with |- Some _ = Some _ => f_equal end.
  all: eauto using address_word_inj, kind_bytes_inj, source_bytes_inj, destination_bytes_inj,
    bool_byte_inj, amount_word_inj, validity_word_inj.
Qed.

(** ** Signatures as bytes *)
Lemma length_ecdsa_to_bytes e : length (ecdsa_to_bytes e) = 65%nat.
Proof. unfold ecdsa_to_bytes. by rewrite !length_app, !length_be_bytes. Qed.

Lemma ecdsa_roundtrip e : ecdsa_ok e -> ecdsa_from_bytes (ecdsa_to_bytes e) = e.
Proof.
  intros (Hr & Hs & Hv). unfold ecdsa_from_bytes, ecdsa_to_bytes.
  rewrite take_app_length', drop_app_length', take_app_length' by (by rewrite length_be_bytes).
  change 64%nat with (32 + 32)%nat. rewrite <- drop_drop.
  rewrite !drop_app_length' by (by rewrite length_be_bytes).
  rewrite take_ge by (by rewrite length_be_bytes).
  rewrite !be_bytes_roundtrip by done. by destruct e.
Qed.

(** Bytes are those of the number of which they are the digits. *)
Lemma be_bytes_of n l : length l = n -> be_bytes n (from_be_bytes l) = l.
Proof. intros <-. apply be_bytes_from_be_bytes. Qed.

Lemma ecdsa_bytes_roundtrip l : length l = 65%nat -> ecdsa_to_bytes (ecdsa_from_bytes l) = l.
Proof.
  intros Hl. unfold ecdsa_from_bytes, ecdsa_to_bytes. cbn [r s v].
  rewrite !be_bytes_of by (rewrite ?length_take, ?length_drop, Hl; done).
  rewrite <- (take_drop 32 l) at 4. f_equal.
  rewrite <- (take_drop 32 (drop 32 l)) at 2. f_equal.
  rewrite drop_drop. apply take_ge. rewrite length_drop, Hl. done.
Qed.

Lemma signature_roundtrip self : signature_ok self -> from_bytes (scheme self) (to_bytes self) = Ok self.
Proof.
  destruct self as [e|e|l|]; intros Hok; cbn [scheme to_bytes from_bytes]; try done.
  all: rewrite bool_decide_true by (apply length_ecdsa_to_bytes); cbn [try_to_ecdsa_scheme opt_expect rbind to_signature].
  all: by rewrite ecdsa_roundtrip.
Qed.

Lemma from_bytes_Ok sch l self : from_bytes sch l = Ok self ->
  scheme self = sch /\ (sch <> SPreSign -> to_bytes self = l).
Proof.
  destruct sch; cbn [from_bytes].
  1,2: case_bool_decide as Hl; [|done]; intros [= <-]; split; [done|]; intros _; by apply ecdsa_bytes_roundtrip.
  - by intros [= <-].
  - case_match; [|done]. by intros [= <-].
Qed.

(** ** Signing and recovering *)
Section recovering.
Context (keccak256 : list byte -> list byte) (ec_recover : list byte -> Z -> Z -> Z -> option Z).

(** A key signs for an address when recovery from its signatures finds it. *)
Definition signs_for (key_sign : list byte -> EcdsaSignature) (address : Z) : Prop :=
  forall message, ec_recover message (v (key_sign message)) (r (key_sign message)) (s (key_sign message)) = Some address.

Lemma recover_signed key address sch domain h : signs_for key address ->
  ecdsa_recover keccak256 ec_recover (sign keccak256 key sch domain h) sch domain h =
  Ok (mkRecovered (hashed_signing_message keccak256 sch domain h) address).
Proof. intros Hkey. unfold ecdsa_recover, sign. by rewrite Hkey. Qed.

Lemma recover_signed_scheme key address sch domain h : signs_for key address ->
  recover keccak256 ec_recover (to_signature (sign keccak256 key sch domain h) sch) domain h =
  Ok (Some (mkRecovered (hashed_signing_message keccak256 sch domain h) address)).
Proof. intros Hkey. destruct sch; cbn [to_signature recover]; by rewrite (recover_signed _ address). Qed.

(** The owner is that recovered from the signature, where the scheme has one. *)
Definition owner_of (self : Signature) (domain h : list byte) (owner : Z) : Prop :=
  0 <= owner < 2 ^ 160 /\
  match recover keccak256 ec_recover self domain h with
  | Ok (Some recovered) => signer recovered = owner
  | Ok None => True
  | _ => False
  end.

Lemma recover_owner_encoded self domain h owner : owner_of self domain h owner ->
  recover_owner keccak256 ec_recover self (encode_for_settlement self owner) domain h = Ok owner.
Proof.
  intros [Ho Hrec]. destruct self as [e|e|l|]; cbn [recover_owner encode_for_settlement].
  1,2: cbn [recover] in *; destruct ecdsa_recover; cbn in *; [by rewrite Hrec|done|done].
  - rewrite bool_decide_false by (rewrite length_app, length_be_bytes; lia).
    rewrite take_app_length' by (by rewrite length_be_bytes). unfold h160_from_slice.
    rewrite bool_decide_true by (apply length_be_bytes). by rewrite be_bytes_roundtrip.
  - unfold h160_from_slice. rewrite bool_decide_true by (apply length_be_bytes). by rewrite be_bytes_roundtrip.
Qed.

(** What an order creation says about its owner. *)
Definition claims (self : OrderCreation.OrderCreation) (recovered : option Recovered) (app_data_signer : option Z)
  : list Z :=
  option_list (OrderCreation.from self) ++ option_list app_data_signer ++ option_list (signer <$> recovered).

Lemma verify_owner_claims self domain app_data_signer owner :
  OrderCreation.verify_owner keccak256 ec_recover self domain app_data_signer = Ok owner <->
  exists recovered,
    recover keccak256 ec_recover (OrderCreation.signature self) domain
      (hash_struct keccak256 (OrderCreation.data keccak256 self)) = Ok recovered /\
    claims self recovered app_data_signer <> [] /\
    Forall (eq owner) (claims self recovered app_data_signer).
Proof.
  unfold OrderCreation.verify_owner, claims.
  destruct recover as [rec|?|]; cbn [map_err rbind]; [|naive_solver..].
  split.
  - intros H. exists rec. split; [done|].
    destruct (OrderCreation.from self) as [a|], app_data_signer as [b|], rec as [c|]; cbn in *; split_cases;
      (split; [done|]); repeat apply Forall_cons_2; try apply Forall_nil_2; congruence.
  - intros (rec' & [= <-] & Hne & Hall).
    destruct (OrderCreation.from self) as [a|], app_data_signer as [b|], rec as [c|]; cbn in *;
      repeat (apply Forall_cons_1 in Hall as [? Hall]); subst; repeat (rewrite ?Z.eqb_refl; cbn); done.
Qed.

Lemma data_set_signature self sig :
  OrderCreation.data keccak256 (OrderCreation.set_signature self sig) = OrderCreation.data keccak256 self.
Proof. done. Qed.
End recovering.

Lemma uid_owner o keccak256 domain owner :
  (forall l, length (keccak256 l) = 32%nat) -> order_ok o -> 0 <= owner < 2 ^ 160 ->
  OrderUid.owner (uid keccak256 o domain owner) = owner.
Proof.
  intros Hk Ho Hown. unfold OrderUid.owner, uid.
  pose proof (from_be_bytes_bound (hashed_eip712_message keccak256 domain (hash_struct keccak256 o))) as Hb.
  replace (length _) with 32%nat in Hb by (symmetry; apply Hk).
  rewrite from_parts_eq by (done || apply Ho). pose proof (ok_valid_to _ Ho).
  rewrite Z.div_add_l by lia. rewrite (Z.div_small (valid_to o)) by done.
  rewrite Z.add_0_r, Z.add_comm, Z_mod_plus_full. by apply Z.mod_small.
Qed.

(** * Properties *)

(** C36: what is hashed determines the order that is signed: two orders have the
    same hashed data exactly when they agree in every field, an order without
    a receiver being the same as one for the receiver zero. A signature for one
    order is thus never one for another, save for collisions of the hash. *)
Theorem hashed_data_determines_order (o o' : OrderData) :
  order_ok o -> order_ok o' -> hash_data o = hash_data o' <-> signed_as o = signed_as o'.
Proof.
  intros Ho Ho'. split; [by apply hash_data_inj|].
  destruct o, o'. intros [= -> -> Hr -> -> -> -> -> -> -> -> ->]. unfold hash_data. cbn in *. by rewrite Hr.
Qed.

(** An order is accepted for an owner exactly when its signature can be
    evaluated and everyone who names an owner (the field [from] of the request,
    the app data, and the signature if it can be recovered) names this one,
    and somebody does. *)
Theorem verified_owner_is_unanimous keccak256 ec_recover (self : OrderCreation.OrderCreation)
    (domain : list byte) (app_data_signer : option Z) (owner : Z) :
  OrderCreation.verify_owner keccak256 ec_recover self domain app_data_signer = Ok owner <->
  exists recovered,
    recover keccak256 ec_recover (OrderCreation.signature self) domain
      (hash_struct keccak256 (OrderCreation.data keccak256 self)) = Ok recovered /\
    claims self recovered app_data_signer <> [] /\
    Forall (eq owner) (claims self recovered app_data_signer).
Proof. apply verify_owner_claims. Qed.

(** What is signed verifies: an order signed with a key, in either scheme, is
    verified to be owned by the address of the key unless somebody claims
    otherwise, its uid carries this owner, and the cancellations the key signs
    are validated for the same address. *)
Theorem signed_requests_verify keccak256 ec_recover key_sign address
    (self : OrderCreation.OrderCreation) sch domain app_data_signer :
  signs_for ec_recover key_sign address ->
  (forall l, length (keccak256 l) = 32%nat) ->
  order_ok (OrderCreation.data keccak256 self) -> 0 <= address < 2 ^ 160 ->
  Forall (eq address) (option_list (OrderCreation.from self) ++ option_list app_data_signer) ->
  OrderCreation.verify_owner keccak256 ec_recover (OrderCreation.sign keccak256 self sch domain key_sign) domain
    app_data_signer = Ok address /\
  OrderUid.owner (uid keccak256 (OrderCreation.data keccak256 self) domain address) = address /\
  (forall order_uid,
    validate_cancellation keccak256 ec_recover (cancellation_for_order keccak256 order_uid domain key_sign) domain
    = Ok address) /\
  (forall order_uids,
    validate_cancellations keccak256 ec_recover
      (mkSignedOrderCancellations order_uids
        (sign keccak256 key_sign sch domain (cancellations_hash_struct keccak256 order_uids)) sch) domain
    = Ok address).
Proof.
  intros Hkey Hk Hok Ha Hclaims. split_and!.
  - apply verify_owner_claims. eexists. split.
    { unfold OrderCreation.sign. rewrite data_set_signature. by apply recover_signed_scheme. }
    unfold claims. cbn [fmap option_fmap option_map option_list signer OrderCreation.from OrderCreation.sign].
    rewrite app_assoc. split; [by intros [_ ?]%app_eq_nil|].
    apply Forall_app. split; [exact Hclaims|]. by repeat constructor.
  - by apply uid_owner.
  - intros order_uid. unfold validate_cancellation, cancellation_for_order. cbn [cancellation_signature cancellation_scheme cancelled_uid].
    by rewrite (recover_signed _ _ _ address).
  - intros order_uids. unfold validate_cancellations. cbn [cancellations_signature cancellations_scheme ModelOrder.order_uids].
    by rewrite (recover_signed _ _ _ address).
Qed.

(** Signatures survive their serialization: the bytes of a signature are read
    back as the same signature, and bytes that are read at all come from the
    signature they give, except that the legacy bytes of a presignature are
    dropped. *)
Theorem signature_bytes_roundtrip (self : Signature) (sch : SigningScheme) (bytes : list byte) :
  signature_ok self ->
  from_bytes (scheme self) (to_bytes self) = Ok self /\
  (forall self', from_bytes sch bytes = Ok self' ->
    scheme self' = sch /\ (sch <> SPreSign -> to_bytes self' = bytes)).
Proof. intros Hok. split; [by apply signature_roundtrip|]. intros self'. apply from_bytes_Ok. Qed.

(** An order uid gives back its digest and its owner, but not its validity:
    the four bytes written in big endian are read in little endian, so that
    what comes back is the validity with its bytes reversed. *)
Theorem uid_parts_reverse_valid_to (hash owner valid_to : Z) :
  0 <= hash < 2 ^ 256 -> 0 <= owner < 2 ^ 160 -> 0 <= valid_to < 2 ^ 32 ->
  let '(hash', owner', valid_to') := OrderUid.parts (OrderUid.from_parts hash owner valid_to) in
  hash' = hash /\ owner' = owner /\
  valid_to' = valid_to mod 2 ^ 8 * 2 ^ 24 + valid_to / 2 ^ 8 mod 2 ^ 8 * 2 ^ 16 +
    valid_to / 2 ^ 16 mod 2 ^ 8 * 2 ^ 8 + valid_to / 2 ^ 24 mod 2 ^ 8.
Proof.
  intros Hh Ho Hv. unfold OrderUid.parts, OrderUid.owner, OrderUid.valid_to_bytes.
  rewrite from_parts_eq by done. change (2 ^ 192) with (2 ^ 32 * 2 ^ 160).
  assert (Hdiv : ((hash * 2 ^ 160 + owner) * 2 ^ 32 + valid_to) / 2 ^ 32 = hash * 2 ^ 160 + owner).
  { rewrite Z.div_add_l by lia. rewrite (Z.div_small valid_to) by done. lia. }
  rewrite <- Z.div_div by lia. rewrite Hdiv. rewrite Z.div_add_l by lia. rewrite (Z.div_small owner) by done.
  rewrite (Z.add_comm _ owner), Z_mod_plus_full, (Z.mod_small owner) by done.
  rewrite (Z.add_comm _ valid_to), Z_mod_plus_full, (Z.mod_small valid_to) by done.
  split_and!; [lia|done|]. unfold from_be_bytes. cbn [be_bytes rev app foldl].
  rewrite !Z_of_byte_of_Z. change (Z.of_nat 3) with 3. change (Z.of_nat 2) with 2. change (Z.of_nat 1) with 1. change (Z.of_nat 0) with 0.
  change (256 ^ 3) with (2 ^ 24). change (256 ^ 2) with (2 ^ 16). change (256 ^ 1) with (2 ^ 8). change (256 ^ 0) with 1.
  rewrite Z.div_1_r. change 256 with (2 ^ 8). lia.
Qed.

(** Validity 1 comes back as 2^24. *)
Example uid_parts_of_one : OrderUid.parts (OrderUid.from_parts 5 6 1) = (5, 6, 16777216).
Proof. vm_compute. reflexivity. Qed.

(** * Witnesses *)
Section witnesses.
Let hash (l : list byte) : list byte := be_bytes 32 (from_be_bytes l).
(** A scheme in which the signature of a message names the signer. *)
Let recovering (m : list byte) (v r s : Z) : option Z := if s =? from_be_bytes m then Some r else None.
Let key (m : list byte) : EcdsaSignature := mkEcdsa 7 (from_be_bytes m) 27.
Let o (receiver : option Z) : OrderData :=
  mkOrderData 1 2 receiver 1000 900 100 (be_bytes 32 0) 5 Sell true SellErc20 BuyErc20.
Let c : OrderCreation.OrderCreation :=
  OrderCreation.mkOrderCreation 1 2 None 1000 900 100 5 Sell true SellErc20 BuyErc20 (Some 7) PreSign None
    (OrderCreation.Full (be_bytes 4 77)).

Lemma order_ok_o (receiver : option Z) : 0 <= default 0 receiver < 2 ^ 160 -> order_ok (o receiver).
Proof. intros Hr. split; cbn [o sell_token buy_token ModelOrder.receiver sell_amount buy_amount fee_amount valid_to app_data]; lia || done. Qed.

Lemma hashed_data_determines_order_witness :
  hash_data (o None) = hash_data (o (Some 0)) <-> signed_as (o None) = signed_as (o (Some 0)).
Proof. apply (hashed_data_determines_order (o None) (o (Some 0))); by apply order_ok_o. Defined.

Lemma signed_requests_verify_witness :
  OrderCreation.verify_owner hash recovering (OrderCreation.sign hash c EEthSign (be_bytes 32 3) key) (be_bytes 32 3)
    (Some 7) = Ok 7.
Proof.
  refine (proj1 (signed_requests_verify hash recovering key 7 c EEthSign (be_bytes 32 3) (Some 7) _ _ _ _ _)).
  - intros m. unfold recovering, key. cbn. by rewrite Z.eqb_refl.
  - intros l. apply length_be_bytes.
  - split; cbn; lia || done.
  - lia.
  - repeat constructor.
Defined.

Lemma signature_bytes_roundtrip_witness :
  from_bytes SEthSign (to_bytes (EthSign (mkEcdsa 1 2 27))) = Ok (EthSign (mkEcdsa 1 2 27)).
Proof. refine (proj1 (signature_bytes_roundtrip (EthSign (mkEcdsa 1 2 27)) SPreSign [] _)). split_and!; cbn; lia. Defined.

Lemma uid_parts_reverse_valid_to_witness :
  let '(hash, owner, valid_to) := OrderUid.parts (OrderUid.from_parts 5 6 258) in
  hash = 5 /\ owner = 6 /\ valid_to = 2 * 2 ^ 24 + 1 * 2 ^ 16.
Proof. apply (uid_parts_reverse_valid_to 5 6 258); split; closed. Defined.
End witnesses.
