(* ===== verification/RemainingAmounts.v ===== *)
(** Remaining amounts of a partially executed order:
    crates/shared/src/remaining_amounts.rs. *)
From Stdlib Require Import ZArith Lia.
From stdpp Require Import prelude.
From S2P Require Import Prelude U256 Bytes ModelOrder.

Open Scope Z_scope.
Open Scope rust_scope.

Module RemainingAmounts.
Import ModelOrder.

(** [num::rational::Ratio<U256>] as made by [new_raw], not reduced. *)
Record Ratio : Type := mkRatio { numer : Z; denom : Z }.
Definition one : Ratio := mkRatio 1 1.
Definition zero : Ratio := mkRatio 0 1.

Definition scalar_mul (ratio : Ratio) (scalar : Z) : option Z :=
  match checked_mul scalar (numer ratio) with
  | None => None
  | Some p => checked_div p (denom ratio)
  end.

(** The product is a [U512]: it cannot overflow. *)
Definition full_scalar_mul (ratio : Ratio) (scalar : Z) : option Z :=
  match checked_div (scalar * numer ratio) (denom ratio) with
  | None => None
  | Some q => u256_try_from q
  end.

Record Remaining : Type := mkRemaining { execution : Ratio; balance : Ratio }.

Record Order : Type := mkOrder {
  kind : OrderKind;
  buy_amount : Z;
  sell_amount : Z;
  fee_amount : Z;
  executed_amount : Z;
  partially_fillable : bool;
}.

Definition from_model (o : ModelOrder.Order) : Order :=
  let d := data o in {|
  kind := ModelOrder.kind d;
  buy_amount := ModelOrder.buy_amount d;
  sell_amount := ModelOrder.sell_amount d;
  fee_amount := ModelOrder.fee_amount d;
  executed_amount :=
    match ModelOrder.kind d with
    | Buy => default (ModelOrder.buy_amount d) (big_uint_to_u256 (executed_buy_amount (metadata o)))
    | Sell => executed_sell_amount_before_fees (metadata o)
    end;
  partially_fillable := ModelOrder.partially_fillable d;
|}.

Inductive Error : Type :=
| ExecutedLargerThanTotal
| OverflowScalingSell
| OverflowScalingFee
| NeedOverflow
| SellPlusFeeOverflow
| OverflowScalingExecution
| OverflowScalingBalance.

Definition from_order_with_balance (order : Order) (sell_balance : Z) : res Error Remaining :=
  let total := match kind order with Buy => buy_amount order | Sell => sell_amount order end in
  if partially_fillable order then
    let* left := ok_or (checked_sub total (executed_amount order)) ExecutedLargerThanTotal in
    let execution := mkRatio left total in
    let* sell_amount := ok_or (scalar_mul execution (sell_amount order)) OverflowScalingSell in
    let* fee_amount := ok_or (scalar_mul execution (fee_amount order)) OverflowScalingFee in
    let* need := ok_or (checked_add sell_amount fee_amount) NeedOverflow in
    let balance := if sell_balance <? need then mkRatio sell_balance need else one in
    Ok (mkRemaining execution balance)
  else
    let* sell := ok_or (checked_add (sell_amount order) (fee_amount order)) SellPlusFeeOverflow in
    let execution := if executed_amount order =? 0 then one else zero in
    let balance := if sell <=? sell_balance then one else zero in
    Ok (mkRemaining execution balance).

Definition from_order (order : Order) : res Error Remaining :=
  from_order_with_balance order U256_MAX.

Definition remaining (self : Remaining) (total : Z) : res Error Z :=
  let* scaled := ok_or (scalar_mul (execution self) total) OverflowScalingExecution in
  ok_or (full_scalar_mul (balance self) scaled) OverflowScalingBalance.
End RemainingAmounts.

(** [computes_remaining_order_amounts] and [remaining_amount_errors]. *)
Section tests.
Import ModelOrder RemainingAmounts.
Let order_of (k : OrderKind) (buy sell fee executed_buy executed_sell : Z) : ModelOrder.Order :=
  ModelOrder.mkOrder
    (mkOrderMetadata 0 0 0 executed_buy 0 executed_sell 0 0 false Open Market 0 0 0 None None None None)
    (mkOrderData 0 0 None sell buy 0 [] fee k true SellErc20 BuyErc20) ModelSignature.PreSign (mkInteractions [] []).
Let half_sold : ModelOrder.Order := order_of Sell 100 100 101 0 90.
Let overflowing : ModelOrder.Order := order_of Buy U256_MAX 1000 337 0 0.

Example remaining_test :
  (let* r := from_order (from_model half_sold) in
   let* a := remaining r 100 in let* b := remaining r 101 in let* c := remaining r 200 in
   Ok (a, b, c)) = Ok (10, 10, 20).
Proof. vm_compute. reflexivity. Qed.

Example remaining_error_test :
  from_order (from_model overflowing) = Err OverflowScalingSell.
Proof. vm_compute. reflexivity. Qed.
End tests.

(** * Ratios *)
Section ratios.
Import ModelOrder RemainingAmounts.

Lemma scalar_mul_Some r s c :
  scalar_mul r s = Some c <-> c = s * numer r / denom r /\ denom r <> 0 /\ s * numer r <= U256_MAX.
Proof.
  unfold scalar_mul. destruct (checked_mul s (numer r)) as [p|] eqn:Hm.
  - apply checked_mul_Some in Hm as [-> ?]. rewrite checked_div_Some. naive_solver.
  - unfold checked_mul in Hm. case_match; bool_to_prop; naive_solver lia.
Qed.

Lemma full_scalar_mul_Some r s c :
  full_scalar_mul r s = Some c <->
  c = s * numer r / denom r /\ denom r <> 0 /\ s * numer r / denom r <= U256_MAX.
Proof.
  unfold full_scalar_mul, checked_div. destruct (Z.eqb_spec (denom r) 0); [naive_solver|].
  rewrite u256_try_from_Some. naive_solver.
Qed.

Lemma remaining_Ok r t c :
  remaining r t = Ok c ->
  let e := t * numer (execution r) / denom (execution r) in
  denom (execution r) <> 0 /\ denom (balance r) <> 0 /\ c = e * numer (balance r) / denom (balance r).
Proof.
  unfold remaining. intros Hr. inv_ok. apply scalar_mul_Some in Hv as (-> & ? & _).
  apply full_scalar_mul_Some in Hr as (-> & ? & _). auto.
Qed.

(** A proper ratio scales down. *)
Definition proper (r : Ratio) : Prop := 0 <= numer r <= denom r.

Lemma scale_proper r t : proper r -> denom r <> 0 -> 0 <= t -> 0 <= t * numer r / denom r <= t.
Proof.
  intros [H0 H1] Hd Ht. split; [apply Z.div_pos; nia|]. apply Z.div_le_upper_bound; nia.
Qed.

(** Two amounts scaled by a balance over their sum fit in the balance. *)
Lemma scaled_sum_le b need x y :
  0 < need -> 0 <= b -> x + y = need -> x * b / need + y * b / need <= b.
Proof.
  intros Hn Hb Hxy. pose proof (fdiv_spec (x * b) need Hn). pose proof (fdiv_spec (y * b) need Hn). nia.
Qed.

Definition order_wf (o : Order) : Prop :=
  u256 (buy_amount o) /\ u256 (sell_amount o) /\ u256 (fee_amount o) /\ u256 (executed_amount o).

Lemma from_order_proper o b r :
  order_wf o -> u256 b -> from_order_with_balance o b = Ok r -> proper (execution r) /\ proper (balance r).
Proof.
  intros (Hb & Hs & Hf & He) Hbal Hr. unfold from_order_with_balance, proper, u256 in *.
  destruct (partially_fillable o); inv_ok; cbn [execution balance].
  - apply checked_sub_Some in Hv as [-> ?]. cbn [numer denom]. split; [lia|].
    destruct (Z.ltb_spec b v2); cbn [numer denom one]; lia.
  - split; case_match; cbn [numer denom one zero]; lia.
Qed.
End ratios.

(** * Properties *)
Section properties.
Import ModelOrder RemainingAmounts.

(** The remaining amounts are affordable and never grow: for any 256-bit
    order, what remains of an amount is at most that amount, and the
    remaining sell and fee amounts together are covered by the balance they
    were computed for, for fill-or-kill and partially fillable orders alike. *)
Theorem remaining_affordable (o : Order) (sell_balance : Z) (r : Remaining) (s f : Z) :
  order_wf o -> u256 sell_balance ->
  from_order_with_balance o sell_balance = Ok r ->
  remaining r (sell_amount o) = Ok s -> remaining r (fee_amount o) = Ok f ->
  0 <= s <= sell_amount o /\ 0 <= f <= fee_amount o /\ s + f <= sell_balance.
Proof.
  intros Hwf Hb Hr Hs Hf. destruct (from_order_proper _ _ _ Hwf Hb Hr) as [He Hbal].
  apply remaining_Ok in Hs as (Hde & Hdb & ->). apply remaining_Ok in Hf as (_ & _ & ->).
  destruct Hwf as (_ & Hsell & Hfee & _).
  pose proof (scale_proper _ (sell_amount o) He Hde (proj1 Hsell)) as Hse.
  pose proof (scale_proper _ (fee_amount o) He Hde (proj1 Hfee)) as Hfe.
  pose proof (scale_proper _ _ Hbal Hdb (proj1 Hse)). pose proof (scale_proper _ _ Hbal Hdb (proj1 Hfe)).
  split; [lia|]. split; [lia|]. unfold u256 in Hb.
  unfold from_order_with_balance in Hr. destruct (partially_fillable o); inv_ok.
  - apply scalar_mul_Some in Hv0 as (-> & _). apply scalar_mul_Some in Hv1 as (-> & _).
    apply checked_add_Some in Hv2 as [-> _]. cbn [execution balance numer denom] in *.
    destruct (sell_balance <? _) eqn:Hlt; bool_to_prop; cbn [numer denom one] in *.
    + apply scaled_sum_le; lia.
    + rewrite !Z.mul_1_r, !Z.div_1_r. lia.
  - apply checked_add_Some in Hv as [-> _]. cbn [execution balance] in *.
    destruct (_ <=? sell_balance) eqn:Hle, (executed_amount o =? 0); bool_to_prop;
      cbn [numer denom one zero] in *; rewrite ?Z.mul_0_r, ?Z.mul_1_r, ?Z.div_1_r, ?Zdiv_0_l; lia.
Qed.

(** A partially fillable order with enough balance has exactly the unfilled
    part left: what remains of the amount its kind fixes is the total minus
    what was executed, and an order that has executed more than its total, or
    whose total is zero, is an error. *)
Theorem remaining_is_unexecuted (o : Order) (total : Z) :
  order_wf o -> partially_fillable o = true ->
  total = match kind o with Buy => buy_amount o | Sell => sell_amount o end ->
  (forall r left, from_order o = Ok r -> remaining r total = Ok left ->
    left = total - executed_amount o /\ 0 < total) /\
  (total < executed_amount o -> from_order o = Err ExecutedLargerThanTotal).
Proof.
  intros (Hb & Hs & Hf & He) Hp Ht. unfold from_order, from_order_with_balance. rewrite Hp, <- Ht.
  assert (Hu : u256 total) by (subst total; by destruct (kind o)).
  clear Ht. split.
  - intros r left Hr Hl. inv_ok. apply checked_sub_Some in Hv as [-> Hle].
    apply scalar_mul_Some in Hv0 as (-> & Hne & _). apply scalar_mul_Some in Hv1 as (-> & _).
    apply checked_add_Some in Hv2 as [-> Hfit]. apply remaining_Ok in Hl as (_ & _ & ->).
    cbn [execution balance numer denom] in *.
    destruct (U256_MAX <? _) eqn:Hlt; bool_to_prop; [lia|]. cbn [numer denom one].
    rewrite Z.mul_1_r, Z.div_1_r, (Z.mul_comm total), Z.div_mul by done.
    unfold u256 in Hu. lia.
  - intros Hlt. unfold checked_sub. destruct (Z.leb_spec (executed_amount o) total); [lia|done].
Qed.

Let order : RemainingAmounts.Order := RemainingAmounts.mkOrder Sell 100 100 101 90 true.

Lemma order_is_wf : order_wf order.
Proof. repeat (split; [split; closed|]). split; closed. Qed.

Lemma remaining_affordable_witness : 0 <= 7 <= 100 /\ 0 <= 7 <= 101 /\ 7 + 7 <= 15.
Proof.
  apply (remaining_affordable order 15 (mkRemaining (mkRatio 10 100) (mkRatio 15 20)) 7 7);
    [exact order_is_wf|split; closed|vm_compute; reflexivity..].
Defined.

Lemma remaining_is_unexecuted_witness :
  (forall r left, from_order order = Ok r -> remaining r 100 = Ok left ->
    left = 100 - executed_amount order /\ 0 < 100) /\
  (100 < executed_amount order -> from_order order = Err ExecutedLargerThanTotal).
Proof. apply (remaining_is_unexecuted order 100 order_is_wf); reflexivity. Defined.
End properties.
