(* ===== verification/RecentBlockCache.v ===== *)
(** The cache of recent on-chain data: crates/shared/src/recent_block_cache.rs.

    [Mutexed] with its operations, and [fetch] and [update_cache_at_block] cut
    where the code releases the lock, so that each critical section is one
    definition and fetches and updates can interleave. The fetcher and the
    LRU cache of the [cached] crate are parameters; the sharing of identical
    requests in flight does not change their answers and is left out. *)
From Stdlib Require Import ZArith Lia.
From stdpp Require Import prelude gmap sorting.
From S2P Require Import Prelude.

Open Scope Z_scope.
Open Scope rust_scope.

(** The trait [CacheKey<V>] with the order it extends. *)
Class CacheKey (K V : Type) : Type := {
  key_le : relation K;
  first_ord : K;
  for_value : V -> K;
  key_le_dec :: RelDecision key_le;
  key_le_total :: Total key_le;
  key_le_trans :: Transitive key_le;
  first_ord_least : forall k, key_le first_ord k;
}.

Inductive Block : Type := Recent | Number (number : Z).

Module RecentBlockCache.
Definition REQUEST_BATCH_SIZE : nat := 200.

Section cache.
Context {K V : Type} `{Countable K} `{CK : !CacheKey K V}.

(** [cached::SizedCache<K, ()>] *)
Context {lru : Type} (with_size : Z -> lru) (cache_set : K -> lru -> lru) (key_order : lru -> list K).

(** [Itertools::unique] *)
Fixpoint unique (seen l : list K) : list K :=
  match l with
  | [] => []
  | k :: l => if decide (k ∈ seen) then unique seen l else k :: unique (k :: seen) l
  end.

Record Mutexed : Type := mkMutexed {
  recently_used : lru;
  cached_most_recently_at_block : gmap K Z;
  entries : gmap (Z * K) (list V);
  last_update_block : Z;
  maximum_recent_block_age : Z;
}.

Definition new (entries_lru_size current_block maximum_recent_block_age : Z) : Mutexed :=
  mkMutexed (with_size entries_lru_size) ∅ ∅ current_block maximum_recent_block_age.

Definition set_recently_used (self : Mutexed) (key : K) : Mutexed :=
  mkMutexed (cache_set key (recently_used self)) (cached_most_recently_at_block self)
    (entries self) (last_update_block self) (maximum_recent_block_age self).

Definition get (self : Mutexed) (key : K) (block : option Z) : option (list V) * Mutexed :=
  let allow_background_updates := bool_decide (is_Some block) in
  let block :=
    match block with
    | Some block => Some block
    | None =>
        match cached_most_recently_at_block self !! key with
        | Some block =>
            if saturating_sub (last_update_block self) block <=? maximum_recent_block_age self
            then Some block else None
        | None => None
        end
    end in
  match block with
  | None => (None, self)
  | Some block =>
      let result := entries self !! (block, key) in
      let used := match result with Some (_ :: _) => true | _ => false end in
      (result, if allow_background_updates && used then set_recently_used self key else self)
  end.

Definition insert_key (block : Z) (self : Mutexed) (key : K) : Mutexed :=
  mkMutexed (recently_used self)
    (<[key := match cached_most_recently_at_block self !! key with
              | Some value => Z.max value block
              | None => block
              end]> (cached_most_recently_at_block self))
    (<[(block, key) := []]> (entries self))
    (last_update_block self) (maximum_recent_block_age self).

Definition insert_value (block : Z) (self : Mutexed) (value : V) : res unit Mutexed :=
  let* vs := opt_expect (entries self !! (block, for_value value)) in
  Ok (mkMutexed (recently_used self) (cached_most_recently_at_block self)
    (<[(block, for_value value) := vs ++ [value]]> (entries self))
    (last_update_block self) (maximum_recent_block_age self)).

Definition insert (self : Mutexed) (block : Z) (keys : list K) (values : list V) : res unit Mutexed :=
  rfold (insert_value block) (foldl (insert_key block) self keys) values.

(** The order of the keys of [entries], and the entries from the newest block
    to the oldest. *)
Definition entry_le (x y : (Z * K) * list V) : Prop :=
  x.1.1 < y.1.1 \/ x.1.1 = y.1.1 /\ key_le x.1.2 y.1.2.
#[local] Instance entry_le_dec : RelDecision entry_le := fun x y => _.
Definition iter_rev (m : gmap (Z * K) (list V)) : list ((Z * K) * list V) :=
  reverse (merge_sort entry_le (map_to_list m)).

(** The loop that clears all but the newest entry of each key. *)
Fixpoint keep_newest (cached_keys : gset K) (l : list ((Z * K) * list V)) : list ((Z * K) * list V) :=
  match l with
  | [] => []
  | (block, key, values) :: l =>
      if decide (key ∈ cached_keys) then (block, key, []) :: keep_newest cached_keys l
      else (block, key, values) :: keep_newest ({[key]} ∪ cached_keys) l
  end.

(** [split_off(&(oldest, first_ord))]: the entries at or after that key. *)
Definition split_off (oldest_to_keep : Z) (m : gmap (Z * K) (list V)) : gmap (Z * K) (list V) :=
  filter (fun e => oldest_to_keep < e.1.1 \/ oldest_to_keep = e.1.1 /\ key_le first_ord e.1.2) m.

Definition remove_cached_blocks_older_than (self : Mutexed) (oldest_to_keep : Z) : Mutexed :=
  let entries := split_off oldest_to_keep (entries self) in
  let entries := keep_newest ∅ (iter_rev entries) in
  let entries := list_to_map (filter (fun e => e.2 <> []) entries) in
  mkMutexed (recently_used self)
    (filter (fun e => oldest_to_keep <= e.2) (cached_most_recently_at_block self))
    entries (last_update_block self) (maximum_recent_block_age self).

Definition keys_of_recently_used_entries (self : Mutexed) : list K := key_order (recently_used self).

(** ** Fetching

    [attempts key block n] is the answer of the fetcher to the [n]th request. *)
Context (attempts : K -> Z -> nat -> option (list V)) (maximum_retries : nat).

Fixpoint first_success (f : nat -> option (list V)) (n from : nat) : option (list V) :=
  match n with
  | O => None
  | S n => match f from with Some values => Some values | None => first_success f n (S from) end
  end.
Definition fetch_inner (key : K) (block : Z) : option (list V) :=
  first_success (attempts key block) (S maximum_retries) 0.

(** Failed keys contribute nothing. *)
Definition fetch_inner_many (keys : list K) (block : Z) : list V :=
  concat (omap (fun key => fetch_inner key block) keys).

(** [fetch] up to the first release of the lock. *)
Definition lookup_phase (self : Mutexed) (keys : list K) (block : option Z)
  : list V * gset K * Z * Mutexed :=
  let '(hits, misses, self) := foldl (fun '(hits, misses, self) key =>
    match get self key block with
    | (Some values, self) => (hits ++ values, misses, self)
    | (None, self) => (hits, {[key]} ∪ misses, self)
    end) ([], ∅, self) keys in
  (hits, misses, last_update_block self, self).

(** [fetch] from a chunk's answer to the next release of the lock. *)
Definition store_phase (self : Mutexed) (cache_miss_block : Z) (chunk : list K) (fetched : list V)
    (track : bool) : res unit Mutexed :=
  let found_keys := unique [] (map for_value fetched) in
  let* self := insert self cache_miss_block chunk fetched in
  Ok (if track then foldl set_recently_used self found_keys else self).

Definition fetch (self : Mutexed) (keys : list K) (block : Block) : res unit (list V * Mutexed) :=
  let block := match block with Recent => None | Number number => Some number end in
  let '(cache_hits, cache_misses, last_update_block, self) := lookup_phase self keys block in
  if decide (cache_misses = ∅) then Ok (cache_hits, self) else
  let cache_miss_block := default last_update_block block in
  rfold (fun '(cache_hits, self) chunk =>
    let fetched := fetch_inner_many chunk cache_miss_block in
    let* self := store_phase self cache_miss_block chunk fetched (bool_decide (is_Some block)) in
    Ok (cache_hits ++ fetched, self))
    (cache_hits, self) (chunks REQUEST_BATCH_SIZE (elements cache_misses)).

(** [update_cache_at_block] after its fetch. *)
Definition update_phase (number_of_blocks_to_cache : Z) (self : Mutexed) (new_block : Z)
    (keys : list K) (found_values : list V) : res unit Mutexed :=
  let* self := insert self new_block keys found_values in
  let oldest_to_keep := saturating_sub new_block (number_of_blocks_to_cache - 1) in
  let self := remove_cached_blocks_older_than self oldest_to_keep in
  Ok (mkMutexed (recently_used self) (cached_most_recently_at_block self) (entries self)
    new_block (maximum_recent_block_age self)).

Definition update_cache_at_block (number_of_blocks_to_cache : Z) (self : Mutexed) (new_block : Z)
  : res unit Mutexed :=
  let keys := unique [] (keys_of_recently_used_entries self) in
  let found_values := fetch_inner_many keys new_block in
  update_phase number_of_blocks_to_cache self new_block keys found_values.

(** The critical sections of concurrent fetches and updates; keys come out of a
    [HashSet], so there are no duplicates. *)
Inductive step (number_of_blocks_to_cache : Z) (self : Mutexed) : Mutexed -> Prop :=
| step_lookup keys block hits misses last self' :
    lookup_phase self keys block = (hits, misses, last, self') ->
    step number_of_blocks_to_cache self self'
| step_store block chunk track self' :
    NoDup chunk ->
    store_phase self block chunk (fetch_inner_many chunk block) track = Ok self' ->
    step number_of_blocks_to_cache self self'
| step_update new_block keys self' :
    NoDup keys ->
    update_phase number_of_blocks_to_cache self new_block keys (fetch_inner_many keys new_block)
      = Ok self' ->
    step number_of_blocks_to_cache self self'.
End cache.
End RecentBlockCache.

(** * The operations on [Mutexed] *)
Section lemmas.
Import RecentBlockCache.
Context {K V : Type} `{Countable K} `{CK : !CacheKey K V} {lru : Type}.
Implicit Types (m : @Mutexed K V _ _ lru) (k : K) (b : Z) (vs : list V).

(** The values of a list that belong to a key. *)
Definition values_of k vs : list V := filter (fun v => for_value v = k) vs.

Lemma values_of_nil k vs : (forall v, v ∈ vs -> for_value v <> k) -> values_of k vs = [].
Proof.
  unfold values_of. induction vs as [|v vs IH]; intros Hv; [done|].
  rewrite filter_cons, decide_False by (apply Hv; by left). apply IH. intros. apply Hv. by right.
Qed.

Lemma values_of_app k vs vs' : values_of k (vs ++ vs') = values_of k vs ++ values_of k vs'.
Proof. apply filter_app. Qed.

Lemma values_of_all k vs : (forall v, v ∈ vs -> for_value v = k) -> values_of k vs = vs.
Proof.
  unfold values_of. induction vs as [|v vs IH]; intros Hv; [done|].
  rewrite filter_cons, decide_True by (apply Hv; by left). f_equal. apply IH. intros. apply Hv. by right.
Qed.

Lemma insert_keys_entries b keys m b' k :
  entries (foldl (insert_key b) m keys) !! (b', k) =
  if decide (b' = b /\ k ∈ keys) then Some [] else entries m !! (b', k).
Proof.
  revert m. induction keys as [|k' keys IH]; intros m; cbn [foldl].
  { destruct (decide _) as [[_ ?%elem_of_nil]|]; done. }
  rewrite IH. unfold insert_key. cbn [entries].
  destruct (decide (b' = b /\ k ∈ keys)) as [[-> Hin]|Hnot].
  { rewrite decide_True; [done|]. split; [done|by right]. }
  destruct (decide (b' = b /\ k ∈ k' :: keys)) as [[-> Hin]|Hnot'].
  - apply elem_of_cons in Hin as [->|Hin]; [|naive_solver]. by rewrite lookup_insert_eq.
  - rewrite lookup_insert_ne; [done|]. intros [= -> ->]. apply Hnot'. split; [done|by left].
Qed.

Lemma insert_keys_cached b keys m k :
  cached_most_recently_at_block (foldl (insert_key b) m keys) !! k =
  if decide (k ∈ keys) then
    Some (match cached_most_recently_at_block m !! k with Some x => Z.max x b | None => b end)
  else cached_most_recently_at_block m !! k.
Proof.
  revert m. induction keys as [|k' keys IH]; intros m; cbn [foldl].
  { destruct (decide _) as [?%elem_of_nil|]; done. }
  rewrite IH. unfold insert_key. cbn [cached_most_recently_at_block].
  destruct (decide (k' = k)) as [->|Hne].
  - rewrite lookup_insert_eq. rewrite (decide_True (P := k ∈ k :: keys)) by by left.
    destruct (decide (k ∈ keys)); [|done]. f_equal. case_match; lia.
  - rewrite lookup_insert_ne by done.
    destruct (decide (k ∈ keys)); destruct (decide (k ∈ k' :: keys)); set_solver.
Qed.

(** The other fields are untouched. *)
Definition same_frame m m' : Prop :=
  recently_used m' = recently_used m /\ last_update_block m' = last_update_block m /\
  maximum_recent_block_age m' = maximum_recent_block_age m.

Lemma insert_keys_frame b keys m : same_frame m (foldl (insert_key b) m keys).
Proof.
  revert m. induction keys as [|k keys IH]; intros m; cbn [foldl]; [done|].
  destruct (IH (insert_key b m k)) as (H1 & H2 & H3). by unfold same_frame; rewrite H1, H2, H3.
Qed.

Lemma insert_values_Ok b vs m :
  Forall (fun v => is_Some (entries m !! (b, for_value v))) vs ->
  exists m', rfold (insert_value b) m vs = Ok m' /\ same_frame m m' /\
    cached_most_recently_at_block m' = cached_most_recently_at_block m /\
    forall b' k, entries m' !! (b', k) =
      if decide (b' = b) then (fun l => l ++ values_of k vs) <$> entries m !! (b', k)
      else entries m !! (b', k).
Proof.
  revert m. induction vs as [|v vs IH]; intros m Hall; cbn [rfold].
  { exists m. split_and!; try done. intros b' k. destruct (decide _); [|done].
    destruct (entries m !! (b', k)); simpl; by rewrite ?app_nil_r. }
  apply Forall_cons in Hall as [[l Hl] Hall]. unfold insert_value at 1. rewrite Hl. cbn [opt_expect rbind].
  match goal with |- context [rfold _ ?m1 vs] => destruct (IH m1) as (m' & Hr & Hf & Hc & He) end.
  { eapply Forall_impl; [exact Hall|]. intros v' [l' Hl']. cbn [entries].
    destruct (decide (for_value v' = for_value v)) as [->|Hne].
    - rewrite lookup_insert_eq. eauto.
    - rewrite lookup_insert_ne by congruence. eauto. }
  exists m'. split; [done|]. split; [exact Hf|]. split; [exact Hc|].
  intros b' k. rewrite He. cbn [entries]. destruct (decide (b' = b)) as [->|Hb].
  - unfold values_of. rewrite filter_cons. destruct (decide (for_value v = k)) as [<-|Hk].
    + rewrite lookup_insert_eq, Hl. cbn. by rewrite <- app_assoc.
    + by rewrite lookup_insert_ne by congruence.
  - by rewrite lookup_insert_ne by congruence.
Qed.

(** [insert] succeeds when every value belongs to one of the keys, and leaves
    exactly the values of each key under it. *)
Lemma insert_Ok b keys vs m :
  Forall (fun v => for_value v ∈ keys) vs ->
  exists m', insert m b keys vs = Ok m' /\ same_frame m m' /\
    (forall b' k, entries m' !! (b', k) =
      if decide (b' = b /\ k ∈ keys) then Some (values_of k vs) else entries m !! (b', k)) /\
    (forall k, cached_most_recently_at_block m' !! k =
      if decide (k ∈ keys) then
        Some (match cached_most_recently_at_block m !! k with Some x => Z.max x b | None => b end)
      else cached_most_recently_at_block m !! k).
Proof.
  intros Hall. unfold insert.
  destruct (insert_values_Ok b vs (foldl (insert_key b) m keys)) as (m' & Hr & Hf & Hc & He).
  { eapply Forall_impl; [exact Hall|]. cbn beta. intros v Hv. rewrite insert_keys_entries.
    rewrite decide_True by done. eauto. }
  exists m'. split; [done|]. split.
  { destruct (insert_keys_frame b keys m) as (? & ? & ?), Hf as (? & ? & ?). split_and!; congruence. }
  split; [|intros k; by rewrite Hc, insert_keys_cached].
  intros b' k. rewrite He, insert_keys_entries.
  destruct (decide (b' = b)) as [->|Hb].
  - destruct (decide (b = b /\ k ∈ keys)) as [_|Hk]; [done|].
    destruct (entries m !! (b, k)); [|done]. cbn. f_equal.
    replace (values_of k vs) with (@nil V); [by rewrite app_nil_r|].
    symmetry. apply values_of_nil. intros v Hv <-. apply Hk. split; [done|].
    exact (Forall_elem _ _ _ Hall Hv).
  - destruct (decide (b' = b /\ k ∈ keys)) as [[]|]; done.
Qed.
End lemmas.

(** * Eviction *)
Section eviction.
Import RecentBlockCache.
Context {K V : Type} `{Countable K} `{CK : !CacheKey K V} {lru : Type}.
Implicit Types (m : @Mutexed K V _ _ lru) (k : K) (b : Z) (vs : list V).

#[local] Instance entry_le_decision : RelDecision (@entry_le K V CK) := fun x y => _.

Lemma StronglySorted_reverse {A} (R : relation A) (l : list A) :
  StronglySorted R l -> StronglySorted (flip R) (reverse l).
Proof.
  induction 1 as [|x l Hs IH Hx]; [constructor|]. rewrite reverse_cons. apply StronglySorted_app_2.
  - intros y z Hy ->%list_elem_of_singleton. rewrite elem_of_reverse in Hy. exact (Forall_elem _ _ _ Hx Hy).
  - exact IH.
  - repeat constructor.
Qed.

Lemma entry_le_total (x y : (Z * K) * list V) : entry_le x y \/ entry_le y x.
Proof.
  unfold entry_le. destruct (key_le_total (V := V) x.1.2 y.1.2), (Z.lt_trichotomy x.1.1 y.1.1) as [|[]]; auto.
Qed.

Lemma entry_le_trans (x y z : (Z * K) * list V) : entry_le x y -> entry_le y z -> entry_le x z.
Proof.
  unfold entry_le. intros [|[? H1]] [|[? H2]]; [left; lia..|]. right. split; [lia|].
  exact (key_le_trans (V := V) _ _ _ H1 H2).
Qed.

Lemma iter_rev_sorted (e : gmap (Z * K) (list V)) : StronglySorted (flip entry_le) (iter_rev e).
Proof.
  apply StronglySorted_reverse. apply StronglySorted_merge_sort.
  - intros x y z. apply entry_le_trans.
  - intros x y. apply entry_le_total.
Qed.

Lemma iter_rev_elem (e : gmap (Z * K) (list V)) x : x ∈ iter_rev e <-> e !! x.1 = Some x.2.
Proof.
  unfold iter_rev. rewrite elem_of_reverse, merge_sort_Permutation. destruct x as [bk vs].
  apply elem_of_map_to_list.
Qed.

Lemma iter_rev_NoDup (e : gmap (Z * K) (list V)) : NoDup (map fst (iter_rev e)).
Proof.
  unfold iter_rev. change (NoDup (fst <$> reverse (merge_sort entry_le (map_to_list e)))).
  rewrite reverse_Permutation, merge_sort_Permutation. apply NoDup_fst_map_to_list.
Qed.

Lemma keep_newest_fst C (l : list ((Z * K) * list V)) : map fst (keep_newest C l) = map fst l.
Proof.
  revert C. induction l as [|[[b k] vs] l IH]; intros C; [done|]. cbn [keep_newest].
  destruct (decide (k ∈ C)); cbn [map fst]; by rewrite IH.
Qed.

(** The nonempty entries that survive are the newest of their key. *)
Lemma keep_newest_elem C (l : list ((Z * K) * list V)) b k vs :
  StronglySorted (flip entry_le) l -> NoDup (map fst l) -> vs <> [] ->
  (b, k, vs) ∈ keep_newest C l <->
  (b, k, vs) ∈ l /\ (k ∉ C) /\ forall b' vs', (b', k, vs') ∈ l -> b' <= b.
Proof.
  intros Hs Hnd Hne. revert C. induction l as [|[[b0 k0] v0] l IH]; intros C.
  { split; [by intros ?%elem_of_nil|by intros [?%elem_of_nil _]]. }
  apply StronglySorted_inv in Hs as [Hs Hhead]. cbn [map fst] in Hnd.
  apply NoDup_cons in Hnd as [Hk0 Hnd]. specialize (IH Hs Hnd). cbn [keep_newest].
  assert (Hle : forall b' vs', (b', k0, vs') ∈ l -> b' <= b0).
  { intros b' vs' Hin. pose proof (Forall_elem _ _ _ Hhead Hin) as Ho.
    unfold flip, entry_le in Ho. cbn in Ho. lia. }
  assert (Hnot : forall vs', (b0, k0, vs') ∉ l).
  { intros vs' Hin. apply Hk0. apply list_elem_of_fmap. by exists (b0, k0, vs'). }
  destruct (decide (k0 ∈ C)) as [HC|HC].
  - rewrite elem_of_cons, IH. split.
    + intros [?|(Hin & HkC & Hall)]; [simplify_eq|]. split; [by right|]. split; [done|].
      intros b' vs' [?|?]%elem_of_cons; [by simplify_eq|eauto].
    + intros ([?|Hin]%elem_of_cons & HkC & Hall); [by simplify_eq|]. right. split; [done|].
      split; [done|]. intros b' vs' Hin'. apply (Hall b' vs'). by right.
  - rewrite elem_of_cons, IH. split.
    + intros [?|(Hin & HkC & Hall)]; [simplify_eq|].
      * split; [by left|]. split; [done|]. intros b' vs' [?|?]%elem_of_cons; [by simplify_eq|eauto].
      * split; [by right|]. split; [set_solver|].
        intros b' vs' [?|?]%elem_of_cons; [simplify_eq; set_solver|eauto].
    + intros ([?|Hin]%elem_of_cons & HkC & Hall); [by left|].
      destruct (decide (k = k0)) as [->|Hk].
      * exfalso. assert (b0 <= b) by (apply (Hall b0 v0); by left).
        assert (b <= b0) by eauto. assert (b = b0) as -> by lia. by apply (Hnot vs).
      * right. split; [done|]. split; [set_solver|]. intros b' vs' Hin'. apply (Hall b' vs'). by right.
Qed.

Lemma split_off_lookup (oldest : Z) (e : gmap (Z * K) (list V)) b k vs :
  split_off oldest e !! (b, k) = Some vs <-> e !! (b, k) = Some vs /\ oldest <= b.
Proof.
  unfold split_off. rewrite map_lookup_filter_Some. cbn [fst snd].
  pose proof (first_ord_least (V := V) k). split.
  - intros [? [|[]]]; split; (done || lia).
  - intros [? ?]. split; [done|]. destruct (decide (oldest = b)); [by right|left; lia].
Qed.

(** What eviction keeps: the newest entry of each key, if it is recent enough
    and not empty. *)
Lemma remove_lookup m (oldest : Z) b k vs :
  entries (remove_cached_blocks_older_than m oldest) !! (b, k) = Some vs <->
  entries m !! (b, k) = Some vs /\ oldest <= b /\ vs <> [] /\
  forall b', b < b' -> entries m !! (b', k) = None.
Proof.
  unfold remove_cached_blocks_older_than. cbn [entries]. set (l := iter_rev _).
  pose proof (iter_rev_sorted (split_off oldest (entries m))) as Hs. fold l in Hs.
  pose proof (iter_rev_NoDup (split_off oldest (entries m))) as Hnd. fold l in Hnd.
  assert (Hnd' : NoDup (map fst (filter (fun e => e.2 <> []) (keep_newest ∅ l)))).
  { assert (Hsub : NoDup (map fst (keep_newest ∅ l))) by by rewrite keep_newest_fst.
    revert Hsub. generalize (keep_newest ∅ l). clear. intros l. induction l as [|x l IH]; [done|].
    cbn [map]. intros [Hx Hl]%NoDup_cons. rewrite filter_cons. case_decide; [|auto].
    cbn [map]. apply NoDup_cons. split; [|auto]. intros Hin. apply Hx.
    apply list_elem_of_fmap in Hin as (y & -> & [_ Hy]%list_elem_of_filter).
    apply list_elem_of_fmap. eauto. }
  assert (Hl : forall b' vs', (b', k, vs') ∈ l <-> entries m !! (b', k) = Some vs' /\ oldest <= b').
  { intros b' vs'. subst l. rewrite iter_rev_elem. apply split_off_lookup. }
  rewrite <- elem_of_list_to_map by exact Hnd'. rewrite list_elem_of_filter. cbn [snd]. split.
  - intros [Hne Hin]. apply keep_newest_elem in Hin as (Hin & _ & Hall); [|done..].
    apply Hl in Hin as [Hm Hold]. split_and!; try done.
    intros b' Hb'. destruct (entries m !! (b', k)) as [vs'|] eqn:He; [|done].
    assert (b' <= b); [|lia]. apply (Hall b' vs'), Hl. split; [done|lia].
  - intros (Hm & Hold & Hne & Hall). split; [done|]. apply keep_newest_elem; [done..|].
    split; [by apply Hl|]. split; [set_solver|]. intros b' vs' [Hin Hb']%Hl.
    apply Z.nlt_ge. intros Hlt. by rewrite Hall in Hin.
Qed.
End eviction.

(** * Coherence with the fetcher *)
Section coherence.
Import RecentBlockCache.
Context {K V : Type} `{Countable K} `{CK : !CacheKey K V} {lru : Type}.
Context (cache_set : K -> lru -> lru) (attempts : K -> Z -> nat -> option (list V)) (retries : nat).

(** The fetcher answers a request for a key with values of that key. *)
Context (attempts_key : forall k b n vs, attempts k b n = Some vs -> Forall (fun v => for_value v = k) vs).
Implicit Types (m : @Mutexed K V _ _ lru) (k : K) (b : Z) (vs : list V).

(** What the cache stands for: the answer for a key at a block, nothing when
    every attempt failed. *)
Definition answer b k : list V := default [] (fetch_inner attempts retries k b).

(** Every entry is an answer, and the block at which a key is cached most
    recently is known and not older than any of its entries. *)
Definition coherent m : Prop :=
  (forall b k vs, entries m !! (b, k) = Some vs -> vs = answer b k) /\
  (forall b k vs, entries m !! (b, k) = Some vs ->
    exists b', cached_most_recently_at_block m !! k = Some b' /\ b <= b').

Lemma answer_key b k : Forall (fun v => for_value v = k) (answer b k).
Proof.
  unfold answer, fetch_inner. generalize 0%nat. generalize (S retries). intros n. 
  induction n as [|n IH]; intros from; cbn [first_success]; [constructor|].
  destruct (attempts k b from) as [vs|] eqn:Ha; [|apply IH]. by eapply attempts_key.
Qed.

Lemma fetch_inner_many_answers keys b :
  fetch_inner_many attempts retries keys b = concat (map (answer b) keys).
Proof.
  unfold fetch_inner_many, answer. induction keys as [|k keys IH]; [done|].
  cbn [omap list_omap map]. destruct (fetch_inner attempts retries k b); simpl; by rewrite <- IH.
Qed.

Lemma fetched_keys keys b :
  Forall (fun v => for_value v ∈ keys) (concat (map (answer b) keys)).
Proof.
  induction keys as [|k keys IH]; [constructor|]. cbn [map concat]. apply Forall_app. split.
  - eapply Forall_impl; [apply answer_key|]. cbn. intros v ->. by left.
  - eapply Forall_impl; [exact IH|]. cbn. intros v Hv. by right.
Qed.

Lemma values_of_fetched keys b k :
  NoDup keys -> k ∈ keys -> values_of k (concat (map (answer b) keys)) = answer b k.
Proof.
  induction 1 as [|k' keys Hk' Hnd IH]; [by intros ?%elem_of_nil|]. cbn [map concat].
  rewrite values_of_app. intros [->|Hk]%elem_of_cons.
  - rewrite (values_of_all k'), (values_of_nil k'); [by rewrite app_nil_r| |].
    + intros v Hv Heq. apply Hk'. rewrite <- Heq.
      exact (Forall_elem _ _ _ (fetched_keys keys b) Hv).
    + intros v Hv. exact (Forall_elem _ _ _ (answer_key b k') Hv).
  - rewrite (IH Hk), (values_of_nil k (answer b k')); [done|].
    intros v Hv. rewrite (Forall_elem _ _ _ (answer_key b k') Hv). congruence.
Qed.

(** Storing answers succeeds and keeps the cache coherent. *)
Lemma insert_coherent m b keys :
  coherent m -> NoDup keys ->
  exists m', insert m b keys (fetch_inner_many attempts retries keys b) = Ok m' /\
    coherent m' /\ same_frame m m' /\
    (forall k, k ∈ keys -> entries m' !! (b, k) = Some (answer b k)) /\
    (forall b' k, (b' <> b \/ k ∉ keys) -> entries m' !! (b', k) = entries m !! (b', k)).
Proof.
  intros [Hc1 Hc2] Hnd. rewrite fetch_inner_many_answers.
  destruct (insert_Ok b keys _ m (fetched_keys keys b)) as (m' & Hr & Hf & He & Hca).
  exists m'. split; [done|].
  assert (Hin : forall k, k ∈ keys -> entries m' !! (b, k) = Some (answer b k)).
  { intros k Hk. rewrite He, decide_True by done. by rewrite values_of_fetched. }
  assert (Hout : forall b' k, (b' <> b \/ k ∉ keys) -> entries m' !! (b', k) = entries m !! (b', k)).
  { intros b' k Hor. rewrite He, decide_False; [done|]. naive_solver. }
  split; [split|by split_and!].
  - intros b' k vs Hl. destruct (decide (b' = b /\ k ∈ keys)) as [[-> Hk]|Hn].
    + rewrite Hin in Hl by done. congruence.
    + rewrite He, decide_False in Hl by done. eauto.
  - intros b' k vs Hl. rewrite Hca. destruct (decide (b' = b /\ k ∈ keys)) as [[-> Hk]|Hn].
    + rewrite decide_True by done. eexists. split; [done|]. case_match; lia.
    + rewrite He, decide_False in Hl by done. destruct (Hc2 _ _ _ Hl) as (b2 & Hb2 & Hle).
      rewrite Hb2. destruct (decide (k ∈ keys)); eexists; (split; [done|lia]).
Qed.

Lemma remove_coherent m oldest : coherent m -> coherent (remove_cached_blocks_older_than m oldest).
Proof.
  intros [Hc1 Hc2]. split; intros b k vs (Hm & Hold & _)%remove_lookup; [eauto|].
  destruct (Hc2 _ _ _ Hm) as (b' & Hb' & Hle). exists b'. split; [|done].
  unfold remove_cached_blocks_older_than. cbn [cached_most_recently_at_block].
  apply map_lookup_filter_Some. split; [done|]. cbn. lia.
Qed.

(** Looking up neither changes the entries nor the blocks. *)
Definition same_data m m' : Prop :=
  entries m' = entries m /\ cached_most_recently_at_block m' = cached_most_recently_at_block m /\
  last_update_block m' = last_update_block m /\
  maximum_recent_block_age m' = maximum_recent_block_age m.

Lemma same_data_coherent m m' : same_data m m' -> coherent m -> coherent m'.
Proof. intros (He & Hc & _) Hm. unfold coherent. by rewrite He, Hc. Qed.

Lemma same_data_trans m1 m2 m3 : same_data m1 m2 -> same_data m2 m3 -> same_data m1 m3.
Proof. intros (? & ? & ? & ?) (? & ? & ? & ?). split_and!; congruence. Qed.

Lemma get_same_data m k block : same_data m (get cache_set m k block).2.
Proof. unfold get. repeat case_match; simplify_eq/=; try case_match; done. Qed.

Lemma track_same_data m keys : same_data m (foldl (set_recently_used cache_set) m keys).
Proof.
  revert m. induction keys as [|k keys IH]; intros m; cbn [foldl]; [done|].
  eapply same_data_trans; [|apply IH]. done.
Qed.

(** A hit at an exact block, and a recent hit. *)
Lemma get_exact m k b vs :
  coherent m -> (get cache_set m k (Some b)).1 = Some vs -> vs = answer b k.
Proof. intros [Hc _] Hg. unfold get in Hg. cbn [fst] in Hg. eauto. Qed.

Lemma get_recent m k vs :
  coherent m -> (get cache_set m k None).1 = Some vs ->
  exists b, vs = answer b k /\ last_update_block m - b <= maximum_recent_block_age m.
Proof.
  intros [Hc _] Hg. unfold get, saturating_sub in Hg.
  destruct (cached_most_recently_at_block m !! k) as [b|]; [|done].
  destruct (Z.leb_spec (Z.max (last_update_block m - b) 0) (maximum_recent_block_age m)); [|done].
  cbn [fst] in Hg. exists b. split; [eauto|lia].
Qed.

(** The first critical section of [fetch]: every key is answered or missed. *)
Lemma lookup_phase_exact m keys b hits misses last m' :
  coherent m -> NoDup keys ->
  lookup_phase cache_set m keys (Some b) = (hits, misses, last, m') ->
  same_data m m' /\ last = last_update_block m /\
  exists found, hits = concat (map (answer b) found) /\ found ++ elements misses ≡ₚ keys.
Proof.
  intros Hm Hnd. unfold lookup_phase.
  assert (Hg : forall keys (hits0 : list V) (misses0 : gset K) m0 (found0 : list K),
    same_data m m0 -> hits0 = concat (map (answer b) found0) ->
    NoDup keys -> (forall k, k ∈ keys -> k ∉ misses0) ->
    let '(h, mi, m1) := foldl (fun '(hits, misses, self) key =>
      match get cache_set self key (Some b) with
      | (Some values, self) => (hits ++ values, misses, self)
      | (None, self) => (hits, {[key]} ∪ misses, self)
      end) (hits0, misses0, m0) keys : list V * gset K * Mutexed in
    same_data m m1 /\ exists found, h = concat (map (answer b) found) /\
      found ++ elements mi ≡ₚ found0 ++ elements misses0 ++ keys).
  { clear - Hm. intros keys. induction keys as [|k keys IH]; intros hits0 misses0 m0 found0 Hs Hh Hnd Hdis; cbn [foldl].
    { split; [done|]. exists found0. split; [done|]. by rewrite app_nil_r. }
    apply NoDup_cons in Hnd as [Hk Hnd].
    pose proof (get_same_data m0 k (Some b)) as Hgs.
    pose proof (get_exact m0 k b) as Hge.
    destruct (get cache_set m0 k (Some b)) as [[vs|] m1]; cbn [fst snd] in *.
    - apply (IH (hits0 ++ vs) misses0 m1 (found0 ++ [k])) in Hnd.
      + destruct (foldl _ _ _) as [[h mi] m2]. destruct Hnd as [Hs' (found & -> & Hp)].
        split; [done|]. exists found. split; [done|]. rewrite Hp. solve_Permutation.
      + by eapply same_data_trans.
      + rewrite map_app, concat_app. cbn. rewrite app_nil_r, Hh.
        by rewrite (Hge vs (same_data_coherent _ _ Hs Hm) eq_refl).
      + intros k' Hk'. apply Hdis. by right.
    - apply (IH hits0 ({[k]} ∪ misses0) m1 found0) in Hnd.
      + destruct (foldl _ _ _) as [[h mi] m2]. destruct Hnd as [Hs' (found & -> & Hp)].
        split; [done|]. exists found. split; [done|]. rewrite Hp.
        rewrite elements_union_singleton by (apply Hdis; by left). solve_Permutation.
      + by eapply same_data_trans.
      + done.
      + intros k' Hk'. rewrite elem_of_union, elem_of_singleton. intros [->|?]; [done|].
        apply (Hdis k'); [by right|done]. }
  specialize (Hg keys [] ∅ m [] ltac:(done) eq_refl Hnd ltac:(set_solver)).
  destruct (foldl _ _ _) as [[h mi] m1]. destruct Hg as [Hs (found & -> & Hp)].
  intros [= <- <- <- <-]. split; [done|]. split; [by destruct Hs as (_ & _ & -> & _)|].
  exists found. split; [done|]. by rewrite elements_empty in Hp.
Qed.

Lemma store_phase_coherent m b chunk track :
  coherent m -> NoDup chunk ->
  exists m', store_phase cache_set m b chunk (fetch_inner_many attempts retries chunk b) track = Ok m' /\
    coherent m' /\ last_update_block m' = last_update_block m.
Proof.
  intros Hm Hnd. unfold store_phase.
  destruct (insert_coherent m b chunk Hm Hnd) as (m1 & -> & Hc & (_ & Hl & _) & _). cbn [rbind].
  destruct track; [|eauto]. eexists. split; [done|].
  pose proof (track_same_data m1 (unique [] (map for_value (fetch_inner_many attempts retries chunk b)))) as Hs.
  split; [by eapply same_data_coherent|]. destruct Hs as (_ & _ & -> & _). done.
Qed.

(** The loop over the chunks of the misses. *)
Lemma store_chunks m b track cs hits :
  coherent m -> NoDup (concat cs) ->
  exists m', rfold (fun '(cache_hits, self) chunk =>
      let fetched := fetch_inner_many attempts retries chunk b in
      let* self := store_phase cache_set self b chunk fetched track in
      Ok (cache_hits ++ fetched, self)) (hits, m) cs
    = (Ok (hits ++ concat (map (answer b) (concat cs)), m') : res unit _) /\ coherent m'.
Proof.
  revert m hits. induction cs as [|c cs IH]; intros m hits Hm Hnd; cbn [rfold].
  { exists m. by rewrite app_nil_r. }
  cbn [concat] in *. apply NoDup_app in Hnd as (Hc & _ & Hcs).
  destruct (store_phase_coherent m b c track Hm Hc) as (m1 & -> & Hm1 & _). cbn [rbind].
  destruct (IH m1 (hits ++ fetch_inner_many attempts retries c b) Hm1 Hcs) as (m' & -> & Hm').
  exists m'. split; [|done]. by rewrite map_app, concat_app, <- app_assoc, fetch_inner_many_answers.
Qed.

Lemma fetch_exact m keys b :
  coherent m -> NoDup keys ->
  exists vs m', fetch cache_set attempts retries m keys (Number b) = Ok (vs, m') /\
    vs ≡ₚ concat (map (answer b) keys) /\ coherent m'.
Proof.
  intros Hm Hnd. unfold fetch.
  destruct (lookup_phase cache_set m keys (Some b)) as [[[hits misses] last] m1] eqn:Hl.
  destruct (lookup_phase_exact _ _ _ _ _ _ _ Hm Hnd Hl) as (Hs & -> & found & -> & Hp).
  pose proof (same_data_coherent _ _ Hs Hm) as Hm1.
  assert (Hperm : concat (map (answer b) found) ++ concat (map (answer b) (elements misses))
    ≡ₚ concat (map (answer b) keys)).
  { rewrite <- concat_app, <- map_app. by rewrite Hp. }
  destruct (decide (misses = ∅)) as [->|Hne].
  - eexists _, m1. split; [done|]. split; [|done]. rewrite <- Hperm, elements_empty. cbn.
    by rewrite app_nil_r.
  - cbn [default].
    destruct (store_chunks m1 b true (chunks REQUEST_BATCH_SIZE (elements misses))
      (concat (map (answer b) found)) Hm1) as (m' & Hr & Hm').
    { rewrite chunks_concat by (unfold REQUEST_BATCH_SIZE; lia). apply NoDup_elements. }
    rewrite chunks_concat in Hr by (unfold REQUEST_BATCH_SIZE; lia).
    eexists _, m'. split; [exact Hr|]. by split.
Qed.

Lemma update_phase_coherent n m b keys :
  coherent m -> NoDup keys -> 0 < n -> 0 <= b ->
  exists m', update_phase n m b keys (fetch_inner_many attempts retries keys b) = Ok m' /\
    coherent m' /\ last_update_block m' = b /\
    forall b' k vs, entries m' !! (b', k) = Some vs ->
      b - n < b' /\ vs <> [] /\ vs = answer b' k /\
      (forall b2, b' < b2 -> entries m' !! (b2, k) = None) /\
      (k ∈ keys -> b <= b').
Proof.
  intros Hm Hnd Hn Hb. unfold update_phase.
  destruct (insert_coherent m b keys Hm Hnd) as (m1 & -> & Hm1 & _ & Hin & _). cbn [rbind].
  set (oldest := saturating_sub b (n - 1)). pose proof (remove_coherent m1 oldest Hm1) as Hm2.
  eexists. split; [done|]. split; [exact Hm2|]. split; [done|]. cbn [entries].
  intros b' k vs Hl. pose proof Hl as Hl0. apply remove_lookup in Hl as (He & Hold & Hne & Hnew).
  split; [subst oldest; unfold saturating_sub in Hold; lia|]. split; [done|].
  split; [by apply (proj1 Hm2) in Hl0|]. split.
  - intros b2 Hb2. destruct (entries (remove_cached_blocks_older_than m1 oldest) !! (b2, k)) eqn:H2; [|done].
    apply remove_lookup in H2 as (H2 & _). by rewrite Hnew in H2.
  - intros Hk. apply Z.nlt_ge. intros Hlt. specialize (Hin k Hk). by rewrite (Hnew b Hlt) in Hin.
Qed.

(** Coherence is an invariant of every interleaving of the critical sections. *)
Lemma step_coherent n m m' :
  step cache_set attempts retries n m m' -> coherent m -> coherent m'.
Proof.
  intros Hstep Hm. destruct Hstep as [keys block hits misses last m' Hl|b chunk track m' Hnd Hs|b keys m' Hnd Hu].
  - unfold lookup_phase in Hl.
    assert (Hg : forall keys (st : list V * gset K * Mutexed),
      same_data m st.2 ->
      same_data m (foldl (fun '(hits, misses, self) key =>
        match get cache_set self key block with
        | (Some values, self) => (hits ++ values, misses, self)
        | (None, self) => (hits, {[key]} ∪ misses, self)
        end) st keys).2).
    { clear. intros keys. induction keys as [|k keys IH]; intros [[h mi] m0] Hs; cbn [foldl]; [done|].
      apply IH. pose proof (get_same_data m0 k block) as Hget.
      destruct (get cache_set m0 k block) as [[vs|] m1]; cbn [snd] in *;
        by eapply same_data_trans. }
    specialize (Hg keys ([], ∅, m) ltac:(done)).
    destruct (foldl _ _ _) as [[h mi] m1]. simplify_eq/=. by eapply same_data_coherent.
  - destruct (store_phase_coherent m b chunk track Hm Hnd) as (m1 & Heq & Hm1 & _). congruence.
  - unfold update_phase in Hu.
    destruct (insert_coherent m b keys Hm Hnd) as (m1 & Hins & Hm1 & _). rewrite Hins in Hu.
    cbn [rbind] in Hu. injection Hu as <-.
    pose proof (remove_coherent m1 (saturating_sub b (n - 1)) Hm1) as Hm2. exact Hm2.
Qed.

Lemma reachable_coherent n m m' :
  rtc (step cache_set attempts retries n) m m' -> coherent m -> coherent m'.
Proof. induction 1 as [|m m1 m2 Hs _ IH]; [done|]. intros Hm. by apply IH, (step_coherent n m). Qed.

Lemma new_coherent (with_size : Z -> lru) size block age :
  coherent (new with_size size block age).
Proof. by split; intros b k vs Hl. Qed.
End coherence.

Lemma unique_spec {K} `{EqDecision K} (seen l : list K) :
  NoDup (RecentBlockCache.unique seen l) /\
  forall k, k ∈ RecentBlockCache.unique seen l <-> k ∈ l /\ (k ∉ seen).
Proof.
  revert seen. induction l as [|k l IH]; intros seen; cbn [RecentBlockCache.unique].
  { split; [constructor|set_solver]. }
  destruct (decide (k ∈ seen)) as [Hs|Hs].
  - destruct (IH seen) as [Hnd Hel]. split; [done|]. set_solver.
  - destruct (IH (k :: seen)) as [Hnd Hel]. split.
    + apply NoDup_cons. split; [|done]. rewrite Hel. set_solver.
    + intros k'. rewrite elem_of_cons, Hel. destruct (decide (k' = k)); set_solver.
Qed.

(** * Properties *)
Section properties.
Import RecentBlockCache.
Context {K V : Type} `{Countable K} `{CK : !CacheKey K V} {lru : Type}.
Context (with_size : Z -> lru) (cache_set : K -> lru -> lru) (key_order : lru -> list K).
Context (attempts : K -> Z -> nat -> option (list V)) (retries : nat).


(** A recent read is bounded in staleness: in every reachable cache, what a
    lookup without a block returns is the fetcher's answer for that key at
    some block no older than the configured age before the last update. *)
Theorem recent_read_bounded_staleness (size start age n : Z) (m : @Mutexed K V _ _ lru)
    (k : K) (vs : list V) :
  (forall k b i vs, attempts k b i = Some vs -> Forall (fun v => for_value v = k) vs) ->
  rtc (step cache_set attempts retries n) (new with_size size start age) m ->
  (get cache_set m k None).1 = Some vs ->
  exists b, vs = answer attempts retries b k /\
    last_update_block m - b <= maximum_recent_block_age m.
Proof.
  intros Hkey Hreach Hg. eapply get_recent; [|exact Hg].
  eapply (reachable_coherent cache_set); [exact Hkey|exact Hreach|apply new_coherent].
Qed.

(** The automatic update bounds the cache: from every reachable cache the
    update at a block does not panic, and afterwards every entry is nonempty,
    within the configured number of blocks, the only one of its key, an answer
    of the fetcher, and for the recently used keys fresh from that block. *)
Theorem update_keeps_newest (size start age n b : Z) (m : @Mutexed K V _ _ lru) :
  (forall k b i vs, attempts k b i = Some vs -> Forall (fun v => for_value v = k) vs) ->
  rtc (step cache_set attempts retries n) (new with_size size start age) m ->
  0 < n -> 0 <= b ->
  exists m', update_cache_at_block key_order attempts retries n m b = Ok m' /\
    last_update_block m' = b /\
    forall b' k vs, entries m' !! (b', k) = Some vs ->
      b - n < b' /\ vs <> [] /\ vs = answer attempts retries b' k /\
      (forall b2, b' < b2 -> entries m' !! (b2, k) = None) /\
      (k ∈ key_order (recently_used m) -> b <= b').
Proof.
  intros Hkey Hreach Hn Hb.
  assert (Hm : coherent attempts retries m).
  { eapply (reachable_coherent cache_set); [exact Hkey|exact Hreach|apply new_coherent]. }
  destruct (unique_spec [] (key_order (recently_used m))) as [Hnd Hel].
  destruct (update_phase_coherent cache_set attempts retries Hkey n m b _ Hm Hnd Hn Hb)
    as (m' & Hu & _ & Hl & He).
  exists m'. split; [exact Hu|]. split; [done|]. intros b' k vs Hvs.
  destruct (He b' k vs Hvs) as (? & ? & ? & ? & Hfresh). split_and!; try done.
  intros Hk. apply Hfresh, Hel. set_solver.
Qed.
End properties.

(** A cache of values tagged with their key, for the witnesses. *)
#[local] Program Instance tagged_key : CacheKey N (N * Z) := {
  key_le := N.le;
  first_ord := 0%N;
  for_value := fst;
}.
Next Obligation. intros k. lia. Qed.

Section witnesses.
Import RecentBlockCache.
Let attempts (k : N) (b : Z) (i : nat) : option (list (N * Z)) :=
  if (k =? 3)%N then None else match i with O => None | _ => Some [(k, b)] end.
Let set (k : N) (l : list N) : list N := k :: l.
Let start : @Mutexed N (N * Z) _ _ (list N) := new (fun _ => []) 4 10 2.
Let warm : res unit (@Mutexed N (N * Z) _ _ (list N)) :=
  store_phase set start 10 [1%N; 2%N] (fetch_inner_many attempts 1 [1%N; 2%N] 10) true.
Let warmed : @Mutexed N (N * Z) _ _ (list N) := match warm with Ok m => m | _ => start end.

Lemma attempts_tagged k b i vs : attempts k b i = Some vs -> Forall (fun v => for_value v = k) vs.
Proof. unfold attempts. intros Ha. repeat case_match; simplify_eq; by repeat constructor. Qed.

Lemma warmed_reachable : rtc (step set attempts 1 5) start warmed.
Proof.
  apply rtc_once. apply (step_store set attempts 1 5 start 10 [1%N; 2%N] true).
  - apply (bool_decide_eq_true_1 _). vm_compute. reflexivity.
  - vm_compute. reflexivity.
Qed.


Lemma recent_read_bounded_staleness_witness :
  exists b, [(1%N, 10)] = answer attempts 1 b 1%N /\
    last_update_block warmed - b <= maximum_recent_block_age warmed.
Proof.
  apply (recent_read_bounded_staleness (fun _ => []) set attempts 1 4 10 2 5 warmed 1%N [(1%N, 10)]).
  - exact attempts_tagged.
  - exact warmed_reachable.
  - vm_compute. reflexivity.
Defined.

Lemma update_keeps_newest_witness :
  exists m', update_cache_at_block (fun l => l) attempts 1 5 warmed 12 = Ok m' /\
    last_update_block m' = 12 /\
    forall b' k vs, entries m' !! (b', k) = Some vs ->
      12 - 5 < b' /\ vs <> [] /\ vs = answer attempts 1 b' k /\
      (forall b2, b' < b2 -> entries m' !! (b2, k) = None) /\
      (k ∈ recently_used warmed -> 12 <= b').
Proof.
  apply (update_keeps_newest (fun _ => []) set (fun l => l) attempts 1 4 10 2 5 12 warmed).
  - exact attempts_tagged.
  - exact warmed_reachable.
  - lia.
  - lia.
Defined.

(** The update evicts all but the newest entries. *)
Example update_evicts :
  res_map (fun m => map_to_list (entries m)) (update_cache_at_block (fun l => l) attempts 1 5 warmed 12)
  = Ok [((12, 2%N), [(2%N, 12)]); ((12, 1%N), [(1%N, 12)])].
Proof. vm_compute. reflexivity. Qed.
End witnesses.
