(* ===== verification/EventHandling.v ===== *)
(** The event handler: crates/shared/src/event_handling.rs, and two of the
    stores it feeds.

    [EventHandler::update_events] keeps a store of contract events in step with
    the chain. The node (blocks and event logs) is a parameter, [node]; the
    trait [EventStoring] is a class, with the promise every theorem about the
    handler relies on; [EventStorage] (the tests' store) and
    [RecentEventsCache] (sources/uniswap_v3/event_fetching.rs) keep it, the
    store of crates/cow-amm/src/cache.rs does not. *)
From Stdlib Require Import ZArith Lia.
From stdpp Require Import prelude gmap sorting.
From S2P Require Import Prelude.

Open Scope Z_scope.
Open Scope rust_scope.

(** [ethcontract::Event]: data with an optional (block number, log index). *)
Record Event (D : Type) : Type := mkEvent { meta : option (Z * N); data : D }.
Arguments mkEvent {D} meta data.
Arguments meta {D} e.
Arguments data {D} e.

#[global] Instance event_eq_dec {D} `{EqDecision D} : EqDecision (Event D).
Proof. solve_decision. Defined.

(** [ethrpc::current_block] *)
Module CurrentBlock.
Definition BlockNumberHash : Type := (Z * Z)%type.
Record BlockInfo : Type := mkBlockInfo { number : Z; hash : Z; parent_hash : Z }.
Record RangeInclusive : Type := mkRange { start : Z; end_ : Z }.
Definition try_new (start end_ : Z) : res unit RangeInclusive :=
  if start <=? end_ then Ok (mkRange start end_) else Err tt.
End CurrentBlock.
Import CurrentBlock.

(** The block of an event that has metadata. *)
Definition event_block {D} (e : Event D) : Z :=
  match meta e with Some (n, _) => n | None => 0 end.
(** What an event is about, when a chain can have no two events about the same
    thing; nothing is known of most contracts. *)
Class EventKey (D : Type) : Type := { key_type : Type; event_key : D -> option key_type }.
#[global] Instance no_key D : EventKey D | 100 := {| key_type := Empty_set; event_key _ := None |}.
Definition keys {D} `{!EventKey D} (evs : list (Event D)) : list key_type := omap (fun e => event_key (data e)) evs.
(** What a node returns: every event placed, no two at the same place or about
    the same thing, and the numbers such that a database can hold them. *)
Definition fits_i64 (i : Z * N) : Prop := 0 <= i.1 < 2 ^ 63 - 1 /\ (i.2 < 2 ^ 63)%N.
Definition placed_event {D} (e : Event D) : Prop := exists i, meta e = Some i /\ fits_i64 i.
Definition placed {D} `{!EventKey D} (evs : list (Event D)) : Prop :=
  Forall placed_event evs /\ NoDup (map meta evs) /\ NoDup (keys evs).
Definition before {D} (n : Z) (evs : list (Event D)) : list (Event D) :=
  filter (fun e => event_block e < n) evs.

(** The trait [EventStoring<T>]: an operation returns the store and whether it
    succeeded. A replacement deletes from the start of the range on. *)
Class EventStoring (D S : Type) : Type := {
  replace_events : S -> list (Event D) -> RangeInclusive -> S * bool;
  append_events : S -> list (Event D) -> S * bool;
  last_event_block : S -> option Z;
}.
(** [holds s evs]: the store has exactly these events, in whatever form. *)
Class EventStoringLaws (D S : Type) `{!EventStoring D S, !EventKey D} (holds : S -> list (Event D) -> Prop) : Prop := {
  holds_perm s :: Proper ((≡ₚ) ==> iff) (holds s);
  replace_spec : forall s l evs r,
    holds s l -> placed (before (start r) l ++ evs) ->
    let '(s', ok) := replace_events s evs r in
    holds s' (if ok then before (start r) l ++ evs else l);
  append_spec : forall s l evs,
    holds s l -> placed (l ++ evs) ->
    let '(s', ok) := append_events s evs in
    holds s' (if ok then l ++ evs else l);
}.

(** ** sources/uniswap_v3/event_fetching.rs: events by (block, log index) *)
Module RecentEventsCache.
Section cache.
Context {D : Type}.
Definition RecentEventsCache : Type := gmap (Z * N) (Event D).
Definition key_lt (x y : Z * N) : Prop := x.1 < y.1 \/ (x.1 = y.1 /\ (x.2 < y.2)%N).
#[global] Instance key_lt_dec : RelDecision key_lt.
Proof. intros [a b] [c d]. unfold key_lt. apply _. Defined.
Definition key_le (x y : Z * N) : Prop := ~ key_lt y x.
Definition remove_events_older_than_block (self : RecentEventsCache) (delete_up_to_block_number : Z)
  : RecentEventsCache :=
  filter (fun kv => ~ key_lt kv.1 (delete_up_to_block_number, 0%N)) self.
Definition remove_events_newer_than_block (self : RecentEventsCache) (delete_from_block_number : Z)
  : RecentEventsCache :=
  filter (fun kv => key_lt kv.1 (delete_from_block_number, 0%N)) self.
(** The events within the range, in the order of their keys. *)
Definition get_events (self : RecentEventsCache) (block_range : RangeInclusive) : list (Event D) :=
  omap (fun k => self !! k) (merge_sort key_le (elements (dom
    (filter (fun kv => start block_range <= kv.1.1 /\ kv.1.1 <= end_ block_range) self)))).
Fixpoint append (self : RecentEventsCache) (events : list (Event D)) : RecentEventsCache * bool :=
  match events with
  | [] => (self, true)
  | event :: events =>
      match meta event with
      | Some (block_number, log_index) => append (<[(block_number, log_index) := event]> self) events
      | None => (self, false)
      end
  end.
Definition last_block (self : RecentEventsCache) : option Z :=
  fst <$> last (merge_sort key_le (elements (dom self))).
#[global] Instance storing : EventStoring D RecentEventsCache := {
  replace_events self events range :=
    append (remove_events_newer_than_block self (start range)) events;
  append_events := append;
  last_event_block := last_block;
}.
End cache.
Arguments RecentEventsCache : clear implicits.
End RecentEventsCache.

(** ** crates/cow-amm/src/cache.rs: the pools by the block they appeared in

    Making an [Amm] of an event queries the node and can fail: [Amm_new]. *)
Module CowAmmCache.
Section cache.
Context {D Amm : Type} (Amm_new : D -> option Amm) (start_of_index : Z).
Definition Storage : Type := gmap Z (list Amm).
Fixpoint append (cache : gmap Z (list Amm)) (events : list (Event D)) : gmap Z (list Amm) * bool :=
  match events with
  | [] => (cache, true)
  | event :: events =>
      match meta event with
      | Some (block_number, _) =>
          let amms := default [] (cache !! block_number) in
          match Amm_new (data event) with
          | Some amm => append (<[block_number := amms ++ [amm]]> cache) events
          | None => (<[block_number := amms]> cache, false)
          end
      | None => (cache, false)
      end
  end.
Definition replace (cache : gmap Z (list Amm)) (events : list (Event D)) (range : RangeInclusive)
  : gmap Z (list Amm) * bool :=
  append (filter (fun kv => ~ (start range <= kv.1 <= end_ range)) cache) events.
Definition last_block (cache : gmap Z (list Amm)) : option Z :=
  Some (default start_of_index (last (merge_sort Z.le (elements (dom cache))))).
Definition storing : EventStoring D Storage := {|
  replace_events := replace;
  append_events := append;
  last_event_block := last_block;
|}.
End cache.
End CowAmmCache.

Module EventHandling.
Definition MAX_REORG_BLOCK_COUNT : Z := 64.
Definition INSERT_EVENT_BATCH_SIZE : nat := N.to_nat 10000.
Definition MAX_BLOCKS_QUERIED : Z := 2 * MAX_REORG_BLOCK_COUNT.
Definition MAX_PARALLEL_RPC_CALLS : nat := 128.

Record EventRange : Type := mkEventRange {
  history_range : option RangeInclusive;
  latest_blocks : list BlockNumberHash;
  is_reorg : bool;
}.

(** The inner loop of [detect_reorg_path]: what follows the last occurrence. *)
Fixpoint after_last (b : BlockNumberHash) (l : list BlockNumberHash) : option (list BlockNumberHash) :=
  match l with
  | [] => None
  | x :: l =>
      match after_last b l with
      | Some rest => Some rest
      | None => if decide (x = b) then Some l else None
      end
  end.
(** The outer loop, over the handled blocks in reverse. *)
Fixpoint common_ancestor (handled_rev latest : list BlockNumberHash)
  : option (BlockNumberHash * list BlockNumberHash) :=
  match handled_rev with
  | [] => None
  | b :: rest =>
      match after_last b latest with
      | Some path => Some (b, path)
      | None => common_ancestor rest latest
      end
  end.
Definition detect_reorg_path (handled latest : list BlockNumberHash)
  : list BlockNumberHash * bool :=
  match common_ancestor (rev handled) latest with
  | Some (handled_block, path) => (path, negb (bool_decide (Some handled_block = last handled)))
  | None => (latest, negb (bool_decide (handled = [])))
  end.

Definition split_range (range : RangeInclusive) : res unit (option RangeInclusive * RangeInclusive) :=
  let start := CurrentBlock.start range in
  let end_ := CurrentBlock.end_ range in
  if MAX_BLOCKS_QUERIED <? saturating_sub end_ start then
    let* history := (res_expect (try_new start (end_ - MAX_BLOCKS_QUERIED)) : res unit _) in
    let* latest := res_expect (try_new (end_ - MAX_BLOCKS_QUERIED + 1) end_) in
    Ok (Some history, latest)
  else Ok (None, range).

Definition update_last_handled_blocks (last_handled_blocks blocks : list BlockNumberHash)
  : list BlockNumberHash :=
  match blocks with
  | [] => last_handled_blocks
  | first :: _ =>
      let kept := filter (fun b : BlockNumberHash => b.1 < first.1) last_handled_blocks in
      let all := kept ++ blocks in
      drop (length all - Z.to_nat MAX_REORG_BLOCK_COUNT) all
  end.

Section handler.
Context {D S : Type} `{!EventStoring D S}.

(** What the node answers during one update; [None] is a failed request. The
    events of a block range arrive as a stream whose items can fail. *)
Record node : Type := mkNode {
  current_block : option BlockInfo;
  blocks : RangeInclusive -> option (list BlockNumberHash);
  block_events : Z -> option (list (Event D));
  range_events : RangeInclusive -> option (list (option (Event D)));
}.
Record EventHandler : Type := mkEventHandler {
  store : S;
  last_handled_blocks : list BlockNumberHash;
}.
Context (n : node).

Definition new (store : S) (start_sync_at_block : option BlockNumberHash) : EventHandler :=
  mkEventHandler store (match start_sync_at_block with Some block => [block] | None => [] end).
Definition new_skip_blocks_before (store : S) (skip_blocks_before : BlockNumberHash)
  : res unit EventHandler :=
  let* last_handled_block := opt (last_event_block store) in
  Ok (new store (if skip_blocks_before.1 <=? last_handled_block then None
                 else Some skip_blocks_before)).
Definition last_handled_block (self : EventHandler) : option BlockNumberHash :=
  last (last_handled_blocks self).

Definition get_handled_blocks (self : EventHandler) : res unit (list BlockNumberHash) :=
  match last_handled_blocks self with
  | [] =>
      let* last_handled_block := opt (last_event_block (store self)) in
      let* range := try_new last_handled_block last_handled_block in
      opt (blocks n range)
  | handled => Ok handled
  end.

Definition event_block_range (self : EventHandler) : res unit EventRange :=
  let* handled_blocks := get_handled_blocks self in
  let* current := opt (current_block n) in
  let* ' (last_number, last_hash) := opt_expect (last handled_blocks) in
  if parent_hash current =? last_hash then
    Ok (mkEventRange None [(number current, hash current)] false)
  else if (number current =? last_number) && (hash current =? last_hash) then
    Ok (mkEventRange None [] false)
  else
    let* block_range := try_new (saturating_sub last_number MAX_REORG_BLOCK_COUNT) (number current) in
    let* ' (history_range, latest_range) := split_range block_range in
    let* latest_blocks := opt (blocks n latest_range) in
    let '(latest_blocks, is_reorg) :=
      match history_range with
      | Some _ => (latest_blocks, true)
      | None => detect_reorg_path handled_blocks latest_blocks
      end in
    Ok (mkEventRange history_range latest_blocks is_reorg).

(** One chunk of [past_events_by_block_hashes]: the index restarts with every
    chunk and is used on the whole list, as in the code. The flag is false
    after a failed request. *)
Fixpoint query_chunk (all : list BlockNumberHash) (i : nat) (chunk : list BlockNumberHash)
    (acc : list BlockNumberHash * list (Event D))
  : res unit (bool * (list BlockNumberHash * list (Event D))) :=
  match chunk with
  | [] => Ok (true, acc)
  | b :: chunk =>
      match block_events n b.2 with
      | Some e =>
          let* block := opt_expect (all !! i) in
          query_chunk all (Datatypes.S i) chunk (acc.1 ++ [block], acc.2 ++ e)
      | None => Ok (false, acc)
      end
  end.
Fixpoint query_chunks (all : list BlockNumberHash) (cs : list (list BlockNumberHash))
    (acc : list BlockNumberHash * list (Event D))
  : res unit (list BlockNumberHash * list (Event D)) :=
  match cs with
  | [] => Ok acc
  | c :: cs =>
      let* ' (go_on, acc) := query_chunk all 0 c acc in
      if go_on : bool then query_chunks all cs acc else Ok acc
  end.
Definition past_events_by_block_hashes (bs : list BlockNumberHash)
  : res unit (list BlockNumberHash * list (Event D)) :=
  query_chunks bs (chunks MAX_PARALLEL_RPC_CALLS bs) ([], []).

(** The loop over the chunks of past events. *)
Fixpoint store_history (range : RangeInclusive) (s : S) (have_deleted : bool)
    (cs : list (list (option (Event D)))) : (S * bool) * res unit unit :=
  match cs with
  | [] => ((s, have_deleted), Ok tt)
  | c :: cs =>
      match mapM (M := option) id c with
      | None => ((s, have_deleted), Err tt)
      | Some evs =>
          let '(s, ok) := if have_deleted then append_events s evs else replace_events s evs range in
          if ok then store_history range s true cs else ((s, have_deleted), Err tt)
      end
  end.

Definition update_events_from_old_blocks (self : EventHandler) (range : RangeInclusive)
  : EventHandler * res unit unit :=
  match (let* r := try_new (saturating_sub (end_ range) MAX_REORG_BLOCK_COUNT) (end_ range) in
         opt (blocks n r)) with
  | Ok bs =>
      match range_events n range with
      | None => (self, Err tt)
      | Some stream =>
          let '((s, have_deleted), r) :=
            store_history range (store self) false (chunks INSERT_EVENT_BATCH_SIZE stream) in
          match r with
          | Ok _ =>
              let '(s, ok) := if have_deleted then (s, true) else replace_events s [] range in
              if ok : bool
              then (mkEventHandler s (update_last_handled_blocks (last_handled_blocks self) bs), Ok tt)
              else (mkEventHandler s (last_handled_blocks self), Err tt)
          | r => (mkEventHandler s (last_handled_blocks self), r)
          end
      end
  | Err e => (self, Err e)
  | Panic => (self, Panic)
  end.

Definition update_events_from_latest_blocks (self : EventHandler) (latest : list BlockNumberHash)
    (is_reorg : bool) : EventHandler * res unit unit :=
  match past_events_by_block_hashes latest with
  | Ok (bs, events) =>
      match head bs, last bs with
      | Some first, Some final =>
          match try_new first.1 final.1 with
          | Ok range =>
              let '(s, ok) := if is_reorg then replace_events (store self) events range
                              else append_events (store self) events in
              if ok : bool then
                (mkEventHandler s (update_last_handled_blocks (last_handled_blocks self) bs),
                 if decide (bs = latest) then Ok tt else Err tt)
              else (mkEventHandler s (last_handled_blocks self), Err tt)
          | Err e => (self, Err e)
          | Panic => (self, Panic)
          end
      | _, _ => (self, Err tt)
      end
  | Err e => (self, Err e)
  | Panic => (self, Panic)
  end.

Definition update_events (self : EventHandler) : EventHandler * res unit unit :=
  match event_block_range self with
  | Ok event_range =>
      let '(self, r) :=
        match history_range event_range with
        | Some range => update_events_from_old_blocks self range
        | None => (self, Ok tt)
        end in
      match r with
      | Ok _ =>
          match latest_blocks event_range with
          | [] => (self, Ok tt)
          | latest => update_events_from_latest_blocks self latest (is_reorg event_range)
          end
      | r => (self, r)
      end
  | Err e => (self, Err e)
  | Panic => (self, Panic)
  end.
End handler.
End EventHandling.

(** * The specification: a chain of blocks and the events its blocks emitted *)
Section chains.
Import EventHandling.
Context {D : Type} `{!EventKey D} (ev : Z -> list (Event D)).
Implicit Types (c old new l : list BlockNumberHash) (b : BlockNumberHash).

Definition events_of c : list (Event D) := concat (map (fun b : BlockNumberHash => ev b.2) c).

(** Block [i] of a chain has number [i]; its events say so. *)
Record good_chain c : Prop := {
  numbered : forall i b, c !! i = Some b -> b.1 = Z.of_nat i;
  located : forall b, b ∈ c -> Forall (fun e => exists li, meta e = Some (b.1, li) /\ fits_i64 (b.1, li)) (ev b.2);
  unrepeated : NoDup (map meta (events_of c));
  distinct : NoDup (keys (events_of c));
}.
(** A block determines the blocks before it. *)
Definition linked old new : Prop :=
  forall i j bi bj, old !! i = Some bi -> new !! j = Some bj -> bi.2 = bj.2 ->
    i = j /\ take (S i) old = take (S j) new.
Definition slice c (r : RangeInclusive) : list BlockNumberHash :=
  take (Z.to_nat (end_ r - start r + 1)) (drop (Z.to_nat (start r)) c).

Lemma events_of_app l1 l2 : events_of (l1 ++ l2) = events_of l1 ++ events_of l2.
Proof. unfold events_of. by rewrite map_app, concat_app. Qed.

Lemma keys_app (l1 l2 : list (Event D)) : keys (l1 ++ l2) = keys l1 ++ keys l2.
Proof. apply omap_app. Qed.

Lemma good_prefix c k : good_chain c -> good_chain (take k c).
Proof.
  intros [Hn Hl Hu Hk]. split.
  - intros i b Hb. apply Hn. rewrite lookup_take in Hb. by case_decide.
  - intros b Hb. apply Hl. rewrite <- (take_drop k c). apply elem_of_app. by left.
  - rewrite <- (take_drop k c), events_of_app, map_app in Hu. by apply NoDup_app in Hu as [? _].
  - rewrite <- (take_drop k c), events_of_app, keys_app in Hk. by apply NoDup_app in Hk as [? _].
Qed.

Lemma good_placed c : good_chain c -> placed (events_of c).
Proof.
  intros [_ Hl Hu Hk]. split; [|done]. unfold events_of. apply Forall_concat, Forall_map.
  apply Forall_forall. intros b Hb. eapply Forall_impl; [by apply Hl|].
  intros e (li & Hm & Hf). by eexists.
Qed.

Lemma placed_perm (l1 l2 : list (Event D)) : l1 ≡ₚ l2 -> placed l1 -> placed l2.
Proof. unfold placed, keys. intros Hp. by rewrite Hp. Qed.

Lemma placed_prefix (l1 l2 : list (Event D)) : placed (l1 ++ l2) -> placed l1.
Proof.
  intros (H1 & H2 & H3). rewrite map_app in H2. rewrite keys_app in H3. apply Forall_app in H1 as [? _].
  apply NoDup_app in H2 as [? _]. by apply NoDup_app in H3 as [? _].
Qed.

(** Below a block the events are those of the chain up to it. *)
Lemma before_events c (k : nat) : good_chain c ->
  before (Z.of_nat k) (events_of c) = events_of (take k c).
Proof.
  intros [Hn Hl _ _]. assert (Hg : forall l o, (forall i b, l !! i = Some b -> b.1 = Z.of_nat (o + i)) ->
    (forall b, b ∈ l -> b ∈ c) ->
    before (Z.of_nat k) (events_of l) = events_of (take (k - o) l)).
  { induction l as [|b l IH]; intros o Ho Hin; [by rewrite take_nil|].
    change (events_of (b :: l)) with (ev b.2 ++ events_of l).
    unfold before in *. rewrite filter_app, (IH (S o)).
    - assert (Hb : b.1 = Z.of_nat o) by (rewrite (Ho 0%nat b) by done; lia).
      specialize (Hl b ltac:(apply Hin; by left)).
      destruct (decide (o < k)%nat) as [Hlt|Hge].
      + rewrite filter_all by
          (eapply Forall_impl; [exact Hl|]; intros e (li & He & _); unfold event_block; rewrite He; lia).
        by replace (k - o)%nat with (S (k - S o)) by lia.
      + rewrite filter_none by
          (eapply Forall_impl; [exact Hl|]; intros e (li & He & _); unfold event_block; rewrite He; lia).
        by replace (k - S o)%nat with 0%nat by lia; replace (k - o)%nat with 0%nat by lia.
    - intros i b' Hb'. rewrite (Ho (S i) b' Hb'). lia.
    - intros b' Hb'. apply Hin. by right. }
  rewrite (Hg c 0%nat); [by rewrite Nat.sub_0_r|intros i b; apply Hn|done].
Qed.
End chains.

Section pieces.
Import EventHandling.
Implicit Types (handled latest c old new l : list BlockNumberHash) (b : BlockNumberHash).

Lemma after_last_Some b l path :
  after_last b l = Some path <-> exists l1, l = l1 ++ b :: path /\ (b ∉ path).
Proof.
  revert path. induction l as [|x l IH]; intros path; cbn [after_last].
  { split; [done|]. intros ([|? ?] & ? & _); done. }
  destruct (after_last b l) as [rest|] eqn:Hr.
  - destruct (proj1 (IH rest) eq_refl) as (l1 & -> & Hb). split.
    + intros [= <-]. by exists (x :: l1).
    + intros ([|y l2] & Heq & Hn); simplify_eq/=.
      * destruct Hn. apply elem_of_app. right. by left.
      * apply IH. by exists l2.
  - destruct (decide (x = b)) as [->|Hx].
    + split.
      * intros [= ->]. exists []. split; [done|]. intros (l1 & l2 & ->)%list_elem_of_split.
        assert (Ha : after_last b (l1 ++ b :: l2) <> None); [|done]. clear.
        induction l1 as [|y l1 IH]; cbn; repeat case_match; try done.
      * intros ([|y l1] & Heq & Hn); simplify_eq/=; [done|].
        exfalso. assert (Hs : @None (list BlockNumberHash) = Some path) by (apply IH; by exists l1). done.
    + split; [done|]. intros ([|y l1] & Heq & Hn); simplify_eq/=.
      apply IH. by exists l1.
Qed.

Lemma after_last_None b l : after_last b l = None <-> b ∉ l.
Proof.
  split.
  - intros Hn. induction l as [|x l IH]; cbn in Hn; [apply not_elem_of_nil|].
    destruct (after_last b l); [done|]. case_decide; [done|].
    apply not_elem_of_cons. split; [done|auto].
  - intros Hb. destruct (after_last b l) as [path|] eqn:Hs; [|done].
    apply after_last_Some in Hs as (l1 & -> & _). destruct Hb. apply elem_of_app. right. by left.
Qed.

Lemma common_ancestor_Some hs latest b path :
  common_ancestor hs latest = Some (b, path) ->
  exists h1 h2 l1, hs = h1 ++ b :: h2 /\ latest = l1 ++ b :: path /\ (b ∉ path) /\
    forall x, x ∈ h1 -> x ∉ latest.
Proof.
  revert b path. induction hs as [|x hs IH]; intros b path; cbn; [done|].
  destruct (after_last x latest) as [p|] eqn:Ha.
  - intros [= -> ->]. apply after_last_Some in Ha as (l1 & -> & Hb).
    exists [], hs, l1. split_and!; [done..|]. by intros y ?%not_elem_of_nil.
  - intros (h1 & h2 & l1 & -> & -> & Hb & Hh)%IH. apply after_last_None in Ha.
    exists (x :: h1), h2, l1. split_and!; [done..|]. by intros y [->|?]%elem_of_cons; auto.
Qed.

Lemma common_ancestor_None hs latest :
  common_ancestor hs latest = None <-> forall x, x ∈ hs -> x ∉ latest.
Proof.
  induction hs as [|x hs IH]; cbn; [split; [by intros _ y ?%not_elem_of_nil|done]|].
  destruct (after_last x latest) as [p|] eqn:Ha.
  - split; [done|]. intros Hx. destruct (Hx x); [by left|].
    apply after_last_Some in Ha as (l1 & -> & _). apply elem_of_app. right. by left.
  - apply after_last_None in Ha. rewrite IH. split; intros Hx y; [|intros ?; apply Hx; by right].
    by intros [->|?]%elem_of_cons; auto.
Qed.

Lemma filter_numbered (k o : nat) l :
  (forall i b, l !! i = Some b -> b.1 = Z.of_nat (o + i)) ->
  filter (fun b : BlockNumberHash => (b.1 < Z.of_nat k)%Z) l = take (k - o) l.
Proof.
  revert o. induction l as [|b l IH]; intros o Ho; [by rewrite take_nil|].
  assert (Hb : b.1 = Z.of_nat o) by (rewrite (Ho 0%nat b) by done; lia).
  specialize (IH (S o) ltac:(intros i b' Hb'; rewrite (Ho (S i) b' Hb'); lia)).
  destruct (decide (o < k)%nat) as [Hlt|Hge].
  - rewrite filter_cons_True, IH by lia. by replace (k - o)%nat with (S (k - S o)) by lia.
  - rewrite filter_cons_False, IH by lia.
    by replace (k - S o)%nat with 0%nat by lia; replace (k - o)%nat with 0%nat by lia.
Qed.

(** What is kept of the handled blocks: those below the first new one. *)
Lemma filter_suffix c handled (k : nat) :
  (forall i b, c !! i = Some b -> b.1 = Z.of_nat i) -> handled `suffix_of` c ->
  filter (fun b : BlockNumberHash => (b.1 < Z.of_nat k)%Z) handled `suffix_of` take k c.
Proof.
  intros Hn [pre ->]. rewrite (filter_numbered k (length pre)).
  - rewrite take_app. destruct (decide (length pre <= k)%nat) as [Hle|Hgt].
    + rewrite (take_ge pre) by done. by exists pre.
    + replace (k - length pre)%nat with 0%nat by lia. apply suffix_nil.
  - intros i b Hb. apply Hn. by rewrite lookup_app_r, Nat.add_sub' by lia.
Qed.

(** The handled blocks stay a suffix of the chain the update followed. *)
Lemma update_last_handled_suffix old new handled (k m : nat) :
  (forall i b, old !! i = Some b -> b.1 = Z.of_nat i) ->
  (forall i b, new !! i = Some b -> b.1 = Z.of_nat i) ->
  handled `suffix_of` old -> take k old = take k new -> (k < length new)%nat -> (0 < m)%nat ->
  let handled' := update_last_handled_blocks handled (take m (drop k new)) in
  handled' `suffix_of` take (k + m) new /\ handled' <> [] /\ (length handled' <= 64)%nat.
Proof.
  intros Ho Hn Hs Hk Hlen Hm. unfold update_last_handled_blocks.
  destruct (take m (drop k new)) as [|first rest] eqn:Ht.
  { apply (f_equal length) in Ht. rewrite length_take, length_drop in Ht. simpl in Ht. lia. }
  assert (Hf : first.1 = Z.of_nat k).
  { apply Hn. rewrite <- (Nat.add_0_r k), <- lookup_drop, <- (lookup_take_lt _ m) by lia. by rewrite Ht. }
  rewrite Hf. pose proof (filter_suffix old handled k Ho Hs) as [pre Hpre].
  set (all := _ ++ first :: rest). cbv zeta.
  assert (Hall : all `suffix_of` take (k + m) new).
  { exists pre. subst all. rewrite app_assoc, <- Hpre, Hk, <- Ht.
    by rewrite <- (take_take_drop new k m). }
  assert (Hpos : (0 < length all)%nat) by (subst all; rewrite length_app; simpl; lia).
  assert (H64 : Z.to_nat MAX_REORG_BLOCK_COUNT = 64%nat) by done. rewrite H64.
  split_and!.
  - etrans; [|exact Hall]. exists (take (length all - 64) all). by rewrite take_drop.
  - intros Hd%(f_equal length). rewrite length_drop in Hd. simpl in Hd. lia.
  - rewrite length_drop. lia.
Qed.

Lemma split_range_spec r :
  0 <= start r <= end_ r ->
  exists h (lr : RangeInclusive), split_range r = Ok (h, lr) /\ end_ lr = end_ r /\ end_ lr - start lr <= 128 /\
    match h with
    | None => start lr = start r
    | Some h => start h = start r /\ start h <= end_ h /\ end_ h + 1 = start lr /\
        end_ lr - start lr = 127
    end.
Proof.
  destruct r as [s e]. cbn. intros Hr. unfold split_range, MAX_BLOCKS_QUERIED, MAX_REORG_BLOCK_COUNT, try_new, saturating_sub.
  cbn [start end_]. change (2 * 64) with 128. destruct (Z.ltb_spec 128 (Z.max (e - s) 0)).
  - rewrite !(proj2 (Z.leb_le _ _)) by lia. cbn. do 2 eexists. split; [done|]. cbn. lia.
  - do 2 eexists. split; [done|]. cbn. lia.
Qed.
End pieces.

Section queries.
Import EventHandling.
Context {D : Type} (ev : Z -> list (Event D)) (n : @node D).
Context (Hev : forall h es, block_events n h = Some es -> es = ev h).
Implicit Types (all chunk bs : list BlockNumberHash).

(** A chunk is answered up to some block; the blocks reported for the answers
    are the blocks asked for when the chunk starts the whole list. *)
Lemma query_chunk_spec all chunk (i : nat) bf (es : list (Event D)) :
  (i + length chunk <= length all)%nat ->
  exists go_on m bf',
    query_chunk n all i chunk (bf, es) = Ok (go_on, (bf ++ bf', es ++ events_of ev (take m chunk))) /\
    bf' = take m (drop i all) /\ (m <= length chunk)%nat /\ (go_on = true -> m = length chunk).
Proof.
  revert i bf es. induction chunk as [|b chunk IH]; intros i bf es Hi; cbn [query_chunk].
  { exists true, 0%nat, []. split_and!; [|done|done|done]. cbn. by rewrite !app_nil_r. }
  cbn [length] in Hi. destruct (block_events n b.2) as [e|] eqn:He.
  - apply Hev in He as ->. destruct (lookup_lt_is_Some_2 all i) as [x Hx]; [lia|].
    rewrite Hx. cbn [opt_expect rbind fst snd].
    destruct (IH (S i) (bf ++ [x]) (es ++ ev b.2) ltac:(lia)) as (g & m & bf' & -> & -> & Hm & Hg).
    exists g, (S m), (x :: take m (drop (S i) all)). cbn [take length]. split_and!.
    + rewrite <- !app_assoc. done.
    + by rewrite (drop_S all x i).
    + lia.
    + intros ->. by rewrite Hg.
  - exists false, 0%nat, []. split_and!; [|done|lia|done]. cbn. by rewrite !app_nil_r.
Qed.

Lemma query_chunks_spec all cs bf (es : list (Event D)) :
  Forall (fun c => (length c <= length all)%nat) cs ->
  exists bf' m, query_chunks n all cs (bf, es) = Ok (bf ++ bf', es ++ events_of ev (take m (concat cs))) /\
    length bf' = m /\ (m <= length (concat cs))%nat.
Proof.
  revert bf es. induction cs as [|c cs IH]; intros bf es Hcs; cbn [query_chunks concat].
  { exists [], 0%nat. cbn. by rewrite !app_nil_r. }
  apply Forall_cons in Hcs as [Hc Hcs].
  destruct (query_chunk_spec all c 0 bf es Hc) as (g & m & bf1 & -> & -> & Hm & Hg). cbn [rbind].
  rewrite drop_0. destruct g.
  - destruct (IH (bf ++ take m all) (es ++ events_of ev (take m c)) Hcs) as (bf2 & m2 & -> & Hl & Hm2).
    rewrite (Hg eq_refl) in *. exists (take (length c) all ++ bf2), (length c + m2)%nat. split_and!.
    + rewrite <- !app_assoc, take_app_add, events_of_app. by rewrite (take_ge c) by done.
    + rewrite length_app, length_take, Hl. lia.
    + rewrite length_app. lia.
  - exists (take m all), m. split_and!.
    + by rewrite take_app_le.
    + rewrite length_take. lia.
    + rewrite length_app. lia.
Qed.

Lemma chunks_le {A} k (l : list A) : Forall (fun c => (length c <= length l)%nat) (chunks k l).
Proof.
  unfold chunks. assert (Hg : forall fuel (l' : list A), (length l' <= length l)%nat ->
    Forall (fun c => (length c <= length l)%nat) (chunks_fuel fuel k l')).
  { induction fuel as [|fuel IH]; intros l' Hl; cbn; [constructor|]. destruct l' as [|x l']; [constructor|].
    constructor; [rewrite length_take; lia|]. apply IH. rewrite length_drop. lia. }
  by apply Hg.
Qed.

(** The answers are always those of a prefix of the blocks; they are attributed
    to as many blocks, and to the right ones if the blocks fit a chunk. *)
Lemma past_events_spec bs :
  exists bf m, past_events_by_block_hashes n bs = Ok (bf, events_of ev (take m bs)) /\
    length bf = m /\ (m <= length bs)%nat /\
    ((length bs <= MAX_PARALLEL_RPC_CALLS)%nat -> bf = take m bs).
Proof.
  assert (H128 : (0 < MAX_PARALLEL_RPC_CALLS)%nat) by (unfold MAX_PARALLEL_RPC_CALLS; lia).
  unfold past_events_by_block_hashes. destruct (decide (length bs <= MAX_PARALLEL_RPC_CALLS)%nat) as [Hle|Hgt].
  - unfold chunks. destruct bs as [|b bs]; [by exists [], 0%nat|].
    cbn [length chunks_fuel]. rewrite take_ge, drop_ge by done.
    replace (chunks_fuel _ _ []) with (@nil (list BlockNumberHash)) by (by destruct (length bs)).
    cbn [query_chunks].
    destruct (query_chunk_spec (b :: bs) (b :: bs) 0 [] [] ltac:(lia)) as (g & m & bf & -> & -> & Hm & _).
    cbn [rbind]. exists (take m (b :: bs)), m. rewrite drop_0.
    split_and!; [by destruct g|rewrite length_take; lia|done|done].
  - destruct (query_chunks_spec bs (chunks MAX_PARALLEL_RPC_CALLS bs) [] []
      (chunks_le _ bs)) as (bf & m & -> & Hl & Hm).
    rewrite chunks_concat in * by done. exists bf, m. by split_and!.
Qed.
End queries.

(** What a node that follows a chain answers, when it answers. *)
Record node_of {D} (ev : Z -> list (Event D)) (n : @EventHandling.node D)
    (c : list BlockNumberHash) : Prop := {
  node_current : forall info, EventHandling.current_block n = Some info ->
    exists c' p b, c = c' ++ [p; b] /\ number info = b.1 /\ hash info = b.2 /\ parent_hash info = p.2;
  node_blocks : forall r bs, EventHandling.blocks n r = Some bs -> 0 <= start r <= end_ r ->
    end_ r < Z.of_nat (length c) /\ bs = slice c r;
  node_events : forall h es, EventHandling.block_events n h = Some es -> es = ev h;
  node_range : forall r items, EventHandling.range_events n r = Some items ->
    exists es failed, items = map Some es ++ failed /\ es `prefix_of` events_of ev (slice c r) /\
      (failed = [] -> es = events_of ev (slice c r)) /\ (failed <> [] -> head failed = Some None);
}.

Section range.
Import EventHandling.
Context {D : Type} (ev : Z -> list (Event D)) (n : @node D) (old new : list BlockNumberHash).
Context (Hold : forall i b, old !! i = Some b -> b.1 = Z.of_nat i).
Context (Hnew : forall i b, new !! i = Some b -> b.1 = Z.of_nat i).
Context (Hlink : linked old new) (Hnode : node_of ev n new).
(** The chain was not reorganized below the last 64 handled blocks. *)
Context (Hreorg : take (length old - 65) old = take (length old - 65) new).

(** What [event_block_range] decides, in terms of the two chains. *)
Inductive plan (r : EventRange) : Prop :=
| plan_nothing : history_range r = None -> latest_blocks r = [] -> new `prefix_of` old -> plan r
| plan_latest k : history_range r = None -> latest_blocks r = drop k new ->
    (k < length new)%nat -> (k <= length old)%nat -> take k old = take k new ->
    (is_reorg r = false -> k = length old) ->
    (length new - k <= 128)%nat \/ (length new - (length old - 65) = 129)%nat -> plan r
| plan_history k e : history_range r = Some (mkRange (Z.of_nat k) (Z.of_nat e)) ->
    latest_blocks r = drop (S e) new -> (k <= e)%nat -> (S e < length new)%nat ->
    k = (length old - 65)%nat -> (length new - S e = 128)%nat -> take k old = take k new ->
    is_reorg r = true -> plan r.

Lemma last_numbered l (b : BlockNumberHash) c :
  l `suffix_of` c -> last l = Some b -> c !! (length c - 1)%nat = Some b /\ (0 < length c)%nat.
Proof.
  intros [pre ->] (l' & ->)%last_Some. rewrite app_assoc, length_app. cbn. split; [|lia].
  rewrite Nat.add_sub. by apply list_lookup_middle.
Qed.

Lemma detect_plan handled k0 r :
  handled `suffix_of` old -> handled <> [] -> k0 = (length old - 65)%nat -> (k0 < length new)%nat -> (length new - k0 <= 129)%nat ->
  history_range r = None ->
  (latest_blocks r, is_reorg r) = detect_reorg_path handled (drop k0 new) -> plan r.
Proof.
  intros Hs Hne Hk Hlen Hsize Hh. unfold detect_reorg_path.
  destruct (common_ancestor (rev handled) (drop k0 new)) as [[b path]|] eqn:Hc; intros [= Hl Hr].
  - apply common_ancestor_Some in Hc as (h1 & h2 & l1 & Hrev & Hd & Hb & _).
    assert (Hin : b ∈ old).
    { destruct Hs as [pre ->]. apply elem_of_app. right. apply elem_of_reverse.
      unfold reverse. rewrite <- rev_alt, Hrev. apply elem_of_app. right. by left. }
    apply list_elem_of_lookup in Hin as [i Hi].
    assert (Hj : new !! (k0 + length l1)%nat = Some b).
    { rewrite <- lookup_drop, Hd. by apply list_lookup_middle. }
    destruct (Hlink _ _ _ _ Hi Hj eq_refl) as [-> Ht].
    assert (Hpath : drop (S (k0 + length l1)) new = path).
    { replace (S (k0 + length l1)) with (k0 + (length l1 + 1))%nat by lia.
      rewrite <- drop_drop, Hd, cons_middle, app_assoc, drop_app_length'; [done|].
      rewrite length_app. simpl. lia. }
    pose proof (lookup_lt_Some _ _ _ Hi) as Hlo. pose proof (lookup_lt_Some _ _ _ Hj) as Hln.
    destruct (decide (S (k0 + length l1) = length new)) as [He|He].
    + apply plan_nothing; [done| |].
      * rewrite Hl, <- Hpath. by apply drop_ge; lia.
      * rewrite He, firstn_all in Ht. exists (drop (length new) old).
        rewrite <- Ht at 1. by rewrite take_drop.
    + apply (plan_latest _ (S (k0 + length l1))); [done|by rewrite Hpath|lia|lia|done| |lia].
      rewrite Hr. intros Hnf. apply negb_false_iff, bool_decide_eq_true in Hnf.
      destruct (last_numbered handled b old Hs (eq_sym Hnf)) as [Hlast Hpos].
      apply Hold in Hlast. apply Hold in Hi. lia.
  - apply (plan_latest _ k0); [done|done|done|lia|by subst| |lia].
    rewrite Hr. intros Hnf. apply negb_false_iff, bool_decide_eq_true in Hnf. done.
Qed.

Lemma slice_end r k : start r = Z.of_nat k -> end_ r = Z.of_nat (length new) - 1 -> 0 <= end_ r - start r + 1 ->
  slice new r = drop k new.
Proof.
  intros Hs He Hr. unfold slice. rewrite Hs, Nat2Z.id. apply take_ge. rewrite length_drop. lia.
Qed.
Lemma event_block_range_plan {St} `{!EventStoring D St} (h : @EventHandler St) handled r :
  get_handled_blocks n h = Ok handled -> handled `suffix_of` old -> handled <> [] ->
  event_block_range n h = Ok r -> plan r.
Proof.
  intros Hh Hs Hne. unfold event_block_range. rewrite Hh. cbn [rbind]. intros Hr.
  inv_ok. destruct v0 as [ln lh]. destruct (node_current _ _ _ Hnode _ Hv) as (c' & p & b & Hnc & Hnum & Hhash & Hpar).
  destruct (last_numbered _ _ _ Hs Hv0) as [Hlo Hpos].
  assert (Hp : new !! length c' = Some p) by (rewrite Hnc; by apply list_lookup_middle).
  assert (Hb : new !! S (length c') = Some b).
  { rewrite Hnc, lookup_app_r by lia. by replace (S (length c') - length c')%nat with 1%nat by lia. }
  assert (Hlen : length new = S (S (length c'))) by (rewrite Hnc, length_app; simpl; lia).
  pose proof (Hold _ _ Hlo) as Hln. pose proof (Hnew _ _ Hb) as Hbn. cbn [fst] in Hln.
  destruct (Z.eqb_spec (parent_hash v) lh) as [He|_].
  { destruct (Hlink _ _ _ _ Hlo Hp ltac:(cbn; congruence)) as [Hi Ht]. inv_ok.
    assert (Hlo' : S (length old - 1) = length old) by lia.
    apply (plan_latest _ (length old)); cbn; [done| |lia|lia| |done|lia].
    - rewrite <- Hlo', Hi, Hnc, cons_middle, app_assoc, drop_app_length'; [|rewrite length_app; simpl; lia].
      rewrite Hnum, Hhash. by destruct b.
    - rewrite <- Hi, Hlo' in Ht. exact Ht. }
  destruct (_ && _) eqn:Hsame.
  { bool_to_prop. destruct (Hlink _ _ _ _ Hlo Hb ltac:(cbn; congruence)) as [Hi Ht]. inv_ok.
    apply plan_nothing; cbn; [done..|].
    rewrite !take_ge in Ht by lia. by rewrite Ht. }
  apply rbind_Ok in Hr as (br & Hbr & Hr). apply rbind_Ok in Hr as ([hist lat] & Hsplit & Hr).
  apply rbind_Ok in Hr as (lbs & Hlbs & Hr). apply ok_or_Ok in Hlbs. unfold try_new in Hbr.
  destruct (Z.leb_spec (saturating_sub ln MAX_REORG_BLOCK_COUNT) (number v)); [|done].
  injection Hbr as <-. unfold saturating_sub, MAX_REORG_BLOCK_COUNT in *.
  assert (Hk0 : Z.max (ln - 64) 0 = Z.of_nat (length old - 65)) by lia. rewrite Hk0 in *.
  destruct (split_range_spec (mkRange (Z.of_nat (length old - 65)) (number v)) ltac:(cbn; lia))
    as (hist' & lat' & Hsr & Hend & Hsz & Hshape). rewrite Hsr in Hsplit.
  injection Hsplit as -> ->. cbn [start end_] in *.
  assert (Hlatr : 0 <= start lat <= end_ lat) by (destruct hist as [hr|]; lia).
  destruct (node_blocks _ _ _ Hnode _ _ Hlbs Hlatr) as [_ ->].
  destruct hist as [hr|].
  - destruct Hshape as (Hs1 & Hs2 & Hs3 & Hs4). inv_ok.
    destruct hr as [hs he]. cbn [start end_] in *. subst hs.
    assert (Hhe : he = Z.of_nat (Z.to_nat he)) by lia. rewrite Hhe in *.
    apply (plan_history _ (length old - 65) (Z.to_nat he)); [done| |lia|lia|done|lia|done|done].
    cbn; apply slice_end; lia.
  - rewrite (slice_end lat (length old - 65)) in Hr by lia.
    destruct (detect_reorg_path handled (drop (length old - 65) new)) as [path reorg] eqn:Hd. inv_ok.
    eapply (detect_plan handled); try done; lia.
Qed.
End range.

Section updates.
Import EventHandling.
Context {D St : Type} `{ES : !EventStoring D St, !EventKey D} (holds : St -> list (Event D) -> Prop).
Context `{!EventStoringLaws D St holds}.
Context (ev : Z -> list (Event D)) (n : @node D).
Implicit Types (old new c : list BlockNumberHash) (h : @EventHandler St).

(** The handler is in step with a chain. *)
Record synced h c : Prop := {
  synced_events : holds (store h) (events_of ev c);
  synced_blocks : last_handled_blocks h `suffix_of` c;
  synced_cap : (length (last_handled_blocks h) <= 64)%nat;
}.

Lemma placed_before old new (k m : nat) :
  good_chain ev old -> good_chain ev new -> take k old = take k new ->
  before (Z.of_nat k) (events_of ev old) = events_of ev (take k new) /\
  placed (before (Z.of_nat k) (events_of ev old) ++ events_of ev (take m (drop k new))).
Proof.
  intros Ho Hn Hk. rewrite before_events by done. rewrite Hk. split; [done|].
  rewrite <- events_of_app, take_take_drop. by apply good_placed, good_prefix.
Qed.

Lemma new_length new (k m : nat) : (k + m = length new)%nat -> take (k + m) new = new.
Proof. intros ->. apply take_ge. lia. Qed.

Lemma update_latest_spec h h' old new (k : nat) reorg r :
  good_chain ev old -> good_chain ev new -> node_of ev n new ->
  (k < length new)%nat -> (k <= length old)%nat -> take k old = take k new ->
  (reorg = false -> k = length old) -> synced h old ->
  update_events_from_latest_blocks n h (drop k new) reorg = (h', r) ->
  r <> Panic /\ (r = Ok tt -> synced h' new /\ last_handled_blocks h' <> []) /\
  ((length new - k <= 128)%nat -> synced h' old \/
    exists m, (0 < m)%nat /\ (k + m <= length new)%nat /\ synced h' (take (k + m) new)).
Proof.
  intros Ho Hn Hnode Hlen Hklo Hk Hreorg [Hse Hsb Hsc] Hu. unfold update_events_from_latest_blocks in Hu.
  destruct (past_events_spec ev n (node_events _ _ _ Hnode) (drop k new)) as (bf & m & Hp & Hbf & Hm & Hpre).
  rewrite Hp in Hu. clear Hp. rewrite length_drop in *.
  destruct (head bf) as [first|] eqn:Hhd; [destruct (last bf) as [final|] eqn:Hfin|];
    [|by injection Hu as <- <-; split_and!; [done..|by left]
     |by injection Hu as <- <-; split_and!; [done..|by left]].
  assert (Hm0 : (0 < m)%nat) by (subst m; destruct bf; simpl in *; [done|lia]).
  unfold try_new in Hu. destruct (first.1 <=? final.1);
    [|by injection Hu as <- <-; split_and!; [done..|by left]].
  destruct (placed_before old new k m Ho Hn Hk) as [Hbefore Hplaced].
  assert (Hfull : bf = take m (drop k new) -> first.1 = Z.of_nat k).
  { intros ->. apply (numbered _ _ Hn). rewrite <- (Nat.add_0_r k), <- lookup_drop.
    rewrite <- (lookup_take_lt _ m) by lia. by rewrite <- head_lookup. }
  destruct (if reorg then _ else _) as [s ok] eqn:Hst.
  assert (Hstore : (first.1 = Z.of_nat k \/ reorg = false) ->
    holds s (if ok then events_of ev (take (k + m) new) else events_of ev old)).
  { intros Hfirst. rewrite <- take_take_drop, events_of_app. destruct reorg.
    - destruct Hfirst as [Hfirst|]; [|done].
      pose proof (replace_spec (store h) _ (events_of ev (take m (drop k new))) (mkRange first.1 final.1) Hse) as Hr.
      cbn [start] in Hr. rewrite Hst, Hfirst in Hr. specialize (Hr Hplaced). by rewrite Hbefore in Hr.
    - specialize (Hreorg eq_refl). subst k. rewrite firstn_all in Hk.
      assert (He : events_of ev old = events_of ev (take (length old) new)) by (by rewrite <- Hk).
      pose proof (append_spec (store h) _ (events_of ev (take m (drop (length old) new))) Hse) as Hr.
      rewrite Hst, <- He in *. apply Hr. rewrite He, <- events_of_app, take_take_drop.
      by apply good_placed, good_prefix. }
  pose proof (update_last_handled_suffix old new (last_handled_blocks h) k m (numbered _ _ Ho)
    (numbered _ _ Hn) Hsb Hk Hlen Hm0) as (Hsuf & Hnil & Hcap).
  destruct ok; injection Hu as <- <-.
  - assert (Hsync : bf = take m (drop k new) ->
      synced (mkEventHandler s (update_last_handled_blocks (last_handled_blocks h) bf)) (take (k + m) new)).
    { intros Hb. split; cbn [store last_handled_blocks]; [apply Hstore; left; by apply Hfull|by rewrite Hb..]. }
    split; [by case_decide|]. split.
    + case_decide as Hall; [|done]. intros _.
      assert (Hmk : m = (length new - k)%nat) by (by rewrite <- Hbf, Hall, length_drop).
      assert (Hb : bf = take m (drop k new)) by (rewrite take_ge by (rewrite length_drop; lia); done).
      split; [|by rewrite Hb]. rewrite <- (new_length new k m) by lia. by apply Hsync.
    + intros H128. right. exists m. split_and!; [done|lia|]. apply Hsync, Hpre. done.
  - split_and!; [done..|]. intros H128. left. split; [|done..].
    cbn. apply Hstore. left. apply Hfull, Hpre. done.
Qed.
(** A chunk of the stream without a failure is a chunk of the events. *)
Lemma chunk_events (c rest failed : list (option (Event D))) es evs :
  c ++ rest = map Some es ++ failed -> (failed <> [] -> head failed = Some None) ->
  mapM (M := option) id c = Some evs ->
  exists es2, es = evs ++ es2 /\ rest = map Some es2 ++ failed.
Proof.
  intros Heq Hf Hm. assert (Hc : c = map Some evs).
  { apply mapM_Some in Hm. clear - Hm. induction Hm as [|x y l k Hx _ IH]; [done|]. cbn in *. by subst. }
  subst c. clear Hm. revert es Heq. induction evs as [|e evs IH]; intros es Heq; [by exists es|].
  destruct es as [|e' es]; cbn in Heq.
  { exfalso. destruct failed as [|x failed]; [done|]. injection Heq as <- _.
    by specialize (Hf ltac:(done)). }
  injection Heq as <- Heq. destruct (IH es Heq) as (es2 & -> & ->). by exists es2.
Qed.

(** Storing the history: whatever was stored is what was there below the range
    followed by the first events of the range, and all of them on success. *)
Lemma store_history_spec range cs es done_ failed s deleted base s' d' r :
  concat cs = map Some es ++ failed -> (failed <> [] -> head failed = Some None) ->
  placed (base ++ done_ ++ es) ->
  (if deleted : bool then holds s (base ++ done_)
   else done_ = [] /\ exists l, holds s l /\ before (start range) l = base) ->
  store_history range s deleted cs = ((s', d'), r) ->
  r <> Panic /\
  ((d' = true /\ exists es1 es2, es = es1 ++ es2 /\ holds s' (base ++ done_ ++ es1) /\
      (r = Ok tt -> es2 = [] /\ failed = [])) \/
   (d' = false /\ deleted = false /\ (exists l, holds s' l /\ before (start range) l = base) /\ (r = Ok tt -> cs = []))).
Proof.
  revert es done_ s deleted. induction cs as [|c cs IH]; intros es done_ s deleted Heq Hf Hpl Hinv Hs; cbn in Hs.
  { injection Hs as <- <- <-. split; [done|]. cbn in Heq. symmetry in Heq.
    apply app_nil in Heq as [Hes ->]. destruct es; [|done]. destruct deleted.
    - left. split; [done|]. exists [], []. rewrite ?app_nil_r. by split_and!.
    - right. by destruct Hinv. }
  destruct (mapM id c) as [evs|] eqn:Hc.
  - destruct (chunk_events _ _ _ _ _ Heq Hf Hc) as (es2 & -> & Hrest).
    destruct (if deleted then _ else _) as [s1 ok] eqn:Hst.
    assert (Hview : if ok then holds s1 (base ++ done_ ++ evs)
      else if deleted then holds s1 (base ++ done_) else exists l, holds s1 l /\ before (start range) l = base).
    { destruct deleted.
      - pose proof (append_spec s _ evs Hinv) as Ha. rewrite Hst in Ha. rewrite <- app_assoc in Ha.
        assert (Hp : placed (base ++ done_ ++ evs)) by (rewrite !app_assoc in *; by apply placed_prefix in Hpl).
        specialize (Ha Hp). by destruct ok.
      - destruct Hinv as (-> & l & Hl & Hb). pose proof (replace_spec s l evs range Hl) as Ha. rewrite Hst, Hb in Ha.
        assert (Hp : placed (base ++ evs)) by (cbn in Hpl; rewrite app_assoc in Hpl; by apply placed_prefix in Hpl).
        specialize (Ha Hp). destruct ok; [done|by exists l]. }
    destruct ok.
    + apply (IH es2 (done_ ++ evs)) in Hs as [Hr Hcase]; [|done|done| |].
      * split; [done|]. left. destruct Hcase as [(-> & e1 & e2 & -> & Hv & Hok)|(_ & ? & _)]; [|done].
        split; [done|]. exists (evs ++ e1), e2. rewrite <- !app_assoc in *. by split_and!.
      * by rewrite <- !app_assoc in *.
      * done.
    + injection Hs as <- <- <-. split; [done|]. destruct deleted.
      * left. split; [done|]. exists [], (evs ++ es2). rewrite ?app_nil_r. by split_and!.
      * right. by split_and!.
  - injection Hs as <- <- <-. split; [done|]. destruct deleted.
    + left. split; [done|]. exists [], es. rewrite ?app_nil_r. by split_and!.
    + right. split_and!; [done..|by destruct Hinv|done].
Qed.

(** With at least 64 blocks, or from block 0 on, nothing older is kept. *)
Lemma update_last_handled_full new handled (k m : nat) :
  good_chain ev new -> Forall (fun b : BlockNumberHash => 0 <= b.1) handled ->
  (k + m <= length new)%nat -> (0 < m)%nat -> (64 <= m)%nat \/ k = 0%nat ->
  let handled' := update_last_handled_blocks handled (take m (drop k new)) in
  handled' `suffix_of` take (k + m) new /\ (length handled' <= 64)%nat.
Proof.
  intros Hn Hpos Hlen Hm Hor. unfold update_last_handled_blocks.
  assert (Hlt : length (take m (drop k new)) = m) by (rewrite length_take, length_drop; lia).
  rewrite <- take_take_drop. destruct (take m (drop k new)) as [|first rest] eqn:Ht; [simpl in *; lia|].
  assert (H64 : Z.to_nat MAX_REORG_BLOCK_COUNT = 64%nat) by done. rewrite H64.
  cbv zeta. split; [|rewrite length_drop; lia].
  destruct Hor as [H| ->].
  - rewrite drop_app_ge by (rewrite length_app; lia).
    eexists (take k new ++ take _ (first :: rest)). by rewrite <- app_assoc, take_drop.
  - assert (Hf : first.1 = 0).
    { apply (numbered _ _ Hn 0%nat). rewrite drop_0 in Ht. rewrite <- (lookup_take_lt _ m) by lia. by rewrite Ht. }
    rewrite Hf, filter_none by (eapply Forall_impl; [exact Hpos|]; cbn; lia).
    cbn [take app]. eexists. by rewrite take_drop.
Qed.
Lemma before_later new (k : nat) (es1 es2 : list (Event D)) l :
  good_chain ev new -> l `prefix_of` drop k new -> events_of ev l = es1 ++ es2 ->
  before (Z.of_nat k) (events_of ev (take k new) ++ es1) = events_of ev (take k new).
Proof.
  intros Hn [rest Hl] Hes. unfold before. rewrite filter_app.
  assert (Hk : take k (take k new) = take k new) by (rewrite take_take; f_equal; lia).
  pose proof (before_events ev (take k new) k (good_prefix ev new k Hn)) as Hb.
  unfold before in Hb. rewrite Hb, Hk, filter_none; [apply app_nil_r|].
  assert (Hall : Forall (fun e => ~ event_block e < Z.of_nat k) (es1 ++ es2)); [|by apply Forall_app in Hall as [? _]].
  rewrite <- Hes. apply Forall_concat, Forall_map, Forall_forall. intros b Hb1.
  assert (Hin : b ∈ drop k new) by (rewrite Hl; apply elem_of_app; by left).
  apply list_elem_of_lookup in Hin as [i Hi]. rewrite lookup_drop in Hi.
  eapply Forall_impl; [apply (located _ _ Hn); by eapply list_elem_of_lookup_2|].
  intros e (li & He & _). unfold event_block. rewrite He, (numbered _ _ Hn _ _ Hi). lia.
Qed.

Lemma update_old_spec h h' old new (k e : nat) r :
  good_chain ev old -> good_chain ev new -> node_of ev n new ->
  (k <= e)%nat -> (S e < length new)%nat -> take k old = take k new -> synced h old ->
  update_events_from_old_blocks n h (mkRange (Z.of_nat k) (Z.of_nat e)) = (h', r) ->
  r <> Panic /\ (r = Ok tt -> synced h' (take (S e) new)) /\
  (r <> Ok tt -> last_handled_blocks h' = last_handled_blocks h /\
    exists l, holds (store h') l /\ before (Z.of_nat k) l = events_of ev (take k new)).
Proof.
  intros Ho Hn Hnode Hke Hlen Hk Hsync Hu. pose proof Hsync as [Hse Hsb Hsc].
  set (range := mkRange (Z.of_nat k) (Z.of_nat e)) in *.
  assert (Hslice : slice new range = take (S e - k) (drop k new)).
  { unfold slice, range. cbn [start end_]. rewrite Nat2Z.id. f_equal. lia. }
  assert (Hke' : (k + (S e - k))%nat = S e) by lia.
  destruct (placed_before old new k (S e - k) Ho Hn Hk) as [Hbase Hplaced].
  assert (Hheld : exists l, holds (store h) l /\ before (Z.of_nat k) l = events_of ev (take k new)) by (by eexists).
  unfold update_events_from_old_blocks, try_new, saturating_sub, MAX_REORG_BLOCK_COUNT in Hu.
  subst range. cbn [end_ start] in *. set (range := mkRange (Z.of_nat k) (Z.of_nat e)) in *.
  rewrite (proj2 (Z.leb_le _ _)) in Hu by lia. cbn [rbind] in Hu.
  destruct (blocks n _) as [bs|] eqn:Hbs; cbn [opt ok_or] in Hu;
    [|by injection Hu as <- <-; split_and!].
  destruct (node_blocks _ _ _ Hnode _ _ Hbs ltac:(cbn; lia)) as [_ ->]. clear Hbs.
  destruct (range_events n range) as [items|] eqn:Hit; [|by injection Hu as <- <-; split_and!].
  destruct (node_range _ _ _ Hnode _ _ Hit) as (es & failed & -> & [es3 Hes] & Hfull & Hfail). rewrite Hslice in *.
  destruct (store_history _ _ _ _) as [[s d] r1] eqn:Hst.
  assert (Hbefore : forall es1, (exists es2, es = es1 ++ es2) ->
    before (Z.of_nat k) (events_of ev (take k new) ++ es1) = events_of ev (take k new)).
  { intros es1 [es2 ->]. eapply (before_later new k es1 (es2 ++ es3) (take (S e - k) (drop k new))); [done| |].
    - by apply prefix_take.
    - by rewrite Hes, app_assoc. }
  pose proof (store_history_spec range (chunks INSERT_EVENT_BATCH_SIZE (map Some es ++ failed)) es [] failed
    (store h) false (events_of ev (take k new)) s d r1) as Hsp.
  rewrite chunks_concat in Hsp by (unfold INSERT_EVENT_BATCH_SIZE; lia).
  destruct Hsp as [Hr Hcase]; [done|done| |done|done|].
  { cbn. eapply placed_prefix. rewrite <- app_assoc, <- Hes, <- events_of_app, take_take_drop.
    by apply good_placed, good_prefix. }
  assert (Hfin : forall s, holds s (events_of ev (take (S e) new)) ->
    synced (mkEventHandler s (update_last_handled_blocks (last_handled_blocks h)
      (slice new (mkRange (Z.max (Z.of_nat e - 64) 0) (Z.of_nat e))))) (take (S e) new)).
  { intros s' Hs'. assert (Hsl : slice new (mkRange (Z.max (Z.of_nat e - 64) 0) (Z.of_nat e))
      = take (S e - (e - 64)) (drop (e - 64) new)).
    { unfold slice. cbn [start end_]. f_equal; [lia|]. f_equal. lia. }
    rewrite Hsl. destruct (update_last_handled_full new (last_handled_blocks h) (e - 64) (S e - (e - 64)))
      as [Hsuf Hcap]; [done| |lia|lia|lia|].
    - apply Forall_forall. intros b Hb.
      assert (Hin : b ∈ old) by (destruct Hsb as [pre ->]; apply elem_of_app; by right).
      apply list_elem_of_lookup in Hin as [i Hi]. rewrite (numbered _ _ Ho _ _ Hi). lia.
    - replace (e - 64 + (S e - (e - 64)))%nat with (S e) in Hsuf by lia. by split. }
  assert (Hpart : forall es1, (exists es2, es = es1 ++ es2) -> holds s (events_of ev (take k new) ++ es1) ->
    exists l, holds s l /\ before (Z.of_nat k) l = events_of ev (take k new)).
  { intros es1 He1 Hv. eexists. split; [exact Hv|]. by apply Hbefore. }
  destruct Hcase as [(-> & es1 & es2 & He12 & Hv & Hok)|(-> & _ & Hv & Hok)]; cbn [app] in Hv.
  - destruct r1 as [[]| |]; [|by injection Hu as <- <-; split_and!; eauto|done].
    destruct (Hok eq_refl) as [-> ->]. rewrite app_nil_r in He12. subst es1.
    rewrite (Hfull eq_refl), <- events_of_app, take_take_drop, Hke' in Hv.
    injection Hu as <- <-. split_and!; [done| |done]. intros _. by apply Hfin.
  - destruct r1 as [[]| |]; [|injection Hu as <- <-; split_and!; [done..|]|done].
    + assert (Hnone : map Some es ++ failed = []).
      { by rewrite <- (chunks_concat INSERT_EVENT_BATCH_SIZE (map Some es ++ failed)), (Hok eq_refl)
          by (unfold INSERT_EVENT_BATCH_SIZE; lia). }
      apply app_nil in Hnone as [Hnil ->]. destruct es; [|done]. specialize (Hfull eq_refl).
      destruct (replace_events s [] range) as [s2 ok] eqn:Hrep.
      destruct Hv as (l & Hl & Hb). pose proof (replace_spec s l [] range Hl) as Hr2.
      rewrite Hrep, Hb, app_nil_r in Hr2.
      specialize (Hr2 ltac:(by apply good_placed, good_prefix)).
      destruct ok; injection Hu as <- <-; split_and!; try done.
      * intros _. apply Hfin. by rewrite <- Hke', <- take_take_drop, events_of_app, <- Hfull, app_nil_r.
      * intros _. split; [done|]. by exists l.
    + intros _. split; [done|]. by cbn.
Qed.
(** A handler that can go on from [old]: it remembers blocks, or the store ends
    with a block of the chain the node follows. *)
Definition resumable h old new : Prop :=
  last_handled_blocks h <> [] \/
  exists m, last_event_block (store h) = Some (Z.of_nat m) /\ old = take (S m) new.

Lemma handled_blocks_suffix h old new handled :
  node_of ev n new -> synced h old -> resumable h old new ->
  get_handled_blocks n h = Ok handled -> handled `suffix_of` old /\ handled <> [].
Proof.
  intros Hnode Hs Hres Hg. unfold get_handled_blocks in Hg.
  destruct (last_handled_blocks h) as [|b l] eqn:Hl.
  - destruct Hres as [?|(m & Hm & ->)]; [done|]. rewrite Hm in Hg. cbn [opt ok_or rbind] in Hg.
    unfold try_new in Hg. rewrite Z.leb_refl in Hg. cbn [rbind] in Hg.
    apply ok_or_Ok in Hg. apply (node_blocks _ _ _ Hnode) in Hg as [Hlt ->]; [|cbn; lia].
    cbn [end_] in Hlt. unfold slice. cbn [start end_].
    rewrite Z.sub_diag, Nat2Z.id. change (Z.to_nat (0 + 1)) with 1%nat.
    destruct (lookup_lt_is_Some_2 new m) as [b Hb]; [lia|].
    rewrite (drop_S new b m Hb). cbn [take]. split; [|done].
    exists (take m new). by apply take_S_r.
  - injection Hg as <-. split; [|done]. rewrite <- Hl. apply Hs.
Qed.

Lemma event_block_range_no_panic h old new :
  node_of ev n new -> synced h old -> resumable h old new -> event_block_range n h <> Panic.
Proof.
  intros Hnode Hs Hres Hp. unfold event_block_range in Hp.
  destruct (get_handled_blocks n h) as [handled| |] eqn:Hg; cbn [rbind] in Hp.
  - destruct (handled_blocks_suffix _ _ _ _ Hnode Hs Hres Hg) as [_ Hne].
    destruct (current_block n) as [info|]; [|done]. cbn [opt ok_or rbind] in Hp.
    destruct (last handled) as [[ln lh]|] eqn:Hl; [|by apply last_None in Hl].
    cbn [opt_expect rbind] in Hp. do 2 (case_match; [done|]).
    unfold try_new in Hp. case_match eqn:Hle; [|done]. cbn [rbind] in Hp. apply Z.leb_le in Hle.
    destruct (split_range_spec (mkRange (saturating_sub ln MAX_REORG_BLOCK_COUNT) (number info)))
      as (hist & lat & Hsr & _); [cbn; unfold saturating_sub in *; lia|].
    rewrite Hsr in Hp. cbn [rbind] in Hp.
    destruct (blocks n lat); [|done]. cbn [opt ok_or rbind] in Hp. by repeat case_match.
  - done.
  - unfold get_handled_blocks, try_new in Hg. destruct (last_handled_blocks h); [|done].
    destruct (last_event_block (store h)); [|done]. cbn [opt ok_or rbind] in Hg.
    rewrite Z.leb_refl in Hg. cbn [rbind] in Hg. by destruct (blocks n _).
Qed.

Lemma update_events_spec h h' old new r :
  good_chain ev old -> good_chain ev new -> linked old new -> node_of ev n new ->
  take (length old - 65) old = take (length old - 65) new ->
  synced h old -> resumable h old new -> update_events n h = (h', r) ->
  r <> Panic /\
  (r = Ok tt -> synced h' new \/ (h' = h /\ new `prefix_of` old)) /\
  ((length new - (length old - 65) <> 129)%nat ->
    synced h' old \/ (exists k, synced h' (take k new)) \/
    (last_handled_blocks h' = last_handled_blocks h /\
     exists l, holds (store h') l /\
       before (Z.of_nat (length old - 65)) l = events_of ev (take (length old - 65) old))).
Proof.
  intros Ho Hn Hlink Hnode Hreorg Hs Hres Hu. unfold update_events in Hu.
  destruct (event_block_range n h) as [er|e|] eqn:Hr.
  - pose proof Hr as Hr0. unfold event_block_range in Hr0. apply rbind_Ok in Hr0 as (handled & Hg & _).
    destruct (handled_blocks_suffix _ _ _ _ Hnode Hs Hres Hg) as [Hsuf Hne].
    destruct (event_block_range_plan ev n old new (numbered _ _ Ho) (numbered _ _ Hn) Hlink Hnode Hreorg
      h handled er Hg Hsuf Hne Hr) as [Hh Hl Hpre|k Hh Hl Hkn Hko Hk Hf Hsize|k e Hh Hl Hke Hen Hk0 Hsize Hk Hf];
      rewrite Hh, Hl in Hu.
    + injection Hu as <- <-. split_and!; [done|by right|by left].
    + destruct (drop k new) as [|b l] eqn:Hd.
      { apply (f_equal length) in Hd. rewrite length_drop in Hd. simpl in Hd. lia. }
      rewrite <- Hd in Hu.
      destruct (update_latest_spec _ _ _ _ _ _ _ Ho Hn Hnode Hkn Hko Hk Hf Hs Hu) as (Hp & Hok & Herr).
      split_and!; [done|intros ->; left; by apply Hok|].
      intros H129. destruct Herr as [?|(m & _ & _ & ?)]; [lia|by left|right; left; by eexists].
    + destruct (update_events_from_old_blocks _ _ _) as [h1 r1] eqn:Ho1.
      destruct (update_old_spec _ _ _ _ _ _ _ Ho Hn Hnode Hke Hen Hk Hs Ho1) as (Hp1 & Hok1 & Herr1).
      destruct r1 as [[]| |]; [|injection Hu as <- <-|done].
      * destruct (drop (S e) new) as [|b l] eqn:Hd.
        { apply (f_equal length) in Hd. rewrite length_drop in Hd. simpl in Hd. lia. }
        rewrite <- Hd in Hu.
        destruct (update_latest_spec h1 h' (take (S e) new) new (S e) (is_reorg er) r
          (good_prefix _ _ _ Hn) Hn Hnode) as (Hp & Hok & Herr);
          [lia|rewrite length_take; lia|by rewrite take_take, Nat.min_id|by rewrite Hf|by apply Hok1|exact Hu|].
        split_and!; [done|intros ->; left; by apply Hok|].
        intros _. right. left. destruct Herr as [?|(m & _ & _ & ?)]; [lia| |]; by eexists.
      * split_and!; [done|done|]. intros _. right. right. subst k. rewrite Hk. by apply Herr1.
  - injection Hu as <- <-. split_and!; [done|done|by left].
  - by apply (event_block_range_no_panic h old new) in Hr.
Qed.
End updates.

(** ** The cache of recent events keeps the promise of the trait *)
Section recent_events.
Import RecentEventsCache.
Context {D : Type} `{!EventKey D}.

(** What the cache holds; the key is the authority on where an event is. *)
Definition cached_events (m : gmap (Z * N) (Event D)) : list (Event D) :=
  map (fun kv => mkEvent (Some kv.1) (data kv.2)) (map_to_list m).

Lemma cached_events_insert m k (e : Event D) :
  meta e = Some k -> Some k ∉ map meta (cached_events m) ->
  cached_events (<[k := e]> m) ≡ₚ e :: cached_events m.
Proof.
  intros He Hk. unfold cached_events. rewrite map_to_list_insert.
  - cbn. destruct e. cbn in *. by subst.
  - destruct (m !! k) as [e'|] eqn:Hm; [|done]. destruct Hk.
    apply elem_of_map_to_list in Hm. apply list_elem_of_In, in_map_iff.
    exists (mkEvent (Some k) (data e')). split; [done|]. apply in_map_iff. exists (k, e').
    split; [done|]. by apply list_elem_of_In.
Qed.

Lemma append_placed (m : gmap (Z * N) (Event D)) evs :
  placed (cached_events m ++ evs) ->
  exists m', append m evs = (m', true) /\ cached_events m' ≡ₚ cached_events m ++ evs.
Proof.
  revert m. induction evs as [|e evs IH]; intros m Hp; cbn [append].
  { exists m. by rewrite app_nil_r. }
  pose proof Hp as (Hs & Hnd & _). apply Forall_app in Hs as [_ [([b li] & He & _) _]%Forall_cons].
  rewrite He. assert (Hins : cached_events (<[(b, li) := e]> m) ≡ₚ e :: cached_events m).
  { apply cached_events_insert; [done|]. rewrite map_app in Hnd. apply NoDup_app in Hnd as (_ & Hd & _).
    intros Hin. apply (Hd _ Hin). cbn. rewrite He. by left. }
  destruct (IH (<[(b, li) := e]> m)) as (m' & Ha & Hm').
  - eapply placed_perm; [|exact Hp]. rewrite Hins. solve_Permutation.
  - exists m'. split; [done|]. rewrite Hm', Hins. solve_Permutation.
Qed.

Lemma remove_newer_before (m : gmap (Z * N) (Event D)) n :
  cached_events (remove_events_newer_than_block m n) ≡ₚ before n (cached_events m).
Proof.
  unfold remove_events_newer_than_block, cached_events, before.
  assert (Hl : map_to_list (filter (fun kv : (Z * N) * Event D => key_lt kv.1 (n, 0%N)) m) ≡ₚ
    filter (fun kv : (Z * N) * Event D => key_lt kv.1 (n, 0%N)) (map_to_list m)).
  { rewrite map_filter_alt at 1. apply map_to_list_to_map.
    eapply sublist_NoDup; [apply (NoDup_fst_map_to_list m)|]. apply fmap_sublist, sublist_filter. }
  rewrite Hl. clear Hl. apply reflexive_eq. induction (map_to_list m) as [|[[b li] e] l IH]; [done|].
  rewrite filter_cons. cbn [map]. rewrite filter_cons, <- IH. unfold event_block, key_lt. cbn.
  do 2 case_decide; [done|lia|lia|done].
Qed.

#[global] Instance recent_events_laws :
  EventStoringLaws D (RecentEventsCache D) (fun m l => cached_events m ≡ₚ l).
Proof.
  split.
  - intros m l l' Hl. by rewrite Hl.
  - intros m l evs r Hm Hp. cbn [replace_events storing].
    assert (Hb : before (start r) (cached_events m) ≡ₚ before (start r) l) by (unfold before; by rewrite Hm).
    destruct (append_placed (remove_events_newer_than_block m (start r)) evs) as (m' & -> & Hm').
    + eapply placed_perm; [|exact Hp]. by rewrite remove_newer_before, Hb.
    + by rewrite Hm', remove_newer_before, Hb.
  - intros m l evs Hm Hp. cbn [append_events storing].
    destruct (append_placed m evs) as (m' & -> & Hm'); [by eapply placed_perm; [rewrite Hm|]|]. by rewrite Hm', Hm.
Qed.
End recent_events.

Lemma query_chunk_answered {D} (ev : Z -> list (Event D)) n all chunk i bf es :
  (forall b, b ∈ chunk -> EventHandling.block_events n b.2 = Some (ev b.2)) ->
  (i + length chunk <= length all)%nat ->
  EventHandling.query_chunk n all i chunk (bf, es) =
    Ok (true, (bf ++ take (length chunk) (drop i all), es ++ events_of ev chunk)).
Proof.
  revert i bf es. induction chunk as [|b chunk IH]; intros i bf es Hb Hi; cbn [EventHandling.query_chunk].
  { cbn. by rewrite !app_nil_r. }
  cbn [length] in *. rewrite Hb by left. destruct (lookup_lt_is_Some_2 all i) as [x Hx]; [lia|].
  rewrite Hx. cbn [opt_expect rbind fst snd]. rewrite IH; [|intros; apply Hb; by right|lia].
  by rewrite (drop_S all x i), <- !app_assoc by done.
Qed.

(** What the cow-amm store does with events at a block. *)
Definition amms_at {D Amm} (Amm_new : D -> option Amm) (n : Z) (evs : list (Event D)) : list Amm :=
  omap (fun e => Amm_new (data e)) (filter (fun e => event_block e = n) evs).

Lemma cow_append_spec {D Amm} (Amm_new : D -> option Amm) evs (c c' : gmap Z (list Amm)) n :
  CowAmmCache.append Amm_new c evs = (c', true) ->
  default [] (c' !! n) = default [] (c !! n) ++ amms_at Amm_new n evs.
Proof.
  revert c. induction evs as [|e evs IH]; intros c Ha; cbn [CowAmmCache.append] in Ha.
  { injection Ha as <-. by rewrite app_nil_r. }
  destruct (meta e) as [[b li]|] eqn:Hm; [|done]. destruct (Amm_new (data e)) as [amm|] eqn:Hn; [|done].
  rewrite (IH _ Ha). unfold amms_at. rewrite filter_cons. assert (He : event_block e = b) by (unfold event_block; by rewrite Hm). rewrite He.
  destruct (decide (b = n)) as [->|Hne].
  - rewrite lookup_insert_eq. cbn. rewrite Hn. by rewrite <- app_assoc.
  - by rewrite lookup_insert_ne.
Qed.

(** * Properties *)

(** C15: the store follows the chain: for any store that keeps the promise of
    [EventStoring], when the handler was in step with the old chain and the
    node follows a new one that leaves all but the last 64 handled blocks
    alone, an update that returns [Ok] leaves the store with exactly the events
    of the new chain, each once, and the handled blocks a suffix of it of at
    most 64 blocks (or, when the node fell back to a part of the old chain,
    nothing changed). *)
Theorem events_follow_chain {D St} `{!EventStoring D St, !EventKey D} (holds : St -> list (Event D) -> Prop)
    `{!EventStoringLaws D St holds} (ev : Z -> list (Event D)) n
    (h h' : @EventHandling.EventHandler St) old new :
  good_chain ev old -> good_chain ev new -> linked old new -> node_of ev n new ->
  take (length old - 65) old = take (length old - 65) new ->
  synced holds ev h old -> resumable h old new ->
  EventHandling.update_events n h = (h', Ok tt) ->
  synced holds ev h' new \/ (h' = h /\ new `prefix_of` old).
Proof.
  intros. edestruct (update_events_spec holds ev n h h' old new) as (_ & Hok & _); try done. by apply Hok.
Qed.

(** A failed update does no harm: whatever requests fail, and wherever, the
    handler does not panic and stays in step with the old chain or with a part
    of the new one, or it was interrupted while it stored history, and then
    what it handled and the events it does not fetch again are untouched;
    unless exactly 129 blocks are in question. *)
Theorem interrupted_update_in_step {D St} `{!EventStoring D St, !EventKey D} (holds : St -> list (Event D) -> Prop)
    `{!EventStoringLaws D St holds} (ev : Z -> list (Event D)) n
    (h h' : @EventHandling.EventHandler St) old new r :
  good_chain ev old -> good_chain ev new -> linked old new -> node_of ev n new ->
  take (length old - 65) old = take (length old - 65) new ->
  synced holds ev h old -> resumable h old new ->
  EventHandling.update_events n h = (h', r) ->
  r <> Panic /\
  ((length new - (length old - 65) <> 129)%nat ->
    synced holds ev h' old \/ (exists k, synced holds ev h' (take k new)) \/
    (EventHandling.last_handled_blocks h' = EventHandling.last_handled_blocks h /\
     exists l, holds (EventHandling.store h') l /\
       before (Z.of_nat (length old - 65)) l = events_of ev (take (length old - 65) old))).
Proof.
  intros. edestruct (update_events_spec holds ev n h h' old new) as (Hp & _ & Herr); try done.
Qed.

(** [detect_reorg_path] returns what follows the newest handled block that
    is among the latest blocks, none of the newer handled blocks being there,
    and reports a reorganization when that is not the last handled block;
    without a common block it returns all of them. *)
Theorem detect_reorg_path_after_ancestor (handled latest : list CurrentBlock.BlockNumberHash) :
  let '(path, is_reorg) := EventHandling.detect_reorg_path handled latest in
  (exists h1 b h2 l1, handled = h1 ++ b :: h2 /\ latest = l1 ++ b :: path /\ (b ∉ path) /\
     (forall x, x ∈ h2 -> x ∉ latest) /\ (is_reorg = false <-> last handled = Some b)) \/
  ((forall x, x ∈ handled -> x ∉ latest) /\ path = latest /\ (is_reorg = false <-> handled = [])).
Proof.
  unfold EventHandling.detect_reorg_path.
  assert (Hrev : forall l x, x ∈ rev l <-> x ∈ (l : list CurrentBlock.BlockNumberHash)).
  { intros l x. by rewrite !list_elem_of_In, <- in_rev. }
  destruct (EventHandling.common_ancestor _ _) as [[b path]|] eqn:Hc.
  - left. apply common_ancestor_Some in Hc as (h1 & h2 & l1 & Hh & Hl & Hb & Hn).
    exists (rev h2), b, (rev h1), l1. split_and!; [|done|done| |].
    + rewrite <- (rev_involutive handled), Hh, rev_app_distr. cbn. by rewrite <- app_assoc.
    + intros x Hx. by apply Hn, Hrev.
    + rewrite negb_false_iff, bool_decide_eq_true. by split.
  - right. rewrite negb_false_iff, bool_decide_eq_true. split_and!; [|done|done].
    intros x Hx. by apply (proj1 (common_ancestor_None _ _) Hc), Hrev.
Qed.

(** [split_range] cuts a range into consecutive parts that cover it: the
    recent part ends where the range ends and holds at most 129 blocks, all of
    a range that short, and exactly 128 of a longer one. *)
Theorem split_range_partitions (s e : Z) :
  0 <= s <= e ->
  exists h l, EventHandling.split_range (mkRange s e) = Ok (h, l) /\
    (e - s <= 128 -> h = None /\ l = mkRange s e) /\
    (128 < e - s -> h = Some (mkRange s (e - 128)) /\ l = mkRange (e - 127) e).
Proof.
  intros Hr. unfold EventHandling.split_range, EventHandling.MAX_BLOCKS_QUERIED,
    EventHandling.MAX_REORG_BLOCK_COUNT, saturating_sub, try_new. cbn [start end_].
  change (2 * 64) with 128. destruct (Z.ltb_spec 128 (Z.max (e - s) 0)).
  - rewrite !(proj2 (Z.leb_le _ _)) by lia. cbn. do 2 eexists. split; [done|]. split; [lia|].
    intros _. split; [done|f_equal; lia].
  - do 2 eexists. split; [done|]. split; [done|lia].
Qed.

(** Past the first chunk of 128 requests the answers are attributed to the
    wrong blocks: when every block of a list of 129 to 256 is answered, the
    events are those of all of them, but from the 129th on the blocks reported
    are the first ones of the list again. *)
Theorem answers_mislabelled_past_a_chunk {D} (ev : Z -> list (Event D)) n
    (bs : list CurrentBlock.BlockNumberHash) :
  (128 < length bs <= 256)%nat ->
  (forall b, b ∈ bs -> EventHandling.block_events n b.2 = Some (ev b.2)) ->
  EventHandling.past_events_by_block_hashes n bs =
    Ok (take 128 bs ++ take (length bs - 128) bs, events_of ev bs).
Proof.
  intros Hlen Hb. unfold EventHandling.past_events_by_block_hashes, EventHandling.MAX_PARALLEL_RPC_CALLS.
  assert (Hc : chunks 128 bs = [take 128 bs; drop 128 bs]).
  { unfold chunks. destruct bs as [|b bs]; [simpl in *; lia|]. cbn [length chunks_fuel]. f_equal.
    destruct (length bs) as [|k] eqn:Hk; [simpl in *; lia|]. cbn [chunks_fuel].
    destruct (drop 128 (b :: bs)) as [|x l] eqn:Hd.
    { apply (f_equal length) in Hd. rewrite length_drop in Hd. simpl in *. lia. }
    assert (Hl : (length (drop 128 (b :: bs)) <= 128)%nat) by (rewrite length_drop; simpl in *; lia).
    rewrite <- Hd, (take_ge _ _ Hl), (drop_ge _ _ Hl). by destruct k. }
  rewrite Hc. cbn [EventHandling.query_chunks].
  rewrite (query_chunk_answered ev) by
    (first [intros b Hin; apply Hb; rewrite <- (take_drop 128 bs); apply elem_of_app; by left
           |rewrite length_take; lia]).
  cbn [rbind]. rewrite (query_chunk_answered ev) by
    (first [intros b Hin; apply Hb; rewrite <- (take_drop 128 bs); apply elem_of_app; by right
           |rewrite length_drop; lia]).
  cbn [rbind app]. rewrite drop_0, length_take, length_drop, <- events_of_app, take_drop.
  by rewrite Nat.min_l by lia.
Qed.

(** The cow-amm store replaces within the range only: after a successful
    replacement a block holds the pools of the events at that block after what
    it held before, cleared if the block is in the range; in particular the
    pools of abandoned blocks past the end of the range stay. *)
Theorem cow_amm_replaces_within_range {D Amm} (Amm_new : D -> option Amm) evs range
    (c c' : gmap Z (list Amm)) (n : Z) :
  CowAmmCache.replace Amm_new c evs range = (c', true) ->
  default [] (c' !! n) =
    (if decide (start range <= n <= end_ range) then [] else default [] (c !! n)) ++
    amms_at Amm_new n evs.
Proof.
  intros Hr. apply (cow_append_spec _ _ _ _ n) in Hr. rewrite Hr. f_equal.
  destruct (decide (start range <= n <= end_ range)) as [Hin|Hout].
  - by rewrite map_lookup_filter_None_2 by (right; intros ? _ Hn; by apply Hn).
  - destruct (c !! n) as [l|] eqn:Hc.
    + by rewrite (map_lookup_filter_Some_2 _ _ _ l).
    + by rewrite map_lookup_filter_None_2 by (by left).
Qed.

(** * Witnesses: a reorganization of the last block of a short chain *)
Section witnesses.
Import EventHandling.
Let old : list CurrentBlock.BlockNumberHash := [(0, 10); (1, 11); (2, 12)].
Let new : list CurrentBlock.BlockNumberHash := [(0, 10); (1, 11); (2, 22); (3, 23)].
Let ev (h : Z) : list (Event N) :=
  if h =? 11 then [mkEvent (Some (1, 0%N)) 5%N]
  else if h =? 12 then [mkEvent (Some (2, 0%N)) 6%N; mkEvent (Some (2, 1%N)) 7%N]
  else if h =? 23 then [mkEvent (Some (3, 0%N)) 8%N] else [].
Let range_answer (r : RangeInclusive) : bool := (0 <=? start r) && (end_ r <? 4).
Let n : @node N := {|
  current_block := Some (mkBlockInfo 3 23 22);
  blocks r := if range_answer r then Some (slice new r) else None;
  block_events h := Some (ev h);
  range_events r := if range_answer r then Some (map Some (events_of ev (slice new r))) else None;
|}.
Let lossy : @node N := {|
  current_block := Some (mkBlockInfo 3 23 22);
  blocks r := if range_answer r then Some (slice new r) else None;
  block_events h := if h =? 23 then None else Some (ev h);
  range_events r := None;
|}.
Let in_cache (m : RecentEventsCache.RecentEventsCache N) (l : list (Event N)) : Prop := cached_events m ≡ₚ l.
Let h : @EventHandler (RecentEventsCache.RecentEventsCache N) :=
  mkEventHandler (RecentEventsCache.append ∅ (events_of ev old)).1 [(1, 11); (2, 12)].

Lemma old_good : good_chain ev old.
Proof.
  split.
  - intros [|[|[|i]]] b Hb; simplify_eq/=; done.
  - intros b Hb. repeat (apply elem_of_cons in Hb as [->|Hb]; [repeat (constructor; [eexists; split; [reflexivity|repeat split; closed]|]); constructor|]).
    by apply elem_of_nil in Hb.
  - apply (bool_decide_eq_true_1 _). vm_compute. reflexivity.
  - vm_compute. constructor.
Qed.

Lemma new_good : good_chain ev new.
Proof.
  split.
  - intros [|[|[|[|i]]]] b Hb; simplify_eq/=; done.
  - intros b Hb. repeat (apply elem_of_cons in Hb as [->|Hb]; [repeat (constructor; [eexists; split; [reflexivity|repeat split; closed]|]); constructor|]).
    by apply elem_of_nil in Hb.
  - apply (bool_decide_eq_true_1 _). vm_compute. reflexivity.
  - vm_compute. constructor.
Qed.

Lemma old_new_linked : linked old new.
Proof.
  intros [|[|[|i]]] [|[|[|[|j]]]] bi bj Hi Hj Heq; simplify_eq/=; done.
Qed.

Lemma range_answer_ok r : range_answer r = true -> end_ r < 4.
Proof. unfold range_answer. intros Hr. bool_to_prop. lia. Qed.

Lemma n_node_of : node_of ev n new.
Proof.
  split.
  - intros info [= <-]. by exists [(0, 10); (1, 11)], (2, 22), (3, 23).
  - intros r bs Hr _. cbn in Hr. destruct (range_answer r) eqn:Ha; [|done]. injection Hr as <-.
    split; [by apply range_answer_ok|done].
  - by intros b es [= <-].
  - intros r items Hr. cbn in Hr. destruct (range_answer r); [|done]. injection Hr as <-.
    exists (events_of ev (slice new r)), []. rewrite app_nil_r. by split_and!.
Qed.

Lemma lossy_node_of : node_of ev lossy new.
Proof.
  split.
  - intros info [= <-]. by exists [(0, 10); (1, 11)], (2, 22), (3, 23).
  - intros r bs Hr _. cbn in Hr. destruct (range_answer r) eqn:Ha; [|done]. injection Hr as <-.
    split; [by apply range_answer_ok|done].
  - intros b es Hb. cbn in Hb. destruct (b =? 23); [done|]. by injection Hb as <-.
  - done.
Qed.

Lemma h_synced : synced in_cache ev h old.
Proof.
  split.
  - unfold in_cache. apply (bool_decide_eq_true_1 _). vm_compute. reflexivity.
  - by exists [(0, 10)].
  - cbn. lia.
Qed.

Lemma events_follow_chain_witness :
  exists h', update_events n h = (h', Ok tt) /\
    (synced in_cache ev h' new \/ (h' = h /\ new `prefix_of` old)).
Proof.
  destruct (update_events n h) as [h' r] eqn:Hu.
  assert (Hr : r = Ok tt) by (apply (f_equal snd) in Hu; vm_compute in Hu; by rewrite <- Hu).
  subst r. exists h'. split; [done|].
  apply (events_follow_chain in_cache ev n h h' old new);
    [apply old_good|apply new_good|apply old_new_linked|apply n_node_of|reflexivity|apply h_synced|by left|exact Hu].
Defined.

Lemma interrupted_update_in_step_witness :
  exists h' r, update_events lossy h = (h', r) /\ r = Err tt /\
    (synced in_cache ev h' old \/ (exists k, synced in_cache ev h' (take k new)) \/
     (last_handled_blocks h' = last_handled_blocks h /\
      exists l, cached_events (store h') ≡ₚ l /\ before 0 l = [])).
Proof.
  destruct (update_events lossy h) as [h' r] eqn:Hu. exists h', r. split; [done|].
  split; [apply (f_equal snd) in Hu; vm_compute in Hu; by rewrite <- Hu|].
  apply (interrupted_update_in_step in_cache ev lossy h h' old new r);
    [apply old_good|apply new_good|apply old_new_linked|apply lossy_node_of|reflexivity|apply h_synced|by left|exact Hu|cbn; lia].
Defined.

Lemma split_range_partitions_witness :
  exists h l, split_range (mkRange 0 129) = Ok (h, l) /\
    (129 - 0 <= 128 -> h = None /\ l = mkRange 0 129) /\
    (128 < 129 - 0 -> h = Some (mkRange 0 (129 - 128)) /\ l = mkRange (129 - 127) 129).
Proof. apply (split_range_partitions 0 129). lia. Defined.

Lemma answers_mislabelled_past_a_chunk_witness :
  let bs := map (fun i => (Z.of_nat i, Z.of_nat i)) (seq 0 129) in
  past_events_by_block_hashes n bs = Ok (take 128 bs ++ [(0, 0)], events_of ev bs).
Proof.
  intros bs. apply (answers_mislabelled_past_a_chunk ev n bs); [|done].
  unfold bs. rewrite length_map, length_seq. lia.
Defined.

(** A pool of block 7, which a shorter chain abandoned, stays. *)
Lemma cow_amm_replaces_within_range_witness :
  let r := CowAmmCache.replace (fun d : N => Some d) (<[7 := [1%N]]> ∅)
             [mkEvent (Some (6, 0%N)) 2%N] (mkRange 5 6) in
  r.2 = true /\ default [] (r.1 !! 7) = [1%N].
Proof.
  intros r. split; [reflexivity|].
  etrans; [apply (cow_amm_replaces_within_range (fun d : N => Some d) [mkEvent (Some (6, 0%N)) 2%N]
    (mkRange 5 6) (<[7 := [1%N]]> ∅) r.1 7); reflexivity|]. vm_compute. reflexivity.
Defined.
End witnesses.
