(* ===== verification/DriverOrder.v ===== *)
(** Orders of the driver: crates/driver/src/domain/eth (mod.rs, allowance.rs),
    competition/order (mod.rs, fees.rs, signature.rs) and the prices and tokens
    of competition/auction.rs.

    An address, a hash or an order uid is its unsigned value. The lossy
    conversion [U256::from_f64_lossy] of primitive_types is a parameter. *)
From Stdlib Require Import ZArith Lia QArith Qcanon.
From stdpp Require Import prelude gmap numbers.
From S2P Require Import Prelude U256 Bytes Floats.

Open Scope Z_scope.
Open Scope rust_scope.

Module Eth.
Definition ETH_TOKEN : Z := 0xeeeeeeeeeeeeeeeeeeeeeeeeeeeeeeeeeeeeeeee.
Definition wrap (self weth : Z) : Z := if self =? ETH_TOKEN then weth else self.

Record Asset : Type := mkAsset { amount : Z; token : Z }.
Record Interaction : Type := mkInteraction { target : Z; value : Z; call_data : list byte }.
#[global] Instance Interaction_eq_dec : EqDecision Interaction.
Proof. solve_decision. Defined.

(** [AccessList]: addresses with their storage keys. *)
Definition AccessList : Type := gmap Z (gset Z).
Definition AccessList_merge (self other : gmap Z (gset Z)) : gmap Z (gset Z) :=
  foldl (fun self '(address, storage_keys) =>
    <[address := default ∅ (self !! address) ∪ storage_keys]> self) self (map_to_list other).

(** [TokenAmount::apply_factor], over a parameter for the lossy conversion. *)
Definition BASE : Z := 1000000000000000000.
Definition apply_factor (from_f64_lossy : F64.f64 -> Z) (self : Z) (factor : F64.f64) : option Z :=
  (fun m => m / BASE) <$> checked_mul self (from_f64_lossy (F64.mul factor (F64.of_Z BASE))).

(** allowance.rs *)
Record Allowance : Type := mkAllowance { allowance_token : Z; spender : Z; allowed : Z }.
Definition approval (self existing : Allowance) : option Allowance :=
  if negb (spender self =? spender existing) || (allowed self <=? allowed existing) then None
  else Some self.
Definition approval_max (self : Allowance) : Allowance :=
  mkAllowance (allowance_token self) (spender self) U256_MAX.
Definition approval_revoke (self : Allowance) : Allowance :=
  mkAllowance (allowance_token self) (spender self) 0.
End Eth.
Import Eth.

(** [auction::Price]: wei for 10^18 of the token. *)
Module Price.
Definition new (value : Z) : option Z := if value =? 0 then None else Some value.
Definition in_eth {E} (self amount : Z) : res E Z :=
  let* p := u_mul amount self in u_div p BASE.
Definition from_eth {E} (self amount : Z) : res E Z :=
  let* p := u_mul amount BASE in u_div p self.
End Price.

(** [auction::Tokens] *)
Module Tokens.
Record Token : Type := mkToken {
  address : Z;
  price : option Z;
  available_balance : Z;
  trusted : bool;
}.
Definition Tokens : Type := gmap Z Token.
Definition get (self : gmap Z Token) (address : Z) : Token :=
  default (mkToken address None 0 false) (self !! address).
End Tokens.

Module Order.
Inductive Side : Type := Buy | Sell.
Inductive Kind : Type := Market | Limit | Liquidity.
(** [Yes available] *)
Inductive Partial : Type := Yes (available : Z) | No.
Inductive SellTokenBalance : Type := Erc20 | Internal | External.
Inductive BuyTokenBalance : Type := BuyErc20 | BuyInternal.
Inductive Scheme : Type := Eip712 | EthSign | Eip1271 | PreSign.
Record Signature : Type := mkSignature { scheme : Scheme; sig_data : list byte; signer : Z }.
Record Quote : Type := mkQuote { quote_sell : Asset; quote_buy : Asset; quote_fee : Asset }.
Inductive FeePolicy : Type :=
| Surplus (factor max_volume_factor : F64.f64)
| PriceImprovement (factor max_volume_factor : F64.f64) (quote : Quote)
| Volume (factor : F64.f64).

#[global] Instance Side_eq_dec : EqDecision Side.
Proof. solve_decision. Defined.
#[global] Instance Kind_eq_dec : EqDecision Kind.
Proof. solve_decision. Defined.
#[global] Instance Scheme_eq_dec : EqDecision Scheme.
Proof. solve_decision. Defined.
#[global] Instance SellTokenBalance_eq_dec : EqDecision SellTokenBalance.
Proof. solve_decision. Defined.
#[global] Instance SellTokenBalance_countable : Countable SellTokenBalance.
Proof.
  refine (inj_countable' (fun b => match b with Erc20 => 0 | Internal => 1 | External => 2 end)%nat
    (fun n => match n with 0 => Erc20 | 1 => Internal | _ => External end)%nat _).
  by intros [].
Defined.

Record Order : Type := mkOrder {
  uid : Z;
  order_receiver : option Z;
  valid_to : Z;
  buy : Asset;
  sell : Asset;
  side : Side;
  kind : Kind;
  app_data : Z;
  partial : Partial;
  pre_interactions : list Interaction;
  post_interactions : list Interaction;
  sell_token_balance : SellTokenBalance;
  buy_token_balance : BuyTokenBalance;
  signature : Signature;
  protocol_fees : list FeePolicy;
}.
Record Available : Type := mkAvailable { available_sell : Asset; available_buy : Asset }.

Definition target (self : Order) : Z :=
  match side self with Buy => amount (buy self) | Sell => amount (sell self) end.
Definition trader (self : Order) : Z := signer (signature self).
Definition is_partial (self : Order) : bool :=
  match partial self with Yes _ => true | No => false end.
Definition buys_eth (self : Order) : bool := token (buy self) =? ETH_TOKEN.
Definition receiver (self : Order) : Z := default (signer (signature self)) (order_receiver self).
Definition is_liquidity (self : Order) : bool :=
  match kind self with Liquidity => true | _ => false end.

Definition available (self : Order) : Available :=
  match partial self with
  | No => mkAvailable (sell self) (buy self)
  | Yes available =>
      let target := target self in
      mkAvailable
        (mkAsset (default 0 (mul_ratio (amount (sell self)) available target)) (token (sell self)))
        (mkAsset (default 0 (mul_ratio_ceil (amount (buy self)) available target)) (token (buy self)))
  end.
Definition Available_is_zero (self : Available) : bool :=
  (amount (available_sell self) =? 0) || (amount (available_buy self) =? 0).

Definition solver_determines_fee (self : Order) : bool :=
  match kind self with Limit => true | _ => false end.

Definition likelihood (self : Order) (tokens : gmap Z Tokens.Token) : res unit Qc :=
  match Tokens.price (Tokens.get tokens (token (buy self))),
        Tokens.price (Tokens.get tokens (token (sell self))) with
  | Some buy_price, Some sell_price =>
      let* b := Price.in_eth buy_price (amount (buy self)) in
      let* s := Price.in_eth sell_price (amount (sell self)) in
      Ok (if b =? 0 then 0%Qc else (u256_to_big_rational s / u256_to_big_rational b)%Qc)
  | _, _ => Ok 0%Qc
  end.

(** Replace the available amount of a partial order. *)
Definition set_available (self : Order) (available : Z) : Order :=
  mkOrder (uid self) (order_receiver self) (valid_to self) (buy self) (sell self) (side self)
    (kind self) (app_data self) (Yes available) (pre_interactions self) (post_interactions self)
    (sell_token_balance self) (buy_token_balance self) (signature self) (protocol_fees self).

(** A just-in-time order; always fill-or-kill. *)
Record Jit : Type := mkJit {
  jit_sell : Asset;
  jit_buy : Asset;
  jit_receiver : Z;
  jit_valid_to : Z;
  jit_app_data : Z;
  jit_side : Side;
  jit_sell_token_balance : SellTokenBalance;
  jit_buy_token_balance : BuyTokenBalance;
  jit_signature : Signature;
  jit_uid : Z;
}.
Definition jit_target (self : Jit) : Z :=
  match jit_side self with Buy => amount (jit_buy self) | Sell => amount (jit_sell self) end.
Definition partially_fillable (self : Jit) : Partial := No.
End Order.

(** * What the amounts mean *)
Section available.
Import Order.

(** An order with 256-bit amounts. *)
Definition order_u256 (o : Order) : Prop :=
  u256 (amount (sell o)) /\ u256 (amount (buy o)) /\
  match partial o with Yes available => u256 available | No => True end.

Lemma default_mul_ratio x q d :
  0 <= x -> 0 <= q -> 0 <= d ->
  default 0 (mul_ratio x q d) = x * q / d \/ default 0 (mul_ratio x q d) = 0.
Proof.
  intros Hx Hq Hd. destruct (mul_ratio x q d) as [c|] eqn:Hm; [|by right].
  apply mul_ratio_Some in Hm as (-> & _). by left.
Qed.

Lemma default_mul_ratio_nonneg x q d :
  0 <= x -> 0 <= q -> 0 <= d -> 0 <= default 0 (mul_ratio x q d).
Proof.
  intros Hx Hq Hd. destruct (default_mul_ratio x q d Hx Hq Hd) as [->| ->]; [|done].
  destruct (Z.eq_dec d 0) as [->|]; [by rewrite Z.div_0_r|].
  apply Z.div_pos; nia.
Qed.

(** What is available to sell, shrunk for an allocated balance, fits it. *)
Lemma shrunk_within s a b m alloc a' :
  0 <= s -> 0 <= a -> 0 < b -> 0 <= alloc <= m -> 0 < m ->
  m = s * a / b -> a' = a * alloc / m -> s * a' / b <= alloc.
Proof.
  intros Hs Ha Hb Hal Hm Hmd Ha'.
  pose proof (fdiv_spec (s * a) b Hb) as H1. rewrite <- Hmd in H1.
  pose proof (fdiv_spec (a * alloc) m Hm) as H2. rewrite <- Ha' in H2.
  apply Z.lt_succ_r, Z.div_lt_upper_bound; [done|].
  assert (H3 : s * (a' * m) <= s * (a * alloc)) by nia.
  assert (H4 : s * a * alloc < (m * b + b) * alloc \/ alloc = 0) by nia.
  destruct H4 as [H4| ->]; [|rewrite Z.mul_0_r in *; nia].
  assert (H5 : (m * b + b) * alloc <= b * Z.succ alloc * m) by nia.
  assert (H6 : (s * a') * m < (b * Z.succ alloc) * m) by nia. nia.
Qed.
End available.

(** * Properties *)
Section properties.
Import Order.

(** Scaling an order to what is available keeps its limit price: for a
    partially fillable order with something to fill, the amounts shown to
    solvers are within the signed ones, the amount of the side the order fixes
    is exactly what is available, and the price asked, bought over sold, is not
    lower than the signed one; a fill-or-kill order is shown as signed. *)
Theorem available_keeps_limit_price (o : Order) :
  order_u256 o -> 0 < target o ->
  match partial o with Yes available => available <= target o | No => True end ->
  let s := amount (available_sell (available o)) in
  let b := amount (available_buy (available o)) in
  0 <= s <= amount (sell o) /\ 0 <= b <= amount (buy o) /\
  amount (buy o) * s <= b * amount (sell o) /\
  (match side o with Sell => s | Buy => b end =
   match partial o with Yes available => available | No => target o end).
Proof.
  intros (Hs & Hb & Hp) Ht Hav. unfold available. destruct (partial o) as [a|] eqn:Hpart; cbn.
  - assert (Hsell : mul_ratio (amount (sell o)) a (target o) = Some (amount (sell o) * a / target o)).
    { apply mul_ratio_Some. split_and!; [done|lia|]. unfold u256 in *.
      etrans; [apply (Z.div_le_upper_bound _ _ (amount (sell o))); nia|lia]. }
    assert (Hle : cdiv (amount (buy o) * a) (target o) <= amount (buy o)).
    { apply Z.lt_succ_r. pose proof (cdiv_spec (amount (buy o) * a) (target o) Ht). unfold u256 in *. nia. }
    assert (Hbuy : mul_ratio_ceil (amount (buy o)) a (target o) = Some (cdiv (amount (buy o) * a) (target o))).
    { unfold u256 in *. apply mul_ratio_ceil_Some; [lia..|]. split_and!; [done|lia|lia]. }
    rewrite Hsell, Hbuy. cbn [default from_option id]. unfold u256 in *.
    pose proof (fdiv_spec (amount (sell o) * a) _ Ht) as Hf.
    pose proof (cdiv_spec (amount (buy o) * a) _ Ht) as Hc.
    pose proof (cdiv_nonneg (amount (buy o) * a) _ Ht ltac:(nia)) as Hcn.
    assert (Hfn : 0 <= amount (sell o) * a / target o) by (apply Z.div_pos; nia).
    assert (Hsle : amount (sell o) * a / target o <= amount (sell o)) by (apply Z.lt_succ_r; nia).
    split_and!; try lia.
    + apply (Z.mul_le_mono_pos_r _ _ (target o)); [done|].
      set (f := amount (sell o) * a / target o) in *. set (c := cdiv _ _) in *.
      transitivity (amount (buy o) * (amount (sell o) * a)).
      * pose proof (Z.mul_le_mono_nonneg_l (f * target o) (amount (sell o) * a) (amount (buy o))). lia.
      * pose proof (Z.mul_le_mono_nonneg_l (amount (buy o) * a) (c * target o) (amount (sell o))). lia.
    + unfold target in *. destruct (side o).
      * symmetry. apply cdiv_unique; lia.
      * rewrite Z.mul_comm, Z.div_mul; lia.
  - unfold u256, target in *. destruct (side o); split_and!; lia.
Qed.

(** The orders of the test [order_scaling]. *)
Definition test_order (sell_amount buy_amount : Z) (s : Side) (avail : Z) : Order :=
  mkOrder 0 None 0 (mkAsset buy_amount 2) (mkAsset sell_amount 1) s Limit 0 (Yes avail) [] []
    Erc20 BuyErc20 (mkSignature PreSign [] 0) [].
Definition test_available (sell_amount buy_amount : Z) (s : Side) (avail : Z) : Z * Z :=
  let a := available (test_order sell_amount buy_amount s avail) in
  (amount (available_sell a), amount (available_buy a)).
Example order_scaling :
  map (fun '(s, b, d, a) => test_available s b d a)
    [(1000, 1000, Sell, 750); (1000, 1000, Buy, 750); (1000, 100, Sell, 901); (100, 1000, Buy, 901);
     (1000, 1, Sell, 500); (1, 1000, Buy, 500); (0, 0, Sell, 0)]
  = [(750, 750); (750, 750); (901, 91); (90, 901); (500, 1); (0, 500); (0, 0)].
Proof. vm_compute. reflexivity. Qed.

Lemma available_keeps_limit_price_witness :
  0 <= 90 <= 100 /\ 0 <= 901 <= 1000 /\ 1000 * 90 <= 901 * 100 /\ 901 = 901.
Proof.
  apply (available_keeps_limit_price (test_order 100 1000 Buy 901)); [|reflexivity|closed].
  unfold order_u256, u256. cbn. repeat split; closed.
Defined.
End properties.
