(* ===== verification/Auction.v ===== *)
(** Auctions of the driver: crates/driver/src/domain/competition/auction.rs.

    Module [Auction] has the auction with its constructor, prices and liquidity
    pairs; module [AuctionProcessor] the preprocessing of its orders: the
    balances fetched per group of orders, the priority sort, and the filter that
    hands out the balance of each trader. The node's answers (gas price,
    tradable balances) are parameters; generating orders for cow-amms goes
    through contracts and is not modelled. *)
From Stdlib Require Import ZArith Lia QArith Qcanon.
From stdpp Require Import prelude gmap numbers sorting.
From S2P Require Import Prelude U256 DriverOrder.

Open Scope Z_scope.
Open Scope rust_scope.
Import Eth Order.

(** [liquidity::TokenPair] *)
Definition TokenPair_new (a b : Z) : option (Z * Z) :=
  match a ?= b with Lt => Some (a, b) | Eq => None | Gt => Some (b, a) end.

Module Auction.
Inductive Error : Type := InvalidTokens | InvalidAmounts | Blockchain.
Record Auction : Type := mkAuction {
  id : option Z;
  orders : list Order;
  tokens : gmap Z Tokens.Token;
  gas_price : Z;
  surplus_capturing_jit_order_owners : gset Z;
}.

Definition new (id : option Z) (orders : list Order) (tokens : list Tokens.Token)
    (weth : Z) (gas_price : option Z) (owners : gset Z) : res Error Auction :=
  let tokens : gmap Z Tokens.Token :=
    foldl (fun m t => <[Tokens.address t := t]> m) ∅ tokens in
  if negb (forallb (fun o => bool_decide (is_Some (tokens !! wrap (token (buy o)) weth)) &&
                             bool_decide (is_Some (tokens !! token (sell o)))) orders)
  then Err InvalidTokens
  else if existsb (fun o => Available_is_zero (available o)) orders then Err InvalidAmounts
  else let* gas_price := ok_or gas_price Blockchain in
    Ok (mkAuction id orders tokens gas_price owners).

Definition liquidity_pairs (self : Auction) : gset (Z * Z) :=
  list_to_set (omap (fun o => match kind o with
                              | Market | Limit => TokenPair_new (token (sell o)) (token (buy o))
                              | Liquidity => None
                              end) (orders self)).

(** The prices of the tokens that have one, and that of ETH, which comes last
    and so takes precedence. *)
Definition prices (self : Auction) : gmap Z Z :=
  <[ETH_TOKEN := BASE]> (omap Tokens.price (tokens self)).
End Auction.

Module AuctionProcessor.
Definition BalanceGroup : Type := (Z * Z * SellTokenBalance)%type.
Definition group (o : Order) : BalanceGroup := (trader o, token (sell o), sell_token_balance o).

(** [Itertools::group_by]: runs of consecutive orders of a group. *)
Fixpoint group_by (orders : list Order) : list (BalanceGroup * list Order) :=
  match orders with
  | [] => []
  | o :: orders =>
      match group_by orders with
      | (g, run) :: rest =>
          if decide (group o = g) then (g, o :: run) :: rest
          else (group o, [o]) :: (g, run) :: rest
      | [] => [(group o, [o])]
      end
  end.
(** The interactions a balance is simulated with. *)
Definition run_interactions (run : list Order) : list Interaction :=
  match run with
  | [] => []
  | first :: others =>
      if forallb (fun o => bool_decide (pre_interactions o = pre_interactions first)) others
      then pre_interactions first else []
  end.
Definition fetch_balances (tradable_balance : BalanceGroup -> list Interaction -> option Z)
    (orders : list Order) : gmap BalanceGroup Z :=
  foldl (fun m '(g, run) =>
    match tradable_balance g (run_interactions run) with
    | Some balance => <[g := balance]> m
    | None => m
    end) ∅ (group_by orders).

(** The key of the sort, larger first. *)
Definition class (o : Order) : Z :=
  match kind o with Market => 2 | Limit => 1 | Liquidity => 0 end.
Definition key_le (x y : Z * Qc) : Prop := x.1 < y.1 \/ (x.1 = y.1 /\ (x.2 <= y.2)%Qc).
#[global] Instance key_le_dec : RelDecision key_le.
Proof. intros [a b] [c d]. unfold key_le. apply _. Defined.

(** [slice::sort_by_cached_key] with [Reverse]: the stable sort, largest key
    first, over keys computed once. *)
Fixpoint insert_desc {A} (x : (Z * Qc) * A) (l : list ((Z * Qc) * A)) : list ((Z * Qc) * A) :=
  match l with
  | [] => [x]
  | y :: l => if decide (key_le y.1 x.1) then x :: y :: l else y :: insert_desc x l
  end.
Definition sort_desc {A} (l : list ((Z * Qc) * A)) : list ((Z * Qc) * A) := foldr insert_desc [] l.
Definition with_key (tokens : gmap Z Tokens.Token) (o : Order) : res unit ((Z * Qc) * Order) :=
  let* l := likelihood o tokens in Ok ((class o, l), o).
Definition sort (orders : list Order) (tokens : gmap Z Tokens.Token) : res unit (list Order) :=
  let* keyed := rmap (with_key tokens) orders in Ok (map snd (sort_desc keyed)).

(** The closure of [retain_mut]: whether and how the order is kept. *)
Definition filter_order (balances : gmap BalanceGroup Z) (o : Order)
  : res unit (gmap BalanceGroup Z * option Order) :=
  match balances !! group o with
  | None => Ok (balances, None)
  | Some remaining_balance =>
      let max_sell := amount (available_sell (available o)) in
      let allocated_balance :=
        match partial o with
        | Yes _ => Z.min max_sell remaining_balance
        | No => if max_sell <=? remaining_balance then max_sell else 0
        end in
      if allocated_balance =? 0 then Ok (balances, None)
      else
        let o := match partial o with
                 | Yes available =>
                     set_available o (default 0 (mul_ratio available allocated_balance max_sell))
                 | No => o
                 end in
        if Available_is_zero (available o) then Ok (balances, None)
        else
          let* remaining := u_sub remaining_balance allocated_balance in
          Ok (<[group o := remaining]> balances, Some o)
  end.
Fixpoint filter_orders (balances : gmap BalanceGroup Z) (orders : list Order)
  : res unit (gmap BalanceGroup Z * list Order) :=
  match orders with
  | [] => Ok (balances, [])
  | o :: orders =>
      let* ' (balances, kept) := filter_order balances o in
      let* ' (balances, rest) := filter_orders balances orders in
      Ok (balances, option_list kept ++ rest)
  end.

(** The task of [prioritize_orders] after the cow-amm orders were added. *)
Definition prioritize_orders (tradable_balance : BalanceGroup -> list Interaction -> option Z)
    (orders : list Order) (tokens : gmap Z Tokens.Token) : res unit (list Order) :=
  let* orders := sort orders tokens in
  let balances := fetch_balances tradable_balance orders in
  let* ' (_, orders) := filter_orders balances orders in
  Ok orders.
End AuctionProcessor.

(** * Handing out the balances *)
Section filter_lemmas.
Import AuctionProcessor.

(** [o'] is [o], or [o] with less available. *)
Definition shrunk (o o' : Order) : Prop :=
  o' = o \/ exists a a', partial o = Yes a /\ 0 <= a' <= a /\ o' = set_available o a'.

(** What the orders of a group can sell. *)
Definition handed_out (g : BalanceGroup) (os : list Order) : Z :=
  foldr (fun o acc => (if decide (group o = g) then amount (available_sell (available o)) else 0) + acc) 0 os.

Lemma filter_order_spec balances o :
  order_u256 o -> (forall g b, balances !! g = Some b -> 0 <= b) ->
  exists balances' kept, filter_order balances o = Ok (balances', kept) /\
    match kept with
    | None => balances' = balances
    | Some o' => exists rem alloc, balances !! group o = Some rem /\ 0 <= alloc <= rem /\
        balances' = <[group o := rem - alloc]> balances /\ group o' = group o /\ shrunk o o' /\
        0 < amount (available_sell (available o')) <= alloc
    end.
Proof.
  intros (Hs & Hb & Hp) Hbal. unfold filter_order.
  destruct (balances !! group o) as [rem|] eqn:Hr; [|by exists balances, None].
  pose proof (Hbal _ _ Hr) as Hr0.
  set (alloc := match partial o with Yes _ => _ | No => _ end).
  destruct (Z.eqb_spec alloc 0) as [|Ha]; [by exists balances, None|].
  set (o' := match partial o with Yes _ => _ | No => _ end).
  destruct (Available_is_zero (available o')) eqn:Hz; [by exists balances, None|].
  assert (Hspec : 0 <= alloc <= rem /\ group o' = group o /\ shrunk o o' /\
    0 < amount (available_sell (available o')) <= alloc).
  { unfold Available_is_zero in Hz. bool_to_prop. unfold u256 in *.
    subst alloc o'. unfold available in *. destruct (partial o) as [a|] eqn:Hpart; cbn in *; rewrite ?Hpart in *; cbn in *.
    - assert (Ht : 0 <= target o) by (unfold target; destruct (side o); lia).
      set (m := default 0 (mul_ratio (amount (sell o)) a (target o))) in *.
      assert (Hm0 : 0 <= m) by (apply default_mul_ratio_nonneg; lia).
      destruct (default_mul_ratio (amount (sell o)) a (target o)) as [Hm|Hm]; [lia..| |fold m in Hm; lia].
      fold m in Hm. assert (Ht0 : target o <> 0) by (intros Ht0; rewrite Ht0, Z.div_0_r in Hm; lia).
      set (a' := default 0 (mul_ratio a (Z.min m rem) m)) in *. change (target (set_available o a')) with (target o) in *.
      assert (Ha'0 : 0 <= a') by (apply default_mul_ratio_nonneg; lia).
      destruct (default_mul_ratio a (Z.min m rem) m) as [Ha'|Ha']; [lia..| |].
      + fold a' in Ha'. assert (Hle : a' <= a) by (rewrite Ha'; apply Z.div_le_upper_bound; nia).
        destruct (default_mul_ratio (amount (sell o)) a' (target o)) as [Hn|Hn]; [lia..| |lia].
        split_and!; [lia|lia|done|right; by exists a, a'| |].
        * pose proof (default_mul_ratio_nonneg (amount (sell o)) a' (target o)). lia.
        * rewrite Hn. eapply (shrunk_within (amount (sell o)) a (target o) m _ a'); try lia; done.
      + exfalso. fold a' in Ha'. rewrite Ha' in *. unfold mul_ratio, checked_div in H.
        rewrite Z.mul_0_r in H. destruct (Z.eqb_spec (target o) 0); [done|]. rewrite Z.div_0_l in H by done. done.
    - destruct (Z.leb_spec (amount (sell o)) rem); split_and!; try lia; [done|by left]. }
  destruct Hspec as (Hal & Hg & Hsh & Hav).
  unfold u_sub, checked_sub. rewrite (proj2 (Z.leb_le _ _)) by lia. cbn [opt_expect rbind].
  eexists _, (Some o'). split; [done|]. exists rem, alloc. rewrite Hg.
  repeat (split; [done|]). done.
Qed.

Lemma filter_orders_spec orders : forall balances,
  Forall order_u256 orders -> (forall g b, balances !! g = Some b -> 0 <= b) ->
  exists balances' kept, filter_orders balances orders = Ok (balances', kept) /\
    (exists chosen, chosen `sublist_of` orders /\ Forall2 shrunk chosen kept) /\
    Forall (fun o => 0 < amount (available_sell (available o)) /\ is_Some (balances !! group o)) kept /\
    forall g b, balances !! g = Some b ->
      exists b', balances' !! g = Some b' /\ 0 <= b' /\ handed_out g kept + b' <= b.
Proof.
  induction orders as [|o orders IH]; intros balances Hu Hbal; cbn [filter_orders].
  { exists balances, []. split_and!; [done|by exists []|done|].
    intros g b Hb. exists b. split_and!; [done|by eapply Hbal|]. cbn. lia. }
  apply Forall_cons in Hu as [Ho Hu].
  destruct (filter_order_spec balances o Ho Hbal) as (bal1 & kept & -> & Hk). cbn [rbind].
  destruct kept as [o'|].
  - destruct Hk as (rem & alloc & Hrem & Hal & -> & Hg & Hsh & Hav).
    destruct (IH (<[group o := rem - alloc]> balances) Hu) as (bal2 & rest & -> & (chosen & Hch & Hf) & Hall & Hsum).
    { intros g b. destruct (decide (g = group o)) as [->|Hne].
      - rewrite lookup_insert_eq. intros [= <-]. lia.
      - rewrite lookup_insert_ne by done. apply Hbal. }
    cbn [rbind option_list app]. exists bal2, (o' :: rest). split_and!; [done| | |].
    + exists (o :: chosen). split; [by apply sublist_skip|by constructor].
    + constructor; [rewrite Hg; split; [lia|by eexists]|].
      eapply Forall_impl; [exact Hall|]. cbn. intros x [Hx [y Hy]]. split; [done|].
      destruct (decide (group x = group o)) as [->|Hne]; [by eexists|].
      rewrite lookup_insert_ne in Hy by done. by eexists.
    + intros g b Hb. cbn [handed_out foldr]. rewrite Hg. destruct (decide (group o = g)) as [<-|Hne].
      * rewrite Hb in Hrem. injection Hrem as ->.
        destruct (Hsum (group o) (rem - alloc)) as (b' & Hb' & H0 & Hle); [by rewrite lookup_insert_eq|].
        exists b'. split_and!; [done..|]. unfold handed_out in *. lia.
      * destruct (Hsum g b) as (b' & Hb' & H0 & Hle); [by rewrite lookup_insert_ne|].
        exists b'. split_and!; [done..|]. unfold handed_out in *. lia.
  - subst bal1. destruct (IH balances Hu Hbal) as (bal2 & rest & -> & (chosen & Hch & Hf) & Hall & Hsum).
    cbn [rbind option_list app]. exists bal2, rest. split_and!; try done.
    exists chosen. split; [by apply sublist_cons|done].
Qed.
End filter_lemmas.

(** * The priority sort *)
Section sort_lemmas.
Import AuctionProcessor.

Lemma key_le_total x y : key_le x y \/ key_le y x.
Proof.
  destruct x as [a b], y as [c d]. unfold key_le. cbn.
  destruct (Z.lt_trichotomy a c) as [?|[?|?]]; [by left; left| |by right; left].
  destruct (Qclt_le_dec b d) as [Hlt|Hle]; [left|right]; right; split; [done|by apply Qclt_le_weak|done|done].
Qed.
Lemma key_le_refl x : key_le x x.
Proof. right. split; [done|apply Qcle_refl]. Qed.
Lemma key_le_trans x y z : key_le x y -> key_le y z -> key_le x z.
Proof.
  destruct x as [a b], y as [c d], z as [e f]. unfold key_le. cbn.
  intros [?|[-> H1]] [?|[-> H2]]; [left; lia|left; lia|by left|right; split; [done|by eapply Qcle_trans]].
Qed.

Context {A : Type}.
Implicit Types (x y : (Z * Qc) * A) (l : list ((Z * Qc) * A)).
Local Abbreviation ge := (fun x y => key_le y.1 x.1) (only parsing).

Lemma insert_desc_perm x l : insert_desc x l ≡ₚ x :: l.
Proof.
  induction l as [|y l IH]; cbn; [done|]. case_decide; [done|]. rewrite IH. constructor.
Qed.

Lemma sort_desc_perm l : sort_desc l ≡ₚ l.
Proof. induction l as [|x l IH]; cbn; [done|]. by rewrite insert_desc_perm, IH. Qed.

Lemma insert_desc_sorted x l : StronglySorted ge l -> StronglySorted ge (insert_desc x l).
Proof.
  induction 1 as [|y l Hs IH Hy]; cbn; [by repeat constructor|]. case_decide as Hle.
  - constructor; [by constructor|]. constructor; [done|].
    eapply Forall_impl; [exact Hy|]. cbn. intros z Hz. by eapply key_le_trans.
  - constructor; [done|]. rewrite insert_desc_perm. constructor; [|done].
    cbn. by destruct (key_le_total x.1 y.1).
Qed.

Lemma sort_desc_sorted l : StronglySorted ge (sort_desc l).
Proof. induction l as [|x l IH]; cbn; [constructor|by apply insert_desc_sorted]. Qed.

(** Elements with the same key keep their order. *)
Lemma insert_desc_stable k x l :
  filter (fun y => y.1 = k) (insert_desc x l) = filter (fun y => y.1 = k) (x :: l).
Proof.
  induction l as [|y l IH]; cbn [insert_desc]; [done|]. case_decide as Hle; [done|].
  rewrite filter_cons, IH, !filter_cons. repeat case_decide; try done.
  exfalso. apply Hle. subst k. rewrite <- H0. apply key_le_refl.
Qed.

Lemma sort_desc_stable k l :
  filter (fun y => y.1 = k) (sort_desc l) = filter (fun y => y.1 = k) l.
Proof.
  induction l as [|x l IH]; cbn [sort_desc foldr]; [done|]. rewrite insert_desc_stable, !filter_cons.
  fold (sort_desc l). by rewrite IH.
Qed.
End sort_lemmas.

Section priorities.
Import AuctionProcessor.
Context (tokens : gmap Z Tokens.Token).

(** The reference prices do not overflow on the amounts of the order. *)
Definition priceable (o : Order) : Prop :=
  forall b s, Tokens.price (Tokens.get tokens (token (buy o))) = Some b ->
    Tokens.price (Tokens.get tokens (token (sell o))) = Some s ->
    amount (buy o) * b <= U256_MAX /\ amount (sell o) * s <= U256_MAX.
#[global] Instance priceable_dec o : Decision (priceable o).
Proof.
  unfold priceable. destruct (Tokens.price (Tokens.get tokens (token (buy o)))) as [b|],
    (Tokens.price (Tokens.get tokens (token (sell o)))) as [s|]; [|left; naive_solver..].
  destruct (decide (amount (buy o) * b <= U256_MAX /\ amount (sell o) * s <= U256_MAX));
    [left|right]; naive_solver.
Defined.

(** The key an order is sorted by. *)
Definition key (o : Order) : Z * Qc :=
  (class o, match likelihood o tokens with Ok l => l | _ => 0%Qc end).

Lemma with_key_spec o :
  with_key tokens o = if decide (priceable o) then Ok (key o, o) else Panic.
Proof.
  unfold with_key, key, likelihood.
  destruct (decide (priceable o)) as [Hd|Hd]; unfold priceable in Hd;
    destruct (Tokens.price (Tokens.get tokens (token (buy o)))) as [b|],
      (Tokens.price (Tokens.get tokens (token (sell o)))) as [s|]; try done;
    try (exfalso; apply Hd; naive_solver);
    unfold Price.in_eth, u_mul, u_div, checked_mul, checked_div; change (BASE =? 0) with false; cbv iota.
  - destruct (Hd b s eq_refl eq_refl) as [Hb Hs].
    by rewrite !(proj2 (Z.leb_le _ _)).
  - destruct (Z.leb_spec (amount (buy o) * b) U256_MAX), (Z.leb_spec (amount (sell o) * s) U256_MAX); try done.
    exfalso. apply Hd. by intros ? ? [= <-] [= <-].
Qed.

Lemma with_keys_spec orders :
  rmap (with_key tokens) orders =
    if decide (Forall priceable orders) then Ok (map (fun o => (key o, o)) orders) else Panic.
Proof.
  induction orders as [|o orders IH]; cbn [rmap].
  { by rewrite decide_True by constructor. }
  rewrite with_key_spec, IH. destruct (decide (priceable o)) as [Ho|Ho]; cbn [rbind].
  - destruct (decide (Forall priceable orders)) as [Hf|Hf]; cbn [rbind].
    + by rewrite decide_True by (by constructor).
    + rewrite decide_False; [done|]. intros [? ?]%Forall_cons. done.
  - rewrite decide_False; [done|]. intros [? ?]%Forall_cons. done.
Qed.
End priorities.

(** * Properties *)
Section properties.
Import AuctionProcessor.

(** Handing out balances never overdraws: for orders and balances of 256
    bits the filter does not panic, the orders it keeps are some of the given
    ones in their order, unchanged or with less available, each can sell
    something, and what all kept orders of one trader, token and source can
    sell together fits the balance that was fetched for them. *)
Theorem filter_orders_within_balance (balances : gmap BalanceGroup Z) (orders : list Order) :
  Forall order_u256 orders -> (forall g b, balances !! g = Some b -> 0 <= b) ->
  exists balances' kept, filter_orders balances orders = Ok (balances', kept) /\
    (exists chosen, chosen `sublist_of` orders /\ Forall2 shrunk chosen kept) /\
    Forall (fun o => 0 < amount (available_sell (available o)) /\ is_Some (balances !! group o)) kept /\
    forall g b, balances !! g = Some b -> 0 <= handed_out g kept <= b.
Proof.
  intros Hu Hb. destruct (filter_orders_spec orders balances Hu Hb) as (bal & kept & Hr & Hc & Hall & Hsum).
  exists bal, kept. split_and!; [done..|]. intros g b Hg.
  destruct (Hsum g b Hg) as (b' & _ & H0 & Hle). split; [|lia].
  clear - Hall. induction Hall as [|o kept [Ho _] _ IH]; cbn; [done|]. unfold handed_out in IH.
  case_decide; lia.
Qed.

(** The priority sort: unless the value in ETH of some order's amounts
    exceeds 256 bits, when it panics, sorting returns the same orders by
    class (market, limit, liquidity), within a class by likelihood, and keeps
    the order of equal ones. *)
Theorem sort_by_priority (tokens : gmap Z Tokens.Token) (orders : list Order) :
  if decide (Forall (priceable tokens) orders) then
    exists sorted, sort orders tokens = Ok sorted /\ sorted ≡ₚ orders /\
      StronglySorted (fun a b => key_le (key tokens b) (key tokens a)) sorted /\
      forall k, filter (fun o => key tokens o = k) sorted = filter (fun o => key tokens o = k) orders
  else sort orders tokens = Panic.
Proof.
  unfold sort. rewrite with_keys_spec. case_decide as Hp; [|done]. cbn [rbind].
  set (keyed := map (fun o => (key tokens o, o)) orders).
  assert (Hk : Forall (fun x => x.1 = key tokens x.2) (sort_desc keyed)).
  { rewrite sort_desc_perm. apply Forall_map, Forall_true. done. }
  eexists. split; [done|]. split_and!.
  - rewrite (sort_desc_perm keyed). subst keyed. rewrite map_map. cbn. by rewrite map_id.
  - pose proof (sort_desc_sorted keyed) as Hs. induction Hs as [|x l Hs IH Hx]; cbn; [constructor|].
    apply Forall_cons in Hk as [Hkx Hk]. constructor; [by apply IH|]. apply Forall_map.
    eapply Forall_impl; [apply Forall_and; split; [exact Hx|exact Hk]|]. cbn. intros y [Hy1 Hy2].
    by rewrite <- Hkx, <- Hy2.
  - intros k. assert (Hf : forall l : list ((Z * Qc) * Order), Forall (fun x => x.1 = key tokens x.2) l ->
      filter (fun o => key tokens o = k) (map snd l) = map snd (filter (fun x => x.1 = k) l)).
    { induction 1 as [|x l Hx _ IH]; [done|]. cbn [map]. rewrite !filter_cons, Hx, IH. by case_decide. }
    rewrite Hf, sort_desc_stable, <- Hf; [|apply Forall_map, Forall_true; done|done].
    subst keyed. rewrite map_map. cbn. by rewrite map_id.
Qed.
End properties.

Section witnesses.
Import AuctionProcessor.
Let order (sell_amount avail : Z) (interactions : list Interaction) (owner : Z) : Order :=
  mkOrder 0 None 0 (mkAsset 50 2) (mkAsset sell_amount 1) Sell Limit 0 (Yes avail) interactions []
    Erc20 BuyErc20 (mkSignature PreSign [] owner) [].

Lemma filter_orders_within_balance_witness :
  exists balances' kept,
    filter_orders {[ (7, 1, Erc20) := 120 ]} [order 100 100 [] 7; order 100 80 [] 7; order 10 10 [] 8]
      = Ok (balances', kept) /\ 0 <= handed_out (7, 1, Erc20) kept <= 120.
Proof.
  destruct (filter_orders_within_balance {[ (7, 1, Erc20) := 120 ]}
    [order 100 100 [] 7; order 100 80 [] 7; order 10 10 [] 8]) as (bal & kept & Hr & _ & _ & Hg).
  - repeat constructor; closed.
  - intros g b Hl. apply lookup_singleton_Some in Hl as [_ <-]. lia.
  - exists bal, kept. split; [exact Hr|]. apply Hg. reflexivity.
Defined.

(** The second order of the trader gets what the first one left. *)
Example filter_orders_scales :
  res_map (fun r => map (fun o => amount (available_sell (available o))) r.2)
    (filter_orders {[ (7, 1, Erc20) := 120 ]} [order 100 100 [] 7; order 100 80 [] 7; order 10 10 [] 8])
  = Ok [100; 20].
Proof. vm_compute. reflexivity. Qed.

(** Two orders of a trader with different pre-interactions are fetched
    pessimistically, without interactions, only when no other order was sorted
    between them; otherwise the interactions of the later order are used. *)
Let i1 := mkInteraction 1 0 [].
Let i2 := mkInteraction 2 0 [].
Let balance (g : BalanceGroup) (l : list Interaction) : option Z := Some (foldr Z.add 0 (map Eth.target l)).
Example fetch_balances_adjacent :
  fetch_balances balance [order 100 100 [i1] 7; order 100 100 [i2] 7] !! (7, 1, Erc20) = Some 0.
Proof. vm_compute. reflexivity. Qed.
Example fetch_balances_separated :
  fetch_balances balance [order 100 100 [i1] 7; order 100 100 [] 8; order 100 100 [i2] 7] !! (7, 1, Erc20)
  = Some 2.
Proof. vm_compute. reflexivity. Qed.
End witnesses.
