(* ===== verification/Trade.v ===== *)
(** Trades of a solution and the protocol fees the driver takes from them:
    crates/driver/src/domain/competition/solution/trade.rs and fee.rs.

    [U256::from_f64_lossy] is a parameter of the fee computations. *)
From Stdlib Require Import ZArith Lia.
From stdpp Require Import prelude.
From S2P Require Import Prelude U256 Floats DriverOrder.

Open Scope Z_scope.
Open Scope rust_scope.
Import Eth Order.

(** [solution::error] *)
Inductive MathError : Type := Overflow | DivisionByZero | Negative.
Inductive TradeError : Type :=
| TradeProtocolFeeOnStaticOrder
| InvalidExecutedAmount
| TradeMath (e : MathError).
Inductive FeeError : Type :=
| ProtocolFeeOnStaticOrder
| FeeMath (e : MathError)
| FeeFulfillment (e : TradeError).

(** [checked_mul] then [checked_div], with the errors of the code. *)
Definition mul_div (a b c : Z) : res MathError Z :=
  let* p := ok_or (checked_mul a b) Overflow in ok_or (checked_div p c) DivisionByZero.
Definition mul_ceil_div (a b c : Z) : res MathError Z :=
  let* p := ok_or (checked_mul a b) Overflow in ok_or (checked_ceil_div p c) DivisionByZero.

Record ClearingPrices : Type := mkClearingPrices { price_sell : Z; price_buy : Z }.
Record CustomClearingPrices : Type := mkCustomClearingPrices { custom_sell : Z; custom_buy : Z }.
Record PriceLimits : Type := mkPriceLimits { limit_sell : Z; limit_buy : Z }.

Inductive Fee : Type := Static | Dynamic (fee : Z).

(** The amounts a user sells and gets for an execution and a fee. *)
Definition sold (side : Side) (executed fee : Z) (prices : ClearingPrices) : res MathError Z :=
  let* before_fee :=
    match side with
    | Sell => Ok executed
    | Buy => mul_div executed (price_buy prices) (price_sell prices)
    end in
  ok_or (checked_add before_fee fee) Overflow.
Definition bought (side : Side) (executed : Z) (prices : ClearingPrices) : res MathError Z :=
  match side with
  | Buy => Ok executed
  | Sell => mul_ceil_div executed (price_sell prices) (price_buy prices)
  end.

Module Fulfillment.
Record Fulfillment : Type := mkFulfillment { order : Order; executed : Z; fee_kind : Fee }.

Definition new (order : Order) (executed : Z) (fee : Fee) : res TradeError Fulfillment :=
  let target_fee :=
    match side order with
    | Buy => 0
    | Sell => match fee with Static => 0 | Dynamic fee => fee end
    end in
  let* executed_with_fee := ok_or (checked_add executed target_fee) InvalidExecutedAmount in
  let valid_execution :=
    match partial order with
    | Yes available => executed_with_fee <=? available
    | No => executed_with_fee =? target order
    end in
  let valid_fee :=
    match fee with
    | Static => negb (solver_determines_fee order)
    | Dynamic _ => solver_determines_fee order
    end in
  if valid_execution && valid_fee then Ok (mkFulfillment order executed fee)
  else Err InvalidExecutedAmount.

Definition fee (self : Fulfillment) : Z :=
  match fee_kind self with Static => 0 | Dynamic fee => fee end.
Definition surplus_fee (self : Fulfillment) : option Z :=
  match fee_kind self with Static => None | Dynamic fee => Some fee end.
Definition sell_amount (self : Fulfillment) (prices : ClearingPrices) : res MathError Z :=
  sold (side (order self)) (executed self) (fee self) prices.
Definition buy_amount (self : Fulfillment) (prices : ClearingPrices) : res MathError Z :=
  bought (side (order self)) (executed self) prices.
Definition custom_prices (self : Fulfillment) (prices : ClearingPrices)
  : res MathError CustomClearingPrices :=
  let* s := buy_amount self prices in
  let* b := sell_amount self prices in
  Ok (mkCustomClearingPrices s b).

Definition surplus_over_reference_price (self : Fulfillment) (limit_sell limit_buy : Z)
    (prices : ClearingPrices) : res TradeError Z :=
  let executed := executed self in
  let* executed_sell_amount :=
    match side (order self) with
    | Buy => map_err TradeMath (mul_div executed (price_buy prices) (price_sell prices))
    | Sell => Ok executed
    end in
  let* surplus_fee := ok_or (surplus_fee self) TradeProtocolFeeOnStaticOrder in
  let* executed_sell_amount_with_fee :=
    ok_or (checked_add executed_sell_amount surplus_fee) (TradeMath Overflow) in
  match side (order self) with
  | Buy =>
      let* limit_sell_amount := map_err TradeMath (mul_div limit_sell executed limit_buy) in
      Ok (default 0 (checked_sub limit_sell_amount executed_sell_amount_with_fee))
  | Sell =>
      let* limit_buy_amount :=
        map_err TradeMath (mul_ceil_div limit_buy executed_sell_amount_with_fee limit_sell) in
      let* executed_buy_amount :=
        map_err TradeMath (mul_ceil_div executed (price_sell prices) (price_buy prices)) in
      Ok (default 0 (checked_sub executed_buy_amount limit_buy_amount))
  end.
End Fulfillment.
Import Fulfillment.

(** ** fee.rs *)
Module ProtocolFee.
Record FeeQuote : Type := mkFeeQuote { q_sell : Z; q_buy : Z; q_fee : Z }.

Definition adjust_quote_to_order_limits (order_sell order_buy : Z) (order_side : Side)
    (quote : FeeQuote) : res MathError PriceLimits :=
  match order_side with
  | Sell =>
      let* fee_in_buy := mul_div (q_fee quote) (q_buy quote) (q_sell quote) in
      let* quote_buy_amount := ok_or (checked_sub (q_buy quote) fee_in_buy) Negative in
      let* scaled_buy_amount := mul_div quote_buy_amount order_sell (q_sell quote) in
      Ok (mkPriceLimits order_sell (Z.max order_buy scaled_buy_amount))
  | Buy =>
      let* quote_sell_amount := ok_or (checked_add (q_sell quote) (q_fee quote)) Overflow in
      let* scaled_sell_amount := mul_div quote_sell_amount order_buy (q_buy quote) in
      Ok (mkPriceLimits (Z.min order_sell scaled_sell_amount) order_buy)
  end.

Section fees.
Context (from_f64_lossy : F64.f64 -> Z).
Local Abbreviation apply_factor := (Eth.apply_factor from_f64_lossy).

Definition fee_from_surplus (self : Fulfillment) (sell_amount buy_amount : Z)
    (prices : ClearingPrices) (factor : F64.f64) : res FeeError Z :=
  let* surplus := map_err FeeFulfillment
    (surplus_over_reference_price self sell_amount buy_amount prices) in
  ok_or (apply_factor surplus factor) (FeeMath Overflow).

Definition fee_from_volume (self : Fulfillment) (prices : ClearingPrices) (factor : F64.f64)
  : res FeeError Z :=
  let* volume :=
    match side (order self) with
    | Buy => map_err FeeMath (sell_amount self prices)
    | Sell => map_err FeeMath (buy_amount self prices)
    end in
  ok_or (apply_factor volume factor) (FeeMath Overflow).

Definition calculate_fee (self : Fulfillment) (price_limits : PriceLimits)
    (prices : ClearingPrices) (factor max_volume_factor : F64.f64) : res FeeError Z :=
  let* from_surplus := fee_from_surplus self (limit_sell price_limits) (limit_buy price_limits) prices factor in
  let* from_volume := fee_from_volume self prices max_volume_factor in
  Ok (Z.min from_surplus from_volume).

Definition protocol_fee (self : Fulfillment) (prices : ClearingPrices) (policy : FeePolicy)
  : res FeeError Z :=
  match policy with
  | Surplus factor max_volume_factor =>
      calculate_fee self
        (mkPriceLimits (amount (sell (order self))) (amount (buy (order self))))
        prices factor max_volume_factor
  | PriceImprovement factor max_volume_factor quote =>
      let* price_limits := map_err FeeMath (adjust_quote_to_order_limits
        (amount (sell (order self))) (amount (buy (order self))) (side (order self))
        (mkFeeQuote (amount (quote_sell quote)) (amount (quote_buy quote)) (amount (quote_fee quote)))) in
      calculate_fee self price_limits prices factor max_volume_factor
  | Volume factor => fee_from_volume self prices factor
  end.

Definition protocol_fee_in_sell_token (self : Fulfillment) (prices : ClearingPrices)
    (policy : FeePolicy) : res FeeError Z :=
  let* fee := protocol_fee self prices policy in
  match side (order self) with
  | Buy => Ok fee
  | Sell => map_err FeeMath (mul_div fee (price_buy prices) (price_sell prices))
  end.

Definition with_protocol_fee (self : Fulfillment) (prices : ClearingPrices) (policy : FeePolicy)
  : res FeeError Fulfillment :=
  let* protocol_fee := protocol_fee_in_sell_token self prices policy in
  let* fee :=
    match surplus_fee self with
    | None => if negb (protocol_fee =? 0) then Err ProtocolFeeOnStaticOrder else Ok Static
    | Some fee =>
        let* fee := ok_or (checked_add fee protocol_fee) (FeeMath Overflow) in Ok (Dynamic fee)
    end in
  let* executed :=
    match side (order self) with
    | Buy => Ok (executed self)
    | Sell => ok_or (checked_sub (executed self) protocol_fee) (FeeMath Overflow)
    end in
  map_err FeeFulfillment (Fulfillment.new (order self) executed fee).

Definition with_protocol_fees (self : Fulfillment) (prices : ClearingPrices)
  : res FeeError Fulfillment :=
  rfold (fun f policy => with_protocol_fee f prices policy) self (protocol_fees (order self)).
End fees.
End ProtocolFee.

(** ** [trade::Jit] and [Trade] *)
Module JitTrade.
Record Jit : Type := mkJitTrade { jit_order : Order.Jit; jit_executed : Z; jit_fee : Z }.
Definition new (order : Order.Jit) (executed fee : Z) : res TradeError Jit :=
  let fee_target_amount := match jit_side order with Buy => 0 | Sell => fee end in
  let* executed_with_fee := ok_or (checked_add executed fee_target_amount) InvalidExecutedAmount in
  let is_valid :=
    match partially_fillable order with
    | Yes available => executed_with_fee <=? available
    | No => executed_with_fee =? jit_target order
    end in
  if is_valid then Ok (mkJitTrade order executed fee) else Err InvalidExecutedAmount.
End JitTrade.

Module Trade.
Inductive Trade : Type :=
| TFulfillment (f : Fulfillment)
| TJit (j : JitTrade.Jit).
Definition trade_side (self : Trade) : Side :=
  match self with
  | TFulfillment f => side (order f)
  | TJit j => jit_side (JitTrade.jit_order j)
  end.
Definition trade_protocol_fees (self : Trade) : list FeePolicy :=
  match self with TFulfillment f => protocol_fees (order f) | TJit _ => [] end.
Definition trade_executed (self : Trade) : Z :=
  match self with TFulfillment f => executed f | TJit j => JitTrade.jit_executed j end.
Definition trade_fee (self : Trade) : Z :=
  match self with TFulfillment f => fee f | TJit j => JitTrade.jit_fee j end.
Definition trade_buy (self : Trade) : Asset :=
  match self with TFulfillment f => buy (order f) | TJit j => jit_buy (JitTrade.jit_order j) end.
Definition trade_sell (self : Trade) : Asset :=
  match self with TFulfillment f => sell (order f) | TJit j => jit_sell (JitTrade.jit_order j) end.
Definition trade_sell_amount (self : Trade) (prices : ClearingPrices) : res MathError Z :=
  sold (trade_side self) (trade_executed self) (trade_fee self) prices.
Definition trade_buy_amount (self : Trade) (prices : ClearingPrices) : res MathError Z :=
  bought (trade_side self) (trade_executed self) prices.
Definition trade_custom_prices (self : Trade) (prices : ClearingPrices)
  : res MathError CustomClearingPrices :=
  let* s := trade_buy_amount self prices in
  let* b := trade_sell_amount self prices in
  Ok (mkCustomClearingPrices s b).
End Trade.

(** * Lemmas *)
Lemma mul_div_Ok a b c r :
  mul_div a b c = Ok r <-> r = a * b / c /\ a * b <= U256_MAX /\ c <> 0.
Proof.
  unfold mul_div, checked_mul, checked_div.
  destruct (Z.leb_spec (a * b) U256_MAX), (Z.eqb_spec c 0); cbn; naive_solver lia.
Qed.

Lemma mul_ceil_div_Ok a b c r : 0 <= c ->
  mul_ceil_div a b c = Ok r <->
    r = cdiv (a * b) c /\ a * b <= U256_MAX /\ 0 < c /\ a * b + (c - 1) <= U256_MAX.
Proof.
  intros Hc. unfold mul_ceil_div, checked_mul.
  destruct (Z.leb_spec (a * b) U256_MAX); cbn [ok_or rbind]; [|naive_solver lia].
  rewrite ok_or_Ok, checked_ceil_div_Some by done. naive_solver lia.
Qed.

Section fulfillments.
Implicit Types f : Fulfillment.

(** What the order must have at least as much available as. *)
Definition spent f : Z :=
  executed f + match side (order f) with Buy => 0 | Sell => fee f end.
(** A fulfillment that [new] accepts. *)
Definition valid f : Prop :=
  match partial (order f) with
  | Yes available => spent f <= available
  | No => spent f = target (order f)
  end /\ (kind (order f) = Limit <-> surplus_fee f <> None).
Definition amounts_u256 f : Prop := u256 (executed f) /\ u256 (fee f).
Definition prices_u256 (p : ClearingPrices) : Prop := u256 (price_sell p) /\ u256 (price_buy p).

Lemma new_Ok o e fk f :
  Fulfillment.new o e fk = Ok f <->
    f = mkFulfillment o e fk /\ valid f /\ spent f <= U256_MAX.
Proof.
  unfold Fulfillment.new, valid, spent, surplus_fee, fee, checked_add, solver_determines_fee.
  set (tf := match side o with Buy => _ | Sell => _ end).
  assert (Htf : tf = match side o with Buy => 0 | Sell => match fk with Static => 0 | Dynamic fee => fee end end)
    by done.
  split.
  - intros Hn. inv_ok. destruct (Z.leb_spec (e + tf) U256_MAX); [|done]. injection Hv as <-.
    destruct (_ && _) eqn:Hb; [|done]. injection Hn as <-. cbn [order executed fee_kind]. rewrite <- Htf.
    bool_to_prop. split; [done|]. split; [|done]. split; [by destruct (partial o); bool_to_prop|].
    destruct (kind o), fk; naive_solver.
  - intros (-> & [Hp Hk] & Hm). cbn [order executed fee_kind] in *. rewrite <- Htf in *.
    rewrite (proj2 (Z.leb_le _ _)) by done. cbn [ok_or rbind].
    assert (Hb : match partial o with Yes available => e + tf <=? available | No => e + tf =? target o end = true)
      by (destruct (partial o); [by apply Z.leb_le|by apply Z.eqb_eq]).
    rewrite Hb. by destruct (kind o), fk; cbn; try done; naive_solver.
Qed.

Lemma new_never_panics o e fk : panic_free (Fulfillment.new o e fk).
Proof.
  unfold panic_free, Fulfillment.new. destruct (checked_add _ _); cbn [ok_or rbind]; [|done].
  by destruct (_ && _).
Qed.

Context (from_f64_lossy : F64.f64 -> Z).
Context (Hlossy : forall x, u256 (from_f64_lossy x)).

Lemma apply_factor_nonneg a x r :
  0 <= a -> Eth.apply_factor from_f64_lossy a x = Some r ->
  0 <= r /\ (from_f64_lossy (F64.mul x (F64.of_Z BASE)) <= BASE -> r <= a).
Proof.
  intros Ha. unfold Eth.apply_factor. intros (m & (-> & _)%checked_mul_Some & ->)%fmap_Some.
  set (F := from_f64_lossy _). assert (HF : 0 <= F) by apply Hlossy. unfold BASE. split.
  - apply Z.div_pos; nia.
  - intros HB. apply Z.div_le_upper_bound; nia.
Qed.

(** One policy: the order and what is spent stay, the fee grows by the protocol
    fee, and a sale executes as much less. *)
Lemma with_protocol_fee_Ok f prices policy f' :
  amounts_u256 f -> prices_u256 prices ->
  ProtocolFee.with_protocol_fee from_f64_lossy f prices policy = Ok f' ->
  exists q, ProtocolFee.protocol_fee_in_sell_token from_f64_lossy f prices policy = Ok q /\
    order f' = order f /\ fee f' = fee f + q /\ (surplus_fee f = None -> q = 0) /\
    executed f' = (match side (order f) with Buy => executed f | Sell => executed f - q end) /\
    (side (order f) = Sell -> q <= executed f) /\ valid f' /\ fee f' <= U256_MAX.
Proof.
  intros [Hue Huf] _ Hw. unfold ProtocolFee.with_protocol_fee in Hw. inv_ok. rename v into q.
  exists q. split; [done|]. apply new_Ok in Hw as (-> & Hval & _).
  assert (Hfee : v0 = match fee_kind f with Static => Static | Dynamic fee => Dynamic (fee + q) end /\
    (surplus_fee f = None -> q = 0) /\ match fee_kind f with Static => q = 0 | Dynamic fee => fee + q <= U256_MAX end).
  { unfold surplus_fee in *. destruct (fee_kind f).
    - destruct (Z.eqb_spec q 0); cbn in Hv0; [|done]. injection Hv0 as <-. by split_and!.
    - inv_ok. apply checked_add_Some in Hv2 as [-> ?]. by split_and!. }
  destruct Hfee as (-> & Hnone & Hsz). cbn [order executed fee_kind].
  assert (Hfk : fee (mkFulfillment (order f) v1
      match fee_kind f with Static => Static | Dynamic fee => Dynamic (fee + q) end) = fee f + q).
  { unfold fee. cbn. destruct (fee_kind f); lia. }
  rewrite Hfk. split_and!; [done|done|done| | |done|].
  - destruct (side (order f)); inv_ok; [done|]. by apply checked_sub_Some in Hv1 as [-> _].
  - intros Hs. rewrite Hs in Hv1. inv_ok. by apply checked_sub_Some in Hv1 as [_ ?].
  - unfold fee, u256, U256_MAX in *. destruct (fee_kind f); lia.
Qed.
End fulfillments.

(** Taking fees never panics and never changes the order, whatever the prices. *)
Lemma with_protocol_fees_keeps_order (from_f64_lossy : F64.f64 -> Z) (f : Fulfillment) prices :
  returns (fun f' => order f' = order f) (ProtocolFee.with_protocol_fees from_f64_lossy f prices).
Proof.
  apply (rfold_returns (fun f' => order f' = order f)); [done|]. intros g policy _ <-.
  assert (Hmd : forall a b c, returns (fun _ => True) (mul_div a b c)) by (intros; unfold mul_div; by no_panic).
  assert (Hmc : forall a b c, returns (fun _ => True) (mul_ceil_div a b c)) by (intros; unfold mul_ceil_div; by no_panic).
  unfold ProtocolFee.with_protocol_fee.
  eapply (returns_bind (fun _ => True)); [|intros q _].
  - unfold ProtocolFee.protocol_fee_in_sell_token, ProtocolFee.protocol_fee, ProtocolFee.calculate_fee,
      ProtocolFee.fee_from_surplus, ProtocolFee.fee_from_volume, surplus_over_reference_price,
      sell_amount, buy_amount, sold, bought, ProtocolFee.adjust_quote_to_order_limits.
    no_panic; by auto.
  - eapply (returns_bind (fun _ => True)); [by no_panic|intros fk _].
    eapply (returns_bind (fun _ => True)); [by no_panic|intros e _]. apply returns_map_err.
    destruct (Fulfillment.new _ _ _) eqn:Hn; cbn; [|done|by apply new_never_panics in Hn].
    by apply new_Ok in Hn as (-> & _).
Qed.

(** * Protocol fees and the user's limit *)
Section limits.
Context (from_f64_lossy : F64.f64 -> Z).
Context (Hlossy : forall x, u256 (from_f64_lossy x)).
Implicit Types f : Fulfillment.

(** What the signed order demands of this execution: the least a sale must
    bring, the most a purchase may cost. *)
Definition user_limit f : Z :=
  match side (order f) with
  | Sell => cdiv (amount (buy (order f)) * spent f) (amount (sell (order f)))
  | Buy => amount (sell (order f)) * executed f / amount (buy (order f))
  end.
(** A fee that is a share of at most one of the surplus. *)
Definition surplus_share (policy : FeePolicy) : Prop :=
  match policy with
  | Surplus factor _ | PriceImprovement factor _ _ =>
      from_f64_lossy (F64.mul factor (F64.of_Z BASE)) <= BASE
  | Volume _ => False
  end.

(** The surplus over reference amounts, in closed form. *)
Lemma surplus_over_reference_Ok f ls lb prices s :
  prices_u256 prices -> 0 <= ls -> 0 <= lb ->
  surplus_over_reference_price f ls lb prices = Ok s ->
  match side (order f) with
  | Sell => exists b, bought Sell (executed f) prices = Ok b /\ 0 < ls /\
      s = Z.max (b - cdiv (lb * spent f) ls) 0
  | Buy => exists a, sold Buy (executed f) (fee f) prices = Ok a /\ lb <> 0 /\
      ls * executed f <= U256_MAX /\ s = Z.max (ls * executed f / lb - a) 0
  end.
Proof.
  intros [Hps Hpb] Hls Hlb Hs. unfold surplus_over_reference_price in Hs. unfold spent, sold, bought.
  assert (Hsub : forall x y, default 0 (checked_sub x y) = Z.max (x - y) 0).
  { intros x y. unfold checked_sub. destruct (Z.leb_spec y x); cbn; lia. }
  assert (Hfee : forall x, surplus_fee f = Some x -> x = fee f).
  { unfold surplus_fee, fee. by destruct (fee_kind f); intros ? [= ->]. }
  destruct (side (order f)); inv_ok;
    repeat match goal with
    | H : surplus_fee f = Some ?x |- _ => apply Hfee in H; subst x
    | H : checked_add _ _ = Some _ |- _ => apply checked_add_Some in H as [-> ?]
    end; rewrite Hsub.
  - exists (v + fee f). rewrite Hv. cbn [rbind]. unfold checked_add.
    rewrite (proj2 (Z.leb_le _ _)) by done.
    match goal with H : mul_div ls _ _ = Ok _ |- _ => apply mul_div_Ok in H as (-> & ? & ?) end. done.
  - match goal with H : mul_ceil_div _ _ (price_buy prices) = Ok ?b |- _ => exists b; split; [done|] end.
    match goal with H : mul_ceil_div lb _ _ = Ok _ |- _ =>
      apply mul_ceil_div_Ok in H as (-> & _ & ? & _); [|done] end.
    done.
Qed.

(** The amounts of a quote are unsigned. *)
Definition policy_unsigned (policy : FeePolicy) : Prop :=
  match policy with
  | PriceImprovement _ _ q =>
      0 <= amount (quote_sell q) /\ 0 <= amount (quote_buy q) /\ 0 <= amount (quote_fee q)
  | _ => True
  end.

Lemma adjusted_limits os ob sd q l :
  0 <= os -> 0 <= ob -> 0 <= ProtocolFee.q_sell q -> 0 <= ProtocolFee.q_buy q -> 0 <= ProtocolFee.q_fee q ->
  ProtocolFee.adjust_quote_to_order_limits os ob sd q = Ok l ->
  0 <= limit_sell l /\ 0 <= limit_buy l /\
  match sd with
  | Sell => limit_sell l = os /\ ob <= limit_buy l
  | Buy => limit_sell l <= os /\ limit_buy l = ob
  end.
Proof.
  intros Hos Hob Hqs Hqb Hqf Ha. unfold ProtocolFee.adjust_quote_to_order_limits in Ha.
  destruct sd; inv_ok; cbn; [|lia].
  match goal with H : checked_add _ _ = Some _ |- _ => apply checked_add_Some in H as [-> _] end.
  match goal with H : mul_div _ _ _ = Ok _ |- _ => apply mul_div_Ok in H as (-> & _ & Hne) end.
  assert (0 <= (ProtocolFee.q_sell q + ProtocolFee.q_fee q) * ob / ProtocolFee.q_buy q) by (apply Z.div_pos; nia).
  lia.
Qed.

Lemma calculate_fee_within_surplus f l prices factor mvf p :
  prices_u256 prices -> 0 <= limit_sell l -> 0 <= limit_buy l ->
  from_f64_lossy (F64.mul factor (F64.of_Z BASE)) <= BASE ->
  ProtocolFee.calculate_fee from_f64_lossy f l prices factor mvf = Ok p ->
  exists s, surplus_over_reference_price f (limit_sell l) (limit_buy l) prices = Ok s /\ p <= s.
Proof.
  intros Hp Hls Hlb HF Hc. unfold ProtocolFee.calculate_fee, ProtocolFee.fee_from_surplus in Hc. inv_ok.
  match goal with H : surplus_over_reference_price _ _ _ _ = Ok ?s |- _ => exists s; rename H into Hsur end.
  split; [done|]. pose proof (surplus_over_reference_Ok _ _ _ _ _ Hp Hls Hlb Hsur) as Hs.
  match goal with H : Eth.apply_factor _ ?s factor = Some ?x |- _ =>
    assert (Hx : x <= s); [|lia];
    apply apply_factor_nonneg in H; [naive_solver|done|] end.
  destruct (side (order f)); naive_solver lia.
Qed.

(** A fee that is a share of the surplus stays within the distance to the limit. *)
Lemma share_within_limit f prices policy p :
  prices_u256 prices -> order_u256 (order f) -> policy_unsigned policy ->
  0 <= executed f -> 0 <= spent f -> surplus_share policy ->
  ProtocolFee.protocol_fee from_f64_lossy f prices policy = Ok p ->
  match side (order f) with
  | Sell => exists b, buy_amount f prices = Ok b /\ p <= Z.max (b - user_limit f) 0
  | Buy => exists a, sell_amount f prices = Ok a /\ p <= Z.max (user_limit f - a) 0 /\ a + p <= U256_MAX
  end.
Proof.
  intros Hp (Hs & Hb & _) Hpol He Hsp Hshare Hpf.
  assert (Hl : exists l factor mvf, 0 <= limit_sell l /\ 0 <= limit_buy l /\
    from_f64_lossy (F64.mul factor (F64.of_Z BASE)) <= BASE /\
    ProtocolFee.calculate_fee from_f64_lossy f l prices factor mvf = Ok p /\
    match side (order f) with
    | Sell => limit_sell l = amount (sell (order f)) /\ amount (buy (order f)) <= limit_buy l
    | Buy => limit_sell l <= amount (sell (order f)) /\ limit_buy l = amount (buy (order f))
    end).
  { unfold u256 in *. destruct policy as [factor mvf|factor mvf q|]; cbn in Hpf; [| |done].
    - eexists (mkPriceLimits _ _), factor, mvf. split_and!; [..|exact Hpf|]; cbn; try lia; try done.
      destruct (side (order f)); lia.
    - inv_ok. destruct Hpol as (? & ? & ?).
      apply adjusted_limits in Hv as (? & ? & ?); [|cbn; lia..].
      by exists v, factor, mvf. }
  destruct Hl as (l & factor & mvf & Hls & Hlb & HF & Hc & Hadj). unfold user_limit, buy_amount, sell_amount.
  destruct (calculate_fee_within_surplus _ _ _ _ _ _ Hp Hls Hlb HF Hc) as (s & Hsur & Hps).
  apply surplus_over_reference_Ok in Hsur; [|done..]. destruct (side (order f)).
  - destruct Hsur as (a & Ha & Hne & Hmax & ->). exists a. split; [done|].
    assert (Ham : a <= U256_MAX) by (unfold sold in Ha; inv_ok; by apply checked_add_Some in Ha as [-> ?]).
    destruct Hadj as [Hadj Heq]. rewrite Heq in *.
    assert (limit_sell l * executed f / amount (buy (order f)) <=
      amount (sell (order f)) * executed f / amount (buy (order f))) by (apply Z.div_le_mono; unfold u256 in *; nia).
    assert (limit_sell l * executed f / amount (buy (order f)) <= U256_MAX); [|lia].
    unfold u256 in *. apply Z.div_le_upper_bound; nia.
  - destruct Hsur as (b & Hbo & Hpos & ->). exists b. split; [done|]. destruct Hadj as [Heq Hadj].
    rewrite Heq in *.
    pose proof (cdiv_le_mono (amount (buy (order f)) * spent f) (limit_buy l * spent f) _ Hpos). nia.
Qed.
Lemma volume_nonneg sd e fe prices v :
  prices_u256 prices -> 0 <= e -> 0 <= fe ->
  (sold sd e fe prices = Ok v \/ bought sd e prices = Ok v) -> 0 <= v.
Proof.
  intros [Hps Hpb] He Hfe [Hv|Hv]; unfold sold, bought, prices_u256, u256 in *; destruct sd; inv_ok; try lia;
    repeat match goal with
    | H : checked_add _ _ = Some _ |- _ => apply checked_add_Some in H as [-> _]
    | H : mul_div _ _ _ = Ok _ |- _ => apply mul_div_Ok in H as (-> & _ & ?)
    | H : mul_ceil_div _ _ _ = Ok _ |- _ => apply mul_ceil_div_Ok in H as (-> & _ & ? & _); [|lia]
    end; try lia.
  - assert (0 <= e * price_buy prices / price_sell prices) by (apply Z.div_pos; nia). lia.
  - apply cdiv_nonneg; nia.
Qed.

Lemma protocol_fee_nonneg f prices policy p :
  prices_u256 prices -> order_u256 (order f) -> policy_unsigned policy -> amounts_u256 f ->
  ProtocolFee.protocol_fee from_f64_lossy f prices policy = Ok p -> 0 <= p.
Proof.
  intros Hp Ho Hpol [He Hfe] Hpf. unfold u256 in *.
  assert (Hvol : forall factor v, ProtocolFee.fee_from_volume from_f64_lossy f prices factor = Ok v -> 0 <= v).
  { intros factor v Hv. unfold ProtocolFee.fee_from_volume, sell_amount, buy_amount in Hv. inv_ok.
    apply apply_factor_nonneg in Hv; [tauto|done|].
    destruct (side (order f)) eqn:Hside; inv_ok;
      apply (volume_nonneg (side (order f)) (executed f) (fee f) prices); rewrite ?Hside; try lia; try done;
      [by left|by right]. }
  assert (Hcalc : forall l factor mvf v, 0 <= limit_sell l -> 0 <= limit_buy l ->
    ProtocolFee.calculate_fee from_f64_lossy f l prices factor mvf = Ok v -> 0 <= v).
  { intros l factor mvf v Hls Hlb Hc. unfold ProtocolFee.calculate_fee, ProtocolFee.fee_from_surplus in Hc.
    inv_ok.
    match goal with H : ProtocolFee.fee_from_volume _ _ _ _ = Ok _ |- _ => apply Hvol in H end.
    match goal with H : surplus_over_reference_price _ _ _ _ = Ok ?s |- _ =>
      apply surplus_over_reference_Ok in H; [|done..]; assert (0 <= s) by (destruct (side (order f)); naive_solver lia) end.
    match goal with H : Eth.apply_factor _ _ _ = Some _ |- _ => apply apply_factor_nonneg in H; [lia|done..] end. }
  destruct Ho as (Hs & Hb & _). unfold u256 in *. destruct policy as [factor mvf|factor mvf q|]; cbn in Hpf.
  - eapply (Hcalc (mkPriceLimits _ _)); [| |exact Hpf]; cbn; lia.
  - inv_ok. destruct Hpol as (? & ? & ?). apply adjusted_limits in Hv as (? & ? & _); [|cbn; lia..].
    by eapply (Hcalc v).
  - by eapply Hvol.
Qed.

(** One policy keeps what is spent; the amounts stay within 256 bits. *)
Lemma with_protocol_fee_step f prices policy f' :
  prices_u256 prices -> order_u256 (order f) -> policy_unsigned policy -> amounts_u256 f ->
  ProtocolFee.with_protocol_fee from_f64_lossy f prices policy = Ok f' ->
  order f' = order f /\ spent f' = spent f /\ amounts_u256 f' /\ valid f' /\ fee f <= fee f' /\
  executed f' <= executed f /\ (side (order f) = Buy -> executed f' = executed f).
Proof.
  intros Hp Ho Hpol Ha Hw. pose proof Ha as [He Hfe].
  destruct (with_protocol_fee_Ok _ _ _ _ _ Ha Hp Hw) as (q & Hq & Hord & Hf & _ & Hex & Hle & Hval & Hmax).
  assert (Hq0 : 0 <= q).
  { unfold ProtocolFee.protocol_fee_in_sell_token in Hq. inv_ok.
    apply (protocol_fee_nonneg _ _ _ _ Hp Ho Hpol Ha) in Hv. destruct (side (order f)); inv_ok; [done|].
    apply mul_div_Ok in Hq as (-> & _ & ?). destruct Hp as [Hps Hpb]. unfold u256 in *. apply Z.div_pos; nia. }
  unfold spent, amounts_u256, u256 in *. rewrite Hord, Hf, Hex in *.
  destruct (side (order f)) eqn:Hside; [|specialize (Hle eq_refl)]; split_and!; try done; try lia.
Qed.
(** Executing [q] less at rounded-up prices costs at most what [q] is worth. *)
Lemma less_executed e q p ps pb :
  0 < pb -> 0 <= ps -> q * ps <= p * pb -> cdiv (e * ps) pb - p <= cdiv ((e - q) * ps) pb.
Proof.
  intros Hpb Hps Hq. pose proof (cdiv_spec (e * ps) pb Hpb) as H1.
  pose proof (cdiv_spec ((e - q) * ps) pb Hpb) as H2. nia.
Qed.

Definition kept_to_limit f prices f' : Prop :=
  forall b s, buy_amount f prices = Ok b -> sell_amount f prices = Ok s ->
  exists b' s', buy_amount f' prices = Ok b' /\ sell_amount f' prices = Ok s' /\
    match side (order f) with
    | Sell => s' = s /\ Z.min b (user_limit f) <= b'
    | Buy => b' = b /\ s' <= Z.max s (user_limit f)
    end.

Lemma share_keeps_limit f prices policy f' :
  prices_u256 prices -> order_u256 (order f) -> policy_unsigned policy -> amounts_u256 f -> surplus_share policy ->
  ProtocolFee.with_protocol_fee from_f64_lossy f prices policy = Ok f' ->
  kept_to_limit f prices f' /\ user_limit f' = user_limit f.
Proof.
  intros Hp Ho Hpol Ha Hshare Hw.
  destruct (with_protocol_fee_step _ _ _ _ Hp Ho Hpol Ha Hw) as (Hord & Hsp & _ & _ & Hfee & Hexl & Hexb).
  destruct (with_protocol_fee_Ok _ _ _ _ _ Ha Hp Hw) as (q & Hq & _ & Hf & _ & Hex & Hle & _ & Hmax).
  pose proof Ha as [[He0 Hemax] [Hfe0 _]]. pose proof Hp as [[Hps _] [Hpb _]].
  assert (Hspent : 0 <= spent f) by (unfold spent; destruct (side (order f)); lia).
  unfold ProtocolFee.protocol_fee_in_sell_token in Hq. inv_ok.
  pose proof (share_within_limit _ _ _ _ Hp Ho Hpol He0 Hspent Hshare Hv) as Hwithin.
  unfold kept_to_limit, user_limit, buy_amount, sell_amount, spent, sold, bought in *.
  rewrite Hord in *. destruct (side (order f)); split; try (by rewrite ?Hsp, ?Hexb).
  - inv_ok. intros b s Hb Hs. inv_ok. apply mul_div_Ok in Hv0 as (-> & Hm & Hne).
    apply checked_add_Some in Hs as [-> Hsm]. destruct Hwithin as (a & Ha' & Hpa & Hpm). inv_ok.
    apply mul_div_Ok in Hv0 as (-> & _ & _). apply checked_add_Some in Ha' as [-> _].
    rewrite Hexb by done. exists (executed f).
    set (cost := executed f * price_buy prices / price_sell prices) in *.
    exists (cost + fee f'). split; [done|].
    assert (Hmd : mul_div (executed f) (price_buy prices) (price_sell prices) = Ok cost) by (by apply mul_div_Ok).
    rewrite Hmd. cbn [rbind]. split; [|split; [done|lia]].
    apply ok_or_Ok, checked_add_Some. split; [done|]. lia.
  - apply map_err_Ok, mul_div_Ok in Hq as (-> & Hm & Hne). intros b s Hb Hs. inv_ok.
    apply checked_add_Some in Hs as [-> Hsm]. destruct Hwithin as (b' & Hb' & Hpb'). rewrite Hb in Hb'. injection Hb' as <-.
    apply mul_ceil_div_Ok in Hb as (-> & Hbm & Hb0 & Hbc); [|done].
    exists (cdiv (executed f' * price_sell prices) (price_buy prices)), (executed f' + fee f').
    rewrite Hex, Hf. split_and!.
    + apply mul_ceil_div_Ok; [done|]. rewrite Hex in Hexl. split_and!; [done|nia|done|nia].
    + cbn [rbind]. apply ok_or_Ok, checked_add_Some. lia.
    + lia.
    + pose proof (less_executed (executed f) (v * price_buy prices / price_sell prices) v
        (price_sell prices) (price_buy prices) Hb0 Hps) as Hless.
      assert (Hpos : 0 < price_sell prices) by lia.
      pose proof (fdiv_spec (v * price_buy prices) _ Hpos). lia.
Qed.
End limits.

(** * Properties *)
Section properties.
Context (from_f64_lossy : F64.f64 -> Z).

(** [Fulfillment::new] accepts exactly the valid executions: it never
    panics, and returns the fulfillment it was given if what is spent (for a
    sale with the solver's fee) fills a fill-or-kill order exactly or is
    within what a partial one has available, the fee being dynamic exactly for
    limit orders, and reports an invalid amount otherwise. *)
Theorem fulfillment_new_accepts_valid (o : Order) (e : Z) (fk : Fee) :
  let f := mkFulfillment o e fk in
  (valid f /\ spent f <= U256_MAX -> Fulfillment.new o e fk = Ok f) /\
  (~ (valid f /\ spent f <= U256_MAX) -> Fulfillment.new o e fk = Err InvalidExecutedAmount).
Proof.
  intros f. split.
  - intros [Hv Hm]. by apply new_Ok.
  - intros Hn. destruct (Fulfillment.new o e fk) as [f'|err|] eqn:Hnew.
    + apply new_Ok in Hnew as (-> & Hv & Hm). by destruct Hn.
    + unfold Fulfillment.new in Hnew. destruct (checked_add _ _); cbn in Hnew; [|congruence].
      destruct (_ && _); congruence.
    + by destruct (new_never_panics o e fk).
Qed.

(** Taking protocol fees moves value from the execution to the fee and
    nowhere else: the order and what is spent of it stay exactly the same, the
    fee never falls and the execution never grows, a purchase still buys the
    same, and the result is again a valid fulfillment. *)
Theorem protocol_fees_conserve (f f' : Fulfillment) (prices : ClearingPrices) :
  (forall x, u256 (from_f64_lossy x)) ->
  prices_u256 prices -> order_u256 (order f) -> Forall policy_unsigned (protocol_fees (order f)) ->
  amounts_u256 f -> valid f ->
  ProtocolFee.with_protocol_fees from_f64_lossy f prices = Ok f' ->
  order f' = order f /\ spent f' = spent f /\ fee f <= fee f' /\
  0 <= executed f' <= executed f /\ (side (order f) = Buy -> executed f' = executed f) /\ valid f'.
Proof.
  intros Hlossy Hp Ho Hpol Ha Hval Hw. unfold ProtocolFee.with_protocol_fees in Hw.
  assert (Hinv : order f' = order f /\ spent f' = spent f /\ amounts_u256 f' /\ valid f' /\ fee f <= fee f' /\
    executed f' <= executed f /\ (side (order f) = Buy -> executed f' = executed f)).
  { eapply (rfold_Ok_inv (fun f' => order f' = order f /\ spent f' = spent f /\ amounts_u256 f' /\ valid f' /\
      fee f <= fee f' /\ executed f' <= executed f /\ (side (order f) = Buy -> executed f' = executed f)));
      [exact Hw|by split_and!|].
    intros g policy g' Hin (Hog & Hsg & Hag & _ & Hfg & Heg & Hbg) Hstep.
    destruct (with_protocol_fee_step from_f64_lossy Hlossy g prices policy g') as (H1 & H2 & H3 & H4 & H5 & H6 & H7);
      [done|by rewrite Hog|by eapply Forall_elem|done|done|].
    split_and!; try congruence; try lia; try done. intros Hs. rewrite H7, Hbg; congruence. }
  destruct Hinv as (? & ? & [[? ?] ?] & ? & ? & ? & ?). by split_and!.
Qed.

(** C32: fees that are a share of the surplus, over the limit or over a quote,
    respect the user's limit: whatever policies of this kind are applied one
    after another, the user sells the same in total and still gets at least
    the signed limit (or what the solution paid before, if that was less);
    a purchase buys the same and costs no more than its limit. *)
Theorem protocol_fees_respect_limit (f f' : Fulfillment) (prices : ClearingPrices) :
  (forall x, u256 (from_f64_lossy x)) ->
  prices_u256 prices -> order_u256 (order f) -> Forall policy_unsigned (protocol_fees (order f)) ->
  amounts_u256 f -> Forall (surplus_share from_f64_lossy) (protocol_fees (order f)) ->
  ProtocolFee.with_protocol_fees from_f64_lossy f prices = Ok f' ->
  kept_to_limit f prices f'.
Proof.
  intros Hlossy Hp Ho Hpol Ha Hshare Hw. unfold ProtocolFee.with_protocol_fees in Hw.
  assert (Hinv : order f' = order f /\ amounts_u256 f' /\ user_limit f' = user_limit f /\ kept_to_limit f prices f').
  { eapply (rfold_Ok_inv (fun f' => order f' = order f /\ amounts_u256 f' /\ user_limit f' = user_limit f /\
      kept_to_limit f prices f')); [exact Hw| |].
    - split_and!; try done. intros b s Hb Hs. exists b, s. destruct (side (order f)); split_and!; try done; lia.
    - intros g policy g' Hin (Hog & Hag & Hlg & Hkg) Hstep.
      pose proof (Forall_elem _ _ _ Hpol Hin) as Hpo. pose proof (Forall_elem _ _ _ Hshare Hin) as Hsh.
      rewrite <- Hog in Ho.
      destruct (with_protocol_fee_step from_f64_lossy Hlossy g prices policy g') as (H1 & _ & H3 & _); [done..|].
      destruct (share_keeps_limit from_f64_lossy Hlossy g prices policy g') as [Hk Hl]; [done..|].
      split_and!; [congruence|done|congruence|]. intros b s Hb Hs.
      destruct (Hkg b s Hb Hs) as (b1 & s1 & Hb1 & Hs1 & Hm1). destruct (Hk b1 s1 Hb1 Hs1) as (b2 & s2 & Hb2 & Hs2 & Hm2).
      exists b2, s2. split_and!; [done..|]. rewrite Hog, Hlg in Hm2. destruct (side (order f)); [split; [|lia]|split; [|lia]];
        by destruct Hm1 as [-> ?], Hm2 as [-> ?]. }
  tauto.
Qed.
End properties.

(** A sale of 1000 with a solver fee of 10 at a price of 2, a limit of 1800 and
    a fee of half of the surplus. *)
Section witnesses.
Let half (x : F64.f64) : Z := BASE / 2.
Let o := mkOrder 0 None 0 (mkAsset 1800 2) (mkAsset 1000 1) Sell Limit 0 No [] [] Erc20 BuyErc20
  (mkSignature PreSign [] 0) [Surplus (F64.of_Z 1) (F64.of_Z 1)].
Let f := mkFulfillment o 990 (Dynamic 10).
Let prices := mkClearingPrices 2 1.

Lemma half_lossy x : u256 (half x).
Proof. unfold half, u256. split; closed. Qed.

Example with_fees :
  ProtocolFee.with_protocol_fees half f prices = Ok (mkFulfillment o 945 (Dynamic 55)).
Proof. vm_compute. reflexivity. Qed.

Lemma f_order_u256 : order_u256 (order f).
Proof. repeat split; closed. Qed.

Lemma protocol_fees_conserve_witness :
  945 + 55 = 990 + 10 /\ 10 <= 55 /\ 0 <= 945 <= 990 /\ valid (mkFulfillment o 945 (Dynamic 55)).
Proof.
  destruct (protocol_fees_conserve half f (mkFulfillment o 945 (Dynamic 55)) prices)
    as (_ & Hs & Hf & He & _ & Hv).
  - exact half_lossy.
  - repeat split; closed.
  - exact f_order_u256.
  - repeat constructor.
  - repeat split; closed.
  - split; [reflexivity|split; [intros _; discriminate|reflexivity]].
  - exact with_fees.
  - exact (conj Hs (conj Hf (conj He Hv))).
Defined.

Lemma protocol_fees_respect_limit_witness :
  exists b', buy_amount (mkFulfillment o 945 (Dynamic 55)) prices = Ok b' /\ Z.min 1980 1800 <= b'.
Proof.
  destruct (protocol_fees_respect_limit half f (mkFulfillment o 945 (Dynamic 55)) prices)
    with (b := 1980) (s := 1000) as (b' & s' & Hb & _ & _ & Hl).
  - exact half_lossy.
  - repeat split; closed.
  - exact f_order_u256.
  - repeat constructor.
  - repeat split; closed.
  - repeat constructor. closed.
  - exact with_fees.
  - reflexivity.
  - reflexivity.
  - exists b'. split; [exact Hb|exact Hl].
Defined.
End witnesses.
