(* ===== verification/Scoring.v ===== *)
(** Scoring of a solution: crates/driver/src/domain/competition/solution/scoring.rs.

    A scored trade carries custom clearing prices, at which the settlement
    contract reproduces the amounts of the trade. The lossy float conversion
    is a parameter, as in Trade.v. *)
From Stdlib Require Import ZArith Lia.
From stdpp Require Import prelude gmap.
From S2P Require Import Prelude U256 Floats DriverOrder Trade.

Open Scope Z_scope.
Open Scope rust_scope.
Import Eth Order.

Module Scoring.
Inductive Error : Type := MissingPrice (token : Z) | Math (e : MathError).

Record Trade : Type := mkTrade {
  s_sell : Asset;
  s_buy : Asset;
  s_side : Side;
  s_executed : Z;
  custom_price : CustomClearingPrices;
  policies : list FeePolicy;
}.
Definition set_custom_price (self : Trade) (p : CustomClearingPrices) : Trade :=
  mkTrade (s_sell self) (s_buy self) (s_side self) (s_executed self) p (policies self).

Definition surplus_token (self : Trade) : Z :=
  match s_side self with Buy => token (s_sell self) | Sell => token (s_buy self) end.

Definition surplus_over (self : Trade) (price_limits : PriceLimits) : res MathError Asset :=
  res_map (fun surplus => mkAsset surplus (surplus_token self))
    match s_side self with
    | Buy =>
        let* limit_sell := mul_div (limit_sell price_limits) (s_executed self) (limit_buy price_limits) in
        let* sold := mul_div (s_executed self) (custom_buy (custom_price self)) (custom_sell (custom_price self)) in
        ok_or (checked_sub limit_sell sold) Negative
    | Sell =>
        let* limit_buy := mul_ceil_div (s_executed self) (limit_buy price_limits) (limit_sell price_limits) in
        let* bought := mul_ceil_div (s_executed self) (custom_sell (custom_price self)) (custom_buy (custom_price self)) in
        ok_or (checked_sub bought limit_buy) Negative
    end.

Definition surplus_over_limit_price (self : Trade) : res Error Asset :=
  map_err Math (surplus_over self (mkPriceLimits (amount (s_sell self)) (amount (s_buy self)))).

Definition sell_amount (self : Trade) : res MathError Z :=
  match s_side self with
  | Sell => Ok (s_executed self)
  | Buy => mul_div (s_executed self) (custom_buy (custom_price self)) (custom_sell (custom_price self))
  end.
Definition buy_amount (self : Trade) : res MathError Z :=
  match s_side self with
  | Sell => mul_ceil_div (s_executed self) (custom_sell (custom_price self)) (custom_buy (custom_price self))
  | Buy => Ok (s_executed self)
  end.

Definition calculate_custom_prices (self : Trade) (protocol_fee : Z) : res MathError CustomClearingPrices :=
  let* s :=
    match s_side self with
    | Sell => let* b := buy_amount self in ok_or (checked_add b protocol_fee) Overflow
    | Buy => buy_amount self
    end in
  let* b :=
    match s_side self with
    | Sell => sell_amount self
    | Buy => let* s := sell_amount self in ok_or (checked_sub s protocol_fee) Negative
    end in
  Ok (mkCustomClearingPrices s b).

Definition price_improvement (self : Trade) (quote : Quote) : res Error Asset :=
  let* limits := map_err Math (ProtocolFee.adjust_quote_to_order_limits
    (amount (s_sell self)) (amount (s_buy self)) (s_side self)
    (ProtocolFee.mkFeeQuote (amount (quote_sell quote)) (amount (quote_buy quote)) (amount (quote_fee quote)))) in
  match surplus_over self limits with
  | Err Negative => Ok (mkAsset 0 (surplus_token self))
  | r => map_err Math r
  end.

Section fees.
Context (from_f64_lossy : F64.f64 -> Z).
Local Abbreviation apply_factor := (Eth.apply_factor from_f64_lossy).
Definition ONE : F64.f64 := F64.of_Z 1.

Definition surplus_fee (surplus : Asset) (factor : F64.f64) : res Error Asset :=
  let* fee := ok_or (apply_factor (amount surplus) (F64.div factor (F64.sub ONE factor))) (Math Overflow) in
  Ok (mkAsset fee (token surplus)).

Definition volume_fee (self : Trade) (factor : F64.f64) : res Error Asset :=
  let* executed_in_surplus_token := map_err Math
    match s_side self with
    | Sell => mul_div (s_executed self) (custom_sell (custom_price self)) (custom_buy (custom_price self))
    | Buy => mul_div (s_executed self) (custom_buy (custom_price self)) (custom_sell (custom_price self))
    end in
  let factor :=
    match s_side self with
    | Sell => F64.div factor (F64.sub ONE factor)
    | Buy => F64.div factor (F64.add ONE factor)
    end in
  let* fee := ok_or (apply_factor executed_in_surplus_token factor) (Math Overflow) in
  Ok (mkAsset fee (surplus_token self)).

Definition protocol_fee (self : Trade) (policy : FeePolicy) : res Error Z :=
  match policy with
  | Surplus factor max_volume_factor =>
      let* surplus := surplus_over_limit_price self in
      let* s := surplus_fee surplus factor in
      let* v := volume_fee self max_volume_factor in
      Ok (Z.min (amount s) (amount v))
  | PriceImprovement factor max_volume_factor quote =>
      let* improvement := price_improvement self quote in
      let* s := surplus_fee improvement factor in
      let* v := volume_fee self max_volume_factor in
      Ok (Z.min (amount s) (amount v))
  | Volume factor => let* v := volume_fee self factor in Ok (amount v)
  end.

(** The loop over the policies from the last to the first; [amount += fee]
    panics on overflow. *)
Definition protocol_fees (self : Trade) : res Error Asset :=
  let* ' (_, total) := rfold (fun '(current_trade, total) '(i, policy) =>
      let* fee := protocol_fee current_trade policy in
      let* total := u_add total fee in
      if (i : nat) is O then Ok (current_trade, total)
      else
        let* p := map_err Math (calculate_custom_prices self total) in
        Ok (set_custom_price current_trade p, total))
    (self, 0) (rev (imap pair (policies self))) in
  Ok (mkAsset total (surplus_token self)).

Definition native (prices : gmap Z Z) (a : Asset) : res Error Z :=
  let* price := ok_or (prices !! token a) (MissingPrice (token a)) in
  Price.in_eth price (amount a).
Definition native_surplus (self : Trade) (prices : gmap Z Z) : res Error Z :=
  let* surplus := surplus_over_limit_price self in native prices surplus.
Definition native_protocol_fee (self : Trade) (prices : gmap Z Z) : res Error Z :=
  let* fee := protocol_fees self in native prices fee.
Definition trade_score (self : Trade) (prices : gmap Z Z) : res Error Z :=
  let* s := native_surplus self prices in
  let* f := native_protocol_fee self prices in
  u_add s f.

(** [Scoring::score]: the sum of the trades' scores. *)
Definition score (trades : list Trade) (prices : gmap Z Z) : res Error Z :=
  rfold (fun total trade => let* s := trade_score trade prices in u_add total s) 0 trades.
End fees.
End Scoring.
Import Scoring.

(** ** From a trade of the solution to a scored trade: the loop body of
    [Solution::scoring]; [executed + fee] panics on overflow. *)
Definition scored_executed {E} (t : Trade.Trade) : res E Z :=
  match Trade.trade_side t with
  | Sell => u_add (Trade.trade_executed t) (Trade.trade_fee t)
  | Buy => Ok (Trade.trade_executed t)
  end.
Definition scored_trade (t : Trade.Trade) (uniform_prices : ClearingPrices) : res MathError Scoring.Trade :=
  let* executed := scored_executed t in
  let* custom := Trade.trade_custom_prices t uniform_prices in
  Ok (mkTrade (Trade.trade_sell t) (Trade.trade_buy t) (Trade.trade_side t) executed custom
    (Trade.trade_protocol_fees t)).

(** * Properties *)

(** Scoring sees the amounts of the settlement: the custom clearing prices
    of a trade, together with the executed amount the scorer uses (for a sale
    with the fee), reproduce exactly what the user sells and gets, whenever
    something is traded and the products fit 256 bits; and the surplus is what
    the user gets beyond, or pays below, the limit scaled to the execution,
    a limit that is not met being an error. *)
Theorem scoring_reproduces_amounts (t : Trade.Trade) (p : ClearingPrices) (st : Scoring.Trade) (b s : Z) :
  Trade.trade_buy_amount t p = Ok b -> Trade.trade_sell_amount t p = Ok s ->
  0 <= Trade.trade_fee t -> 0 < b -> 0 < s -> b * s + (s - 1) <= U256_MAX ->
  scored_trade t p = Ok st ->
  buy_amount st = Ok b /\ sell_amount st = Ok s /\
  (Trade.trade_side t = Sell -> 0 < amount (Trade.trade_sell t) ->
   forall l, mul_ceil_div s (amount (Trade.trade_buy t)) (amount (Trade.trade_sell t)) = Ok l ->
     surplus_over_limit_price st =
       if l <=? b then Ok (mkAsset (b - l) (token (Trade.trade_buy t))) else Err (Math Negative)) /\
  (Trade.trade_side t = Buy ->
   forall l, mul_div (amount (Trade.trade_sell t)) b (amount (Trade.trade_buy t)) = Ok l ->
     surplus_over_limit_price st =
       if s <=? l then Ok (mkAsset (l - s) (token (Trade.trade_sell t))) else Err (Math Negative)).
Proof.
  intros Hb Hs Hfee Hb0 Hs0 Hm Hst. unfold scored_trade, Trade.trade_custom_prices in Hst.
  rewrite Hb, Hs in Hst. destruct (scored_executed t) as [e| |] eqn:He; [|done..]. injection Hst as <-.
  unfold scored_executed, Trade.trade_buy_amount, Trade.trade_sell_amount, bought, sold in *.
  unfold buy_amount, sell_amount, surplus_over_limit_price, surplus_over, surplus_token.
  cbn [s_side s_executed custom_price s_sell s_buy custom_sell custom_buy limit_sell limit_buy].
  destruct (Trade.trade_side t).
  - injection Hb as Hb. injection He as He. rewrite He in Hb. subst e.
    assert (Hmd : mul_div b s b = Ok s).
    { apply mul_div_Ok. split_and!; [|nia|lia]. by rewrite Z.mul_comm, Z.div_mul by lia. }
    rewrite Hmd. split_and!; [done|done|done|]. intros _ l ->. cbn [rbind].
    unfold checked_sub. by destruct (s <=? l).
  - cbn [rbind] in Hs. apply ok_or_Ok, checked_add_Some in Hs as [Hs _].
    apply u_add_Ok in He as [He _]. rewrite <- Hs in He. subst e.
    assert (Hmd : mul_ceil_div s b s = Ok b).
    { apply mul_ceil_div_Ok; [lia|]. split_and!; [|nia|lia|lia]. apply cdiv_unique; [lia|]. nia. }
    rewrite Hmd. split_and!; [done|done| |done]. intros _ _ l ->. cbn [rbind].
    unfold checked_sub. by destruct (l <=? b).
Qed.

Lemma surplus_token_of t s : surplus_over_limit_price t = Ok s -> token s = surplus_token t.
Proof. unfold surplus_over_limit_price, surplus_over. intros Hs. inv_ok. by apply res_map_Ok in Hs as (? & _ & <-). Qed.

Lemma native_Ok prices a n :
  native prices a = Ok n <-> exists p, prices !! token a = Some p /\ n = amount a * p / BASE /\ amount a * p <= U256_MAX.
Proof.
  unfold native, Price.in_eth. split.
  - intros Hn. inv_ok. apply u_mul_Ok in Hv0 as [-> ?]. apply u_div_Ok in Hn as [-> _]. eauto.
  - intros (p & -> & -> & Hm). cbn [ok_or rbind]. unfold u_mul, checked_mul.
    by rewrite (proj2 (Z.leb_le _ _)) by done.
Qed.

Section score_properties.
Context (from_f64_lossy : F64.f64 -> Z).

Lemma protocol_fees_token t f : protocol_fees from_f64_lossy t = Ok f -> token f = surplus_token t.
Proof.
  unfold protocol_fees. intros Hf. apply rbind_Ok in Hf as ([c total] & _ & Hf). by injection Hf as <-.
Qed.

(** The score is the sum over the trades: a solution is scored exactly when
    each trade meets its signed limit and has a reference price for its
    surplus token, nothing exceeding 256 bits; its score is then the sum over
    the trades of surplus and protocol fee, each valued at that price and
    rounded down. *)
Theorem score_sums_trades (trades : list Scoring.Trade) (prices : gmap Z Z) (total : Z) :
  score from_f64_lossy trades prices = Ok total <->
  exists scores,
    Forall2 (fun t n => exists surplus fees price,
      surplus_over_limit_price t = Ok surplus /\ protocol_fees from_f64_lossy t = Ok fees /\
      prices !! surplus_token t = Some price /\
      amount surplus * price <= U256_MAX /\ amount fees * price <= U256_MAX /\
      n = amount surplus * price / BASE + amount fees * price / BASE /\ n <= U256_MAX) trades scores /\
    (forall k, foldl Z.add 0 (take k scores) <= U256_MAX) /\ total = foldl Z.add 0 scores.
Proof.
  assert (Htrade : forall t n, trade_score from_f64_lossy t prices = Ok n <->
    exists surplus fees price,
      surplus_over_limit_price t = Ok surplus /\ protocol_fees from_f64_lossy t = Ok fees /\
      prices !! surplus_token t = Some price /\
      amount surplus * price <= U256_MAX /\ amount fees * price <= U256_MAX /\
      n = amount surplus * price / BASE + amount fees * price / BASE /\ n <= U256_MAX).
  { intros t n. unfold trade_score, native_surplus, native_protocol_fee. split.
    - intros Hn. inv_ok. apply u_add_Ok in Hn as [-> Hmax].
      apply native_Ok in Hv as (p1 & Hp1 & -> & Hm1). apply native_Ok in Hv0 as (p2 & Hp2 & -> & Hm2).
      rewrite (surplus_token_of _ _ Hv2) in Hp1.
      pose proof (protocol_fees_token _ _ Hv1) as Hft.
      rewrite Hft, Hp1 in Hp2. injection Hp2 as <-. by exists v2, v1, p1.
    - intros (s & f & p & Hs & Hf & Hp & Hm1 & Hm2 & -> & Hmax). rewrite Hs, Hf. cbn [rbind].
      pose proof (protocol_fees_token _ _ Hf) as Hft.
      assert (H1 : native prices s = Ok (amount s * p / BASE)).
      { apply native_Ok. exists p. by rewrite (surplus_token_of _ _ Hs). }
      assert (H2 : native prices f = Ok (amount f * p / BASE)) by (apply native_Ok; exists p; by rewrite Hft).
      rewrite H1, H2. cbn [rbind]. by apply u_add_Ok. }
  unfold score. assert (Hg : forall acc, acc <= U256_MAX ->
    rfold (fun total t => let* s := trade_score from_f64_lossy t prices in u_add total s) acc trades = Ok total <->
    exists scores, Forall2 (fun t n => trade_score from_f64_lossy t prices = Ok n) trades scores /\
      (forall k, foldl Z.add acc (take k scores) <= U256_MAX) /\ total = foldl Z.add acc scores).
  { clear Htrade. induction trades as [|t ts IH]; intros acc Hacc; cbn [rfold].
    - split.
      + intros [= <-]. exists []. split_and!; [constructor|by intros []|done].
      + intros (sc & Hf & _ & ->). by apply Forall2_nil_inv_l in Hf as ->.
    - rewrite rbind_Ok. split.
      + intros (acc' & Hstep & Hr). inv_ok. apply u_add_Ok in Hstep as [-> Hm].
        apply IH in Hr as (sc & Hf & Hk & ->); [|done].
        exists (v :: sc). split_and!; [by constructor| |done]. intros [|k]; cbn; [done|apply Hk].
      + intros (sc & Hf & Hk & ->). apply Forall2_cons_inv_l in Hf as (n & sc' & Hn & Hf & ->).
        pose proof (Hk 1%nat) as Hk1. cbn in Hk1. rewrite take_0 in Hk1. cbn in Hk1.
        exists (acc + n). split; [rewrite Hn; by apply u_add_Ok|]. apply IH; [done|].
        exists sc'. split_and!; [done| |done]. intros k. apply (Hk (S k)). }
  rewrite (Hg 0) by (unfold U256_MAX; lia). split; intros (sc & Hf & Hrest); exists sc; (split; [|done]);
    (eapply Forall2_impl; [exact Hf|]; intros t n; apply Htrade).
Qed.
End score_properties.

Section witnesses.
Let o := mkOrder 0 None 0 (mkAsset 1800 2) (mkAsset 1000 1) Sell Limit 0 No [] [] Erc20 BuyErc20
  (mkSignature PreSign [] 0) [].
Let t := Trade.TFulfillment (Fulfillment.mkFulfillment o 990 (Dynamic 10)).
Let p := mkClearingPrices 2 1.

Lemma scoring_reproduces_amounts_witness :
  exists st, scored_trade t p = Ok st /\ buy_amount st = Ok 1980 /\ sell_amount st = Ok 1000 /\
    surplus_over_limit_price st = Ok (mkAsset 180 2).
Proof.
  destruct (scored_trade t p) as [st| |] eqn:Hst; [|discriminate..]. exists st. split; [reflexivity|].
  destruct (scoring_reproduces_amounts t p st 1980 1000) as (Hb & Hs & Hl & _);
    [reflexivity|reflexivity|closed|lia|lia|closed|exact Hst|].
  split; [exact Hb|split; [exact Hs|]]. apply (Hl eq_refl ltac:(closed) 1800). reflexivity.
Defined.
End witnesses.
