(* ===== verification/Solution.v ===== *)
(** Solutions of the driver: crates/driver/src/domain/competition/solution/mod.rs
    and interaction.rs.

    A solver is known by the address of its account. Of indexed liquidity the
    model keeps the kind and the contract that is approved; HashMap iteration
    order, which the code leaves open, is that of [map_to_list]. Where several
    prices of a merge fail, the order decides which error is reported, and
    nothing else. *)
From Stdlib Require Import ZArith Lia QArith Qcanon.
From stdpp Require Import prelude gmap numbers sorting.
From S2P Require Import Prelude U256 Floats DriverOrder Trade Scoring.

Open Scope Z_scope.
Open Scope rust_scope.
Import Eth Order Fulfillment Trade.

(** ** interaction.rs *)
Module Interaction.
(** [liquidity::Kind], with the router or vault that is approved. *)
Inductive LiquidityKind : Type :=
| UniswapV2 (router : Z)
| UniswapV3 (router : Z)
| BalancerV2Stable (vault : Z)
| BalancerV2Weighted (vault : Z)
| Swapr (router : Z)
| ZeroEx (zeroex : Z).
Record Custom : Type := mkCustom {
  custom_target : Z;
  custom_value : Z;
  custom_call_data : list Init.Byte.byte;
  custom_allowances : list Allowance;
  custom_inputs : list Asset;
  custom_outputs : list Asset;
  custom_internalize : bool;
}.
Record LiquidityInteraction : Type := mkLiquidity {
  liquidity_kind : LiquidityKind;
  liquidity_input : Asset;
  liquidity_output : Asset;
  liquidity_internalize : bool;
}.
Inductive Interaction : Type :=
| ICustom (c : Custom)
| ILiquidity (l : LiquidityInteraction).

Definition internalize (self : Interaction) : bool :=
  match self with ICustom c => custom_internalize c | ILiquidity l => liquidity_internalize l end.
Definition inputs (self : Interaction) : list Asset :=
  match self with ICustom c => custom_inputs c | ILiquidity l => [liquidity_input l] end.
Definition outputs (self : Interaction) : list Asset :=
  match self with ICustom c => custom_outputs c | ILiquidity l => [liquidity_output l] end.
Definition allowances (self : Interaction) : list Allowance :=
  match self with
  | ICustom c => custom_allowances c
  | ILiquidity l =>
      let address :=
        match liquidity_kind l with
        | UniswapV2 a | UniswapV3 a | BalancerV2Stable a | BalancerV2Weighted a | Swapr a | ZeroEx a => a
        end in
      [mkAllowance (token (liquidity_input l)) address U256_MAX]
  end.
End Interaction.

(** [settlement::Internalization] *)
Inductive Internalization : Type := Enable | Disable.
(** [config::file::FeeHandler] *)
Inductive FeeHandler : Type := DriverHandles | SolverHandles.

Module Solution.
Inductive SolutionError : Type :=
| InvalidClearingPrices
| ProtocolFeeError (e : FeeError)
| InvalidJitTrade (e : TradeError).
Inductive ScoringError : Type :=
| ScoringInvalidClearingPrices
| ScoringMath (e : MathError)
| ScoringMissingPrice (token : Z).
Inductive MergeError : Type := Incompatible | DuplicateTrade | IncongruentPrices | MergeMath.

Inductive Id : Type := Single (id : Z) | Merged (ids : list Z).
#[global] Instance Id_eq_dec : EqDecision Id.
Proof. solve_decision. Defined.
Definition ids (self : Id) : list Z := match self with Single id => [id] | Merged ids => ids end.
Definition count_merges (self : Id) : nat := length (ids self).

Record Solution : Type := mkSolution {
  id : Id;
  trades : list Trade;
  prices : gmap Z Z;
  solution_pre_interactions : list Eth.Interaction;
  interactions : list Interaction.Interaction;
  solution_post_interactions : list Eth.Interaction;
  solver : Z;
  weth : Z;
  gas : option Z;
}.
Definition with_trades (self : Solution) (trades : list Trade) : Solution :=
  mkSolution (id self) trades (prices self) (solution_pre_interactions self) (interactions self)
    (solution_post_interactions self) (solver self) (weth self) (gas self).

Definition is_user_order (o : Order) : bool :=
  match kind o with Market | Limit => true | Liquidity => false end.
Definition user_trades (self : Solution) : list Fulfillment :=
  omap (fun t => match t with
                 | TFulfillment f => if is_user_order (order f) then Some f else None
                 | TJit _ => None
                 end) (trades self).
Definition clearing_price (self : Solution) (token : Z) : option Z :=
  prices self !! wrap token (weth self).

(** The order a surplus capturing just-in-time order is turned into. *)
Definition jit_as_order (j : Order.Jit) : Order :=
  mkOrder (jit_uid j) (Some (jit_receiver j)) (jit_valid_to j) (jit_buy j) (jit_sell j) (jit_side j)
    Limit (jit_app_data j) (partially_fillable j) [] []
    (jit_sell_token_balance j) (jit_buy_token_balance j) (jit_signature j) [].
Definition convert_jit (owners : gset Z) (t : Trade) : res SolutionError Trade :=
  match t with
  | TFulfillment _ => Ok t
  | TJit jit =>
      if bool_decide (signer (jit_signature (JitTrade.jit_order jit)) ∈ owners) then
        res_map TFulfillment (map_err InvalidJitTrade
          (Fulfillment.new (jit_as_order (JitTrade.jit_order jit)) (JitTrade.jit_executed jit)
            (Dynamic (JitTrade.jit_fee jit))))
      else Ok t
  end.

(** [solution.prices[&token.wrap(weth)]], which panics without a price. *)
Definition uniform_prices {E} (self : Solution) (sell_token buy_token : Z) : res E ClearingPrices :=
  let* sell := opt_expect (prices self !! wrap sell_token (weth self)) in
  let* buy := opt_expect (prices self !! wrap buy_token (weth self)) in
  Ok (mkClearingPrices sell buy).

Section fees.
Context (from_f64_lossy : F64.f64 -> Z).

Definition apply_fees (self : Solution) (t : Trade) : res SolutionError Trade :=
  match t with
  | TFulfillment f =>
      match kind (order f) with
      | Market | Limit =>
          let* prices := uniform_prices self (token (sell (order f))) (token (buy (order f))) in
          res_map TFulfillment (map_err ProtocolFeeError
            (ProtocolFee.with_protocol_fees from_f64_lossy f prices))
      | Liquidity => Ok t
      end
  | TJit _ => Ok t
  end.

(** [Solution::new], over the other fields of [self]. *)
Definition new (self : Solution) (fee_handler : FeeHandler) (owners : gset Z) : res SolutionError Solution :=
  let* converted := rmap (convert_jit owners) (trades self) in
  let solution := with_trades self converted in
  if existsb (fun f =>
       negb (bool_decide (is_Some (clearing_price solution (token (sell (order f)))))) ||
       negb (bool_decide (is_Some (clearing_price solution (token (buy (order f)))))))
       (user_trades solution)
  then Err InvalidClearingPrices
  else
    match fee_handler with
    | SolverHandles => Ok solution
    | DriverHandles =>
        let* trades := rmap (apply_fees solution) (trades solution) in
        Ok (with_trades solution trades)
    end.

Definition trade_count_for_scorable (t : Trade) (owners : gset Z) : bool :=
  match t with
  | TFulfillment f => is_user_order (order f)
  | TJit jit => bool_decide (signer (jit_signature (JitTrade.jit_order jit)) ∈ owners)
  end.
Definition is_empty (self : Solution) (owners : gset Z) : bool :=
  negb (existsb (fun t => trade_count_for_scorable t owners) (trades self)).

(** From [scoring::Error]. *)
Definition scoring_error (e : Scoring.Error) : ScoringError :=
  match e with Scoring.MissingPrice t => ScoringMissingPrice t | Scoring.Math e => ScoringMath e end.
Definition scoring_trade (self : Solution) (t : Trade) : res ScoringError Scoring.Trade :=
  let* _ := scored_executed t in
  let* sell := ok_or (clearing_price self (token (trade_sell t))) ScoringInvalidClearingPrices in
  let* buy := ok_or (clearing_price self (token (trade_buy t))) ScoringInvalidClearingPrices in
  map_err ScoringMath (scored_trade t (mkClearingPrices sell buy)).
Definition scoring (self : Solution) (native : gmap Z Z) (owners : gset Z) : res ScoringError Z :=
  let* trades := rmap (scoring_trade self)
    (filter (fun t => trade_count_for_scorable t owners = true) (trades self)) in
  map_err scoring_error (Scoring.score from_f64_lossy trades native).
End fees.

(** ** Merging *)
Definition scaling_factor {E} (first second : gmap Z Z) : res E (option Qc) :=
  let* factors := rmap (fun token =>
      let* first_price := opt_expect (first !! token) in
      let* second_price := opt_expect (second !! token) in
      big_rational_new first_price second_price)
    (elements (dom first ∩ dom second)) in
  Ok match remove_dups factors with
     | [] => Some 1%Qc
     | [f] => Some f
     | _ => None
     end.

(** The loop that scales the prices of the other solution into one's own. *)
Definition scale_prices (prices : gmap Z Z) (others : list (Z * Z)) (factor : Qc)
  : res MergeError (gmap Z Z) :=
  rfold (fun prices '(token, price) =>
    let* scaled := ok_or (big_rational_to_u256 (u256_to_big_rational price * factor)%Qc) MergeMath in
    match prices !! token with
    | Some p => if p =? scaled then Ok prices else Err IncongruentPrices
    | None => Ok (<[token := scaled]> prices)
    end) prices others.

Definition uids (self : Solution) : gset Z := list_to_set (map (fun f => uid (order f)) (user_trades self)).

(** [merge] calls itself with the arguments swapped; [None] without fuel. *)
Fixpoint merge_fuel (fuel : nat) (self other : Solution) : option (res MergeError Solution) :=
  match fuel with
  | O => None
  | S fuel =>
      if negb (solver self =? solver other) then Some (Err Incompatible)
      else if negb (bool_decide (uids self ∩ uids other = ∅)) then Some (Err DuplicateTrade)
      else
        match scaling_factor (prices self) (prices other) with
        | Panic => Some Panic
        | Err e => Some (Err e)
        | Ok None => Some (Err IncongruentPrices)
        | Ok (Some factor) =>
            if decide (factor < 1)%Qc then merge_fuel fuel other self
            else Some (
              let* prices := scale_prices (prices self) (map_to_list (prices other)) factor in
              let* gas :=
                match gas self, gas other with
                | Some g, Some g' => res_map Some (u_add g g')
                | Some g, None => Ok (Some g)
                | None, Some g => Ok (Some g)
                | None, None => Ok None
                end in
              Ok (mkSolution (Merged (ids (id self) ++ ids (id other)))
                (trades self ++ trades other) prices
                (solution_pre_interactions self ++ solution_pre_interactions other)
                (interactions self ++ interactions other)
                (solution_post_interactions self ++ solution_post_interactions other)
                (solver self) (weth self) gas))
        end
  end.
Definition merge (self other : Solution) : res MergeError Solution :=
  default Panic (merge_fuel 2 self other).

(** ** Allowances, clearing prices *)
Definition allowance_le (a b : Allowance) : Prop :=
  allowance_token a < allowance_token b \/
  (allowance_token a = allowance_token b /\
   (spender a < spender b \/ (spender a = spender b /\ allowed a <= allowed b))).
#[global] Instance allowance_le_dec : RelDecision allowance_le.
Proof. intros a b. unfold allowance_le. apply _. Defined.

(** The allowances asked for by the interactions that will be executed. *)
Definition required (self : Solution) (internalization : Internalization) : list Allowance :=
  concat (map (fun i =>
    if Interaction.internalize i && match internalization with Enable => true | Disable => false end
    then [] else Interaction.allowances i) (interactions self)).
Definition normalize (allowances : list Allowance) : gmap (Z * Z) Z :=
  foldl (fun m a => <[(allowance_token a, spender a) :=
    Z.min U256_MAX (default 0 (m !! (allowance_token a, spender a)) + allowed a)]> m) ∅ allowances.
Definition allowances (self : Solution) (internalization : Internalization) : list Allowance :=
  merge_sort allowance_le
    (map (fun '(token, spender, amount) => mkAllowance token spender amount)
      (map_to_list (normalize (required self internalization)))).
(** [approvals], over the allowances the node reports. *)
Definition approvals (self : Solution) (existing : Allowance -> Allowance)
    (internalization : Internalization) : list Allowance :=
  omap (fun required => approval required (existing required)) (allowances self internalization).

Definition clearing_prices {E} (self : Solution) : res E (list Asset) :=
  let prices_list := map (fun '(token, amount) => mkAsset amount token) (map_to_list (prices self)) in
  if existsb (fun f => buys_eth (order f)) (user_trades self) then
    let kept :=
      if forallb (fun f => negb (token (sell (order f)) =? weth self) &&
                           negb (token (buy (order f)) =? weth self)) (user_trades self)
      then filter (fun a => token a <> weth self) prices_list
      else prices_list in
    let* eth_price := opt_expect (prices self !! weth self) in
    Ok (kept ++ [mkAsset eth_price ETH_TOKEN])
  else Ok prices_list.

Definition revertable (self : Solution) : bool :=
  existsb (fun i => negb (Interaction.internalize i)) (interactions self) ||
  existsb (fun f => bool_decide (scheme (signature (order f)) = Eip1271)) (user_trades self).
End Solution.
Import Solution.

(** * Lemmas *)
Section user_trades_lemmas.
Implicit Types (s : Solution) (f : Fulfillment).

(** Every order of a user has its two clearing prices. *)
Definition priced s : Prop :=
  Forall (fun f => is_Some (clearing_price s (token (sell (order f)))) /\
                   is_Some (clearing_price s (token (buy (order f))))) (user_trades s).

Lemma elem_of_user_trades s f :
  f ∈ user_trades s <-> TFulfillment f ∈ trades s /\ is_user_order (order f) = true.
Proof.
  unfold user_trades. rewrite list_elem_of_omap. split.
  - intros ([g|j] & Hin & Hg); [|done]. destruct (is_user_order _) eqn:Hu; [|done]. by simplify_eq.
  - intros [Hin Hu]. exists (TFulfillment f). by rewrite Hu.
Qed.

Lemma user_trades_app ts ts' s :
  user_trades (with_trades s (ts ++ ts')) = user_trades (with_trades s ts) ++ user_trades (with_trades s ts').
Proof. unfold user_trades. apply omap_app. Qed.

Lemma priced_check s :
  existsb (fun f =>
       negb (bool_decide (is_Some (clearing_price s (token (sell (order f)))))) ||
       negb (bool_decide (is_Some (clearing_price s (token (buy (order f))))))) (user_trades s) = false ->
  priced s.
Proof.
  intros He. apply existsb_false in He. eapply Forall_impl; [exact He|]. intros f Hf. cbn in Hf.
  bool_to_prop. by case_bool_decide; case_bool_decide.
Qed.

(** What [new] makes of a trade. *)
Definition kept (owners : gset Z) (t t' : Trade) : Prop :=
  match t, t' with
  | TFulfillment f, TFulfillment f' => order f' = order f
  | TJit j, TJit j' => j' = j /\ signer (jit_signature (JitTrade.jit_order j)) ∉ owners
  | TJit j, TFulfillment f' =>
      order f' = jit_as_order (JitTrade.jit_order j) /\
      signer (jit_signature (JitTrade.jit_order j)) ∈ owners
  | TFulfillment _, TJit _ => False
  end.

Lemma convert_jit_kept owners t : returns (kept owners t) (convert_jit owners t).
Proof.
  unfold convert_jit. destruct t as [f|j]; [done|]. case_bool_decide; [|done].
  destruct (Fulfillment.new _ _ _) eqn:Hn; cbn; [|done|by apply new_never_panics in Hn].
  by apply new_Ok in Hn as (-> & _).
Qed.

(** Taking fees leaves the orders. *)
Definition same_order (t t' : Trade) : Prop :=
  match t, t' with
  | TFulfillment f, TFulfillment f' => order f' = order f
  | TJit j, TJit j' => j' = j
  | _, _ => False
  end.

Lemma apply_fees_same lossy s t :
  priced s -> t ∈ trades s -> returns (same_order t) (apply_fees lossy s t).
Proof.
  intros Hp Ht. unfold apply_fees. destruct t as [f|j]; [|done].
  assert (Huser : is_user_order (order f) = true ->
    returns (same_order (TFulfillment f))
      (let* prices := uniform_prices s (token (sell (order f))) (token (buy (order f))) in
      res_map TFulfillment (map_err ProtocolFeeError (ProtocolFee.with_protocol_fees lossy f prices)))).
  { intros Hu. unfold priced in Hp. rewrite Forall_forall in Hp.
    destruct (Hp f) as [[ps Hps] [pb Hpb]]; [by apply elem_of_user_trades|].
    unfold uniform_prices, clearing_price in *. rewrite Hps, Hpb. cbn [opt_expect rbind].
    pose proof (with_protocol_fees_keeps_order lossy f (mkClearingPrices ps pb)) as Hw.
    by destruct (ProtocolFee.with_protocol_fees _ _ _). }
  unfold is_user_order in Huser. destruct (kind (order f)); [by apply Huser..|done].
Qed.

Lemma same_order_priced s ts : Forall2 same_order (trades s) ts -> priced s -> priced (with_trades s ts).
Proof.
  unfold priced. rewrite !Forall_forall. intros Hs Hp f [Hf Hu]%elem_of_user_trades.
  apply list_elem_of_lookup in Hf as [i Hi]. cbn in Hi.
  destruct (Forall2_lookup_r _ _ _ _ _ Hs Hi) as (t & Ht & Hso). destruct t as [g|]; [|done].
  cbn in Hso. unfold clearing_price in *. cbn. rewrite Hso in Hu |- *. apply Hp.
  apply elem_of_user_trades. split; [|done]. by eapply list_elem_of_lookup_2.
Qed.
End user_trades_lemmas.

(** ** Scaling factors *)
Section scaling.
Implicit Types (a b : gmap Z Z) (f : Qc).

Lemma div_Qc (x y f : Qc) : y <> 0%Qc -> (x / y)%Qc = f <-> x = (f * y)%Qc.
Proof.
  intros Hy. split; [intros <-; unfold Qcdiv|intros ->; by apply Qcdiv_mult_l].
  by rewrite <- Qcmult_assoc, (Qcmult_comm _ y), Qcmult_inv_r, Qcmult_1_r.
Qed.

Lemma remove_dups_single {A} `{EqDecision A} (x : A) l :
  remove_dups l = [x] <-> l <> [] /\ Forall (fun y => y = x) l.
Proof.
  split.
  - intros H. split; [by intros ->|]. apply Forall_forall. intros y Hy.
    rewrite <- elem_of_remove_dups, H in Hy. by apply list_elem_of_singleton.
  - intros [Hne Hf]. induction Hf as [|y l -> Hf IH]; [done|]. cbn.
    destruct l as [|z l]; [done|]. rewrite IH by done.
    case_decide as Hin; [done|]. destruct Hin. apply Forall_cons in Hf as [-> _]. by left.
Qed.

(** The factor takes every common price of the second map to the first one's. *)
Lemma scaling_factor_Some {E} a b f :
  scaling_factor (E := E) a b = Ok (Some f) <->
  (forall t p q, a !! t = Some p -> b !! t = Some q -> q <> 0 /\ Qc_of_Z p = (f * Qc_of_Z q)%Qc) /\
  (dom a ## dom b -> f = 1%Qc).
Proof.
  unfold scaling_factor. set (l := elements (dom a ∩ dom b)).
  assert (Hl : forall t, t ∈ l <-> is_Some (a !! t) /\ is_Some (b !! t)).
  { intros t. unfold l. by rewrite elem_of_elements, elem_of_intersection, !elem_of_dom. }
  assert (Hdisj : dom a ## dom b <-> l = []).
  { unfold l. rewrite disjoint_intersection_L, elements_empty_iff, leibniz_equiv_iff. done. }
  assert (Hstep : forall t (g : Qc), (let* first_price := opt_expect (a !! t) in
      let* second_price := opt_expect (b !! t) in big_rational_new first_price second_price) = (Ok g : res E Qc) <->
    exists p q, a !! t = Some p /\ b !! t = Some q /\ q <> 0 /\ Qc_of_Z p = (g * Qc_of_Z q)%Qc).
  { intros t g. assert (Hq : forall q, q <> 0 -> Qc_of_Z q <> 0%Qc).
    { intros q Hq H0. apply Hq. apply Z2Qc_inj. by rewrite H0, Z2Qc_inj_0. }
    unfold big_rational_new. split.
    - intros H. inv_ok. destruct (Z.eqb_spec v0 0); [done|]. injection H as H.
      exists v, v0. split_and!; [done..|]. by apply div_Qc; [apply Hq|].
    - intros (p & q & -> & -> & Hq0 & Hp). cbn. destruct (Z.eqb_spec q 0); [done|]. f_equal.
      apply div_Qc; auto. }
  rewrite Hdisj. split.
  - intros H. apply rbind_Ok in H as (fs & Hfs & H). apply rmap_Ok in Hfs.
    destruct (remove_dups fs) as [|g [|]] eqn:Hr; simplify_eq.
    + assert (fs = []) as ->.
      { destruct fs as [|x fs]; [done|]. assert (Hx : x ∈ remove_dups (x :: fs)) by (rewrite elem_of_remove_dups; by left).
        rewrite Hr in Hx. by apply not_elem_of_nil in Hx. }
      apply Forall2_nil_inv_r in Hfs. split; [|done]. intros t p q Hp Hq.
      assert (Ht : t ∈ l) by (apply Hl; eauto). rewrite Hfs in Ht. by apply not_elem_of_nil in Ht.
    + apply remove_dups_single in Hr as [Hne Hall]. split.
      * intros t p q Hp Hq. assert (Ht : t ∈ l) by (apply Hl; eauto).
        apply list_elem_of_lookup in Ht as [i Hi].
        destruct (Forall2_lookup_l _ _ _ _ _ Hfs Hi) as (g & Hg & Hgt).
        apply Hstep in Hgt as (p' & q' & ? & ? & ? & ?). simplify_eq.
        rewrite Forall_forall in Hall. assert (g = f) as -> by (apply Hall; by eapply list_elem_of_lookup_2). done.
      * intros Hnil. rewrite Hnil in Hfs. by apply Forall2_nil_inv_l in Hfs.
  - intros [Hall H1]. assert (Hfs : Forall2 (fun t g => (let* first_price := opt_expect (a !! t) in
      let* second_price := opt_expect (b !! t) in big_rational_new first_price second_price) = (Ok g : res E Qc))
      l (map (fun _ => f) l)).
    { apply Forall2_fmap_r, Forall_Forall2_diag, Forall_forall. intros t Ht. cbn.
      apply Hl in Ht as [[p Hp] [q Hq]]. apply Hstep. exists p, q. by destruct (Hall t p q Hp Hq). }
    apply rmap_Ok in Hfs. rewrite Hfs. cbn [rbind]. f_equal. clear Hfs Hdisj.
    destruct l as [|t l'] eqn:El; [by rewrite H1|].
    assert (Hr : remove_dups (map (fun _ => f) (t :: l')) = [f]).
    { apply remove_dups_single. split; [done|]. apply Forall_fmap, Forall_true. done. }
    by rewrite Hr.
Qed.
End scaling.

(** ** Merging *)
Section merging.
Implicit Types (s m : Solution) (f : Qc).

(** Prices are unsigned. *)
Definition prices_unsigned (p : gmap Z Z) : Prop := forall t v, p !! t = Some v -> 0 <= v.

(** A factor below one is above one the other way round. *)
Lemma scaling_factor_flip {E} (a b : gmap Z Z) f g :
  prices_unsigned a -> prices_unsigned b ->
  scaling_factor (E := E) a b = Ok (Some f) -> (f < 1)%Qc ->
  scaling_factor (E := E) b a = Ok (Some g) -> ~ (g < 1)%Qc.
Proof.
  intros Ha Hb [Hf Hfd]%scaling_factor_Some Hlt [Hg _]%scaling_factor_Some.
  destruct (decide (dom a ∩ dom b = ∅)) as [Hd|Hnd]; [by rewrite Hfd in Hlt by set_solver|].
  assert (exists t p q, a !! t = Some p /\ b !! t = Some q) as (t & p & q & Hp & Hq).
  { apply set_choose_L in Hnd as [t Ht].
    apply elem_of_intersection in Ht as [[p ?]%elem_of_dom [q ?]%elem_of_dom]. eauto. }
  destruct (Hf t p q Hp Hq) as [Hq0 Hpf]. destruct (Hg t q p Hq Hp) as [Hp0 Hqg].
  specialize (Ha t p Hp). specialize (Hb t q Hq).
  assert (Hlt' : p < q).
  { apply Z2Qc_inj_lt. rewrite Hpf. rewrite <- (Qcmult_1_l (Qc_of_Z q)) at 2.
    apply Qcmult_lt_compat_r; [|done]. rewrite <- Z2Qc_inj_0. apply (Z2Qc_inj_lt 0 q). lia. }
  intros Hg1. assert (q < p); [|lia]. apply Z2Qc_inj_lt. rewrite Hqg.
  rewrite <- (Qcmult_1_l (Qc_of_Z p)) at 2. apply Qcmult_lt_compat_r; [|done].
  rewrite <- Z2Qc_inj_0. apply (Z2Qc_inj_lt 0 p). lia.
Qed.

Lemma scaling_factor_never_panics {E} (a b : gmap Z Z) :
  (forall t q, b !! t = Some q -> q <> 0) -> returns (fun _ => True) (scaling_factor (E := E) a b).
Proof.
  intros Hb. unfold scaling_factor. eapply (returns_bind (Forall (fun _ => True))); [|done].
  apply rmap_returns. intros t Ht.
  apply elem_of_elements, elem_of_intersection in Ht as [[p Hp]%elem_of_dom [q Hq]%elem_of_dom].
  rewrite Hp, Hq. cbn. unfold big_rational_new. destruct (Z.eqb_spec q 0) as [->|]; [|done].
  by destruct (Hb t 0 Hq).
Qed.

(** The scaling loop keeps one's own prices and adds the scaled ones. *)
Lemma scale_prices_Ok p others f p' :
  scale_prices p others f = Ok p' ->
  p ⊆ p' /\ dom p' = dom p ∪ list_to_set (map fst others) /\
  (forall t q, (t, q) ∈ others -> exists v,
     big_rational_to_u256 (u256_to_big_rational q * f)%Qc = Some v /\ p' !! t = Some v).
Proof.
  revert p. induction others as [|[t q] others IH]; intros p Hs; unfold scale_prices in Hs; cbn [rfold] in Hs.
  { injection Hs as <-. split_and!; [done|set_solver|]. by intros ? ? ?%not_elem_of_nil. }
  apply rbind_Ok in Hs as (p1 & Hs1 & Hs). inv_ok.
  assert (H1 : p ⊆ p1 /\ dom p1 = dom p ∪ {[t]} /\ p1 !! t = Some v).
  { destruct (p !! t) as [w|] eqn:Ht.
    - destruct (Z.eqb_spec w v) as [->|]; [|done]. injection Hs1 as <-. split_and!; [done| |done].
      apply elem_of_dom_2 in Ht. set_solver.
    - injection Hs1 as <-. split_and!; [by apply insert_subseteq|rewrite dom_insert_L; set_solver|].
      by rewrite lookup_insert_eq. }
  destruct H1 as (Hsub & Hdom & Hv1). destruct (IH p1 Hs) as (Hsub' & Hdom' & Hall).
  split_and!; [by trans p1|rewrite Hdom', Hdom; set_solver|].
  intros t' q' [[= -> ->]|Hin]%elem_of_cons; [|by apply Hall].
  exists v. split; [done|]. by eapply lookup_weaken.
Qed.

Lemma scale_prices_never_panics p others f : returns (fun _ => True) (scale_prices p others f).
Proof.
  unfold scale_prices. apply rfold_returns; [done|]. intros s [t q] _ _. by no_panic.
Qed.

(** What a merge that succeeds consists of. *)
Lemma merge_Ok a b m :
  merge a b = Ok m -> exists x y f,
    ((x = a /\ y = b) \/ (x = b /\ y = a)) /\
    solver x = solver y /\ uids x ## uids y /\
    scaling_factor (E := MergeError) (prices x) (prices y) = Ok (Some f) /\ ~ (f < 1)%Qc /\
    scale_prices (prices x) (map_to_list (prices y)) f = Ok (prices m) /\
    id m = Merged (ids (id x) ++ ids (id y)) /\ trades m = trades x ++ trades y /\
    interactions m = interactions x ++ interactions y /\ solver m = solver x /\ weth m = weth x /\
    gas m = union_with (fun g g' => Some (g + g')) (gas x) (gas y).
Proof.
  unfold merge.
  assert (Hone : forall k x y, merge_fuel (S k) x y = Some (Ok m) ->
    (exists f, scaling_factor (E := MergeError) (prices x) (prices y) = Ok (Some f) /\ (f < 1)%Qc /\
       merge_fuel k y x = Some (Ok m)) \/
    exists f, solver x = solver y /\ uids x ## uids y /\
      scaling_factor (E := MergeError) (prices x) (prices y) = Ok (Some f) /\ ~ (f < 1)%Qc /\
      scale_prices (prices x) (map_to_list (prices y)) f = Ok (prices m) /\
      id m = Merged (ids (id x) ++ ids (id y)) /\ trades m = trades x ++ trades y /\
      interactions m = interactions x ++ interactions y /\ solver m = solver x /\ weth m = weth x /\
      gas m = union_with (fun g g' => Some (g + g')) (gas x) (gas y)).
  { intros k x y Hm. cbn [merge_fuel] in Hm.
    destruct (Z.eqb_spec (solver x) (solver y)) as [Hsv|]; [|done]. cbn [negb] in Hm.
    case_bool_decide as Hu; [|done]. apply disjoint_intersection_L in Hu. cbn [negb] in Hm.
    destruct (scaling_factor _ _) as [[f|]| |] eqn:Hf; [|done..].
    destruct (decide (f < 1)%Qc) as [Hlt|Hge]; [left; by exists f|]. right. exists f.
    injection Hm as Hm. inv_ok. cbn. split_and!; try done.
    destruct (gas x), (gas y); inv_ok; try done. apply res_map_Ok in Hv0 as (g & Hg & <-).
    by apply u_add_Ok in Hg as [-> _]. }
  intros Hm. destruct (merge_fuel 2 a b) as [r|] eqn:Hr; [|done]. cbn in Hm. subst r.
  apply Hone in Hr as [(f & _ & _ & Hr)|(f & Hr)].
  - apply Hone in Hr as [(g & _ & _ & Hr)|(g & Hr)]; [done|]. exists b, a, g. split; [by right|done].
  - exists a, b, f. split; [by left|done].
Qed.

(** Without a zero price and an overflow of the gas nothing panics. *)
Lemma merge_never_panics a b :
  (forall t v, prices a !! t = Some v \/ prices b !! t = Some v -> v <> 0) ->
  default 0 (gas a) + default 0 (gas b) <= U256_MAX ->
  (exists r, merge_fuel 2 a b = Some r) -> merge a b <> Panic.
Proof.
  intros Hpos Hgas [r Hr]. unfold merge. rewrite Hr. cbn.
  assert (Hone : forall k x y r, (forall t v, prices x !! t = Some v \/ prices y !! t = Some v -> v <> 0) ->
    default 0 (gas x) + default 0 (gas y) <= U256_MAX ->
    (forall r', merge_fuel k y x = Some r' -> r' <> Panic) ->
    merge_fuel (S k) x y = Some r -> r <> Panic).
  { intros k x y r0 Hp Hg Hk. cbn [merge_fuel]. destruct (negb _); [by intros [= <-]|].
    destruct (negb _); [by intros [= <-]|].
    pose proof (scaling_factor_never_panics (E := MergeError) (prices x) (prices y)) as Hsf.
    destruct (scaling_factor _ _) as [[f|]| |]; [|by intros [= <-]..|].
    - destruct (decide (f < 1)%Qc); [apply Hk|]. intros [= <-].
      pose proof (scale_prices_never_panics (prices x) (map_to_list (prices y)) f) as Hsp.
      destruct (scale_prices _ _ _); [|done..]. cbn [rbind].
      destruct (gas x), (gas y); cbn in *; try done.
      unfold u_add, checked_add. by rewrite (proj2 (Z.leb_le _ _)).
    - destruct Hsf. eauto. }
  eapply (Hone 1%nat); [exact Hpos|exact Hgas| |exact Hr]. intros r'.
  apply (Hone 0%nat); [|lia|done]. intros t v [?|?]; eauto.
Qed.

(** The rounding of a scaled price. *)
Lemma big_rational_to_u256_floor (r : Qc) v :
  (0 <= r)%Qc -> big_rational_to_u256 r = Some v -> (Qc_of_Z v <= r)%Qc /\ (r < Qc_of_Z (v + 1))%Qc /\ u256 v.
Proof.
  intros Hr. unfold big_rational_to_u256, qc_numer, qc_denom, big_int_to_u256, big_uint_to_u256, u256_try_from.
  destruct (Z.eqb_spec (Zpos (Qden (this r))) 0) as [|_]; [done|]. intros Hv.
  assert (Hn : 0 <= Qnum (this r)).
  { pose proof Hr as Hr'. unfold Qcle, Qle in Hr'. cbn in Hr'. by rewrite Z.mul_1_r in Hr'. }
  rewrite Z.quot_div_nonneg in Hv by lia. set (n := Qnum _) in *. set (d := Zpos (Qden _)) in *.
  assert (Hd : 0 < d) by (unfold d; lia). pose proof (fdiv_spec n d Hd) as Hs.
  assert (Hq : 0 <= n / d) by (apply Z.div_pos; lia).
  revert Hv. repeat case_match; intros Hv; try done; bool_to_prop; simplify_eq; try lia.
  rewrite Z.abs_eq in * by lia.
  split_and!; [| |unfold u256; lia]; unfold Qcle, Qclt, Qle, Qlt; cbn; fold n; fold d; lia.
Qed.
End merging.

(** ** Allowances *)
Section allowances.

Definition spender_key (a : Allowance) : Z * Z := (allowance_token a, spender a).
(** The total asked for a token and a spender. *)
Definition asked (k : Z * Z) (l : list Allowance) : Z :=
  foldr (fun a total => if decide (spender_key a = k) then allowed a + total else total) 0 l.

#[export] Instance allowance_le_total : Total allowance_le.
Proof. intros a b. unfold allowance_le. lia. Qed.
#[export] Instance allowance_le_trans : Transitive allowance_le.
Proof. intros a b c. unfold allowance_le. lia. Qed.

Lemma asked_nonneg k l : Forall (fun a => 0 <= allowed a) l -> 0 <= asked k l.
Proof. unfold asked. induction 1; cbn; [done|]. case_decide; lia. Qed.

Lemma normalize_lookup (l : list Allowance) k : Forall (fun a => 0 <= allowed a) l ->
  normalize l !! k = if decide (k ∈ map spender_key l) then Some (Z.min U256_MAX (asked k l)) else None.
Proof.
  intros Hl. unfold normalize. set (step := fun (m : gmap (Z * Z) Z) a => _).
  assert (Hg : forall m, (forall v, m !! k = Some v -> 0 <= v <= U256_MAX) ->
    foldl step m l !! k = if decide (k ∈ map spender_key l)
      then Some (Z.min U256_MAX (default 0 (m !! k) + asked k l)) else m !! k).
  { induction Hl as [|a l Ha Hl IH]; intros m Hm; cbn [foldl map].
    { by rewrite decide_False by apply not_elem_of_nil. }
    assert (Hmk : 0 <= default 0 (m !! k) <= U256_MAX).
    { destruct (m !! k) as [v|] eqn:Hv; [by apply Hm|]. cbn. unfold U256_MAX. lia. }
    pose proof (asked_nonneg k l Hl) as Hn.
    rewrite IH; unfold step.
    - unfold asked at 2. cbn [foldr]. fold (asked k l). change (allowance_token a, spender a) with (spender_key a).
      destruct (decide (spender_key a = k)) as [<-|Hne].
      + rewrite lookup_insert_eq. cbn [default from_option Datatypes.id].
        rewrite (decide_True (P := spender_key a ∈ spender_key a :: _)) by left.
        case_decide as Hin.
        * f_equal. lia.
        * assert (asked (spender_key a) l = 0) as ->; [|f_equal; lia].
          unfold asked. clear -Hin. induction l as [|b l IH]; [done|]. cbn in *.
          apply not_elem_of_cons in Hin as [? ?]. rewrite decide_False by congruence. auto.
      + rewrite lookup_insert_ne by done.
        rewrite (decide_ext _ (k ∈ spender_key a :: map spender_key l)); [done|].
        rewrite elem_of_cons. naive_solver.
    - change (allowance_token a, spender a) with (spender_key a). intros v.
      destruct (decide (spender_key a = k)) as [<-|Hne].
      + rewrite lookup_insert_eq. intros [= <-]. unfold U256_MAX in *. lia.
      + rewrite lookup_insert_ne by done. apply Hm. }
  rewrite Hg by done. by rewrite lookup_empty.
Qed.
End allowances.

Lemma elem_of_price_list (p : gmap Z Z) a :
  a ∈ map (fun '(token, amount) => mkAsset amount token) (map_to_list p) <-> p !! token a = Some (amount a).
Proof.
  rewrite list_elem_of_fmap. split.
  - intros ([t v] & -> & Hin). by apply elem_of_map_to_list in Hin.
  - intros Hp. exists (token a, amount a). split; [by destruct a|]. by apply elem_of_map_to_list.
Qed.

Lemma NoDup_price_list (p : gmap Z Z) :
  NoDup (map token (map (fun '(token, amount) => mkAsset amount token) (map_to_list p))).
Proof.
  rewrite map_map. rewrite (map_ext _ fst) by (by intros []). apply NoDup_fst_map_to_list.
Qed.

(** * Properties *)
Section properties.

(** A solution the driver accepts can price its users: building a solution
    never panics, and one that is accepted has a clearing price for both
    tokens of every user trade; its trades are the given ones in order, with
    the same orders, where exactly the just-in-time orders of surplus
    capturing owners have become fulfillments of limit orders. *)
Theorem new_covers_user_trades (lossy : F64.f64 -> Z) (s : Solution) (h : FeeHandler) (owners : gset Z) :
  returns (fun s' => priced s' /\ prices s' = prices s /\ weth s' = weth s /\ id s' = id s /\
             interactions s' = interactions s /\ Forall2 (kept owners) (trades s) (trades s'))
    (new lossy s h owners).
Proof.
  unfold new. eapply returns_bind.
  { apply (rmap_returns2 (kept owners)). intros t _. apply convert_jit_kept. }
  intros ts Hts. cbn zeta. destruct (existsb _ _) eqn:He; [done|]. apply priced_check in He.
  destruct h; [|by cbn]. eapply returns_bind.
  { apply (rmap_returns2 same_order). intros t Ht. by apply apply_fees_same. }
  intros ts' Hts'. cbn [returns]. split; [by apply same_order_priced|]. cbn. split_and!; [done..|].
  eapply Forall2_chain; [exact Hts|exact Hts'|]. intros [f|j] [f1|j1] [f2|j2]; cbn; try done.
  - by intros -> ->.
  - by intros [-> ?] ->.
  - by intros [-> ?] ->.
Qed.

(** The price vector of a settlement is complete: when both tokens of every
    user trade have a clearing price, [clearing_prices] does not panic, every
    entry carries the clearing price of its token, and the bought token of
    every user trade, native ETH included, and every sold ERC20 token has an
    entry; there is one entry per token when solvers do not price ETH. *)
Theorem clearing_prices_cover (s : Solution) :
  priced s ->
  exists l, clearing_prices (E := unit) s = Ok l /\
    (forall a, a ∈ l -> token a <> ETH_TOKEN \/ prices s !! ETH_TOKEN = None ->
       clearing_price s (token a) = Some (amount a)) /\
    (forall f, f ∈ user_trades s -> token (buy (order f)) ∈ map token l /\
       (token (sell (order f)) <> ETH_TOKEN -> token (sell (order f)) ∈ map token l)) /\
    (prices s !! ETH_TOKEN = None -> NoDup (map token l)).
Proof.
  intros Hp. unfold priced in Hp. rewrite Forall_forall in Hp. unfold clearing_prices.
  set (pl := map _ (map_to_list (prices s))).
  assert (Hpl : forall a, a ∈ pl <-> prices s !! token a = Some (amount a)) by apply elem_of_price_list.
  assert (Hnd : NoDup (map token pl)) by apply NoDup_price_list.
  assert (Hcp : forall t, t <> ETH_TOKEN -> clearing_price s t = prices s !! t).
  { intros t Ht. unfold clearing_price, wrap. by destruct (Z.eqb_spec t ETH_TOKEN). }
  assert (Hin : forall t, t <> ETH_TOKEN -> is_Some (clearing_price s t) -> exists a, a ∈ pl /\ token a = t).
  { intros t Ht [v Hv]. rewrite Hcp in Hv by done. exists (mkAsset v t). by rewrite Hpl. }
  assert (Hpl' : forall a, a ∈ pl -> token a <> ETH_TOKEN \/ prices s !! ETH_TOKEN = None ->
    clearing_price s (token a) = Some (amount a)).
  { intros a Ha Hor. apply Hpl in Ha. rewrite Hcp; [done|]. intros Heq. rewrite Heq in *. by destruct Hor; simplify_eq. }
  destruct (existsb _ _) eqn:He.
  - apply existsb_exists in He as (f0 & Hf0%list_elem_of_In & Hb). unfold buys_eth in Hb. apply Z.eqb_eq in Hb.
    assert (Hw : clearing_price s ETH_TOKEN = prices s !! weth s).
    { unfold clearing_price, wrap. by rewrite Z.eqb_refl. }
    destruct (Hp f0 Hf0) as [_ [pw Hpw]]. rewrite Hb, Hw in Hpw. rewrite Hpw. cbn [opt_expect rbind].
    set (kept := if forallb _ _ then _ else _).
    assert (Hsub : kept `sublist_of` pl) by (unfold kept; case_match; [apply sublist_filter|done]).
    assert (Hincl : forall a, a ∈ kept -> a ∈ pl).
    { unfold kept. intros a. case_match; [|done]. by intros [_ ?]%list_elem_of_filter. }
    assert (Hkept : forall t f, f ∈ user_trades s -> t = token (sell (order f)) \/ t = token (buy (order f)) ->
      t <> ETH_TOKEN -> t ∈ map token kept).
    { intros t f Hf Ht Hne. destruct (Hin t Hne) as (a & Ha & Hta); [by destruct (Hp f Hf), Ht; subst t|].
      apply list_elem_of_fmap. exists a. split; [done|]. unfold kept.
      destruct (forallb _ _) eqn:Hall; [|done]. apply list_elem_of_filter. split; [|done].
      rewrite forallb_forall in Hall. specialize (Hall f (proj1 (list_elem_of_In _ _) Hf)).
      bool_to_prop. destruct Ht; congruence. }
    eexists. split; [done|]. split_and!.
    + intros a [Ha|Ha%list_elem_of_singleton]%elem_of_app.
      * by apply Hpl', Hincl.
      * subst a. intros _. cbn [token amount]. by rewrite Hw.
    + intros f Hf. rewrite map_app. cbn [map token]. split.
      * apply elem_of_app. destruct (decide (token (buy (order f)) = ETH_TOKEN)) as [Hn|Hn].
        -- right. rewrite Hn. by apply list_elem_of_singleton.
        -- left. apply (Hkept _ f); auto.
      * intros Hne. apply elem_of_app. left. apply (Hkept _ f); auto.
    + intros Hno. rewrite map_app. apply NoDup_app. split_and!.
      * clearbody kept. eapply sublist_NoDup; [exact Hnd|].
        clear -Hsub. induction Hsub; cbn; by constructor.
      * intros t Ht Heq%list_elem_of_singleton. subst t.
        apply list_elem_of_fmap in Ht as (a & Hta & Ha). apply Hincl, Hpl in Ha. rewrite <- Hta in Ha. cbn in Ha. by simplify_eq.
      * apply NoDup_singleton.
  - apply existsb_false in He. rewrite Forall_forall in He. exists pl. split_and!; [done|done| |done].
    intros f Hf. destruct (Hp f Hf) as [Hs Hb]. specialize (He f Hf). cbn in He. unfold buys_eth in He. bool_to_prop.
    split; [|intros Hne]; apply list_elem_of_fmap.
    + destruct (Hin _ He Hb) as (a & ? & <-). eauto.
    + destruct (Hin _ Hne Hs) as (a & ? & <-). eauto.
Qed.

(** C38: merging ends: [merge] calls itself with the arguments swapped at most
    once, since a scaling factor below one is above one the other way round;
    more calls allowed give the same result. And when prices are positive and
    the gas of the two solutions adds up within 256 bits, merging does not
    panic. *)
Theorem merge_terminates (s s' : Solution) :
  prices_unsigned (prices s) -> prices_unsigned (prices s') ->
  (forall n, merge_fuel (2 + n) s s' = Some (merge s s')) /\
  ((forall t v, prices s !! t = Some v \/ prices s' !! t = Some v -> 0 < v) ->
   default 0 (gas s) + default 0 (gas s') <= U256_MAX -> merge s s' <> Panic).
Proof.
  intros Hu Hu'.
  (* One call, given that a second one would not call itself again. *)
  assert (Hone : forall k x y f, scaling_factor (E := MergeError) (prices y) (prices x) = Ok (Some f) ->
    (f < 1)%Qc -> prices_unsigned (prices x) -> prices_unsigned (prices y) ->
    merge_fuel (S k) x y = merge_fuel 1 x y /\ exists r, merge_fuel 1 x y = Some r).
  { intros k x y f Hf Hlt Hx Hy. cbn [merge_fuel].
    destruct (negb _); [by split; [|eexists]|]. destruct (negb _); [by split; [|eexists]|].
    destruct (scaling_factor (prices x) (prices y)) as [[g|]| |] eqn:Hg; [|by split; [|eexists]..].
    destruct (decide (g < 1)%Qc) as [Hc|]; [|by split; [|eexists]].
    by destruct (scaling_factor_flip (prices y) (prices x) f g Hy Hx Hf Hlt Hg). }
  assert (Htwo : forall n, merge_fuel (2 + n) s s' = merge_fuel 2 s s' /\ exists r, merge_fuel 2 s s' = Some r).
  { intros n. change (2 + n)%nat with (S (S n)). cbn [merge_fuel].
    destruct (negb _); [by split; [|eexists]|]. destruct (negb _); [by split; [|eexists]|].
    destruct (scaling_factor (prices s) (prices s')) as [[f|]| |] eqn:Hf; [|by split; [|eexists]..].
    destruct (decide (f < 1)%Qc) as [Hlt|]; [|by split; [|eexists]].
    exact (Hone n s' s f Hf Hlt Hu' Hu). }
  split.
  - intros n. unfold merge. destruct (Htwo n) as [-> [r ->]]. done.
  - intros Hpos Hgas. apply merge_never_panics; [|done|by destruct (Htwo 0%nat)].
    intros t v Hv. specialize (Hpos t v Hv). lia.
Qed.

(** Merged prices are the same prices: the prices of one of the two
    solutions stay and those of the other are scaled up to them by one factor,
    of at least one, rounded down; a token both price scales to exactly the
    price that stays. Trades, interactions and ids are put together. *)
Theorem merge_scales_prices (s s' m : Solution) :
  prices_unsigned (prices s) -> prices_unsigned (prices s') ->
  merge s s' = Ok m ->
  exists x y f,
    ((x = s /\ y = s') \/ (x = s' /\ y = s)) /\ (1 <= f)%Qc /\ solver x = solver y /\
    dom (prices m) = dom (prices x) ∪ dom (prices y) /\
    (forall t p, prices x !! t = Some p -> prices m !! t = Some p) /\
    (forall t q, prices y !! t = Some q -> exists p, prices m !! t = Some p /\
       (Qc_of_Z p <= f * Qc_of_Z q)%Qc /\ (f * Qc_of_Z q < Qc_of_Z (p + 1))%Qc /\
       (t ∈ dom (prices x) -> Qc_of_Z p = (f * Qc_of_Z q)%Qc)) /\
    trades m = trades x ++ trades y /\ interactions m = interactions x ++ interactions y /\
    id m = Merged (ids (id x) ++ ids (id y)).
Proof.
  intros Hu Hu' (x & y & f & Hxy & Hsv & _ & Hf & Hge & Hsc & Hid & Htr & Hint & _)%merge_Ok.
  apply Qcnot_lt_le in Hge. exists x, y, f.
  assert (Hy : prices_unsigned (prices y)) by (by destruct Hxy as [[_ ->]|[_ ->]]).
  apply scale_prices_Ok in Hsc as (Hsub & Hdom & Hall). apply scaling_factor_Some in Hf as [Hf _].
  assert (Hkey : list_to_set (map fst (map_to_list (prices y))) = dom (prices y)).
  { apply set_eq. intros t. rewrite elem_of_list_to_set, list_elem_of_fmap, elem_of_dom. split.
    - intros ([t' v] & -> & Hin%elem_of_map_to_list). by eexists.
    - intros [v Hv]. exists (t, v). by rewrite elem_of_map_to_list. }
  split_and!; try done.
  - by rewrite Hdom, Hkey.
  - intros t p Hp. by eapply lookup_weaken.
  - intros t q Hq. destruct (Hall t q) as (p & Hp & Hm); [by apply elem_of_map_to_list|].
    exists p. rewrite (Qcmult_comm f). apply big_rational_to_u256_floor in Hp as (Hle & Hlt & _).
    + split_and!; [done..|]. intros [p' Hp']%elem_of_dom. destruct (Hf t p' q Hp' Hq) as [_ Hex].
      assert (p' = p) as <- by (eapply lookup_weaken in Hp'; [|exact Hsub]; by simplify_eq).
      by rewrite Hex, Qcmult_comm.
    + unfold u256_to_big_rational. pose proof (Qcmult_le_compat_r 0%Qc (Qc_of_Z q) f) as Hmono.
      rewrite Qcmult_0_l in Hmono. apply Hmono.
      * rewrite <- Z2Qc_inj_0. exact (proj1 (Z2Qc_inj_le 0 q) (Hy t q Hq)).
      * apply (Qcle_trans _ 1%Qc); [by compute|done].
Qed.

(** Merging keeps what [new] established, and settles no order twice: in a
    merge of two solutions for one chain every user trade still has its
    clearing prices, the user trades are those of both, and their orders are
    distinct when they were distinct in each. *)
Theorem merge_settles_once (s s' m : Solution) :
  priced s -> priced s' -> weth s = weth s' -> merge s s' = Ok m ->
  priced m /\ weth m = weth s /\ Permutation (user_trades m) (user_trades s ++ user_trades s') /\
  (NoDup (map (fun f => uid (order f)) (user_trades s)) ->
   NoDup (map (fun f => uid (order f)) (user_trades s')) ->
   NoDup (map (fun f => uid (order f)) (user_trades m))).
Proof.
  intros Hp Hp' Hw (x & y & f & Hxy & _ & Hdisj & _ & _ & Hsc & _ & Htr & _ & _ & Hwm & _)%merge_Ok.
  apply scale_prices_Ok in Hsc as (Hsub & _ & Hall).
  assert (Hwx : weth x = weth s /\ weth y = weth s) by (destruct Hxy as [[-> ->]|[-> ->]]; split; congruence).
  assert (Hpx : priced x /\ priced y) by (destruct Hxy as [[-> ->]|[-> ->]]; done).
  assert (Hut : user_trades m = user_trades x ++ user_trades y).
  { unfold user_trades. rewrite Htr. apply omap_app. }
  assert (Hcp : forall t, is_Some (clearing_price x t) \/ is_Some (clearing_price y t) -> is_Some (clearing_price m t)).
  { unfold clearing_price. rewrite Hwm, (proj1 Hwx), (proj2 Hwx). intros t [[v Hv]|[v Hv]].
    - exists v. by eapply lookup_weaken.
    - destruct (Hall (wrap t (weth s)) v) as (p & _ & Hm); [by apply elem_of_map_to_list|]. by exists p. }
  split_and!.
  - destruct Hpx as [Hx Hy]. unfold priced. rewrite Hut. apply Forall_app.
    split; [eapply Forall_impl; [exact Hx|]|eapply Forall_impl; [exact Hy|]]; intros g [? ?]; split; apply Hcp; auto.
  - by rewrite Hwm, (proj1 Hwx).
  - rewrite Hut. destruct Hxy as [[-> ->]|[-> ->]]; [done|]. apply Permutation_app_comm.
  - intros Hn Hn'. rewrite Hut, map_app. apply NoDup_app. unfold uids in Hdisj.
    split_and!; [by destruct Hxy as [[-> _]|[-> _]]| |by destruct Hxy as [[_ ->]|[_ ->]]].
    intros u Hux Huy. apply (Hdisj u); by apply elem_of_list_to_set.
Qed.

(** The settlement approves what its interactions need, once: the
    allowances are sorted, there is one for each token and spender that some
    interaction which will be executed asks for, and its amount is the sum of
    what they ask for, capped at the largest amount there is; internalized
    interactions count only when internalization is disabled. *)
Theorem allowances_cover (s : Solution) (i : Internalization) :
  Forall (fun a => 0 <= allowed a) (required s i) ->
  StronglySorted allowance_le (allowances s i) /\
  NoDup (map spender_key (allowances s i)) /\
  (forall a, a ∈ allowances s i <->
     spender_key a ∈ map spender_key (required s i) /\
     allowed a = Z.min U256_MAX (asked (spender_key a) (required s i))) /\
  (forall j, j ∈ interactions s -> Interaction.internalize j = false \/ i = Disable ->
     forall r, r ∈ Interaction.allowances j -> r ∈ required s i).
Proof.
  intros Hn. unfold allowances. set (l := map _ (map_to_list _)).
  assert (Hl : forall a, a ∈ l <-> normalize (required s i) !! spender_key a = Some (allowed a)).
  { intros a. unfold l. rewrite list_elem_of_fmap. split.
    - intros ([[t sp] v] & -> & Hin). by apply elem_of_map_to_list in Hin.
    - intros Ha. exists (spender_key a, allowed a). split; [by destruct a|]. by apply elem_of_map_to_list. }
  assert (Hperm : Permutation (merge_sort allowance_le l) l) by apply merge_sort_Permutation.
  split_and!.
  - apply Sorted_StronglySorted; [apply _|]. apply Sorted_merge_sort. apply _.
  - rewrite Hperm. unfold l. rewrite map_map. rewrite (map_ext _ fst) by (intros [[] ?]; done).
    apply NoDup_fst_map_to_list.
  - intros a. rewrite Hperm, Hl, normalize_lookup by done. case_decide as Hk.
    + split; [|by intros [_ ->]]. intros [= He]. by rewrite He.
    + split; [done|]. by intros [? _].
  - intros j Hj Hex r Hr. unfold required. apply list_elem_of_In, in_concat. exists (Interaction.allowances j). split; [|by apply list_elem_of_In].
    apply list_elem_of_In, list_elem_of_fmap. exists j. split; [|done].
    destruct Hex as [-> | ->]; [done|]. by rewrite andb_false_r.
Qed.
End properties.

Section witnesses.
Let f (u buy_token : Z) : Fulfillment :=
  mkFulfillment (mkOrder u None 0 (mkAsset 900 buy_token) (mkAsset 1000 1) Sell Limit 0 No [] [] Erc20 BuyErc20
    (mkSignature PreSign [] 0) []) 990 (Dynamic 10).
Let uniswap : Interaction.Interaction :=
  Interaction.ILiquidity (Interaction.mkLiquidity (Interaction.UniswapV2 9) (mkAsset 990 1) (mkAsset 1900 7) false).
Let s1 : Solution :=
  mkSolution (Single 1) [TFulfillment (f 1 ETH_TOKEN)] {[1 := 2; 7 := 1]} [] [uniswap] [] 5 7 (Some 100).
Let s2 : Solution :=
  mkSolution (Single 2) [TFulfillment (f 2 3)] {[1 := 1; 3 := 5]} [] [uniswap] [] 5 7 None.
Let m : Solution :=
  mkSolution (Merged [1; 2]) [TFulfillment (f 1 ETH_TOKEN); TFulfillment (f 2 3)] {[1 := 2; 7 := 1; 3 := 10]}
    [] [uniswap; uniswap] [] 5 7 (Some 100).

Local Lemma s1_priced : priced s1.
Proof. repeat constructor; by eexists. Qed.
Local Lemma s2_priced : priced s2.
Proof. repeat constructor; by eexists. Qed.
Local Lemma unsigned_example (l : list (Z * Z)) :
  Forall (fun tv => 0 <= tv.2) l -> prices_unsigned (list_to_map l).
Proof.
  intros Hl t v Hv. apply elem_of_list_to_map_2 in Hv. by apply (Forall_elem _ _ _ Hl) in Hv.
Qed.
Local Lemma s1_unsigned : prices_unsigned (prices s1).
Proof. apply (unsigned_example [(1, 2); (7, 1)]). by repeat constructor. Qed.
Local Lemma s2_unsigned : prices_unsigned (prices s2).
Proof. apply (unsigned_example [(1, 1); (3, 5)]). by repeat constructor. Qed.
(** The smaller scale is the other way round: [merge] calls itself once. *)
Local Lemma merge_example : merge s2 s1 = Ok m.
Proof. vm_compute. reflexivity. Qed.

(** Two prices of zero for a common token: [BigRational::new] divides by zero. *)
Example merge_panics_on_zero_price :
  let z := mkSolution (Single 3) [] {[1 := 0]} [] [] [] 5 7 None in merge z z = Panic.
Proof. vm_compute. reflexivity. Qed.

Lemma clearing_prices_cover_witness :
  exists l, clearing_prices (E := unit) s1 = Ok l /\ ETH_TOKEN ∈ map token l /\ 1 ∈ map token l.
Proof.
  destruct (clearing_prices_cover s1 s1_priced) as (l & Hl & _ & Hall & _). exists l.
  destruct (Hall (f 1 ETH_TOKEN)) as [Hb Hs]; [apply list_elem_of_here|].
  split; [exact Hl|split; [exact Hb|apply Hs; discriminate]].
Defined.

Lemma merge_terminates_witness : merge_fuel 7 s2 s1 = Some (Ok m) /\ merge s2 s1 <> Panic.
Proof.
  destruct (merge_terminates s2 s1 s2_unsigned s1_unsigned) as [Ht Hp]. split.
  - exact (eq_trans (Ht 5%nat) (f_equal Some merge_example)).
  - rewrite merge_example. discriminate.
Defined.

Lemma merge_scales_prices_witness :
  exists f, (1 <= f)%Qc /\ prices m !! 3 = Some 10 /\ (Qc_of_Z 10 <= f * Qc_of_Z 5)%Qc.
Proof.
  destruct (merge_scales_prices s2 s1 m s2_unsigned s1_unsigned merge_example)
    as (x & y & g & Hxy & Hg & _ & _ & _ & Hq & Ht & _).
  destruct Hxy as [[-> ->]|[-> ->]]; [discriminate Ht|].
  exists g. split; [exact Hg|split; [reflexivity|]].
  destruct (Hq 3 5 eq_refl) as (p & Hp & Hle & _).
  assert (Hp10 : p = 10) by (apply (f_equal (default 0)) in Hp; symmetry; exact Hp).
  rewrite Hp10 in Hle. exact Hle.
Defined.

Lemma merge_settles_once_witness : priced m /\ NoDup (map (fun f => uid (order f)) (user_trades m)).
Proof.
  destruct (merge_settles_once s2 s1 m s2_priced s1_priced eq_refl merge_example) as (Hp & _ & _ & Hn).
  split; [exact Hp|]. apply Hn; apply NoDup_singleton.
Defined.

Lemma allowances_cover_witness : mkAllowance 1 9 U256_MAX ∈ allowances m Enable.
Proof.
  destruct (allowances_cover m Enable) as (_ & _ & Hall & _).
  - repeat constructor; closed.
  - apply Hall. split; [apply list_elem_of_here|]. vm_compute. reflexivity.
Defined.
End witnesses.
