(* ===== verification/Encoding.v ===== *)
(** From a solution to the transaction that settles it:
    crates/driver/src/domain/competition/solution/encoding.rs and slippage.rs.

    The contract bindings are parameters: [settle], the call data of the
    settlement contract for given arguments, [withdraw], that of WETH, and
    [swap], the interaction that executes indexed liquidity for a maximal input
    and an exact output (the pools' code ends in the bindings of their
    contracts). *)
From Stdlib Require Import ZArith Lia QArith Qcanon.
From Stdlib Require Strings.Byte.
From stdpp Require Import prelude gmap numbers.
From S2P Require Import Prelude U256 Bytes Floats DriverOrder Trade Scoring Solution.

Open Scope Z_scope.
Open Scope rust_scope.
Import Eth Order Fulfillment Trade.

(** ** slippage.rs *)
Module Slippage.
Record Parameters : Type := mkParameters {
  relative : Qc;
  max : option Z;
  min : option Z;
  prices : gmap Z Z;
}.
Record Interaction : Type := mkInteraction { input : Asset; output : Asset }.

(** [num::clamp] *)
Definition clamp (input min max : Z) : Z :=
  if input <? min then min else if max <? input then max else input.

(** The relative slippage of an amount of ether, or of a token, and its caps. *)
Definition relative_slippage (self : Parameters) (amount : Z) : res MathError Z :=
  ok_or (big_rational_to_u256 (u256_to_big_rational amount * relative self)%Qc) DivisionByZero.
Definition capped_slippage (self : Parameters) (amount : Z) : res MathError Z :=
  let* relative := relative_slippage self amount in
  Ok (clamp relative (default 0 (min self)) (default U256_MAX (max self))).

Definition slippage (self : Parameters) (interaction : Interaction) : res MathError Z :=
  match prices self !! token (input interaction) with
  | Some price =>
      let* amount := Price.in_eth price (amount (input interaction)) in
      let* slippage := capped_slippage self amount in
      Price.from_eth price slippage
  | None =>
      match prices self !! token (output interaction) with
      | Some price =>
          let* value := Price.in_eth price (amount (output interaction)) in
          let* slippage := capped_slippage self value in
          let* slippage := Price.from_eth price slippage in
          mul_div slippage (amount (input interaction)) (amount (output interaction))
      | None => relative_slippage self (amount (input interaction))
      end
  end.
(** The maximal input and the exact output. *)
Definition apply_to (self : Parameters) (interaction : Interaction) : res MathError (Asset * Asset) :=
  let* slippage := slippage self interaction in
  let* max_input := u_add (amount (input interaction)) slippage in
  Ok (mkAsset max_input (token (input interaction)), output interaction).
End Slippage.

(** ** encoding.rs *)
Module Encoding.
Inductive Error : Type :=
| InvalidInteractionExecution (l : Interaction.LiquidityInteraction)
| MissingAuctionId
| InvalidClearingPrice (token : Z)
| EncodingMath (e : MathError).

Record Flags : Type := mkFlags {
  flags_side : Side;
  partially_fillable : bool;
  signing_scheme : Scheme;
  flags_sell_token_balance : SellTokenBalance;
  flags_buy_token_balance : BuyTokenBalance;
}.
Record Price : Type := mkPrice { sell_token : Z; sell_price : Z; buy_token : Z; buy_price : Z }.
Record Trade : Type := mkTrade {
  sell_token_index : Z;
  buy_token_index : Z;
  receiver : Z;
  limit_sell_amount : Z;
  limit_buy_amount : Z;
  trade_valid_to : Z;
  trade_app_data : Z;
  fee_amount : Z;
  trade_flags : Flags;
  executed_amount : Z;
  trade_signature : list byte;
}.
Definition set_indices (self : Trade) (sell_index buy_index : Z) : Trade :=
  mkTrade sell_index buy_index (receiver self) (limit_sell_amount self) (limit_buy_amount self)
    (trade_valid_to self) (trade_app_data self) (fee_amount self) (trade_flags self)
    (executed_amount self) (trade_signature self).

(** [codec::flags]: a byte; [|=] of the fields shifted to their positions. *)
Definition flags (f : Flags) : Z :=
  Z.lor (Z.lor (Z.lor (Z.lor
    (match flags_side f with Sell => 0 | Buy => 1 end)
    (Z.shiftl (if partially_fillable f then 1 else 0) 1))
    (Z.shiftl (match flags_sell_token_balance f with Erc20 => 0 | External => 2 | Internal => 3 end) 2))
    (Z.shiftl (match flags_buy_token_balance f with BuyErc20 => 0 | BuyInternal => 1 end) 4))
    (Z.shiftl (match signing_scheme f with Eip712 => 0 | EthSign => 1 | Eip1271 => 2 | PreSign => 3 end) 5).
(** [codec::signature] *)
Definition signature (s : Signature) : list byte :=
  match scheme s with
  | Eip712 | EthSign => sig_data s
  | Eip1271 => be_bytes 20 (signer s) ++ sig_data s
  | PreSign => be_bytes 20 (signer s)
  end.

Definition approve (allowance : Allowance) : Eth.Interaction :=
  mkInteraction (allowance_token allowance) 0
    (be_bytes 4 0x095ea7b3 ++ repeat Byte.x00 12 ++ be_bytes 20 (spender allowance) ++
     be_bytes 32 (allowed allowance)).

(** The arguments of the settlement, and the transaction. *)
Record Settlement : Type := mkSettlement {
  tokens : list Z;
  clearing_prices : list Z;
  trades : list Trade;
  pre : list Eth.Interaction;
  main : list Eth.Interaction;
  post : list Eth.Interaction;
}.
Record Tx : Type := mkTx {
  from : Z;
  to : Z;
  tx_value : Z;
  tx_input : list byte;
  tx_access_list : gmap Z (gset Z);
}.
Definition set_access_list (self : Tx) (access_list : gmap Z (gset Z)) : Tx :=
  mkTx (from self) (to self) (tx_value self) (tx_input self) access_list.

(** [sorted_by_cached_key(|asset| asset.token)], stable. *)
Fixpoint insert_by_token (a : Asset) (l : list Asset) : list Asset :=
  match l with
  | [] => [a]
  | b :: l => if token a <=? token b then a :: b :: l else b :: insert_by_token a l
  end.
Definition sort_by_token (l : list Asset) : list Asset := foldr insert_by_token [] l.

(** The body of the loop over the trades: prices and trade of one. *)
Definition encode_fulfillment (s : Solution.Solution) (trade : Fulfillment) (native_unwrap : Z)
  : res Error (Price * Trade * Z) :=
  let o := order trade in
  let* sell_price := ok_or (Solution.clearing_price s (token (sell o))) (InvalidClearingPrice (token (sell o))) in
  let* buy_price := ok_or (Solution.clearing_price s (token (buy o))) (InvalidClearingPrice (token (buy o))) in
  let uniform_prices := mkClearingPrices sell_price buy_price in
  let* native_unwrap :=
    if token (buy o) =? ETH_TOKEN then
      let* bought := map_err EncodingMath (buy_amount trade uniform_prices) in
      u_add native_unwrap bought
    else Ok native_unwrap in
  let* custom := map_err EncodingMath (custom_prices trade uniform_prices) in
  let* executed :=
    match side o with
    | Sell => u_add (executed trade) (fee trade)
    | Buy => Ok (executed trade)
    end in
  Ok (mkPrice (token (sell o)) (custom_sell custom) (token (buy o)) (custom_buy custom),
      mkTrade 0 0 (default 0 (order_receiver o)) (amount (sell o)) (amount (buy o)) (valid_to o) (app_data o) 0
        (mkFlags (side o) (is_partial o) (scheme (Order.signature o)) (sell_token_balance o) (buy_token_balance o))
        executed (signature (Order.signature o)),
      native_unwrap).
Definition encode_jit (trade : JitTrade.Jit) : Price * Trade :=
  let o := JitTrade.jit_order trade in
  (mkPrice (token (jit_sell o)) (amount (jit_buy o)) (token (jit_buy o)) (amount (jit_sell o)),
   mkTrade 0 0 (jit_receiver o) (amount (jit_sell o)) (amount (jit_buy o)) (jit_valid_to o) (jit_app_data o) 0
     (mkFlags (jit_side o) (match Order.partially_fillable o with Yes _ => true | No => false end)
       (scheme (jit_signature o)) (jit_sell_token_balance o) (jit_buy_token_balance o))
     (JitTrade.jit_executed trade) (signature (jit_signature o))).

(** What the loop changes. *)
Record Acc : Type := mkAcc { acc : Settlement; native_unwrap : Z }.
(** The token and price vectors grow by a pair, at which the trade points. *)
Definition push_trade (s : Settlement) (price : Price) (trade : Trade)
    (pre_interactions post_interactions : list Eth.Interaction) : Settlement :=
  let tokens := tokens s ++ [sell_token price; buy_token price] in
  mkSettlement tokens
    (clearing_prices s ++ [sell_price price; buy_price price])
    (trades s ++ [set_indices trade (Z.of_nat (length tokens) - 2) (Z.of_nat (length tokens) - 1)])
    (pre s ++ pre_interactions) (main s) (post s ++ post_interactions).
Definition encode_trade (s : Solution.Solution) (a : Acc) (trade : Trade.Trade) : res Error Acc :=
  match trade with
  | TFulfillment f =>
      let* ' (price, trade, unwrap) := encode_fulfillment s f (native_unwrap a) in
      Ok (mkAcc (push_trade (acc a) price trade (pre_interactions (order f)) (post_interactions (order f))) unwrap)
  | TJit j =>
      let '(price, trade) := encode_jit j in
      Ok (mkAcc (push_trade (acc a) price trade [] []) (native_unwrap a))
  end.

Section encode.
Context (swap : Interaction.LiquidityKind -> Asset -> Asset -> option Eth.Interaction).
Context (settle : Settlement -> list byte) (withdraw : Z -> list byte).

Definition liquidity_interaction (liquidity : Interaction.LiquidityInteraction) (p : Slippage.Parameters)
  : res Error Eth.Interaction :=
  let* ' (input, output) := map_err EncodingMath (Slippage.apply_to p
    (Slippage.mkInteraction (Interaction.liquidity_input liquidity) (Interaction.liquidity_output liquidity))) in
  ok_or (swap (Interaction.liquidity_kind liquidity) input output) (InvalidInteractionExecution liquidity).
Definition encode_interaction (p : Slippage.Parameters) (i : Interaction.Interaction) : res Error Eth.Interaction :=
  match i with
  | Interaction.ICustom c =>
      Ok (mkInteraction (Interaction.custom_target c) (Interaction.custom_value c) (Interaction.custom_call_data c))
  | Interaction.ILiquidity l => liquidity_interaction l p
  end.
Definition skipped (internalization : Internalization) (i : Interaction.Interaction) : bool :=
  match internalization with Enable => Interaction.internalize i | Disable => false end.
Definition unwrap (amount weth : Z) : Eth.Interaction := mkInteraction weth 0 (withdraw amount).

(** The arguments of the call. *)
Definition settlement (s : Solution.Solution) (approvals : list Allowance) (p : Slippage.Parameters)
    (internalization : Internalization) (insert_unwraps : bool) (weth : Z) : res Error Settlement :=
  let* prices := Solution.clearing_prices s in
  let sorted := sort_by_token prices in
  let* a := rfold (encode_trade s)
    (mkAcc (mkSettlement (map token sorted) (map amount sorted) []
       (Solution.solution_pre_interactions s) [] (Solution.solution_post_interactions s)) 0)
    (Solution.trades s) in
  let* interactions := rmap (encode_interaction p)
    (filter (fun i => skipped internalization i = false) (Solution.interactions s)) in
  let unwraps := if negb (native_unwrap a =? 0) && insert_unwraps then [unwrap (native_unwrap a) weth] else [] in
  Ok (mkSettlement (tokens (acc a)) (clearing_prices (acc a)) (trades (acc a)) (pre (acc a))
    (map approve approvals ++ interactions ++ unwraps) (post (acc a))).

(** [encoding::tx]: the auction id follows the call data. *)
Definition tx (auction_id : option Z) (s : Solution.Solution) (settlement_contract : Z)
    (approvals : list Allowance) (p : Slippage.Parameters) (internalization : Internalization)
    (insert_unwraps : bool) (weth : Z) : res Error Tx :=
  let* call := settlement s approvals p internalization insert_unwraps weth in
  let* id := ok_or auction_id MissingAuctionId in
  Ok (mkTx (Solution.solver s) settlement_contract 0 (settle call ++ be_bytes 8 id) ∅).
End encode.
End Encoding.

(** * Lemmas *)

(** ** The loop over the trades *)
Section trades.
Import Encoding.
Implicit Types (s : Solution.Solution) (c : Settlement).

(** The vectors have [price] where the encoded trade points. *)
Definition priced_at (tokens prices : list Z) (price : Price) (e : Trade) : Prop :=
  tokens !! Z.to_nat (sell_token_index e) = Some (sell_token price) /\
  prices !! Z.to_nat (sell_token_index e) = Some (sell_price price) /\
  tokens !! Z.to_nat (buy_token_index e) = Some (buy_token price) /\
  prices !! Z.to_nat (buy_token_index e) = Some (buy_price price).

(** An encoded trade of the settlement: its own prices, and the rest of it as
    the trade was encoded. *)
Definition encoded s (tokens prices : list Z) (t : Trade.Trade) (e : Trade) : Prop :=
  exists price e0 i j, e = set_indices e0 i j /\ priced_at tokens prices price e /\
    match t with
    | TFulfillment f => exists u u', encode_fulfillment s f u = Ok (price, e0, u')
    | TJit jit => encode_jit jit = (price, e0)
    end.

(** What a trade adds to the ether to unwrap. *)
Definition eth_bought s (t : Trade.Trade) : Z :=
  match t with
  | TFulfillment f =>
      if token (buy (order f)) =? ETH_TOKEN then
        match Solution.clearing_price s (token (sell (order f))), Solution.clearing_price s (token (buy (order f))) with
        | Some sell, Some buy =>
            match buy_amount f (mkClearingPrices sell buy) with Ok b => b | _ => 0 end
        | _, _ => 0
        end
      else 0
  | TJit _ => 0
  end.

Lemma priced_at_app tokens prices tk cp price e :
  priced_at tokens prices price e -> priced_at (tokens ++ tk) (prices ++ cp) price e.
Proof. intros (? & ? & ? & ?). split_and!; by apply lookup_app_l_Some. Qed.

Lemma push_trade_priced c price e pre post :
  length (tokens c) = length (clearing_prices c) ->
  let c' := push_trade c price e pre post in
  exists i j, trades c' = trades c ++ [set_indices e i j] /\
    priced_at (tokens c') (clearing_prices c') price (set_indices e i j).
Proof.
  intros Hlen. cbn. do 2 eexists. split; [done|]. unfold priced_at. cbn.
  rewrite length_app. cbn.
  assert (Hi : Z.to_nat (Z.of_nat (length (tokens c) + 2) - 2) = length (tokens c)) by lia.
  assert (Hj : Z.to_nat (Z.of_nat (length (tokens c) + 2) - 1) = S (length (tokens c))) by lia.
  rewrite Hi, Hj. rewrite !lookup_app_r by lia. rewrite <- Hlen.
  rewrite !Nat.sub_diag. replace (S (length (tokens c)) - length (tokens c))%nat with 1%nat by lia. done.
Qed.

Lemma encode_fulfillment_unwrap s f u price e u' :
  encode_fulfillment s f u = Ok (price, e, u') -> u' = u + eth_bought s (TFulfillment f).
Proof.
  unfold encode_fulfillment, eth_bought. intros H. inv_ok.
  repeat match goal with H : Solution.clearing_price _ _ = Some _ |- _ => rewrite H in *; clear H end.
  destruct (_ =? ETH_TOKEN); [|inv_ok; simplify_eq; lia]. inv_ok. simplify_eq.
  repeat match goal with
  | H : u_add _ _ = Ok _ |- _ => apply u_add_Ok in H as [-> _]
  | H : buy_amount _ _ = Ok _ |- _ => rewrite H; clear H
  end. done.
Qed.

(** The interactions of the orders themselves. *)
Definition trade_pre (t : Trade.Trade) : list Eth.Interaction :=
  match t with TFulfillment f => pre_interactions (order f) | TJit _ => [] end.
Definition trade_post (t : Trade.Trade) : list Eth.Interaction :=
  match t with TFulfillment f => post_interactions (order f) | TJit _ => [] end.

Lemma encode_trade_Ok s a t a' :
  encode_trade s a t = Ok a' -> exists price e,
    acc a' = push_trade (acc a) price e (trade_pre t) (trade_post t) /\
    native_unwrap a' = native_unwrap a + eth_bought s t /\
    match t with
    | TFulfillment f => exists u u', encode_fulfillment s f u = Ok (price, e, u')
    | TJit jit => encode_jit jit = (price, e)
    end.
Proof.
  destruct t as [f|j]; intros H; unfold encode_trade in H.
  - apply rbind_Ok in H as ([[price e] u'] & He & H). injection H as <-. exists price, e. cbn [acc native_unwrap].
    split_and!; [done|by eapply encode_fulfillment_unwrap|eauto].
  - destruct (encode_jit j) as [price e]. injection H as <-. exists price, e. cbn [acc native_unwrap].
    split_and!; [done|cbn; lia|done].
Qed.

Lemma encode_trades_Ok s l a a' :
  rfold (encode_trade s) a l = Ok a' -> length (tokens (acc a)) = length (clearing_prices (acc a)) ->
  length (tokens (acc a')) = length (clearing_prices (acc a')) /\
  tokens (acc a) `prefix_of` tokens (acc a') /\ clearing_prices (acc a) `prefix_of` clearing_prices (acc a') /\
  (exists ts, trades (acc a') = trades (acc a) ++ ts /\
     Forall2 (encoded s (tokens (acc a')) (clearing_prices (acc a'))) l ts) /\
  native_unwrap a' = foldl (fun u t => u + eth_bought s t) (native_unwrap a) l /\
  pre (acc a') = pre (acc a) ++ concat (map trade_pre l) /\
  post (acc a') = post (acc a) ++ concat (map trade_post l).
Proof.
  revert a. induction l as [|t l IH]; intros a Hr Hlen; cbn [rfold] in Hr.
  { injection Hr as <-. cbn. rewrite !app_nil_r. split_and!; try done. exists []. by rewrite app_nil_r. }
  apply rbind_Ok in Hr as (a1 & Ht & Hr). apply encode_trade_Ok in Ht as (price & e & Hacc & Hun & Henc).
  pose proof (push_trade_priced (acc a) price e (trade_pre t) (trade_post t) Hlen) as (i & j & Htr & Hat).
  rewrite <- Hacc in *. assert (Hlen1 : length (tokens (acc a1)) = length (clearing_prices (acc a1))).
  { rewrite Hacc. cbn. rewrite !length_app, Hlen. done. }
  destruct (IH a1 Hr Hlen1) as (Hl & Htk & Hcp & (ts & Hts & Hall) & Hu & Hpre & Hpost).
  split_and!; try done.
  - etrans; [|exact Htk]. rewrite Hacc. by apply prefix_app_r.
  - etrans; [|exact Hcp]. rewrite Hacc. by apply prefix_app_r.
  - exists (set_indices e i j :: ts). split; [by rewrite Hts, Htr, <- app_assoc|]. constructor; [|done].
    exists price, e, i, j. split; [done|]. split; [|by destruct t].
    destruct Htk as [tk ->], Hcp as [cp ->]. by apply priced_at_app.
  - by rewrite Hu, Hun.
  - rewrite Hpre, Hacc. cbn. by rewrite <- app_assoc.
  - rewrite Hpost, Hacc. cbn. by rewrite <- app_assoc.
Qed.

(** What the contract is told of a fulfillment. *)
Definition told_of s (tokens prices : list Z) (f : Fulfillment) (e : Trade) : Prop :=
  exists ps pb sold bought,
    Solution.clearing_price s (token (sell (order f))) = Some ps /\
    Solution.clearing_price s (token (buy (order f))) = Some pb /\
    sell_amount f (mkClearingPrices ps pb) = Ok sold /\ buy_amount f (mkClearingPrices ps pb) = Ok bought /\
    priced_at tokens prices
      (mkPrice (token (sell (order f))) bought (token (buy (order f))) sold) e /\
    executed_amount e = (match side (order f) with Sell => sold | Buy => bought end) /\
    limit_sell_amount e = amount (sell (order f)) /\ limit_buy_amount e = amount (buy (order f)) /\
    trade_valid_to e = valid_to (order f) /\ flags_side (trade_flags e) = side (order f).

Lemma encoded_fulfillment s tokens prices f e :
  encoded s tokens prices (TFulfillment f) e -> told_of s tokens prices f e.
Proof.
  intros (price & e0 & i0 & j0 & -> & Hat & u & u' & Henc).
  unfold encode_fulfillment, custom_prices in Henc. inv_ok.
  simplify_eq. cbn in Hat. unfold told_of. cbn.
  repeat match goal with H : Solution.clearing_price _ _ = Some _ |- _ => rewrite H; clear H end.
  do 4 eexists. split_and!; try done.
  match goal with Hs : sell_amount _ _ = Ok _, Hb : buy_amount _ _ = Ok _ |- _ =>
    unfold sell_amount, sold in Hs; unfold buy_amount, bought in Hb end.
  destruct (side (order f)); inv_ok; [done|].
  repeat match goal with
  | H : u_add _ _ = Ok _ |- _ => apply u_add_Ok in H as [-> _]
  | H : checked_add _ _ = Some _ |- _ => apply checked_add_Some in H as [-> _] end. done.
Qed.

(** The settlement as the loop leaves it. *)
Lemma settlement_Ok swap withdraw s approvals p i insert weth c :
  settlement swap withdraw s approvals p i insert weth = Ok c ->
  length (tokens c) = length (clearing_prices c) /\
  (exists l, Solution.clearing_prices (E := Error) s = Ok l /\
     map token (sort_by_token l) `prefix_of` tokens c /\
     map amount (sort_by_token l) `prefix_of` clearing_prices c) /\
  Forall2 (encoded s (tokens c) (clearing_prices c)) (Solution.trades s) (trades c).
Proof.
  intros H. unfold settlement in H.
  apply rbind_Ok in H as (l & Hl & H). apply rbind_Ok in H as (a & Ha & H). inv_ok.
  apply encode_trades_Ok in Ha as (Hlen & Htk & Hcp & (ts & Hts & Hall) & _); [|cbn; by rewrite !length_map].
  cbn in *. subst ts. split_and!; [done|by exists l|done].
Qed.
End trades.

(** ** Sorting the price vector *)
Lemma insert_by_token_perm a l : Permutation (Encoding.insert_by_token a l) (a :: l).
Proof.
  induction l as [|b l IH]; cbn; [done|]. case_match; [done|]. rewrite IH. apply Permutation_swap.
Qed.
Lemma sort_by_token_perm l : Permutation (Encoding.sort_by_token l) l.
Proof. induction l as [|a l IH]; cbn; [done|]. by rewrite insert_by_token_perm, IH. Qed.

(** ** Slippage *)
Lemma in_eth_Ok {E} (price a : Z) r : Price.in_eth (E := E) price a = Ok r -> r = a * price / BASE.
Proof. unfold Price.in_eth. intros H. inv_ok. by apply u_mul_Ok in Hv as [-> _]; apply u_div_Ok in H as [-> _]. Qed.
Lemma from_eth_Ok {E} (price a : Z) r : Price.from_eth (E := E) price a = Ok r -> r = a * BASE / price.
Proof. unfold Price.from_eth. intros H. inv_ok. by apply u_mul_Ok in Hv as [-> _]; apply u_div_Ok in H as [-> _]. Qed.

Lemma relative_slippage_Ok (self : Slippage.Parameters) a r :
  (0 <= Slippage.relative self)%Qc -> 0 <= a -> Slippage.relative_slippage self a = Ok r ->
  (Qc_of_Z r <= Qc_of_Z a * Slippage.relative self)%Qc /\ 0 <= r.
Proof.
  intros Hrel Ha H. apply ok_or_Ok, big_rational_to_u256_floor in H as (Hle & _ & [Hr _]); [done|].
  unfold u256_to_big_rational. pose proof (Qcmult_le_compat_r 0%Qc (Qc_of_Z a) (Slippage.relative self)) as Hm.
  rewrite Qcmult_0_l in Hm. apply Hm; [|done]. exact (proj1 (Z2Qc_inj_le 0 a) Ha).
Qed.

Lemma cap_nonneg (o : option Z) d : 0 <= d -> (forall x, o = Some x -> u256 x) -> 0 <= default d o.
Proof. intros Hd Ho. destruct o as [x|]; [|done]. by destruct (Ho x eq_refl). Qed.

Lemma capped_slippage_Ok (self : Slippage.Parameters) a c :
  (0 <= Slippage.relative self)%Qc -> 0 <= a ->
  (forall x, Slippage.min self = Some x \/ Slippage.max self = Some x -> u256 x) ->
  Slippage.capped_slippage self a = Ok c ->
  exists r, (Qc_of_Z r <= Qc_of_Z a * Slippage.relative self)%Qc /\ 0 <= r /\ 0 <= c /\
    c <= Z.max (default 0 (Slippage.min self)) (Z.min r (default U256_MAX (Slippage.max self))).
Proof.
  intros Hrel Ha Hcap H. apply rbind_Ok in H as (r & Hr & H). injection H as <-.
  apply relative_slippage_Ok in Hr as [Hle Hr]; [|done..]. exists r. split_and!; [done..| |];
    unfold Slippage.clamp;
    pose proof (cap_nonneg (Slippage.min self) 0 ltac:(lia) ltac:(auto)) as Hmin;
    pose proof (cap_nonneg (Slippage.max self) U256_MAX ltac:(unfold U256_MAX; lia) ltac:(auto)) as Hmax;
    repeat case_match; bool_to_prop; lia.
Qed.

(** * Properties *)
Section properties.
Import Encoding.
Context (swap : Interaction.LiquidityKind -> Asset -> Asset -> option Eth.Interaction).
Context (settle : Settlement -> list byte) (withdraw : Z -> list byte).


(** The settlement executes what the solution asks for and pays out all
    bought ether: its interactions are the approvals, then the solution's
    interactions in order without the internalized ones when those are left
    out, and, when the driver manages native tokens and some user buys ETH, a
    last one that unwraps exactly the sum of what the users who buy ETH get;
    the orders' own interactions come before and after. *)
Theorem settlement_executes_interactions (s : Solution.Solution) approvals p i insert weth (c : Settlement) :
  settlement swap withdraw s approvals p i insert weth = Ok c ->
  let total := foldl (fun u t => u + eth_bought s t) 0 (Solution.trades s) in
  exists executed,
    Forall2 (fun j x => encode_interaction swap p j = Ok x)
      (filter (fun j => skipped i j = false) (Solution.interactions s)) executed /\
    main c = map approve approvals ++ executed ++
      (if insert && negb (total =? 0) then [unwrap withdraw total weth] else []) /\
    pre c = Solution.solution_pre_interactions s ++ concat (map trade_pre (Solution.trades s)) /\
    post c = Solution.solution_post_interactions s ++ concat (map trade_post (Solution.trades s)).
Proof.
  intros H. unfold settlement in H.
  apply rbind_Ok in H as (l & Hl & H). apply rbind_Ok in H as (a & Ha & H).
  apply rbind_Ok in H as (executed & Hex & H). injection H as <-.
  apply encode_trades_Ok in Ha as (_ & _ & _ & _ & Hu & Hpre & Hpost); [|cbn; by rewrite !length_map].
  cbn in Hu, Hpre, Hpost. exists executed. cbn. rewrite <- Hu, andb_comm. split_and!; try done.
  by apply rmap_Ok.
Qed.

(** Slippage is bounded: the output stays exact, the input only grows, and
    where the auction prices the sold token, by an amount worth no more than
    the caps allow: at most the larger of the minimum and the smaller of the
    maximum and the relative slippage of the input's value, in ether. *)
Theorem slippage_bounded (self : Slippage.Parameters) (io : Slippage.Interaction) (mi eo : Asset) :
  0 <= amount (Slippage.input io) -> (0 <= Slippage.relative self)%Qc ->
  (forall t p, Slippage.prices self !! t = Some p -> 0 < p) ->
  (forall x, Slippage.min self = Some x \/ Slippage.max self = Some x -> u256 x) ->
  0 <= amount (Slippage.output io) ->
  Slippage.apply_to self io = Ok (mi, eo) ->
  eo = Slippage.output io /\ token mi = token (Slippage.input io) /\
  amount (Slippage.input io) <= amount mi <= U256_MAX /\
  (forall price, Slippage.prices self !! token (Slippage.input io) = Some price ->
    exists relative,
      (Qc_of_Z relative <= Qc_of_Z (amount (Slippage.input io) * price / BASE) * Slippage.relative self)%Qc /\
      (amount mi - amount (Slippage.input io)) * price <=
        Z.max (default 0 (Slippage.min self)) (Z.min relative (default U256_MAX (Slippage.max self))) * BASE).
Proof.
  intros Ha Hrel Hp Hcap Hout H. unfold Slippage.apply_to in H.
  apply rbind_Ok in H as (sl & Hsl & H). apply rbind_Ok in H as (m & Hm & H). injection H as <- <-.
  apply u_add_Ok in Hm as [-> Hmax]. cbn [amount token].
  assert (Hg : 0 <= sl /\ forall price, Slippage.prices self !! token (Slippage.input io) = Some price ->
    exists relative,
      (Qc_of_Z relative <= Qc_of_Z (amount (Slippage.input io) * price / BASE) * Slippage.relative self)%Qc /\
      sl * price <= Z.max (default 0 (Slippage.min self)) (Z.min relative (default U256_MAX (Slippage.max self))) * BASE).
  { unfold Slippage.slippage in Hsl. destruct (Slippage.prices self !! token (Slippage.input io)) as [price|] eqn:Hpr.
    - pose proof (Hp _ _ Hpr) as Hp0. apply rbind_Ok in Hsl as (v & Hv & Hsl). apply rbind_Ok in Hsl as (c & Hc & Hsl).
      apply in_eth_Ok in Hv as ->. apply from_eth_Ok in Hsl as ->.
      apply (capped_slippage_Ok self _ _) in Hc as (r & Hr & Hrp & Hc0 & Hcle); [|done|apply Z.div_pos; unfold BASE; nia|done].
      split; [apply Z.div_pos; unfold BASE; nia|]. intros ? [= <-]. exists r. split; [done|].
      etrans; [rewrite Z.mul_comm; apply Z.mul_div_le; done|]. apply Z.mul_le_mono_nonneg_r; [unfold BASE; lia|done].
    - split; [|done]. destruct (Slippage.prices self !! token (Slippage.output io)) as [price|] eqn:Hpo.
      + pose proof (Hp _ _ Hpo) as Hp0. inv_ok.
        match goal with H : Price.in_eth _ _ = Ok _ |- _ => apply in_eth_Ok in H as -> end.
        match goal with H : Price.from_eth _ _ = Ok _ |- _ => apply from_eth_Ok in H as -> end.
        match goal with H : Slippage.capped_slippage _ _ = Ok _ |- _ =>
          apply (capped_slippage_Ok self _ _) in H as (r & Hr & Hrp & Hc0 & Hcle);
            [|done|apply Z.div_pos; unfold BASE; nia|done] end.
        apply mul_div_Ok in Hsl as (-> & _ & Hne).
        apply Z.div_pos; [|lia]. apply Z.mul_nonneg_nonneg; [|done]. apply Z.div_pos; unfold BASE; nia.
      + by apply (relative_slippage_Ok self) in Hsl as [_ ?]. }
  destruct Hg as [Hsl0 Hg]. split_and!; [done..|lia|lia|].
  intros price Hpr. destruct (Hg price Hpr) as (r & Hr & Hle). exists r. split; [done|].
  by rewrite Z.add_simpl_l.
Qed.
End properties.

Section witnesses.
Import Encoding.
Let o (buy_token : Z) : Order :=
  mkOrder 1 None 77 (mkAsset 900 buy_token) (mkAsset 1000 1) Sell Limit 0 No [] [] Erc20 BuyErc20
    (mkSignature PreSign [] 6) [].
Let f : Fulfillment := mkFulfillment (o ETH_TOKEN) 990 (Dynamic 10).
Let pool : Interaction.LiquidityInteraction :=
  Interaction.mkLiquidity (Interaction.UniswapV2 9) (mkAsset 990 1) (mkAsset 1980 7) false.
Let s : Solution.Solution :=
  Solution.mkSolution (Solution.Single 1) [TFulfillment f] {[1 := 2; 7 := 1]} []
    [Interaction.ILiquidity pool] [] 5 7 None.
Let swap (k : Interaction.LiquidityKind) (mi eo : Asset) : option Eth.Interaction :=
  match k with
  | Interaction.UniswapV2 r => Some (mkInteraction r 0 (be_bytes 32 (amount mi) ++ be_bytes 32 (amount eo)))
  | _ => None
  end.
Let withdraw (a : Z) : list byte := be_bytes 32 a.
Let tenth : Qc := Q2Qc (3602879701896397 # 36028797018963968).
Let p : Slippage.Parameters := Slippage.mkParameters tenth None None ∅.
Let c : res Error Settlement := settlement swap withdraw s [] p Disable true 7.

(** The test [test_approve]. *)
Example test_approve :
  call_data (approve (mkAllowance 0xC02aaA39b223FE8D0A0e5C4F27eAD9083C756Cc2
    0x000000000022D473030F116dDEE9F6B43aC78BA3 U256_MAX)) =
  be_bytes 68 0x095ea7b3000000000000000000000000000000000022d473030f116ddee9f6b43ac78ba3ffffffffffffffffffffffffffffffffffffffffffffffffffffffffffffffff.
Proof. vm_compute. reflexivity. Qed.

(** The tests of slippage.rs, in order. *)
Example slippage_tests :
  let e18 := 10 ^ 18 in
  let io := Slippage.mkInteraction (mkAsset e18 1) (mkAsset (200 * 10 ^ 6) 2) in
  let run relative max min prices :=
    match Slippage.apply_to (Slippage.mkParameters relative max min prices) io with
    | Ok (mi, _) => amount mi | _ => 0 end in
  let gno := {[1 := 10 ^ 17]} in
  let usdc := {[2 := 5 * 10 ^ 26]} in
  [run tenth None None gno; run tenth None (Some (10 ^ 17)) gno; run tenth (Some (10 ^ 15)) None gno;
   run tenth None None usdc; run tenth None (Some (10 ^ 17)) usdc; run tenth (Some (10 ^ 15)) None usdc;
   run 1%Qc (Some (10 ^ 16)) (Some e18) ∅] =
  [e18 + 10 ^ 17; e18 + e18; e18 + 10 ^ 16; e18 + 10 ^ 17; e18 + e18; e18 + 10 ^ 16; e18 + e18].
Proof. vm_compute. reflexivity. Qed.


Lemma settlement_executes_interactions_witness :
  exists x j, c = Ok x /\ main x = [j; unwrap withdraw 1980 7].
Proof.
  destruct c as [x| |] eqn:Hc; [|vm_compute in Hc; discriminate..].
  destruct (settlement_executes_interactions swap withdraw s [] p Disable true 7 x Hc) as (l & Hl & Hm & _).
  apply Forall2_cons_inv_l in Hl as (j & js & _ & Hnil & Hjs). apply Forall2_nil_inv_l in Hnil. subst js l.
  exists x, j. split; [reflexivity|exact Hm].
Defined.

Lemma slippage_bounded_witness :
  exists mi eo,
    Slippage.apply_to (Slippage.mkParameters tenth (Some (10 ^ 15)) None {[1 := 10 ^ 17]})
      (Slippage.mkInteraction (mkAsset (10 ^ 18) 1) (mkAsset 5 2)) = Ok (mi, eo) /\
    (amount mi - 10 ^ 18) * 10 ^ 17 <= 10 ^ 15 * BASE.
Proof.
  set (q := Slippage.mkParameters _ _ _ _). set (io := Slippage.mkInteraction _ _).
  destruct (Slippage.apply_to q io) as [[mi eo]| |] eqn:H; [|vm_compute in H; discriminate..].
  exists mi, eo. split; [reflexivity|].
  destruct (slippage_bounded q io mi eo) as (_ & _ & _ & Hcap).
  - closed.
  - closed.
  - intros t pr Hp. unfold q in Hp. cbn [Slippage.prices] in Hp.
    apply lookup_singleton_Some in Hp as [_ <-]. reflexivity.
  - intros x [Hx|Hx]; [discriminate Hx|]. injection Hx as <-. split; closed.
  - closed.
  - exact H.
  - destruct (Hcap (10 ^ 17) eq_refl) as (r & _ & Hle). unfold q in Hle. cbn [Slippage.min Slippage.max default from_option Datatypes.id] in Hle.
    change (amount (Slippage.input io)) with (10 ^ 18) in Hle. unfold BASE in *. lia.
Defined.
End witnesses.
