(* ===== verification/Competition.v ===== *)
(** The competition of a solver in the driver:
    crates/driver/src/domain/competition/solution/settlement.rs and
    competition/mod.rs.

    Module [Settlement] turns a solution into a settlement that obeys the rules
    of the protocol; module [Competition] merges and ranks solutions, and keeps
    the settlement of the best one until it is executed. What the node and the
    simulator answer is the record [Chain] of parameters; the lossy conversions
    between floats and U256 are parameters too. Requests that the code runs
    concurrently are made in order, which decides only which of several errors
    is reported. *)
From Stdlib Require Import ZArith Lia QArith Qcanon Sorting.Sorted.
From stdpp Require Import prelude gmap numbers.
From S2P Require Import Prelude U256 Bytes Floats DriverOrder Trade Scoring Solution Encoding.

Open Scope Z_scope.
Open Scope rust_scope.
Import Eth Order Fulfillment Trade.

(** What the node and the simulator answer, [None] for a failed request or a
    transaction that reverts. *)
Record Chain : Type := mkChain {
  allowance_of : Allowance -> option Allowance;
  access_list_of : Encoding.Tx -> option (gmap Z (gset Z));
  gas_of : Encoding.Tx -> option Z;
  is_contract : Z -> option bool;
  balance_of : Z -> option Z;
  gas_price_max : option Z;
  block_gas_limit : Z;
  weth_contract : Z;
  settlement_contract : Z;
}.

Module Settlement.
Inductive Error : Type :=
| Blockchain
| Simulation
| NonBufferableTokensUsed (tokens : gset Z)
| GasLimitExceeded (gas limit : Z)
| SolverAccountInsufficientBalance (required : Z)
| EncodingError (e : Encoding.Error).

(** [GasPrice] is known by its maximal fee per gas. *)
Record Gas : Type := mkGas { estimate : Z; limit : Z; price : Z }.
Record SettlementTx : Type := mkSettlementTx {
  internalized : Encoding.Tx;
  uninternalized : Encoding.Tx;
  may_revert : bool;
}.
Definition with_access_list (self : SettlementTx) (l : gmap Z (gset Z)) : SettlementTx :=
  mkSettlementTx (Encoding.set_access_list (internalized self) l)
    (Encoding.set_access_list (uninternalized self) l) (may_revert self).
Record Settlement : Type := mkSettlement {
  auction_id : Z;
  transaction : SettlementTx;
  gas : Gas;
  solution : Solution.Solution;
}.
Definition transaction_of (self : Settlement) (i : Internalization) : Encoding.Tx :=
  match i with
  | Enable => internalized (transaction self)
  | Disable => uninternalized (transaction self)
  end.
Definition required_balance {E} (self : Gas) : res E Z := u_mul (limit self) (price self).

(** The solver configuration and the auction, as far as they are used. *)
Record Config : Type := mkConfig {
  relative_slippage : Qc;
  absolute_slippage : option Z;
  insert_unwraps : bool;
}.
Record AuctionView : Type := mkAuctionView {
  view_id : option Z;
  view_tokens : gmap Z Tokens.Token;
  view_prices : gmap Z Z;
  view_owners : gset Z;
}.

Section settlement.
Context (from_f64_lossy : F64.f64 -> Z) (to_f64_lossy : Z -> F64.f64).
Context (swap : Interaction.LiquidityKind -> Asset -> Asset -> option Eth.Interaction).
Context (settle : Encoding.Settlement -> list byte) (withdraw : Z -> list byte).
Context (chain : Chain) (config : Config).

Definition GAS_LIMIT_FACTOR : F64.f64 := F64.of_Z 2.
Definition gas_new (estimate block_limit price : Z) : res Error Gas :=
  let max_gas := block_limit / 2 in
  if max_gas <? estimate then Err (GasLimitExceeded estimate max_gas)
  else
    let estimate_with_buffer := from_f64_lossy (F64.mul (to_f64_lossy estimate) GAS_LIMIT_FACTOR) in
    Ok (mkGas estimate (Z.min max_gas estimate_with_buffer) price).

Definition simulate (tx : Encoding.Tx) (partial_access_list : gmap Z (gset Z))
  : res Error (gmap Z (gset Z) * Z) :=
  let tx := Encoding.set_access_list tx partial_access_list in
  let* access_list := ok_or (access_list_of chain tx) Simulation in
  let tx := Encoding.set_access_list tx access_list in
  let* gas := ok_or (gas_of chain tx) Simulation in
  Ok (access_list, gas).

(** The access list of a transfer of 1 wei to a trader that is a contract. *)
Definition partial_access_list (s : Solution.Solution) (o : Order) : res Error (gmap Z (gset Z)) :=
  if negb (buys_eth o) then Ok ∅
  else
    let* contract := ok_or (is_contract chain (receiver o)) Blockchain in
    if negb contract then Ok ∅
    else ok_or (access_list_of chain (Encoding.mkTx (Solution.solver s) (receiver o) 1 [] ∅)) Simulation.

Definition new (id : Z) (s : Solution.Solution) (tx : SettlementTx) : res Error Settlement :=
  let* lists := rmap (fun f => partial_access_list s (order f)) (Solution.user_trades s) in
  let partial := foldl AccessList_merge ∅ lists in
  let* ' (access_list, gas) := simulate (internalized tx) partial in
  let* price := ok_or (gas_price_max chain) Blockchain in
  let* gas := gas_new gas (block_gas_limit chain) price in
  let* balance := ok_or (balance_of chain (Solution.solver s)) Blockchain in
  let* required := required_balance gas in
  if balance <? required then Err (SolverAccountInsufficientBalance required)
  else
    let* _ :=
      if existsb Interaction.internalize (Solution.interactions s)
      then simulate (uninternalized tx) partial else Ok (∅, 0) in
    Ok (mkSettlement id (with_access_list tx access_list) gas s).

Definition approvals (s : Solution.Solution) (i : Internalization) : res Error (list Allowance) :=
  let* existing := rmap (fun r => let* e := ok_or (allowance_of chain r) Blockchain in Ok (r, e))
    (Solution.allowances s i) in
  Ok (omap (fun '(required, existing) => approval required existing) existing).

Definition untrusted_tokens (s : Solution.Solution) (auction : AuctionView) : gset Z :=
  list_to_set (map token (filter (fun a => Tokens.trusted (Tokens.get (view_tokens auction) (token a)) = false)
    (concat (map Interaction.inputs (filter (fun i => Interaction.internalize i = true) (Solution.interactions s)))))).

Definition encode_tx (s : Solution.Solution) (auction : AuctionView) (i : Internalization) : res Error Encoding.Tx :=
  let* approvals := approvals s i in
  map_err EncodingError (Encoding.tx swap settle withdraw (view_id auction) s (settlement_contract chain) approvals
    (Slippage.mkParameters (relative_slippage config) (absolute_slippage config) None (view_prices auction))
    i (insert_unwraps config) (weth_contract chain)).

(** [Settlement::encode] *)
Definition encode (s : Solution.Solution) (auction : AuctionView) : res Error Settlement :=
  let untrusted := untrusted_tokens s auction in
  if negb (bool_decide (untrusted = ∅)) then Err (NonBufferableTokensUsed untrusted)
  else
    let* internalized := encode_tx s auction Enable in
    let* uninternalized := encode_tx s auction Disable in
    let* id := opt_expect (view_id auction) in
    new id s (mkSettlementTx internalized uninternalized (Solution.revertable s)).
End settlement.

(** [competition::Amounts] *)
Record Amounts : Type := mkAmounts { amounts_sell : Z; amounts_buy : Z }.
(** The settled user orders; an amount that cannot be computed counts as zero. *)
Definition orders {E} (self : Settlement) : res E (gmap Z Amounts) :=
  rfold (fun m f =>
    let* prices := Solution.uniform_prices (solution self) (token (sell (order f))) (token (buy (order f))) in
    let or_zero (r : res MathError Z) := match r with Ok a => Ok a | Err _ => Ok 0 | Panic => Panic end in
    let* s := or_zero (sell_amount f prices) in
    let* b := or_zero (buy_amount f prices) in
    Ok (<[uid (order f) := mkAmounts s b]> m)) ∅ (Solution.user_trades (solution self)).
Definition prices {E} (self : Settlement) : res E (gmap Z Z) :=
  let* l := Solution.clearing_prices (solution self) in
  Ok (foldl (fun m a => <[token a := amount a]> m) ∅ l).
End Settlement.

Module Competition.
Import Settlement.
Definition MAX_SOLUTIONS_TO_MERGE : nat := 10.

Record Solved : Type := mkSolved {
  score : Z;
  solved_trades : gmap Z Amounts;
  solved_prices : gmap Z Z;
  solved_gas : option Z;
}.
Inductive Error : Type := SolutionNotAvailable | SubmissionError.

(** [slice::sort_by_key] with [Reverse]: stable, largest key first. *)
Fixpoint insert_by_score {A} (x : Z * A) (l : list (Z * A)) : list (Z * A) :=
  match l with
  | [] => [x]
  | y :: l => if y.1 <=? x.1 then x :: y :: l else y :: insert_by_score x l
  end.
Definition sort_by_score {A} (l : list (Z * A)) : list (Z * A) := foldr insert_by_score [] l.

(** [Iterator::max_by_key]: of equal keys the last. *)
Definition max_by_score {A} (l : list (Z * A)) : option (Z * A) :=
  foldl (fun best x =>
    match best with
    | None => Some x
    | Some b => if b.1 <=? x.1 then Some x else Some b
    end) None l.

Section competition.
Context (from_f64_lossy : F64.f64 -> Z).

(** One round of [merge]: the solution merged with each combination so far,
    then the solution itself. *)
Definition extend (merged : list Solution.Solution) (solution : Solution.Solution)
  : res unit (list Solution.Solution) :=
  let* extension := rmap (fun already_merged =>
      match Solution.merge solution already_merged with
      | Ok m => Ok [m]
      | Err _ => Ok []
      | Panic => Panic
      end) merged in
  Ok (merged ++ concat extension ++ [solution]).
Definition combinations (solutions : list Solution.Solution) : res unit (list Solution.Solution) :=
  rfold extend [] (take MAX_SOLUTIONS_TO_MERGE solutions).

(** The key of the sort: the score, or zero. *)
Definition score_or_zero (auction : AuctionView) (s : Solution.Solution) : res unit Z :=
  match Solution.scoring from_f64_lossy s (view_prices auction) (view_owners auction) with
  | Ok score => Ok score
  | Err _ => Ok 0
  | Panic => Panic
  end.
Definition merge (solutions : list Solution.Solution) (auction : AuctionView) : res unit (list Solution.Solution) :=
  let* merged := combinations solutions in
  let* keyed := rmap (fun s => let* key := score_or_zero auction s in Ok (key, s)) merged in
  Ok (map snd (sort_by_score keyed)).

(** The solutions of the solver that are worth encoding: each id once, none
    that is empty. *)
Fixpoint unique_ids (seen : list Solution.Id) (solutions : list Solution.Solution) : list Solution.Solution :=
  match solutions with
  | [] => []
  | s :: solutions =>
      if decide (Solution.id s ∈ seen) then unique_ids seen solutions
      else s :: unique_ids (Solution.id s :: seen) solutions
  end.
Definition candidates (merging : bool) (solutions : list Solution.Solution) (auction : AuctionView)
  : res unit (list Solution.Solution) :=
  let solutions := filter (fun s => Solution.is_empty s (view_owners auction) = false) (unique_ids [] solutions) in
  if merging then merge solutions auction else Ok solutions.

(** The scores of the settlements that were encoded in time, in the order in
    which their encoding ended, those that cannot be scored left out. *)
Definition scored (settlements : list Settlement) (auction : AuctionView) : res unit (list (Z * Settlement)) :=
  let* scores := rmap (fun settlement =>
      match Solution.scoring from_f64_lossy (solution settlement) (view_prices auction) (view_owners auction) with
      | Ok score => Ok [(score, settlement)]
      | Err _ => Ok []
      | Panic => Panic
      end) settlements in
  Ok (concat scores).
Definition pick_best (settlements : list Settlement) (auction : AuctionView)
  : res unit (option (Solved * Settlement)) :=
  let* scores := scored settlements auction in
  match max_by_score scores with
  | None => Ok None
  | Some (score, settlement) =>
      let* trades := orders settlement in
      let* prices := Settlement.prices settlement in
      Ok (Some (mkSolved score trades prices (Some (estimate (gas settlement))), settlement))
  end.
End competition.

(** ** The settlement that is kept

    [solve] stores its best settlement, or none; on every block until its
    deadline it simulates that settlement again, and voids what is stored when
    it reverts or exceeds its gas limit. [settle] takes the settlement;
    [reveal] copies its call data. *)
Inductive Simulated : Type := GasNeeded (gas : Z) | Reverted | Unavailable.
Inductive Op : Type :=
| Store (best : option Settlement)
| Block (winner : Settlement) (simulated : Simulated)
| Settle (submitted : option Z)
| Reveal.
Inductive Output : Type :=
| Done
| Executed (s : Settlement) (result : Error + (list byte * list byte * Z))
| Revealed (internalized uninternalized : list byte)
| Failed (e : Error).

(** [simulate_settlement]: is it an error that voids the settlement? *)
Definition reverts (s : Settlement) (simulated : Simulated) : bool :=
  match simulated with
  | GasNeeded gas_needed => limit (gas s) <? gas_needed
  | Reverted => true
  | Unavailable => false
  end.
Definition calldata (s : Settlement) : list byte * list byte :=
  (Encoding.tx_input (transaction_of s Enable), Encoding.tx_input (transaction_of s Disable)).

Definition step (settlement : option Settlement) (op : Op) : option Settlement * Output :=
  match op with
  | Store best => (best, Done)
  | Block winner simulated => (if reverts winner simulated then None else settlement, Done)
  | Settle submitted =>
      match settlement with
      | None => (None, Failed SolutionNotAvailable)
      | Some s =>
          (None, Executed s match submitted with
                            | None => inl SubmissionError
                            | Some hash => inr (calldata s, hash)
                            end)
      end
  | Reveal =>
      match settlement with
      | None => (None, Failed SolutionNotAvailable)
      | Some s => (Some s, Revealed (calldata s).1 (calldata s).2)
      end
  end.
Fixpoint run (settlement : option Settlement) (ops : list Op) : option Settlement * list Output :=
  match ops with
  | [] => (settlement, [])
  | op :: ops =>
      let '(settlement, out) := step settlement op in
      let '(settlement, outs) := run settlement ops in
      (settlement, out :: outs)
  end.
Definition auction_id (settlement : option Settlement) : option Z := Settlement.auction_id <$> settlement.
End Competition.

(** * Lemmas *)
Section competition_lemmas.
Import Competition Settlement.

(** ** Ranking *)
Definition score_le {A} (x y : Z * A) : Prop := y.1 <= x.1.

Lemma insert_by_score_perm {A} (x : Z * A) l : Permutation (insert_by_score x l) (x :: l).
Proof. induction l as [|y l IH]; cbn; [done|]. case_match; [done|]. rewrite IH. apply Permutation_swap. Qed.
Lemma sort_by_score_perm {A} (l : list (Z * A)) : Permutation (sort_by_score l) l.
Proof. induction l as [|x l IH]; cbn; [done|]. by rewrite insert_by_score_perm, IH. Qed.

Lemma insert_by_score_sorted {A} (x : Z * A) l :
  StronglySorted score_le l -> StronglySorted score_le (insert_by_score x l).
Proof.
  induction 1 as [|y l Hs IH Hf]; cbn; [by repeat constructor|].
  destruct (Z.leb_spec y.1 x.1).
  - constructor; [by constructor|]. constructor; [done|].
    eapply Forall_impl; [|exact Hf]. unfold score_le. intros ?. lia.
  - constructor; [done|]. rewrite insert_by_score_perm. constructor; [unfold score_le; lia|done].
Qed.
Lemma sort_by_score_sorted {A} (l : list (Z * A)) : StronglySorted score_le (sort_by_score l).
Proof. induction l; cbn; [constructor|]. by apply insert_by_score_sorted. Qed.

Lemma max_by_score_spec {A} (l : list (Z * A)) :
  match max_by_score l with
  | None => l = []
  | Some b => b ∈ l /\ forall x, x ∈ l -> x.1 <= b.1
  end.
Proof.
  unfold max_by_score. set (f := fun best x => _).
  assert (Hg : forall l b, exists b', foldl f (Some b) l = Some b' /\ (b' = b \/ b' ∈ l) /\
    b.1 <= b'.1 /\ forall x, x ∈ l -> x.1 <= b'.1).
  { clear l. induction l as [|x l IH]; intros b; cbn [foldl].
    { exists b. split_and!; [done|by left|done|by intros ? ?%not_elem_of_nil]. }
    change (f (Some b) x) with (if b.1 <=? x.1 then Some x else Some b).
    destruct (Z.leb_spec b.1 x.1) as [Hle|Hlt].
    - destruct (IH x) as (b' & He & Hin & Hx & Hall). exists b'. split_and!; [done| |lia|].
      + right. apply elem_of_cons. naive_solver.
      + intros y [-> |Hy]%elem_of_cons; [done|by apply Hall].
    - destruct (IH b) as (b' & He & Hin & Hx & Hall). exists b'. split_and!; [done| |done|].
      + destruct Hin; [by left|]. right. by apply elem_of_cons; right.
      + intros y [-> |Hy]%elem_of_cons; [lia|by apply Hall]. }
  destruct l as [|x l]; [done|]. cbn [foldl]. change (f None x) with (Some x).
  destruct (Hg l x) as (b & -> & Hin & Hx & Hall). split.
  - apply elem_of_cons. naive_solver.
  - intros y [Hy|Hy]%elem_of_cons; [by rewrite Hy|by apply Hall].
Qed.

Lemma concat_map_Ok {E A B} (f : A -> res E (list B)) (l : list A) bs :
  rmap f l = Ok bs -> forall b, b ∈ concat bs <-> exists a ys, a ∈ l /\ f a = Ok ys /\ b ∈ ys.
Proof.
  intros H%rmap_Ok b. rewrite list_elem_of_In, in_concat. split.
  - intros (ys & Hys & Hb). apply list_elem_of_In, list_elem_of_lookup in Hys as [i Hi].
    destruct (Forall2_lookup_r _ _ _ _ _ H Hi) as (a & Ha & Hf). exists a, ys.
    split_and!; [by eapply list_elem_of_lookup_2|done|by apply list_elem_of_In].
  - intros (a & ys & Ha & Hf & Hb). apply list_elem_of_lookup in Ha as [i Hi].
    destruct (Forall2_lookup_l _ _ _ _ _ H Hi) as (ys' & Hys & Hf'). simplify_eq.
    assert (ys' = ys) as -> by congruence.
    exists ys. split; apply list_elem_of_In; [by eapply list_elem_of_lookup_2|done].
Qed.

(** ** Combinations *)
Section combinations.
Context (base : list Solution.Solution).

(** What merging the base solutions one by one can give. *)
Inductive combined : Solution.Solution -> Prop :=
| combined_base s : s ∈ base -> combined s
| combined_merge s m r : s ∈ base -> combined m -> Solution.merge s m = Ok r -> combined r.

Lemma extend_Ok merged s merged' :
  extend merged s = Ok merged' ->
  (forall m, m ∈ merged' <-> m ∈ merged \/ (exists m0, m0 ∈ merged /\ Solution.merge s m0 = Ok m) \/ m = s) /\
  (length merged' <= 2 * length merged + 1)%nat.
Proof.
  unfold extend. intros H. apply rbind_Ok in H as (ext & Hext & H). injection H as <-. split.
  - intros m. rewrite !elem_of_app, list_elem_of_singleton, (concat_map_Ok _ _ _ Hext m).
    assert (He : (exists a ys, a ∈ merged /\
        match Solution.merge s a with Ok m => Ok [m] | Err _ => Ok [] | Panic => Panic end = (Ok ys : res unit _) /\
        m ∈ ys) <-> exists m0, m0 ∈ merged /\ Solution.merge s m0 = Ok m).
    { split.
      - intros (a & ys & Ha & Hm & Hin). destruct (Solution.merge s a) as [r| |] eqn:Hr; simplify_eq.
        + apply list_elem_of_singleton in Hin as ->. eauto.
        + by apply not_elem_of_nil in Hin.
      - intros (m0 & Hm0 & Hr). exists m0, [m]. rewrite Hr. split_and!; [done|done|by apply list_elem_of_singleton]. }
    rewrite He. done.
  - rewrite !length_app. cbn. assert (length (concat ext) <= length merged)%nat; [|lia].
    apply rmap_Ok in Hext. clear -Hext. induction Hext as [|a ys l l' Ha Hl IH]; cbn; [lia|].
    rewrite length_app. destruct (Solution.merge s a); simplify_eq; cbn; lia.
Qed.

Lemma combinations_Ok l merged merged' :
  rfold extend merged l = Ok merged' -> (forall s, s ∈ l -> s ∈ base) -> (forall m, m ∈ merged -> combined m) ->
  (forall m, m ∈ merged' -> combined m) /\ (forall s, s ∈ l \/ s ∈ merged -> s ∈ merged') /\
  (length merged' + 1 <= 2 ^ length l * (length merged + 1))%nat.
Proof.
  revert merged. induction l as [|s l IH]; intros merged Hr Hb Hm; cbn [rfold] in Hr.
  { injection Hr as <-. split_and!; [done| |cbn; lia]. by intros s [?%not_elem_of_nil|]. }
  apply rbind_Ok in Hr as (m1 & H1 & Hr). apply extend_Ok in H1 as [Hin Hlen].
  destruct (IH m1 Hr) as (Hc & Hi & Hl).
  - intros x Hx. apply Hb. by apply elem_of_cons; right.
  - intros m. rewrite Hin. intros [?|[(m0 & ? & ?)| ->]]; [auto| |].
    + eapply combined_merge; [apply Hb; by apply elem_of_cons; left|eauto..].
    + apply combined_base, Hb. by apply elem_of_cons; left.
  - split_and!; [done| |cbn [length Nat.pow]; nia].
    intros x [[-> |Hx]%elem_of_cons|Hx]; apply Hi; [right; apply Hin; auto|by left|right; apply Hin; auto].
Qed.
End combinations.

(** ** The kept settlement *)
Definition stored (ops : list Op) : list Settlement :=
  omap (fun op => match op with Store best => best | _ => None end) ops.
Definition executed (outs : list Output) : list Settlement :=
  omap (fun out => match out with Executed s _ => Some s | _ => None end) outs.

Lemma executed_sublist ops st :
  executed (run st ops).2 `sublist_of` option_list st ++ stored ops.
Proof.
  revert st. induction ops as [|op ops IH]; intros st; [apply sublist_nil_l|].
  cbn [run]. destruct (step st op) as [st' out] eqn:Hs.
  specialize (IH st'). destruct (run st' ops) as [st'' outs]. cbn [snd] in *.
  destruct op as [best|w sim|sub|]; cbn in Hs.
  - injection Hs as <- <-. cbn [executed stored omap list_omap]. fold (executed outs) (stored ops).
    destruct best as [b|]; cbn in *; by apply sublist_inserts_l.
  - injection Hs as <- <-. cbn [executed stored omap list_omap]. fold (executed outs) (stored ops).
    destruct (reverts w sim); [|done]. cbn in IH. by apply sublist_inserts_l.
  - destruct st as [s|]; injection Hs as <- <-; cbn in *; [by apply sublist_skip|done].
  - by destruct st as [s|]; injection Hs as <- <-.
Qed.
End competition_lemmas.

(** * Properties *)
Section properties.
Context (from_f64_lossy : F64.f64 -> Z) (to_f64_lossy : Z -> F64.f64).
Context (swap : Interaction.LiquidityKind -> Asset -> Asset -> option Eth.Interaction).
Context (settle : Encoding.Settlement -> list byte) (withdraw : Z -> list byte).
Context (chain : Chain) (config : Settlement.Config).
Import Settlement Competition.

(** C37: a settlement obeys the rules whose violation would be slashed: its
    internalized interactions take only trusted tokens; the transaction to be
    submitted simulates with the access list it carries, needs the gas the
    settlement estimates, at most half a block, and its gas limit at the
    maximal price is covered by the solver's balance; and if interactions are
    internalized the transaction without internalization simulates too. *)
Theorem settlement_respects_rules (s : Solution.Solution) (auction : AuctionView) (t : Settlement) :
  encode from_f64_lossy to_f64_lossy swap settle withdraw chain config s auction = Ok t ->
  solution t = s /\ Some (Settlement.auction_id t) = view_id auction /\
  (forall i a, i ∈ Solution.interactions s -> Interaction.internalize i = true -> a ∈ Interaction.inputs i ->
     Tokens.trusted (Tokens.get (view_tokens auction) (token a)) = true) /\
  gas_of chain (transaction_of t Enable) = Some (estimate (gas t)) /\
  estimate (gas t) <= block_gas_limit chain / 2 /\ limit (gas t) <= block_gas_limit chain / 2 /\
  (exists balance, balance_of chain (Solution.solver s) = Some balance /\ limit (gas t) * price (gas t) <= balance) /\
  (existsb Interaction.internalize (Solution.interactions s) = true ->
   exists l, is_Some (gas_of chain (Encoding.set_access_list (transaction_of t Disable) l))) /\
  may_revert (transaction t) = Solution.revertable s.
Proof.
  unfold encode. case_bool_decide as Hun; [|done]. cbn [negb]. intros H.
  apply rbind_Ok in H as (tx & _ & H). apply rbind_Ok in H as (tx' & _ & H).
  apply rbind_Ok in H as (id & Hid%opt_expect_Ok & H). unfold new in H. cbn [internalized uninternalized] in H.
  apply rbind_Ok in H as (lists & _ & H). cbn zeta in H. set (partial := foldl _ _ _) in H.
  apply rbind_Ok in H as ([acl g] & Hsim & H). apply rbind_Ok in H as (pr & _ & H).
  apply rbind_Ok in H as (gs & Hg & H). apply rbind_Ok in H as (bal & Hbal%ok_or_Ok & H).
  apply rbind_Ok in H as (req & Hreq & H). destruct (Z.ltb_spec bal req); [done|].
  apply rbind_Ok in H as (u & Hsim' & H). injection H as <-.
  unfold simulate in Hsim. cbn zeta in Hsim.
  apply rbind_Ok in Hsim as (acl' & _ & Hsim). apply rbind_Ok in Hsim as (g' & Hg'%ok_or_Ok & Hsim).
  injection Hsim as -> ->. unfold gas_new in Hg.
  destruct (Z.ltb_spec (block_gas_limit chain / 2) g); [done|]. injection Hg as <-.
  apply u_mul_Ok in Hreq as [-> _]. cbn in *. split_and!; try done; try lia.
  - intros i a Hi Hint Ha. apply not_false_is_true. intros Hf.
    assert (Hin : token a ∈ untrusted_tokens s auction); [|rewrite Hun in Hin; set_solver].
    unfold untrusted_tokens. apply elem_of_list_to_set, list_elem_of_fmap. exists a. split; [done|].
    apply list_elem_of_filter. split; [done|]. apply list_elem_of_In, in_concat. exists (Interaction.inputs i).
    split; apply list_elem_of_In; [|done]. apply list_elem_of_fmap. exists i. split; [done|].
    by apply list_elem_of_filter.
  - exists bal. by split.
  - intros Hint. rewrite Hint in Hsim'. unfold simulate in Hsim'. cbn zeta in Hsim'.
    apply rbind_Ok in Hsim' as (acl2 & _ & Hs). apply rbind_Ok in Hs as (g2 & Hg2%ok_or_Ok & _).
    exists acl2. unfold Encoding.set_access_list in *. cbn in *. by rewrite Hg2.
Qed.

(** Merging offers every solution and ranks them: of the first ten
    solutions each is among the results, every other result is a merge of
    them, there are at most 1023, and they are in the order of their scores,
    best first, where a result that cannot be scored counts as zero. *)
Theorem merge_ranks_combinations (solutions merged : list Solution.Solution) (auction : AuctionView) :
  merge from_f64_lossy solutions auction = Ok merged ->
  (forall s, s ∈ take 10 solutions -> s ∈ merged) /\
  (forall m, m ∈ merged -> combined (take 10 solutions) m) /\
  (length merged <= 1023)%nat /\
  exists scores, Forall2 (fun s k => score_or_zero from_f64_lossy auction s = Ok k) merged scores /\
    StronglySorted Z.ge scores.
Proof.
  unfold merge. intros H. apply rbind_Ok in H as (comb & Hc & H). apply rbind_Ok in H as (keyed & Hk & H).
  injection H as <-. unfold combinations in Hc.
  apply (combinations_Ok (take 10 solutions)) in Hc as (Hcomb & Hall & Hlen);
    [|done|by intros ? ?%not_elem_of_nil].
  apply rmap_Ok in Hk.
  assert (Hkeyed : map snd keyed = comb /\ Forall (fun x => score_or_zero from_f64_lossy auction x.2 = Ok x.1) keyed).
  { clear -Hk. induction Hk as [|s [k s'] l l' Hs Hl IH]; [by split; [|constructor]|].
    apply rbind_Ok in Hs as (k' & Hk' & [= -> ->]). cbn. destruct IH as [<- Hf]. split; [done|by constructor]. }
  destruct Hkeyed as [<- Hf].
  assert (Hperm : Permutation (map snd (sort_by_score keyed)) (map snd keyed)) by by rewrite sort_by_score_perm.
  split_and!.
  - intros s Hs. rewrite Hperm. apply Hall. by left.
  - intros m. rewrite Hperm. apply Hcomb.
  - rewrite Hperm. cbn [length] in Hlen. unfold MAX_SOLUTIONS_TO_MERGE in Hlen.
    assert (Hp : (2 ^ length (take 10 solutions) <= 2 ^ 10)%nat).
    { apply Nat.pow_le_mono_r; [lia|]. rewrite length_take. lia. }
    change (2 ^ 10)%nat with 1024%nat in Hp. lia.
  - exists (map fst (sort_by_score keyed)). pose proof (sort_by_score_sorted keyed) as Hs.
    rewrite <- sort_by_score_perm in Hf. revert Hs Hf. generalize (sort_by_score keyed). intros l. clear.
    induction 1 as [|x l Hs IH Hx]; intros Hf; [by split; constructor|].
    apply Forall_cons_1 in Hf as [Hfx Hf]. destruct (IH Hf) as [H2 Hss]. split; cbn; [by constructor|].
    constructor; [done|]. clear -Hx. induction Hx; cbn; constructor; [|done]. unfold score_le in *. lia.
Qed.

(** The driver bids its best settlement: the settlement picked is one of
    those encoded in time, its score is reported with the amounts of its own
    trades and its own prices, and no settlement that can be scored scores
    more; none is picked only when none can be scored. *)
Theorem pick_best_is_best (settlements : list Settlement) (auction : AuctionView) r :
  pick_best from_f64_lossy settlements auction = Ok r ->
  let score_of t := Solution.scoring from_f64_lossy (solution t) (view_prices auction) (view_owners auction) in
  match r with
  | None => forall t k, t ∈ settlements -> score_of t <> Ok k
  | Some (solved, t) =>
      t ∈ settlements /\ score_of t = Ok (score solved) /\
      (forall t' k, t' ∈ settlements -> score_of t' = Ok k -> k <= score solved) /\
      orders (E := unit) t = Ok (solved_trades solved) /\ Settlement.prices (E := unit) t = Ok (solved_prices solved) /\
      solved_gas solved = Some (estimate (gas t))
  end.
Proof.
  unfold pick_best, scored. intros H. apply rbind_Ok in H as (scores & Hs & H).
  apply rbind_Ok in Hs as (ls & Hls & Hs). injection Hs as <-.
  pose proof (concat_map_Ok _ _ _ Hls) as Hin. clear Hls. cbn zeta.
  assert (Hin' : forall k t, (k, t) ∈ concat ls <-> t ∈ settlements /\
    Solution.scoring from_f64_lossy (solution t) (view_prices auction) (view_owners auction) = Ok k).
  { intros k t. rewrite Hin. split.
    - intros (t' & ys & Ht & Hsc & Hy).
      destruct (Solution.scoring _ _ _ _) eqn:He; [|injection Hsc as <-; by apply not_elem_of_nil in Hy|done].
      injection Hsc as <-. apply list_elem_of_singleton in Hy. injection Hy as -> ->. done.
    - intros [Ht Hsc]. exists t, [(k, t)]. rewrite Hsc. split_and!; [done|done|by apply list_elem_of_singleton]. }
  pose proof (max_by_score_spec (concat ls)) as Hmax. destruct (max_by_score _) as [[k t]|].
  - destruct Hmax as [Hkt Hbest]. apply rbind_Ok in H as (ts & Hts & H). apply rbind_Ok in H as (ps & Hps & H).
    injection H as <-. apply Hin' in Hkt as [Ht Hk]. cbn. split_and!; try done.
    intros t' k' Ht' Hk'. apply (Hbest (k', t')). by apply Hin'.
  - injection H as <-. intros t k Ht Hk. assert (Hc : (k, t) ∈ concat ls) by by apply Hin'.
    rewrite Hmax in Hc. by apply not_elem_of_nil in Hc.
Qed.

(** A settlement is executed at most once: however the requests to solve,
    settle and reveal and the arrival of blocks interleave, the settlements
    that are executed are among those stored, in order, each at most as often
    as it was stored; and after one was taken nothing is executed or revealed
    until another is stored. *)
Theorem settled_at_most_once (ops : list Op) (submitted : option Z) (later : list Op) :
  executed (run None ops).2 `sublist_of` stored ops /\
  (stored later = [] -> forall st,
   Forall (fun out => match out with Executed _ _ | Revealed _ _ => False | _ => True end)
     (run (step st (Settle submitted)).1 later).2).
Proof.
  split; [apply (executed_sublist ops None)|]. intros Hl st.
  assert (Hnone : (step st (Settle submitted)).1 = None) by by destruct st.
  rewrite Hnone. clear Hnone. induction later as [|op later IH]; [constructor|].
  assert (Hop : (step None op).1 = None /\
    match (step None op).2 with Executed _ _ | Revealed _ _ => False | _ => True end).
  { destruct op as [[b|]|w sim|sub|]; cbn in *; try done. by case_match. }
  assert (Hl' : stored later = []) by by destruct op as [[b|]|w sim|sub|].
  cbn [run]. destruct (step None op) as [st' out]. cbn [fst snd] in Hop. destruct Hop as [-> Hout].
  specialize (IH Hl'). destruct (run None later) as [st'' outs]. by constructor.
Qed.
End properties.

Section witnesses.
Import Settlement Competition.
Let o (u buy_amount : Z) : Order :=
  mkOrder u None 77 (mkAsset buy_amount 3) (mkAsset 1000 1) Sell Limit 0 No [] [] Erc20 BuyErc20
    (mkSignature PreSign [] 6) [].
Let pool : Interaction.Interaction :=
  Interaction.ILiquidity (Interaction.mkLiquidity (Interaction.UniswapV2 9) (mkAsset 990 1) (mkAsset 1980 3) true).
Let s (u buy_amount : Z) : Solution.Solution :=
  Solution.mkSolution (Solution.Single u) [TFulfillment (mkFulfillment (o u buy_amount) 990 (Dynamic 10))]
    {[1 := 2; 3 := 1]} [] [pool] [] 5 7 None.
Let lossy (x : F64.f64) : Z := 0.
Let swap (k : Interaction.LiquidityKind) (mi eo : Asset) : option Eth.Interaction := Some (mkInteraction 9 0 []).
Let settle (c : Encoding.Settlement) : list byte := [].
Let withdraw (a : Z) : list byte := [].
Let chain : Chain :=
  mkChain (fun a => Some (mkAllowance (allowance_token a) (spender a) 0)) (fun tx => Some ∅) (fun tx => Some 100)
    (fun a => Some false) (fun a => Some 1000000) (Some 3) 30000000 7 8.
Let config : Config := mkConfig 0%Qc None true.
Let auction : AuctionView :=
  mkAuctionView (Some 4) {[1 := Tokens.mkToken 1 None 0 true]} {[3 := BASE]} ∅.
Let encoded (s : Solution.Solution) : res Settlement.Error Settlement :=
  encode lossy (fun _ => F64.of_Z 1) swap settle withdraw chain config s auction.

Lemma settlement_respects_rules_witness :
  exists t, encoded (s 1 900) = Ok t /\ gas_of chain (transaction_of t Enable) = Some (estimate (gas t)) /\
    Tokens.trusted (Tokens.get (view_tokens auction) 1) = true.
Proof.
  destruct (encoded (s 1 900)) as [t| |] eqn:Ht; [|vm_compute in Ht; discriminate..].
  destruct (settlement_respects_rules lossy (fun _ => F64.of_Z 1) swap settle withdraw chain config (s 1 900) auction t Ht)
    as (_ & _ & Htr & Hg & _).
  exists t. split; [reflexivity|split; [exact Hg|]].
  apply (Htr pool (mkAsset 990 1)); [apply list_elem_of_here|reflexivity|apply list_elem_of_here].
Defined.

Lemma merge_ranks_combinations_witness :
  exists l, merge lossy [s 1 1500; s 2 900] auction = Ok l /\ s 2 900 ∈ l /\ (length l <= 1023)%nat.
Proof.
  destruct (merge lossy [s 1 1500; s 2 900] auction) as [l| |] eqn:Hl; [|vm_compute in Hl; discriminate..].
  destruct (merge_ranks_combinations lossy [s 1 1500; s 2 900] l auction Hl) as (Hin & _ & Hlen & _).
  exists l. split; [reflexivity|split; [|exact Hlen]].
  apply Hin. apply list_elem_of_further, list_elem_of_here.
Defined.

(** Merged, the two solutions earn the surplus of both. *)
Example merge_example_scores :
  match merge lossy [s 1 1500; s 2 900] auction with
  | Ok l => rmap (score_or_zero lossy auction) l
  | _ => Panic
  end = Ok [1560; 1080; 480].
Proof. vm_compute. reflexivity. Qed.

Let tx : Encoding.Tx := Encoding.mkTx 5 8 0 [] ∅.
Let t (u buy_amount : Z) : Settlement :=
  mkSettlement 4 (mkSettlementTx tx tx false) (mkGas 100 200 3) (s u buy_amount).

Lemma pick_best_is_best_witness :
  exists solved x, pick_best lossy [t 2 900; t 1 1500] auction = Ok (Some (solved, x)) /\
    1080 <= score solved /\ 480 <= score solved.
Proof.
  destruct (pick_best lossy [t 2 900; t 1 1500] auction) as [[[solved x]|]| |] eqn:Hp;
    [|vm_compute in Hp; discriminate..].
  destruct (pick_best_is_best lossy [t 2 900; t 1 1500] auction _ Hp) as (_ & _ & Hbest & _).
  exists solved, x. split; [reflexivity|split].
  - apply (Hbest (t 2 900)); [apply list_elem_of_here|]. vm_compute. reflexivity.
  - apply (Hbest (t 1 1500)); [apply list_elem_of_further, list_elem_of_here|]. vm_compute. reflexivity.
Defined.
End witnesses.
