(* ===== verification/OrderQuoting.v ===== *)
(** Quotes: crates/shared/src/order_quoting.rs and fee.rs, with the requests of
    crates/model/src/quote.rs and the store of crates/orderbook/src/database and
    crates/database/src/quotes.rs.

    The estimators of gas, prices and native prices and the fetcher of balances
    answer through parameters; a point in time is its number of seconds. The
    lossy conversion [U256::from_f64_lossy] is a parameter. *)
From Stdlib Require Import ZArith Lia String.
From stdpp Require Import prelude gmap numbers.
From S2P Require Import Prelude U256 Bytes Floats ModelOrder.

Open Scope Z_scope.
Open Scope rust_scope.
Import ModelSignature ModelOrder.

(** * crates/model/src/quote.rs and time.rs *)
Module QuoteModel.
Inductive QuoteSigningScheme : Type :=
| QEip712
| QEthSign
| QEip1271 (onchain_order : bool) (verification_gas_limit : Z)
| QPreSign (onchain_order : bool).
Definition additional_gas_amount (self : QuoteSigningScheme) : Z :=
  match self with QEip1271 _ verification_gas_limit => verification_gas_limit | _ => 0 end.
Definition default_verification_gas_limit : Z := 27000.
Definition new_eip1271_with_default_gas (onchain_order : bool) : QuoteSigningScheme :=
  QEip1271 onchain_order default_verification_gas_limit.
Definition signing_scheme_of (scheme : QuoteSigningScheme) : SigningScheme :=
  match scheme with
  | QEip712 => SEip712
  | QEip1271 _ _ => SEip1271
  | QPreSign _ => SPreSign
  | QEthSign => SEthSign
  end.
(** [TryFrom<QuoteSigningDeserializationData>] *)
Inductive DeserializationError : Type := EcdsaCannotBeOnchain | OnlyEip1271HasGasLimit.
Definition quote_signing_scheme (signing_scheme : SigningScheme) (onchain_order : bool)
    (verification_gas_limit : option Z) : res DeserializationError QuoteSigningScheme :=
  match signing_scheme, onchain_order, verification_gas_limit with
  | SEip712, true, None | SEthSign, true, None => Err EcdsaCannotBeOnchain
  | SEip712, false, None => Ok QEip712
  | SEthSign, false, None => Ok QEthSign
  | SEip1271, _, limit => Ok (QEip1271 onchain_order (default default_verification_gas_limit limit))
  | SPreSign, _, None => Ok (QPreSign onchain_order)
  | _, _, Some _ => Err OnlyEip1271HasGasLimit
  end.

(** The amounts are [NonZeroU256]. *)
Inductive SellAmount : Type := BeforeFee (value : Z) | AfterFee (value : Z).
Inductive OrderQuoteSide : Type := SideSell (sell_amount : SellAmount) | SideBuy (buy_amount_after_fee : Z).
Inductive Validity : Type := To (valid_to : Z) | For (valid_for : Z).
Definition U32_MAX : Z := 2 ^ 32 - 1.
(** [now] is that of [time::now_in_epoch_seconds]. *)
Definition actual_valid_to (now : Z) (self : Validity) : Z :=
  match self with To valid_to => valid_to | For valid_for => Z.min (now + valid_for) U32_MAX end.
(** [time::timestamp_after_duration]; a duration is its whole seconds. *)
Definition timestamp_after_duration (timestamp duration : Z) : Z :=
  Z.min (timestamp + Z.min duration U32_MAX) U32_MAX.
End QuoteModel.
Import QuoteModel.

(** * fee.rs *)
Module Fee.
Record FeeParameters : Type := mkFeeParameters { gas_amount : F64.f64; gas_price : F64.f64; sell_token_price : F64.f64 }.
Section fee.
Context (from_f64_lossy : F64.f64 -> Z).
Definition fee_with_additional_cost (self : FeeParameters) (additional_cost : Z) : Z :=
  let fee_in_eth := F64.mul (F64.add (gas_amount self) (F64.of_Z additional_cost)) (gas_price self) in
  from_f64_lossy (F64.ceil (F64.div fee_in_eth (sell_token_price self))).
Definition fee (self : FeeParameters) : Z := fee_with_additional_cost self 0.
End fee.
End Fee.
Import Fee.

(** * price_estimation.rs *)
Module PriceEstimation.
Inductive PriceEstimationError : Type :=
| UnsupportedToken (token : Z) (reason : string)
| NoLiquidity
| UnsupportedOrderType (order_type : string)
| RateLimited
| EstimatorInternal
| ProtocolInternal.
(** The interactions are those of [trade_finding::map_interactions], with the
    same fields. *)
Record Verification : Type := mkVerification {
  from : Z;
  verification_receiver : Z;
  pre_interactions : list InteractionData;
  post_interactions : list InteractionData;
  sell_token_source : SellTokenSource;
  verification_buy_token_destination : BuyTokenDestination;
}.
Record Query : Type := mkQuery {
  query_sell_token : Z;
  query_buy_token : Z;
  in_amount : Z;
  query_kind : OrderKind;
  query_verification : Verification;
  block_dependent : bool;
}.
Record Estimate : Type := mkEstimate { out_amount : Z; gas : Z; solver : Z; verified : bool }.
Inductive QuoteVerificationMode : Type := Unverified | Prefer | EnforceWhenPossible.
End PriceEstimation.
Import PriceEstimation.

(** [Query] of account_balances.rs *)
Record BalanceQuery : Type := mkBalanceQuery {
  balance_owner : Z;
  balance_token : Z;
  balance_source : SellTokenSource;
  balance_interactions : list InteractionData;
}.

(** * order_quoting.rs *)
Module OrderQuoting.
Definition U64_MAX : Z := 2 ^ 64 - 1.
Record QuoteParameters : Type := mkQuoteParameters {
  parameters_sell_token : Z;
  parameters_buy_token : Z;
  side : OrderQuoteSide;
  verification : Verification;
  signing_scheme : QuoteSigningScheme;
  additional_gas : Z;
}.
Definition to_price_query (self : QuoteParameters) : Query :=
  let '(kind, in_amount) :=
    match side self with
    | SideSell (BeforeFee sell_amount) | SideSell (AfterFee sell_amount) => (Sell, sell_amount)
    | SideBuy buy_amount_after_fee => (Buy, buy_amount_after_fee)
    end in
  mkQuery (parameters_sell_token self) (parameters_buy_token self) in_amount kind (verification self) true.
(** [u64::saturating_add] *)
Definition parameters_additional_cost (self : QuoteParameters) : Z :=
  Z.min (additional_gas_amount (signing_scheme self) + additional_gas self) U64_MAX.

Inductive QuoteKind : Type := Standard | Eip1271OnchainOrder | PreSignOnchainOrder.
#[export] Instance QuoteKind_eq_dec : EqDecision QuoteKind.
Proof. solve_decision. Defined.
Definition quote_kind_from_signing_scheme (scheme : QuoteSigningScheme) : QuoteKind :=
  match scheme with
  | QEip1271 true _ => Eip1271OnchainOrder
  | QPreSign true => PreSignOnchainOrder
  | _ => Standard
  end.

Record QuoteData : Type := mkQuoteData {
  sell_token : Z;
  buy_token : Z;
  quoted_sell_amount : Z;
  quoted_buy_amount : Z;
  fee_parameters : FeeParameters;
  kind : OrderKind;
  expiration : Z;
  quote_kind : QuoteKind;
  quote_solver : Z;
  quote_verified : bool;
}.
Record Quote : Type := mkQuote {
  id : option Z;
  data : QuoteData;
  sell_amount : Z;
  buy_amount : Z;
  fee_amount : Z;
}.

Record QuoteSearchParameters : Type := mkQuoteSearchParameters {
  search_sell_token : Z;
  search_buy_token : Z;
  search_sell_amount : Z;
  search_buy_amount : Z;
  search_fee_amount : Z;
  search_kind : OrderKind;
  search_signing_scheme : QuoteSigningScheme;
  search_additional_gas : Z;
  search_verification : Verification;
}.
(** [||] adds the amounts only when the first test fails. *)
Definition matches (self : QuoteSearchParameters) (data : QuoteData) : res unit bool :=
  let* amounts_match :=
    match search_kind self with
    | Buy => Ok (search_buy_amount self =? quoted_buy_amount data)
    | Sell =>
        if search_sell_amount self =? quoted_sell_amount data then Ok true
        else
          let* total := u_add (search_sell_amount self) (search_fee_amount self) in
          Ok (total =? quoted_sell_amount data)
    end in
  Ok (amounts_match && (search_sell_token self =? sell_token data)
        && (search_buy_token self =? buy_token data) && bool_decide (search_kind self = kind data)).
Definition search_additional_cost (self : QuoteSearchParameters) : Z :=
  Z.min (additional_gas_amount (search_signing_scheme self) + search_additional_gas self) U64_MAX.

(** ** The trait of the stores *)
Class QuoteStoring (S : Type) : Type := {
  save : S -> QuoteData -> res unit (S * Z);
  get : S -> Z -> res unit (option QuoteData);
  find : S -> QuoteSearchParameters -> Z -> res unit (option (Z * QuoteData));
}.
(** A quote that is read back may no longer be accurate. *)
Definition unverified (data : QuoteData) : QuoteData :=
  mkQuoteData (sell_token data) (buy_token data) (quoted_sell_amount data) (quoted_buy_amount data)
    (fee_parameters data) (kind data) (expiration data) (quote_kind data) (quote_solver data) false.
(** What the quoter needs of a store. *)
Class QuoteStoringLaws (S : Type) `{QuoteStoring S} : Prop := {
  save_get s d s' i : save s d = Ok (s', i) -> get s' i = Ok (Some (unverified d));
  find_sound s p now i d : find s p now = Ok (Some (i, d)) ->
    get s i = Ok (Some d) /\ matches p d = Ok true /\ now <= expiration d /\
    quote_kind d = quote_kind_from_signing_scheme (search_signing_scheme p);
  find_complete s p now i d : find s p now = Ok None -> get s i = Ok (Some d) -> matches p d = Ok true ->
    now <= expiration d -> quote_kind d = quote_kind_from_signing_scheme (search_signing_scheme p) -> False;
}.

Inductive CalculateQuoteError : Type :=
| SellAmountDoesNotCoverFee (fee_amount : Z)
| Price (e : PriceEstimationError)
| QuoteNotVerified
| CalculateOther.
Inductive FindQuoteError : Type :=
| NotFound (id : option Z)
| ParameterMismatch (data : QuoteData)
| Expired (expiration : Z)
| FindOther.

(** [Validity], in seconds. *)
Record QuoteValidity : Type := mkQuoteValidity {
  eip1271_onchain_quote : Z;
  presign_onchain_quote : Z;
  standard_quote : Z;
}.
(** [OrderQuoter] without its store; the services are functions. *)
Record OrderQuoter : Type := mkOrderQuoter {
  price_estimator : Query -> res PriceEstimationError Estimate;
  native_price_estimator : Z -> res PriceEstimationError F64.f64;
  gas_estimator : res unit F64.f64;
  validity : QuoteValidity;
  balance_fetcher : BalanceQuery -> res unit Z;
  quote_verification : QuoteVerificationMode;
}.

Section quoter.
Context (from_f64_lossy : F64.f64 -> Z).

Definition new_quote (id : option Z) (data : QuoteData) : Quote :=
  mkQuote id data (quoted_sell_amount data) (quoted_buy_amount data) (fee from_f64_lossy (fee_parameters data)).
Definition with_additional_cost (self : Quote) (additional_cost : Z) : Quote :=
  mkQuote (id self) (data self) (sell_amount self) (buy_amount self)
    (fee_with_additional_cost from_f64_lossy (fee_parameters (data self)) additional_cost).
(** The division of the full product panics for a quote that sells nothing. *)
Definition with_scaled_sell_amount {E} (self : Quote) (amount : Z) : res E Quote :=
  if quoted_sell_amount (data self) =? 0 then Panic
  else
    Ok (mkQuote (id self) (data self) amount
      (default U256_MAX (u256_try_from (quoted_buy_amount (data self) * amount / quoted_sell_amount (data self))))
      (fee_amount self)).

Definition get_balance (self : OrderQuoter) (verification : Verification) (token : Z) : res unit Z :=
  balance_fetcher self
    (mkBalanceQuery (from verification) token (sell_token_source verification) (pre_interactions verification)).
(** A quote that is not verified is accepted when it need not be, or could not
    be because the user lacks the balance. *)
Definition verify_quote (self : OrderQuoter) (estimate : Estimate) (parameters : QuoteParameters) (sell_amount : Z)
  : res CalculateQuoteError unit :=
  if verified estimate || negb match quote_verification self with EnforceWhenPossible => true | _ => false end
  then Ok tt
  else
    match get_balance self (verification parameters) (parameters_sell_token parameters) with
    | Ok balance => if sell_amount <=? balance then Err QuoteNotVerified else Ok tt
    | Err _ => Err QuoteNotVerified
    | Panic => Panic
    end.
(** The requests are made concurrently; the error is that of the first here. *)
Definition compute_quote_data (self : OrderQuoter) (now : Z) (parameters : QuoteParameters)
  : res CalculateQuoteError QuoteData :=
  let expiration :=
    match signing_scheme parameters with
    | QEip1271 true _ => now + eip1271_onchain_quote (validity self)
    | QPreSign true => now + presign_onchain_quote (validity self)
    | _ => now + standard_quote (validity self)
    end in
  let trade_query := to_price_query parameters in
  let* gas_estimate := map_err (fun _ => Price ProtocolInternal) (gas_estimator self) in
  let* trade_estimate := map_err Price (price_estimator self trade_query) in
  let* sell_token_price := map_err Price (native_price_estimator self (parameters_sell_token parameters)) in
  let* _ := map_err Price (native_price_estimator self (parameters_buy_token parameters)) in
  let '(quoted_sell_amount, quoted_buy_amount) :=
    match side parameters with
    | SideSell (BeforeFee sell_amount) | SideSell (AfterFee sell_amount) => (sell_amount, out_amount trade_estimate)
    | SideBuy buy_amount => (out_amount trade_estimate, buy_amount)
    end in
  let fee_parameters := mkFeeParameters (F64.of_Z (gas trade_estimate)) gas_estimate sell_token_price in
  let* _ := verify_quote self trade_estimate parameters quoted_sell_amount in
  Ok (mkQuoteData (parameters_sell_token parameters) (parameters_buy_token parameters) quoted_sell_amount
        quoted_buy_amount fee_parameters (query_kind trade_query) expiration
        (quote_kind_from_signing_scheme (signing_scheme parameters)) (solver trade_estimate) (verified trade_estimate)).
Definition calculate_quote (self : OrderQuoter) (now : Z) (parameters : QuoteParameters)
  : res CalculateQuoteError Quote :=
  let* data := compute_quote_data self now parameters in
  let quote := with_additional_cost (new_quote None data) (parameters_additional_cost parameters) in
  match side parameters with
  | SideSell (BeforeFee sell_amount_before_fee) =>
      let sell_amount := U256.saturating_sub sell_amount_before_fee (fee_amount quote) in
      if sell_amount =? 0 then Err (SellAmountDoesNotCoverFee (fee_amount quote))
      else with_scaled_sell_amount quote sell_amount
  | _ => Ok quote
  end.

Context {S : Type} `{QuoteStoring S}.
Definition store_quote (s : S) (quote : Quote) : res unit (S * Quote) :=
  let* ' (s, id) := save s (data quote) in
  Ok (s, mkQuote (Some id) (data quote) (sell_amount quote) (buy_amount quote) (fee_amount quote)).
Definition find_quote (s : S) (now : Z) (id : option Z) (parameters : QuoteSearchParameters)
  : res FindQuoteError Quote :=
  let* ' (id, data) :=
    match id with
    | Some id =>
        let* found := map_err (fun _ => FindOther) (get s id) in
        let* data := ok_or found (NotFound (Some id)) in
        let* matching := map_err (fun _ => FindOther) (matches parameters data) in
        if negb matching then Err (ParameterMismatch data)
        else if expiration data <? now then Err (Expired (expiration data))
        else Ok (id, data)
    | None =>
        let* found := map_err (fun _ => FindOther) (find s parameters now) in
        ok_or found (NotFound None)
    end in
  let quote := with_additional_cost (new_quote (Some id) data) (search_additional_cost parameters) in
  match search_kind parameters with
  | Sell => with_scaled_sell_amount quote (search_sell_amount parameters)
  | Buy => Ok quote
  end.
End quoter.

(** ** The trait of the quoters, and what a client may rely on *)
Class Quoting (S : Type) : Type := {
  quoting_calculate : S -> QuoteParameters -> res CalculateQuoteError Quote;
  quoting_store : S -> Quote -> res unit (S * Quote);
  quoting_find : S -> option Z -> QuoteSearchParameters -> res FindQuoteError Quote;
}.
Class QuotingLaws (S : Type) `{Quoting S} : Prop := {
  quoting_find_matches s i p quote : quoting_find s i p = Ok quote -> matches p (data quote) = Ok true;
  quoting_calculate_for s parameters quote : quoting_calculate s parameters = Ok quote ->
    sell_token (data quote) = parameters_sell_token parameters /\
    buy_token (data quote) = parameters_buy_token parameters /\
    kind (data quote) = query_kind (to_price_query parameters);
  quoting_store_same s quote s' stored : quoting_store s quote = Ok (s', stored) -> data stored = data quote;
}.
(** The [OrderQuoter] at a time *)
Definition order_quoter_quoting (from_f64_lossy : F64.f64 -> Z) (quoter : OrderQuoter) (now : Z)
    (S : Type) `{QuoteStoring S} : Quoting S :=
  {| quoting_calculate _ := calculate_quote from_f64_lossy quoter now;
     quoting_store := store_quote;
     quoting_find s i := find_quote from_f64_lossy s now i |}.
End OrderQuoting.
Import OrderQuoting.

(** * The store of the order book: the table and its queries *)
Module QuoteStore.
Record Postgres : Type := mkPostgres { next_id : Z; rows : gmap Z QuoteData }.
(** [create_quote_row] and [TryFrom<QuoteRow>]: all but the flag of verification. *)
Definition postgres_save (s : Postgres) (data : QuoteData) : res unit (Postgres * Z) :=
  Ok (mkPostgres (next_id s + 1) (<[next_id s := unverified data]> (rows s)), next_id s).
Definition postgres_get (s : Postgres) (id : Z) : res unit (option QuoteData) := Ok (rows s !! id).
(** The WHERE clause of [find] *)
Definition selected (p : QuoteSearchParameters) (sell_amount_1 expiration : Z) (row : QuoteData) : bool :=
  (sell_token row =? search_sell_token p) && (buy_token row =? search_buy_token p)
  && match kind row with
     | Sell => (quoted_sell_amount row =? search_sell_amount p) || (quoted_sell_amount row =? sell_amount_1)
     | Buy => quoted_buy_amount row =? search_buy_amount p
     end
  && bool_decide (kind row = search_kind p) && (expiration <=? OrderQuoting.expiration row)
  && bool_decide (quote_kind row = quote_kind_from_signing_scheme (search_signing_scheme p)).
(** ORDER BY gas_amount * gas_price * sell_token_price ASC LIMIT 1 *)
Definition cost (row : QuoteData) : F64.f64 :=
  F64.mul (F64.mul (gas_amount (fee_parameters row)) (gas_price (fee_parameters row)))
    (sell_token_price (fee_parameters row)).
Definition cheaper (best row : option (Z * QuoteData)) : option (Z * QuoteData) :=
  match best, row with
  | Some b, Some r => if F64.ltb (cost r.2) (cost b.2) then Some r else Some b
  | None, r => r
  | b, None => b
  end.
Definition postgres_find (s : Postgres) (p : QuoteSearchParameters) (expiration : Z)
  : res unit (option (Z * QuoteData)) :=
  let* sell_amount_1 := u_add (search_sell_amount p) (search_fee_amount p) in
  Ok (foldl (fun best row => if selected p sell_amount_1 expiration row.2 then cheaper best (Some row) else best)
        None (map_to_list (rows s))).
Definition remove_expired_quotes (s : Postgres) (max_expiry : Z) : Postgres :=
  mkPostgres (next_id s) (filter (fun '(_, row) => ~ expiration row < max_expiry) (rows s)).
#[export] Instance postgres_storing : QuoteStoring Postgres :=
  {| save := postgres_save; get := postgres_get; find := postgres_find |}.
End QuoteStore.
Import QuoteStore.

(** * Lemmas *)
Lemma selected_spec p total now row : (u_add (search_sell_amount p) (search_fee_amount p) : res unit Z) = Ok total ->
  selected p total now row = true <->
  matches p row = Ok true /\ now <= expiration row /\
  quote_kind row = quote_kind_from_signing_scheme (search_signing_scheme p).
Proof.
  intros Ht. unfold selected, matches. rewrite Ht, !andb_true_iff, !bool_decide_eq_true, Z.leb_le.
  rewrite (Z.eqb_sym (sell_token row)), (Z.eqb_sym (buy_token row)).
  split.
  - intros (((((Hs & Hb) & Ha) & Hk) & Hn) & Hq). split; [|done]. rewrite <- Hk, Hs, Hb, bool_decide_true by done.
    destruct (kind row); cbn [rbind].
    + by rewrite Z.eqb_sym, Ha.
    + rewrite !(Z.eqb_sym (quoted_sell_amount row)) in Ha.
      destruct (search_sell_amount p =? quoted_sell_amount row); cbn [rbind orb] in *; [done|by rewrite Ha].
  - intros (H & Hn & Hq). apply rbind_Ok in H as (b & Hb & [= Ht']). rewrite !andb_true_iff, bool_decide_eq_true in Ht'.
    destruct Ht' as (((-> & Hs) & Hb') & Hk). rewrite <- Hk. split_and!; try done.
    destruct (search_kind p); rewrite ?(Z.eqb_sym (quoted_sell_amount row)), ?(Z.eqb_sym (quoted_buy_amount row));
      [by injection Hb|].
    destruct (search_sell_amount p =? quoted_sell_amount row); [done|]. by injection Hb.
Qed.

Section search.
Context (f : Z * QuoteData -> bool).
Let step := fun (best : option (Z * QuoteData)) row => if f row then cheaper best (Some row) else best.

Lemma cheaper_choice best row : cheaper best (Some row) = best \/ cheaper best (Some row) = Some row.
Proof. destruct best; cbn; [case_match; auto|by right]. Qed.

Lemma search_found l best i d : foldl step best l = Some (i, d) ->
  best = Some (i, d) \/ ((i, d) ∈ l /\ f (i, d) = true).
Proof.
  revert best. induction l as [|row l IH]; intros best; cbn [foldl]; [by left|].
  intros [Hb|[Hin Hf]]%IH; [|right; split; [by right|done]]. unfold step in Hb.
  destruct (f row) eqn:Hf; [|by left]. destruct (cheaper_choice best row) as [Hc|Hc]; rewrite Hc in Hb; [by left|].
  right. injection Hb as ->. split; [left|done].
Qed.

Lemma search_not_found l best : foldl step best l = None -> best = None /\ Forall (fun row => f row = false) l.
Proof.
  revert best. induction l as [|row l IH]; intros best; cbn [foldl]; [by intros ->|].
  intros [Hb Hl]%IH. unfold step in Hb. destruct (f row) eqn:Hf; [|by split; [|constructor]].
  exfalso. destruct best; cbn in Hb; [by case_match|done].
Qed.
End search.

#[export] Instance postgres_laws : QuoteStoringLaws Postgres.
Proof.
  split.
  - intros s d s' i [= <- <-]. cbn. unfold postgres_get. cbn. by rewrite lookup_insert_eq.
  - intros s p now i d H. cbn in *. unfold postgres_find in H. apply rbind_Ok in H as (t & Ht & H). injection H as H.
    apply (search_found (fun row => selected p t now row.2)) in H as [?|[Hin Hf]]; [done|]. split.
    + unfold postgres_get. f_equal. by apply elem_of_map_to_list.
    + by apply (selected_spec p t).
  - intros s p now i d H Hg Hm Hn Hq. cbn in *. unfold postgres_find in H. apply rbind_Ok in H as (t & Ht & H).
    injection H as H. injection Hg as Hg. apply (search_not_found (fun row => selected p t now row.2)) in H as [_ H].
    rewrite Forall_forall in H. apply elem_of_map_to_list, list_elem_of_In, H in Hg. cbn in Hg.
    rewrite (proj2 (selected_spec p t now d Ht)) in Hg; done.
Qed.

Section quotes.
Context (from_f64_lossy : F64.f64 -> Z) (quoter : OrderQuoter).
Implicit Types (d : QuoteData) (quote : Quote) (parameters : QuoteParameters).

(** The final fee of a quote and the data of [quote] scaled. *)
Definition final_fee d (parameters : QuoteParameters) : Z :=
  fee_with_additional_cost from_f64_lossy (fee_parameters d) (parameters_additional_cost parameters).
Definition requested (parameters : QuoteParameters) : Z :=
  match side parameters with
  | SideSell (BeforeFee amount) | SideSell (AfterFee amount) => amount
  | SideBuy amount => amount
  end.
(** The numbers are of their types: an amount that is asked for is not zero. *)
Record sized parameters : Prop := {
  sized_requested : 0 < requested parameters <= U256_MAX;
  sized_estimate q e : price_estimator quoter q = Ok e -> u256 (out_amount e);
  sized_fee x : u256 (from_f64_lossy x);
}.

Lemma scaled_Ok {E} quote amount : 0 < quoted_sell_amount (data quote) -> u256 (quoted_buy_amount (data quote)) ->
  0 <= amount <= quoted_sell_amount (data quote) ->
  (with_scaled_sell_amount quote amount : res E Quote) =
  Ok (mkQuote (id quote) (data quote) amount
    (quoted_buy_amount (data quote) * amount / quoted_sell_amount (data quote)) (fee_amount quote)).
Proof.
  intros Hs Hb Ha. unfold with_scaled_sell_amount. rewrite (proj2 (Z.eqb_neq (quoted_sell_amount (data quote)) 0)) by lia.
  erewrite (proj2 (u256_try_from_Some _ _)); [done|split; [done|]].
  destruct Hb. apply (Z.le_trans _ (quoted_buy_amount (data quote))); [|lia].
  apply Z.div_le_upper_bound; [lia|nia].
Qed.

(** What is computed for a request. *)
Record data_for parameters d : Prop := {
  for_sell_token : sell_token d = parameters_sell_token parameters;
  for_buy_token : buy_token d = parameters_buy_token parameters;
  for_kind : kind d = query_kind (to_price_query parameters);
  for_quote_kind : quote_kind d = quote_kind_from_signing_scheme (signing_scheme parameters);
  for_amount : match kind d with
               | Sell => quoted_sell_amount d = requested parameters /\ u256 (quoted_buy_amount d)
               | Buy => quoted_buy_amount d = requested parameters
               end;
  for_verified : quote_verification quoter = EnforceWhenPossible -> quote_verified d = false ->
    exists balance, get_balance quoter (verification parameters) (parameters_sell_token parameters) = Ok balance /\
      balance < quoted_sell_amount d;
}.

Lemma verify_quote_Ok estimate parameters amount : verify_quote quoter estimate parameters amount = Ok tt ->
  quote_verification quoter = EnforceWhenPossible -> verified estimate = false ->
  exists balance, get_balance quoter (verification parameters) (parameters_sell_token parameters) = Ok balance /\
    balance < amount.
Proof.
  unfold verify_quote. intros H Hm Hv. rewrite Hm, Hv in H. cbn in H. destruct get_balance as [balance| |]; [|done..].
  exists balance. split; [done|]. by destruct (Z.leb_spec amount balance).
Qed.

Lemma compute_quote_data_Ok now parameters d : compute_quote_data quoter now parameters = Ok d ->
  exists e, price_estimator quoter (to_price_query parameters) = Ok e /\
    verify_quote quoter e parameters (quoted_sell_amount d) = Ok tt /\ quote_verified d = verified e /\
    sell_token d = parameters_sell_token parameters /\ buy_token d = parameters_buy_token parameters /\
    kind d = query_kind (to_price_query parameters) /\
    quote_kind d = quote_kind_from_signing_scheme (signing_scheme parameters) /\
    (quoted_sell_amount d, quoted_buy_amount d) =
      match side parameters with
      | SideSell (BeforeFee amount) | SideSell (AfterFee amount) => (amount, out_amount e)
      | SideBuy amount => (out_amount e, amount)
      end.
Proof.
  intros H. unfold compute_quote_data in H.
  apply rbind_Ok in H as (gas & _ & H). apply rbind_Ok in H as (e & He & H). apply map_err_Ok in He.
  apply rbind_Ok in H as (price & _ & H). apply rbind_Ok in H as (? & _ & H). exists e.
  destruct (match side parameters with SideSell _ => _ | _ => _ end) as [qs qb] eqn:Hq.
  apply rbind_Ok in H as ([] & Hv & H). by injection H as <-.
Qed.

Lemma compute_quote_data_for now parameters d : sized parameters ->
  compute_quote_data quoter now parameters = Ok d -> data_for parameters d.
Proof.
  intros [_ Hout _] (e & He & Hv & Hve & Hs & Hb & Hk & Hqk & Ha)%compute_quote_data_Ok. apply Hout in He.
  split; [done..| |].
  - rewrite Hk. unfold requested, to_price_query. destruct (side parameters) as [[]|]; cbn; injection Ha as Ha1 Ha2;
      rewrite ?Ha1, ?Ha2; by try split.
  - intros Hm Hf. eapply verify_quote_Ok; [exact Hv|done|congruence].
Qed.

(** The parts of [calculate_quote]: the data, and the amounts by the side. *)
Lemma calculate_quote_Ok now parameters quote :
  calculate_quote from_f64_lossy quoter now parameters = Ok quote ->
  compute_quote_data quoter now parameters = Ok (data quote) /\
  fee_amount quote = final_fee (data quote) parameters /\
  match side parameters with
  | SideSell (BeforeFee amount) =>
      0 < sell_amount quote /\ sell_amount quote = Z.max (amount - fee_amount quote) 0 /\
      with_scaled_sell_amount (E := unit) quote (sell_amount quote) = Ok quote
  | _ => sell_amount quote = quoted_sell_amount (data quote) /\ buy_amount quote = quoted_buy_amount (data quote)
  end.
Proof.
  intros H. unfold calculate_quote in H. apply rbind_Ok in H as (d & Hd & H).
  destruct (side parameters) as [[amount|amount]|amount]; [|by injection H as <-..].
  case_match; [done|]. bool_to_prop. unfold with_scaled_sell_amount in *. case_match eqn:Hz; [done|].
  injection H as <-. cbn in *. rewrite Hz. unfold U256.saturating_sub in *. split_and!; try done. lia.
Qed.

(** A quote gives the amounts it was computed from, scaled to what is sold. *)
Lemma quote_amounts now parameters quote : sized parameters ->
  calculate_quote from_f64_lossy quoter now parameters = Ok quote ->
  match kind (data quote) with
  | Buy => sell_amount quote = quoted_sell_amount (data quote) /\ buy_amount quote = quoted_buy_amount (data quote)
  | Sell => 0 < sell_amount quote <= quoted_sell_amount (data quote) /\ u256 (quoted_buy_amount (data quote)) /\
      buy_amount quote = quoted_buy_amount (data quote) * sell_amount quote / quoted_sell_amount (data quote)
  end.
Proof.
  intros Hsz H. apply calculate_quote_Ok in H as (Hd & Hfee & Hside).
  apply compute_quote_data_for in Hd; [|done]. destruct Hd as [_ _ Hk _ Ha _], Hsz as [Hr _ Hf].
  assert (0 <= fee_amount quote) by (rewrite Hfee; apply Hf).
  unfold to_price_query, requested in *. destruct (side parameters) as [[amount|amount]|amount]; cbn in Hk; rewrite Hk in *.
  - destruct Hside as (Hpos & Hsell & Hscale), Ha as [Hq Hb]. rewrite scaled_Ok in Hscale by (done || lia).
    injection Hscale as Hscale. split; [lia|]. split; [done|]. by rewrite <- Hscale at 1.
  - destruct Hside as [-> ->], Ha as [Hq Hb]. split; [lia|]. split; [done|]. by rewrite Z.div_mul by lia.
  - done.
Qed.
End quotes.

(** * Properties *)
Section properties.
Context (from_f64_lossy : F64.f64 -> Z) (quoter : OrderQuoter).

(** The parameters by which an order for a quote is searched: the order trades
    the amounts of the quote, and is signed the way the quote was asked for. *)
Record search_for_quote (p : QuoteSearchParameters) (parameters : QuoteParameters) (quote : Quote) : Prop := {
  same_sell_token : search_sell_token p = parameters_sell_token parameters;
  same_buy_token : search_buy_token p = parameters_buy_token parameters;
  same_kind : search_kind p = query_kind (to_price_query parameters);
  same_sell_amount : search_kind p = Sell -> search_sell_amount p = sell_amount quote;
  same_buy_amount : search_kind p = Buy -> search_buy_amount p = buy_amount quote;
  same_fee_amount : search_fee_amount p = fee_amount quote;
  same_gas : search_additional_cost p = parameters_additional_cost parameters;
}.

Lemma search_matches now parameters quote p : sized from_f64_lossy quoter parameters ->
  calculate_quote from_f64_lossy quoter now parameters = Ok quote -> search_for_quote p parameters quote ->
  matches p (data quote) = Ok true.
Proof.
  intros Hsz H Hp. pose proof H as (Hd & Hfee & Hside)%calculate_quote_Ok.
  apply (compute_quote_data_for from_f64_lossy) in Hd as Hfor; [|done]. destruct Hfor as [H1 H2 H3 _ H5 _], Hsz as [Hr _ _].
  unfold matches. rewrite (same_sell_token _ _ _ Hp), (same_buy_token _ _ _ Hp), H1, H2, !Z.eqb_refl.
  pose proof (same_kind _ _ _ Hp) as Hk. rewrite bool_decide_true by congruence. rewrite H3, <- Hk in H5.
  unfold requested, to_price_query in *. destruct (side parameters) as [[amount|amount]|amount]; cbn in Hk; rewrite Hk in *.
  - destruct Hside as (Hpos & Hsell & _), H5 as [Hq _].
    rewrite (same_sell_amount _ _ _ Hp Hk), (same_fee_amount _ _ _ Hp).
    case_match; [done|]. bool_to_prop.
    rewrite (proj2 (u_add_Ok _ _ amount)) by lia. cbn. by rewrite Hq, Z.eqb_refl.
  - rewrite (same_sell_amount _ _ _ Hp Hk). destruct Hside as [-> _]. by rewrite Z.eqb_refl.
  - rewrite (same_buy_amount _ _ _ Hp Hk). destruct Hside as [_ ->]. cbn. by rewrite Z.eqb_refl.
Qed.

Lemma stored_quote_found {S : Type} `{QuoteStoringLaws S} (s s' : S) (now now' : Z)
    (parameters : QuoteParameters) (quote stored : Quote) (p : QuoteSearchParameters) :
  sized from_f64_lossy quoter parameters ->
  calculate_quote from_f64_lossy quoter now parameters = Ok quote ->
  store_quote s quote = Ok (s', stored) ->
  search_for_quote p parameters quote -> search_signing_scheme p = signing_scheme parameters ->
  now' <= expiration (data quote) ->
  (exists found, find_quote from_f64_lossy s' now' (id stored) p = Ok found /\
    id found = id stored /\ data found = unverified (data quote) /\
    sell_amount found = sell_amount quote /\ buy_amount found = buy_amount quote /\
    fee_amount found = fee_amount quote) /\
  find_quote from_f64_lossy s' now' None p <> Err (NotFound None).
Proof.
  intros Hsz Hq Hst Hp Hsch Hexp. pose proof (search_matches _ _ _ _ Hsz Hq Hp) as Hm.
  pose proof Hq as (Hd & Hfee & Hside)%calculate_quote_Ok.
  apply (compute_quote_data_for from_f64_lossy) in Hd as Hfor; [|done]. destruct Hfor as [_ _ H3 H4 H5 _].
  unfold store_quote in Hst. apply rbind_Ok in Hst as ([s1 i] & Hsave & [= -> <-]).
  apply save_get in Hsave as Hget. split.
  - unfold find_quote. cbn [id]. rewrite Hget. cbn [map_err ok_or rbind].
    replace (matches p (unverified (data quote))) with (matches p (data quote)) by done. rewrite Hm. cbn.
    rewrite (proj2 (Z.ltb_ge (expiration (data quote)) now')) by done. cbn. rewrite (same_gas _ _ _ Hp).
    rewrite H3, <- (same_kind _ _ _ Hp) in H5.
    apply (quote_amounts from_f64_lossy) in Hq; [|done]. rewrite H3, <- (same_kind _ _ _ Hp) in Hq.
    destruct (search_kind p) eqn:Hk.
    + destruct Hq as [-> ->]. eexists. split; [done|]. cbn. by rewrite Hfee.
    + destruct Hq as (Hs & Hb & Hbuy). rewrite (same_sell_amount _ _ _ Hp Hk).
      rewrite scaled_Ok; [|cbn in *; done || lia..]. eexists. split; [done|]. cbn. by rewrite Hbuy, Hfee.
  - unfold find_quote. destruct (find s' p now') as [[[j d]|]| |] eqn:Hf; cbn; try done.
    + destruct (search_kind p); [done|]. unfold with_scaled_sell_amount. destruct (_ =? 0); discriminate.
    + intros _. apply (find_complete _ _ _ _ _ Hf Hget); [exact Hm|exact Hexp|]. by rewrite Hsch, <- H4.
Qed.

(** A quote that is stored is found for its order: as long as it has not
    expired, the search by the identifier it was stored under succeeds for an
    order over the amounts of the quote, and gives the amounts and the fee that
    were calculated, whichever side was asked for and with any store that keeps
    its promises; and an order that is placed without an identifier finds a
    quote as well, one that matches it and has not expired. *)
Theorem quote_found_for_its_order {S : Type} `{QuoteStoringLaws S} (s s' : S) (now now' : Z)
    (parameters : QuoteParameters) (quote stored : Quote) (p : QuoteSearchParameters) :
  sized from_f64_lossy quoter parameters ->
  calculate_quote from_f64_lossy quoter now parameters = Ok quote ->
  store_quote s quote = Ok (s', stored) ->
  search_for_quote p parameters quote -> search_signing_scheme p = signing_scheme parameters ->
  now' <= expiration (data quote) ->
  (exists found, find_quote from_f64_lossy s' now' (id stored) p = Ok found /\
    id found = id stored /\ data found = unverified (data quote) /\
    sell_amount found = sell_amount quote /\ buy_amount found = buy_amount quote /\
    fee_amount found = fee_amount quote) /\
  find_quote from_f64_lossy s' now' None p <> Err (NotFound None).
Proof. apply stored_quote_found. Qed.

(** A quote for an amount before fees splits that amount: what is sold and
    the fee add up to it, at least one atom is sold, and the buy amount is the
    estimate scaled down to what is sold; when the fee takes the whole amount
    the answer is the error with the fee, and for data that could be computed
    there is no other outcome. *)
Theorem before_fee_quote_splits_amount (now : Z) (parameters : QuoteParameters) (d : QuoteData) (amount : Z) :
  sized from_f64_lossy quoter parameters ->
  side parameters = SideSell (BeforeFee amount) ->
  compute_quote_data quoter now parameters = Ok d ->
  let fee := final_fee from_f64_lossy d parameters in
  (amount <= fee /\
   calculate_quote from_f64_lossy quoter now parameters = Err (SellAmountDoesNotCoverFee fee)) \/
  (exists quote, calculate_quote from_f64_lossy quoter now parameters = Ok quote /\
    data quote = d /\ fee_amount quote = fee /\
    0 < sell_amount quote /\ sell_amount quote + fee_amount quote = amount /\
    buy_amount quote = quoted_buy_amount d * sell_amount quote / amount /\
    buy_amount quote <= quoted_buy_amount d).
Proof.
  intros Hsz Hside Hd fee. pose proof (sized_fee _ _ _ Hsz) as Hf.
  pose proof (compute_quote_data_for _ _ _ _ _ Hsz Hd) as [_ _ Hk _ Ha _].
  unfold requested, to_price_query in *. rewrite Hside in *. cbn in Hk. rewrite Hk in Ha. destruct Ha as [Hq Hb].
  unfold calculate_quote. rewrite Hd, Hside. cbn [rbind].
  change (fee_amount (with_additional_cost _ _ _)) with fee. unfold U256.saturating_sub.
  pose proof (sized_requested _ _ _ Hsz) as Hr. unfold requested in Hr. rewrite Hside in Hr.
  assert (0 <= fee) by (apply Hf). case_match eqn:Hz; bool_to_prop; [left; split; [lia|done]|right].
  rewrite scaled_Ok by (cbn; done || lia). eexists. split; [done|]. cbn. rewrite Hq. split_and!; [done|done|lia| |done|].
  { unfold fee, final_fee in *. cbn in *. lia. }
  apply Z.div_le_upper_bound; [lia|]. destruct Hb. nia.
Qed.

Lemma find_quote_Ok {S : Type} `{QuoteStoringLaws S} (s : S) (now : Z) (i : option Z) (p : QuoteSearchParameters)
    (quote : Quote) : find_quote from_f64_lossy s now i p = Ok quote ->
  exists j d, default j i = j /\ get s j = Ok (Some d) /\ matches p d = Ok true /\ now <= expiration d /\
    match search_kind p with
    | Sell => with_scaled_sell_amount (E := FindQuoteError)
        (with_additional_cost from_f64_lossy (new_quote from_f64_lossy (Some j) d) (search_additional_cost p))
        (search_sell_amount p)
    | Buy => Ok (with_additional_cost from_f64_lossy (new_quote from_f64_lossy (Some j) d) (search_additional_cost p))
    end = Ok quote.
Proof.
  intros Hf. unfold find_quote in Hf. apply rbind_Ok in Hf as ([j d] & Hf & Hq). exists j, d.
  assert (Hd : default j i = j /\ get s j = Ok (Some d) /\ matches p d = Ok true /\ now <= expiration d); [|naive_solver].
  clear Hq. destruct i as [i|].
  - apply rbind_Ok in Hf as (o & Hg & Hf). apply map_err_Ok in Hg. apply rbind_Ok in Hf as (d' & Hd' & Hf).
    apply ok_or_Ok in Hd' as ->. apply rbind_Ok in Hf as (b & Hb & Hf). apply map_err_Ok in Hb.
    destruct b; [|done]. cbn in Hf. case_match; [done|]. bool_to_prop. injection Hf as -> ->. by split_and!.
  - apply rbind_Ok in Hf as (o & Hg & Hf). apply map_err_Ok in Hg. apply ok_or_Ok in Hf as ->.
    apply find_sound in Hg as (? & ? & ? & _). by split_and!.
Qed.

(** A quote that is found fits the order it was searched for, whatever the
    store: it is the one the store keeps under the identifier it comes with,
    its tokens, kind and amount match the order, it has not expired, and it
    sells what a sell order sells at the rate that was quoted, rounded down. *)
Theorem found_quote_fits_order {S : Type} `{QuoteStoringLaws S} (s : S) (now : Z) (i : option Z)
    (p : QuoteSearchParameters) (quote : Quote) :
  find_quote from_f64_lossy s now i p = Ok quote ->
  exists i', id quote = Some i' /\ default i' i = i' /\ get s i' = Ok (Some (data quote)) /\
  matches p (data quote) = Ok true /\ now <= expiration (data quote) /\
  fee_amount quote =
    fee_with_additional_cost from_f64_lossy (fee_parameters (data quote)) (search_additional_cost p) /\
  match search_kind p with
  | Sell => sell_amount quote = search_sell_amount p /\ 0 <> quoted_sell_amount (data quote) /\
      buy_amount quote =
        Z.min U256_MAX (quoted_buy_amount (data quote) * search_sell_amount p / quoted_sell_amount (data quote))
  | Buy => sell_amount quote = quoted_sell_amount (data quote) /\ buy_amount quote = quoted_buy_amount (data quote)
  end.
Proof.
  intros Hf. apply find_quote_Ok in Hf as (j & d & Hj & Hg & Hm & Hn & Hq). exists j. destruct (search_kind p).
  - injection Hq as <-. cbn. naive_solver.
  - unfold with_scaled_sell_amount in Hq. case_match eqn:Hz; [done|]. injection Hq as <-. cbn in *. bool_to_prop.
    split_and!; try done. unfold u256_try_from. set (b := _ / _). destruct (Z.leb_spec b U256_MAX); cbn; lia.
Qed.
End properties.

(** The quoter keeps the promises of its trait. *)
Lemma order_quoter_laws from_f64_lossy quoter now {S : Type} `{QuoteStoringLaws S} :
  QuotingLaws S (H := order_quoter_quoting from_f64_lossy quoter now S).
Proof.
  split; cbn.
  - intros s i p quote Hq. apply find_quote_Ok in Hq as (j & d & _ & _ & Hm & _ & Hq); [|done].
    destruct (search_kind p); [by injection Hq as <-|].
    unfold with_scaled_sell_amount in Hq. destruct (_ =? 0); [done|]. by injection Hq as <-.
  - intros s parameters quote (Hd & _ & _)%calculate_quote_Ok. 
    by apply compute_quote_data_Ok in Hd as (e & _ & _ & _ & H1 & H2 & H3 & _).
  - intros s quote s' stored Hst. unfold store_quote in Hst. apply rbind_Ok in Hst as ([s1 i] & _ & Hst). by injection Hst as _ <-.
Qed.

(** * A request for 5000 atoms before fees, of which the fee takes 1000 *)
Section witnesses.
Let quoter : OrderQuoter :=
  mkOrderQuoter (fun _ => Ok (mkEstimate 9000 100 7 false)) (fun _ => Ok (F64.of_Z 1)) (Ok (F64.of_Z 10))
    (mkQuoteValidity 600 600 60) (fun _ => Ok 10) EnforceWhenPossible.
Let parameters : QuoteParameters :=
  mkQuoteParameters 1 2 (SideSell (BeforeFee 5000)) (mkVerification 3 3 [] [] SellErc20 BuyErc20) QEip712 0.
Let d : QuoteData :=
  mkQuoteData 1 2 5000 9000 (mkFeeParameters (F64.of_Z 100) (F64.of_Z 10) (F64.of_Z 1)) Sell 160 Standard 7 false.
Let quote : Quote := mkQuote None d 4000 7200 1000.
Let s : Postgres := mkPostgres 4 ∅.
Let s' : Postgres := mkPostgres 5 {[4 := d]}.
Let p : QuoteSearchParameters :=
  mkQuoteSearchParameters 1 2 4000 7100 1000 Sell QEip712 0 (mkVerification 3 3 [] [] SellErc20 BuyErc20).

Lemma as_u64_u256 x : u256 (F64.as_u64 x).
Proof.
  assert (2 ^ 64 - 1 <= U256_MAX) by closed. pose proof (as_u64_bounds x). unfold u256. lia.
Qed.

Lemma sized_parameters : sized F64.as_u64 quoter parameters.
Proof.
  split; [split; closed| |apply as_u64_u256]. intros q e H. injection H as <-. cbn [out_amount]. split; closed.
Qed.

Lemma quote_found_for_its_order_witness :
  exists found, find_quote F64.as_u64 s' 160 (Some 4) p = Ok found /\ buy_amount found = 7200 /\ fee_amount found = 1000.
Proof.
  destruct (quote_found_for_its_order F64.as_u64 quoter s s' 100 160 parameters quote
    (mkQuote (Some 4) d 4000 7200 1000) p) as [(found & Hf & _ & _ & _ & Hb & Hfee) _].
  - exact sized_parameters.
  - vm_compute. reflexivity.
  - reflexivity.
  - split; [reflexivity..|discriminate|reflexivity|reflexivity].
  - reflexivity.
  - closed.
  - exists found. split; [exact Hf|]. split; [exact Hb|exact Hfee].
Defined.

Lemma before_fee_quote_splits_amount_witness :
  exists q, calculate_quote F64.as_u64 quoter 100 parameters = Ok q /\ sell_amount q + fee_amount q = 5000.
Proof.
  destruct (before_fee_quote_splits_amount F64.as_u64 quoter 100 parameters d 5000) as [[H _]|(q & Hq & _ & _ & _ & Hs & _)].
  - exact sized_parameters.
  - reflexivity.
  - vm_compute. reflexivity.
  - exfalso. revert H. vm_compute. intros H. by apply H.
  - exists q. split; [exact Hq|exact Hs].
Defined.

Lemma found_quote_fits_order_witness :
  matches p d = Ok true /\ 160 <= expiration d.
Proof.
  destruct (found_quote_fits_order F64.as_u64 s' 160 None p (mkQuote (Some 4) d 4000 7200 1000))
    as (i & _ & _ & _ & Hm & He & _); [vm_compute; reflexivity|split; [exact Hm|exact He]].
Defined.
End witnesses.
