(* ===== verification/OrderValidation.v ===== *)
(** The admission of orders: crates/shared/src/order_validation.rs, the list of
    banned users of crates/order-validation/src/banned.rs and the app data of
    crates/app-data.

    The detector of bad tokens, the fetcher of balances, the validator of smart
    contract signatures and the counter of limit orders answer through
    parameters, like the JSON parser and the encoding of a call to the hooks
    trampoline; the cache of the crate [cached] is an interface. The quoter is
    the trait of OrderQuoting.v. *)
From Stdlib Require Import ZArith Lia String.
From stdpp Require Import prelude gmap numbers.
From S2P Require Import Prelude U256 Bytes Floats ModelOrder OrderQuoting.

Open Scope Z_scope.
Open Scope rust_scope.
Import ModelSignature ModelOrder.

(** * crates/app-data *)
Module AppData.
Record Hook : Type := mkHook { hook_target : Z; hook_call_data : list byte; hook_gas_limit : Z }.
Record Hooks : Type := mkHooks { hooks_pre : list Hook; hooks_post : list Hook }.
Definition is_empty (self : Hooks) : bool :=
  match hooks_pre self, hooks_post self with [], [] => true | _, _ => false end.
Definition gas_limit (self : Hooks) : Z :=
  foldl (fun total hook => Z.min (total + hook_gas_limit hook) (2 ^ 64 - 1)) 0 (hooks_pre self ++ hooks_post self).

Record PartnerFee : Type := mkPartnerFee { bps : Z; recipient : Z }.
Record ProtocolAppData : Type := mkProtocolAppData {
  hooks : Hooks;
  app_data_signer : option Z;
  replaced_order : option Z;
  partner_fee : option PartnerFee;
}.
Definition default_protocol : ProtocolAppData := mkProtocolAppData (mkHooks [] []) None None None.
(** compat.rs: the hooks of the legacy object *)
Definition from_backend (hooks : Hooks) : ProtocolAppData := mkProtocolAppData hooks None None None.
Record Root : Type := mkRoot { root_metadata : option ProtocolAppData; root_backend : option Hooks }.
Record ValidatedAppData : Type := mkValidatedAppData {
  hash : list byte;
  document : list byte;
  protocol : ProtocolAppData;
}.

(** [String::from_utf8]: the well-formed sequences of bytes. *)
Definition continuation (b : Z) : bool := (0x80 <=? b) && (b <=? 0xBF).
Definition second_of_three (b0 b1 : Z) : bool :=
  if b0 =? 0xE0 then (0xA0 <=? b1) && (b1 <=? 0xBF)
  else if b0 =? 0xED then (0x80 <=? b1) && (b1 <=? 0x9F)
  else (0xE1 <=? b0) && (b0 <=? 0xEF) && continuation b1.
Definition second_of_four (b0 b1 : Z) : bool :=
  if b0 =? 0xF0 then (0x90 <=? b1) && (b1 <=? 0xBF)
  else if b0 =? 0xF4 then (0x80 <=? b1) && (b1 <=? 0x8F)
  else (0xF1 <=? b0) && (b0 <=? 0xF3) && continuation b1.
Fixpoint is_utf8 (l : list Z) : bool :=
  match l with
  | [] => true
  | b0 :: l0 =>
      if b0 <? 0x80 then is_utf8 l0
      else
        match l0 with
        | [] => false
        | b1 :: l1 =>
            if (0xC2 <=? b0) && (b0 <=? 0xDF) then continuation b1 && is_utf8 l1
            else
              match l1 with
              | [] => false
              | b2 :: l2 =>
                  if b0 <? 0xF0 then second_of_three b0 b1 && continuation b2 && is_utf8 l2
                  else
                    match l2 with
                    | [] => false
                    | b3 :: l3 => second_of_four b0 b1 && continuation b2 && continuation b3 && is_utf8 l3
                    end
              end
        end
  end.

(** [Validator] is its limit of the size. *)
Section validator.
Context (keccak256 : list byte -> list byte) (parse_root : list byte -> option Root).
Definition validate (size_limit : Z) (full_app_data : list byte) : res unit ValidatedAppData :=
  if size_limit <? Z.of_nat (length full_app_data) then Err tt
  else if negb (is_utf8 (map Z_of_byte full_app_data)) then Err tt
  else
    let* root := opt (parse_root full_app_data) in
    let protocol :=
      match root_metadata root with
      | Some protocol => protocol
      | None => match root_backend root with Some hooks => from_backend hooks | None => default_protocol end
      end in
    Ok (mkValidatedAppData (OrderCreation.hash_full_app_data keccak256 full_app_data) full_app_data protocol).
End validator.
End AppData.

(** * crates/order-validation/src/banned.rs *)
Module Banned.
(** [TimedCache], at a time in seconds; a read drops what has expired. *)
Class TimedCache (C : Type) : Type := {
  cache_get : C -> Z -> Z -> C * option bool;
  cache_set : C -> Z -> Z -> bool -> C;
}.
(** A cache answers what was set: [entry] says what it holds. *)
Class TimedCacheLaws (C : Type) `{TimedCache C} : Type := {
  entry : C -> Z -> bool -> Prop;
  get_entry c now a c' b : cache_get c now a = (c', Some b) -> entry c a b;
  get_keeps c now a c' o a' b : cache_get c now a = (c', o) -> entry c' a' b -> entry c a' b;
  set_entry c now a b a' b' : entry (cache_set c now a b) a' b' -> (a' = a /\ b' = b) \/ entry c a' b';
}.

Section users.
Context {C : Type} `{TimedCache C}.
(** The cache is the state; [fetch] asks the contract, when there is one. *)
Record Users : Type := mkUsers { banned_list : gset Z; onchain : option (Z -> res unit bool) }.
Definition from_set (list : gset Z) : Users := mkUsers list None.
Definition none : Users := from_set ∅.

(** The addresses without a cached status, and those that are cached as banned. *)
Definition read_cache (cache : C) (now : Z) (need_lookup : list Z) : C * list Z * gset Z :=
  foldl (fun '(cache, missing, banned) address =>
      match cache_get cache now address with
      | (cache, Some is_banned) => (cache, missing, if is_banned : bool then {[address]} ∪ banned else banned)
      | (cache, None) => (cache, missing ++ [address], banned)
      end) (cache, [], ∅) need_lookup.
Definition fill_cache (fetch : Z -> res unit bool) (cache : C) (now : Z) (missing : list Z) : C * gset Z :=
  foldl (fun '(cache, banned) address =>
      match fetch address with
      | Ok is_banned => (cache_set cache now address is_banned, if is_banned : bool then {[address]} ∪ banned else banned)
      | _ => (cache, banned)
      end) (cache, ∅) missing.
Definition banned (self : Users) (cache : C) (now : Z) (addresses : list Z) : C * gset Z :=
  let listed : gset Z := list_to_set addresses ∩ banned_list self in
  let need_lookup : gset Z := list_to_set addresses ∖ banned_list self in
  match onchain self with
  | None => (cache, listed)
  | Some fetch =>
      let '(cache, missing, cached) := read_cache cache now (elements need_lookup) in
      let '(cache, fetched) := fill_cache fetch cache now missing in
      (cache, listed ∪ cached ∪ fetched)
  end.
End users.
End Banned.

(** * order_validation.rs *)
Module OrderValidation.
Import AppData.
Inductive OrderValidToError : Type := Insufficient | Excessive.
Inductive PartialValidationError : Type :=
| Forbidden
| ValidTo (e : OrderValidToError)
| InvalidNativeSellToken
| SameBuyAndSellToken
| UnsupportedBuyTokenDestination (destination : BuyTokenDestination)
| UnsupportedSellTokenSource (source : SellTokenSource)
| UnsupportedOrderType
| UnsupportedToken (token : Z) (reason : string)
| PartialOther.
Inductive AppDataValidationError : Type :=
| Mismatch (provided actual : list byte)
| AppDataInvalid.
Inductive ValidationError : Type :=
| Partial (e : PartialValidationError)
| AppData (e : AppDataValidationError)
| QuoteNotFound
| InvalidQuote
| PriceForQuote (e : PriceEstimation.PriceEstimationError)
| NonZeroFee
| InsufficientBalance
| InsufficientAllowance
| InvalidSignature
| SellAmountOverflow
| TransferSimulationFailed
| MissingFrom
| AppdataFromMismatch (from app_data_signer : Z)
| WrongOwner (recovered : Recovered)
| InvalidEip1271Signature (hash : list byte)
| ZeroAmount
| IncompatibleSigningScheme
| TooManyLimitOrders
| TooMuchGas
| QuoteNotVerified
| Other.

Definition onchain_order_placement_error_from (error : ValidationError) : OnchainOrderPlacementError :=
  match error with
  | QuoteNotFound => PlacementQuoteNotFound
  | Partial _ => PreValidationError
  | InvalidQuote => PlacementInvalidQuote
  | NonZeroFee => PlacementNonZeroFee
  | _ => PlacementOther
  end.
Definition from_verification_error (err : OrderCreation.VerificationError) : ValidationError :=
  match err with
  | OrderCreation.UnableToRecoverSigner => InvalidSignature
  | OrderCreation.UnexpectedSigner recovered => WrongOwner recovered
  | OrderCreation.MissingFrom => MissingFrom
  | OrderCreation.AppdataFromMismatch from app_data_signer => AppdataFromMismatch from app_data_signer
  end.
Definition from_find_error (err : OrderQuoting.FindQuoteError) : ValidationError :=
  match err with
  | OrderQuoting.NotFound _ => QuoteNotFound
  | OrderQuoting.ParameterMismatch _ | OrderQuoting.Expired _ => InvalidQuote
  | OrderQuoting.FindOther => Other
  end.
Definition from_calculate_error (err : OrderQuoting.CalculateQuoteError) : ValidationError :=
  match err with
  | OrderQuoting.Price (PriceEstimation.UnsupportedToken token reason) => Partial (UnsupportedToken token reason)
  | OrderQuoting.CalculateOther | OrderQuoting.Price PriceEstimation.ProtocolInternal => Other
  | OrderQuoting.Price err => PriceForQuote err
  | OrderQuoting.QuoteNotVerified => QuoteNotVerified
  | OrderQuoting.SellAmountDoesNotCoverFee _ => Other
  end.

Record PreOrderData : Type := mkPreOrderData {
  pre_owner : Z;
  pre_sell_token : Z;
  pre_buy_token : Z;
  pre_receiver : Z;
  pre_valid_to : Z;
  pre_partially_fillable : bool;
  pre_buy_token_balance : BuyTokenDestination;
  pre_sell_token_balance : SellTokenSource;
  pre_signing_scheme : SigningScheme;
  pre_class : OrderClass;
}.
Definition actual_receiver (owner : Z) (order : OrderData) : Z :=
  let receiver := default 0 (receiver order) in if receiver =? 0 then owner else receiver.
Definition from_order_creation (owner : Z) (order : OrderData) (signing_scheme : SigningScheme) : PreOrderData :=
  mkPreOrderData owner (sell_token order) (buy_token order) (actual_receiver owner order) (valid_to order)
    (partially_fillable order) (buy_token_balance order) (sell_token_balance order) signing_scheme
    (if fee_amount order =? 0 then Limit else Market).

(** Durations are whole seconds, [Duration::MAX] the largest [u64]. *)
Definition DURATION_MAX : Z := 2 ^ 64 - 1.
Record OrderValidPeriodConfiguration : Type := mkOrderValidPeriodConfiguration {
  min : Z;
  max_market : Z;
  max_limit : Z;
}.
Definition any : OrderValidPeriodConfiguration := mkOrderValidPeriodConfiguration 0 DURATION_MAX DURATION_MAX.
Definition max (self : OrderValidPeriodConfiguration) (order : PreOrderData) : Z :=
  match pre_signing_scheme order with
  | SPreSign => DURATION_MAX
  | _ =>
      match pre_class order with
      | Market => max_market self
      | Limit => max_limit self
      | Liquidity => DURATION_MAX
      end
  end.
Definition validate_period (self : OrderValidPeriodConfiguration) (now : Z) (order : PreOrderData)
  : res OrderValidToError unit :=
  if pre_valid_to order <? QuoteModel.timestamp_after_duration now (min self) then Err Insufficient
  else if QuoteModel.timestamp_after_duration now (max self order) <? pre_valid_to order then Err Excessive
  else Ok tt.
Definition has_same_buy_and_sell_token (order : PreOrderData) (native_token : Z) : bool :=
  (pre_sell_token order =? pre_buy_token order)
  || ((pre_sell_token order =? native_token) && (pre_buy_token order =? BUY_ETH_ADDRESS)).

Record Amounts : Type := mkAmounts { sell : Z; buy : Z; fee : Z }.
(** A product that overflows or a rate that cannot be computed counts as
    outside; the sum of a quote's sell amount and fee panics. *)
Definition is_order_outside_market_price {E} (order quote : Amounts) (kind : OrderKind) : res E bool :=
  match kind with
  | Buy =>
      let* total := u_add (sell quote) (fee quote) in
      Ok (sell order * buy quote <? total * buy order)
  | Sell =>
      Ok (default true
        (product ← checked_mul (fee quote) (buy quote);
         fee_in_buy ← checked_div product (sell quote);
         quote_buy ← checked_sub (buy quote) fee_in_buy;
         Some (sell order * quote_buy <? sell quote * buy order)))
  end.
Definition convert_signing_scheme_into_quote_signing_scheme (scheme : SigningScheme) (order_placement_via_api : bool)
    (verification_gas_limit : Z) : res ValidationError QuoteModel.QuoteSigningScheme :=
  match order_placement_via_api, scheme with
  | true, SEip712 => Ok QuoteModel.QEip712
  | true, SEthSign => Ok QuoteModel.QEthSign
  | false, SEip712 | false, SEthSign => Err IncompatibleSigningScheme
  | _, SPreSign => Ok (QuoteModel.QPreSign (negb order_placement_via_api))
  | _, SEip1271 => Ok (QuoteModel.QEip1271 (negb order_placement_via_api) verification_gas_limit)
  end.

(** The services; the addresses of the contracts and the limits are fields of
    [OrderValidator]. *)
Inductive TokenQuality : Type := Good | Bad (reason : string).
Inductive TransferSimulationError : Type :=
| TransferInsufficientAllowance
| TransferInsufficientBalance
| TransferFailed
| TransferOther.
Inductive SignatureValidationError : Type := SignatureInvalid | SignatureOther.
Record SignatureCheck : Type := mkSignatureCheck {
  check_signer : Z;
  check_hash : list byte;
  check_signature : list byte;
  check_interactions : list InteractionData;
}.
Record OrderValidator : Type := mkOrderValidator {
  native_token : Z;
  banned_users : Banned.Users;
  validity_configuration : OrderValidPeriodConfiguration;
  eip1271_skip_creation_validation : bool;
  bad_token_detector : Z -> res unit TokenQuality;
  hooks_trampoline : Z;
  execute : list (Z * list byte * Z) -> list byte;
  can_transfer : BalanceQuery -> Z -> res TransferSimulationError unit;
  signature_validator : SignatureCheck -> res SignatureValidationError Z;
  limit_order_counter : Z -> res unit Z;
  max_limit_orders_per_user : Z;
  app_data_size_limit : Z;
  max_gas_per_order : Z;
}.

Record OrderAppData : Type := mkOrderAppData { inner : ValidatedAppData; app_data_interactions : Interactions }.
Definition custom_interactions (self : OrderValidator) (hooks : Hooks) : Interactions :=
  let to_interactions (hooks : list Hook) :=
    match hooks with
    | [] => []
    | _ =>
        [mkInteractionData (hooks_trampoline self) 0
           (execute self (map (fun hook => (hook_target hook, hook_call_data hook, hook_gas_limit hook)) hooks))]
    end in
  mkInteractions (to_interactions (hooks_pre hooks)) (to_interactions (hooks_post hooks)).
Definition check_max_limit_orders (self : OrderValidator) (owner : Z) : res ValidationError unit :=
  let* num_limit_orders := map_err (fun _ => Other) (limit_order_counter self owner) in
  if max_limit_orders_per_user self <=? num_limit_orders then Err TooManyLimitOrders else Ok tt.

(** The tokens are tested in turn. *)
Fixpoint detect_all (self : OrderValidator) (tokens : list Z) : res PartialValidationError unit :=
  match tokens with
  | [] => Ok tt
  | token :: tokens =>
      let* quality := map_err (fun _ => PartialOther) (bad_token_detector self token) in
      match quality with
      | Bad reason => Err (UnsupportedToken token reason)
      | Good => detect_all self tokens
      end
  end.
(** The rules that come after the test for banned users. *)
Definition partial_rules (self : OrderValidator) (now : Z) (order : PreOrderData) : res PartialValidationError unit :=
  if bool_decide (pre_class order = Market) && pre_partially_fillable order then Err UnsupportedOrderType
  else if bool_decide (pre_buy_token_balance order <> BuyErc20)
  then Err (UnsupportedBuyTokenDestination (pre_buy_token_balance order))
  else if bool_decide (pre_sell_token_balance order = SellInternal)
  then Err (UnsupportedSellTokenSource (pre_sell_token_balance order))
  else
    let* _ := map_err ValidTo (validate_period (validity_configuration self) now order) in
    if has_same_buy_and_sell_token order (native_token self) then Err SameBuyAndSellToken
    else if pre_sell_token order =? BUY_ETH_ADDRESS then Err InvalidNativeSellToken
    else detect_all self [pre_sell_token order; pre_buy_token order].
Definition partial_validate {C : Type} `{Banned.TimedCache C} (self : OrderValidator) (now : Z)
    (order : PreOrderData) : st C PartialValidationError unit := fun cache =>
  let '(cache, banned) := Banned.banned (banned_users self) cache now [pre_receiver order; pre_owner order] in
  (cache, if bool_decide (banned = ∅) then partial_rules self now order else Err Forbidden).

Section app_data.
Context (keccak256 : list byte -> list byte) (parse_root : list byte -> option Root).
Definition validate_app_data (self : OrderValidator) (app_data : OrderCreation.OrderCreationAppData)
    (full_app_data_override : option (list byte)) : res AppDataValidationError OrderAppData :=
  let validate app_data :=
    map_err (fun _ => AppDataInvalid) (AppData.validate keccak256 parse_root (app_data_size_limit self) app_data) in
  let* app_data :=
    match app_data with
    | OrderCreation.Both full expected =>
        let* validated := validate full in
        if bool_decide (hash validated = expected) then Ok validated else Err (Mismatch expected (hash validated))
    | OrderCreation.Hash hash =>
        match full_app_data_override with
        | Some full => let* validated := validate full in Ok (mkValidatedAppData hash [] (protocol validated))
        | None => Err AppDataInvalid
        end
    | OrderCreation.Full full => validate full
    end in
  Ok (mkOrderAppData app_data (custom_interactions self (hooks (protocol app_data)))).
End app_data.

(** ** The quote of an order *)
Section quote.
Context {S : Type} `{OrderQuoting.Quoting S}.
Import QuoteModel OrderQuoting.

Definition order_quote_parameters (p : QuoteSearchParameters) : res ValidationError QuoteParameters :=
  let* side :=
    match search_kind p with
    | Buy => if search_buy_amount p =? 0 then Err ZeroAmount else Ok (SideBuy (search_buy_amount p))
    | Sell => if search_sell_amount p =? 0 then Err ZeroAmount else Ok (SideSell (AfterFee (search_sell_amount p)))
    end in
  Ok (mkQuoteParameters (search_sell_token p) (search_buy_token p) side (search_verification p)
        (search_signing_scheme p) (search_additional_gas p)).
Definition get_or_create_quote (p : QuoteSearchParameters) (quote_id : option Z) : st S ValidationError Quote :=
  fun s =>
    match quoting_find s quote_id p, quote_id with
    | Ok quote, _ => (s, Ok quote)
    | Err (NotFound _), None =>
        match order_quote_parameters p with
        | Ok parameters =>
            match quoting_calculate s parameters with
            | Ok quote =>
                match quoting_store s quote with
                | Ok (s, quote) => (s, Ok quote)
                | Err _ => (s, Err Other)
                | Panic => (s, Panic)
                end
            | Err err => (s, Err (from_calculate_error err))
            | Panic => (s, Panic)
            end
        | Err err => (s, Err err)
        | Panic => (s, Panic)
        end
    | Err err, _ => (s, Err (from_find_error err))
    | Panic, _ => (s, Panic)
    end.
(** No order with a fee is accepted when the fee is given. *)
Definition get_quote_and_check_fee (p : QuoteSearchParameters) (quote_id : option Z) (fee_amount : option Z)
  : st S ValidationError Quote :=
  let! quote := get_or_create_quote p quote_id in
  st_lift (if match fee_amount with Some fee => negb (fee =? 0) | None => false end then Err NonZeroFee else Ok quote).
End quote.

(** ** The placement of an order *)
Section placement.
Context (keccak256 : list byte -> list byte) (parse_root : list byte -> option Root).
Context (ec_recover : list byte -> Z -> Z -> Z -> option Z).
Context {C S : Type} `{Banned.TimedCache C} `{OrderQuoting.Quoting S}.
Import OrderQuoting ModelOrder.

Definition set_app_data (self : OrderData) (app_data : list byte) : OrderData :=
  mkOrderData (sell_token self) (buy_token self) (receiver self) (sell_amount self) (buy_amount self) (valid_to self)
    app_data (fee_amount self) (kind self) (partially_fillable self) (sell_token_balance self) (buy_token_balance self).
(** The gas to verify the signature of a smart contract wallet; other
    signatures were verified with the owner. *)
Definition verification_gas_limit (self : OrderValidator) (order : OrderCreation.OrderCreation) (domain : list byte)
    (data : OrderData) (owner : Z) (app_data : OrderAppData) : res ValidationError Z :=
  match OrderCreation.signature order with
  | Eip1271 signature =>
      if eip1271_skip_creation_validation self then Ok 0
      else
        let hash := hashed_eip712_message keccak256 domain (hash_struct keccak256 data) in
        map_err (fun err => match err with SignatureInvalid => InvalidEip1271Signature hash | SignatureOther => Other end)
          (signature_validator self (mkSignatureCheck owner hash signature (pre (app_data_interactions app_data))))
  | _ => Ok 0
  end.
Definition MINIMUM_BALANCE : Z := 1.
Definition check_transfer (self : OrderValidator) (owner : Z) (data : OrderData) (signing_scheme : SigningScheme)
    (app_data : OrderAppData) : res ValidationError unit :=
  match can_transfer self
          (mkBalanceQuery owner (sell_token data) (sell_token_balance data) (pre (app_data_interactions app_data)))
          MINIMUM_BALANCE, signing_scheme with
  | Ok _, _ => Ok tt
  | Err (TransferInsufficientAllowance | TransferInsufficientBalance | TransferFailed), SPreSign => Ok tt
  | Err TransferInsufficientAllowance, _ => Err InsufficientAllowance
  | Err TransferInsufficientBalance, _ => Err InsufficientBalance
  | Err (TransferFailed | TransferOther), _ => Err TransferSimulationFailed
  | Panic, _ => Panic
  end.
Definition search_parameters (order : OrderCreation.OrderCreation) (data : OrderData) (owner : Z)
    (app_data : OrderAppData) (gas_limit : Z) : res ValidationError QuoteSearchParameters :=
  let verification :=
    PriceEstimation.mkVerification owner (default owner (OrderCreation.receiver order))
      (pre (app_data_interactions app_data)) (post (app_data_interactions app_data))
      (OrderCreation.sell_token_balance order) (OrderCreation.buy_token_balance order) in
  let* signing_scheme :=
    convert_signing_scheme_into_quote_signing_scheme (scheme (OrderCreation.signature order)) true gas_limit in
  Ok (mkQuoteSearchParameters (sell_token data) (buy_token data) (sell_amount data) (buy_amount data) (fee_amount data)
        (kind data) signing_scheme (AppData.gas_limit (hooks (protocol (inner app_data)))) verification).
(** An order outside the market price counts against the limit. *)
Definition outside_market {E} (data : OrderData) (quote : Quote) : res E bool :=
  is_order_outside_market_price (mkAmounts (sell_amount data) (buy_amount data) (fee_amount data))
    (mkAmounts (OrderQuoting.sell_amount quote) (OrderQuoting.buy_amount quote) (OrderQuoting.fee_amount quote))
    (kind data).
Definition check_market (self : OrderValidator) (owner : Z) (data : OrderData) (quote : Quote)
  : res ValidationError unit :=
  let* outside := outside_market data quote in
  if outside : bool then check_max_limit_orders self owner else Ok tt.
Definition classify (self : OrderValidator) (owner : Z) (data : OrderData) (class : OrderClass)
    (p : QuoteSearchParameters) (quote_id : option Z) : st S ValidationError (OrderClass * option Quote) :=
  match class with
  | Market =>
      let! quote := get_quote_and_check_fee p quote_id (Some (fee_amount data)) in
      st_lift (let* outside := outside_market data quote in
               Ok (if outside : bool then Limit else Market, Some quote))
  | Limit => fun s =>
      match get_quote_and_check_fee p quote_id None s with
      | (s, Ok quote) => (s, let* _ := check_market self owner data quote in Ok (Limit, Some quote))
      | (s, Err (PriceForQuote _)) => (s, Ok (Limit, None))
      | (s, Err err) => (s, Err err)
      | (s, Panic) => (s, Panic)
      end
  | Liquidity =>
      let! quote := get_quote_and_check_fee p quote_id None in
      st_lift (let* _ := check_market self owner data quote in Ok (Limit, None))
  end.
(** The sum is of [u64]s and wraps around in a release build. *)
Definition total_gas (quote : Quote) (p : QuoteSearchParameters) : Z :=
  (F64.as_u64 (Fee.gas_amount (fee_parameters (OrderQuoting.data quote))) + search_additional_cost p) mod 2 ^ 64.
Definition too_much_gas (self : OrderValidator) (quote : option Quote) (p : QuoteSearchParameters) : bool :=
  match quote with Some quote => max_gas_per_order self <? total_gas quote p | None => false end.

Definition validate_and_construct_order (self : OrderValidator) (now : Z) (order : OrderCreation.OrderCreation)
    (domain : list byte) (settlement_contract : Z) (full_app_data_override : option (list byte))
  : st (C * S) ValidationError (Order * option Quote) :=
  let! app_data :=
    st_lift (map_err AppData (validate_app_data keccak256 parse_root self (OrderCreation.app_data order)
      full_app_data_override)) in
  let! owner :=
    st_lift (map_err from_verification_error (OrderCreation.verify_owner keccak256 ec_recover order domain
      (app_data_signer (protocol (inner app_data))))) in
  let signing_scheme := scheme (OrderCreation.signature order) in
  let data := set_app_data (OrderCreation.data keccak256 order) (hash (inner app_data)) in
  let uid := ModelOrder.uid keccak256 data domain owner in
  let! gas_limit := st_lift (verification_gas_limit self order domain data owner app_data) in
  let! _ := st_lift (if (buy_amount data =? 0) || (sell_amount data =? 0) then Err ZeroAmount else Ok tt) in
  let pre_order := from_order_creation owner data signing_scheme in
  let! _ := st_fst (st_map_err Partial (partial_validate self now pre_order)) in
  let! p := st_lift (search_parameters order data owner app_data gas_limit) in
  let! _ := st_lift (check_transfer self owner data signing_scheme app_data) in
  let! ' (class, quote) := st_snd (classify self owner data (pre_class pre_order) p (OrderCreation.quote_id order)) in
  st_lift
    (if too_much_gas self quote p then Err TooMuchGas
     else
       let full_app_data :=
         match OrderCreation.app_data order with
         | OrderCreation.Both full _ | OrderCreation.Full full => Some full
         | OrderCreation.Hash _ => full_app_data_override
         end in
       Ok (mkOrder (mkOrderMetadata now owner uid 0 0 0 0 0 false Open class settlement_contract (fee_amount data) 0
                      full_app_data None None None)
             data (OrderCreation.signature order) (app_data_interactions app_data), quote)).
End placement.
End OrderValidation.

(** * Lemmas *)
Import AppData OrderValidation.

Section banned.
Context {C : Type} `{Banned.TimedCacheLaws C}.
Import Banned.

(** [cache] holds nothing but what [f] answers. *)
Definition true_cache (f : Z -> bool) (cache : C) : Prop := forall a b, entry cache a b -> b = f a.

Lemma read_cache_spec f now l cache cache' missing banned : true_cache f cache ->
  read_cache cache now l = (cache', missing, banned) ->
  true_cache f cache' /\ (forall a, a ∈ banned -> a ∈ l /\ f a = true) /\
  (forall a, a ∈ missing -> a ∈ l) /\ (forall a, a ∈ l -> a ∈ missing \/ (f a = true -> a ∈ banned)).
Proof.
  intros Ht. unfold read_cache.
  assert (Hg : forall m0 (b0 : gset Z) cache0, true_cache f cache0 ->
    foldl (fun '(cache, missing, banned) address =>
      match cache_get cache now address with
      | (cache, Some is_banned) => (cache, missing, if is_banned : bool then {[address]} ∪ banned else banned)
      | (cache, None) => (cache, missing ++ [address], banned)
      end) (cache0, m0, b0) l = (cache', missing, banned) ->
    true_cache f cache' /\ (forall a, a ∈ banned -> a ∈ b0 \/ (a ∈ l /\ f a = true)) /\
    (forall a, a ∈ missing -> a ∈ m0 \/ a ∈ l) /\ (forall a, a ∈ b0 -> a ∈ banned) /\ (forall a, a ∈ m0 -> a ∈ missing) /\
    (forall a, a ∈ l -> a ∈ missing \/ (f a = true -> a ∈ banned))).
  { clear Ht. induction l as [|x l IH]; intros m0 b0 cache0 Ht Hf; cbn [foldl] in Hf.
    { injection Hf as <- <- <-. split_and!; try done; [by left..|]. by intros a ?%elem_of_nil. }
    destruct (cache_get cache0 now x) as [c1 [b|]] eqn:Hc.
    - assert (Hb : b = f x) by (eapply Ht, get_entry, Hc).
      apply IH in Hf as (H1 & H2 & H3 & H4 & H5 & H6); [|intros a b' Ha; eapply Ht, get_keeps, Ha; exact Hc].
      split_and!; [done|..|done|].
      + intros a [Ha|[Ha Hfa]]%H2; [|right; by split; [right|]]. destruct b; [|by left].
        apply elem_of_union in Ha as [->%elem_of_singleton | Ha]; [|by left]. right. by split; [left|].
      + intros a [Hm | Hm]%H3; [by left|right; by right].
      + intros a Ha. apply H4. destruct b; [|done]. set_solver.
      + intros a [->|Ha]%elem_of_cons; [|by apply H6]. right. intros Hfa. apply H4. rewrite Hb, Hfa. set_solver.
    - apply IH in Hf as (H1 & H2 & H3 & H4 & H5 & H6); [|intros a b' Ha; eapply Ht, get_keeps, Ha; exact Hc].
      split_and!; [done|..].
      + intros a [Ha|[Ha Hfa]]%H2; [by left|right; by split; [right|]].
      + intros a [[Hm | ->%list_elem_of_singleton]%elem_of_app | Hm]%H3; [by left|right; left|right; by right].
      + done.
      + intros a Ha. apply H5, elem_of_app. by left.
      + intros a [->|Ha]%elem_of_cons; [|by apply H6]. left. apply H5, elem_of_app. right. by apply list_elem_of_singleton. }
  intros Hf. apply Hg in Hf as (H1 & H2 & H3 & H4 & H5 & H6); [|done]. split_and!; [done|..|done].
  - intros a [?%elem_of_empty | Ha]%H2; done.
  - intros a [?%elem_of_nil | Ha]%H3; done.
Qed.

Lemma fill_cache_spec f (fetch : Z -> res unit bool) now l cache cache' banned : true_cache f cache ->
  (forall a b, fetch a = Ok b -> b = f a) -> fill_cache fetch cache now l = (cache', banned) ->
  true_cache f cache' /\ (forall a, a ∈ banned <-> a ∈ l /\ fetch a = Ok true).
Proof.
  intros Ht Hfetch. unfold fill_cache.
  assert (Hg : forall (b0 : gset Z) cache0, true_cache f cache0 ->
    foldl (fun '(cache, banned) address =>
      match fetch address with
      | Ok is_banned => (cache_set cache now address is_banned, if is_banned : bool then {[address]} ∪ banned else banned)
      | _ => (cache, banned)
      end) (cache0, b0) l = (cache', banned) ->
    true_cache f cache' /\ (forall a, a ∈ banned <-> a ∈ b0 \/ (a ∈ l /\ fetch a = Ok true))).
  { clear Ht. induction l as [|x l IH]; intros b0 cache0 Ht Hf; cbn [foldl] in Hf.
    { injection Hf as <- <-. split; [done|]. intros a. split; [by left|]. intros [?|[?%elem_of_nil _]]; done. }
    destruct (fetch x) as [b| |] eqn:Hx; apply IH in Hf as (H1 & H2); try done.
    - split; [done|]. intros a. rewrite H2, elem_of_cons. destruct b.
      + rewrite elem_of_union, elem_of_singleton. split; [|naive_solver]. intros [[->|?]|?]; naive_solver.
      + split; [|intros [?|[[->|?] ?]]]; naive_solver congruence.
    - intros a b' [[-> ->]|Ha]%set_entry; [by apply Hfetch|by apply Ht].
    - split; [done|]. intros a. rewrite H2, elem_of_cons. split; [|intros [?|[[->|?] ?]]]; naive_solver congruence.
    - split; [done|]. intros a. rewrite H2, elem_of_cons. split; [|intros [?|[[->|?] ?]]]; naive_solver congruence. }
  intros Hf. apply Hg in Hf as (H1 & H2); [|done]. split; [done|]. intros a.
  rewrite H2. split; [intros [Ha%elem_of_empty|]|]; naive_solver.
Qed.
End banned.

Section rules.
Implicit Types (self : OrderValidator) (order : PreOrderData).

(** The window of the validity. *)
Definition valid_window (self : OrderValidPeriodConfiguration) (now : Z) order : Prop :=
  QuoteModel.timestamp_after_duration now (min self) <= pre_valid_to order
    <= QuoteModel.timestamp_after_duration now (max self order).
(** What [partial_rules] demands. *)
Record well_formed self (now : Z) order : Prop := {
  wf_fillable : pre_class order = Market -> pre_partially_fillable order = false;
  wf_destination : pre_buy_token_balance order = BuyErc20;
  wf_source : pre_sell_token_balance order <> SellInternal;
  wf_window : valid_window (validity_configuration self) now order;
  wf_tokens : pre_sell_token order <> pre_buy_token order;
  wf_wrapped : pre_sell_token order = native_token self -> pre_buy_token order <> BUY_ETH_ADDRESS;
  wf_native : pre_sell_token order <> BUY_ETH_ADDRESS;
  wf_good_sell : bad_token_detector self (pre_sell_token order) = Ok Good;
  wf_good_buy : bad_token_detector self (pre_buy_token order) = Ok Good;
}.

Lemma validate_period_Ok config now order :
  validate_period config now order = Ok tt <-> valid_window config now order.
Proof.
  unfold validate_period, valid_window. destruct (Z.ltb_spec (pre_valid_to order)
    (QuoteModel.timestamp_after_duration now (min config))); [split; [done|lia]|].
  destruct (Z.ltb_spec (QuoteModel.timestamp_after_duration now (max config order)) (pre_valid_to order));
    [split; [done|lia]|]. split; [lia|done].
Qed.

Lemma detect_all_Ok self tokens :
  detect_all self tokens = Ok tt <-> Forall (fun token => bad_token_detector self token = Ok Good) tokens.
Proof.
  induction tokens as [|token tokens IH]; cbn [detect_all]; [by split|]. rewrite Forall_cons_iff.
  destruct (bad_token_detector self token) as [[|reason]| |]; cbn; rewrite ?IH; naive_solver.
Qed.

Lemma same_token_false order native : has_same_buy_and_sell_token order native = false <->
  pre_sell_token order <> pre_buy_token order /\
  (pre_sell_token order = native -> pre_buy_token order <> BUY_ETH_ADDRESS).
Proof.
  unfold has_same_buy_and_sell_token. rewrite orb_false_iff, andb_false_iff, !Z.eqb_neq.
  destruct (Z.eq_dec (pre_sell_token order) native); naive_solver.
Qed.

Lemma partial_rules_Ok self now order : partial_rules self now order = Ok tt <-> well_formed self now order.
Proof.
  unfold partial_rules. split.
  - intros H. repeat (case_match; [done|]). apply rbind_Ok in H as ([] & Hp & H).
    apply map_err_Ok, validate_period_Ok in Hp. case_match eqn:Hs; [done|]. apply same_token_false in Hs as [Hs Hw].
    case_match eqn:Hn; [done|]. apply Z.eqb_neq in Hn. apply detect_all_Ok, Forall_cons_iff in H as [Hg1 H].
    apply Forall_cons_iff in H as [Hg2 _].
    repeat match goal with H : bool_decide _ = false |- _ => apply bool_decide_eq_false in H end.
    split; try done.
    + intros Hc. destruct (pre_partially_fillable order); [|done]. by rewrite bool_decide_true in * by done.
    + by apply dec_stable.
  - intros [H1 H2 H3 H4 H5 H6 H7 H8 H9].
    replace (bool_decide (pre_class order = Market) && pre_partially_fillable order) with false
      by (destruct (bool_decide_reflect (pre_class order = Market)); [by rewrite H1|done]).
    rewrite (bool_decide_false (pre_buy_token_balance order <> BuyErc20)) by (intros H; by apply H).
    rewrite (bool_decide_false (pre_sell_token_balance order = SellInternal)) by done.
    rewrite (proj2 (validate_period_Ok _ _ _) H4). cbn [map_err rbind].
    rewrite (proj2 (same_token_false _ _)) by done. rewrite (proj2 (Z.eqb_neq _ _) H7).
    apply detect_all_Ok. by repeat constructor.
Qed.
End rules.

(** ** The users *)
Section partial.
Context {C : Type} `{Banned.TimedCache C}.
Implicit Types (self : OrderValidator) (cache : C).

Lemma banned_listed (users : Banned.Users) cache now l : (Banned.banned users cache now l).2 = ∅ ->
  Forall (fun a => a ∉ Banned.banned_list users) l.
Proof.
  unfold Banned.banned. intros Hb. apply Forall_forall. intros a Ha%list_elem_of_In Hin.
  assert (Hl : a ∈ (list_to_set l : gset Z) ∩ Banned.banned_list users) by set_solver.
  destruct (Banned.onchain users); [|cbn in Hb; set_solver].
  destruct Banned.read_cache as [[c m] cached], Banned.fill_cache as [c' fetched]. cbn in Hb. set_solver.
Qed.

Lemma partial_validate_Ok self now pre_order cache cache' :
  partial_validate self now pre_order cache = (cache', Ok tt) ->
  (pre_receiver pre_order ∉ Banned.banned_list (banned_users self)) /\
  (pre_owner pre_order ∉ Banned.banned_list (banned_users self)) /\ well_formed self now pre_order.
Proof.
  unfold partial_validate. destruct Banned.banned as [c b] eqn:Hb. intros [= -> Hr].
  case_bool_decide as He; [|done]. apply partial_rules_Ok in Hr.
  pose proof (banned_listed (banned_users self) cache now [pre_receiver pre_order; pre_owner pre_order]) as Hl.
  rewrite Hb in Hl. specialize (Hl He). by inversion_clear Hl as [|? ? ? Hl']; inversion_clear Hl'.
Qed.

End partial.

Section placed.
Context (keccak256 : list byte -> list byte) (parse_root : list byte -> option Root).
Context (ec_recover : list byte -> Z -> Z -> Z -> option Z).
Context {C S : Type} `{Banned.TimedCache C} `{OrderQuoting.QuotingLaws S}.
Import OrderQuoting ModelOrder.
Implicit Types (self : OrderValidator) (order : OrderCreation.OrderCreation) (o : Order).

(** App data that are accepted hash to what the order says. *)
Lemma validate_app_data_hash self app_data full result :
  validate_app_data keccak256 parse_root self app_data full = Ok result ->
  hash (inner result) = OrderCreation.app_data_hash keccak256 app_data /\
  app_data_interactions result = custom_interactions self (hooks (protocol (inner result))).
Proof.
  intros Hv. unfold validate_app_data in Hv. apply rbind_Ok in Hv as (v & Hv & Hr). injection Hr as <-.
  split; [|done]. cbn [inner].
  assert (Hh : forall l w, AppData.validate keccak256 parse_root (app_data_size_limit self) l = Ok w ->
    hash w = OrderCreation.hash_full_app_data keccak256 l).
  { intros l w Hw. unfold AppData.validate in Hw. repeat (case_match; [done|]).
    apply rbind_Ok in Hw as (root & _ & Hw). by injection Hw as <-. }
  destruct app_data as [l expected|h|l]; cbn [OrderCreation.app_data_hash].
  - apply rbind_Ok in Hv as (w & Hw & Hv). apply map_err_Ok in Hw. case_match; [|done]. injection Hv as <-. by apply Hh.
  - destruct full as [l|]; [|done]. apply rbind_Ok in Hv as (w & Hw & Hv). by injection Hv as <-.
  - by apply map_err_Ok, Hh in Hv.
Qed.

(** A quote that is found or calculated is for the tokens and the kind. *)
Definition quote_for (p : QuoteSearchParameters) (quote : Quote) : Prop :=
  OrderQuoting.sell_token (OrderQuoting.data quote) = search_sell_token p /\
  OrderQuoting.buy_token (OrderQuoting.data quote) = search_buy_token p /\
  OrderQuoting.kind (OrderQuoting.data quote) = search_kind p.

Lemma get_or_create_quote_for p i s s' quote : get_or_create_quote p i s = (s', Ok quote) -> quote_for p quote.
Proof.
  unfold get_or_create_quote, quote_for. destruct (quoting_find s i p) as [q|e|] eqn:Hf; [..|done].
  - intros [= _ <-]. apply quoting_find_matches in Hf. unfold matches in Hf. apply rbind_Ok in Hf as (b & _ & Hf).
    injection Hf as Hf. apply andb_prop in Hf as [Hf Hk]. apply andb_prop in Hf as [Hf Hb].
    apply andb_prop in Hf as [_ Hs]. apply bool_decide_eq_true in Hk. bool_to_prop. done.
  - destruct e as [?| | |]; [|done..]. destruct i; [done|].
    destruct (order_quote_parameters p) as [parameters| |] eqn:Hp; [|done..].
    destruct (quoting_calculate s parameters) as [q| |] eqn:Hc; [|done..].
    destruct (quoting_store s q) as [[s1 q']| |] eqn:Hst; [|done..]. intros [= _ <-].
    apply quoting_store_same in Hst as ->. apply quoting_calculate_for in Hc as (-> & -> & ->).
    unfold order_quote_parameters in Hp. apply rbind_Ok in Hp as (side & Hside & Hp). injection Hp as <-. cbn.
    destruct (search_kind p); case_match; try done; by injection Hside as <-.
Qed.

(** What [check_market] lets through. *)
Definition market_ok self (owner : Z) (data : OrderData) (quote : Quote) : Prop :=
  (outside_market data quote : res unit bool) = Ok false \/
  exists count, limit_order_counter self owner = Ok count /\ count < max_limit_orders_per_user self.

Lemma outside_market_error E F data quote b :
  (outside_market data quote : res E bool) = Ok b -> (outside_market data quote : res F bool) = Ok b.
Proof.
  unfold outside_market, is_order_outside_market_price. destruct (kind data); [|by intros [= <-]].
  unfold u_add. destruct checked_add; [|done]. by intros [= <-].
Qed.

Lemma check_market_Ok self owner data quote :
  check_market self owner data quote = Ok tt -> market_ok self owner data quote.
Proof.
  intros Hc. unfold check_market in Hc. apply rbind_Ok in Hc as ([] & Ho & Hc).
  - right. unfold check_max_limit_orders in Hc. apply rbind_Ok in Hc as (count & Hn & Hc). apply map_err_Ok in Hn.
    exists count. split; [done|]. case_match; [done|]. by bool_to_prop.
  - left. by eapply outside_market_error.
Qed.

(** A fee rules an order out: what is classified is a limit order. *)
Lemma classify_Ok self owner data p i s s' class quote :
  classify self owner data (if fee_amount data =? 0 then Limit else Market) p i s = (s', Ok (class, quote)) ->
  fee_amount data = 0 /\ class = Limit /\
  match quote with Some quote => quote_for p quote /\ market_ok self owner data quote | None => True end.
Proof.
  unfold classify, get_quote_and_check_fee. destruct (Z.eqb_spec (fee_amount data) 0) as [Hf|Hf].
  - intros Hc. split; [done|]. destruct (st_bind _ _ s) as [s1 [q|[]|]] eqn:Hq; try done; [|by injection Hc as <- <- <-].
    injection Hc as -> Hc. apply rbind_Ok in Hc as ([] & Hm & Hc). injection Hc as <- <-. split; [done|].
    apply st_bind_Ok in Hq as (s2 & q' & Hq & Hl). apply st_lift_Ok in Hl as [_ [= ->]].
    split; [by eapply get_or_create_quote_for|by apply check_market_Ok].
  - intros Hc. apply st_bind_Ok in Hc as (s1 & q & Hc & _). apply st_bind_Ok in Hc as (s2 & q' & _ & Hc).
    by apply st_lift_Ok in Hc as [_ Hc].
Qed.

(** What is known of an order [o] that was placed by the request [order], with
    the quote it got. *)
Record admitted self (now : Z) order (domain : list byte) o (quote : option Quote) : Prop := {
  (** it is the order that was signed, by its owner *)
  placed_data : data o = OrderCreation.data keccak256 order;
  placed_signature : signature o = OrderCreation.signature order;
  placed_owner : exists signer recovered,
    recover keccak256 ec_recover (OrderCreation.signature order) domain (hash_struct keccak256 (data o)) = Ok recovered /\
    Forall (eq (owner (metadata o))) (claims order recovered signer);
  placed_uid : order_uid (metadata o) = uid keccak256 (data o) domain (owner (metadata o));
  placed_wallet sig : signature o = Eip1271 sig -> eip1271_skip_creation_validation self = false ->
    exists gas, signature_validator self
      (mkSignatureCheck (owner (metadata o)) (hashed_eip712_message keccak256 domain (hash_struct keccak256 (data o))) sig
        (pre (interactions o))) = Ok gas;
  (** the amounts, the tokens and the validity *)
  placed_amounts : sell_amount (data o) <> 0 /\ buy_amount (data o) <> 0;
  placed_users : (owner (metadata o) ∉ Banned.banned_list (banned_users self)) /\
    (actual_receiver (owner (metadata o)) (data o) ∉ Banned.banned_list (banned_users self));
  placed_well_formed : well_formed self now
    (from_order_creation (owner (metadata o)) (data o) (scheme (signature o)));
  (** the balance, of which one atom is asked for *)
  placed_funds : can_transfer self (mkBalanceQuery (owner (metadata o)) (sell_token (data o))
      (sell_token_balance (data o)) (pre (interactions o))) 1 <> Err TransferOther /\
    (signature o <> PreSign -> can_transfer self (mkBalanceQuery (owner (metadata o)) (sell_token (data o))
      (sell_token_balance (data o)) (pre (interactions o))) 1 = Ok tt);
  (** it is a limit order without a fee, and within the limits *)
  placed_class : class (metadata o) = Limit /\ fee_amount (data o) = 0;
  placed_quote q : quote = Some q ->
    OrderQuoting.sell_token (OrderQuoting.data q) = sell_token (data o) /\
    OrderQuoting.buy_token (OrderQuoting.data q) = buy_token (data o) /\
    OrderQuoting.kind (OrderQuoting.data q) = kind (data o) /\
    market_ok self (owner (metadata o)) (data o) q;
  placed_status : status (metadata o) = Open /\ invalidated (metadata o) = false;
}.

Lemma check_transfer_Ok self owner data sch app_data :
  check_transfer self owner data sch app_data = Ok tt ->
  let answer := can_transfer self (mkBalanceQuery owner (sell_token data) (sell_token_balance data)
                  (pre (app_data_interactions app_data))) 1 in
  answer <> Err TransferOther /\ (sch <> SPreSign -> answer = Ok tt).
Proof.
  unfold check_transfer, MINIMUM_BALANCE. destruct can_transfer as [[]|[]|], sch; intros Hc; naive_solver.
Qed.

(** The gas of a quote and of the order's own calls, when they do not overflow. *)
Lemma too_much_gas_false self q p : too_much_gas self (Some q) p = false <->
  total_gas q p <= max_gas_per_order self.
Proof. unfold too_much_gas. apply Z.ltb_ge. Qed.

Lemma set_app_data_same (d : OrderData) : set_app_data d (app_data d) = d.
Proof. by destruct d. Qed.

Lemma accepted_admitted self (now : Z) order (domain : list byte) (settlement_contract : Z)
    (full_app_data : option (list byte)) (s s' : C * S) o (quote : option Quote) :
  validate_and_construct_order keccak256 parse_root ec_recover self now order domain settlement_contract full_app_data s
    = (s', Ok (o, quote)) ->
  admitted self now order domain o quote.
Proof.
  intros Hv. unfold validate_and_construct_order in Hv.
  apply st_bind_Ok in Hv as (s1 & app & Happ & Hv). apply st_lift_Ok in Happ as [-> Happ].
  apply map_err_Ok, validate_app_data_hash in Happ as [Hhash Hint].
  apply st_bind_Ok in Hv as (s2 & owner & Hown & Hv). apply st_lift_Ok in Hown as [-> Hown].
  apply map_err_Ok, verify_owner_claims in Hown as (recovered & Hrec & _ & Hclaims).
  apply st_bind_Ok in Hv as (s3 & gas & Hgas & Hv). apply st_lift_Ok in Hgas as [-> Hgas].
  apply st_bind_Ok in Hv as (s4 & [] & Hzero & Hv). apply st_lift_Ok in Hzero as [-> Hzero].
  apply st_bind_Ok in Hv as (s5 & [] & Hpart & Hv). apply st_fst_Ok in Hpart as [Hpart _].
  apply st_bind_Ok in Hv as (s6 & p & Hp & Hv). apply st_lift_Ok in Hp as [-> Hp].
  apply st_bind_Ok in Hv as (s7 & [] & Htr & Hv). apply st_lift_Ok in Htr as [-> Htr].
  apply st_bind_Ok in Hv as (s8 & [cls q] & Hcls & Hv). apply st_snd_Ok in Hcls as [Hcls _].
  apply st_lift_Ok in Hv as [_ Hv]. destruct too_much_gas; [done|]. injection Hv as <- <-.
  rewrite Hhash in *. change (OrderCreation.app_data_hash keccak256 (OrderCreation.app_data order))
    with (app_data (OrderCreation.data keccak256 order)) in *. rewrite set_app_data_same in *.
  set (d := OrderCreation.data keccak256 order) in *.
  apply st_map_err_Ok, partial_validate_Ok in Hpart as (Hrcv & Hownr & Hwf).
  apply classify_Ok in Hcls as (Hfee & -> & Hq). apply check_transfer_Ok in Htr as [Htr1 Htr2].
  destruct (_ || _)%bool eqn:Hz in Hzero; [done|]. apply orb_false_iff in Hz as [Hz1 Hz2]. bool_to_prop.
  split; cbn; try done.
  - by exists (app_data_signer (protocol (inner app))), recovered.
  - intros sig Hs Hskip. unfold verification_gas_limit in Hgas. rewrite Hs, Hskip in Hgas.
    apply map_err_Ok in Hgas. by exists gas.
  - split; [done|]. intros Hs. apply Htr2. by destruct (OrderCreation.signature order).
  - intros q' ->. destruct Hq as [(Hq1 & Hq2 & Hq3) Hm]. unfold search_parameters in Hp.
    apply rbind_Ok in Hp as (sch & _ & Hp). by injection Hp as <-.
Qed.

End placed.

(** * Properties of the users and of the gas *)
Section users.
Context {C : Type} `{Banned.TimedCacheLaws C}.
Import Banned.

(** The check for banned users is exact whatever the cache remembers: when
    the contract, as far as it answers, and the cache say what is true of the
    addresses, then an address is reported only if it was asked for and is on
    the list or sanctioned, it is reported whenever it is on the list or the
    contract answers now that it is sanctioned, and the cache stays true. *)
Theorem banned_users_are_exact (users : Users) (f : Z -> bool) (fetch : Z -> res unit bool) (cache cache' : C)
    (now : Z) (l : list Z) (banned : gset Z) :
  onchain users = Some fetch ->
  (forall a b, fetch a = Ok b -> b = f a) -> true_cache f cache ->
  Banned.banned users cache now l = (cache', banned) ->
  true_cache f cache' /\
  (forall a, a ∈ banned -> a ∈ l /\ (a ∈ banned_list users \/ f a = true)) /\
  (forall a, a ∈ l -> a ∈ banned_list users \/ fetch a = Ok true -> a ∈ banned).
Proof.
  intros Ho Hfetch Ht Hb. unfold Banned.banned in Hb. rewrite Ho in Hb.
  destruct read_cache as [[c1 m] cached] eqn:Hr. destruct (fill_cache fetch c1 now m) as [c2 fetched] eqn:Hf.
  injection Hb as <- <-. apply (read_cache_spec f) in Hr as (Ht1 & Hc & Hm & Hl); [|done].
  apply (fill_cache_spec f) in Hf as (Ht2 & Hfe); [|done..]. split; [done|]. split.
  - intros a Ha. rewrite !elem_of_union, elem_of_intersection, elem_of_list_to_set in Ha.
    assert (Hq : forall a, a ∈ elements (list_to_set l ∖ banned_list users) -> a ∈ l) by set_solver.
    destruct Ha as [[[Ha Hin] | Ha] | Ha]; [by auto|..].
    + apply Hc in Ha as [Ha Hfa]. auto.
    + apply Hfe in Ha as [Ha Hfa]. apply Hfetch in Hfa. auto.
  - intros a Hin Hor. rewrite !elem_of_union, elem_of_intersection, elem_of_list_to_set.
    destruct (decide (a ∈ banned_list users)) as [|Hnot]; [by left; left|]. destruct Hor as [|Hfa]; [done|].
    destruct (Hl a) as [Hma | Hca]; [set_solver|..].
    + right. apply Hfe. by split.
    + left. right. apply Hca. symmetry. by apply Hfetch.
Qed.
End users.


(** * A presigned order of the address 5, and users of whom 6 is sanctioned *)
Section witnesses.
Import QuoteModel Fee PriceEstimation OrderQuoting QuoteStore ModelOrder.

(** A cache whose entries live for an hour. *)
Let TTL : Z := 60 * 60.
Local Instance map_cache : Banned.TimedCache (gmap Z (Z * bool)) := {|
  Banned.cache_get c now a :=
    match c !! a with
    | Some (set_at, b) => if now - set_at <? TTL then (c, Some b) else (delete a c, None)
    | None => (c, None)
    end;
  Banned.cache_set c now a b := <[a := (now, b)]> c
|}.
Local Instance map_cache_laws : Banned.TimedCacheLaws (gmap Z (Z * bool)).
Proof.
  exists (fun (c : gmap Z (Z * bool)) a b => exists set_at, c !! a = Some (set_at, b)); cbn.
  - intros c now a c' b Hg. destruct (c !! a) as [[set_at b']|]; [|done]. case_match; [|done]. injection Hg as <- <-. by eexists.
  - intros c now a c' o a' b Hg [t Ht]. exists t. destruct (c !! a) as [[set_at b']|]; [|by injection Hg as <- <-].
    case_match; injection Hg as <- <-; [done|]. by apply lookup_delete_Some in Ht as [_ Ht].
  - intros c now a b a' b' [t [[<- [= <- <-]]|[_ Ht]]%lookup_insert_Some]; [by left|right; by exists t].
Defined.

Lemma banned_users_are_exact_witness : exists cache',
  Banned.banned (C := gmap Z (Z * bool))
    (Banned.mkUsers {[4]} (Some (fun a => Ok (a =? 6)))) {[ 7 := (0, false) ]} 10 [4; 5; 6; 7] = (cache', {[4; 6]}) /\
  (forall a : Z, a ∈ ({[4; 6]} : gset Z) -> a ∈ [4; 5; 6; 7] /\ (a ∈ ({[4]} : gset Z) \/ (a =? 6) = true)).
Proof.
  eexists. assert (Hb : Banned.banned (C := gmap Z (Z * bool))
    (Banned.mkUsers {[4]} (Some (fun a => Ok (a =? 6)))) {[ 7 := (0, false) ]} 10 [4; 5; 6; 7] = (_, {[4; 6]}))
    by (vm_compute; reflexivity).
  split; [exact Hb|].
  assert (Hc : true_cache (C := gmap Z (Z * bool)) (fun a => a =? 6) {[ 7 := (0, false) ]}).
  { intros a b [t Ht]. apply lookup_singleton_Some in Ht as [<- Ht]. by injection Ht as <- <-. }
  destruct (banned_users_are_exact (Banned.mkUsers {[4]} (Some (fun a => Ok (a =? 6)))) (fun a => a =? 6)
    (fun a => Ok (a =? 6)) _ _ _ _ _ eq_refl ltac:(intros a b Hf; by injection Hf) Hc Hb) as (_ & He & _).
  exact He.
Defined.

Let quoter : OrderQuoter :=
  mkOrderQuoter (fun _ => Ok (mkEstimate 9000 100 7 true)) (fun _ => Ok (F64.of_Z 1)) (Ok (F64.of_Z 10))
    (mkQuoteValidity 600 600 60) (fun _ => Ok 10) Unverified.
Local Instance quoting : Quoting QuoteStore.Postgres :=
  order_quoter_quoting F64.as_u64 quoter 100 QuoteStore.Postgres.
Local Instance quoting_laws : QuotingLaws QuoteStore.Postgres := order_quoter_laws F64.as_u64 quoter 100.

Let validator : OrderValidator :=
  mkOrderValidator 3 (Banned.mkUsers {[4]} None) (mkOrderValidPeriodConfiguration 60 1000 2000) false (fun _ => Ok Good)
    9 (fun _ => []) (fun _ _ => Err TransferInsufficientBalance) (fun _ => Err SignatureOther) (fun _ => Ok 0) 1 8192 5000.
Let keccak256 (l : list byte) : list byte := zeros 32.
Let parse_root (l : list byte) : option Root := Some (mkRoot None None).
Let request : OrderCreation.OrderCreation :=
  OrderCreation.mkOrderCreation 1 2 None 5000 9500 1000 0 Sell false SellErc20 BuyErc20 (Some 5) PreSign None
    (OrderCreation.Full []).


End witnesses.
