(* ===== verification/OrderStore.v ===== *)
(** The tables of orders and their queries: crates/database/src/orders.rs,
    order_events.rs and app_data.rs, with the order store of
    crates/orderbook/src/database/orders.rs and the conversions of
    crates/shared/src/db_order_conversions.rs.

    The tables are finite maps and lists, a query is a function of them, and a
    transaction gives the new tables or, as it is rolled back, an error and no
    tables. A [BigDecimal] is the integer it holds, the enums of the database
    are those of the model, and a time is a number of seconds. What other
    services write (trades, invalidations, presignatures, the data of onchain
    orders) are tables as well. *)
From Stdlib Require Import ZArith Lia String.
From stdpp Require Import prelude gmap numbers sorting.
From S2P Require Import Prelude U256 Bytes Floats ModelOrder OrderQuoting OrderValidation.

Open Scope Z_scope.
Open Scope rust_scope.
Import ModelSignature ModelOrder.

(** * crates/database *)
Module Database.
Inductive OrderEventLabel : Type :=
| Created | Ready | Filtered | Invalid | Executing | Considered | Traded | EventCancelled.
#[export] Instance OrderEventLabel_eq_dec : EqDecision OrderEventLabel.
Proof. solve_decision. Defined.
Record OrderEvent : Type := mkOrderEvent { event_order : Z; timestamp : Z; label : OrderEventLabel }.

(** A row of the table of orders; the key is the uid. *)
Record OrderRow : Type := mkOrderRow {
  row_owner : Z;
  creation_timestamp : Z;
  row_sell_token : Z;
  row_buy_token : Z;
  row_receiver : option Z;
  row_sell_amount : Z;
  row_buy_amount : Z;
  row_valid_to : Z;
  row_app_data : list byte;
  row_fee_amount : Z;
  row_kind : OrderKind;
  row_partially_fillable : bool;
  row_signature : list byte;
  row_signing_scheme : SigningScheme;
  row_settlement_contract : Z;
  row_sell_token_balance : SellTokenSource;
  row_buy_token_balance : BuyTokenDestination;
  row_full_fee_amount : Z;
  cancellation_timestamp : option Z;
  row_class : OrderClass;
}.
Inductive ExecutionTime : Type := Pre | Post.
#[export] Instance ExecutionTime_eq_dec : EqDecision ExecutionTime.
Proof. solve_decision. Defined.
Record InteractionRow : Type := mkInteractionRow {
  interaction_target : Z;
  interaction_value : Z;
  interaction_data : list byte;
  index : Z;
  execution : ExecutionTime;
}.
Record QuoteRow : Type := mkQuoteRow {
  quote_gas_amount : F64.f64;
  quote_gas_price : F64.f64;
  quote_sell_token_price : F64.f64;
  quote_sell_amount : Z;
  quote_buy_amount : Z;
  quote_row_solver : Z;
}.
(** Where a log is in the chain: its block number and its index there. *)
Abbreviation EventIndex := (Z * Z)%type.
Record TradeRow : Type := mkTradeRow { trade_order : Z; trade_buy : Z; trade_sell : Z; trade_fee : Z }.
Record PresignatureRow : Type := mkPresignatureRow { presigner : Z; presigned : Z; signed : bool }.
Record SettlementRow : Type := mkSettlementRow { settlement_solver : Z; tx_hash : Z; auction_id : option Z }.
Record Observation : Type := mkObservation { gas_used : Z; effective_gas_price : Z; observed_surplus : Z; observed_fee : Z }.
Record OnchainOrderPlacementRow : Type := mkPlacementRow {
  placement_sender : Z;
  placement_error : option OnchainOrderPlacementError;
  is_reorged : bool;
  placed_at : EventIndex;
}.

(** The tables that are filled from the chain: the logs of the settlement
    contract by their place, what is known of settlements, and the orders
    that are placed on chain. *)
Record Indexed : Type := mkIndexed {
  trades : gmap EventIndex TradeRow;
  invalidations : gmap EventIndex Z;
  presignature_events : gmap EventIndex PresignatureRow;
  settlements : gmap EventIndex SettlementRow;
  settlement_observations : gmap EventIndex Observation;
  order_execution : gmap (Z * Z) (option Z * Z);
  onchain_placed_orders : gmap Z OnchainOrderPlacementRow;
  onchain_order_invalidations : gmap Z EventIndex;
  ethflow_orders : gmap Z Z;
  ethflow_refunds : gmap Z (Z * Z);
}.
(** The tables. *)
Record Db : Type := mkDb {
  orders : gmap Z OrderRow;
  interaction_rows : list (Z * InteractionRow);
  order_quotes : gmap Z QuoteRow;
  order_events : list OrderEvent;
  app_data_rows : gmap (list byte) (list byte);
  indexed : Indexed;
}.
Definition set_orders (db : Db) (t : gmap Z OrderRow) : Db :=
  mkDb t (interaction_rows db) (order_quotes db) (order_events db) (app_data_rows db) (indexed db).
Definition set_interaction_rows (db : Db) (t : list (Z * InteractionRow)) : Db :=
  mkDb (orders db) t (order_quotes db) (order_events db) (app_data_rows db) (indexed db).
Definition set_order_quotes (db : Db) (t : gmap Z QuoteRow) : Db :=
  mkDb (orders db) (interaction_rows db) t (order_events db) (app_data_rows db) (indexed db).
Definition set_order_events (db : Db) (t : list OrderEvent) : Db :=
  mkDb (orders db) (interaction_rows db) (order_quotes db) t (app_data_rows db) (indexed db).
Definition set_app_data_rows (db : Db) (t : gmap (list byte) (list byte)) : Db :=
  mkDb (orders db) (interaction_rows db) (order_quotes db) (order_events db) t (indexed db).
Definition set_indexed (db : Db) (t : Indexed) : Db :=
  mkDb (orders db) (interaction_rows db) (order_quotes db) (order_events db) (app_data_rows db) t.

(** ** order_events.rs: the event is inserted unless the latest one of the order
    has its label; of events at the same time the last one counts. *)
Definition later (best : option OrderEvent) (event : OrderEvent) : option OrderEvent :=
  match best with
  | Some b => if timestamp event <? timestamp b then best else Some event
  | None => Some event
  end.
Definition get_latest (db : Db) (uid : Z) : option OrderEvent :=
  foldl later None (filter (fun event => event_order event = uid) (order_events db)).
Definition insert_order_event (db : Db) (event : OrderEvent) : Db :=
  match get_latest db (event_order event) with
  | Some latest =>
      if decide (label latest = label event) then db else set_order_events db (order_events db ++ [event])
  | None => set_order_events db (order_events db ++ [event])
  end.
Definition delete_order_events_before (db : Db) (before : Z) : Db :=
  set_order_events db (filter (fun event => ~ timestamp event < before) (order_events db)).

(** ** app_data.rs: what exists is returned and kept *)
Definition insert_app_data (db : Db) (contract_app_data full_app_data : list byte) : Db * option (list byte) :=
  match app_data_rows db !! contract_app_data with
  | Some existing => (db, Some existing)
  | None => (set_app_data_rows db (<[contract_app_data := full_app_data]> (app_data_rows db)), None)
  end.
Definition fetch_app_data (db : Db) (contract_app_data : list byte) : option (list byte) :=
  app_data_rows db !! contract_app_data.

(** ** orders.rs; an error is a violated key *)
Definition insert_order (db : Db) (uid : Z) (row : OrderRow) : res unit Db :=
  match orders db !! uid with
  | Some _ => Err tt
  | None => Ok (set_orders db (<[uid := row]> (orders db)))
  end.
Definition insert_interactions (db : Db) (uid : Z) (rows : list InteractionRow) : res unit Db :=
  rfold (fun db row =>
    if bool_decide (Exists (fun r => r.1 = uid /\ index r.2 = index row) (interaction_rows db)) then Err tt
    else Ok (set_interaction_rows db (interaction_rows db ++ [(uid, row)]))) db rows.
Definition insert_quote (db : Db) (uid : Z) (quote : QuoteRow) : res unit Db :=
  match order_quotes db !! uid with
  | Some _ => Err tt
  | None => Ok (set_order_quotes db (<[uid := quote]> (order_quotes db)))
  end.
Definition set_cancelled (row : OrderRow) (at_ : Z) : OrderRow :=
  mkOrderRow (row_owner row) (creation_timestamp row) (row_sell_token row) (row_buy_token row) (row_receiver row)
    (row_sell_amount row) (row_buy_amount row) (row_valid_to row) (row_app_data row) (row_fee_amount row) (row_kind row)
    (row_partially_fillable row) (row_signature row) (row_signing_scheme row) (row_settlement_contract row)
    (row_sell_token_balance row) (row_buy_token_balance row) (row_full_fee_amount row)
    (match cancellation_timestamp row with Some t => Some t | None => Some at_ end) (row_class row).
(** A cancellation is not overwritten. *)
Definition cancel_order (db : Db) (uid timestamp : Z) : Db :=
  set_orders db (alter (fun row => set_cancelled row timestamp) uid (orders db)).

(** What the queries select of an order. *)
Record FullOrder : Type := mkFullOrder {
  full_uid : Z;
  full_row : OrderRow;
  sum_sell : Z;
  sum_buy : Z;
  sum_fee : Z;
  full_invalidated : bool;
  presignature_pending : bool;
  pre_interactions : list InteractionRow;
  post_interactions : list InteractionRow;
  full_ethflow_data : option (option Z * Z);
  full_onchain_user : option Z;
  onchain_placement_error : option OnchainOrderPlacementError;
  full_executed_surplus_fee : Z;
  full_full_app_data : option (list byte);
}.
Definition valid_to (self : FullOrder) : Z :=
  match full_ethflow_data self with Some (_, valid_to) => valid_to | None => row_valid_to (full_row self) end.

Definition sum (l : list Z) : Z := foldr Z.add 0 l.
Definition trades_of (db : Db) (uid : Z) : list TradeRow := filter (fun t => trade_order t = uid) (map snd (map_to_list (trades (indexed db)))).
(** The order of logs in the chain *)
Definition index_ltb (a b : EventIndex) : bool := (a.1 <? b.1) || ((a.1 =? b.1) && (a.2 <? b.2)).
(** The presignature of the last log. *)
Definition newer (best : option (EventIndex * PresignatureRow)) (event : EventIndex * PresignatureRow)
  : option (EventIndex * PresignatureRow) :=
  match best with
  | Some b => if index_ltb event.1 b.1 then best else Some event
  | None => Some event
  end.
Definition presignatures_of (db : Db) (uid : Z) : list (EventIndex * PresignatureRow) :=
  filter (fun p => presigned p.2 = uid) (map_to_list (presignature_events (indexed db))).
Definition unsigned (db : Db) (uid : Z) : bool :=
  match foldl newer None (presignatures_of db uid) with
  | Some event => negb (signed event.2)
  | None => true
  end.
(** What the autopilot recorded as executed; the sum ignores what is NULL. *)
Definition executions_of (db : Db) (uid : Z) : list Z :=
  omap (fun e => e.2.1) (filter (fun e : (Z * Z) * (option Z * Z) => e.1.1 = uid) (map_to_list (order_execution (indexed db)))).
Definition invalidated_on_chain (db : Db) (uid : Z) : bool :=
  bool_decide (uid ∈ map snd (map_to_list (invalidations (indexed db))))
  || bool_decide (is_Some (onchain_order_invalidations (indexed db) !! uid)).
(** ORDER BY index *)
Definition by_index (a b : InteractionRow) : Prop := index a <= index b.
#[export] Instance by_index_dec : RelDecision by_index.
Proof. intros a b. unfold by_index. apply _. Defined.
Definition interactions_of (db : Db) (uid : Z) (at_ : ExecutionTime) : list InteractionRow :=
  merge_sort by_index (map snd (filter (fun r => r.1 = uid /\ execution r.2 = at_) (interaction_rows db))).
(** The columns of ORDERS_SELECT *)
Definition full_order (db : Db) (uid : Z) (row : OrderRow) : FullOrder :=
  mkFullOrder uid row
    (sum (map trade_sell (trades_of db uid))) (sum (map trade_buy (trades_of db uid)))
    (sum (map trade_fee (trades_of db uid)))
    (bool_decide (cancellation_timestamp row <> None) || invalidated_on_chain db uid)
    (match row_signing_scheme row with SPreSign => unsigned db uid | _ => false end)
    (interactions_of db uid Pre) (interactions_of db uid Post)
    ((fun eth_valid_to => (snd <$> ethflow_refunds (indexed db) !! uid, eth_valid_to)) <$> ethflow_orders (indexed db) !! uid)
    (placement_sender <$> onchain_placed_orders (indexed db) !! uid)
    (onchain_placed_orders (indexed db) !! uid ≫= placement_error)
    (sum (executions_of db uid))
    (fetch_app_data db (row_app_data row)).
Definition single_full_order (db : Db) (uid : Z) : option FullOrder := full_order db uid <$> orders db !! uid.
Definition full_orders (db : Db) : list FullOrder := map (fun '(uid, row) => full_order db uid row) (map_to_list (orders db)).
(** OPEN_ORDERS *)
Definition is_open (db : Db) (min_valid_to : Z) (o : FullOrder) : bool :=
  (min_valid_to <=? row_valid_to (full_row o))
  && match ethflow_orders (indexed db) !! full_uid o with Some eth_valid_to => min_valid_to <=? eth_valid_to | None => true end
  && match row_kind (full_row o) with
     | Sell => sum_sell o <? row_sell_amount (full_row o)
     | Buy => sum_buy o <? row_buy_amount (full_row o)
     end
  && negb (full_invalidated o)
  && match onchain_placement_error o with None => true | Some _ => false end.
Definition solvable_orders (db : Db) (min_valid_to : Z) : list FullOrder :=
  List.filter (is_open db min_valid_to) (full_orders db).
(** COALESCE(MAX(block_number), 0) *)
Definition max_block {A} (t : gmap EventIndex A) : Z :=
  match map (fun row => row.1.1) (map_to_list t) with [] => 0 | block :: blocks => foldr Z.max block blocks end.
Definition latest_settlement_block (db : Db) : Z := max_block (settlements (indexed db)).
Definition limit_orders_of (db : Db) (min_valid_to owner : Z) : list FullOrder :=
  List.filter (fun o => bool_decide (row_class (full_row o) = Limit) && (row_owner (full_row o) =? owner))
    (solvable_orders db min_valid_to).
Definition count_limit_orders_by_owner (db : Db) (min_valid_to owner : Z) : Z :=
  Z.of_nat (length (limit_orders_of db min_valid_to owner)).
(** The inner join leaves out the orders without a quote. *)
Definition user_orders_with_quote (db : Db) (min_valid_to owner : Z) : list (FullOrder * QuoteRow) :=
  omap (fun o => quote ← order_quotes db !! full_uid o; Some (o, quote)) (limit_orders_of db min_valid_to owner).
(** ORDER BY creation_timestamp DESC *)
Definition newest (a b : FullOrder) : Prop := creation_timestamp (full_row b) <= creation_timestamp (full_row a).
#[export] Instance newest_dec : RelDecision newest.
Proof. intros a b. unfold newest. apply _. Defined.
Definition user_orders (db : Db) (owner offset : Z) (limit : option Z) : list FullOrder :=
  let own o := (row_owner (full_row o) =? owner) || bool_decide (full_onchain_user o = Some owner) in
  let rows := drop (Z.to_nat offset) (merge_sort newest (List.filter own (full_orders db))) in
  match limit with Some limit => take (Z.to_nat limit) rows | None => rows end.
End Database.

(** * The order store of the order book, and the conversions of rows *)
Module OrderStoring.
Import Database.
Inductive InsertionError : Type :=
| DuplicatedRecord
| DbError
| AppDataMismatch (existing : list byte).

Definition I32_MAX : Z := 2 ^ 31 - 1.
Definition to_row (interaction : InteractionData) (index : Z) (execution : ExecutionTime) : InteractionRow :=
  mkInteractionRow (target interaction) (value interaction) (call_data interaction) index execution.
(** The interactions of an order, numbered; the number is an [i32]. *)
Definition interaction_rows_of (self : Interactions) : list InteractionRow :=
  imap (fun i '(interaction, execution) => to_row interaction (Z.of_nat i) execution)
    (map (fun i => (i, Pre)) (pre self) ++ map (fun i => (i, Post)) (post self)).
Definition order_row (order : Order) : OrderRow :=
  let d := data order in
  let m := metadata order in
  mkOrderRow (owner m) (creation_date m) (sell_token d) (buy_token d) (receiver d) (sell_amount d) (buy_amount d)
    (ModelOrder.valid_to d) (app_data d) (fee_amount d) (kind d) (partially_fillable d) (to_bytes (signature order))
    (scheme (signature order)) (settlement_contract m) (sell_token_balance d) (buy_token_balance d) (full_fee_amount m)
    None (class m).
Definition insert_order (db : Db) (now : Z) (order : Order) : res InsertionError Db :=
  let uid := order_uid (metadata order) in
  let db := insert_order_event db (mkOrderEvent uid now Created) in
  let rows := interaction_rows_of (interactions order) in
  if I32_MAX <? Z.of_nat (length rows) - 1 then Panic
  else
    let* db := map_err (fun _ => DuplicatedRecord) (Database.insert_order db uid (order_row order)) in
    map_err (fun _ => DbError) (insert_interactions db uid rows).
Definition insert_quote (db : Db) (uid : Z) (quote : OrderQuoting.Quote) : res InsertionError Db :=
  let fee := OrderQuoting.fee_parameters (OrderQuoting.data quote) in
  map_err (fun _ => DbError)
    (Database.insert_quote db uid
       (mkQuoteRow (Fee.gas_amount fee) (Fee.gas_price fee) (Fee.sell_token_price fee) (OrderQuoting.sell_amount quote)
          (OrderQuoting.buy_amount quote) (OrderQuoting.quote_solver (OrderQuoting.data quote)))).
Definition insert_order_app_data (db : Db) (order : Order) : res InsertionError Db :=
  match full_app_data (metadata order) with
  | Some full_app_data =>
      match insert_app_data db (app_data (data order)) full_app_data with
      | (db, Some existing) => if bool_decide (full_app_data = existing) then Ok db else Err (AppDataMismatch existing)
      | (db, None) => Ok db
      end
  | None => Ok db
  end.
Definition insert_all (db : Db) (now : Z) (order : Order) (quote : option OrderQuoting.Quote) : res InsertionError Db :=
  let* db := insert_order db now order in
  let* db := match quote with Some quote => insert_quote db (order_uid (metadata order)) quote | None => Ok db end in
  insert_order_app_data db order.
(** The transactions of the trait: the store is left alone when one fails. *)
Definition store_order (db : Db) (now : Z) (order : Order) (quote : option OrderQuoting.Quote) : res InsertionError Db :=
  insert_all db now order quote.
Definition cancel_order (db : Db) (uid now : Z) : Db :=
  Database.cancel_order (insert_order_event db (mkOrderEvent uid now EventCancelled)) uid now.
Definition cancel_orders (db : Db) (uids : list Z) (now : Z) : Db := foldl (fun db uid => cancel_order db uid now) db uids.
(** The event of the cancellation is missing. *)
Definition replace_order (db : Db) (now : Z) (old_order : Z) (new_order : Order) (new_quote : option OrderQuoting.Quote)
  : res InsertionError Db :=
  insert_all (Database.cancel_order db old_order (creation_date (metadata new_order))) now new_order new_quote.

Definition is_sell_order_filled (amount executed_amount executed_fee : Z) : bool :=
  if executed_amount =? 0 then false else executed_amount - executed_fee =? amount.
Definition is_buy_order_filled (amount executed_amount : Z) : bool := negb (executed_amount =? 0) && (amount =? executed_amount).
Definition calculate_status (now : Z) (order : FullOrder) : OrderStatus :=
  if match row_kind (full_row order) with
     | Buy => is_buy_order_filled (row_buy_amount (full_row order)) (sum_buy order)
     | Sell => is_sell_order_filled (row_sell_amount (full_row order)) (sum_sell order) (sum_fee order)
     end then Fulfilled
  else if full_invalidated order then Cancelled
  else if valid_to order <? now then Expired
  else if presignature_pending order then PresignaturePending
  else Open.

(** [big_decimal_to_u256] and [big_decimal_to_big_uint] of an integer *)
Definition big_decimal_to_u256 (z : Z) : option Z := if u256b z then Some z else None.
Definition big_decimal_to_big_uint (z : Z) : option Z := if 0 <=? z then Some z else None.
Definition extract_interactions (order : FullOrder) (execution : ExecutionTime) : res unit (list InteractionData) :=
  rmap (fun row =>
      let* value := opt (big_decimal_to_u256 (interaction_value row)) in
      Ok (mkInteractionData (interaction_target row) value (interaction_data row)))
    match execution with Pre => pre_interactions order | Post => post_interactions order end.
(** [full_order_into_model_order], of which there are two that differ in the
    status and in the fee for the solver. *)
Definition into_model_order (order : FullOrder) (status : OrderStatus) (solver_fee : Z -> Z -> Z) : res unit Order :=
  let row := full_row order in
  let* pre_interactions := extract_interactions order Pre in
  let* post_interactions := extract_interactions order Post in
  let ethflow_data := (fun '(refund_tx, user_valid_to) => mkEthflowData user_valid_to refund_tx) <$> full_ethflow_data order in
  let onchain_order_data := (fun user => mkOnchainOrderData user (onchain_placement_error order)) <$> full_onchain_user order in
  let* full_fee := opt (big_decimal_to_u256 (row_full_fee_amount row)) in
  let* fee := opt (big_decimal_to_u256 (row_fee_amount row)) in
  let* executed_buy := opt (big_decimal_to_big_uint (sum_buy order)) in
  let* executed_sell := opt (big_decimal_to_big_uint (sum_sell order)) in
  let* before_fees := opt (big_decimal_to_u256 (sum_sell order - sum_fee order)) in
  let* executed_fee := opt (big_decimal_to_u256 (sum_fee order)) in
  let* surplus_fee := opt (big_decimal_to_u256 (full_executed_surplus_fee order)) in
  let* full_app_data :=
    match full_full_app_data order with
    | Some bytes => if AppData.is_utf8 (map Z_of_byte bytes) then Ok (Some bytes) else Err tt
    | None => Ok None
    end in
  let metadata :=
    mkOrderMetadata (creation_timestamp row) (row_owner row) (full_uid order) executed_buy executed_sell before_fees
      executed_fee surplus_fee (full_invalidated order) status (row_class row) (row_settlement_contract row) full_fee
      (solver_fee full_fee fee) full_app_data ethflow_data onchain_order_data (full_onchain_user order) in
  let* sell := opt (big_decimal_to_u256 (row_sell_amount row)) in
  let* buy := opt (big_decimal_to_u256 (row_buy_amount row)) in
  let* valid_to := if (0 <=? row_valid_to row) && (row_valid_to row <=? QuoteModel.U32_MAX) then Ok (row_valid_to row) else Err tt in
  let data :=
    mkOrderData (row_sell_token row) (row_buy_token row) (row_receiver row) sell buy valid_to (row_app_data row) fee
      (row_kind row) (row_partially_fillable row) (row_sell_token_balance row) (row_buy_token_balance row) in
  let* signature := from_bytes (row_signing_scheme row) (row_signature row) in
  Ok (mkOrder metadata data signature (mkInteractions pre_interactions post_interactions)).
(** In the order book *)
Definition full_order_into_model_order (now : Z) (order : FullOrder) : res unit Order :=
  into_model_order order (calculate_status now order) (fun full_fee _ => full_fee).
(** In shared/src/db_order_conversions.rs, for the open orders of the autopilot *)
Definition shared_full_order_into_model_order (order : FullOrder) : res unit Order :=
  into_model_order order (if presignature_pending order then PresignaturePending else Open)
    (fun full_fee fee => match row_class (full_row order) with Liquidity => fee | _ => full_fee end).

Definition single_order (db : Db) (now uid : Z) : res unit (option Order) :=
  match single_full_order db uid with
  | Some order => res_map Some (full_order_into_model_order now order)
  | None => Ok None
  end.
Definition user_orders (db : Db) (now owner offset : Z) (limit : option Z) : res unit (list Order) :=
  rmap (full_order_into_model_order now) (Database.user_orders db owner offset limit).

(** ** [LimitOrderCounting]: the orders outside the market price of their quote *)
Section counting.
Context (from_f64_lossy : F64.f64 -> Z).
Definition counts (o : FullOrder * QuoteRow) : res unit bool :=
  let '(order, quote) := o in
  let* sell := opt_expect (big_decimal_to_u256 (row_sell_amount (full_row order))) in
  let* buy := opt_expect (big_decimal_to_u256 (row_buy_amount (full_row order))) in
  let* quote_sell := opt_expect (big_decimal_to_u256 (quote_sell_amount quote)) in
  let* quote_buy := opt_expect (big_decimal_to_u256 (quote_buy_amount quote)) in
  let fee :=
    Fee.fee from_f64_lossy
      (Fee.mkFeeParameters (quote_gas_amount quote) (quote_gas_price quote) (quote_sell_token_price quote)) in
  OrderValidation.is_order_outside_market_price (OrderValidation.mkAmounts sell buy 0)
    (OrderValidation.mkAmounts quote_sell quote_buy fee) (row_kind (full_row order)).
Definition count (db : Db) (now owner : Z) : res unit Z :=
  let* outside := rmap counts (user_orders_with_quote db now owner) in
  Ok (Z.of_nat (length (List.filter Datatypes.id outside))).
End counting.
End OrderStoring.

(** * Lemmas *)
Import Database OrderStoring.

Lemma insert_order_event_tables db event :
  orders (insert_order_event db event) = orders db /\ interaction_rows (insert_order_event db event) = interaction_rows db /\
  order_quotes (insert_order_event db event) = order_quotes db /\
  app_data_rows (insert_order_event db event) = app_data_rows db /\ indexed (insert_order_event db event) = indexed db.
Proof. unfold insert_order_event. by destruct (get_latest db _); [case_decide|]. Qed.

Lemma insert_interactions_Ok uid rows db db' : insert_interactions db uid rows = Ok db' ->
  db' = set_interaction_rows db (interaction_rows db ++ map (pair uid) rows).
Proof.
  revert db. induction rows as [|row rows IH]; intros db H; cbn in H.
  - injection H as <-. rewrite app_nil_r. by destruct db.
  - apply rbind_Ok in H as (db1 & Hs & H). case_bool_decide; [done|]. injection Hs as <-. apply IH in H as ->.
    cbn. by rewrite <- app_assoc.
Qed.

(** What a transaction that stores an order does to the tables. *)
Record inserted (db : Db) (o : Order) (db' : Db) : Prop := {
  inserted_new : orders db !! order_uid (metadata o) = None;
  inserted_orders : orders db' = <[order_uid (metadata o) := order_row o]> (orders db);
  inserted_interactions : interaction_rows db' =
    interaction_rows db ++ map (pair (order_uid (metadata o))) (interaction_rows_of (interactions o));
  inserted_app_data full : full_app_data (metadata o) = Some full ->
    app_data_rows db' !! app_data (data o) = Some full;
  inserted_app_data_kept : app_data_rows db ⊆ app_data_rows db';
  inserted_indexed : indexed db' = indexed db;
}.

Lemma insert_app_data_Ok db o db' : insert_order_app_data db o = Ok db' ->
  orders db' = orders db /\ interaction_rows db' = interaction_rows db /\ indexed db' = indexed db /\
  (forall full, full_app_data (metadata o) = Some full -> app_data_rows db' !! app_data (data o) = Some full) /\
  app_data_rows db ⊆ app_data_rows db'.
Proof.
  unfold insert_order_app_data, insert_app_data. destruct (full_app_data (metadata o)) as [full|] eqn:Hf.
  - destruct (app_data_rows db !! app_data (data o)) as [existing|] eqn:He.
    + case_bool_decide as Hfe; [|done]. intros [= <-]. subst. split_and!; try done. naive_solver.
    + intros [= <-]. cbn. split_and!; try done.
      * intros f [= <-]. by rewrite lookup_insert_eq.
      * by apply insert_subseteq.
  - intros [= <-]. split_and!; done.
Qed.

Lemma insert_all_Ok db now o quote db' : insert_all db now o quote = Ok db' -> inserted db o db'.
Proof.
  intros H. unfold insert_all in H. apply rbind_Ok in H as (db1 & H1 & H). apply rbind_Ok in H as (db2 & H2 & H).
  assert (Hq : db2 = db1 \/ exists t, db2 = set_order_quotes db1 t).
  { destruct quote as [q|]; [|left; by injection H2]. right. unfold insert_quote in H2. apply map_err_Ok in H2.
    unfold Database.insert_quote in H2. case_match; [done|]. injection H2 as <-. by eexists. }
  unfold insert_order in H1. clear H2. destruct (I32_MAX <? _); [done|]. apply rbind_Ok in H1 as (db0 & H0 & H1).
  apply map_err_Ok in H0. apply map_err_Ok, insert_interactions_Ok in H1.
  unfold Database.insert_order in H0.
  destruct (insert_order_event_tables db (mkOrderEvent (order_uid (metadata o)) now Created)) as (E1 & E2 & _ & E4 & E5).
  rewrite E1 in H0. destruct (orders db !! _) eqn:Ho; [done|]. injection H0 as <-.
  apply insert_app_data_Ok in H as (A1 & A2 & A3 & A4 & A5).
  set (db0 := insert_order_event _ _) in *.
  assert (Hdb2 : orders db2 = <[order_uid (metadata o) := order_row o]> (orders db) /\
    interaction_rows db2 = interaction_rows db ++ map (pair (order_uid (metadata o))) (interaction_rows_of (interactions o)) /\
    app_data_rows db2 = app_data_rows db /\ indexed db2 = indexed db).
  { destruct Hq as [->|[t ->]]; subst db1; cbn; rewrite ?E1, E2; split_and!; try done.
    all: unfold indexed in *; cbn in *; exact E5. }
  destruct Hdb2 as (D1 & D2 & D3 & D4). split; [done|congruence|congruence|done| |congruence]. by rewrite <- D3.
Qed.

(** ** Reading interactions back *)
(** Numbered rows are found again in the order of their numbers. *)
Lemma merge_sort_numbered (k0 : Z) (f : nat -> InteractionData -> InteractionRow) (l : list InteractionData) :
  (forall i x, index (f i x) = k0 + Z.of_nat i) -> merge_sort by_index (imap f l) = imap f l.
Proof.
  intros Hf. apply (StronglySorted_unique_strong by_index).
  - intros x1 x2 Hx1 Hx2 H1 H2. rewrite merge_sort_Permutation in Hx1.
    apply elem_of_lookup_imap in Hx1 as (i & y1 & -> & Hi). apply elem_of_lookup_imap in Hx2 as (j & y2 & -> & Hj).
    unfold by_index in *. rewrite !Hf in *. assert (i = j) as -> by lia. congruence.
  - apply StronglySorted_merge_sort; intros x; unfold by_index; lia.
  - assert (Hg : forall n, StronglySorted by_index (imap (fun i => f (n + i)%nat) l)).
    { induction l as [|x l IH]; intros n; cbn; [constructor|]. constructor.
      - specialize (IH (S n)). erewrite imap_ext in IH; [exact IH|]. intros i y _. cbn. by rewrite Nat.add_succ_r.
      - apply Forall_forall. intros row Hrow. apply elem_of_lookup_imap in Hrow as (k & y & -> & _).
        unfold by_index. cbn. rewrite !Hf. lia. }
    apply (Hg 0%nat).
  - apply merge_sort_Permutation.
Qed.

Lemma interactions_of_stored (self : Interactions) (uid : Z) (at_ : ExecutionTime) :
  merge_sort by_index
    (map snd (filter (fun r => r.1 = uid /\ execution r.2 = at_) (map (pair uid) (interaction_rows_of self)))) =
  match at_ with
  | Pre => imap (fun i x => to_row x (Z.of_nat i) Pre) (pre self)
  | Post => imap (fun i x => to_row x (Z.of_nat (length (pre self) + i)) Post) (post self)
  end.
Proof.
  set (rows1 := imap (fun i x => to_row x (Z.of_nat i) Pre) (pre self)).
  set (rows2 := imap (fun i x => to_row x (Z.of_nat (length (pre self) + i)) Post) (post self)).
  assert (Hrows : interaction_rows_of self = rows1 ++ rows2).
  { unfold interaction_rows_of. rewrite imap_app. unfold rows1, rows2. f_equal.
    - rewrite imap_fmap. by apply imap_ext.
    - rewrite imap_fmap, length_map. by apply imap_ext. }
  assert (H1 : Forall (fun r => execution r = Pre) rows1).
  { apply Forall_forall. intros r Hr. by apply elem_of_lookup_imap in Hr as (i & x & -> & _). }
  assert (H2 : Forall (fun r => execution r = Post) rows2).
  { apply Forall_forall. intros r Hr. by apply elem_of_lookup_imap in Hr as (i & x & -> & _). }
  assert (Hf : forall l e, Forall (fun r => execution r = e) l ->
    map snd (filter (fun r : Z * InteractionRow => r.1 = uid /\ execution r.2 = at_) (map (pair uid) l)) =
    if decide (e = at_) then l else []).
  { intros l e. induction l as [|r l IH]; intros Hl; [by case_decide|]. apply Forall_cons_iff in Hl as [Hr Hl].
    specialize (IH Hl). cbn [map]. rewrite filter_cons. destruct (decide (_ = _ /\ _ = _)) as [Hd|Hd]; cbn in Hd.
    - destruct Hd as [_ Hd]. rewrite Hr in Hd. cbn. rewrite IH. by destruct (decide (e = at_)).
    - rewrite IH. case_decide; [|done]. exfalso. apply Hd. split; [done|congruence]. }
  rewrite Hrows, map_app, filter_app, map_app, (Hf rows1 Pre H1), (Hf rows2 Post H2).
  destruct at_; cbn [decide]; rewrite ?app_nil_r.
  - by apply (merge_sort_numbered 0).
  - apply (merge_sort_numbered (Z.of_nat (length (pre self)))). intros i x. cbn. lia.
Qed.

(** An order within its types, with its app data. *)
Record storable (o : Order) (full : list byte) : Prop := {
  storable_sell : u256 (sell_amount (data o));
  storable_buy : u256 (buy_amount (data o));
  storable_fee : u256 (fee_amount (data o));
  storable_full_fee : u256 (full_fee_amount (metadata o));
  storable_valid_to : 0 <= ModelOrder.valid_to (data o) <= QuoteModel.U32_MAX;
  storable_signature : signature_ok (signature o);
  storable_pre : Forall (fun i => u256 (value i)) (pre (interactions o));
  storable_post : Forall (fun i => u256 (value i)) (post (interactions o));
  storable_app_data : full_app_data (metadata o) = Some full /\ AppData.is_utf8 (map Z_of_byte full) = true;
}.
(** Nothing but the order knows the uid. *)
Record unknown (db : Db) (uid : Z) : Prop := {
  unknown_interactions : Forall (fun r => r.1 <> uid) (interaction_rows db);
  unknown_trades : trades_of db uid = [];
  unknown_invalidations : invalidated_on_chain db uid = false;
  unknown_presignatures : presignatures_of db uid = [];
  unknown_ethflow : ethflow_orders (indexed db) !! uid = None;
  unknown_placed : onchain_placed_orders (indexed db) !! uid = None;
  unknown_execution : executions_of db uid = [];
}.
(** The order a client that asks for it is told: nothing is executed. *)
Definition as_stored (o : Order) : Order :=
  let m := metadata o in
  let status := match signature o with PreSign => PresignaturePending | _ => Open end in
  mkOrder
    (mkOrderMetadata (creation_date m) (owner m) (order_uid m) 0 0 0 0 0 false status (class m) (settlement_contract m)
       (full_fee_amount m) (full_fee_amount m) (full_app_data m) None None None)
    (data o) (signature o) (interactions o).

Lemma u256_back z : u256 z -> opt (big_decimal_to_u256 z) = Ok z.
Proof.
  intros [H1 H2]. unfold big_decimal_to_u256, u256b. by rewrite (proj2 (Z.leb_le 0 z) H1), (proj2 (Z.leb_le z U256_MAX) H2).
Qed.


Lemma extract_back order execution f (l : list InteractionData) :
  match execution with Pre => pre_interactions order | Post => post_interactions order end =
    imap (fun i x => to_row x (f i) execution) l ->
  Forall (fun i => u256 (value i)) l -> extract_interactions order execution = Ok l.
Proof.
  intros Hl Hu. unfold extract_interactions. rewrite Hl. clear Hl. revert f.
  induction Hu as [|x l Hx _ IH]; intros f; [done|]. cbn [imap rmap]. cbn [to_row interaction_value].
  rewrite u256_back by done. cbn [rbind]. specialize (IH (fun i => f (S i))).
  change (imap ((fun i x => to_row x (f i) execution) ∘ S) l) with (imap (fun i x => to_row x (f (S i)) execution) l).
  rewrite IH. cbn [rbind interaction_target interaction_data]. by destruct x.
Qed.

(** The full order of an order that was just stored. *)
Lemma full_order_inserted db o full db' : unknown db (order_uid (metadata o)) -> inserted db o db' ->
  full_app_data (metadata o) = Some full ->
  let uid := order_uid (metadata o) in
  single_full_order db' uid =
  Some (mkFullOrder uid (order_row o) 0 0 0 false (match signature o with PreSign => true | _ => false end)
          (imap (fun i x => to_row x (Z.of_nat i) Pre) (pre (interactions o)))
          (imap (fun i x => to_row x (Z.of_nat (length (pre (interactions o)) + i)) Post) (post (interactions o)))
          None None None 0 (Some full)).
Proof.
  intros [Hi Ht Hv Hp He Hpl Hx] [H1 H2 H3 H4 _ H6] Hf. cbn zeta. set (uid := order_uid (metadata o)) in *.
  unfold single_full_order. rewrite H2, lookup_insert_eq. cbn [fmap option_fmap option_map]. f_equal.
  unfold full_order, unsigned, trades_of, executions_of, invalidated_on_chain, presignatures_of in *.
  rewrite H6, Ht, Hp, He, Hpl, Hx, Hv.
  assert (Hio : forall at_, interactions_of db' uid at_ =
    match at_ with
    | Pre => imap (fun i x => to_row x (Z.of_nat i) Pre) (pre (interactions o))
    | Post => imap (fun i x => to_row x (Z.of_nat (length (pre (interactions o)) + i)) Post) (post (interactions o))
    end).
  { intros at_. unfold interactions_of. rewrite H3, filter_app.
    rewrite (filter_none _ (interaction_rows db)); [|eapply Forall_impl; [exact Hi|]; intros r Hr [Hr' _]; by apply Hr].
    apply interactions_of_stored. }
  rewrite !Hio. unfold fetch_app_data. cbn [row_app_data order_row]. rewrite (H4 full Hf).
  cbn. f_equal. by destruct (signature o).
Qed.

(** ** Open orders *)
(** A row with what was executed of it, no more than it trades and, as all
    orders have no fee, without a fee; a user of the ethflow contract is never
    given more time than the order. *)
Record consistent (db : Db) (uid : Z) (row : OrderRow) : Prop := {
  consistent_amounts : 0 < row_sell_amount row /\ 0 < row_buy_amount row;
  consistent_trades : 0 <= sum (map trade_sell (trades_of db uid)) /\ 0 <= sum (map trade_buy (trades_of db uid)) /\
    sum (map trade_fee (trades_of db uid)) = 0;
  consistent_filled : match row_kind row with
    | Sell => sum (map trade_sell (trades_of db uid)) <= row_sell_amount row
    | Buy => sum (map trade_buy (trades_of db uid)) <= row_buy_amount row
    end;
  consistent_ethflow valid_to : ethflow_orders (indexed db) !! uid = Some valid_to -> valid_to <= row_valid_to row;
}.

Lemma is_open_status db now uid row : consistent db uid row ->
  is_open db now (full_order db uid row) = true <->
  (calculate_status now (full_order db uid row) = Open \/
   calculate_status now (full_order db uid row) = PresignaturePending) /\
  onchain_placement_error (full_order db uid row) = None.
Proof.
  intros [[Ha1 Ha2] (Ht1 & Ht2 & Ht3) Hf He]. unfold is_open, calculate_status.
  cbn [full_order full_row full_uid sum_sell sum_buy sum_fee]. set (o := full_order db uid row) in *.
  change (full_row (full_order db uid row)) with row. change (full_uid o) with uid.
  set (rest := match row_kind row with Buy => _ | Sell => _ end).
  set (filled := match row_kind row with Buy => _ | Sell => _ end).
  assert (Hrest : rest = negb filled).
  { subst rest filled. destruct (row_kind row); cbn [full_order sum_sell sum_buy sum_fee] in *.
    - unfold is_buy_order_filled. destruct (Z.eqb_spec (sum (map trade_buy (trades_of db uid))) 0) as [->|]; cbn.
      + apply Z.ltb_lt. lia.
      + destruct (Z.ltb_spec (sum (map trade_buy (trades_of db uid))) (row_buy_amount row)),
          (Z.eqb_spec (row_buy_amount row) (sum (map trade_buy (trades_of db uid)))); cbn; lia || done.
    - unfold is_sell_order_filled. rewrite Ht3, Z.sub_0_r.
      destruct (Z.eqb_spec (sum (map trade_sell (trades_of db uid))) 0) as [->|]; cbn.
      + apply Z.ltb_lt. lia.
      + destruct (Z.ltb_spec (sum (map trade_sell (trades_of db uid))) (row_sell_amount row)),
          (Z.eqb_spec (sum (map trade_sell (trades_of db uid))) (row_sell_amount row)); cbn; lia || done. }
  rewrite Hrest. clear Hrest rest.
  assert (Hv : (now <=? row_valid_to row) &&
    match ethflow_orders (indexed db) !! uid with Some v => now <=? v | None => true end = negb (valid_to o <? now)).
  { unfold valid_to, o. cbn [full_order full_ethflow_data full_row].
    destruct (ethflow_orders (indexed db) !! uid) as [v|] eqn:Hev; cbn.
    - specialize (He v eq_refl). destruct (Z.leb_spec now (row_valid_to row)), (Z.leb_spec now v), (Z.ltb_spec v now); cbn; lia || done.
    - destruct (Z.leb_spec now (row_valid_to row)), (Z.ltb_spec (row_valid_to row) now); cbn; lia || done. }
  rewrite Hv. clear Hv.
  destruct filled, (full_invalidated o), (valid_to o <? now), (presignature_pending o), (onchain_placement_error o); cbn;
    naive_solver.
Qed.

(** ** The log of events *)
(** The labels of the events of an order, in the order of the log. *)
Definition labels (db : Db) (uid : Z) : list OrderEventLabel :=
  map label (filter (fun event => event_order event = uid) (order_events db)).
Fixpoint alternates {A} (l : list A) : Prop :=
  match l with x :: ((y :: _) as l') => x <> y /\ alternates l' | _ => True end.
Definition chronological (db : Db) (now : Z) : Prop :=
  StronglySorted Z.le (map timestamp (order_events db)) /\ Forall (fun event => timestamp event <= now) (order_events db).

Lemma alternates_snoc {A} (l : list A) x : alternates (l ++ [x]) <-> alternates l /\ last l <> Some x.
Proof.
  induction l as [|y [|z l] IH]; [cbn; naive_solver|cbn; naive_solver|]. cbn [app alternates]. cbn [app alternates] in IH.
  rewrite IH. rewrite (last_cons_cons y z l). tauto.
Qed.

Lemma foldl_later_last l best : StronglySorted Z.le (map timestamp l) ->
  (forall b event, best = Some b -> event ∈ l -> timestamp b <= timestamp event) ->
  foldl later best l = match last l with Some event => Some event | None => best end.
Proof.
  revert best. induction l as [|event l IH]; intros best Hs Hb; [done|]. cbn [map foldl] in *.
  apply StronglySorted_inv in Hs as [Hs Hall].
  assert (Hl : later best event = Some event).
  { destruct best as [b|]; [|done]. cbn. rewrite (proj2 (Z.ltb_ge _ _)); [done|]. eapply Hb; [done|left]. }
  rewrite Hl, IH; [rewrite last_cons; by destruct (last l)|done|]. intros b e [= <-] He. rewrite Forall_forall in Hall. apply Hall.
  apply list_elem_of_fmap. by exists e.
Qed.

Lemma filter_sorted {A} (f : A -> Z) (P : A -> Prop) `{!forall x, Decision (P x)} (l : list A) :
  StronglySorted Z.le (map f l) -> StronglySorted Z.le (map f (filter P l)).
Proof.
  induction l as [|x l IH]; [done|]. cbn [map]. intros [Hs Hall]%StronglySorted_inv. rewrite filter_cons. case_decide; [|auto].
  cbn [map]. constructor; [auto|]. rewrite Forall_forall in Hall |- *. intros y (e & -> & He)%list_elem_of_fmap.
  apply list_elem_of_filter in He as [_ He]. apply Hall, list_elem_of_fmap. by exists e.
Qed.

Lemma get_latest_last db now uid : chronological db now ->
  get_latest db uid = last (filter (fun event => event_order event = uid) (order_events db)).
Proof.
  intros [Hs _]. unfold get_latest. rewrite foldl_later_last; [by destruct last|by apply filter_sorted|done].
Qed.

Definition no_rows : Db := mkDb ∅ [] ∅ [] ∅ (mkIndexed ∅ ∅ ∅ ∅ ∅ ∅ ∅ ∅ ∅ ∅).

Lemma insert_order_event_step db event : chronological db (timestamp event) ->
  chronological (insert_order_event db event) (timestamp event) /\
  (forall uid, labels (insert_order_event db event) uid =
     labels db uid ++ (if decide (event_order event = uid /\ last (labels db uid) <> Some (label event))
                       then [label event] else [])).
Proof.
  intros Hc. unfold insert_order_event. rewrite (get_latest_last _ _ _ Hc).
  assert (Hlast : forall uid, last (labels db uid) =
    label <$> last (filter (fun e => event_order e = uid) (order_events db))).
  { intros uid. unfold labels. by rewrite <- fmap_last. }
  assert (Hadd : last (labels db (event_order event)) <> Some (label event) ->
    chronological (set_order_events db (order_events db ++ [event])) (timestamp event) /\
    forall uid, labels (set_order_events db (order_events db ++ [event])) uid = labels db uid ++
      (if decide (event_order event = uid /\ last (labels db uid) <> Some (label event)) then [label event] else [])).
  { intros Hne. destruct Hc as [Hs Hall]. split.
    - split; cbn [order_events set_order_events].
      + rewrite map_app. apply StronglySorted_app_2; [|done|cbn; repeat constructor].
        intros x y Hx Hy. apply list_elem_of_fmap in Hx as (e & -> & He). cbn in Hy. apply list_elem_of_singleton in Hy as ->.
        rewrite Forall_forall in Hall. by apply Hall.
      + apply Forall_app. split; [done|]. by repeat constructor.
    - intros uid. unfold labels. cbn [order_events set_order_events]. rewrite filter_app, map_app. f_equal.
      rewrite filter_cons, filter_nil. destruct (decide (event_order event = uid)) as [He|He].
      + rewrite decide_True; [done|]. subst uid. split; [done|exact Hne].
      + by rewrite decide_False by naive_solver. }
  destruct (last (filter _ _)) as [latest|] eqn:Hl.
  - case_decide as Hd; [|apply Hadd; rewrite Hlast, Hl; cbn; congruence].
    split; [done|]. intros uid. rewrite decide_False; [by rewrite app_nil_r|]. intros [<- Hn]. apply Hn.
    rewrite Hlast, Hl. cbn. congruence.
  - apply Hadd. by rewrite Hlast, Hl.
Qed.

Lemma chronological_later db t t' : chronological db t -> t <= t' -> chronological db t'.
Proof. intros [Hs Ha] Ht. split; [done|]. eapply Forall_impl; [exact Ha|]. cbn. lia. Qed.

(** * Properties *)

(** C30: an order that was stored reads back as it was stored: the order book
    gives the same data, signature and interactions, in their order, with the
    owner, the uid, the class and the app data, nothing executed of it, and
    open unless it waits for its presignature; a second order with the same
    uid is refused. *)
Theorem stored_order_reads_back (db db' : Db) (now now' : Z) (o : Order) (full : list byte)
    (quote : option OrderQuoting.Quote) :
  store_order db now o quote = Ok db' ->
  storable o full -> unknown db (order_uid (metadata o)) -> now' <= ModelOrder.valid_to (data o) ->
  single_order db' now' (order_uid (metadata o)) = Ok (Some (as_stored o)) /\
  forall o' q, order_uid (metadata o') = order_uid (metadata o) ->
    Z.of_nat (length (interaction_rows_of (interactions o'))) <= I32_MAX ->
    store_order db' now' o' q = Err DuplicatedRecord.
Proof.
  intros Hst [S1 S2 S3 S4 [S5 S5'] S6 S7 S8 [S9 S9']] Hu Hnow. apply insert_all_Ok in Hst as Hins. split.
  - unfold single_order. rewrite (full_order_inserted _ _ _ _ Hu Hins S9). unfold full_order_into_model_order, into_model_order.
    rewrite (extract_back _ Pre (fun i => Z.of_nat i) (pre (interactions o))) by done.
    rewrite (extract_back _ Post (fun i => Z.of_nat (length (pre (interactions o)) + i)) (post (interactions o))) by done.
    cbn [rbind full_row order_row row_full_fee_amount row_fee_amount sum_sell sum_buy sum_fee full_executed_surplus_fee
      full_full_app_data row_sell_amount row_buy_amount row_valid_to row_signing_scheme row_signature].
    change (0 - 0) with 0. change (opt (big_decimal_to_u256 0)) with (Ok 0 : res unit Z).
    change (opt (big_decimal_to_big_uint 0)) with (Ok 0 : res unit Z).
    rewrite S9', !u256_back by done. cbn [rbind].
    rewrite (proj2 (Z.leb_le _ _) S5), (proj2 (Z.leb_le _ _) S5'). cbn [andb rbind].
    rewrite signature_roundtrip by done. cbn [rbind res_map full_ethflow_data full_onchain_user fmap option_fmap option_map].
    unfold as_stored. rewrite S9. do 3 f_equal; [|by unfold order_row; destruct (data o)|by destruct (interactions o)].
    f_equal. unfold calculate_status, valid_to. cbn.
    replace (match kind (data o) with Buy => _ | Sell => _ end) with false by (by destruct (kind (data o))).
    rewrite (proj2 (Z.ltb_ge _ _) Hnow). by destruct (signature o).
  - intros o' q Huid Hlen. unfold store_order, insert_all, insert_order.
    rewrite (proj2 (Z.ltb_ge _ _)) by lia. unfold Database.insert_order.
    destruct (insert_order_event_tables db' (mkOrderEvent (order_uid (metadata o')) now' Created)) as [-> _].
    by rewrite (inserted_orders _ _ _ Hins), Huid, lookup_insert_eq.
Qed.

(** C31: the orders that are taken into auctions are those that clients are told
    are open: for consistent rows, the query of the solvable orders selects an
    order exactly when its status in the order book is open or waiting for a
    presignature and its onchain placement did not fail. *)
Theorem solvable_orders_are_open (db : Db) (now uid : Z) (row : OrderRow) :
  orders db !! uid = Some row -> consistent db uid row ->
  (full_order db uid row ∈ solvable_orders db now <->
   (calculate_status now (full_order db uid row) = Open \/
    calculate_status now (full_order db uid row) = PresignaturePending) /\
   onchain_placement_error (full_order db uid row) = None).
Proof.
  intros Hrow Hc. rewrite <- (is_open_status db now uid row Hc). unfold solvable_orders.
  rewrite list_elem_of_In, filter_In. split; [by intros [_ ?]|]. intros H. split; [|done].
  unfold full_orders. apply in_map_iff. exists (uid, row). split; [done|]. by apply list_elem_of_In, elem_of_map_to_list.
Qed.

(** The log of order events never repeats itself: whatever events are
    reported in the order of their times, no two successive events of an order
    have the same label, and the latest one that is logged has the label of
    the last one that was reported. *)
Theorem order_events_alternate (events : list OrderEvent) (uid : Z) :
  StronglySorted Z.le (map timestamp events) ->
  let db := foldl insert_order_event no_rows events in
  alternates (labels db uid) /\
  label <$> get_latest db uid = last (map label (filter (fun event => event_order event = uid) events)).
Proof.
  intros Hs db.
  assert (H : alternates (labels db uid) /\
    last (labels db uid) = last (map label (filter (fun event => event_order event = uid) events)) /\
    exists now, chronological db now /\ forall t, last (map timestamp events) = Some t -> now = t).
  { subst db. induction events as [|event events IH] using rev_ind.
    - split; [done|]. split; [done|]. exists 0. split; [|done]. split; constructor.
    - rewrite map_app in Hs. apply StronglySorted_app_1_l in Hs as Hs1. destruct (IH Hs1) as (H1 & H2 & t & Hc & Ht).
      rewrite foldl_app. cbn [foldl]. set (db := foldl insert_order_event no_rows events) in *.
      assert (Hnow : chronological db (timestamp event)).
      { destruct (last (map timestamp events)) as [t'|] eqn:Hl.
        - apply (chronological_later _ t); [done|]. rewrite (Ht t' eq_refl).
          apply (StronglySorted_app_1_elem_of _ _ _ _ _ Hs); [by apply last_Some_elem_of|by left].
        - apply last_None, map_eq_nil in Hl as ->. split; constructor. }
      apply insert_order_event_step in Hnow as [Hc' Hlab]. rewrite Hlab, filter_app, map_app, filter_cons, filter_nil.
      split_and!.
      + case_decide as Hd; [|by rewrite app_nil_r]. apply alternates_snoc. by split; [|apply Hd].
      + destruct (decide (event_order event = uid)) as [He|He].
        * cbn [map]. rewrite last_snoc. case_decide as Hd; [by rewrite last_snoc|]. rewrite app_nil_r.
          apply not_and_l in Hd as [Hd|Hd]; [done|]. by apply dec_stable.
        * rewrite decide_False by naive_solver. by rewrite !app_nil_r.
      + exists (timestamp event). split; [done|]. rewrite map_app. cbn [map]. rewrite last_snoc. by intros t' [= <-]. }
  destruct H as (H1 & H2 & t & Hc & _). split; [done|]. rewrite (get_latest_last _ _ _ Hc), <- H2. unfold labels.
  by rewrite fmap_last.
Qed.

(** * A presigned order with an interaction of each kind *)
Section witnesses.
Let d : OrderData := mkOrderData 1 2 None 5000 9500 1000 (zeros 32) 0 Sell false SellErc20 BuyErc20.
Let o : Order :=
  mkOrder (mkOrderMetadata 90 5 77 0 0 0 0 0 false PresignaturePending Limit 8 100 100 (Some [byte_of_Z 123; byte_of_Z 125])
             None None None)
    d PreSign (mkInteractions [mkInteractionData 21 0 []] [mkInteractionData 22 3 [byte_of_Z 1]]).
Let row : OrderRow := order_row o.

Lemma stored_order_reads_back_witness : exists db',
  store_order no_rows 100 o None = Ok db' /\ single_order db' 1000 77 = Ok (Some (as_stored o)) /\
  store_order db' 1000 o None = Err DuplicatedRecord.
Proof.
  destruct (store_order no_rows 100 o None) as [db'| |] eqn:Hs; [|vm_compute in Hs; discriminate..].
  exists db'. split; [reflexivity|].
  destruct (stored_order_reads_back no_rows db' 100 1000 o [byte_of_Z 123; byte_of_Z 125] None) as [Hr Hd].
  - exact Hs.
  - split; [split; closed..|exact I| | |split; vm_compute; reflexivity];
      (constructor; [split; closed|constructor]).
  - split; try constructor; reflexivity.
  - cbn. lia.
  - split; [exact Hr|]. apply Hd; [reflexivity|]. closed.
Defined.

Lemma solvable_orders_are_open_witness :
  full_order (set_orders no_rows {[77 := row]}) 77 row ∈ solvable_orders (set_orders no_rows {[77 := row]}) 1000.
Proof.
  destruct (solvable_orders_are_open (set_orders no_rows {[77 := row]}) 1000 77 row) as [_ H].
  - reflexivity.
  - split; [split; closed| | |].
    + split; [closed|]. split; [closed|reflexivity].
    + vm_compute. discriminate.
    + intros v Hv. discriminate Hv.
  - apply H. split; [right; vm_compute; reflexivity|reflexivity].
Defined.

Lemma order_events_alternate_witness :
  alternates (labels (foldl insert_order_event no_rows
    [mkOrderEvent 7 1 Created; mkOrderEvent 7 2 Ready; mkOrderEvent 8 2 Created; mkOrderEvent 7 3 Ready; mkOrderEvent 7 3 Traded]) 7).
Proof.
  apply (order_events_alternate
    [mkOrderEvent 7 1 Created; mkOrderEvent 7 2 Ready; mkOrderEvent 8 2 Created; mkOrderEvent 7 3 Ready; mkOrderEvent 7 3 Traded] 7).
  repeat constructor; cbn; lia.
Defined.
End witnesses.
