(* ===== verification/OrderBook.v ===== *)
(** The order book service: crates/orderbook/src/orderbook.rs, quoter.rs and
    app_data.rs with the queries of database/app_data.rs.

    A call runs over the tables of OrderStore.v and, for quotes and placements,
    the state of the validator and its quoter; the time of a call and the
    answer of IPFS are arguments. Metrics, the status of an order with its
    solutions and the pass-through queries of auctions are left out. *)
From Stdlib Require Import ZArith Lia String.
From stdpp Require Import prelude gmap numbers.
From S2P Require Import Prelude U256 Bytes Floats ModelOrder OrderQuoting OrderValidation OrderStore.

Open Scope Z_scope.
Open Scope rust_scope.
Import ModelSignature ModelOrder Database OrderStoring.

(** * app_data.rs *)
Module Registry.
Inductive InsertError : Type := Duplicate | Mismatch (existing : list byte) | InsertOther.
Inductive Registered : Type := New | AlreadyExisted.
Inductive RegisterError : Type :=
| RegisterInvalid
| HashMismatch (expected computed : list byte)
| DataMismatch (existing : list byte)
| RegisterOther.

(** database/app_data.rs *)
Definition get_full_app_data (db : Db) (contract_app_data : list byte) : res unit (option (list byte)) :=
  match fetch_app_data db contract_app_data with
  | Some full => if AppData.is_utf8 (map Z_of_byte full) then Ok (Some full) else Err tt
  | None => Ok None
  end.
Definition insert_full_app_data (contract_app_data full_app_data : list byte) : st Db InsertError unit := fun db =>
  match insert_app_data db contract_app_data full_app_data with
  | (db, Some existing) =>
      (db, if bool_decide (existing <> full_app_data) then
             if AppData.is_utf8 (map Z_of_byte existing) then Err (Mismatch existing) else Err InsertOther
           else Err Duplicate)
  | (db, None) => (db, Ok tt)
  end.

Section registry.
Context (keccak256 : list byte -> list byte) (parse_root : list byte -> option AppData.Root).
(** The registry is the limit of its validator and IPFS, where it is used. *)
Record Registry : Type := mkRegistry {
  size_limit : Z;
  ipfs : option (list byte -> res unit (option (list byte)));
}.
Definition register (self : Registry) (hash : option (list byte)) (document : list byte)
  : st Db RegisterError (Registered * list byte) :=
  let! validated := st_lift (map_err (fun _ => RegisterInvalid) (AppData.validate keccak256 parse_root (size_limit self) document)) in
  let computed := AppData.hash validated in
  let! _ :=
    st_lift (match hash with
             | Some expected => if bool_decide (expected <> computed) then Err (HashMismatch expected computed) else Ok tt
             | None => Ok tt
             end) in
  fun db =>
    match insert_full_app_data computed (AppData.document validated) db with
    | (db, Ok _) => (db, Ok (New, computed))
    | (db, Err Duplicate) => (db, Ok (AlreadyExisted, computed))
    | (db, Err (Mismatch existing)) => (db, Err (DataMismatch existing))
    | (db, Err InsertOther) => (db, Err RegisterOther)
    | (db, Panic) => (db, Panic)
    end.
(** The empty document, which the hash zero stands for. *)
Definition EMPTY : list byte := map byte_of_Z [123; 125].
Definition find (self : Registry) (db : Db) (contract_app_data : list byte) : res unit (option (list byte)) :=
  if bool_decide (contract_app_data = zeros 32) then Ok (Some EMPTY)
  else
    let* stored := get_full_app_data db contract_app_data in
    match stored with
    | Some app_data => Ok (Some app_data)
    | None => match ipfs self with Some fetch => fetch contract_app_data | None => Ok None end
    end.
End registry.
End Registry.

(** * quoter.rs, with the requests of crates/model/src/quote.rs *)
Module QuoteHandler.
Import QuoteModel OrderQuoting AppData OrderValidation.
Inductive PriceQuality : Type := Fast | Optimal | Verified.
Record OrderQuoteRequest : Type := mkOrderQuoteRequest {
  request_from : Z;
  request_sell_token : Z;
  request_buy_token : Z;
  request_receiver : option Z;
  request_side : OrderQuoteSide;
  request_validity : QuoteModel.Validity;
  request_app_data : OrderCreation.OrderCreationAppData;
  request_sell_token_balance : SellTokenSource;
  request_buy_token_balance : BuyTokenDestination;
  request_signing_scheme : QuoteSigningScheme;
  request_price_quality : PriceQuality;
}.
Record OrderQuote : Type := mkOrderQuote {
  quoted_sell_token : Z;
  quoted_buy_token : Z;
  quoted_receiver : option Z;
  response_sell_amount : Z;
  response_buy_amount : Z;
  quoted_valid_to : Z;
  quoted_app_data : OrderCreation.OrderCreationAppData;
  response_fee_amount : Z;
  quoted_kind : OrderKind;
  quoted_partially_fillable : bool;
  quoted_sell_token_balance : SellTokenSource;
  quoted_buy_token_balance : BuyTokenDestination;
  quoted_signing_scheme : SigningScheme;
}.
Record OrderQuoteResponse : Type := mkOrderQuoteResponse {
  quote : OrderQuote;
  response_from : Z;
  response_expiration : Z;
  response_id : option Z;
  response_verified : bool;
}.
Inductive OrderQuoteError : Type :=
| QuoteAppData (e : AppDataValidationError)
| QuoteOrder (e : PartialValidationError)
| CalculateQuote (e : CalculateQuoteError).
(** [From<&OrderQuoteRequest> for PreOrderData] of shared/src/order_quoting.rs *)
Definition pre_order_data (now : Z) (request : OrderQuoteRequest) : PreOrderData :=
  mkPreOrderData (request_from request) (request_sell_token request) (request_buy_token request)
    (default (request_from request) (request_receiver request)) (actual_valid_to now (request_validity request)) false
    (request_buy_token_balance request) (request_sell_token_balance request)
    (signing_scheme_of (request_signing_scheme request)) Market.

Section handler.
Context (keccak256 : list byte -> list byte) (parse_root : list byte -> option Root).
Context {C S : Type} `{Banned.TimedCache C} `{Quoting S}.
(** The fast quoter is asked for nothing but calculations. *)
Record QuoteHandler : Type := mkQuoteHandler {
  handler_validator : OrderValidator;
  fast_quoter : S -> QuoteParameters -> res CalculateQuoteError Quote;
  handler_app_data : Registry.Registry;
}.
Definition set_expiration (self : Quote) (expiration : Z) : Quote :=
  let d := OrderQuoting.data self in
  mkQuote (id self)
    (mkQuoteData (OrderQuoting.sell_token d) (OrderQuoting.buy_token d) (quoted_sell_amount d) (quoted_buy_amount d)
       (fee_parameters d) (OrderQuoting.kind d) expiration (quote_kind d) (quote_solver d) (quote_verified d))
    (OrderQuoting.sell_amount self) (OrderQuoting.buy_amount self) (OrderQuoting.fee_amount self).
Definition quote_parameters (request : OrderQuoteRequest) (app_data : OrderAppData) : QuoteParameters :=
  mkQuoteParameters (request_sell_token request) (request_buy_token request) (request_side request)
    (PriceEstimation.mkVerification (request_from request) (default (request_from request) (request_receiver request))
       (pre (app_data_interactions app_data)) (post (app_data_interactions app_data)) (request_sell_token_balance request)
       (request_buy_token_balance request))
    (request_signing_scheme request) (gas_limit (hooks (protocol (inner app_data)))).
(** A fast quote is not stored and expires at once. *)
Definition quote_by_quality (self : QuoteHandler) (quality : PriceQuality) (params : QuoteParameters)
  : st S CalculateQuoteError Quote := fun s =>
  match quality with
  | Optimal | Verified =>
      match quoting_calculate s params with
      | Ok quote => match quoting_store s quote with
                    | Ok (s, quote) => (s, Ok quote)
                    | Err _ => (s, Err CalculateOther)
                    | Panic => (s, Panic)
                    end
      | Err err => (s, Err err)
      | Panic => (s, Panic)
      end
  | Fast => (s, res_map (fun quote => set_expiration quote 0) (fast_quoter self s params))
  end.
Definition response (request : OrderQuoteRequest) (valid_to : Z) (quote : Quote) : OrderQuoteResponse :=
  mkOrderQuoteResponse
    (mkOrderQuote (request_sell_token request) (request_buy_token request) (request_receiver request)
       (OrderQuoting.sell_amount quote) (OrderQuoting.buy_amount quote) valid_to
       (match request_app_data request with
        | OrderCreation.Full full =>
            OrderCreation.Both full (OrderCreation.app_data_hash keccak256 (request_app_data request))
        | app_data => app_data
        end)
       (OrderQuoting.fee_amount quote) (OrderQuoting.kind (OrderQuoting.data quote)) false
       (request_sell_token_balance request) (request_buy_token_balance request)
       (signing_scheme_of (request_signing_scheme request)))
    (request_from request) (expiration (OrderQuoting.data quote)) (id quote) (quote_verified (OrderQuoting.data quote)).
Definition calculate_quote (self : QuoteHandler) (now : Z) (db : Db) (request : OrderQuoteRequest)
  : st (C * S) OrderQuoteError OrderQuoteResponse :=
  let full_app_data_override :=
    match request_app_data request with
    | OrderCreation.Hash hash =>
        match Registry.find (handler_app_data self) db hash with Ok found => found | _ => None end
    | _ => None
    end in
  let! app_data :=
    st_lift (map_err QuoteAppData
      (validate_app_data keccak256 parse_root (handler_validator self) (request_app_data request) full_app_data_override)) in
  let order := pre_order_data now request in
  let! _ := st_fst (st_map_err QuoteOrder (partial_validate (handler_validator self) now order)) in
  let! quote :=
    st_snd (st_map_err CalculateQuote
      (quote_by_quality self (request_price_quality request) (quote_parameters request app_data))) in
  st_lift (Ok (response request (pre_valid_to order) quote)).
End handler.
End QuoteHandler.

(** * orderbook.rs *)
Module Orderbook.
Import AppData OrderValidation.
Inductive OrderCancellationError : Type :=
| CancelInvalidSignature
| CancelWrongOwner
| CancelOrderNotFound
| AlreadyCancelled
| OrderFullyExecuted
| OrderExpired
| OnChainOrder
| CancelOther.
Inductive AddOrderError : Type :=
| OrderNotFound (e : OrderCancellationError)
| DuplicatedOrder
| OrderValidationError (e : ValidationError)
| DatabaseError
| InvalidAppData
| InvalidReplacement
| AppDataMismatchError (contract_app_data provided existing : list byte).
(** A mismatch only occurs when the full app data are set. *)
Definition from_insertion (err : InsertionError) (order : Order) : res AddOrderError unit :=
  match err with
  | DuplicatedRecord => Err DuplicatedOrder
  | DbError => Err DatabaseError
  | OrderStoring.AppDataMismatch existing =>
      match full_app_data (metadata order) with
      | Some provided => Err (AppDataMismatchError (app_data (data order)) provided existing)
      | None => Panic
      end
  end.
(** The result of a transaction, as a change of the tables. *)
Definition transaction (order : Order) (outcome : res InsertionError Db) : st Db AddOrderError unit := fun db =>
  match outcome with
  | Ok db => (db, Ok tt)
  | Err err => (db, from_insertion err order)
  | Panic => (db, Panic)
  end.

Section orderbook.
Context (keccak256 : list byte -> list byte) (parse_root : list byte -> option Root).
Context (ec_recover : list byte -> Z -> Z -> Z -> option Z).
Context {C S : Type} `{Banned.TimedCache C} `{OrderQuoting.Quoting S}.
Record Orderbook : Type := mkOrderbook {
  domain_separator : list byte;
  orderbook_settlement_contract : Z;
  order_validator : OrderValidator;
  registry : Registry.Registry;
}.
Definition find_order_for_cancellation (db : Db) (now order_uid : Z) : res OrderCancellationError Order :=
  let* found := map_err (fun _ => CancelOther) (single_order db now order_uid) in
  let* order := ok_or found CancelOrderNotFound in
  match status (metadata order) with
  | PresignaturePending => Err OnChainOrder
  | Open => if is_ecdsa_scheme (scheme (signature order)) then Ok order else Err OnChainOrder
  | Fulfilled => Err OrderFullyExecuted
  | Cancelled => Err AlreadyCancelled
  | Expired => Err OrderExpired
  end.
Definition cancel_orders (self : Orderbook) (now : Z) (cancellation : SignedOrderCancellations)
  : st Db OrderCancellationError unit := fun db =>
  match
    let* orders := rmap (find_order_for_cancellation db now) (order_uids cancellation) in
    let* signer :=
      map_err (fun _ => CancelInvalidSignature) (validate_cancellations keccak256 ec_recover cancellation (domain_separator self)) in
    if existsb (fun order => negb (signer =? owner (metadata order))) orders then Err CancelWrongOwner else Ok tt
  with
  | Ok _ => (OrderStoring.cancel_orders db (order_uids cancellation) now, Ok tt)
  | Err err => (db, Err err)
  | Panic => (db, Panic)
  end.
Definition cancel_order (self : Orderbook) (now : Z) (cancellation : OrderCancellation)
  : st Db OrderCancellationError unit := fun db =>
  match
    let* order := find_order_for_cancellation db now (cancelled_uid cancellation) in
    let* signer :=
      map_err (fun _ => CancelInvalidSignature) (validate_cancellation keccak256 ec_recover cancellation (domain_separator self)) in
    if negb (signer =? owner (metadata order)) then Err CancelWrongOwner else Ok (order_uid (metadata order))
  with
  | Ok uid => (OrderStoring.cancel_order db uid now, Ok tt)
  | Err err => (db, Err err)
  | Panic => (db, Panic)
  end.
(** No limit of the size: [usize::MAX]. *)
Definition get_replaced_order (db : Db) (now : Z) (new_order : OrderCreation.OrderCreation)
    (app_data_override : option (list byte)) : res AddOrderError (option Order) :=
  let full_app_data :=
    match OrderCreation.app_data new_order with
    | OrderCreation.Hash _ => app_data_override
    | OrderCreation.Both full _ | OrderCreation.Full full => Some full
    end in
  match full_app_data with
  | Some full_app_data =>
      let* validated := map_err (fun _ => InvalidAppData) (validate keccak256 parse_root (2 ^ 64 - 1) full_app_data) in
      match replaced_order (protocol validated) with
      | Some uid => map_err OrderNotFound (res_map Some (find_order_for_cancellation db now uid))
      | None => Ok None
      end
  | None => Ok None
  end.
Definition replace_order (now : Z) (validated_new_order old_order : Order) (quote : option OrderQuoting.Quote)
  : st Db AddOrderError (Z * option Z) :=
  let! _ := st_lift (ok_or (try_to_ecdsa_scheme (scheme (signature validated_new_order))) InvalidReplacement) in
  let! _ :=
    st_lift (if owner (metadata validated_new_order) =? owner (metadata old_order) then Ok tt else Err InvalidReplacement) in
  let! _ := fun db =>
    transaction validated_new_order
      (OrderStoring.replace_order db now (order_uid (metadata old_order)) validated_new_order quote) db in
  st_lift (Ok (order_uid (metadata validated_new_order), quote ≫= OrderQuoting.id)).
Definition insert_new_order (now : Z) (order : Order) (quote : option OrderQuoting.Quote)
  : st Db AddOrderError (Z * option Z) :=
  let! _ := fun db => transaction order (store_order db now order quote) db in
  st_lift (Ok (order_uid (metadata order), quote ≫= OrderQuoting.id)).
Definition add_order (self : Orderbook) (now : Z) (payload : OrderCreation.OrderCreation)
  : st (Db * (C * S)) AddOrderError (Z * option Z) :=
  let! full_app_data_override := fun s =>
    (s, match OrderCreation.app_data payload with
        | OrderCreation.Hash hash => map_err (fun _ => DatabaseError) (Registry.find (registry self) s.1 hash)
        | _ => Ok None
        end) in
  let! replaced_order := fun s => (s, get_replaced_order s.1 now payload full_app_data_override) in
  let! ' (order, quote) :=
    st_snd (st_map_err OrderValidationError
      (validate_and_construct_order keccak256 parse_root ec_recover (order_validator self) now payload
         (domain_separator self) (orderbook_settlement_contract self) full_app_data_override)) in
  st_fst match replaced_order with
         | Some old_order => replace_order now order old_order quote
         | None => insert_new_order now order quote
         end.
Definition get_order (db : Db) (now uid : Z) : res unit (option Order) := single_order db now uid.
Definition get_user_orders (db : Db) (now owner offset limit : Z) : res unit (list Order) :=
  OrderStoring.user_orders db now owner offset (Some limit).

(** ** The calls that change the tables, and what other services do to them *)
Inductive call : Type :=
| AddOrder (payload : OrderCreation.OrderCreation)
| CancelOrder (cancellation : OrderCancellation)
| CancelOrders (cancellation : SignedOrderCancellations).
Definition run (self : Orderbook) (now : Z) (c : call) (s : Db * (C * S)) : Db * (C * S) :=
  match c with
  | AddOrder payload => (add_order self now payload s).1
  | CancelOrder cancellation => ((cancel_order self now cancellation s.1).1, s.2)
  | CancelOrders cancellation => ((cancel_orders self now cancellation s.1).1, s.2)
  end.
(** Other services add orders, trades and logs, but neither change nor remove
    an order; quotes and the cache change at any time. *)
Inductive step (self : Orderbook) : option call -> Db * (C * S) -> Db * (C * S) -> Prop :=
| api now c s : step self (Some c) s (run self now c s)
| other s db' cs' : orders s.1 ⊆ orders db' -> step self None s (db', cs').
Inductive steps (self : Orderbook) : list call -> Db * (C * S) -> Db * (C * S) -> Prop :=
| steps_nil s : steps self [] s s
| steps_cons c s s' l s'' : step self c s s' -> steps self l s' s'' -> steps self (option_list c ++ l) s s''.
End orderbook.
End Orderbook.

(** * Lemmas *)
Import AppData OrderValidation Orderbook.

Lemma into_model_order_metadata order status fee o : into_model_order order status fee = Ok o ->
  owner (metadata o) = row_owner (full_row order) /\ order_uid (metadata o) = full_uid order /\
  ModelOrder.status (metadata o) = status.
Proof.
  intros H. unfold into_model_order in H.
  repeat (apply rbind_Ok in H as (? & _ & H)). by injection H as <-.
Qed.

Lemma single_order_Ok db now uid o : single_order db now uid = Ok (Some o) ->
  exists row, orders db !! uid = Some row /\ owner (metadata o) = row_owner row /\ order_uid (metadata o) = uid /\
    status (metadata o) = calculate_status now (full_order db uid row).
Proof.
  unfold single_order, single_full_order. destruct (orders db !! uid) as [row|] eqn:Hrow; [|done].
  cbn [fmap option_fmap option_map]. intros (o' & Ho & Heq)%res_map_Ok. injection Heq as ->. exists row.
  unfold full_order_into_model_order in Ho. by apply into_model_order_metadata in Ho as (H1 & H2 & H3).
Qed.

Lemma find_order_Ok db now uid o : find_order_for_cancellation db now uid = Ok o ->
  exists row, orders db !! uid = Some row /\ owner (metadata o) = row_owner row /\ order_uid (metadata o) = uid /\
    cancellation_timestamp row = None.
Proof.
  intros H. unfold find_order_for_cancellation in H. apply rbind_Ok in H as (found & Hf & H). apply map_err_Ok in Hf.
  apply rbind_Ok in H as (order & Ho & H). apply ok_or_Ok in Ho as ->.
  apply single_order_Ok in Hf as (row & Hrow & H1 & H2 & H3).
  destruct (status (metadata order)) eqn:Hs; try done. case_match; [|done]. injection H as <-. exists row. split_and!; try done.
  unfold calculate_status in H3. destruct (match row_kind _ with Buy => _ | Sell => _ end); [done|].
  cbn [full_order full_invalidated] in H3.
  destruct (bool_decide_reflect (cancellation_timestamp row <> None)) as [Hc|Hc]; [done|]. by apply dec_stable.
Qed.

Lemma set_cancelled_again row t : cancellation_timestamp row <> None -> set_cancelled row t = row.
Proof. intros H. unfold set_cancelled. destruct row as [? ? ? ? ? ? ? ? ? ? ? ? ? ? ? ? ? ? [c|] ?]; done. Qed.

Section safety.
Context (keccak256 : list byte -> list byte) (parse_root : list byte -> option Root).
Context (ec_recover : list byte -> Z -> Z -> Z -> option Z).
Context {C S : Type} `{Banned.TimedCache C} `{OrderQuoting.QuotingLaws S}.
Implicit Types (self : Orderbook) (db : Db).

(** The owner agreed by this call to the end of the order. *)
Definition authorised self (c : call) (uid owner : Z) : Prop :=
  match c with
  | CancelOrder cancellation =>
      cancelled_uid cancellation = uid /\
      validate_cancellation keccak256 ec_recover cancellation (domain_separator self) = Ok owner
  | CancelOrders cancellation =>
      uid ∈ order_uids cancellation /\
      validate_cancellations keccak256 ec_recover cancellation (domain_separator self) = Ok owner
  | AddOrder payload =>
      (exists recovered, recover keccak256 ec_recover (OrderCreation.signature payload) (domain_separator self)
         (hash_struct keccak256 (OrderCreation.data keccak256 payload)) = Ok (Some recovered) /\ signer recovered = owner) /\
      exists size full v, validate keccak256 parse_root size full = Ok v /\ replaced_order (protocol v) = Some uid
  end.
(** What becomes of the orders: they stay, or are cancelled by a call. *)
Definition evolves self (calls : list call) (t t' : gmap Z OrderRow) : Prop :=
  forall uid row, t !! uid = Some row ->
  t' !! uid = Some row \/
  (cancellation_timestamp row = None /\ (exists at_, t' !! uid = Some (set_cancelled row at_)) /\
   exists c, c ∈ calls /\ authorised self c uid (row_owner row)).

Lemma evolves_same self calls t t' : t ⊆ t' -> evolves self calls t t'.
Proof. intros Hs uid row Hr. left. by eapply lookup_weaken. Qed.

Lemma evolves_trans self l l' t t' t'' : evolves self l t t' -> evolves self l' t' t'' -> evolves self (l ++ l') t t''.
Proof.
  intros H1' H2' uid row Hr. destruct (H1' uid row Hr) as [Hr'|(Hc & [at_ Hr'] & c & Hin & Ha)].
  - destruct (H2' uid row Hr') as [|(Hc & Hat & c & Hin & Ha)]; [by left|]. right. split; [done|]. split; [done|].
    exists c. split; [|done]. apply elem_of_app. by right.
  - destruct (H2' uid _ Hr') as [Hr''|(Hc' & _)].
    + right. split; [done|]. split; [by exists at_|]. exists c. split; [|done]. apply elem_of_app. by left.
    + cbn in Hc'. by destruct (cancellation_timestamp row).
Qed.

Lemma orders_cancel_order db uid now : orders (OrderStoring.cancel_order db uid now) =
  alter (fun row => set_cancelled row now) uid (orders db).
Proof.
  unfold OrderStoring.cancel_order, Database.cancel_order. cbn [orders set_orders].
  by destruct (insert_order_event_tables db (mkOrderEvent uid now EventCancelled)) as [-> _].
Qed.

Lemma evolves_alter self c db uid now row : orders db !! uid = Some row -> authorised self c uid (row_owner row) ->
  evolves self [c] (orders db) (alter (fun row => set_cancelled row now) uid (orders db)).
Proof.
  intros Hrow Ha uid' row' Hr'. destruct (decide (uid' = uid)) as [->|Hne].
  - rewrite Hrow in Hr'. injection Hr' as <-. rewrite lookup_alter_eq, Hrow. cbn.
    destruct (cancellation_timestamp row) eqn:Hc.
    + left. rewrite set_cancelled_again; [done|]. by rewrite Hc.
    + right. split; [done|]. split; [by exists now|]. exists c. split; [by left|done].
  - left. by rewrite lookup_alter_ne.
Qed.

Lemma evolves_mono self l l' t t' : (forall c, c ∈ l -> c ∈ l') -> evolves self l t t' -> evolves self l' t t'.
Proof.
  intros Hl He uid row Hr. destruct (He uid row Hr) as [|(Hc & Hat & c & Hin & Ha)]; [by left|]. right.
  split; [done|]. split; [done|]. exists c. auto.
Qed.

Lemma evolves_cancel_orders self c uids now db :
  (forall uid row, uid ∈ uids -> orders db !! uid = Some row -> authorised self c uid (row_owner row)) ->
  evolves self [c] (orders db) (orders (OrderStoring.cancel_orders db uids now)).
Proof.
  unfold OrderStoring.cancel_orders. revert db. induction uids as [|uid uids IH]; intros db Ha; cbn [foldl].
  { by apply evolves_same. }
  apply (evolves_mono self ([c] ++ [c])); [set_solver|]. eapply evolves_trans; [|apply IH].
  - rewrite orders_cancel_order. destruct (orders db !! uid) as [row|] eqn:Hrow.
    + apply (evolves_alter self c db uid now row Hrow). apply Ha; [by left|done].
    + intros uid' row' Hr'. left. rewrite lookup_alter_ne; [done|congruence].
  - intros uid' row Hin. rewrite orders_cancel_order, lookup_alter. case_decide as Hd.
    + subst uid'. destruct (orders db !! uid) as [row'|] eqn:Hrow; [|done]. cbn. intros [= <-]. cbn.
      apply Ha; [by right|done].
    + intros Hr. apply Ha; [by right|done].
Qed.

Lemma rmap_In {E A B} (f : A -> res E B) l bs a : rmap f l = Ok bs -> a ∈ l -> exists b, f a = Ok b /\ b ∈ bs.
Proof.
  revert bs. induction l as [|x l IH]; intros bs Hl Ha; [by apply elem_of_nil in Ha|]. cbn in Hl.
  apply rbind_Ok in Hl as (b & Hb & Hl). apply rbind_Ok in Hl as (bs' & Hbs & Hl). injection Hl as <-.
  apply elem_of_cons in Ha as [->|Ha]; [exists b; split; [done|left]|].
  destruct (IH bs' Hbs Ha) as (b' & Hb' & Hin). exists b'. split; [done|by right].
Qed.

Lemma evolves_insert self calls db o db' : inserted db o db' -> evolves self calls (orders db) (orders db').
Proof.
  intros Hi. apply evolves_same. rewrite (inserted_orders _ _ _ Hi). apply insert_subseteq, (inserted_new _ _ _ Hi).
Qed.

(** A signature with a key recovers its signer. *)
Lemma ecdsa_recovers sig domain h recovered : try_to_ecdsa_scheme (scheme sig) <> None ->
  recover keccak256 ec_recover sig domain h = Ok recovered -> exists r, recovered = Some r.
Proof. destruct sig; cbn; try done; intros _ (r & _ & <-)%res_map_Ok; by exists r. Qed.

Lemma add_order_evolves self now payload s :
  evolves self [AddOrder payload] (orders s.1)
    (orders (add_order keccak256 parse_root ec_recover self now payload s).1.1).
Proof.
  unfold add_order. unfold st_bind at 1. destruct (match OrderCreation.app_data payload with OrderCreation.Hash _ => _ | _ => _ end)
    as [override| |]; [|by apply evolves_same..].
  unfold st_bind at 1. destruct (get_replaced_order _ _ s.1 now payload override) as [replaced| |] eqn:Hrep; [|by apply evolves_same..].
  unfold st_bind at 1. unfold st_snd at 1, st_map_err.
  destruct (validate_and_construct_order _ _ _ _ _ _ _ _ _ s.2) as [cs [[o quote]| |]] eqn:Hv; cbn [map_err];
    [|by apply evolves_same..].
  apply accepted_admitted in Hv; [|done]. unfold st_fst. cbn [fst snd].
  destruct replaced as [old|].
  - unfold replace_order, st_bind, st_lift.
    destruct (try_to_ecdsa_scheme (scheme (signature o))) eqn:Hecdsa; cbn [ok_or]; [|by apply evolves_same].
    destruct (Z.eqb_spec (owner (metadata o)) (owner (metadata old))) as [Hown|]; [|by apply evolves_same].
    unfold transaction. destruct (OrderStoring.replace_order _ _ _ _ _) as [db'| |] eqn:Hr; cbn [fst];
      [|destruct (from_insertion _ _); by apply evolves_same|by apply evolves_same].
    unfold get_replaced_order in Hrep. destruct (match OrderCreation.app_data payload with OrderCreation.Hash _ => _ | _ => _ end)
      as [full|]; [|done]. apply rbind_Ok in Hrep as (val & Hval & Hrep). apply map_err_Ok in Hval.
    destruct (replaced_order (protocol val)) as [uid|] eqn:Huid; [|done]. apply map_err_Ok, res_map_Ok in Hrep as (old' & Hold & [= ->]).
    apply find_order_Ok in Hold as (row & Hrow & Ho & Hu & _). rewrite Hu in Hr.
    unfold OrderStoring.replace_order in Hr. apply insert_all_Ok in Hr.
    apply (evolves_mono self ([AddOrder payload] ++ [])); [set_solver|]. eapply evolves_trans; [|by eapply evolves_insert].
    apply (evolves_alter self _ _ _ _ row Hrow). split.
    + destruct (placed_owner _ _ _ _ _ _ _ _ Hv) as (sig & recovered & Hrec & Hall).
      rewrite (placed_data _ _ _ _ _ _ _ _ Hv) in Hrec. pose proof Hrec as Hrec'.
      apply ecdsa_recovers in Hrec' as [r ->]; [|rewrite <- (placed_signature _ _ _ _ _ _ _ _ Hv); congruence].
      exists r. split; [done|]. unfold claims in Hall. rewrite !Forall_app in Hall. destruct Hall as (_ & _ & Hall).
      apply Forall_cons_iff in Hall as [Hall _]. congruence.
    + by exists (2 ^ 64 - 1), full, val.
  - unfold insert_new_order, st_bind, st_lift, transaction. destruct (store_order _ _ _ _) as [db'| |] eqn:Hs; cbn [fst];
      [|destruct (from_insertion _ _); by apply evolves_same|by apply evolves_same].
    apply insert_all_Ok in Hs. by eapply evolves_insert.
Qed.

Lemma run_evolves self now c s : evolves self [c] (orders s.1) (orders (run keccak256 parse_root ec_recover self now c s).1).
Proof.
  destruct c as [payload|cancellation|cancellation]; [apply add_order_evolves|..]; cbn [run fst].
  - unfold cancel_order. destruct (rbind _ _) as [uid| |] eqn:Hr; [|by apply evolves_same..]. cbn [fst].
    apply rbind_Ok in Hr as (o & Ho & Hr). apply rbind_Ok in Hr as (sig & Hsig & Hr). apply map_err_Ok in Hsig.
    destruct (Z.eqb_spec sig (owner (metadata o))) as [->|]; [|done]. injection Hr as <-.
    apply find_order_Ok in Ho as (row & Hrow & Hown & Hu & _). rewrite orders_cancel_order, Hu.
    apply (evolves_alter self _ _ _ _ row Hrow). split; [done|congruence].
  - unfold cancel_orders. destruct (rbind _ _) as [[]| |] eqn:Hr; [|by apply evolves_same..]. cbn [fst].
    apply rbind_Ok in Hr as (os & Hos & Hr). apply rbind_Ok in Hr as (sig & Hsig & Hr). apply map_err_Ok in Hsig.
    destruct (existsb _ os) eqn:Hex; [done|]. apply evolves_cancel_orders. intros uid row Hin Hrow.
    destruct (rmap_In _ _ _ uid Hos Hin) as (o & Ho & Hino). apply find_order_Ok in Ho as (row' & Hrow' & Hown & _).
    split; [done|]. rewrite Hrow in Hrow'. injection Hrow' as <-. rewrite <- Hown.
    apply not_true_iff_false in Hex. rewrite existsb_exists in Hex.
    destruct (Z.eqb_spec sig (owner (metadata o))) as [<-|Hne]; [done|]. exfalso. apply Hex. exists o.
    split; [by apply list_elem_of_In|]. by rewrite (proj2 (Z.eqb_neq _ _) Hne).
Qed.
End safety.

(** * Properties of the registry *)
Section registered.
Context (keccak256 : list byte -> list byte) (parse_root : list byte -> option Root).

Lemma insert_full_app_data_spec db hash full db' r : Registry.insert_full_app_data hash full db = (db', r) ->
  app_data_rows db ⊆ app_data_rows db' /\
  match r with
  | Ok _ => app_data_rows db !! hash = None /\ app_data_rows db' !! hash = Some full
  | Err Registry.Duplicate => db' = db /\ app_data_rows db !! hash = Some full
  | _ => db' = db
  end.
Proof.
  unfold Registry.insert_full_app_data, insert_app_data. destruct (app_data_rows db !! hash) as [existing|] eqn:He.
  - intros [= <- <-]. split; [done|]. case_bool_decide as Hd.
    + by destruct (AppData.is_utf8 _).
    + by subst.
  - intros [= <- <-]. cbn. rewrite lookup_insert_eq. by split; [apply insert_subseteq|].
Qed.

Lemma validate_Ok size_limit full v : validate keccak256 parse_root size_limit full = Ok v ->
  AppData.hash v = OrderCreation.hash_full_app_data keccak256 full /\ AppData.document v = full /\
  is_utf8 (map Z_of_byte full) = true /\ Z.of_nat (length full) <= size_limit.
Proof.
  unfold validate. destruct (Z.ltb_spec size_limit (Z.of_nat (length full))); [done|].
  destruct (is_utf8 _); [|done]. cbn [negb]. intros (root & _ & [= <-])%rbind_Ok. done.
Qed.

(** A document that was registered is found under its hash for good: the
    hash that is answered is the one of the document, and the one the client
    gave if it gave one; the document is found by it at once, and as long as
    documents are only added; what was registered before is still there. The
    hash zero alone always stands for the empty document. *)
Theorem registered_documents_are_found (self : Registry.Registry) (given : option (list byte)) (full h : list byte)
    (db db' later : Db) (r : Registry.Registered) :
  Registry.register keccak256 parse_root self given full db = (db', Ok (r, h)) ->
  app_data_rows db' ⊆ app_data_rows later ->
  h = OrderCreation.hash_full_app_data keccak256 full /\ default h given = h /\
  Registry.find self later h = Ok (Some (if bool_decide (h = zeros 32) then Registry.EMPTY else full)) /\
  app_data_rows db ⊆ app_data_rows db' /\
  (r = Registry.AlreadyExisted <-> app_data_rows db !! h = Some full).
Proof.
  intros H Hl. unfold Registry.register in H.
  apply st_bind_Ok in H as (db1 & v & [-> Hv]%st_lift_Ok & H). apply map_err_Ok, validate_Ok in Hv as (Hh & Hd & Hu & _).
  apply st_bind_Ok in H as (db2 & [] & [-> Hg]%st_lift_Ok & H). rewrite Hd in H.
  destruct (Registry.insert_full_app_data _ _ _) as [db3 r3] eqn:Hi. apply insert_full_app_data_spec in Hi as [Hsub Hr].
  assert (Hcase : h = AppData.hash v /\ db3 = db' /\ app_data_rows db' !! h = Some full /\
    (r = Registry.AlreadyExisted <-> app_data_rows db !! h = Some full)).
  { destruct r3 as [[]|[]|]; injection H as <- <- <- || discriminate H; (split; [done|split; [done|]]).
    - destruct Hr as [Hn Hs]. split; [done|]. rewrite Hn. by split.
    - destruct Hr as [-> Hs]. by split. }
  destruct Hcase as (-> & <- & Hrow & Hiff). split; [done|]. split.
  { destruct given as [expected|]; [|done]. by case_bool_decide. }
  split; [|done]. unfold Registry.find. case_bool_decide; [done|]. unfold Registry.get_full_app_data, fetch_app_data.
  rewrite (lookup_weaken _ _ _ _ Hrow Hl), Hu. done.
Qed.
End registered.

(** * A quote is kept for the order it was asked for *)
Section kept.
Import QuoteModel PriceEstimation OrderQuoting QuoteHandler.
Context (keccak256 : list byte -> list byte) (parse_root : list byte -> option Root).
Context (from_f64_lossy : F64.f64 -> Z) (quoter : OrderQuoter).
Context {C S : Type} `{Banned.TimedCache C} `{QuoteStoringLaws S}.

(** The search for the quote of an order over what the response says. *)
Definition placing (request : OrderQuoteRequest) (response : OrderQuoteResponse) (app_data : OrderAppData)
    (verification : Verification) : QuoteSearchParameters :=
  let q := quote response in
  mkQuoteSearchParameters (quoted_sell_token q) (quoted_buy_token q) (response_sell_amount q) (response_buy_amount q)
    (response_fee_amount q) (quoted_kind q) (request_signing_scheme request)
    (gas_limit (hooks (protocol (inner app_data)))) verification.

Lemma calculated_kind now parameters q : OrderQuoting.calculate_quote from_f64_lossy quoter now parameters = Ok q ->
  OrderQuoting.kind (OrderQuoting.data q) = query_kind (to_price_query parameters).
Proof. intros (Hd & _)%calculate_quote_Ok. by apply compute_quote_data_Ok in Hd as (_ & _ & _ & _ & _ & _ & ? & _). Qed.

Lemma placing_searches now request app_data verification valid_to q :
  OrderQuoting.calculate_quote from_f64_lossy quoter now (quote_parameters request app_data) = Ok q ->
  search_for_quote (placing request (response keccak256 request valid_to q) app_data verification)
    (quote_parameters request app_data) q.
Proof. intros Hq%calculated_kind. by split. Qed.

Lemma kept_quote (self : QuoteHandler) now quality request app_data valid_to (s s' : S) q :
  sized from_f64_lossy quoter (quote_parameters request app_data) -> quality <> Fast ->
  quote_by_quality (H0 := order_quoter_quoting from_f64_lossy quoter now S) self quality (quote_parameters request app_data) s
    = (s', Ok q) ->
  let r := response keccak256 request valid_to q in
  (forall now' verification, now' <= response_expiration r ->
     exists found, find_quote from_f64_lossy s' now' (response_id r) (placing request r app_data verification) = Ok found /\
       OrderQuoting.sell_amount found = response_sell_amount (quote r) /\
       OrderQuoting.buy_amount found = response_buy_amount (quote r) /\
       OrderQuoting.fee_amount found = response_fee_amount (quote r)) /\
  forall amount, request_side request = SideSell (BeforeFee amount) ->
    response_sell_amount (quote r) + response_fee_amount (quote r) = amount.
Proof.
  intros Hsz Hf Hq r. unfold quote_by_quality in Hq. cbn [quoting_calculate quoting_store order_quoter_quoting] in Hq.
  assert (Hst : exists q0, OrderQuoting.calculate_quote from_f64_lossy quoter now (quote_parameters request app_data) = Ok q0 /\
    store_quote s q0 = Ok (s', q)).
  { destruct quality; [done|..];
      (destruct (OrderQuoting.calculate_quote _ _ _ _) as [q0| |]; [|discriminate Hq..]);
      destruct (store_quote s q0) as [[s1 q1]| |] eqn:Hs; try discriminate Hq; injection Hq as -> ->; by exists q0. }
  destruct Hst as (q0 & Hq0 & Hst). pose proof Hst as Hst'. unfold store_quote in Hst'.
  apply rbind_Ok in Hst' as ([s1 i] & _ & Hst'). injection Hst' as _ <-. subst r. split.
  - intros now' verification Hexp.
    destruct (stored_quote_found from_f64_lossy quoter s s' now now' _ q0 _
      (placing request (response keccak256 request valid_to q0) app_data verification) Hsz Hq0 Hst) as [(found & Hfound & _ & _ & Ha) _].
    + by eapply placing_searches.
    + done.
    + done.
    + by exists found.
  - intros amount Hs. apply calculate_quote_Ok in Hq0 as (_ & Hfee & Hside). cbn [side quote_parameters] in Hside.
    rewrite Hs in Hside. cbn. lia.
Qed.

(** C29: a quote that is answered is kept for its order: the request passed the
    rules and its app data are valid, the response names the tokens of the
    request, and unless the quote was a fast one, which is not kept and has
    expired already, its identifier finds until the expiration that is
    answered a quote with just the answered amounts and fee for an order over
    these amounts; of an amount before fees nothing is lost. *)
Theorem answered_quotes_are_kept (self : QuoteHandler) (now : Z) (db : Db) (request : OrderQuoteRequest)
    (c c' : C) (s s' : S) (r : OrderQuoteResponse) :
  (forall app_data, sized from_f64_lossy quoter (quote_parameters request app_data)) ->
  calculate_quote (H0 := order_quoter_quoting from_f64_lossy quoter now S) keccak256 parse_root self now db request (c, s)
    = ((c', s'), Ok r) ->
  partial_rules (handler_validator self) now (pre_order_data now request) = Ok tt /\
  quoted_sell_token (quote r) = request_sell_token request /\ quoted_buy_token (quote r) = request_buy_token request /\
  match request_price_quality request with
  | Fast => s' = s /\ response_expiration r = 0
  | Optimal | Verified =>
      exists app_data, (exists override,
        validate_app_data keccak256 parse_root (handler_validator self) (request_app_data request) override = Ok app_data) /\
      (forall now' verification, now' <= response_expiration r ->
         exists found, find_quote from_f64_lossy s' now' (response_id r) (placing request r app_data verification) = Ok found /\
           OrderQuoting.sell_amount found = response_sell_amount (quote r) /\
           OrderQuoting.buy_amount found = response_buy_amount (quote r) /\
           OrderQuoting.fee_amount found = response_fee_amount (quote r)) /\
      forall amount, request_side request = SideSell (BeforeFee amount) ->
        response_sell_amount (quote r) + response_fee_amount (quote r) = amount
  end.
Proof.
  intros Hsz Hc. unfold calculate_quote in Hc.
  apply st_bind_Ok in Hc as (s1 & app_data & [-> Ha]%st_lift_Ok & Hc). apply map_err_Ok in Ha.
  apply st_bind_Ok in Hc as (s2 & [] & [Hp Hs2]%st_fst_Ok & Hc). cbn in Hs2. rewrite st_map_err_Ok in Hp.
  apply partial_validate_Ok in Hp as (_ & _ & Hp%partial_rules_Ok). split; [done|].
  apply st_bind_Ok in Hc as (s3 & q & [Hq Hs3]%st_snd_Ok & [Hs' Hr]%st_lift_Ok). rewrite st_map_err_Ok, Hs2 in Hq.
  subst s3. injection Hr as <-. split; [done|]. split; [done|].
  destruct (request_price_quality request) eqn:Hk.
  { unfold quote_by_quality in Hq. injection Hq as -> Hq. by apply res_map_Ok in Hq as (q' & _ & <-). }
  all: exists app_data; split; [by eexists|]; by refine (kept_quote _ _ _ _ _ _ _ _ _ (Hsz app_data) _ Hq).
Qed.
End kept.

(** * Cancellations *)


(** * The address 9 signs everything *)
Section witnesses.
Import QuoteModel Fee PriceEstimation OrderQuoting QuoteStore QuoteHandler ModelOrder.

Local Instance forgetful : Banned.TimedCache unit := {|
  Banned.cache_get c now a := (c, None);
  Banned.cache_set c now a b := c
|}.
Let quoter : OrderQuoter :=
  mkOrderQuoter (fun _ => Ok (mkEstimate 9000 100 7 true)) (fun _ => Ok (F64.of_Z 1)) (Ok (F64.of_Z 10))
    (mkQuoteValidity 600 600 60) (fun _ => Ok 10) Unverified.
Local Instance quoting : Quoting QuoteStore.Postgres :=
  order_quoter_quoting F64.as_u64 quoter 100 QuoteStore.Postgres.
Local Instance quoting_laws : QuotingLaws QuoteStore.Postgres := order_quoter_laws F64.as_u64 quoter 100.
Let validator : OrderValidator :=
  mkOrderValidator 3 (Banned.mkUsers {[4]} None) (mkOrderValidPeriodConfiguration 60 1000 2000) false (fun _ => Ok Good)
    9 (fun _ => []) (fun _ _ => Err TransferInsufficientBalance) (fun _ => Err SignatureOther) (fun _ => Ok 0) 1 8192 5000.
Let keccak256 (l : list byte) : list byte := zeros 31 ++ [byte_of_Z (Z.of_nat (length l) mod 256)].
Let parse_root (l : list byte) : option Root := Some (mkRoot None None).
Let ec_recover (l : list byte) (v r s : Z) : option Z := Some 9.
Let registry : Registry.Registry := Registry.mkRegistry 8192 None.
Let self : Orderbook := mkOrderbook [] 8 validator registry.

Let d : OrderData := mkOrderData 1 2 None 5000 9500 1000 (zeros 32) 0 Sell false SellErc20 BuyErc20.
Let o (owner : Z) (uid : Z) : Order :=
  mkOrder (mkOrderMetadata 90 owner uid 0 0 0 0 0 false Open Limit 8 100 100 (Some [byte_of_Z 123; byte_of_Z 125])
             None None None)
    d (Eip712 (mkEcdsa 1 2 27)) (mkInteractions [] []).
(** The orders 77 of the address 9 and 78 of the address 5, which 9 tries to cancel. *)
Let db : Db := set_orders no_rows {[77 := order_row (o 9 77); 78 := order_row (o 5 78)]}.
Let s : Db * (unit * QuoteStore.Postgres) := (db, (tt, QuoteStore.mkPostgres 0 ∅)).
Let cancel uid : call := CancelOrder (mkOrderCancellation uid (mkEcdsa 1 2 27) EEip712).
Let s1 := run keccak256 parse_root ec_recover self 100 (cancel 77) s.
Let s2 := run keccak256 parse_root ec_recover self 101 (cancel 78) s1.


Lemma registered_documents_are_found_witness :
  let full := [byte_of_Z 123; byte_of_Z 125] in
  let '(db', r) := Registry.register keccak256 parse_root registry None full db in
  exists h, r = Ok (Registry.New, h) /\ Registry.find registry db' h = Ok (Some full).
Proof.
  intros full. destruct (Registry.register keccak256 parse_root registry None full db) as [db' r] eqn:Hr.
  destruct r as [[r h]| |]; [|vm_compute in Hr; discriminate..].
  destruct (registered_documents_are_found keccak256 parse_root registry None full h db db' db' r Hr ltac:(reflexivity))
    as (-> & _ & Hf & _ & Hn).
  exists (OrderCreation.hash_full_app_data keccak256 full). split.
  - destruct r; [reflexivity|]. exfalso. destruct Hn as [Hn _]. specialize (Hn eq_refl). vm_compute in Hn. discriminate.
  - rewrite Hf. vm_compute. reflexivity.
Defined.

(** A request for 5000 atoms before fees, of which the fee takes 1000 *)
Let request : OrderQuoteRequest :=
  mkOrderQuoteRequest 5 1 2 None (SideSell (BeforeFee 5000)) (QuoteModel.For 500) (OrderCreation.Full [byte_of_Z 123; byte_of_Z 125])
    SellErc20 BuyErc20 QEip712 Optimal.
Let handler : QuoteHandler :=
  mkQuoteHandler validator (fun (_ : QuoteStore.Postgres) _ => Err CalculateOther) registry.

Lemma answered_quotes_are_kept_witness : exists c' s' r,
  calculate_quote keccak256 parse_root handler 100 db request (tt, QuoteStore.mkPostgres 0 ∅) = ((c', s'), Ok r) /\
  response_sell_amount (quote r) + response_fee_amount (quote r) = 5000.
Proof.
  destruct (calculate_quote keccak256 parse_root handler 100 db request (tt, QuoteStore.mkPostgres 0 ∅)) as [[c' s'] r] eqn:Hr.
  destruct r as [r| |]; [|vm_compute in Hr; discriminate..]. exists c', s', r. split; [reflexivity|].
  destruct (answered_quotes_are_kept keccak256 parse_root F64.as_u64 quoter handler 100 db request tt c'
    (QuoteStore.mkPostgres 0 ∅) s' r) as (_ & _ & _ & app_data & _ & _ & Ha).
  - intros app_data. split; [split; closed| |apply as_u64_u256]. intros q e H. injection H as <-. split; closed.
  - exact Hr.
  - apply Ha. reflexivity.
Defined.
End witnesses.
