(* ===== verification/SettlementEncoder.v ===== *)
(** Settlements as solvers build them: crates/solver/src/settlement.rs and
    settlement/settlement_encoder.rs, with the encoding of trades in
    crates/shared/src/encoded_settlement.rs.

    A [dyn Interaction] is only ever encoded: it is its encoding. The binding
    that encodes a withdrawal of wrapped ether is a parameter. *)
From Stdlib Require Import ZArith Lia Sorting.Sorted.
From stdpp Require Import prelude gmap numbers sorting.
From S2P Require Import Prelude U256 Bytes ModelOrder RemainingAmounts.

Open Scope Z_scope.
Open Scope rust_scope.
Import ModelSignature ModelOrder.

(** * crates/shared/src/encoded_settlement.rs, interaction.rs *)
Module EncodedSettlement.
Record EncodedTrade : Type := mkEncodedTrade {
  sell_token_index : Z;
  buy_token_index : Z;
  trade_receiver : Z;
  trade_sell_amount : Z;
  trade_buy_amount : Z;
  trade_valid_to : Z;
  trade_app_data : list byte;
  trade_fee_amount : Z;
  flags : Z;
  trade_executed_amount : Z;
  trade_signature : list byte;
}.
(** The tuple of target, value and call data. *)
Definition EncodedInteraction : Type := InteractionData.
Record EncodedSettlement : Type := mkEncodedSettlement {
  tokens : list Z;
  clearing_prices : list Z;
  trades : list EncodedTrade;
  interactions : list EncodedInteraction * list EncodedInteraction * list EncodedInteraction;
}.

Definition order_flags (order : OrderData) (signature : Signature) : Z :=
  let result := match kind order with Sell => 0 | Buy => 1 end in
  let result := Z.lor result (Z.shiftl (Z.b2z (partially_fillable order)) 1) in
  let result := Z.lor result
    (Z.shiftl (match sell_token_balance order with SellErc20 => 0 | SellExternal => 2 | SellInternal => 3 end) 2) in
  let result := Z.lor result
    (Z.shiftl (match buy_token_balance order with BuyErc20 => 0 | BuyInternal => 1 end) 4) in
  Z.lor result
    (Z.shiftl (match scheme signature with SEip712 => 0 | SEthSign => 1 | SEip1271 => 2 | SPreSign => 3 end) 5).
Definition encode_trade (order : OrderData) (signature : Signature) (owner : Z)
    (sell_token_index buy_token_index : nat) (executed_amount : Z) : EncodedTrade :=
  mkEncodedTrade (Z.of_nat sell_token_index) (Z.of_nat buy_token_index) (default 0 (receiver order))
    (sell_amount order) (buy_amount order) (valid_to order) (app_data order) (fee_amount order)
    (order_flags order signature) executed_amount (encode_for_settlement signature owner).
End EncodedSettlement.

(** * settlement.rs *)
Module Settlement.
Record Trade : Type := mkTrade { order : Order; executed_amount : Z; fee : Z }.
Record TradeExecution : Type := mkTradeExecution {
  execution_sell_token : Z;
  execution_buy_token : Z;
  execution_sell_amount : Z;
  execution_buy_amount : Z;
  execution_fee_amount : Z;
}.

Definition scale_amount (self : Trade) (amount : Z) : option Z :=
  scaled ← checked_mul amount (executed_amount self);
  checked_div scaled
    match kind (data (order self)) with
    | Buy => buy_amount (data (order self))
    | Sell => sell_amount (data (order self))
    end.
Definition executed_fee (self : Trade) : option Z := scale_amount self (fee_amount (data (order self))).
(** The amounts the contract trades at the prices. *)
Definition traded_amounts (kind : OrderKind) (executed_amount sell_price buy_price : Z) : option (Z * Z) :=
  match kind with
  | Sell =>
      buy_amount ← checked_mul executed_amount sell_price ≫= fun p => checked_ceil_div p buy_price;
      Some (executed_amount, buy_amount)
  | Buy =>
      sell_amount ← checked_mul executed_amount buy_price ≫= fun p => checked_div p sell_price;
      Some (sell_amount, executed_amount)
  end.
Definition executed_amounts (self : Trade) (sell_price buy_price : Z) : option TradeExecution :=
  let order := data (order self) in
  amounts ← traded_amounts (kind order) (executed_amount self) sell_price buy_price;
  fee ← executed_fee self;
  Some (mkTradeExecution (sell_token order) (buy_token order) amounts.1 amounts.2 fee).
Definition encode (self : Trade) (sell_token_index buy_token_index : nat) : EncodedSettlement.EncodedTrade :=
  EncodedSettlement.encode_trade (data (order self)) (signature (order self)) (owner (metadata (order self)))
    sell_token_index buy_token_index (executed_amount self).
End Settlement.

(** * settlement_encoder.rs *)
Module SettlementEncoder.
Import EncodedSettlement Settlement.

Inductive Error : Type :=
| RemainingError (e : RemainingAmounts.Error)
| InvalidExecutedAmount
| MissingSellToken
| MissingBuyToken
| ImpossibleTradeExecution
| OverflowComputingExecution
| OnlyForLimitOrders
| OnlyForValidExecutedAmounts
| BuyTokenPriceMissing
| SellTokenPriceMissing
| SellAmountComputationFailed
| BuyAmountComputationFailed
| NonMatchingPrices
| TokensNotPartOfSolution.

Inductive TokenReference : Type :=
| Indexed (sell_token_index buy_token_index : nat)
| CustomPrice (sell_token_price buy_token_price : Z).
Record EncoderTrade : Type := mkEncoderTrade { trade_data : Trade; trade_tokens : TokenReference }.
Record PricedTrade : Type := mkPricedTrade { priced : Trade; sell_token_price : Z; buy_token_price : Z }.

(** [UnwrapWethInteraction] of interactions/weth.rs *)
Record Unwrap : Type := mkUnwrap { weth : Z; amount : Z }.
(** [None] is the error, after which another interaction is tried. *)
Definition unwrap_merge (self other : Unwrap) : res unit Unwrap :=
  if weth self =? weth other
  then let* amount := opt_expect (checked_add (amount self) (amount other)) in Ok (mkUnwrap (weth self) amount)
  else Err tt.
Definition unwrap_encode (withdraw : Z -> list byte) (self : Unwrap) : EncodedInteraction :=
  mkInteractionData (weth self) 0 (withdraw (amount self)).

Record SettlementEncoder : Type := mkSettlementEncoder {
  encoder_tokens : list Z;
  prices : gmap Z Z;
  encoder_trades : list EncoderTrade;
  execution_plan : list (EncodedInteraction * bool);
  pre_interactions : list InteractionData;
  post_interactions : list InteractionData;
  unwraps : list Unwrap;
}.
Definition set_tokens (self : SettlementEncoder) (t : list Z) (p : gmap Z Z) (l : list EncoderTrade) : SettlementEncoder :=
  mkSettlementEncoder t p l (execution_plan self) (pre_interactions self) (post_interactions self) (unwraps self).
Definition push_trade (self : SettlementEncoder) (t : EncoderTrade) : SettlementEncoder :=
  set_tokens self (encoder_tokens self) (prices self) (encoder_trades self ++ [t]).
Definition set_unwraps (self : SettlementEncoder) (l : list Unwrap) : SettlementEncoder :=
  mkSettlementEncoder (encoder_tokens self) (prices self) (encoder_trades self) (execution_plan self)
    (pre_interactions self) (post_interactions self) l.

(** [slice::sort] *)
Definition sort (l : list Z) : list Z := merge_sort Z.le l.
Definition new (clearing_prices : gmap Z Z) : SettlementEncoder :=
  mkSettlementEncoder (sort (map fst (map_to_list clearing_prices))) clearing_prices [] [] [] [] [].

Definition compute_trade_token_prices (self : SettlementEncoder) (trade : EncoderTrade) : res Error PricedTrade :=
  match trade_tokens trade with
  | Indexed i j =>
      let* sell_token := opt_expect (encoder_tokens self !! i) in
      let* sell_token_price := opt_expect (prices self !! sell_token) in
      let* buy_token := opt_expect (encoder_tokens self !! j) in
      let* buy_token_price := opt_expect (prices self !! buy_token) in
      Ok (mkPricedTrade (trade_data trade) sell_token_price buy_token_price)
  | CustomPrice s b => Ok (mkPricedTrade (trade_data trade) s b)
  end.
Definition all_trades (self : SettlementEncoder) : res Error (list PricedTrade) :=
  rmap (compute_trade_token_prices self) (encoder_trades self).
Definition has_interactions (self : SettlementEncoder) : bool :=
  existsb (fun '(_, internalizable) => negb internalizable) (execution_plan self).

(** [slice::binary_search] in a sorted list without duplicates: the position. *)
Definition token_index (tokens : list Z) (token : Z) : option nat := fst <$> list_find (eq token) tokens.

Definition verify_executed_amount (order : Order) (executed : Z) : res Error unit :=
  let* remaining :=
    map_err RemainingError (RemainingAmounts.from_order (RemainingAmounts.from_model order)) in
  let target := match kind (data order) with Sell => sell_amount (data order) | Buy => buy_amount (data order) end in
  let* left := map_err RemainingError (RemainingAmounts.remaining remaining target) in
  if (if partially_fillable (data order) then executed <=? left else executed =? left)
  then Ok tt else Err InvalidExecutedAmount.

Definition add_market_trade (self : SettlementEncoder) (order : Order) (executed_amount fee : Z)
  : res Error (SettlementEncoder * TradeExecution) :=
  let* _ := verify_executed_amount order executed_amount in
  let* sell_price := ok_or (prices self !! sell_token (data order)) MissingSellToken in
  let* sell_token_index := opt_expect (token_index (encoder_tokens self) (sell_token (data order))) in
  let* buy_price := ok_or (prices self !! buy_token (data order)) MissingBuyToken in
  let* buy_token_index := opt_expect (token_index (encoder_tokens self) (buy_token (data order))) in
  let trade := mkEncoderTrade (mkTrade order executed_amount fee) (Indexed sell_token_index buy_token_index) in
  let* execution := ok_or (executed_amounts (trade_data trade) sell_price buy_price) ImpossibleTradeExecution in
  Ok (push_trade self trade, execution).

Definition add_custom_price_trade (self : SettlementEncoder) (order : Order)
    (executed_amount fee sell_price buy_price : Z) : res Error (SettlementEncoder * TradeExecution) :=
  let* _ := verify_executed_amount order executed_amount in
  let trade := mkEncoderTrade (mkTrade order executed_amount fee) (CustomPrice sell_price buy_price) in
  let* execution := ok_or (executed_amounts (trade_data trade) sell_price buy_price) ImpossibleTradeExecution in
  Ok (push_trade self trade, execution).

(** The amounts a limit order trades, and with them its prices. *)
Definition custom_price_for_limit_order (self : SettlementEncoder) (order : Order) (executed_amount fee : Z)
  : res Error (Z * Z) :=
  if negb (is_limit (class (metadata order))) then Err OnlyForLimitOrders
  else
    let target_amount :=
      match kind (data order) with Buy => buy_amount (data order) | Sell => sell_amount (data order) end in
    if negb ((partially_fillable (data order) && (executed_amount <=? target_amount))
             || (negb (partially_fillable (data order)) && (executed_amount =? target_amount)))
    then Err OnlyForValidExecutedAmounts
    else
      let* uniform_buy_price := ok_or (prices self !! buy_token (data order)) BuyTokenPriceMissing in
      let* uniform_sell_price := ok_or (prices self !! sell_token (data order)) SellTokenPriceMissing in
      let* ' (sell_amount, buy_amount) :=
        match kind (data order) with
        | Buy =>
            let* product := ok_or (checked_mul executed_amount uniform_buy_price) SellAmountComputationFailed in
            let* sell_amount := ok_or (checked_div product uniform_sell_price) SellAmountComputationFailed in
            let* adjusted := ok_or (checked_add sell_amount fee) SellAmountComputationFailed in
            Ok (adjusted, executed_amount)
        | Sell =>
            let* sell_amount := ok_or (checked_sub executed_amount fee) BuyAmountComputationFailed in
            let* product := ok_or (checked_mul sell_amount uniform_sell_price) BuyAmountComputationFailed in
            let* buy_amount := ok_or (checked_ceil_div product uniform_buy_price) BuyAmountComputationFailed in
            Ok (executed_amount, buy_amount)
        end in
      Ok (buy_amount, sell_amount).

Definition add_trade (self : SettlementEncoder) (order : Order) (executed_amount fee : Z)
  : res Error (SettlementEncoder * TradeExecution) :=
  let* ' (self, execution) :=
    match class (metadata order) with
    | Market => add_market_trade self order executed_amount fee
    | Liquidity =>
        add_custom_price_trade self order executed_amount fee (buy_amount (data order)) (sell_amount (data order))
    | Limit =>
        let* executed_amount :=
          match kind (data order) with
          | Sell => ok_or (checked_add executed_amount fee) OverflowComputingExecution
          | Buy => Ok executed_amount
          end in
        let* ' (sell_price, buy_price) := custom_price_for_limit_order self order executed_amount fee in
        add_custom_price_trade self order executed_amount fee sell_price buy_price
    end in
  Ok (mkSettlementEncoder (encoder_tokens self) (prices self) (encoder_trades self) (execution_plan self)
        (pre_interactions self ++ pre (ModelOrder.interactions order)) (post_interactions self ++ post (ModelOrder.interactions order))
        (unwraps self), execution).

Definition append_to_execution_plan_internalizable (self : SettlementEncoder) (interaction : EncodedInteraction)
    (internalizable : bool) : SettlementEncoder :=
  mkSettlementEncoder (encoder_tokens self) (prices self) (encoder_trades self)
    (execution_plan self ++ [(interaction, internalizable)])
    (pre_interactions self) (post_interactions self) (unwraps self).
Definition append_to_execution_plan (self : SettlementEncoder) (interaction : EncodedInteraction) : SettlementEncoder :=
  append_to_execution_plan_internalizable self interaction false.

(** The loop of [add_unwrap]: into the first unwrap that takes it. *)
Fixpoint merge_unwrap (l : list Unwrap) (unwrap : Unwrap) : res Error (list Unwrap) :=
  match l with
  | [] => Ok [unwrap]
  | u :: l =>
      match unwrap_merge u unwrap with
      | Ok u => Ok (u :: l)
      | Err _ => let* l := merge_unwrap l unwrap in Ok (u :: l)
      | Panic => Panic
      end
  end.
Definition add_unwrap (self : SettlementEncoder) (unwrap : Unwrap) : res Error SettlementEncoder :=
  let* l := merge_unwrap (unwraps self) unwrap in Ok (set_unwraps self l).

Definition update_indices (tokens : list Z) (trade : EncoderTrade) : res Error EncoderTrade :=
  match trade_tokens trade with
  | Indexed _ _ =>
      let* i := opt_expect (token_index tokens (sell_token (data (order (trade_data trade))))) in
      let* j := opt_expect (token_index tokens (buy_token (data (order (trade_data trade))))) in
      Ok (mkEncoderTrade (trade_data trade) (Indexed i j))
  | CustomPrice _ _ => Ok trade
  end.
Definition sort_tokens_and_update_indices (self : SettlementEncoder) : res Error SettlementEncoder :=
  let tokens := sort (encoder_tokens self) in
  let* trades := rmap (update_indices tokens) (encoder_trades self) in
  Ok (set_tokens self tokens (prices self) trades).

Definition insert_equivalent (self : SettlementEncoder) (token price : Z) : res Error SettlementEncoder :=
  sort_tokens_and_update_indices
    (set_tokens self (encoder_tokens self ++ [token]) (<[token := price]> (prices self)) (encoder_trades self)).
Definition add_token_equivalency (self : SettlementEncoder) (token_a token_b : Z) : res Error SettlementEncoder :=
  match prices self !! token_a, prices self !! token_b with
  | Some price_a, Some price_b => if price_a =? price_b then Ok self else Err NonMatchingPrices
  | None, None => Err TokensNotPartOfSolution
  | Some price_a, None => insert_equivalent self token_b price_a
  | None, Some price_b => insert_equivalent self token_a price_b
  end.

Definition needed_tokens (trade : EncoderTrade) : list Z :=
  let order := order (trade_data trade) in
  if is_user_order order then [sell_token (data order); buy_token (data order)] else [sell_token (data order)].
Definition traded_tokens (self : SettlementEncoder) : gset Z :=
  list_to_set (concat (map needed_tokens (encoder_trades self))).
Definition drop_unnecessary_tokens_and_prices (self : SettlementEncoder) : res Error SettlementEncoder :=
  let traded := traded_tokens self in
  sort_tokens_and_update_indices
    (set_tokens self (filter (fun t => t ∈ traded) (encoder_tokens self))
      (filter (fun kv => kv.1 ∈ traded) (prices self)) (encoder_trades self)).

Definition custom_prices (trade : EncoderTrade) : list (Z * Z) :=
  match trade_tokens trade with
  | CustomPrice s b =>
      [(sell_token (data (order (trade_data trade))), s); (buy_token (data (order (trade_data trade))), b)]
  | Indexed _ _ => []
  end.
(** The fold over the trades, which counts the prices of their own. *)
Fixpoint encode_trades (custom_price_index : nat) (l : list EncoderTrade) : list EncodedTrade :=
  match l with
  | [] => []
  | t :: l =>
      match trade_tokens t with
      | Indexed i j => encode (trade_data t) i j :: encode_trades custom_price_index l
      | CustomPrice _ _ =>
          encode (trade_data t) custom_price_index (custom_price_index + 1)
          :: encode_trades (custom_price_index + 2) l
      end
  end.

Inductive InternalizationStrategy : Type := EncodeAllInteractions | SkipInternalizableInteraction | Unknown.
Definition skips (strategy : InternalizationStrategy) (internalizable : bool) : bool :=
  internalizable && match strategy with SkipInternalizableInteraction => true | _ => false end.

Definition finish (withdraw : Z -> list byte) (self : SettlementEncoder) (strategy : InternalizationStrategy)
  : res Error EncodedSettlement :=
  let* self := drop_unnecessary_tokens_and_prices self in
  let* uniform := rmap (fun t => opt_expect (prices self !! t)) (encoder_tokens self) in
  let custom := concat (map custom_prices (encoder_trades self)) in
  Ok (mkEncodedSettlement (encoder_tokens self ++ map fst custom) (uniform ++ map snd custom)
    (encode_trades (length (encoder_tokens self)) (encoder_trades self))
    (pre_interactions self,
     omap (fun '(i, internalizable) => if skips strategy internalizable then None else Some i) (execution_plan self)
       ++ map (unwrap_encode withdraw) (unwraps self),
     post_interactions self)).
End SettlementEncoder.

(** * Specification *)
Module EncoderSpec.
Import EncodedSettlement Settlement SettlementEncoder.

(** The operations of a solver on an encoder; the executions that the code
    promised for the trades, in their order. *)
Inductive Op : Type :=
| AddTrade (order : Order) (executed_amount fee : Z)
| AddTokenEquivalency (token_a token_b : Z)
| AppendToExecutionPlan (interaction : EncodedInteraction) (internalizable : bool)
| AddUnwrap (unwrap : Unwrap).
Definition apply (e : SettlementEncoder) (op : Op) : res Error (SettlementEncoder * list TradeExecution) :=
  match op with
  | AddTrade o executed fee => res_map (fun '(e, ex) => (e, [ex])) (add_trade e o executed fee)
  | AddTokenEquivalency a b => res_map (fun e => (e, [])) (add_token_equivalency e a b)
  | AppendToExecutionPlan i b => Ok (append_to_execution_plan_internalizable e i b, [])
  | AddUnwrap u => res_map (fun e => (e, [])) (add_unwrap e u)
  end.
Definition run (clearing_prices : gmap Z Z) (ops : list Op) : res Error (SettlementEncoder * list TradeExecution) :=
  rfold (fun '(e, exs) op => let* ' (e, exs') := apply e op in Ok (e, exs ++ exs')) (new clearing_prices, []) ops.

(** What the settlement contract executes for a trade of a settlement: the
    tokens and prices its indices point at, the kind in the first flag. *)
Definition settled_execution (s : EncodedSettlement) (t : EncodedTrade) : option TradeExecution :=
  let kind := if Z.testbit (flags t) 0 then Buy else Sell in
  sell_token ← tokens s !! Z.to_nat (sell_token_index t);
  buy_token ← tokens s !! Z.to_nat (buy_token_index t);
  sell_price ← clearing_prices s !! Z.to_nat (sell_token_index t);
  buy_price ← clearing_prices s !! Z.to_nat (buy_token_index t);
  amounts ← traded_amounts kind (trade_executed_amount t) sell_price buy_price;
  scaled ← checked_mul (trade_fee_amount t) (trade_executed_amount t);
  fee ← checked_div scaled (match kind with Buy => trade_buy_amount t | Sell => trade_sell_amount t end);
  Some (mkTradeExecution sell_token buy_token amounts.1 amounts.2 fee).

Definition tokens_of (t : EncoderTrade) : Z * Z :=
  (sell_token (data (order (trade_data t))), buy_token (data (order (trade_data t)))).
(** An index of a trade points at its token; only user orders have one. *)
Definition trade_ok (toks : list Z) (t : EncoderTrade) : Prop :=
  match trade_tokens t with
  | Indexed i j =>
      toks !! i = Some (tokens_of t).1 /\ toks !! j = Some (tokens_of t).2 /\
      is_user_order (order (trade_data t)) = true
  | CustomPrice _ _ => True
  end.
(** The documented invariant: the tokens are the keys of the prices, sorted. *)
Record encoder_ok (e : SettlementEncoder) : Prop := {
  ok_sorted : StronglySorted Z.lt (encoder_tokens e);
  ok_keys : forall t, t ∈ encoder_tokens e <-> is_Some (prices e !! t);
  ok_trades : Forall (trade_ok (encoder_tokens e)) (encoder_trades e);
}.
(** The prices of a trade, whatever its indices. *)
Definition trade_prices (p : gmap Z Z) (t : EncoderTrade) : option (Z * Z) :=
  match trade_tokens t with
  | Indexed _ _ => s ← p !! (tokens_of t).1; b ← p !! (tokens_of t).2; Some (s, b)
  | CustomPrice s b => Some (s, b)
  end.
Definition executes (p : gmap Z Z) (t : EncoderTrade) (ex : TradeExecution) : Prop :=
  exists s b, trade_prices p t = Some (s, b) /\ executed_amounts (trade_data t) s b = Some ex.
Definition consistent (e : SettlementEncoder) (exs : list TradeExecution) : Prop :=
  encoder_ok e /\ Forall2 (executes (prices e)) (encoder_trades e) exs.
End EncoderSpec.
Import EncodedSettlement Settlement SettlementEncoder EncoderSpec.

(** * Lemmas *)

(** ** Sorted tokens *)
Lemma sort_permutation l : sort l ≡ₚ l.
Proof. apply merge_sort_Permutation. Qed.

Lemma sort_sorted l : NoDup l -> StronglySorted Z.lt (sort l).
Proof.
  intros Hnd. assert (Hs : StronglySorted Z.le (sort l)) by (apply StronglySorted_merge_sort; apply _).
  assert (Hn : NoDup (sort l)) by (by rewrite sort_permutation). revert Hn.
  induction Hs as [|a l' Hs IH Ha]; [constructor|]. intros [Hni Hn]%NoDup_cons. constructor; [by apply IH|].
  apply Forall_forall. intros x Hx. pose proof (proj1 (Forall_forall _ _) Ha x Hx).
  assert (x <> a) by (by intros ->). lia.
Qed.

Lemma sorted_nodup l : StronglySorted Z.lt l -> NoDup l.
Proof.
  induction 1 as [|a l Hs IH Ha]; constructor; [|done].
  intros Hin. pose proof (proj1 (Forall_forall _ _) Ha a Hin). lia.
Qed.

Lemma token_index_Some l t i : token_index l t = Some i -> l !! i = Some t.
Proof.
  unfold token_index. intros H. apply fmap_Some in H as ([j x] & H & ->).
  apply list_find_Some in H as (H & -> & _). done.
Qed.

Lemma token_index_elem l t : t ∈ l -> is_Some (token_index l t).
Proof.
  intros Hin. unfold token_index. destruct (list_find (eq t) l) as [[i x]|] eqn:H; [by eexists|].
  apply list_find_None in H. by destruct (proj1 (Forall_forall _ _) H t Hin).
Qed.

(** ** Re-indexing *)
(** The tokens a trade refers to by index are there. *)
Definition indexable (P : Z -> Prop) (t : EncoderTrade) : Prop :=
  match trade_tokens t with
  | Indexed _ _ => P (tokens_of t).1 /\ P (tokens_of t).2 /\ is_user_order (order (trade_data t)) = true
  | CustomPrice _ _ => True
  end.
(** Two trades that differ in their indices only. *)
Definition reindexed (t t' : EncoderTrade) : Prop :=
  trade_data t' = trade_data t /\ forall p, trade_prices p t' = trade_prices p t.

Lemma update_indices_total toks t : indexable (.∈ toks) t ->
  total (fun t' => reindexed t t' /\ trade_ok toks t') (update_indices toks t).
Proof.
  unfold indexable, update_indices. destruct t as [d [i j|s b]]; cbn [trade_tokens]; [|by cbn].
  intros (Hs & Hb & Hu). destruct (token_index_elem _ _ Hs) as [i' Hi]. destruct (token_index_elem _ _ Hb) as [j' Hj].
  unfold tokens_of in *. cbn [fst snd trade_data] in *. rewrite Hi, Hj. cbn.
  split; [done|]. unfold trade_ok. cbn. split_and!; auto using token_index_Some.
Qed.

Lemma update_all_total toks l : Forall (indexable (.∈ toks)) l ->
  total (fun l' => Forall2 reindexed l l' /\ Forall (trade_ok toks) l') (rmap (update_indices toks) l).
Proof.
  induction 1 as [|t l Ht _ IH]; cbn [rmap]; [split; constructor|].
  eapply total_bind; [by apply update_indices_total|]. intros t' [Hr Hok].
  eapply total_bind; [exact IH|]. intros l' [Hr' Hok']. split; by constructor.
Qed.

Lemma reindexed_executes p l l' exs :
  Forall2 reindexed l l' -> Forall2 (executes p) l exs -> Forall2 (executes p) l' exs.
Proof.
  intros H. revert exs. induction H as [|t t' l l' [Hd Hp] _ IH]; intros exs Hex; inversion_clear Hex; constructor; [|by apply IH].
  destruct H as (s & b & H1 & H2). exists s, b. by rewrite Hp, Hd.
Qed.

Lemma reindexed_data l l' : Forall2 reindexed l l' -> map trade_data l' = map trade_data l.
Proof. induction 1 as [|t t' l l' [Hd _] _ IH]; [done|]. cbn. congruence. Qed.

(** Sorting the tokens restores the invariant where they are the keys. *)
Lemma resort_total e exs :
  NoDup (encoder_tokens e) -> (forall t, t ∈ encoder_tokens e <-> is_Some (prices e !! t)) ->
  Forall (indexable (fun t => is_Some (prices e !! t))) (encoder_trades e) ->
  Forall2 (executes (prices e)) (encoder_trades e) exs ->
  total (fun e' => consistent e' exs /\ map trade_data (encoder_trades e') = map trade_data (encoder_trades e))
    (sort_tokens_and_update_indices e).
Proof.
  intros Hnd Hk Hidx Hex. unfold sort_tokens_and_update_indices.
  assert (Hmem : forall t, t ∈ sort (encoder_tokens e) <-> is_Some (prices e !! t)).
  { intros t. by rewrite sort_permutation. }
  eapply total_bind; [apply update_all_total|].
  - eapply Forall_impl; [exact Hidx|]. intros t. unfold indexable. destruct (trade_tokens t); [|done]. by rewrite !Hmem.
  - intros l' [Hr Hok]. cbn. split; [|by apply reindexed_data].
    split; [|by eapply reindexed_executes]. split; cbn; [by apply sort_sorted|done|done].
Qed.

(** ** The operations keep the encoder consistent *)
Lemma trade_ok_indexable e t :
  encoder_ok e -> trade_ok (encoder_tokens e) t -> indexable (fun t => is_Some (prices e !! t)) t.
Proof.
  intros He. unfold trade_ok, indexable. destruct (trade_tokens t); [|done]. intros (Hi & Hj & Hu).
  rewrite <- !(ok_keys _ He). eauto using list_elem_of_lookup_2.
Qed.

Lemma all_indexable e : encoder_ok e -> Forall (indexable (fun t => is_Some (prices e !! t))) (encoder_trades e).
Proof. intros He. eapply Forall_impl; [apply (ok_trades _ He)|]. intros t. by apply trade_ok_indexable. Qed.

Lemma new_consistent p : consistent (new p) [].
Proof.
  split; [|constructor]. assert (Hmem : forall t, t ∈ map fst (map_to_list p) <-> is_Some (p !! t)).
  { intros t. rewrite list_elem_of_fmap. split.
    - intros ([k v] & -> & H%elem_of_map_to_list). by eexists.
    - intros [v H%elem_of_map_to_list]. by exists (t, v). }
  split; cbn; [|intros t; rewrite sort_permutation; apply Hmem|constructor].
  apply sort_sorted, NoDup_fst_map_to_list.
Qed.

(** Prices that are only added to leave those of the trades alone. *)
Lemma executes_mono p p' t ex : p ⊆ p' -> executes p t ex -> executes p' t ex.
Proof.
  intros Hsub (s & b & Hp & Hex). exists s, b. split; [|done]. revert Hp. unfold trade_prices.
  destruct (trade_tokens t); [|done]. intros H.
  apply bind_Some in H as (s' & Hs & H). apply bind_Some in H as (b' & Hb & H).
  erewrite !lookup_weaken by done. done.
Qed.

Lemma insert_equivalent_total e exs token price :
  consistent e exs -> prices e !! token = None ->
  total (fun e' => consistent e' exs /\ map trade_data (encoder_trades e') = map trade_data (encoder_trades e))
    (insert_equivalent e token price).
Proof.
  intros [He Hex] Hnone. unfold insert_equivalent.
  assert (Hni : token ∉ encoder_tokens e) by (rewrite (ok_keys _ He), Hnone; by intros [? ?]).
  eapply total_mono; [apply (resort_total _ exs)|by intros e']; cbn [encoder_tokens prices encoder_trades set_tokens].
  - apply NoDup_app. split; [by apply sorted_nodup, He|]. split; [|by apply NoDup_singleton].
    intros x Hx ->%list_elem_of_singleton. done.
  - intros t. rewrite elem_of_app, list_elem_of_singleton, (ok_keys _ He). rewrite lookup_insert_is_Some'.
    split; intros [?|?]; subst; auto.
  - eapply Forall_impl; [by apply all_indexable|]. intros t. unfold indexable.
    destruct (trade_tokens t); [|done]. rewrite !lookup_insert_is_Some'. tauto.
  - eapply Forall2_impl; [exact Hex|]. intros t ex. apply executes_mono. by apply insert_subseteq.
Qed.

Lemma add_token_equivalency_consistent e exs a b :
  consistent e exs -> returns (fun e' => consistent e' exs) (add_token_equivalency e a b).
Proof.
  intros H. unfold add_token_equivalency.
  destruct (prices e !! a) eqn:Ha, (prices e !! b) eqn:Hb; cbn; [by case_match| | |done].
  all: apply total_returns; eapply total_mono; [by apply insert_equivalent_total|by intros ? [? _]].
Qed.

Lemma push_trade_consistent e exs t ex :
  consistent e exs -> trade_ok (encoder_tokens e) t -> executes (prices e) t ex ->
  consistent (push_trade e t) (exs ++ [ex]).
Proof.
  intros [He Hex] Ht Hx. split; [|by apply Forall2_app; [|repeat constructor]].
  split; cbn; [apply He|apply He|]. apply Forall_app. split; [apply He|by repeat constructor].
Qed.

Lemma verify_returns o executed : returns (fun _ => True) (verify_executed_amount o executed).
Proof.
  unfold verify_executed_amount, RemainingAmounts.from_order, RemainingAmounts.from_order_with_balance,
    RemainingAmounts.remaining. no_panic; exact I.
Qed.

Lemma add_market_trade_consistent e exs o executed fee :
  consistent e exs -> is_user_order o = true ->
  returns (fun '(e', ex) => consistent e' (exs ++ [ex])) (add_market_trade e o executed fee).
Proof.
  intros Hc Hu. destruct (proj1 Hc) as [_ Hk _]. unfold add_market_trade.
  eapply returns_bind; [apply verify_returns|]. intros _ _.
  eapply returns_bind; [by apply returns_ok_or, (fun s H => H)|]. cbn. intros sp Hsp.
  destruct (token_index_elem (encoder_tokens e) (sell_token (data o))) as [i Hi]; [apply Hk; by eexists|].
  rewrite Hi. cbn [opt_expect rbind].
  eapply returns_bind; [by apply returns_ok_or, (fun s H => H)|]. cbn. intros bp Hbp.
  destruct (token_index_elem (encoder_tokens e) (buy_token (data o))) as [j Hj]; [apply Hk; by eexists|].
  rewrite Hj. cbn [opt_expect rbind].
  eapply returns_bind; [by apply returns_ok_or, (fun s H => H)|]. cbn. intros ex Hex.
  apply push_trade_consistent; [done| |].
  - unfold trade_ok. cbn. split_and!; eauto using token_index_Some.
  - exists sp, bp. split; [|done]. unfold trade_prices. cbn. by rewrite Hsp, Hbp.
Qed.

Lemma add_custom_price_trade_consistent e exs o executed fee sp bp :
  consistent e exs ->
  returns (fun '(e', ex) => consistent e' (exs ++ [ex])) (add_custom_price_trade e o executed fee sp bp).
Proof.
  intros Hc. unfold add_custom_price_trade. eapply returns_bind; [apply verify_returns|]. intros _ _.
  eapply returns_bind; [by apply returns_ok_or, (fun s H => H)|]. cbn. intros ex Hex.
  apply push_trade_consistent; [done|done|]. by exists sp, bp.
Qed.

Lemma add_trade_consistent e exs o executed fee :
  consistent e exs -> returns (fun '(e', ex) => consistent e' (exs ++ [ex])) (add_trade e o executed fee).
Proof.
  intros Hc. unfold add_trade. eapply (returns_bind (fun '(e', ex) => consistent e' (exs ++ [ex]))).
  - destruct (class (metadata o)) eqn:Hcl.
    + apply add_market_trade_consistent; [done|]. unfold is_user_order. by rewrite Hcl.
    + by apply add_custom_price_trade_consistent.
    + eapply (returns_bind (fun _ => True)); [destruct (kind (data o)); no_panic; exact I|]. intros executed' _.
      eapply (returns_bind (fun _ => True)); [unfold custom_price_for_limit_order; no_panic; exact I|].
      intros [sp bp] _. by apply add_custom_price_trade_consistent.
  - intros [e' ex] [[H1 H2 H3] H4]. by split; [split|].
Qed.

Lemma apply_consistent e exs op :
  consistent e exs -> forall e' exs', apply e op = Ok (e', exs') -> consistent e' (exs ++ exs').
Proof.
  intros Hc e' exs' H. destruct op; cbn [apply] in H.
  - apply res_map_Ok in H as ([e1 ex] & H & [= <- <-]).
    exact (returns_Ok _ _ _ (add_trade_consistent _ _ _ _ _ Hc) H).
  - apply res_map_Ok in H as (e1 & H & [= <- <-]). rewrite app_nil_r.
    exact (returns_Ok _ _ _ (add_token_equivalency_consistent _ _ _ _ Hc) H).
  - injection H as <- <-. rewrite app_nil_r. destruct Hc as [[H1 H2 H3] H4]. by split; [split|].
  - apply res_map_Ok in H as (e1 & H & [= <- <-]). rewrite app_nil_r. unfold add_unwrap in H. inv_ok.
    destruct Hc as [[H1 H2 H3] H4]. by split; [split|].
Qed.

Lemma run_consistent p ops e exs : run p ops = Ok (e, exs) -> consistent e exs.
Proof.
  intros H. refine (rfold_Ok_inv (fun '(e, exs) => consistent e exs) _ _ _ _ H (new_consistent p) _).
  intros [e1 exs1] op [e2 exs2] _ Hc Hs. apply rbind_Ok in Hs as ([e' exs'] & Hs & [= <- <-]).
  by eapply apply_consistent.
Qed.

(** *** The orders of an encoder are those added to it. *)
Definition added (op : Op) : list Order := match op with AddTrade o _ _ => [o] | _ => [] end.
Definition orders (e : SettlementEncoder) : list Order := map (fun t => order (trade_data t)) (encoder_trades e).

Lemma orders_push e t : orders (push_trade e t) = orders e ++ [order (trade_data t)].
Proof. unfold orders. cbn. by rewrite map_app. Qed.

Lemma add_trade_orders e o executed fee e' ex :
  add_trade e o executed fee = Ok (e', ex) -> orders e' = orders e ++ [o].
Proof.
  unfold add_trade. intros H. apply rbind_Ok in H as ([e1 ex1] & H & [= <- _]).
  change (orders e1 = orders e ++ [o]). destruct (class (metadata o)).
  - unfold add_market_trade in H. do 6 apply rbind_Ok in H as (? & _ & H). injection H as <- _. apply orders_push.
  - unfold add_custom_price_trade in H. do 2 apply rbind_Ok in H as (? & _ & H). injection H as <- _. apply orders_push.
  - apply rbind_Ok in H as (executed' & _ & H). apply rbind_Ok in H as ([sp bp] & _ & H).
    unfold add_custom_price_trade in H. do 2 apply rbind_Ok in H as (? & _ & H). injection H as <- _. apply orders_push.
Qed.

Lemma orders_trade_data e : orders e = map order (map trade_data (encoder_trades e)).
Proof. unfold orders. by rewrite map_map. Qed.

Lemma insert_equivalent_orders e exs token price e' : consistent e exs -> prices e !! token = None ->
  insert_equivalent e token price = Ok e' -> orders e' = orders e.
Proof.
  intros Hc Hnone H. rewrite !orders_trade_data. f_equal.
  pose proof (insert_equivalent_total _ _ _ price Hc Hnone) as Ht. rewrite H in Ht. apply Ht.
Qed.

Lemma apply_orders e exs op e' exs' :
  consistent e exs -> apply e op = Ok (e', exs') -> orders e' = orders e ++ added op.
Proof.
  intros Hc H. destruct op; cbn [apply added] in *; rewrite ?app_nil_r.
  - apply res_map_Ok in H as ([e1 ex] & H & [= <- <-]). by eapply add_trade_orders.
  - apply res_map_Ok in H as (e1 & H & [= <- _]). unfold add_token_equivalency in H. repeat case_match; inv_ok; try done.
    all: by eapply insert_equivalent_orders.
  - by injection H as <- _.
  - apply res_map_Ok in H as (e1 & H & [= <- _]). unfold add_unwrap in H. by inv_ok.
Qed.

Lemma run_orders p ops e exs : run p ops = Ok (e, exs) -> orders e = concat (map added ops).
Proof.
  unfold run. intros H.
  assert (Hg : forall ops s s', rfold (fun '(e, exs) op => let* ' (e, exs') := apply e op in Ok (e, exs ++ exs')) s ops = Ok s' ->
    consistent s.1 s.2 -> orders s'.1 = orders s.1 ++ concat (map added ops)).
  { clear. induction ops as [|op ops IH]; intros [e exs] s'; cbn [rfold map concat fst snd].
    { intros [= <-] _. by rewrite app_nil_r. }
    intros H Hc. apply rbind_Ok in H as (s1 & H1 & H). apply rbind_Ok in H1 as ([e1 exs1] & H1 & [= <-]).
    rewrite (IH _ _ H) by (by eapply apply_consistent). cbn [fst].
    rewrite (apply_orders _ _ _ _ _ Hc H1). by rewrite <- app_assoc. }
  apply (Hg _ _ _ H), new_consistent.
Qed.

(** ** Encoding *)
Lemma flags_kind o s : (if Z.testbit (order_flags o s) 0 then Buy else Sell) = kind o.
Proof.
  unfold order_flags. destruct (kind o), (partially_fillable o), (sell_token_balance o), (buy_token_balance o), s; reflexivity.
Qed.

(** A trade with its indices pointing at its tokens and prices executes as promised. *)
Lemma settled_execution_encode s t i j sp bp ex :
  tokens s !! i = Some (sell_token (data (order t))) -> tokens s !! j = Some (buy_token (data (order t))) ->
  clearing_prices s !! i = Some sp -> clearing_prices s !! j = Some bp ->
  executed_amounts t sp bp = Some ex -> settled_execution s (encode t i j) = Some ex.
Proof.
  intros Hi Hj Hsp Hbp Hex. unfold settled_execution, encode, encode_trade. cbn [sell_token_index buy_token_index flags trade_executed_amount trade_fee_amount trade_buy_amount trade_sell_amount].
  rewrite flags_kind, !Nat2Z.id, Hi, Hj, Hsp, Hbp. cbn [mbind option_bind].
  revert Hex. unfold executed_amounts, executed_fee, scale_amount. destruct traded_amounts; [|done]. cbn.
  destruct (checked_mul (fee_amount _) _); [|done]. cbn. by destruct (kind (data (order t))).
Qed.

(** Two entries after two lists. *)
Lemma lookup_two {A B} (f : A -> B) (l : list B) (seen : list A) x y rest n :
  n = (length l + length seen)%nat ->
  (l ++ map f ((seen ++ [x; y]) ++ rest)) !! n = Some (f x) /\
  (l ++ map f ((seen ++ [x; y]) ++ rest)) !! (n + 1)%nat = Some (f y).
Proof.
  intros ->. rewrite <- (length_map f seen), <- length_app, !map_app, app_assoc, app_assoc. cbn [map].
  split; apply lookup_app_l_Some.
  - by rewrite list_lookup_middle.
  - rewrite lookup_app_r by lia. by replace (_ - _)%nat with 1%nat by lia.
Qed.

(** Where the prices of a trade stand in the settlement. *)
Definition placed (s : EncodedSettlement) (p : gmap Z Z) (e : EncodedTrade) (t : EncoderTrade) : Prop :=
  exists i j, e = encode (trade_data t) i j /\
    tokens s !! i = Some (tokens_of t).1 /\ tokens s !! j = Some (tokens_of t).2 /\
    (forall sp bp, trade_prices p t = Some (sp, bp) ->
      clearing_prices s !! i = Some sp /\ clearing_prices s !! j = Some bp).

(** A trade is encoded with indices of its tokens. *)
Definition encoded_in (s : EncodedSettlement) (e : EncodedTrade) (t : Trade) : Prop :=
  exists i j, e = encode t i j /\
    tokens s !! i = Some (sell_token (data (order t))) /\ tokens s !! j = Some (buy_token (data (order t))).

Lemma encode_trades_placed s (p : gmap Z Z) toks ps :
  length toks = length ps -> (forall i t, toks !! i = Some t -> ps !! i = p !! t) ->
  forall l seen, Forall (trade_ok toks) l ->
  tokens s = toks ++ map fst (seen ++ concat (map custom_prices l)) ->
  clearing_prices s = ps ++ map snd (seen ++ concat (map custom_prices l)) ->
  Forall2 (placed s p) (encode_trades (length toks + length seen) l) l.
Proof.
  intros Hlen Hps l. induction l as [|t l IH]; intros seen Hok Htok Hpr; [constructor|].
  apply Forall_cons in Hok as [Ht Hok]. cbn [encode_trades].
  cbn [map concat] in Htok, Hpr. rewrite app_assoc in Htok, Hpr. specialize (IH _ Hok Htok Hpr).
  destruct t as [d [i j|sp bp]]; unfold custom_prices in IH at 1; cbn [trade_tokens trade_data] in IH |- *.
  - rewrite app_nil_r in IH. constructor; [|exact IH]. destruct Ht as (Hi & Hj & _). exists i, j.
    split_and!; [done|rewrite Htok; by apply lookup_app_l_Some|rewrite Htok; by apply lookup_app_l_Some|].
    intros sp bp H. unfold trade_prices in H. cbn [trade_tokens] in H.
    apply bind_Some in H as (s' & Hs & H). apply bind_Some in H as (b' & Hb & [= <- <-]).
    rewrite Hpr. split; apply lookup_app_l_Some; by erewrite Hps.
  - rewrite length_app, Nat.add_assoc in IH. constructor; [|exact IH].
    exists (length toks + length seen)%nat, (length toks + length seen + 1)%nat.
    split; [done|]. cbn [trade_prices trade_tokens].
    change (custom_prices (mkEncoderTrade d (CustomPrice sp bp))) with
      [((tokens_of (mkEncoderTrade d (CustomPrice sp bp))).1, sp); ((tokens_of (mkEncoderTrade d (CustomPrice sp bp))).2, bp)] in Htok, Hpr.
    rewrite Htok, Hpr. edestruct (lookup_two fst toks seen) as [-> ->]; [done|].
    edestruct (lookup_two snd ps seen) as [-> ->]; [by rewrite Hlen|].
    split_and!; [done|done|]. by intros ?? [= -> ->].
Qed.

(** ** Finishing *)
Lemma needed_traded e t x : t ∈ encoder_trades e -> x ∈ needed_tokens t -> x ∈ traded_tokens e.
Proof.
  intros Ht Hx. unfold traded_tokens. apply elem_of_list_to_set, list_elem_of_In, in_concat.
  exists (needed_tokens t). split; [by apply in_map, list_elem_of_In|by apply list_elem_of_In].
Qed.

(** What indexed trades need is kept. *)
Lemma indexed_traded e t : t ∈ encoder_trades e ->
  indexable (fun x => is_Some (prices e !! x)) t -> indexable (fun x => x ∈ traded_tokens e) t.
Proof.
  intros Ht. unfold indexable. destruct (trade_tokens t); [|done]. intros (_ & _ & Hu).
  split_and!; [| |done]; apply (needed_traded _ t); try done; unfold needed_tokens; rewrite Hu; unfold tokens_of; cbn [fst snd]; set_solver.
Qed.

Lemma executes_kept p (P : gset Z) t ex :
  indexable (fun x => x ∈ P) t -> executes p t ex -> executes (filter (fun kv => kv.1 ∈ P) p) t ex.
Proof.
  intros Hi (s & b & Hp & Hex). exists s, b. split; [|done]. revert Hp Hi. unfold trade_prices, indexable.
  destruct (trade_tokens t); [|done]. intros H (Hs & Hb & _).
  apply bind_Some in H as (s' & Hs' & H). apply bind_Some in H as (b' & Hb' & H).
  rewrite (map_lookup_filter_Some_2 _ p _ _ Hs' Hs), (map_lookup_filter_Some_2 _ p _ _ Hb' Hb). done.
Qed.

Lemma drop_total e exs : consistent e exs ->
  total (fun e' => consistent e' exs /\ map trade_data (encoder_trades e') = map trade_data (encoder_trades e))
    (drop_unnecessary_tokens_and_prices e).
Proof.
  intros [He Hex]. unfold drop_unnecessary_tokens_and_prices.
  pose proof (all_indexable _ He) as Hidx.
  assert (Htr : Forall (indexable (fun x => x ∈ traded_tokens e)) (encoder_trades e)).
  { apply Forall_forall. intros t Ht. apply indexed_traded; [done|]. by apply (proj1 (Forall_forall _ _) Hidx). }
  assert (Hk : forall t, is_Some (filter (fun kv => kv.1 ∈ traded_tokens e) (prices e) !! t) <->
    is_Some (prices e !! t) /\ t ∈ traded_tokens e).
  { intros t. unfold is_Some. setoid_rewrite map_lookup_filter_Some. cbn. naive_solver. }
  eapply total_mono; [apply (resort_total _ exs)|].
  - cbn. apply NoDup_filter, sorted_nodup, He.
  - cbn. intros t. rewrite list_elem_of_filter, Hk, (ok_keys _ He). tauto.
  - cbn. apply Forall_forall. intros t Ht. pose proof (proj1 (Forall_forall _ _) Hidx t Ht) as H1.
    pose proof (proj1 (Forall_forall _ _) Htr t Ht) as H2. revert H1 H2. unfold indexable.
    destruct (trade_tokens t); [|done]. rewrite !Hk. tauto.
  - cbn. clear -Hex Htr. induction Hex; constructor; apply Forall_cons in Htr as [? ?]; [by apply executes_kept|].
    by apply IHHex.
  - by intros e'.
Qed.

Lemma uniform_prices_total e : encoder_ok e ->
  total (fun ps => length ps = length (encoder_tokens e) /\
    forall i t, encoder_tokens e !! i = Some t -> ps !! i = prices e !! t)
    (rmap (fun t => opt_expect (prices e !! t)) (encoder_tokens e) : res Error (list Z)).
Proof.
  intros He. pose proof (fun t => proj1 (ok_keys _ He t)) as Hk. revert Hk.
  induction (encoder_tokens e) as [|t l IH]; intros Hk; cbn [rmap]; [by split|].
  destruct (Hk t) as [v Hv]; [left|]. rewrite Hv. cbn [opt_expect rbind].
  eapply total_bind; [apply IH; intros; apply Hk; by right|]. intros ps [Hlen Hps]. cbn. split; [congruence|].
  intros [|i] t' Ht; cbn in *; [congruence|by apply Hps].
Qed.

Lemma finish_total e exs withdraw strategy : consistent e exs ->
  total (fun s => Forall2 (fun t ex => settled_execution s t = Some ex) (trades s) exs /\
      Forall2 (encoded_in s) (trades s) (map trade_data (encoder_trades e)))
    (finish withdraw e strategy).
Proof.
  intros Hc. unfold finish. eapply total_bind; [by apply drop_total|]. intros e' ([He' Hex'] & <-).
  eapply total_bind; [by apply uniform_prices_total|]. intros ps [Hlen Hps]. cbn [total].
  set (s := mkEncodedSettlement _ _ _ _).
  assert (Hpl : Forall2 (placed s (prices e')) (encode_trades (length (encoder_tokens e') + length (@nil (Z * Z))) (encoder_trades e')) (encoder_trades e')).
  { by apply (encode_trades_placed _ _ _ ps); [|exact Hps|apply He'| |]. }
  cbn [length] in Hpl. rewrite Nat.add_0_r in Hpl. change (trades s) with (encode_trades (length (encoder_tokens e')) (encoder_trades e')).
  split; [|apply Forall2_fmap_r; eapply Forall2_impl; [exact Hpl|];
    intros t et (i & j & -> & Hi & Hj & _); by exists i, j].
  refine (Forall2_chain _ _ _ _ _ _ Hpl Hex' _).
  intros t et ex (i & j & -> & Hi & Hj & Hp) (sp & bp & Htp & Hx). destruct (Hp _ _ Htp) as [Hsp Hbp].
  by eapply settled_execution_encode.
Qed.

(** ** The amounts of a trade *)
Lemma checked_ceil_div_cdiv a b c : checked_ceil_div a b = Some c -> c = cdiv a b /\ 1 <= b.
Proof.
  unfold checked_ceil_div. destruct (checked_sub b 1) as [o|] eqn:Ho; [|done]. apply checked_sub_Some in Ho as [-> Hb].
  destruct (checked_add a (b - 1)) as [q|] eqn:Hq; [|done]. apply checked_add_Some in Hq as [-> _].
  intros H. apply checked_div_Some in H as [-> _]. done.
Qed.

Lemma cdiv_mul a b : 1 <= a -> cdiv (a * b) a = b.
Proof.
  intros Ha. unfold cdiv. rewrite Z.mul_comm, Z.div_add_l by lia. rewrite Z.div_small by lia. lia.
Qed.

Lemma traded_amounts_Some k executed sp bp a : traded_amounts k executed sp bp = Some a ->
  match k with
  | Sell => a = (executed, cdiv (executed * sp) bp) /\ 1 <= bp
  | Buy => a = (executed * bp / sp, executed) /\ sp <> 0
  end.
Proof.
  unfold traded_amounts. destruct k; intros H; apply bind_Some in H as (c & H & [= <-]);
    apply bind_Some in H as (p & Hp & H); apply checked_mul_Some in Hp as [-> _].
  - by apply checked_div_Some in H as [-> ?].
  - by apply checked_ceil_div_cdiv in H as [-> ?].
Qed.

Lemma executed_amounts_Some t sp bp ex : executed_amounts t sp bp = Some ex ->
  exists a, traded_amounts (kind (data (order t))) (executed_amount t) sp bp = Some a /\
    execution_sell_amount ex = a.1 /\ execution_buy_amount ex = a.2 /\
    execution_sell_token ex = sell_token (data (order t)) /\ execution_buy_token ex = buy_token (data (order t)).
Proof.
  unfold executed_amounts. intros H. apply bind_Some in H as (a & Ha & H). apply bind_Some in H as (f & _ & [= <-]).
  by exists a.
Qed.

Lemma add_custom_price_trade_Ok e o executed fee sp bp e' ex :
  add_custom_price_trade e o executed fee sp bp = Ok (e', ex) ->
  executed_amounts (mkTrade o executed fee) sp bp = Some ex /\
  e' = push_trade e (mkEncoderTrade (mkTrade o executed fee) (CustomPrice sp bp)).
Proof.
  unfold add_custom_price_trade. intros H. do 2 apply rbind_Ok in H as (? & ? & H). inv_ok. by simplify_eq.
Qed.

(** The amounts each class of orders is settled at. *)
Definition agreed_amounts (o : Order) (executed fee usp ubp : Z) : Z * Z :=
  match class (metadata o), kind (data o) with
  | Market, Sell => (executed, cdiv (executed * usp) ubp)
  | Market, Buy => (executed * ubp / usp, executed)
  | Limit, Sell => (executed + fee, cdiv (executed * usp) ubp)
  | Limit, Buy => (executed * ubp / usp + fee, executed)
  | Liquidity, Sell => (executed, cdiv (executed * buy_amount (data o)) (sell_amount (data o)))
  | Liquidity, Buy => (executed * sell_amount (data o) / buy_amount (data o), executed)
  end.

Lemma custom_price_for_limit_order_Ok e o executed fee sp bp :
  custom_price_for_limit_order e o executed fee = Ok (sp, bp) ->
  exists usp ubp, prices e !! sell_token (data o) = Some usp /\ prices e !! buy_token (data o) = Some ubp /\
    match kind (data o) with
    | Buy => sp = executed /\ bp = executed * ubp / usp + fee /\ usp <> 0
    | Sell => sp = cdiv ((executed - fee) * usp) ubp /\ bp = executed /\ fee <= executed /\ 1 <= ubp
    end.
Proof.
  unfold custom_price_for_limit_order. intros H. do 2 (case_match; [done|]).
  apply rbind_Ok in H as (ubp & Hb & H). apply rbind_Ok in H as (usp & Hs & H).
  apply rbind_Ok in H as ([sa ba] & Ha & [= <- <-]). inv_ok. exists usp, ubp. split_and!; [done..|].
  destruct (kind (data o)); apply rbind_Ok in Ha as (x & Hx & Ha); apply rbind_Ok in Ha as (y & Hy & Ha);
    apply rbind_Ok in Ha as (z & Hz & [= <- <-]); inv_ok.
  - apply checked_mul_Some in Hx as [-> _]. apply checked_div_Some in Hy as [-> ?].
    by apply checked_add_Some in Hz as [-> _].
  - apply checked_sub_Some in Hx as [-> ?]. apply checked_mul_Some in Hy as [-> _].
    by apply checked_ceil_div_cdiv in Hz as [-> ?].
Qed.

Lemma add_trade_Ok e o executed fee e' ex : add_trade e o executed fee = Ok (e', ex) ->
  exists usp ubp,
    (class (metadata o) <> Liquidity ->
      prices e !! sell_token (data o) = Some usp /\ prices e !! buy_token (data o) = Some ubp) /\
    (execution_sell_amount ex, execution_buy_amount ex) = agreed_amounts o executed fee usp ubp.
Proof.
  unfold add_trade, agreed_amounts. intros H. apply rbind_Ok in H as ([e1 ex1] & H & [= _ ->]).
  destruct (class (metadata o)).
  - unfold add_market_trade in H. apply rbind_Ok in H as (_ & _ & H).
    apply rbind_Ok in H as (usp & Hs & H). apply rbind_Ok in H as (i & _ & H).
    apply rbind_Ok in H as (ubp & Hb & H). apply rbind_Ok in H as (j & _ & H).
    apply rbind_Ok in H as (ex' & H & [= _ <-]). inv_ok. exists usp, ubp. split; [done|].
    apply executed_amounts_Some in H as (a & Ha & -> & -> & _). apply traded_amounts_Some in Ha. cbn in Ha.
    destruct (kind (data o)); by destruct Ha as [-> _].
  - apply add_custom_price_trade_Ok in H as [H _]. exists 0, 0. split; [done|].
    apply executed_amounts_Some in H as (a & Ha & -> & -> & _). apply traded_amounts_Some in Ha. cbn in Ha.
    destruct (kind (data o)); by destruct Ha as [-> _].
  - apply rbind_Ok in H as (executed' & Hex & H). apply rbind_Ok in H as ([sp bp] & Hp & H).
    apply custom_price_for_limit_order_Ok in Hp as (usp & ubp & Hs & Hb & Hp). exists usp, ubp. split; [done|].
    apply add_custom_price_trade_Ok in H as [H _].
    apply executed_amounts_Some in H as (a & Ha & -> & -> & _). apply traded_amounts_Some in Ha. cbn in Ha.
    destruct (kind (data o)).
    + injection Hex as <-. destruct Hp as (-> & -> & _), Ha as [-> Hne]. cbn. f_equal.
      by rewrite Z.mul_comm, Z.div_mul.
    + inv_ok. apply checked_add_Some in Hex as [-> _]. destruct Hp as (-> & -> & _), Ha as [-> Hne]. cbn. f_equal.
      rewrite cdiv_mul by done. by replace (executed + fee - fee) with executed by lia.
Qed.

(** * Properties *)

(** C16: whatever trades, equivalences, interactions and unwraps a solver puts into
    an encoder, finishing it does not panic, and in the encoded settlement the
    contract executes for every trade, in their order, exactly the tokens, the
    amounts and the fee that [add_trade] had announced: re-sorting the tokens,
    dropping unused prices and appending the prices of limit and liquidity
    orders leave no index pointing at a wrong price. *)
Theorem settlement_executes_trades_as_added (clearing_prices : gmap Z Z) (ops : list Op)
    (e : SettlementEncoder) (exs : list TradeExecution) (withdraw : Z -> list byte) (strategy : InternalizationStrategy) :
  run clearing_prices ops = Ok (e, exs) ->
  exists s, finish withdraw e strategy = Ok s /\
    Forall2 (fun t ex => settled_execution s t = Some ex) (trades s) exs.
Proof.
  intros H%run_consistent. destruct (total_Ok _ _ (finish_total _ _ withdraw strategy H)) as (s & Hs & Hex & _).
  by exists s.
Qed.

(** The documented invariant of the encoder, that the tokens are the sorted keys
    of the clearing prices and that indexed trades point at their own tokens,
    holds after any sequence of operations, and under it adding a trade or an
    equivalence never panics and every trade has a price. *)
Theorem encoder_tokens_are_sorted_keys (clearing_prices : gmap Z Z) (ops : list Op)
    (e : SettlementEncoder) (exs : list TradeExecution) :
  run clearing_prices ops = Ok (e, exs) ->
  encoder_ok e /\
  (forall o executed fee, add_trade e o executed fee <> Panic) /\
  (forall a b, add_token_equivalency e a b <> Panic) /\
  exists ps, all_trades e = Ok ps /\ map priced ps = map trade_data (encoder_trades e).
Proof.
  intros H%run_consistent. split_and!.
  - apply H.
  - intros o executed fee. by eapply (returns_panic_free _ _ (add_trade_consistent _ _ _ _ _ H)).
  - intros a b. by eapply (returns_panic_free _ _ (add_token_equivalency_consistent _ _ _ _ H)).
  - destruct H as [[_ Hk Hok] _]. unfold all_trades. induction Hok as [|t l Ht _ (ps & IH & Hps)]; [by exists []|].
    cbn [rmap map]. rewrite IH. destruct t as [d [i j|sp bp]]; cbn [compute_trade_token_prices trade_tokens trade_data].
    + destruct Ht as (Hi & Hj & _). rewrite Hi, Hj. cbn [opt_expect rbind].
      destruct (proj1 (Hk _) (list_elem_of_lookup_2 _ _ _ Hi)) as [x ->].
      destruct (proj1 (Hk _) (list_elem_of_lookup_2 _ _ _ Hj)) as [y ->]. cbn.
      eexists. split; [done|]. cbn. by f_equal.
    + eexists. split; [done|]. cbn. by f_equal.
Qed.

(** Each class of orders is settled at its own prices: a market order at the
    uniform ones, a liquidity order at its limit, and a limit order so that on
    top of the uniform prices exactly the solver's fee goes to the protocol, in
    the sell token. *)
Theorem trades_execute_at_agreed_prices (e e' : SettlementEncoder) (o : Order) (executed fee : Z) (ex : TradeExecution) :
  add_trade e o executed fee = Ok (e', ex) ->
  exists usp ubp,
    (class (metadata o) <> Liquidity ->
      prices e !! sell_token (data o) = Some usp /\ prices e !! buy_token (data o) = Some ubp) /\
    (execution_sell_amount ex, execution_buy_amount ex) = agreed_amounts o executed fee usp ubp.
Proof. apply add_trade_Ok. Qed.

(** * Witnesses *)
Section witnesses.
Let order_of (cl : OrderClass) (k : OrderKind) (sell buy sell_amount buy_amount : Z) : Order :=
  ModelOrder.mkOrder (mkOrderMetadata 0 9 0 0 0 0 0 0 false Open cl 0 0 0 None None None None)
    (mkOrderData sell buy None sell_amount buy_amount 100 (be_bytes 32 0) 0 k true SellErc20 BuyErc20)
    PreSign (mkInteractions [] []).
Let p : gmap Z Z := {[5 := 2; 7 := 3]}.
(** A market order, an equivalence that moves its indices, a limit order with a
    fee and a liquidity order. *)
Let ops : list Op :=
  [AddTrade (order_of Market Sell 5 7 100 60) 90 0;
   AddTokenEquivalency 5 1;
   AddTrade (order_of Limit Sell 7 5 100 60) 90 10;
   AddTrade (order_of Liquidity Buy 5 7 30 20) 20 0].
Let executions : list TradeExecution :=
  [mkTradeExecution 5 7 90 60 0; mkTradeExecution 7 5 100 135 0; mkTradeExecution 5 7 30 20 0].
Let e : SettlementEncoder :=
  match run p ops with Ok (e, _) => e | _ => new ∅ end.

Example run_of_ops : run p ops = Ok (e, executions).
Proof. vm_compute. reflexivity. Qed.

(** The equivalent token is dropped again; the prices of the custom trades follow. *)
Example finished : res_map (fun s => (tokens s, clearing_prices s)) (finish (fun _ => []) e Unknown) =
  Ok ([5; 7; 7; 5; 5; 7], [2; 3; 135; 100; 20; 30]).
Proof. vm_compute. reflexivity. Qed.

Lemma settlement_executes_trades_as_added_witness :
  exists s, finish (fun _ => []) e Unknown = Ok s /\
    Forall2 (fun t ex => settled_execution s t = Some ex) (trades s) executions.
Proof. apply (settlement_executes_trades_as_added p ops). vm_compute. reflexivity. Defined.

Lemma encoder_tokens_are_sorted_keys_witness : encoder_ok e.
Proof. refine (proj1 (encoder_tokens_are_sorted_keys p ops e executions _)). vm_compute. reflexivity. Defined.

Lemma trades_execute_at_agreed_prices_witness :
  exists e' ex usp ubp,
    add_trade (new p) (order_of Limit Sell 7 5 100 60) 90 10 = Ok (e', ex) /\
    (execution_sell_amount ex, execution_buy_amount ex) = (90 + 10, cdiv (90 * usp) ubp).
Proof.
  destruct (add_trade (new p) (order_of Limit Sell 7 5 100 60) 90 10) as [[e' ex]|err|] eqn:H; [|vm_compute in H; discriminate..].
  destruct (trades_execute_at_agreed_prices _ _ _ _ _ _ H) as (usp & ubp & _ & Ha).
  exists e', ex, usp, ubp. split; [reflexivity|exact Ha].
Defined.
End witnesses.
