(* ===== verification/DecodedSettlement.v ===== *)
(** Settlements as the autopilot decodes them when it indexes settlement events:
    crates/autopilot/src/decoded_settlement.rs, with the external prices of
    crates/shared/src/external_prices.rs.

    The decoding of call data, the hash function and the recovery of signers
    are parameters. *)
From Stdlib Require Import ZArith Lia QArith Qcanon.
From stdpp Require Import prelude gmap numbers.
From S2P Require Import Prelude U256 Bytes ModelOrder SettlementEncoder.

Open Scope Z_scope.
Open Scope rust_scope.
Import ModelSignature ModelOrder.

(** * crates/shared/src/external_prices.rs *)
Module ExternalPrices.
Definition ExternalPrices : Type := gmap Z Qc.

Definition with_native (xrates : ExternalPrices) (token : Z) : res unit ExternalPrices :=
  match xrates !! token with
  | Some price => if decide (price = 1%Qc) then Ok xrates else Err tt
  | None => Ok (<[token := 1%Qc]> xrates)
  end.
(** The native token and its wrapper have the price one. *)
Definition new (native_token : Z) (xrates : ExternalPrices) : res unit ExternalPrices :=
  let* xrates := with_native xrates native_token in with_native xrates BUY_ETH_ADDRESS.
Definition UNIT : Z := 1000000000000000000.
Definition to_native_xrate (price : Z) : Qc := (u256_to_big_rational price / Qc_of_Z UNIT)%Qc.
Definition try_from_auction_prices (native_token : Z) (prices : gmap Z Z) : res unit ExternalPrices :=
  new native_token (to_native_xrate <$> prices).
Definition try_get_native_amount (self : ExternalPrices) (token : Z) (amount : Qc) : option Qc :=
  price ← self !! token; Some (price * amount)%Qc.
Definition get_native_amount (self : ExternalPrices) (token : Z) (amount : Qc) : res unit Qc :=
  opt_expect (try_get_native_amount self token amount).
(** [checked_div] *)
Definition try_get_token_amount (self : ExternalPrices) (amount : Qc) (token : Z) : option Qc :=
  price ← self !! token; if decide (price = 0%Qc) then None else Some (amount / price)%Qc.
Definition get_token_amount (self : ExternalPrices) (amount : Qc) (token : Z) : res unit Qc :=
  opt_expect (try_get_token_amount self amount token).
End ExternalPrices.

(** * decoded_settlement.rs *)
Module DecodedSettlement.
Import EncodedSettlement ExternalPrices.

(** [TradeFlags]; [as_u8] is the lowest byte. *)
Definition as_u8 (flags : Z) : Z := Z.land flags 255.
Definition order_kind (flags : Z) : OrderKind := if Z.land (as_u8 flags) 1 =? 0 then Sell else Buy.
Definition flags_partially_fillable (flags : Z) : bool := negb (Z.land (as_u8 flags) 2 =? 0).
Definition flags_sell_token_balance (flags : Z) : SellTokenSource :=
  if Z.land (as_u8 flags) 8 =? 0 then SellErc20
  else if Z.land (as_u8 flags) 4 =? 0 then SellExternal else SellInternal.
Definition flags_buy_token_balance (flags : Z) : BuyTokenDestination :=
  if Z.land (as_u8 flags) 16 =? 0 then BuyErc20 else BuyInternal.
Definition signing_scheme (flags : Z) : SigningScheme :=
  match Z.land (Z.shiftr (as_u8 flags) 5) 3 with
  | 0 => SEip712
  | 1 => SEthSign
  | 2 => SEip1271
  | _ => SPreSign
  end.

(** The decoded tuple of a trade, with what is recovered from it. *)
Record DecodedTrade : Type := mkDecodedTrade {
  order_uid : Z;
  raw : EncodedTrade;
  signature : Signature;
}.
Record DecodedSettlement : Type := mkDecodedSettlement {
  tokens : list Z;
  clearing_prices : list Z;
  trades : list DecodedTrade;
  interactions : list EncodedInteraction * list EncodedInteraction * list EncodedInteraction;
  metadata : option (list byte);
}.

(** [U256::as_u64], which panics on more than 64 bits, as an index. *)
Definition as_index {E} (i : Z) : res E nat := if i <? 2 ^ 64 then Ok (Z.to_nat i) else Panic.
Definition index {E A} (l : list A) (i : Z) : res E A := let* n := as_index i in opt_expect (l !! n).

Inductive DecodingError : Type := InvalidSelector | Other.
Definition META_DATA_LEN : nat := 8.

Section decoding.
Context (keccak256 : list byte -> list byte) (ec_recover : list byte -> Z -> Z -> Z -> option Z).

Definition decoded_order (trade : EncodedTrade) (sell_token buy_token : Z) : OrderData :=
  let f := flags trade in
  mkOrderData sell_token buy_token (Some (trade_receiver trade)) (trade_sell_amount trade) (trade_buy_amount trade)
    (trade_valid_to trade) (trade_app_data trade) (trade_fee_amount trade) (order_kind f)
    (flags_partially_fillable f) (flags_sell_token_balance f) (flags_buy_token_balance f).
Definition new_trade (trade : EncodedTrade) (domain_separator : list byte) (tokens : list Z) : res unit DecodedTrade :=
  let* sell_token := index tokens (sell_token_index trade) in
  let* buy_token := index tokens (buy_token_index trade) in
  let order := decoded_order trade sell_token buy_token in
  let* signature := from_bytes (signing_scheme (flags trade)) (trade_signature trade) in
  let* owner := recover_owner keccak256 ec_recover signature (trade_signature trade) domain_separator
    (hash_struct keccak256 order) in
  Ok (mkDecodedTrade (uid keccak256 order domain_separator owner) trade signature).

(** [filter_map(.. .ok())]: trades that cannot be decoded are left out. *)
Fixpoint new_trades (l : list EncodedTrade) (domain_separator : list byte) (tokens : list Z) : res unit (list DecodedTrade) :=
  match l with
  | [] => Ok []
  | t :: l =>
      match new_trade t domain_separator tokens with
      | Ok d => let* ds := new_trades l domain_separator tokens in Ok (d :: ds)
      | Err _ => new_trades l domain_separator tokens
      | Panic => Panic
      end
  end.

Context (selector : list byte) (decode_input : list byte -> option EncodedSettlement).

Definition try_new (calldata : list byte) (domain_separator : list byte) (with_metadata : bool)
  : res unit DecodedSettlement :=
  if with_metadata && negb (length calldata mod 32 =? META_DATA_LEN)%nat then Err tt
  else
    let metadata_len := if with_metadata then META_DATA_LEN else 0%nat in
    let at_ := (length calldata - metadata_len)%nat in
    let metadata := drop at_ calldata in
    let* decoded := opt (decode_input (take at_ calldata)) in
    let* trades := new_trades (EncodedSettlement.trades decoded) domain_separator (EncodedSettlement.tokens decoded) in
    Ok (mkDecodedSettlement (EncodedSettlement.tokens decoded) (EncodedSettlement.clearing_prices decoded) trades
      (EncodedSettlement.interactions decoded)
      (if bool_decide (length metadata = META_DATA_LEN) then Some metadata else None)).
Definition strip_prefix (prefix l : list byte) : option (list byte) :=
  if decide (take (length prefix) l = prefix) then Some (drop (length prefix) l) else None.
Definition new (input : list byte) (domain_separator : list byte) : res DecodingError DecodedSettlement :=
  let* without_selector := ok_or (strip_prefix selector input) InvalidSelector in
  match try_new without_selector domain_separator true with
  | Ok decoded => Ok decoded
  | Err _ => map_err (fun _ => Other) (try_new without_selector domain_separator false)
  | Panic => Panic
  end.
End decoding.

(** ** Surplus *)
Definition buy_order_surplus (sell_token_price buy_token_price sell_amount_limit buy_amount_limit executed_buy_amount : Qc)
  : option Qc :=
  if decide (buy_amount_limit = 0%Qc) then None
  else
    let limit_sell_amount := (executed_buy_amount * sell_amount_limit / buy_amount_limit)%Qc in
    let res := (limit_sell_amount * sell_token_price - executed_buy_amount * buy_token_price)%Qc in
    if decide (res < 0)%Qc then None else Some res.
Definition sell_order_surplus (sell_token_price buy_token_price sell_amount_limit buy_amount_limit executed_sell_amount : Qc)
  : option Qc :=
  if decide (sell_amount_limit = 0%Qc) then None
  else
    let limit_buy_amount := (executed_sell_amount * buy_amount_limit / sell_amount_limit)%Qc in
    let res := (executed_sell_amount * sell_token_price - limit_buy_amount * buy_token_price)%Qc in
    if decide (res < 0)%Qc then None else Some res.
Definition trade_surplus (kind : OrderKind)
    (sell_amount buy_amount executed_amount sell_token_price buy_token_price : Qc) : option Qc :=
  match kind with
  | Buy => buy_order_surplus sell_token_price buy_token_price sell_amount buy_amount executed_amount
  | Sell => sell_order_surplus sell_token_price buy_token_price sell_amount buy_amount executed_amount
  end.
Local Abbreviation q := u256_to_big_rational (only parsing).
Definition surplus (trade : DecodedTrade) (tokens clearing_prices : list Z) (external_prices : ExternalPrices)
  : res unit Z :=
  let* sell_token_index := as_index (sell_token_index (raw trade)) in
  let* buy_token_index := as_index (buy_token_index (raw trade)) in
  let* sell_token_clearing_price := res_map q (opt (clearing_prices !! sell_token_index)) in
  let* buy_token_clearing_price := res_map q (opt (clearing_prices !! buy_token_index)) in
  let kind := order_kind (flags (raw trade)) in
  if decide (match kind with Sell => buy_token_clearing_price | Buy => sell_token_clearing_price end = 0%Qc) then Err tt
  else
    let* surplus := opt (trade_surplus kind (q (trade_sell_amount (raw trade))) (q (trade_buy_amount (raw trade)))
      (q (trade_executed_amount (raw trade))) sell_token_clearing_price buy_token_clearing_price) in
    let* normalized_surplus :=
      match kind with
      | Sell =>
          let* buy_token := opt (tokens !! buy_token_index) in
          opt (try_get_native_amount external_prices buy_token (surplus / buy_token_clearing_price)%Qc)
      | Buy =>
          let* sell_token := opt (tokens !! sell_token_index) in
          opt (try_get_native_amount external_prices sell_token (surplus / sell_token_clearing_price)%Qc)
      end in
    opt (big_rational_to_u256 normalized_surplus).
Definition is_eligible (eligible_orders eligible_owners : gset Z) (trade : DecodedTrade) : bool :=
  bool_decide (order_uid trade ∈ eligible_orders) ||
  bool_decide ((OrderUid.parts (order_uid trade)).1.2 ∈ eligible_owners).
(** A surplus that cannot be computed counts as zero. *)
Definition or_zero (r : res unit Z) : res unit Z := match r with Err _ => Ok 0 | r => r end.
Definition total_surplus (self : DecodedSettlement) (external_prices : ExternalPrices)
    (eligible_orders eligible_owners : gset Z) : res unit Z :=
  rfold (fun acc trade =>
      let* s := or_zero (surplus trade (tokens self) (clearing_prices self) external_prices) in u_add acc s)
    0 (List.filter (is_eligible eligible_orders eligible_owners) (trades self)).

(** ** Fees *)
Inductive FeeKind : Type := User | Surplus.
Record Fees : Type := mkFees { fees_order : Z; fees_kind : FeeKind; fees_sell : Z; fees_native : Z }.
Definition executed_surplus_fee (self : Fees) : option Z :=
  match fees_kind self with User => None | Surplus => Some (fees_sell self) end.

Definition position (l : list Z) (t : Z) : option nat := fst <$> list_find (eq t) l.
(** The fee of an order that signed none: what its own prices are worse by. *)
Definition surplus_fee (kind : OrderKind)
    (executed_amount adjusted_sell_price adjusted_buy_price uniform_sell_price uniform_buy_price : Z) : option Z :=
  match kind with
  | Buy =>
      required_sell_amount ← checked_mul executed_amount adjusted_buy_price ≫= fun p => checked_div p adjusted_sell_price;
      required_sell_amount_with_ucp ← checked_mul executed_amount uniform_buy_price ≫= fun p => checked_div p uniform_sell_price;
      checked_sub required_sell_amount required_sell_amount_with_ucp
  | Sell =>
      received_buy_amount ← checked_mul executed_amount adjusted_sell_price ≫= fun p => checked_div p adjusted_buy_price;
      sell_amount_needed_with_ucp ← checked_mul received_buy_amount uniform_buy_price ≫= fun p => checked_div p uniform_sell_price;
      checked_sub executed_amount sell_amount_needed_with_ucp
  end.
Definition fee (self : DecodedSettlement) (trade : DecodedTrade) (external_prices : ExternalPrices) : res unit Fees :=
  let* sell_index := as_index (sell_token_index (raw trade)) in
  let* buy_index := as_index (buy_token_index (raw trade)) in
  let* sell_token := opt (tokens self !! sell_index) in
  let* buy_token := opt (tokens self !! buy_index) in
  let* ' (kind, fee) :=
    if negb (trade_fee_amount (raw trade) =? 0) then Ok (User, trade_fee_amount (raw trade))
    else
      let* adjusted_sell_price := opt (clearing_prices self !! sell_index) in
      let* adjusted_buy_price := opt (clearing_prices self !! buy_index) in
      let* sell_index := opt (position (tokens self) sell_token) in
      let* buy_index := opt (position (tokens self) buy_token) in
      let* uniform_sell_price := opt (clearing_prices self !! sell_index) in
      let* uniform_buy_price := opt (clearing_prices self !! buy_index) in
      let* fee := opt (surplus_fee (order_kind (flags (raw trade))) (trade_executed_amount (raw trade))
        adjusted_sell_price adjusted_buy_price uniform_sell_price uniform_buy_price) in
      Ok (Surplus, fee) in
  let* native := opt (try_get_native_amount external_prices sell_token (q fee)) in
  let* native := opt (big_rational_to_u256 native) in
  Ok (mkFees (order_uid trade) kind fee native).
Definition all_fees (self : DecodedSettlement) (external_prices : ExternalPrices) : res unit (list Fees) :=
  rmap (fun trade =>
    match fee self trade external_prices with
    | Err _ => Ok (mkFees (order_uid trade) User 0 0)
    | r => r
    end) (trades self).
End DecodedSettlement.

(** * Lemmas *)
Import EncodedSettlement DecodedSettlement.

(** ** Flags *)
Lemma flags_decoded o s :
  let f := order_flags o s in
  order_kind f = kind o /\ flags_partially_fillable f = partially_fillable o /\
  flags_sell_token_balance f = sell_token_balance o /\ flags_buy_token_balance f = buy_token_balance o /\
  signing_scheme f = scheme s.
Proof.
  unfold order_flags. destruct (kind o), (partially_fillable o), (sell_token_balance o), (buy_token_balance o), s; by cbv.
Qed.

(** ** A trade *)
Section trade.
Context (keccak256 : list byte -> list byte) (ec_recover : list byte -> Z -> Z -> Z -> option Z).

Lemma hash_struct_signed_as o : hash_struct keccak256 (signed_as o) = hash_struct keccak256 o.
Proof. by destruct o. Qed.

Lemma uid_signed_as o dom owner : uid keccak256 (signed_as o) dom owner = uid keccak256 o dom owner.
Proof. unfold uid. by rewrite hash_struct_signed_as. Qed.

Lemma decoded_order_encoded o sig owner i j executed :
  decoded_order (encode_trade o sig owner i j executed) (sell_token o) (buy_token o) = signed_as o.
Proof.
  unfold decoded_order. cbn [encode_trade flags]. destruct (flags_decoded o sig) as (-> & -> & -> & -> & _).
  by destruct o.
Qed.

Lemma index_Some {E A} (l : list A) i a :
  Z.of_nat (length l) < 2 ^ 64 -> l !! i = Some a -> (index l (Z.of_nat i) : res E A) = Ok a.
Proof.
  intros Hlen Hi. pose proof (lookup_lt_Some _ _ _ Hi). unfold index, as_index.
  destruct (Z.ltb_spec (Z.of_nat i) (2 ^ 64)); [|lia]. cbn. by rewrite Nat2Z.id, Hi.
Qed.

(** The signature of a contract order is decoded with the owner in front. *)
Definition with_owner (sig : Signature) (owner : Z) : Signature :=
  match sig with Eip1271 l => Eip1271 (be_bytes 20 owner ++ l) | sig => sig end.

Lemma from_bytes_encoded sig owner : signature_ok sig ->
  from_bytes (scheme sig) (encode_for_settlement sig owner) = Ok (with_owner sig owner).
Proof.
  intros Hok. pose proof (signature_roundtrip _ Hok) as H. by destruct sig.
Qed.

Lemma recover_owner_with_owner sig owner dom h : owner_of keccak256 ec_recover sig dom h owner ->
  recover_owner keccak256 ec_recover (with_owner sig owner) (encode_for_settlement sig owner) dom h = Ok owner.
Proof. intros H%recover_owner_encoded. by destruct sig. Qed.

Lemma new_trade_encoded o sig owner i j executed dom toks :
  signature_ok sig -> owner_of keccak256 ec_recover sig dom (hash_struct keccak256 o) owner ->
  Z.of_nat (length toks) < 2 ^ 64 -> toks !! i = Some (sell_token o) -> toks !! j = Some (buy_token o) ->
  let t := encode_trade o sig owner i j executed in
  new_trade keccak256 ec_recover t dom toks =
  Ok (mkDecodedTrade (uid keccak256 o dom owner) t (with_owner sig owner)).
Proof.
  intros Hsig Hown Hlen Hi Hj t. subst t. unfold new_trade. cbn [encode_trade sell_token_index buy_token_index].
  rewrite (index_Some _ _ _ Hlen Hi), (index_Some _ _ _ Hlen Hj). cbn [rbind].
  fold (encode_trade o sig owner i j executed). rewrite decoded_order_encoded.
  change (flags _) with (order_flags o sig). change (trade_signature _) with (encode_for_settlement sig owner).
  destruct (flags_decoded o sig) as (_ & _ & _ & _ & ->).
  rewrite from_bytes_encoded by done. cbn [rbind]. rewrite hash_struct_signed_as.
  rewrite recover_owner_with_owner by exact Hown. cbn [rbind]. by rewrite uid_signed_as.
Qed.

(** An order carries the signature of its owner. *)
Definition authentic (dom : list byte) (o : Order) : Prop :=
  signature_ok (ModelOrder.signature o) /\
  owner_of keccak256 ec_recover (ModelOrder.signature o) dom (hash_struct keccak256 (data o))
    (owner (ModelOrder.metadata o)).
Definition uid_of (dom : list byte) (o : Order) : Z :=
  uid keccak256 (data o) dom (owner (ModelOrder.metadata o)).

Lemma new_trades_encoded dom s es ts :
  Z.of_nat (length (EncodedSettlement.tokens s)) < 2 ^ 64 ->
  Forall2 (encoded_in s) es ts -> Forall (authentic dom) (map Settlement.order ts) ->
  exists ds, new_trades keccak256 ec_recover es dom (EncodedSettlement.tokens s) = Ok ds /\
    map order_uid ds = map (uid_of dom) (map Settlement.order ts) /\ map raw ds = es.
Proof.
  intros Hlen. induction 1 as [|e t es ts (i & j & -> & Hi & Hj) _ IH]; intros Hauth; [by exists []|].
  apply Forall_cons_1 in Hauth as [[Hsig Hown] Hauth]. destruct (IH Hauth) as (ds & Hds & Hu & Hr).
  cbn [new_trades]. unfold Settlement.encode at 1. rewrite new_trade_encoded by done. rewrite Hds. cbn.
  eexists. split; [done|]. cbn. by rewrite Hu, Hr.
Qed.

(** ** The call data *)
Lemma new_decoded selector decode_input dom args meta s ds :
  decode_input args = Some s -> (length args mod 32 = 0)%nat -> length meta = META_DATA_LEN ->
  new_trades keccak256 ec_recover (EncodedSettlement.trades s) dom (EncodedSettlement.tokens s) = Ok ds ->
  new keccak256 ec_recover selector decode_input (selector ++ args ++ meta) dom =
  Ok (mkDecodedSettlement (EncodedSettlement.tokens s) (EncodedSettlement.clearing_prices s) ds
        (EncodedSettlement.interactions s) (Some meta)).
Proof.
  intros Hdec Hlen Hmeta Hds. unfold new, strip_prefix. rewrite take_app_length, drop_app_length.
  rewrite decide_True by done. cbn [ok_or rbind]. unfold try_new at 1.
  assert (Hl : (length (args ++ meta) mod 32 =? META_DATA_LEN)%nat = true).
  { rewrite length_app, Hmeta, <- Nat.Div0.add_mod_idemp_l, Hlen. done. }
  rewrite Hl. cbn [andb negb]. rewrite length_app, Hmeta, Nat.add_sub.
  rewrite take_app_length, drop_app_length, Hdec. cbn [opt ok_or rbind]. rewrite Hds. cbn [rbind].
  by rewrite bool_decide_true.
Qed.
End trade.

(** ** Fees *)
(** The fee read off the prices of a limit order is the one they were made for,
    up to the rounding of one unit of the buy token. *)
Lemma surplus_fee_recovered e o executed fee sp bp usp ubp :
  SettlementEncoder.custom_price_for_limit_order e o executed fee = Ok (sp, bp) ->
  SettlementEncoder.prices e !! sell_token (data o) = Some usp -> SettlementEncoder.prices e !! buy_token (data o) = Some ubp ->
  0 < executed -> 0 <= fee -> 0 < usp -> 0 < ubp ->
  executed * bp <= U256_MAX -> executed * sp <= U256_MAX -> sp * ubp <= U256_MAX ->
  (kind (data o) = Sell -> (ubp - 1) / usp <= fee) ->
  exists f, surplus_fee (kind (data o)) executed sp bp usp ubp = Some f /\
    match kind (data o) with Buy => f = fee | Sell => fee - (ubp - 1) / usp <= f <= fee end.
Proof.
  intros H Hs Hb Hex Hfee Husp Hubp H1 H2 H3 Hround.
  assert (Hne : executed <> 0 /\ usp <> 0) by lia. destruct Hne as [Hexe Huspne].
  apply custom_price_for_limit_order_Ok in H as (usp' & ubp' & Hs' & Hb' & H).
  rewrite Hs in Hs'. rewrite Hb in Hb'. injection Hs' as <-. injection Hb' as <-. unfold surplus_fee.
  destruct (kind (data o)).
  - destruct H as (-> & -> & _). rewrite (proj2 (checked_mul_Some _ _ _) (conj eq_refl H1)). cbn [mbind option_bind].
    rewrite (proj2 (checked_div_Some _ executed _) (conj eq_refl Hexe)). cbn [mbind option_bind].
    rewrite (proj2 (checked_mul_Some _ _ _) (conj eq_refl H3)). cbn [mbind option_bind].
    rewrite (proj2 (checked_div_Some _ usp _) (conj eq_refl Huspne)). cbn [mbind option_bind].
    rewrite (Z.mul_comm executed (_ + _)), Z.div_mul by lia. exists fee. split; [|done].
    apply checked_sub_Some. lia.
  - destruct H as (Hsp & -> & Hle & _). rewrite (proj2 (checked_mul_Some _ _ _) (conj eq_refl H2)). cbn [mbind option_bind].
    rewrite (proj2 (checked_div_Some _ executed _) (conj eq_refl Hexe)). cbn [mbind option_bind].
    rewrite (Z.mul_comm executed sp), Z.div_mul by lia.
    rewrite (proj2 (checked_mul_Some _ _ _) (conj eq_refl H3)). cbn [mbind option_bind].
    rewrite (proj2 (checked_div_Some _ usp _) (conj eq_refl Huspne)). cbn [mbind option_bind].
    specialize (Hround eq_refl). set (x := executed - fee) in *.
    pose proof (cdiv_spec (x * usp) ubp Hubp) as Hc. rewrite <- Hsp in Hc.
    assert (Hn : x <= sp * ubp / usp <= x + (ubp - 1) / usp).
    { split; [apply Z.div_le_lower_bound; lia|].
      rewrite <- Z.div_add_l by lia. apply Z.div_le_mono; lia. }
    exists (executed - sp * ubp / usp). split; [apply checked_sub_Some; lia|]. subst x. lia.
Qed.

(** * Properties *)

(** C20: the autopilot recovers from the call data of a settlement the orders that
    were settled: when the orders added to an encoder carry the signatures of
    their owners, decoding the encoded settlement with the appended metadata
    gives, for every order added and in their order, its uid, together with the
    tokens, the prices and the metadata. *)
Theorem settled_orders_are_decoded keccak256 ec_recover selector decode_input dom withdraw strategy
    (clearing_prices : gmap Z Z) (ops : list EncoderSpec.Op) e exs s (args meta : list byte) :
  EncoderSpec.run clearing_prices ops = Ok (e, exs) ->
  Forall (authentic keccak256 ec_recover dom) (concat (map added ops)) ->
  SettlementEncoder.finish withdraw e strategy = Ok s ->
  Z.of_nat (length (EncodedSettlement.tokens s)) < 2 ^ 64 ->
  decode_input args = Some s -> (length args mod 32 = 0)%nat -> length meta = META_DATA_LEN ->
  exists d, DecodedSettlement.new keccak256 ec_recover selector decode_input (selector ++ args ++ meta) dom = Ok d /\
    map order_uid (trades d) = map (uid_of keccak256 dom) (concat (map added ops)) /\
    map raw (trades d) = EncodedSettlement.trades s /\ metadata d = Some meta /\
    tokens d = EncodedSettlement.tokens s /\ DecodedSettlement.clearing_prices d = EncodedSettlement.clearing_prices s.
Proof.
  intros Hrun Hauth Hfin Hlen Hdec Hmod Hmeta. pose proof (run_orders _ _ _ _ Hrun) as Ho.
  rewrite orders_trade_data in Ho. rewrite <- Ho in Hauth |- *.
  pose proof (finish_total _ _ withdraw strategy (run_consistent _ _ _ _ Hrun)) as Ht. rewrite Hfin in Ht.
  destruct Ht as [_ Henc]. destruct (new_trades_encoded _ _ _ _ _ _ Hlen Henc Hauth) as (ds & Hds & Hu & Hr).
  eexists. split; [by apply new_decoded|]. by cbn.
Qed.

(** The fee the autopilot reads off a settlement is the one the solver took: for
    a limit order that an encoder priced for a fee, settled at these prices
    next to the uniform ones, the decoded fee is a surplus fee in the sell
    token of exactly the amount for a buy order, and for a sell order of at
    most the amount, short of it by no more than one unit of the buy token is
    worth. *)
Theorem limit_order_fee_is_recovered e o executed fee sp bp usp ubp
    (d : DecodedSettlement) (t : DecodedTrade) external_prices i j ui uj :
  SettlementEncoder.custom_price_for_limit_order e o executed fee = Ok (sp, bp) ->
  SettlementEncoder.prices e !! sell_token (data o) = Some usp ->
  SettlementEncoder.prices e !! buy_token (data o) = Some ubp ->
  0 < executed -> 0 <= fee -> 0 < usp -> 0 < ubp ->
  executed * bp <= U256_MAX -> executed * sp <= U256_MAX -> sp * ubp <= U256_MAX ->
  (kind (data o) = Sell -> (ubp - 1) / usp <= fee) ->
  order_kind (flags (raw t)) = kind (data o) -> trade_executed_amount (raw t) = executed ->
  trade_fee_amount (raw t) = 0 ->
  as_index (sell_token_index (raw t)) = (Ok i : res unit nat) ->
  as_index (buy_token_index (raw t)) = (Ok j : res unit nat) ->
  tokens d !! i = Some (sell_token (data o)) -> tokens d !! j = Some (buy_token (data o)) ->
  DecodedSettlement.clearing_prices d !! i = Some sp -> DecodedSettlement.clearing_prices d !! j = Some bp ->
  position (tokens d) (sell_token (data o)) = Some ui -> position (tokens d) (buy_token (data o)) = Some uj ->
  DecodedSettlement.clearing_prices d !! ui = Some usp -> DecodedSettlement.clearing_prices d !! uj = Some ubp ->
  exists f,
    match kind (data o) with Buy => f = fee | Sell => fee - (ubp - 1) / usp <= f <= fee end /\
    DecodedSettlement.fee d t external_prices =
      (let* native := opt (ExternalPrices.try_get_native_amount external_prices (sell_token (data o))
                             (u256_to_big_rational f)) in
       let* native := opt (big_rational_to_u256 native) in
       Ok (mkFees (order_uid t) Surplus f native)).
Proof.
  intros Hcp Hs Hb Hex Hfee Husp Hubp H1 H2 H3 Hround Hk Hexe Hf0 Hi Hj Hti Htj Hpi Hpj Hui Huj Hpui Hpuj.
  destruct (surplus_fee_recovered _ _ _ _ _ _ _ _ Hcp Hs Hb Hex Hfee Husp Hubp H1 H2 H3 Hround) as (f & Hf & Hbound).
  exists f. split; [exact Hbound|]. unfold DecodedSettlement.fee.
  rewrite Hi, Hj. cbn [rbind]. rewrite Hti, Htj, Hf0, Hpi, Hpj. cbn [rbind opt ok_or negb Z.eqb].
  rewrite Hui, Huj. cbn [rbind opt ok_or]. rewrite Hpui, Hpuj. cbn [rbind opt ok_or].
  rewrite Hk, Hexe, Hf. done.
Qed.

(** * Witnesses *)
Section witnesses.
Import EncoderSpec SettlementEncoder.
Let hash (l : list byte) : list byte := be_bytes 32 (from_be_bytes l).
Let no_recovery (m : list byte) (v r s : Z) : option Z := None.
Let order_of (cl : OrderClass) (sig : Signature) (sell buy sell_amount buy_amount : Z) : Order :=
  ModelOrder.mkOrder (mkOrderMetadata 0 9 0 0 0 0 0 0 false Open cl 0 0 0 None None None None)
    (mkOrderData sell buy None sell_amount buy_amount 100 (be_bytes 32 0) 0 Sell true SellErc20 BuyErc20)
    sig (mkInteractions [] []).
Let p : gmap Z Z := {[5 := 2; 7 := 3]}.
Let market : Order := order_of Market PreSign 5 7 100 60.
Let limit : Order := order_of Limit (Eip1271 (be_bytes 3 77)) 7 5 100 60.
Let ops : list Op := [AddTrade market 90 0; AddTrade limit 90 10].
Let dom : list byte := be_bytes 32 3.
Let args : list byte := be_bytes 32 1.
Let meta : list byte := be_bytes 8 42.
Let e : SettlementEncoder := match run p ops with Ok (e, _) => e | _ => SettlementEncoder.new ∅ end.
Let exs : list Settlement.TradeExecution := match run p ops with Ok (_, x) => x | _ => [] end.
Let s : EncodedSettlement :=
  match finish (fun _ => []) e Unknown with Ok s => s | _ => mkEncodedSettlement [] [] [] ([], [], []) end.
(** A decoder for the one settlement. *)
Let decode (l : list byte) : option EncodedSettlement := if decide (l = args) then Some s else None.
Let d : DecodedSettlement :=
  match DecodedSettlement.new hash no_recovery [] decode (args ++ meta) dom with
  | Ok d => d
  | _ => mkDecodedSettlement [] [] [] ([], [], []) None
  end.

Lemma authentic_ops : Forall (authentic hash no_recovery dom) (concat (map added ops)).
Proof. repeat apply Forall_cons_2; [..|apply Forall_nil_2]; (split; [exact I|]); (split; [cbn; lia|exact I]). Qed.

Lemma settled_orders_are_decoded_witness :
  exists d, DecodedSettlement.new hash no_recovery [] decode ([] ++ args ++ meta) dom = Ok d /\
    map order_uid (trades d) = map (uid_of hash dom) (concat (map added ops)) /\
    map raw (trades d) = EncodedSettlement.trades s /\ metadata d = Some meta /\
    tokens d = EncodedSettlement.tokens s /\ DecodedSettlement.clearing_prices d = EncodedSettlement.clearing_prices s.
Proof.
  apply (settled_orders_are_decoded hash no_recovery [] decode dom (fun _ => []) Unknown p ops e exs).
  - vm_compute. reflexivity.
  - exact authentic_ops.
  - vm_compute. reflexivity.
  - vm_compute. reflexivity.
  - unfold decode. by rewrite decide_True.
  - reflexivity.
  - reflexivity.
Defined.

(** The limit order paid 10, and 9 of them are read back. *)
Example decoded_fees : res_map (map (fun f => (fees_kind f, fees_sell f))) (all_fees d {[5 := 1%Qc; 7 := 1%Qc]})
  = Ok [(Surplus, 0); (Surplus, 10)].
Proof. vm_compute. reflexivity. Qed.

(** Without a fee the rounding in favour of the order leaves nothing to read:
    the fee of a limit order is reported as one of a market order. *)
Example decoded_fee_lost : surplus_fee Sell 4 2 4 1 3 = None.
Proof. reflexivity. Qed.

Let t : DecodedTrade :=
  mkDecodedTrade 1 (mkEncodedTrade 2 3 0 100 60 100 [] 0 (order_flags (data limit) PreSign) 100 []) PreSign.
Let settled : DecodedSettlement := mkDecodedSettlement [5; 7; 7; 5] [2; 3; 135; 100] [t] ([], [], []) None.

Lemma limit_order_fee_is_recovered_witness :
  exists f,
    match kind (data limit) with Buy => f = 10 | Sell => 10 - (2 - 1) / 3 <= f <= 10 end /\
    DecodedSettlement.fee settled t ∅ =
      (let* native := opt (ExternalPrices.try_get_native_amount ∅ (sell_token (data limit)) (u256_to_big_rational f)) in
       let* native := opt (big_rational_to_u256 native) in
       Ok (mkFees (order_uid t) Surplus f native)).
Proof.
  refine (limit_order_fee_is_recovered (SettlementEncoder.new p) limit 100 10 135 100 3 2 settled t ∅ 2 3 1 0
    _ _ _ _ _ _ _ _ _ _ _ _ _ _ _ _ _ _ _ _ _ _ _ _); try (vm_compute; reflexivity); try (vm_compute; discriminate).
Defined.
End witnesses.
