(* ===== verification/OnchainSettlement.v ===== *)
(** Settlements as the autopilot reads them from the chain:
    crates/autopilot/src/domain/settlement/solution (mod.rs, tokenized.rs,
    trade.rs), settlement/auction.rs and auction/order.rs.

    The autopilot decodes the call data of a mined settlement, recovers its
    trades and computes the score they really have. ABI decoding and the
    recovery of an order's uid from its signature are parameters. *)
From Stdlib Require Import ZArith Lia QArith Qcanon.
From stdpp Require Import prelude gmap numbers.
From S2P Require Import Prelude U256 Bytes Floats DriverOrder Trade Scoring Solution Encoding ModelOrder.

Open Scope Z_scope.
Open Scope rust_scope.
Import Eth Order.

(** ** domain/fee/mod.rs: the policies of an order; a factor is a float. *)
Module FeePolicy.
Record Quote : Type := mkQuote { sell_amount : Z; buy_amount : Z; fee : Z }.
Inductive Policy : Type :=
| Surplus (factor max_volume_factor : F64.f64)
| PriceImprovement (factor max_volume_factor : F64.f64) (quote : Quote)
| Volume (factor : F64.f64).
End FeePolicy.

(** ** settlement/auction.rs *)
Module SettlementAuction.
Record Auction : Type := mkAuction {
  id : Z;
  orders : gmap Z (list FeePolicy.Policy);
  prices : gmap Z Z;
  surplus_capturing_jit_order_owners : gset Z;
}.
Definition is_surplus_capturing (self : Auction) (order : Z) : bool :=
  bool_decide (is_Some (orders self !! order)) ||
  bool_decide (OrderUid.owner order ∈ surplus_capturing_jit_order_owners self).
End SettlementAuction.
Import SettlementAuction.

(** ** settlement/solution/trade.rs *)
Module OnchainTrade.
Inductive Error : Type := MissingPrice (token : Z) | Math (e : MathError).

Record Prices : Type := mkPrices { uniform : ClearingPrices; custom : ClearingPrices }.
Record Trade : Type := mkTrade {
  order_uid : Z;
  sell : Asset;
  buy : Asset;
  side : Side;
  executed : Z;
  trade_prices : Prices;
}.
Definition set_custom (self : Trade) (custom : ClearingPrices) : Trade :=
  mkTrade (order_uid self) (sell self) (buy self) (side self) (executed self)
    (mkPrices (uniform (trade_prices self)) custom).

Definition surplus_token (self : Trade) : Z :=
  match side self with Buy => token (sell self) | Sell => token (buy self) end.

Definition surplus_over (self : Trade) (prices : ClearingPrices) (price_limits : PriceLimits) : res MathError Asset :=
  res_map (fun surplus => mkAsset surplus (surplus_token self))
    match side self with
    | Buy =>
        let* limit_sell := mul_div (limit_sell price_limits) (executed self) (limit_buy price_limits) in
        let* sold := mul_div (executed self) (price_buy prices) (price_sell prices) in
        ok_or (checked_sub limit_sell sold) Negative
    | Sell =>
        let* limit_buy := mul_ceil_div (executed self) (limit_buy price_limits) (limit_sell price_limits) in
        let* bought := mul_ceil_div (executed self) (price_sell prices) (price_buy prices) in
        ok_or (checked_sub bought limit_buy) Negative
    end.

Definition limits (self : Trade) : PriceLimits := mkPriceLimits (amount (sell self)) (amount (buy self)).
Definition surplus_over_limit_price (self : Trade) : res MathError Asset :=
  surplus_over self (custom (trade_prices self)) (limits self).
Definition surplus_over_limit_price_before_fee (self : Trade) : res MathError Asset :=
  surplus_over self (uniform (trade_prices self)) (limits self).

(** A quote scaled to the order's limits. *)
Definition adjust_quote_to_order_limits (order_sell order_buy : Z) (order_side : Side)
    (quote : FeePolicy.Quote) : res MathError PriceLimits :=
  match order_side with
  | Sell =>
      let* fee_in_buy := mul_div (FeePolicy.fee quote) (FeePolicy.buy_amount quote) (FeePolicy.sell_amount quote) in
      let* quote_buy_amount := ok_or (checked_sub (FeePolicy.buy_amount quote) fee_in_buy) Negative in
      let* scaled_buy_amount := mul_div quote_buy_amount order_sell (FeePolicy.sell_amount quote) in
      Ok (mkPriceLimits order_sell (Z.max order_buy scaled_buy_amount))
  | Buy =>
      let* quote_sell_amount := ok_or (checked_add (FeePolicy.sell_amount quote) (FeePolicy.fee quote)) Overflow in
      let* scaled_sell_amount := mul_div quote_sell_amount order_buy (FeePolicy.buy_amount quote) in
      Ok (mkPriceLimits (Z.min order_sell scaled_sell_amount) order_buy)
  end.
Definition surplus_over_quote (self : Trade) (quote : FeePolicy.Quote) : res MathError Asset :=
  let* quote := adjust_quote_to_order_limits (amount (sell self)) (amount (buy self)) (side self) quote in
  surplus_over self (custom (trade_prices self)) quote.
Definition price_improvement (self : Trade) (quote : FeePolicy.Quote) : res Error Asset :=
  match surplus_over_quote self quote with
  | Err Negative => Ok (mkAsset 0 (surplus_token self))
  | surplus => map_err Math surplus
  end.

Definition sell_amount (self : Trade) : res MathError Z :=
  match side self with
  | Sell => Ok (executed self)
  | Buy => mul_div (executed self) (price_buy (custom (trade_prices self))) (price_sell (custom (trade_prices self)))
  end.
Definition buy_amount (self : Trade) : res MathError Z :=
  match side self with
  | Sell => mul_ceil_div (executed self) (price_sell (custom (trade_prices self))) (price_buy (custom (trade_prices self)))
  | Buy => Ok (executed self)
  end.
Definition calculate_custom_prices (self : Trade) (protocol_fee : Z) : res MathError ClearingPrices :=
  let* s :=
    match side self with
    | Sell => let* b := buy_amount self in ok_or (checked_add b protocol_fee) Overflow
    | Buy => buy_amount self
    end in
  let* b :=
    match side self with
    | Sell => sell_amount self
    | Buy => let* s := sell_amount self in ok_or (checked_sub s protocol_fee) Negative
    end in
  Ok (mkClearingPrices s b).

Definition in_eth_of (prices : gmap Z Z) (a : Asset) : res Error Z :=
  let* price := ok_or (prices !! token a) (MissingPrice (token a)) in
  Price.in_eth price (amount a).

(** The total fee: the surplus before minus the surplus after fees. *)
Definition fee (self : Trade) : res Error Asset :=
  let* before := map_err Math (surplus_over_limit_price_before_fee self) in
  let* after := map_err Math (surplus_over_limit_price self) in
  let* fee := ok_or (checked_sub (amount before) (amount after)) (Math Negative) in
  Ok (mkAsset fee (surplus_token self)).
Definition native_fee (self : Trade) (prices : gmap Z Z) : res Error Z :=
  let* fee := fee self in in_eth_of prices fee.
Definition fee_in_sell_token (self : Trade) (prices : gmap Z Z) : res Error Z :=
  let* fee := fee self in
  match side self with
  | Buy => Ok (amount fee)
  | Sell =>
      let* buy_price := ok_or (prices !! token (buy self)) (MissingPrice (token (buy self))) in
      let* sell_price := ok_or (prices !! token (sell self)) (MissingPrice (token (sell self))) in
      map_err Math (mul_div (amount fee) buy_price sell_price)
  end.

Section fees.
Context (from_f64_lossy : F64.f64 -> Z).
Local Abbreviation apply_factor := (Eth.apply_factor from_f64_lossy).
Definition ONE : F64.f64 := F64.of_Z 1.

Definition surplus_fee (surplus : Asset) (factor : F64.f64) : res Error Asset :=
  let* fee := ok_or (apply_factor (amount surplus) (F64.div factor (F64.sub ONE factor))) (Math Overflow) in
  Ok (mkAsset fee (token surplus)).
Definition volume_fee (self : Trade) (factor : F64.f64) : res Error Asset :=
  let custom := custom (trade_prices self) in
  let* executed_in_surplus_token :=
    map_err Math
      match side self with
      | Sell => mul_div (executed self) (price_sell custom) (price_buy custom)
      | Buy => mul_div (executed self) (price_buy custom) (price_sell custom)
      end in
  let factor :=
    match side self with
    | Sell => F64.div factor (F64.sub ONE factor)
    | Buy => F64.div factor (F64.add ONE factor)
    end in
  let* fee := ok_or (apply_factor executed_in_surplus_token factor) (Math Overflow) in
  Ok (mkAsset fee (surplus_token self)).

Definition protocol_fee (self : Trade) (policy : FeePolicy.Policy) : res Error Z :=
  match policy with
  | FeePolicy.Surplus factor max_volume_factor =>
      let* surplus := map_err Math (surplus_over_limit_price self) in
      let* s := surplus_fee surplus factor in
      let* v := volume_fee self max_volume_factor in
      Ok (Z.min (amount s) (amount v))
  | FeePolicy.PriceImprovement factor max_volume_factor quote =>
      let* improvement := price_improvement self quote in
      let* s := surplus_fee improvement factor in
      let* v := volume_fee self max_volume_factor in
      Ok (Z.min (amount s) (amount v))
  | FeePolicy.Volume factor => let* v := volume_fee self factor in Ok (amount v)
  end.
Definition protocol_fees (self : Trade) (policies : list FeePolicy.Policy) : res Error Asset :=
  let* ' (_, total) := rfold (fun '(current_trade, total) '(i, policy) =>
      let* fee := protocol_fee current_trade policy in
      let* total := u_add total fee in
      if (i : nat) is O then Ok (current_trade, total)
      else
        let* p := map_err Math (calculate_custom_prices self total) in
        Ok (set_custom current_trade p, total))
    (self, 0) (rev (imap pair policies)) in
  Ok (mkAsset total (surplus_token self)).

Definition native_surplus (self : Trade) (auction : Auction) : res Error Z :=
  if negb (is_surplus_capturing auction (order_uid self)) then Ok 0
  else
    let* surplus := map_err Math (surplus_over_limit_price self) in
    in_eth_of (prices auction) surplus.
Definition native_protocol_fee (self : Trade) (auction : Auction) : res Error Z :=
  let* fee := protocol_fees self (default [] (orders auction !! order_uid self)) in
  in_eth_of (prices auction) fee.
Definition score (self : Trade) (auction : Auction) : res Error Z :=
  let* s := native_surplus self auction in
  let* f := native_protocol_fee self auction in
  u_add s f.
End fees.
End OnchainTrade.

(** ** settlement/solution/tokenized.rs *)
Module Tokenized.
(** The tuple of a trade in the call data, its flags a number. *)
Record Trade : Type := mkTrade {
  sell_token_index : Z;
  buy_token_index : Z;
  receiver : Z;
  sell_amount : Z;
  buy_amount : Z;
  valid_to : Z;
  app_data : Z;
  fee_amount : Z;
  flags : Z;
  executed_amount : Z;
  signature : list byte;
}.
(** [codec::trade] of the driver's encoding.rs: the tuple of an encoded trade. *)
Definition codec_trade (e : Encoding.Trade) : Trade :=
  mkTrade (Encoding.sell_token_index e) (Encoding.buy_token_index e) (Encoding.receiver e)
    (Encoding.limit_sell_amount e) (Encoding.limit_buy_amount e) (Encoding.trade_valid_to e)
    (Encoding.trade_app_data e) (Encoding.fee_amount e) (Encoding.flags (Encoding.trade_flags e))
    (Encoding.executed_amount e) (Encoding.trade_signature e).
(** What decoding the call data yields; its interactions are not used. *)
Record Decoded : Type := mkDecoded {
  tokens : list Z;
  clearing_prices : list Z;
  trades : list Trade;
}.
Inductive Decoding : Type := InvalidSelector | MissingAuctionId | Ethabi (auction_id : Z).

(** [TradeFlags] *)
Definition as_u8 (flags : Z) : Z := Z.land flags 255.
Definition flags_side (flags : Z) : Side := if Z.land (as_u8 flags) 1 =? 0 then Sell else Buy.
Definition flags_partially_fillable (flags : Z) : bool := negb (Z.land (as_u8 flags) 2 =? 0).
Definition flags_sell_token_balance (flags : Z) : SellTokenBalance :=
  if Z.land (as_u8 flags) 8 =? 0 then Erc20
  else if Z.land (as_u8 flags) 4 =? 0 then External else Internal.
Definition flags_buy_token_balance (flags : Z) : BuyTokenBalance :=
  if Z.land (as_u8 flags) 16 =? 0 then BuyErc20 else BuyInternal.
Definition flags_signing_scheme (flags : Z) : Scheme :=
  match Z.land (Z.shiftr (as_u8 flags) 5) 3 with
  | 0 => Eip712
  | 1 => EthSign
  | 2 => Eip1271
  | _ => PreSign
  end.

Definition META_DATA_LEN : nat := 8.
(** [i64::from_be_bytes] *)
Definition i64_from_be_bytes (l : list byte) : Z :=
  let z := from_be_bytes l in if z <? 2 ^ 63 then z else z - 2 ^ 64.
Definition strip_prefix (prefix l : list byte) : option (list byte) :=
  if decide (take (length prefix) l = prefix) then Some (drop (length prefix) l) else None.

(** [Tokenized::new]: the subtraction panics on less than eight bytes. *)
Definition new (selector : list byte) (decode_input : list byte -> option Decoded) (calldata : list byte)
  : res Decoding (Decoded * Z) :=
  let* data := ok_or (strip_prefix selector calldata) InvalidSelector in
  if (length data <? META_DATA_LEN)%nat then Panic
  else
    let at_ := (length data - META_DATA_LEN)%nat in
    let auction_id := i64_from_be_bytes (drop at_ data) in
    let* decoded := ok_or (decode_input (take at_ data)) (Ethabi auction_id) in
    Ok (decoded, auction_id).
End Tokenized.

(** ** settlement/solution/mod.rs *)
Module OnchainSolution.
Import OnchainTrade.
Inductive Error : Type := Decoding (e : Tokenized.Decoding) | OrderUidRecover (auction_id : Z).
Inductive ScoreError : Type := Zero | ScoreMissingPrice (token : Z) | ScoreMath (e : MathError).
Record Solution : Type := mkSolution { trades : list Trade; auction_id : Z }.

(** [Iterator::position] of a token that is there. *)
Definition position {E} (tokens : list Z) (t : Z) : res E nat :=
  match list_find (eq t) tokens with Some (i, _) => Ok i | None => Panic end.
Definition index {E} (l : list Z) (i : Z) : res E Z := opt_expect (l !! Z.to_nat i).

(** The loop body of [new]; an index beyond the vector panics. *)
Definition decode_trade (order_uid : Tokenized.Trade -> list Z -> option Z) (decoded : Tokenized.Decoded)
    (auction_id : Z) (trade : Tokenized.Trade) : res Error Trade :=
  let tokens := Tokenized.tokens decoded in
  let prices := Tokenized.clearing_prices decoded in
  let* sell_token := index tokens (Tokenized.sell_token_index trade) in
  let* buy_token := index tokens (Tokenized.buy_token_index trade) in
  let* uniform_sell_token_index := position tokens sell_token in
  let* uniform_buy_token_index := position tokens buy_token in
  let* uid := ok_or (order_uid trade tokens) (OrderUidRecover auction_id) in
  let* uniform_sell := opt_expect (prices !! uniform_sell_token_index) in
  let* uniform_buy := opt_expect (prices !! uniform_buy_token_index) in
  let* custom_sell := index prices (Tokenized.sell_token_index trade) in
  let* custom_buy := index prices (Tokenized.buy_token_index trade) in
  Ok (mkTrade uid (mkAsset (Tokenized.sell_amount trade) sell_token) (mkAsset (Tokenized.buy_amount trade) buy_token)
    (Tokenized.flags_side (Tokenized.flags trade)) (Tokenized.executed_amount trade)
    (mkPrices (mkClearingPrices uniform_sell uniform_buy) (mkClearingPrices custom_sell custom_buy))).
Definition new (selector : list byte) (decode_input : list byte -> option Tokenized.Decoded)
    (order_uid : Tokenized.Trade -> list Z -> option Z) (calldata : list byte) : res Error Solution :=
  let* ' (decoded, auction_id) := map_err Decoding (Tokenized.new selector decode_input calldata) in
  let* trades := rmap (decode_trade order_uid decoded auction_id) (Tokenized.trades decoded) in
  Ok (mkSolution trades auction_id).

Section scores.
Context (from_f64_lossy : F64.f64 -> Z).

Definition score_error (e : OnchainTrade.Error) : ScoreError :=
  match e with MissingPrice t => ScoreMissingPrice t | Math e => ScoreMath e end.
Definition score (self : Solution) (auction : Auction) : res ScoreError Z :=
  let* total := map_err score_error
    (rfold (fun total trade => let* s := score from_f64_lossy trade auction in u_add total s) 0 (trades self)) in
  if total =? 0 then Err Zero else Ok total.

(** The sums in which a trade that fails counts as zero. *)
Definition or_zero {E} (r : res E Z) : res E Z :=
  match r with Ok a => Ok a | Err _ => Ok 0 | Panic => Panic end.
Definition native_surplus (self : Solution) (auction : Auction) : res OnchainTrade.Error Z :=
  rfold (fun total trade => let* s := or_zero (OnchainTrade.native_surplus trade auction) in u_add total s)
    0 (trades self).
Definition native_fee (self : Solution) (prices : gmap Z Z) : res OnchainTrade.Error Z :=
  rfold (fun total trade => let* s := or_zero (OnchainTrade.native_fee trade prices) in u_add total s)
    0 (trades self).
Definition fees (self : Solution) (prices : gmap Z Z) : res OnchainTrade.Error (gmap Z (option Z)) :=
  rfold (fun m trade =>
    match fee_in_sell_token trade prices with
    | Panic => Panic
    | Ok fee => Ok (<[order_uid trade := Some fee]> m)
    | Err _ => Ok (<[order_uid trade := None]> m)
    end) ∅ (trades self).
End scores.
End OnchainSolution.

(** * Lemmas *)

(** ** Outcomes under a change of errors *)
Section map_err_lemmas.
Context {E F A B : Type} (f : E -> F).

Lemma map_err_rbind (m : res E A) (k : A -> res E B) :
  map_err f (rbind m k) = rbind (map_err f m) (fun a => map_err f (k a)).
Proof. by destruct m. Qed.
Lemma map_err_ok_or (o : option A) (e : E) : map_err f (ok_or o e) = ok_or o (f e).
Proof. by destruct o. Qed.
Lemma map_err_opt_expect (o : option A) : map_err f (opt_expect o) = opt_expect o.
Proof. by destruct o. Qed.
Lemma map_err_map_err {D} (g : D -> E) (m : res D A) : map_err f (map_err g m) = map_err (fun e => f (g e)) m.
Proof. by destruct m. Qed.
Lemma rbind_ext (m : res E A) (k k' : A -> res E B) : (forall a, k a = k' a) -> rbind m k = rbind m k'.
Proof. intros Hk. destruct m; cbn; auto. Qed.
End map_err_lemmas.

(** ** A trade on the chain as the driver scores it *)
Section equivalence.
Import OnchainTrade.
Context (lossy : F64.f64 -> Z).

Definition driver_error (e : OnchainTrade.Error) : Scoring.Error :=
  match e with MissingPrice t => Scoring.MissingPrice t | Math e => Scoring.Math e end.
(** Only the amounts of a quote matter. *)
Definition driver_policy (sell_token buy_token : Z) (p : FeePolicy.Policy) : Order.FeePolicy :=
  match p with
  | FeePolicy.Surplus f m => Order.Surplus f m
  | FeePolicy.PriceImprovement f m q =>
      Order.PriceImprovement f m
        (Order.mkQuote (mkAsset (FeePolicy.sell_amount q) sell_token) (mkAsset (FeePolicy.buy_amount q) buy_token)
          (mkAsset (FeePolicy.fee q) sell_token))
  | FeePolicy.Volume f => Order.Volume f
  end.
Definition driver_prices (p : ClearingPrices) : CustomClearingPrices :=
  mkCustomClearingPrices (price_sell p) (price_buy p).
Definition as_driver (t : Trade) (policies : list Order.FeePolicy) : Scoring.Trade :=
  Scoring.mkTrade (sell t) (buy t) (side t) (executed t) (driver_prices (custom (trade_prices t))) policies.

Lemma surplus_over_driver t ps l :
  Scoring.surplus_over (as_driver t ps) l = surplus_over t (custom (trade_prices t)) l.
Proof. by destruct t. Qed.

Lemma surplus_over_limit_price_driver t ps :
  Scoring.surplus_over_limit_price (as_driver t ps) = map_err driver_error (map_err Math (surplus_over_limit_price t)).
Proof.
  unfold Scoring.surplus_over_limit_price. rewrite surplus_over_driver, map_err_map_err. done.
Qed.

(** The fee of a quote is within what it sells. *)
Definition quote_covers_fee (side : Side) (p : FeePolicy.Policy) : Prop :=
  match p with
  | FeePolicy.PriceImprovement _ _ q =>
      side = Sell -> 0 <= FeePolicy.fee q <= FeePolicy.sell_amount q /\ 0 <= FeePolicy.buy_amount q
  | _ => True
  end.

Lemma adjusted_not_negative t f m q :
  quote_covers_fee (side t) (FeePolicy.PriceImprovement f m q) ->
  adjust_quote_to_order_limits (amount (sell t)) (amount (buy t)) (side t) q <> Err Negative.
Proof.
  unfold quote_covers_fee, adjust_quote_to_order_limits. intros Hq. destruct (side t).
  - unfold mul_div, checked_add, checked_mul, checked_div. by repeat (case_match; cbn).
  - destruct (Hq eq_refl) as [Hf Hb].
    destruct (mul_div (FeePolicy.fee q) (FeePolicy.buy_amount q) (FeePolicy.sell_amount q)) as [v|e|] eqn:Hm; cbn; [|..].
    + apply mul_div_Ok in Hm as (-> & _ & Hne). unfold checked_sub.
      rewrite (proj2 (Z.leb_le _ _)) by (apply Z.div_le_upper_bound; nia). cbn.
      unfold mul_div, checked_mul, checked_div. by repeat (case_match; cbn).
    + unfold mul_div, checked_mul, checked_div in Hm. repeat (case_match; cbn in Hm); congruence.
    + done.
Qed.

Lemma price_improvement_driver t ps f m q :
  quote_covers_fee (side t) (FeePolicy.PriceImprovement f m q) ->
  Scoring.price_improvement (as_driver t ps)
    (Order.mkQuote (mkAsset (FeePolicy.sell_amount q) (token (sell t))) (mkAsset (FeePolicy.buy_amount q) (token (buy t)))
          (mkAsset (FeePolicy.fee q) (token (sell t)))) =
  map_err driver_error (price_improvement t q).
Proof.
  intros Hq%adjusted_not_negative. unfold Scoring.price_improvement, price_improvement, surplus_over_quote.
  change (ProtocolFee.adjust_quote_to_order_limits _ _ _ _)
    with (adjust_quote_to_order_limits (amount (sell t)) (amount (buy t)) (side t) q).
  destruct (adjust_quote_to_order_limits _ _ _ q) as [l|[]|]; cbn [rbind map_err]; try done.
  rewrite surplus_over_driver. by destruct (surplus_over t _ l) as [|[]|].
Qed.

Lemma surplus_fee_driver s f : Scoring.surplus_fee lossy s f = map_err driver_error (surplus_fee lossy s f).
Proof. unfold Scoring.surplus_fee, surplus_fee. by rewrite map_err_rbind, map_err_ok_or. Qed.

Lemma volume_fee_driver t ps f : Scoring.volume_fee lossy (as_driver t ps) f = map_err driver_error (volume_fee lossy t f).
Proof.
  unfold Scoring.volume_fee, volume_fee. rewrite map_err_rbind, map_err_map_err. cbn.
  apply rbind_ext. intros v. by rewrite map_err_rbind, map_err_ok_or.
Qed.

Lemma protocol_fee_driver t ps p : quote_covers_fee (side t) p ->
  Scoring.protocol_fee lossy (as_driver t ps) (driver_policy (token (sell t)) (token (buy t)) p) = map_err driver_error (protocol_fee lossy t p).
Proof.
  intros Hq. destruct p as [f m|f m q|f]; cbn [driver_policy Scoring.protocol_fee protocol_fee].
  - rewrite map_err_rbind, surplus_over_limit_price_driver. apply rbind_ext. intros s.
    rewrite map_err_rbind, surplus_fee_driver. apply rbind_ext. intros a.
    by rewrite map_err_rbind, volume_fee_driver.
  - rewrite map_err_rbind, (price_improvement_driver _ _ f m) by done. apply rbind_ext. intros s.
    rewrite map_err_rbind, surplus_fee_driver. apply rbind_ext. intros a.
    by rewrite map_err_rbind, volume_fee_driver.
  - by rewrite map_err_rbind, volume_fee_driver.
Qed.

Lemma calculate_custom_prices_driver t ps fee :
  Scoring.calculate_custom_prices (as_driver t ps) fee = res_map driver_prices (calculate_custom_prices t fee).
Proof.
  unfold Scoring.calculate_custom_prices, calculate_custom_prices, Scoring.buy_amount, Scoring.sell_amount,
    buy_amount, sell_amount, as_driver, res_map.
  cbn [Scoring.s_side Scoring.s_executed Scoring.custom_price driver_prices custom_sell custom_buy].
  destruct (side t).
  - cbn [rbind]. destruct (mul_div _ _ _); cbn; [|done..]. by destruct (checked_sub _ _).
  - destruct (mul_ceil_div _ _ _); cbn; [|done..]. by destruct (checked_add _ _).
Qed.

Lemma in_eth_of_driver prices a : Scoring.native prices a = map_err driver_error (in_eth_of prices a).
Proof.
  unfold Scoring.native, in_eth_of. rewrite map_err_rbind, map_err_ok_or. apply rbind_ext. intros p.
  unfold Price.in_eth, u_mul, u_div. destruct (checked_mul (amount a) p) as [m|]; cbn [opt_expect rbind map_err]; [|done].
  by destruct (checked_div m BASE).
Qed.

Lemma protocol_fees_driver t policies : Forall (quote_covers_fee (side t)) policies ->
  Scoring.protocol_fees lossy (as_driver t (map (driver_policy (token (sell t)) (token (buy t))) policies)) =
  map_err driver_error (protocol_fees lossy t policies).
Proof.
  intros Hq. unfold Scoring.protocol_fees, protocol_fees. set (ps := map (driver_policy (token (sell t)) (token (buy t))) policies).
  change (Scoring.policies (as_driver t ps)) with ps.
  assert (Hl : rev (imap pair ps) = map (prod_map Datatypes.id (driver_policy (token (sell t)) (token (buy t)))) (rev (imap pair policies))).
  { unfold ps. rewrite map_rev. f_equal.
    change (map (driver_policy (token (sell t)) (token (buy t))) policies) with (driver_policy (token (sell t)) (token (buy t)) <$> policies).
    change (map ?g ?l) with (g <$> l). rewrite imap_fmap, fmap_imap. done. }
  rewrite Hl. assert (Hf : Forall (fun ip => quote_covers_fee (side t) ip.2) (rev (imap pair policies))).
  { apply Forall_rev, Forall_lookup. intros i [j p] Hi. apply list_lookup_imap_Some in Hi as (p' & Hp & [= -> ->]).
    cbn. by eapply Forall_lookup_1. }
  clear Hl. revert Hf. generalize (rev (imap pair policies)). intros l Hf.
  match goal with |- rbind (rfold ?G _ ?l') ?k = map_err _ (rbind (rfold ?F _ _) ?k') =>
    assert (Hg : forall c total, rbind (rfold G (as_driver (set_custom t c) ps, total) l') k =
      map_err driver_error (rbind (rfold F (set_custom t c, total) l) k'))
  end.
  2: { specialize (Hg (custom (trade_prices t)) 0). by destruct t as [? ? ? ? ? []]. }
  induction Hf as [|[i p] l Hp Hf IH]; intros c total; [done|]. cbn [map prod_map fst snd Datatypes.id rfold].
  change (driver_policy (token (sell t)) (token (buy t)) p)
    with (driver_policy (token (sell (set_custom t c))) (token (buy (set_custom t c))) p).
  rewrite (protocol_fee_driver (set_custom t c) ps p) by done.
  destruct (protocol_fee lossy (set_custom t c) p) as [f|e|]; cbn [map_err rbind]; [|done..].
  unfold u_add. destruct (checked_add total f) as [tot|]; cbn [opt_expect rbind map_err]; [|done].
  destruct i as [|i]; [apply IH|].
  rewrite calculate_custom_prices_driver.
  destruct (calculate_custom_prices t tot) as [c'|e|]; cbn [map_err rbind res_map]; [|done..].
  apply (IH c').
Qed.

Lemma score_driver t auction :
  is_surplus_capturing auction (order_uid t) = true ->
  let policies := default [] (orders auction !! order_uid t) in
  Forall (quote_covers_fee (side t)) policies ->
  Scoring.trade_score lossy (as_driver t (map (driver_policy (token (sell t)) (token (buy t))) policies)) (prices auction) =
  map_err driver_error (score lossy t auction).
Proof.
  intros Hc policies Hq. unfold Scoring.trade_score, score, Scoring.native_surplus, Scoring.native_protocol_fee,
    native_surplus, native_protocol_fee. rewrite Hc. cbn [negb]. fold policies.
  rewrite protocol_fees_driver by done. rewrite surplus_over_limit_price_driver.
  rewrite !map_err_rbind, map_err_map_err.
  assert (Hin : forall m : res OnchainTrade.Error Asset, (let* a := map_err driver_error m in Scoring.native (prices auction) a) =
    map_err driver_error (let* a := m in in_eth_of (prices auction) a)).
  { intros m. rewrite map_err_rbind. apply rbind_ext, in_eth_of_driver. }
  assert (Hsurplus : (let* a := map_err (fun e => driver_error (Math e)) (surplus_over_limit_price t) in
      Scoring.native (prices auction) a) =
    rbind (map_err driver_error (map_err Math (surplus_over_limit_price t)))
      (fun a => map_err driver_error (in_eth_of (prices auction) a))).
  { rewrite map_err_map_err. apply rbind_ext, in_eth_of_driver. }
  rewrite Hsurplus, map_err_map_err. apply rbind_ext. intros x.
  rewrite map_err_rbind, Hin. apply rbind_ext. intros y.
  unfold u_add. by destruct (checked_add x y).
Qed.
End equivalence.

(** ** From the driver's settlement to the autopilot's solution *)
Section roundtrip.
Import OnchainTrade.

Lemma flags_decode (f : Encoding.Flags) :
  let z := Encoding.flags f in
  Tokenized.flags_side z = Encoding.flags_side f /\
  Tokenized.flags_partially_fillable z = Encoding.partially_fillable f /\
  Tokenized.flags_sell_token_balance z = Encoding.flags_sell_token_balance f /\
  Tokenized.flags_buy_token_balance z = Encoding.flags_buy_token_balance f /\
  Tokenized.flags_signing_scheme z = Encoding.signing_scheme f.
Proof. destruct f as [[] [] [] [] []]; vm_compute; by split_and!. Qed.

Lemma position_of {E} (tokens : list Z) i t :
  tokens !! i = Some t -> exists j, OnchainSolution.position (E := E) tokens t = Ok j /\ tokens !! j = Some t.
Proof.
  intros Hi. unfold OnchainSolution.position.
  destruct (list_find_elem_of (eq t) tokens t) as [[j y] Hj]; [by eapply list_elem_of_lookup_2|done|].
  rewrite Hj. apply list_find_Some in Hj as (Hy & <- & _). eauto.
Qed.

(** Decoding the encoded trade of a fulfillment: the custom prices are the two
    amounts of the trade. *)
Lemma decode_fulfillment s tokens prices f e uid_of auction_id trades :
  Encoding.told_of s tokens prices f e -> length tokens = length prices ->
  uid_of (Tokenized.codec_trade e) tokens = Some (uid (Fulfillment.order f)) ->
  exists sold bought uniform ps pb,
    Solution.clearing_price s (token (Order.sell (Fulfillment.order f))) = Some ps /\
    Solution.clearing_price s (token (Order.buy (Fulfillment.order f))) = Some pb /\
    Fulfillment.sell_amount f (mkClearingPrices ps pb) = Ok sold /\
    Fulfillment.buy_amount f (mkClearingPrices ps pb) = Ok bought /\
    OnchainSolution.decode_trade uid_of (Tokenized.mkDecoded tokens prices trades) auction_id (Tokenized.codec_trade e) =
      Ok (mkTrade (uid (Fulfillment.order f)) (Order.sell (Fulfillment.order f)) (Order.buy (Fulfillment.order f))
        (Order.side (Fulfillment.order f))
        (match Order.side (Fulfillment.order f) with Sell => sold | Buy => bought end)
        (mkPrices uniform (mkClearingPrices bought sold))).
Proof.
  intros (ps & pb & sold & bought & Hps & Hpb & Hs & Hb & (Hat1 & Hat2 & Hat3 & Hat4) & Hex & Hls & Hlb & _ & Hside) Hlen Huid.
  cbn in Hat1, Hat2, Hat3, Hat4.
  destruct (position_of (E := OnchainSolution.Error) _ _ _ Hat1) as (i & Hi & Hit).
  destruct (position_of (E := OnchainSolution.Error) _ _ _ Hat3) as (j & Hj & Hjt).
  destruct (lookup_lt_is_Some_2 prices i) as [us Hus]; [rewrite <- Hlen; by eapply lookup_lt_Some|].
  destruct (lookup_lt_is_Some_2 prices j) as [ub Hub]; [rewrite <- Hlen; by eapply lookup_lt_Some|].
  exists sold, bought, (mkClearingPrices us ub), ps, pb. split_and!; try done.
  unfold OnchainSolution.decode_trade, OnchainSolution.index. cbn [Tokenized.tokens Tokenized.clearing_prices].
  cbn [Tokenized.codec_trade Tokenized.sell_token_index Tokenized.buy_token_index Tokenized.sell_amount
    Tokenized.buy_amount Tokenized.flags Tokenized.executed_amount].
  rewrite Hat1, Hat3. cbn [opt_expect rbind]. rewrite Hi, Hj. cbn [rbind]. fold (Tokenized.codec_trade e).
  rewrite Huid. cbn [ok_or rbind]. rewrite Hus, Hub, Hat2, Hat4. cbn [opt_expect rbind].
  rewrite (proj1 (flags_decode _)), Hside, Hex, Hls, Hlb.
  by destruct (Order.sell (Fulfillment.order f)), (Order.buy (Fulfillment.order f)).
Qed.

(** The same trade as the driver scores it. *)
Lemma scored_fulfillment s f ps pb sold bought :
  Solution.clearing_price s (token (Order.sell (Fulfillment.order f))) = Some ps ->
  Solution.clearing_price s (token (Order.buy (Fulfillment.order f))) = Some pb ->
  Fulfillment.sell_amount f (mkClearingPrices ps pb) = Ok sold ->
  Fulfillment.buy_amount f (mkClearingPrices ps pb) = Ok bought ->
  Solution.scoring_trade s (Trade.TFulfillment f) =
    Ok (Scoring.mkTrade (Order.sell (Fulfillment.order f)) (Order.buy (Fulfillment.order f))
      (Order.side (Fulfillment.order f))
      (match Order.side (Fulfillment.order f) with Sell => sold | Buy => bought end)
      (mkCustomClearingPrices bought sold) (Order.protocol_fees (Fulfillment.order f))).
Proof.
  intros Hps Hpb Hs Hb. unfold Solution.scoring_trade, scored_trade.
  assert (He : forall E, scored_executed (E := E) (Trade.TFulfillment f) =
    Ok (match Order.side (Fulfillment.order f) with Sell => sold | Buy => bought end)).
  { intros E. unfold scored_executed, Fulfillment.sell_amount, Fulfillment.buy_amount, Trade.sold, Trade.bought in *.
    cbn [Trade.trade_side Trade.trade_executed Trade.trade_fee]. destruct (Order.side (Fulfillment.order f)).
    - by injection Hb as ->.
    - cbn [rbind] in Hs. apply ok_or_Ok in Hs. unfold u_add. by rewrite Hs. }
  rewrite !He. cbn [rbind Trade.trade_sell Trade.trade_buy]. rewrite Hps, Hpb. cbn [ok_or rbind].
  unfold Trade.trade_custom_prices, Trade.trade_sell_amount, Trade.trade_buy_amount.
  unfold Fulfillment.sell_amount, Fulfillment.buy_amount in Hs, Hb.
  cbn [Trade.trade_side Trade.trade_executed Trade.trade_fee].
  rewrite Hs, Hb. done.
Qed.
End roundtrip.

(** ** The whole settlement *)
Section whole.
Import OnchainTrade.
Context (lossy : F64.f64 -> Z).

(** An order of the auction, with the policies its fulfillment carries. *)
Definition auctioned (auction : Auction) (f : Fulfillment.Fulfillment) : Prop :=
  let o := Fulfillment.order f in
  Solution.is_user_order o = true /\ exists policies,
    orders auction !! uid o = Some policies /\
    Order.protocol_fees o = map (driver_policy (token (Order.sell o)) (token (Order.buy o))) policies /\
    Forall (quote_covers_fee (Order.side o)) policies.

Lemma scores_agree s auction c uid_of auction_id f e :
  Encoding.told_of s (Encoding.tokens c) (Encoding.clearing_prices c) f e ->
  length (Encoding.tokens c) = length (Encoding.clearing_prices c) ->
  uid_of (Tokenized.codec_trade e) (Encoding.tokens c) = Some (uid (Fulfillment.order f)) ->
  auctioned auction f ->
  exists o d,
    OnchainSolution.decode_trade uid_of (Tokenized.mkDecoded (Encoding.tokens c) (Encoding.clearing_prices c)
      (map Tokenized.codec_trade (Encoding.trades c))) auction_id (Tokenized.codec_trade e) = Ok o /\
    Solution.scoring_trade s (Trade.TFulfillment f) = Ok d /\
    Scoring.trade_score lossy d (prices auction) = map_err driver_error (score lossy o auction).
Proof.
  intros Htold Hlen Huid (Hu & policies & Hpol & Hfees & Hq).
  destruct (decode_fulfillment s (Encoding.tokens c) (Encoding.clearing_prices c) f e uid_of auction_id
    (map Tokenized.codec_trade (Encoding.trades c)) Htold Hlen Huid)
    as (sold & bought & uniform & ps & pb & Hps & Hpb & Hs & Hb & Hd).
  do 2 eexists. split; [exact Hd|]. split; [exact (scored_fulfillment s f ps pb sold bought Hps Hpb Hs Hb)|].
  rewrite <- score_driver; cbn [order_uid side sell buy].
  - rewrite Hpol. cbn [default from_option Datatypes.id]. by rewrite <- Hfees.
  - unfold is_surplus_capturing. rewrite Hpol. by rewrite bool_decide_eq_true_2.
  - by rewrite Hpol.
Qed.

(** Sums of scores that agree one by one. *)
Lemma sums_agree auction os ds total k :
  Forall2 (fun o d => Scoring.trade_score lossy d (prices auction) = map_err driver_error (score lossy o auction)) os ds ->
  rfold (fun total d => let* s := Scoring.trade_score lossy d (prices auction) in u_add total s) total ds = Ok k ->
  rfold (fun total o => let* s := score lossy o auction in u_add total s) total os = Ok k.
Proof.
  intros Hall. revert total. induction Hall as [|o d os ds Hod Hall IH]; intros total H; [by injection H as ->|].
  cbn [rfold] in *. rewrite Hod in H. destruct (score lossy o auction) as [x| |]; cbn [map_err rbind] in *; [|done..].
  unfold u_add in *. destruct (checked_add total x); cbn [opt_expect rbind] in *; [by apply IH|done].
Qed.
End whole.

(** * Properties *)
Section properties.
Import OnchainTrade.
Context (lossy : F64.f64 -> Z).

(** The autopilot reads back the flags the driver wrote: decoding the flag
    byte of an encoded trade yields its side, whether it is partially fillable,
    its two balance kinds and its signing scheme. *)
Theorem flags_roundtrip (f : Encoding.Flags) :
  let z := Tokenized.flags (Tokenized.codec_trade
    (Encoding.mkTrade 0 0 0 0 0 0 0 0 f 0 [])) in
  0 <= z < 128 /\
  Encoding.mkFlags (Tokenized.flags_side z) (Tokenized.flags_partially_fillable z) (Tokenized.flags_signing_scheme z)
    (Tokenized.flags_sell_token_balance z) (Tokenized.flags_buy_token_balance z) = f.
Proof.
  cbn zeta. split; [destruct f as [[] [] [] [] []]; vm_compute; by split|].
  cbn [Tokenized.codec_trade Tokenized.flags Encoding.trade_flags].
  destruct (flags_decode f) as (-> & -> & -> & -> & ->). by destruct f.
Qed.


(** Autopilot and driver score a trade alike: for a trade of an order that
    captures surplus, the score the autopilot computes from the chain is the
    one the driver computes for the same order, execution, custom prices and
    fee policies, errors included, provided the fees of the quotes in the
    policies of a sale are within what those quotes sell. *)
Theorem autopilot_scores_like_driver (t : Trade) (auction : Auction) :
  is_surplus_capturing auction (order_uid t) = true ->
  Forall (quote_covers_fee (side t)) (default [] (orders auction !! order_uid t)) ->
  map_err driver_error (score lossy t auction) =
  Scoring.trade_score lossy
    (Scoring.mkTrade (sell t) (buy t) (side t) (executed t)
      (mkCustomClearingPrices (price_sell (custom (trade_prices t))) (price_buy (custom (trade_prices t))))
      (map (driver_policy (token (sell t)) (token (buy t))) (default [] (orders auction !! order_uid t))))
    (prices auction).
Proof. intros Hc Hq. symmetry. exact (score_driver lossy t auction Hc Hq). Qed.

(** C2: the score promised is the score found: when a settlement the driver
    encoded is mined, and its order uids can be recovered, the autopilot reads
    from its call data the auction it was for, and computes exactly the score
    the driver bid with, for a solution of user orders of that auction under
    the auction's prices and fee policies, if that score is positive. *)
Theorem onchain_score_is_driver_score swap withdraw (args : Encoding.Settlement -> list byte) (selector : list byte)
    (decode_input : list byte -> option Tokenized.Decoded) (uid_of : Tokenized.Trade -> list Z -> option Z)
    (s : Solution.Solution) (c : Encoding.Settlement) (tx : Encoding.Tx) (auction : Auction)
    approvals p i insert weth contract (id k : Z) :
  Encoding.settlement swap withdraw s approvals p i insert weth = Ok c ->
  Encoding.tx swap (fun c => selector ++ args c) withdraw (Some id) s contract approvals p i insert weth = Ok tx ->
  0 <= id < 2 ^ 63 ->
  decode_input (args c) = Some (Tokenized.mkDecoded (Encoding.tokens c) (Encoding.clearing_prices c)
    (map Tokenized.codec_trade (Encoding.trades c))) ->
  Forall2 (fun t e => exists f, t = Trade.TFulfillment f /\ auctioned auction f /\
    uid_of (Tokenized.codec_trade e) (Encoding.tokens c) = Some (uid (Fulfillment.order f)))
    (Solution.trades s) (Encoding.trades c) ->
  Solution.scoring lossy s (prices auction) (surplus_capturing_jit_order_owners auction) = Ok k ->
  0 < k ->
  exists sol, OnchainSolution.new selector decode_input uid_of (Encoding.tx_input tx) = Ok sol /\
    OnchainSolution.auction_id sol = id /\ OnchainSolution.score lossy sol auction = Ok k.
Proof.
  intros Hc Htx Hid Hdec Hall Hk Hpos.
  unfold Encoding.tx in Htx. rewrite Hc in Htx. cbn [rbind ok_or] in Htx.
  assert (Hinput : Encoding.tx_input tx = (selector ++ args c) ++ be_bytes 8 id) by by injection Htx as <-.
  rewrite Hinput. clear Htx Hinput. apply settlement_Ok in Hc as (Hlen & _ & Henc).
  (* Each trade decodes to one that scores alike. *)
  set (decoded := Tokenized.mkDecoded _ _ _) in Hdec.
  assert (Hlists : exists os ds,
    Forall2 (fun e o => OnchainSolution.decode_trade uid_of decoded id e = Ok o) (map Tokenized.codec_trade (Encoding.trades c)) os /\
    Forall2 (fun t d => Solution.scoring_trade s t = Ok d) (Solution.trades s) ds /\
    Forall2 (fun o d => Scoring.trade_score lossy d (prices auction) = map_err driver_error (score lossy o auction)) os ds).
  { unfold decoded. generalize (map Tokenized.codec_trade (Encoding.trades c)) at 1. intros ets.
    clear Hk Hdec decoded. revert Henc. induction Hall as [|t e ts es (f & -> & Hau & Huid) Hall IH]; intros Henc.
    - exists [], []. by split_and!.
    - apply Forall2_cons_iff in Henc as [He Henc]. destruct (IH Henc) as (os & ds & H1 & H2 & H3).
      destruct (scores_agree lossy s auction c uid_of id f e) as (o & d & Ho & Hd & Hod);
        [by apply encoded_fulfillment|done..|].
      exists (o :: os), (d :: ds). split_and!; by constructor. }
  destruct Hlists as (os & ds & Hos & Hds & Hsc).
  (* The call data decodes. *)
  exists (OnchainSolution.mkSolution os id). split_and!; [|done|].
  - unfold OnchainSolution.new, Tokenized.new, Tokenized.strip_prefix.
    rewrite <- app_assoc, take_app_length, decide_True by done. cbn [ok_or rbind]. rewrite drop_app_length.
    assert (Hl : length (args c ++ be_bytes 8 id) = (length (args c) + 8)%nat) by by rewrite length_app, length_be_bytes.
    rewrite Hl. unfold Tokenized.META_DATA_LEN.
    destruct (Nat.ltb_spec (length (args c) + 8) 8); [lia|].
    replace (length (args c) + 8 - 8)%nat with (length (args c)) by lia.
    rewrite take_app_length, drop_app_length, Hdec. cbn [ok_or rbind map_err].
    unfold Tokenized.i64_from_be_bytes. rewrite be_bytes_roundtrip by (change (256 ^ Z.of_nat 8) with (2 ^ 64); lia).
    rewrite (proj2 (Z.ltb_lt _ _)) by lia. apply rmap_Ok in Hos. cbn [Tokenized.trades decoded]. by rewrite Hos.
  - unfold Solution.scoring in Hk. rewrite filter_all in Hk.
    + apply rmap_Ok in Hds. rewrite Hds in Hk. cbn [rbind] in Hk. apply map_err_Ok in Hk.
      apply (sums_agree lossy auction os ds 0 k Hsc) in Hk.
      unfold OnchainSolution.score. cbn [OnchainSolution.trades]. rewrite Hk. cbn [map_err rbind].
      destruct (Z.eqb_spec k 0); [lia|done].
    + apply Forall_lookup. intros n t Ht. destruct (Forall2_lookup_l _ _ _ _ _ Hall Ht) as (e & _ & f & -> & [Hu _] & _).
      exact Hu.
Qed.
End properties.


(** The proviso is needed: a quote whose fee is more than it sells makes the
    driver fail where the autopilot sees no price improvement. *)
Example scores_differ_on_costly_quote :
  let t := OnchainTrade.mkTrade 1 (mkAsset 1000 1) (mkAsset 900 3) Sell 1000
    (OnchainTrade.mkPrices (mkClearingPrices 2 1) (mkClearingPrices 1980 1000)) in
  let policy := FeePolicy.PriceImprovement (F64.of_Z 0) (F64.of_Z 0) (FeePolicy.mkQuote 1000 950 1100) in
  let auction := mkAuction 4 {[1 := [policy]]} {[3 := BASE]} ∅ in
  OnchainTrade.score (fun _ => 0) t auction = Ok 1080 /\
  Scoring.trade_score (fun _ => 0) (as_driver t [driver_policy 1 3 policy]) {[3 := BASE]} =
    Err (Scoring.Math Negative).
Proof. vm_compute. split; reflexivity. Qed.

Section witnesses.
Let policy : FeePolicy.Policy := FeePolicy.Volume (F64.of_Z 0).
Let o : Order :=
  mkOrder 1 None 77 (mkAsset 900 3) (mkAsset 1000 1) Sell Limit 0 No [] [] Erc20 BuyErc20
    (mkSignature PreSign [] 6) [driver_policy 1 3 policy].
Let f : Fulfillment.Fulfillment := Fulfillment.mkFulfillment o 990 (Dynamic 10).
Let s : Solution.Solution :=
  Solution.mkSolution (Solution.Single 1) [Trade.TFulfillment f] {[1 := 2; 3 := 1]} [] [] [] 5 7 None.
Let lossy (x : F64.f64) : Z := 10 ^ 17.
Let auction : Auction := mkAuction 4 {[1 := [policy]]} {[3 := BASE]} ∅.
Let swap (k : Interaction.LiquidityKind) (mi eo : Asset) : option Eth.Interaction := None.
Let withdraw (a : Z) : list byte := [].
Let args (c : Encoding.Settlement) : list byte := [].
Let p : Slippage.Parameters := Slippage.mkParameters 0%Qc None None ∅.
Let uid_of (t : Tokenized.Trade) (tokens : list Z) : option Z := Some 1.
Let t : OnchainTrade.Trade :=
  OnchainTrade.mkTrade 1 (mkAsset 1000 1) (mkAsset 900 3) Sell 1000
    (OnchainTrade.mkPrices (mkClearingPrices 2 1) (mkClearingPrices 1980 1000)).


Lemma autopilot_scores_like_driver_witness :
  Scoring.trade_score lossy (as_driver t [driver_policy 1 3 policy]) {[3 := BASE]} = Ok 1278.
Proof.
  etransitivity; [symmetry; apply (autopilot_scores_like_driver lossy t auction)|].
  - reflexivity.
  - repeat constructor.
  - vm_compute. reflexivity.
Defined.

Lemma onchain_score_is_driver_score_witness :
  exists c tx decode sol,
    Encoding.settlement swap withdraw s [] p Enable true 7 = Ok c /\
    Encoding.tx swap (fun c => [] ++ args c) withdraw (Some 4) s 8 [] p Enable true 7 = Ok tx /\
    OnchainSolution.new [] decode uid_of (Encoding.tx_input tx) = Ok sol /\
    OnchainSolution.auction_id sol = 4 /\ OnchainSolution.score lossy sol auction = Ok 1278.
Proof.
  destruct (Encoding.settlement swap withdraw s [] p Enable true 7) as [c| |] eqn:Hc; [|vm_compute in Hc; discriminate..].
  destruct (Encoding.tx swap (fun c => [] ++ args c) withdraw (Some 4) s 8 [] p Enable true 7) as [tx| |] eqn:Htx;
    [|vm_compute in Htx; discriminate..].
  set (decoded := Tokenized.mkDecoded (Encoding.tokens c) (Encoding.clearing_prices c)
    (map Tokenized.codec_trade (Encoding.trades c))).
  destruct (onchain_score_is_driver_score lossy swap withdraw args [] (fun _ => Some decoded) uid_of s c tx auction
    [] p Enable true 7 8 4 1278) as (sol & Hsol & Hid & Hscore).
  - exact Hc.
  - exact Htx.
  - split; closed.
  - reflexivity.
  - vm_compute in Hc. injection Hc as <-. constructor; [|constructor].
    exists f. split; [reflexivity|split; [|reflexivity]]. split; [reflexivity|].
    exists [policy]. split; [reflexivity|split; [reflexivity|repeat constructor]].
  - vm_compute. reflexivity.
  - closed.
  - exists c, tx, (fun _ => Some decoded), sol. split; [reflexivity|split; [reflexivity|split; [exact Hsol|split; [exact Hid|exact Hscore]]]].
Defined.
End witnesses.
