(* ===== verification/SolverSolution.v ===== *)
(** Solutions of the solver engines: crates/solvers/src/domain (eth/mod.rs,
    order.rs, auction.rs, solution.rs) and util/math.rs.

    How an engine turns a swap for one order into a solution with prices and a
    fee, and how it decides which interactions the buffers of the settlement
    contract can replace. Liquidity is a parameter of solutions; the id of an
    order is its unsigned value, and names and decimals of tokens, which no
    engine reads, are left out. *)
From Stdlib Require Import ZArith Lia.
From Stdlib Require Strings.Byte.
From stdpp Require Import prelude gmap.
From S2P Require Import Prelude U256 Floats DriverOrder Trade.

Open Scope Z_scope.
Open Scope rust_scope.

(** [div_ceil] of util/math.rs: the quotient rounded up panics only if it
    overflows. *)
Definition div_ceil (q d : Z) : res unit Z :=
  if d =? 0 then Err tt
  else if q mod d =? 0 then Ok (q / d)
  else opt_expect (checked_add (q / d) 1).

Module SolverEth.
Record Asset : Type := mkAsset { amount : Z; token : Z }.
#[export] Instance Asset_eq_dec : EqDecision Asset.
Proof. solve_decision. Defined.
Record Interaction : Type := mkInteraction { target : Z; value : Z; calldata : list Byte.byte }.

(** [Gas + SignedGas] *)
Definition add_signed (gas rhs : Z) : Z :=
  if 0 <? rhs then saturating_add gas rhs else saturating_sub gas (Z.abs rhs).
End SolverEth.
Import SolverEth.

Module SolverOrder.
Inductive Side : Type := Buy | Sell.
Inductive Class : Type := Market | Limit | Liquidity.
#[export] Instance Class_eq_dec : EqDecision Class.
Proof. solve_decision. Defined.

Record Order : Type := mkOrder {
  uid : Z;
  sell : Asset;
  buy : Asset;
  side : Side;
  class : Class;
  partially_fillable : bool;
}.

(** Bytes 32 to 52 of the uid. *)
Definition owner (self : Order) : Z := (uid self / 2 ^ 32) mod 2 ^ 160.
Definition solver_determines_fee (self : Order) : bool :=
  match class self with Limit => true | _ => false end.
(** [UserOrder::new] *)
Definition is_user_order (self : Order) : bool :=
  match class self with Market | Limit => true | Liquidity => false end.

Inductive Signature : Type :=
| Eip712 (r s v : Z)
| EthSign (r s v : Z)
| Eip1271 (bytes : list Byte.byte)
| PreSign.
Record JitOrder : Type := mkJitOrder {
  jit_owner : Z;
  jit_signature : Signature;
  jit_sell : Asset;
  jit_buy : Asset;
  jit_side : Side;
  jit_class : Class;
  jit_partially_fillable : bool;
  jit_valid_to : Z;
  jit_app_data : Z;
  jit_receiver : Z;
}.
End SolverOrder.
Import SolverOrder.

Module SolverAuction.
Record Token : Type := mkToken { reference_price_ : option Z; available_balance : Z; trusted : bool }.
Definition Tokens : Type := gmap Z Token.
Definition reference_price (self : Tokens) (token : Z) : option Z :=
  match self !! token with Some t => reference_price_ t | None => None end.

(** [Price::ether_value] *)
Definition BASE : Z := 10 ^ 18.
Definition ether_value (price eth : Z) : res unit Z :=
  let* p := opt (checked_mul eth BASE) in opt (checked_div p price).
End SolverAuction.
Import SolverAuction.

Module SolverSolution.
(** [eth::SellTokenAmount] is the fee of [Surplus]. *)
Inductive Fee : Type := Protocol | Surplus (fee : Z).
Definition fee_surplus (self : Fee) : option Z :=
  match self with Protocol => None | Surplus fee => Some fee end.

Record Fulfillment : Type := mkFulfillment { order : Order; executed : Z; fee : Fee }.
Record JitTrade : Type := mkJitTrade { jit_order : JitOrder; jit_executed : Z; jit_fee : Z }.
Inductive Trade : Type := TFulfillment (f : Fulfillment) | TJit (j : JitTrade).

Definition fulfillment_new (order : Order) (executed : Z) (fee : Fee) : option Fulfillment :=
  let is_surplus := match fee with Surplus _ => true | Protocol => false end in
  if negb (Bool.eqb is_surplus (solver_determines_fee order)) then None
  else
    match
      match side order with
      | Buy => Some (amount (buy order), executed)
      | Sell =>
          match checked_add executed (default 0 (fee_surplus fee)) with
          | Some full => Some (amount (sell order), full)
          | None => None
          end
      end
    with
    | None => None
    | Some (fill, full) =>
        if (negb (partially_fillable order) && negb (full =? fill)) ||
           (partially_fillable order && (fill <? full))
        then None
        else Some (mkFulfillment order executed fee)
    end.
(** [Fulfillment::fill] *)
Definition fulfillment_fill (order : Order) : option Fulfillment :=
  fulfillment_new order
    match side order with Buy => amount (buy order) | Sell => amount (sell order) end Protocol.
(** [Fulfillment::executed] *)
Definition executed_asset (self : Fulfillment) : Asset :=
  mkAsset (executed self)
    match side (order self) with Buy => token (buy (order self)) | Sell => token (sell (order self)) end.
Definition surplus_fee (self : Fulfillment) : option Asset :=
  match fee_surplus (fee self) with
  | Some a => Some (mkAsset a (token (sell (order self))))
  | None => None
  end.

Section solution.
Context {L : Type}.

Record LiquidityInteraction : Type := mkLiquidityInteraction {
  liquidity : L;
  input : Asset;
  output : Asset;
  liquidity_internalize : bool;
}.
(** [Allowance]: the spender and the asset. *)
Record CustomInteraction : Type := mkCustomInteraction {
  target : Z;
  value : Z;
  calldata : list Byte.byte;
  custom_internalize : bool;
  custom_inputs : list Asset;
  custom_outputs : list Asset;
  allowances : list (Z * Asset);
}.
Inductive Interaction : Type :=
| ILiquidity (i : LiquidityInteraction)
| ICustom (i : CustomInteraction).

Record Solution : Type := mkSolution {
  id : Z;
  prices : gmap Z Z;
  trades : list Trade;
  pre_interactions : list SolverEth.Interaction;
  interactions : list Interaction;
  post_interactions : list SolverEth.Interaction;
  gas : option Z;
}.
Definition with_id (self : Solution) (id : Z) : Solution :=
  mkSolution id (prices self) (trades self) (pre_interactions self) (interactions self)
    (post_interactions self) (gas self).
Definition with_gas (self : Solution) (gas : Z) : Solution :=
  mkSolution (id self) (prices self) (trades self) (pre_interactions self) (interactions self)
    (post_interactions self) (Some gas).

(** What [with_buffers_internalizations] reads and writes of an interaction. *)
Definition inputs (i : Interaction) : list Asset :=
  match i with ILiquidity i => [input i] | ICustom i => custom_inputs i end.
Definition outputs (i : Interaction) : list Asset :=
  match i with ILiquidity i => [output i] | ICustom i => custom_outputs i end.
Definition internalize (i : Interaction) : bool :=
  match i with ILiquidity i => liquidity_internalize i | ICustom i => custom_internalize i end.
Definition set_internalize (i : Interaction) : Interaction :=
  match i with
  | ILiquidity i => ILiquidity (mkLiquidityInteraction (liquidity i) (input i) (output i) true)
  | ICustom i => ICustom (mkCustomInteraction (target i) (value i) (calldata i) true
                            (custom_inputs i) (custom_outputs i) (allowances i))
  end.

(** The closure of the [try_fold]. *)
Definition require_output (tokens : Tokens) (used_buffers map : gmap Z Z) (output : Asset)
  : res unit (gmap Z Z) :=
  let* amount := opt (checked_add (amount output) (default 0 (map !! token output))) in
  let* total := opt (checked_add amount (default 0 (used_buffers !! token output))) in
  let* t := opt (tokens !! token output) in
  if available_balance t <? total then Err tt else Ok (<[token output := amount]> map).
Definition required_buffers (tokens : Tokens) (used_buffers : gmap Z Z) (outputs : list Asset)
  : res unit (gmap Z Z) :=
  rfold (require_output tokens used_buffers) ∅ outputs.
Definition use_buffer {E} (used_buffers : gmap Z Z) (required : Z * Z) : res E (gmap Z Z) :=
  let '(token, amount) := required in
  let* used := opt_expect (checked_add (default 0 (used_buffers !! token)) amount) in
  Ok (<[token := used]> used_buffers).
Definition trusted_inputs (tokens : Tokens) (i : Interaction) : bool :=
  forallb (fun input => match tokens !! token input with Some t => trusted t | None => false end)
    (inputs i).

(** The body of the loop. *)
Definition internalize_one {E} (tokens : Tokens) (used_buffers : gmap Z Z) (i : Interaction)
  : res E (gmap Z Z * Interaction) :=
  if bool_decide (inputs i = []) || bool_decide (outputs i = []) || negb (trusted_inputs tokens i)
  then Ok (used_buffers, i)
  else
    match required_buffers tokens used_buffers (outputs i) with
    | Ok required =>
        let* used := rfold use_buffer used_buffers (map_to_list required) in
        Ok (used, set_internalize i)
    | Err _ => Ok (used_buffers, i)
    | Panic => Panic
    end.
Fixpoint internalize_all {E} (tokens : Tokens) (used_buffers : gmap Z Z) (l : list Interaction)
  : res E (list Interaction) :=
  match l with
  | [] => Ok []
  | i :: l =>
      let* ' (used_buffers, i) := internalize_one tokens used_buffers i in
      let* l := internalize_all tokens used_buffers l in
      Ok (i :: l)
  end.
Definition with_buffers_internalizations {E} (self : Solution) (tokens : Tokens) : res E Solution :=
  let* l := internalize_all tokens ∅ (interactions self) in
  Ok (mkSolution (id self) (prices self) (trades self) (pre_interactions self) l
        (post_interactions self) (gas self)).

Definition is_empty (self : Solution) : bool :=
  bool_decide (prices self = ∅) && match trades self with [] => true | _ => false end &&
  match interactions self with [] => true | _ => false end.

(** ** [Single] *)
Record Single : Type := mkSingle {
  single_order : Order;
  single_input : Asset;
  single_output : Asset;
  single_interactions : list Interaction;
  single_gas : Z;
}.

(** The total amounts the user sells and gets. *)
Definition single_amounts (self : Single) (surplus_fee : Z) : res unit (Z * Z) :=
  let order := single_order self in
  match side order with
  | Buy =>
      let* sell := opt (checked_add (amount (single_input self)) surplus_fee) in
      Ok (sell, amount (single_output self))
  | Sell =>
      let* s := opt (checked_add (amount (single_input self)) surplus_fee) in
      let sell_amount := Z.min s (amount (sell order)) in
      let* e := opt (checked_sub sell_amount surplus_fee) in
      let* p := opt (checked_mul e (amount (single_output self))) in
      let* buy := div_ceil p (amount (single_input self)) in
      Ok (sell_amount, buy)
  end.

Definition into_solution (self : Single) (fee : Z) : res unit Solution :=
  let order := single_order self in
  if negb (bool_decide (token (sell order) = token (single_input self) /\
                        token (buy order) = token (single_output self)))
  then Err tt
  else
    let fee := if solver_determines_fee order then Surplus fee else Protocol in
    let surplus_fee := default 0 (fee_surplus fee) in
    let* ' (sell_amount, buy_amount) := single_amounts self surplus_fee in
    let* l := opt (checked_mul (amount (sell order)) buy_amount) in
    let* r := opt (checked_mul (amount (buy order)) sell_amount) in
    if l <? r then Err tt
    else
      let* executed :=
        match side order with
        | Buy => Ok buy_amount
        | Sell => opt (checked_sub sell_amount surplus_fee)
        end in
      let* rest := opt (checked_sub sell_amount surplus_fee) in
      let* f := opt (fulfillment_new order executed fee) in
      Ok (mkSolution 0
            (<[token (buy order) := rest]> (<[token (sell order) := buy_amount]> ∅))
            [TFulfillment f] [] (single_interactions self) [] (Some (single_gas self))).
End solution.
Arguments LiquidityInteraction : clear implicits.
Arguments Interaction : clear implicits.
Arguments Solution : clear implicits.
Arguments Single : clear implicits.

Definition INITIALIZATION_COST : Z := 32000.
Definition SETTLEMENT : Z := 7365.
Definition ERC20_TRANSFER : Z := 27513.
End SolverSolution.

(** * Lemmas *)
Lemma div_ceil_spec q d : 0 <= q <= U256_MAX -> 0 <= d ->
  returns (fun r => r = cdiv q d /\ 0 < d) (div_ceil q d).
Proof.
  intros Hq Hd. unfold div_ceil. destruct (Z.eqb_spec d 0) as [|Hd0]; [exact I|].
  assert (Hdp : 0 < d) by lia.
  pose proof (Z.div_mod q d Hd0). pose proof (Z.mod_pos_bound q d Hdp).
  destruct (Z.eqb_spec (q mod d) 0) as [Hm|Hm].
  - split; [|done]. apply cdiv_unique; [done|]. nia.
  - assert (q / d + 1 = cdiv q d) as Heq by (apply cdiv_unique; [done|nia]).
    assert (q / d + 1 <= U256_MAX) by nia.
    unfold checked_add. rewrite (proj2 (Z.leb_le _ _)) by done. done.
Qed.

Section single.
Import SolverSolution.
Context {L : Type}.
Implicit Types (s : Single L).

(** The amounts of a swap are unsigned, those of the order in range. *)
Definition single_wf s : Prop :=
  0 <= amount (single_input s) /\ 0 <= amount (single_output s) /\
  u256 (amount (sell (single_order s))) /\ u256 (amount (buy (single_order s))).

Lemma single_amounts_spec s f : single_wf s -> 0 <= f ->
  returns (fun '(sell_amount, buy_amount) =>
    0 <= buy_amount <= amount (single_output s) /\
    match side (single_order s) with
    | Buy => sell_amount = amount (single_input s) + f /\ buy_amount = amount (single_output s)
    | Sell => f <= sell_amount /\ sell_amount = Z.min (amount (single_input s) + f) (amount (sell (single_order s))) /\
        0 < amount (single_input s) /\
        buy_amount = cdiv ((sell_amount - f) * amount (single_output s)) (amount (single_input s))
    end) (single_amounts s f).
Proof.
  intros (Hi & Ho & Hs & _) Hf. unfold u256 in *. unfold single_amounts.
  destruct (side (single_order s)).
  - destruct (checked_add _ _) as [v|] eqn:Hv; [|exact I]. apply checked_add_Some in Hv. cbn. lia.
  - destruct (checked_add _ _) as [v|] eqn:Hv; [|exact I]. apply checked_add_Some in Hv as [-> Hv]. cbn [opt ok_or rbind].
    destruct (checked_sub _ _) as [e|] eqn:He; [|exact I]. apply checked_sub_Some in He as [-> He]. cbn [opt ok_or rbind].
    destruct (checked_mul _ _) as [p|] eqn:Hp; [|exact I]. apply checked_mul_Some in Hp as [-> Hp]. cbn [opt ok_or rbind].
    set (sa := Z.min _ _) in *. assert (0 <= sa - f <= amount (single_input s)) by lia.
    eapply returns_bind; [apply div_ceil_spec; [split; [nia|exact Hp]|lia]|].
    intros b [-> Hpos]. cbn. split; [|split_and!; lia].
    split; [apply cdiv_nonneg; [lia|nia]|].
    pose proof (cdiv_spec ((sa - f) * amount (single_output s)) _ Hpos). nia.
Qed.

(** The executions [Fulfillment::new] refuses. *)
Lemma bad_fill_spec (pf : bool) full fill :
  (negb pf && negb (full =? fill)) || (pf && (fill <? full)) = false <->
  full <= fill /\ (pf = false -> full = fill).
Proof. destruct pf, (Z.eqb_spec full fill), (Z.ltb_spec fill full); cbn; split; intuition lia. Qed.

Lemma fulfillment_new_Some o e f r : fulfillment_new o e f = Some r <->
  r = mkFulfillment o e f /\
  (match f with Surplus _ => true | Protocol => false end = solver_determines_fee o) /\
  let full := match side o with Buy => e | Sell => e + default 0 (fee_surplus f) end in
  let fill := match side o with Buy => amount (buy o) | Sell => amount (sell o) end in
  full <= fill /\ (partially_fillable o = false -> full = fill) /\
  (side o = Sell -> full <= U256_MAX).
Proof.
  unfold fulfillment_new. cbv zeta.
  destruct (Bool.eqb _ _) eqn:Hf; cbn [negb];
    [apply Bool.eqb_prop in Hf|apply Bool.eqb_false_iff in Hf; naive_solver].
  destruct (side o) eqn:Hside.
  - destruct (_ || _) eqn:Hb; [|apply bad_fill_spec in Hb; split; [intros [= <-]|intros (-> & _)]; naive_solver].
    split; [done|]. intros (_ & _ & H1 & H2 & _).
    rewrite (proj2 (bad_fill_spec _ _ _)) in Hb; naive_solver.
  - destruct (checked_add e _) as [full|] eqn:Hadd.
    + apply checked_add_Some in Hadd as [-> Hadd].
      destruct (_ || _) eqn:Hb; [|apply bad_fill_spec in Hb; split; [intros [= <-]|intros (-> & _)]; naive_solver].
      split; [done|]. intros (_ & _ & H1 & H2 & _).
      rewrite (proj2 (bad_fill_spec _ _ _)) in Hb; naive_solver.
    + split; [done|]. intros (-> & _ & _ & _ & Hmax).
      by rewrite (proj2 (checked_add_Some _ _ _) (conj eq_refl (Hmax eq_refl))) in Hadd.
Qed.
End single.

Section single_properties.
Import SolverSolution.

(** The sides of the two services. *)
Definition driver_side (s : Side) : Order.Side :=
  match s with Buy => Order.Buy | Sell => Order.Sell end.
(** What the user sells and gets when the driver executes the solution of one
    order at its clearing prices. *)
Definition settled_amounts {L} (sol : Solution L) (f : Fulfillment) (paid received : Z) : Prop :=
  exists price_sell price_buy,
    prices sol !! token (sell (order f)) = Some price_sell /\
    prices sol !! token (buy (order f)) = Some price_buy /\
    let p := mkClearingPrices price_sell price_buy in
    sold (driver_side (side (order f))) (executed f) (default 0 (fee_surplus (fee f))) p = Ok paid /\
    bought (driver_side (side (order f))) (executed f) p = Ok received.

Lemma checked_add_le a b : a + b <= U256_MAX -> checked_add a b = Some (a + b).
Proof. intros. by apply checked_add_Some. Qed.
Lemma mul_div_exact a b : 0 < a -> a * b <= U256_MAX -> mul_div a b a = Ok b.
Proof.
  intros Ha Hm. unfold mul_div, checked_mul, checked_div.
  rewrite (proj2 (Z.leb_le _ _)) by done. cbn [ok_or rbind].
  destruct (Z.eqb_spec a 0); [lia|]. by rewrite Z.mul_comm, Z.div_mul.
Qed.
Lemma mul_ceil_div_exact a b : 0 < a -> 0 <= b -> a * b + (a - 1) <= U256_MAX -> mul_ceil_div a b a = Ok b.
Proof.
  intros Ha Hb Hm. unfold mul_ceil_div, checked_mul.
  rewrite (proj2 (Z.leb_le _ _)) by lia. cbn [ok_or rbind].
  assert (checked_ceil_div (a * b) a = Some b) as ->; [|done].
  apply checked_ceil_div_Some; [lia|]. split_and!; [|lia..].
  apply cdiv_unique; lia.
Qed.

(** What an accepted solution of one order says, in mathematical terms. *)
Lemma into_solution_inv {L} (s : Single L) (fee : Z) (sol : Solution L) :
  single_wf s -> 0 <= fee -> into_solution s fee = Ok sol ->
  let o := single_order s in
  let kind := if solver_determines_fee o then Surplus fee else Protocol in
  let f := default 0 (fee_surplus kind) in
  exists paid received,
    single_amounts s f = Ok (paid, received) /\ 0 <= f <= paid /\
    amount (buy o) * paid <= amount (sell o) * received /\
    let executed := match side o with Buy => received | Sell => paid - f end in
    fulfillment_new o executed kind = Some (mkFulfillment o executed kind) /\
    sol = mkSolution 0 (<[token (buy o) := paid - f]> (<[token (sell o) := received]> ∅))
            [TFulfillment (mkFulfillment o executed kind)] [] (single_interactions s) [] (Some (single_gas s)).
Proof.
  intros Hwf Hfee H o kind f.
  assert (Hf : 0 <= f) by (unfold f, kind; destruct (solver_determines_fee o); cbn; lia).
  unfold into_solution in H. fold o in H. fold kind in H. fold f in H.
  destruct (negb _); [discriminate|].
  pose proof (single_amounts_spec s f Hwf Hf) as Hspec.
  apply rbind_Ok in H as ([paid received] & Hamounts & H). rewrite Hamounts in Hspec. cbn [returns] in Hspec.
  exists paid, received. split; [done|].
  apply rbind_Ok in H as (l & Hl & H). apply rbind_Ok in H as (r & Hr & H).
  apply ok_or_Ok, checked_mul_Some in Hl as [-> _]. apply ok_or_Ok, checked_mul_Some in Hr as [-> _].
  destruct (Z.ltb_spec (amount (sell o) * received) (amount (buy o) * paid)) as [|Hlimit]; [discriminate|].
  apply rbind_Ok in H as (e & He & H). apply rbind_Ok in H as (rest & Hrest & H).
  apply rbind_Ok in H as (g & Hg & H). apply ok_or_Ok, checked_sub_Some in Hrest as [-> Hrest].
  assert (e = match side o with Buy => received | Sell => paid - f end) as ->.
  { revert He. destruct (side o); intros He.
    { by injection He. }
    apply ok_or_Ok, checked_sub_Some in He. lia. }
  apply ok_or_Ok in Hg. pose proof Hg as Hg'. apply fulfillment_new_Some in Hg' as [-> _].
  split_and!; [done..|]. by injection H as <-.
Qed.

Lemma single_settled {L} (s : Single L) (fee : Z) (sol : Solution L) :
  let o := single_order s in
  single_wf s -> 0 <= fee ->
  token (sell o) <> token (buy o) -> 0 < amount (sell o) -> 0 < amount (buy o) ->
  0 < amount (single_output s) ->
  (side o = Sell -> amount (single_input s) <= amount (sell o)) ->
  into_solution s fee = Ok sol ->
  exists f paid received,
    trades sol = [TFulfillment f] /\ order f = o /\ interactions sol = single_interactions s /\ 0 < received /\
    (amount (sell o) * (received + 1) <= U256_MAX -> settled_amounts sol f paid received) /\
    amount (single_input s) <= paid /\ received <= amount (single_output s) /\
    amount (buy o) * paid <= amount (sell o) * received /\
    paid <= amount (sell o) /\ (side o = Buy -> received <= amount (buy o)) /\
    (partially_fillable o = false ->
       match side o with Buy => received = amount (buy o) | Sell => paid = amount (sell o) end).
Proof.
  intros o Hwf Hfee Htok Hs0 Hb0 Ho0 Hin H.
  destruct (into_solution_inv s fee sol Hwf Hfee H) as (paid & received & Ha & Hf & Hlimit & Hfill & ->).
  fold o in Ha, Hf, Hlimit, Hfill |- *.
  set (kind := if solver_determines_fee o then Surplus fee else Protocol) in *.
  set (f := default 0 (fee_surplus kind)) in *.
  pose proof (single_amounts_spec s f Hwf (proj1 Hf)) as Hspec. rewrite Ha in Hspec.
  cbn [returns] in Hspec. fold o in Hspec. destruct Hspec as [Hrec Hspec].
  apply fulfillment_new_Some in Hfill as (_ & _ & Hfull & Hexact & _).
  assert (Hnn : 0 <= amount (single_input s)) by apply Hwf.
  eexists _, paid, received. split; [done|]. split; [done|]. split; [done|].
  unfold settled_amounts. cbn [prices order executed SolverSolution.fee]. fold f.
  destruct (side o) eqn:Hside; cbn [driver_side].
  - destruct Hspec as [-> ->]. split; [lia|]. split.
    { intros Hmul. exists (amount (single_output s)), (amount (single_input s)). split_and!.
      - by rewrite lookup_insert_ne, lookup_insert_eq.
      - rewrite lookup_insert_eq. f_equal. lia.
      - unfold sold. cbn [price_sell price_buy]. rewrite mul_div_exact; [|lia|nia]. cbn [rbind].
        rewrite checked_add_le; [done|].
        destruct Hwf as (_ & _ & [_ Hu] & _). fold o in Hu. nia.
      - done. }
    split_and!; [lia|lia|lia|nia|intros; lia|intros Hp; apply (Hexact Hp)].
  - destruct Hspec as (_ & Hpaid & Hinp & Hreceived). specialize (Hin eq_refl).
    assert (0 < paid - f).
    { destruct (decide (paid - f = 0)) as [Hz|]; [|lia]. exfalso.
      rewrite Hz, Z.mul_0_l in Hreceived. assert (received = 0); [|nia].
      rewrite Hreceived. symmetry. apply cdiv_unique; lia. }
    split; [nia|]. split.
    { intros Hmul. exists received, (paid - f). split_and!.
      - by rewrite lookup_insert_ne, lookup_insert_eq.
      - by rewrite lookup_insert_eq.
      - unfold sold. cbn [rbind]. rewrite checked_add_le; [cbn; f_equal; lia|].
        destruct Hwf as (_ & _ & [_ Hu] & _). fold o in Hu. lia.
      - unfold bought. cbn [price_sell price_buy]. apply mul_ceil_div_exact; [lia|lia|]. nia. }
    split_and!; [lia|lia|lia|lia|done|]. intros Hp. specialize (Hexact Hp). lia.
Qed.

(** An accepted solution of one order settles: at its prices the driver
    has the user pay enough for the swap and receive no more than the swap
    buys, never at a worse price than the limit and never beyond the amounts
    of the order, all of them if the order is fill-or-kill. The driver cannot
    compute the amounts only where a product leaves 256 bits. *)
Theorem single_solution_settles {L} (s : Single L) (fee : Z) (sol : Solution L) :
  let o := single_order s in
  single_wf s -> 0 <= fee ->
  token (sell o) <> token (buy o) -> 0 < amount (sell o) -> 0 < amount (buy o) ->
  0 < amount (single_output s) ->
  (side o = Sell -> amount (single_input s) <= amount (sell o)) ->
  into_solution s fee = Ok sol ->
  exists f paid received,
    trades sol = [TFulfillment f] /\ order f = o /\
    (amount (sell o) * (received + 1) <= U256_MAX -> settled_amounts sol f paid received) /\
    amount (single_input s) <= paid /\ received <= amount (single_output s) /\
    amount (buy o) * paid <= amount (sell o) * received /\
    paid <= amount (sell o) /\ (side o = Buy -> received <= amount (buy o)) /\
    (partially_fillable o = false ->
       match side o with Buy => received = amount (buy o) | Sell => paid = amount (sell o) end).
Proof.
  intros o Hwf Hfee Ht Hs Hb Ho Hi H.
  destruct (single_settled s fee sol Hwf Hfee Ht Hs Hb Ho Hi H) as (f & paid & received & ? & ? & _ & _ & ?).
  exists f, paid, received. done.
Qed.
End single_properties.

(** * Internalization by the buffers *)
Section internalization.
Import SolverSolution.
Context {L : Type} (tokens : Tokens).
Implicit Types (i : Interaction L) (used m : gmap Z Z) (t : Z).

(** How much of a token a list of assets asks for. *)
Definition asked_for (t : Z) (l : list Asset) : Z :=
  foldr (fun a n => (if decide (token a = t) then amount a else 0) + n) 0 l.
Definition amounts_unsigned (l : list Asset) : Prop := Forall (fun a => 0 <= amount a) l.
(** The buffers in use fit into what the settlement contract holds. *)
Definition within used : Prop :=
  forall t v, used !! t = Some v ->
    0 <= v <= U256_MAX /\ exists tok, tokens !! t = Some tok /\ v <= available_balance tok.
Definition unsigned m : Prop := forall t, 0 <= default 0 (m !! t).

Lemma within_unsigned used : within used -> unsigned used.
Proof. intros Hw t. destruct (used !! t) eqn:E; cbn; [by apply Hw in E as [? _]; lia|lia]. Qed.

Lemma require_output_spec used m a m' : unsigned m -> 0 <= amount a ->
  require_output tokens used m a = Ok m' ->
  m' = <[token a := amount a + default 0 (m !! token a)]> m /\
  amount a + default 0 (m !! token a) + default 0 (used !! token a) <= U256_MAX /\
  exists tok, tokens !! token a = Some tok /\
    amount a + default 0 (m !! token a) + default 0 (used !! token a) <= available_balance tok.
Proof.
  intros Hm Ha H. unfold require_output in H. inv_ok.
  apply checked_add_Some in Hv as [-> _]. apply checked_add_Some in Hv0 as [-> Hle].
  match type of H with context [if ?b then _ else _] => destruct b eqn:Hb end; inv_ok. bool_to_prop. eauto.
Qed.

(** The amounts a list of outputs requires on top of the buffers in use. *)
Definition required_within used m : Prop :=
  unsigned m /\ forall t v, m !! t = Some v ->
    v + default 0 (used !! t) <= U256_MAX /\
    exists tok, tokens !! t = Some tok /\ v + default 0 (used !! t) <= available_balance tok.

Lemma required_buffers_from used m l m' : required_within used m -> amounts_unsigned l ->
  rfold (require_output tokens used) m l = Ok m' ->
  required_within used m' /\ forall t, default 0 (m' !! t) = default 0 (m !! t) + asked_for t l.
Proof.
  intros Hm Hl. revert m Hm. induction Hl as [|a l Ha Hl IH]; intros m Hm H; cbn [rfold] in H.
  { inv_ok. split; [done|]. intros t. cbn. lia. }
  apply rbind_Ok in H as (m1 & H1 & H). destruct Hm as [Hu Hm].
  apply require_output_spec in H1 as (-> & Hmax & tok & Htok & Hle); [|done..].
  apply IH in H as [H Heq].
  - split; [done|]. intros t. rewrite Heq. cbn [asked_for foldr]. fold (asked_for t l).
    destruct (decide (token a = t)) as [<-|Hne].
    + rewrite lookup_insert_eq. cbn. lia.
    + rewrite lookup_insert_ne by done. lia.
  - split.
    + intros t. destruct (decide (token a = t)) as [<-|Hne].
      * rewrite lookup_insert_eq. cbn. pose proof (Hu (token a)). lia.
      * rewrite lookup_insert_ne by done. apply Hu.
    + intros t v Hv. apply lookup_insert_Some in Hv as [[<- <-]|[_ Hv]]; [eauto|by apply Hm].
Qed.

Lemma require_never_panics used m l : rfold (require_output tokens used) m l <> Panic.
Proof.
  apply (returns_panic_free (fun _ => True)). apply rfold_returns; [done|].
  intros m1 a _ _. unfold require_output, opt. no_panic; done.
Qed.

(** Adding the amounts of distinct tokens to the buffers in use. *)
Lemma use_buffers {E} (l : list (Z * Z)) used : NoDup l.*1 ->
  (forall t v, (t, v) ∈ l -> default 0 (used !! t) + v <= U256_MAX) ->
  total (fun used' => forall t, used' !! t =
      match list_to_map (M:=gmap Z Z) l !! t with
      | Some v => Some (default 0 (used !! t) + v)
      | None => used !! t
      end) (rfold use_buffer used l : res E (gmap Z Z)).
Proof.
  revert used. induction l as [|[t v] l IH]; intros used Hnd Hmax; cbn [rfold].
  { cbn. intros t. by rewrite lookup_empty. }
  cbn in Hnd. apply NoDup_cons in Hnd as [Hnin Hnd].
  unfold use_buffer at 1. rewrite checked_add_le by (apply (Hmax t); left). cbn [opt_expect rbind].
  eapply total_mono; [apply IH; [done|]|].
  - intros t' v' Hin. destruct (decide (t = t')) as [<-|Hne].
    + destruct Hnin. apply list_elem_of_fmap. by exists (t, v').
    + rewrite lookup_insert_ne by done. apply Hmax. by right.
  - cbn. intros used' Hused t'. rewrite Hused. destruct (decide (t = t')) as [<-|Hne].
    + rewrite not_elem_of_list_to_map_1 by done. cbn [list_to_map foldr].
      by rewrite !lookup_insert_eq.
    + cbn [list_to_map foldr]. by rewrite !lookup_insert_ne by done.
Qed.

(** What one round leaves of an interaction. *)
Definition internalized i i' : Prop :=
  i' = i \/ i' = set_internalize i /\ inputs i <> [] /\ outputs i <> [] /\ trusted_inputs tokens i = true.

Lemma internalize_one_spec {E} used i : within used -> amounts_unsigned (outputs i) ->
  total (fun '(used', i') => within used' /\ internalized i i' /\
    (i' = i /\ used' = used \/
     i' = set_internalize i /\
     forall t, default 0 (used' !! t) = default 0 (used !! t) + asked_for t (outputs i)))
    (internalize_one tokens used i : res E _).
Proof.
  intros Hw Ho. unfold internalize_one. destruct (_ || _) eqn:Hskip; [cbn; unfold internalized; auto|].
  bool_to_prop. match goal with H : bool_decide (inputs i = []) = false |- _ => apply bool_decide_eq_false in H end.
  match goal with H : bool_decide (outputs i = []) = false |- _ => apply bool_decide_eq_false in H end.
  unfold required_buffers.
  destruct (rfold _ ∅ _) as [req| |] eqn:Hreq; [|cbn; unfold internalized; auto|by apply require_never_panics in Hreq].
  apply required_buffers_from in Hreq as [[Hu Hreq] Hasked]; [|by split; [intros t; rewrite lookup_empty|intros t v; rewrite lookup_empty]|done].
  eapply total_bind.
  { apply use_buffers; [apply NoDup_fst_map_to_list|]. intros t v Hin%elem_of_map_to_list.
    apply Hreq in Hin. lia. }
  intros used' Hused. rewrite list_to_map_to_list in Hused. cbn. split; [|split].
  - intros t v Hv. rewrite Hused in Hv. destruct (req !! t) as [r|] eqn:Hr; [|by apply Hw in Hv].
    injection Hv as <-. pose proof (Hu t) as Hrt. rewrite Hr in Hrt. cbn in Hrt.
    pose proof (within_unsigned _ Hw t). apply Hreq in Hr as (? & tok & ? & ?).
    split; [lia|]. exists tok. split; [done|lia].
  - right. auto.
  - right. split; [done|]. intros t. rewrite Hused. specialize (Hasked t). rewrite lookup_empty in Hasked.
    destruct (req !! t); cbn in *; lia.
Qed.

(** Whatever the amounts are, only flags of trusted interactions change. *)
Lemma internalize_all_Ok {E} used l l' :
  internalize_all tokens used l = (Ok l' : res E _) -> Forall2 internalized l l'.
Proof.
  revert used l'. induction l as [|i l IH]; intros used l' H; cbn [internalize_all] in H.
  { inv_ok. constructor. }
  apply rbind_Ok in H as ([used1 i'] & Hi & H). apply rbind_Ok in H as (l1 & Hl & H). inv_ok.
  constructor; [|by eapply IH]. unfold internalize_one in Hi. destruct (_ || _) eqn:Hskip.
  { inv_ok. by left. }
  bool_to_prop. match goal with H : bool_decide (inputs i = []) = false |- _ => apply bool_decide_eq_false in H end.
  match goal with H : bool_decide (outputs i = []) = false |- _ => apply bool_decide_eq_false in H end.
  destruct (required_buffers _ _ _); [|inv_ok; by left|done].
  apply rbind_Ok in Hi as (u & _ & Hi). inv_ok. right. done.
Qed.

(** How much of a token the interactions put out that were turned on. *)
Fixpoint newly (t : Z) (l l' : list (Interaction L)) : Z :=
  match l, l' with
  | i :: l, i' :: l' =>
      (if negb (internalize i) && internalize i' then asked_for t (outputs i) else 0) + newly t l l'
  | _, _ => 0
  end.

Lemma asked_for_unsigned t l : amounts_unsigned l -> 0 <= asked_for t l.
Proof. induction 1; cbn [asked_for foldr]; [done|]. fold (asked_for t l). case_decide; lia. Qed.

Lemma internalize_all_spec {E} used l : within used -> Forall (fun i => amounts_unsigned (outputs i)) l ->
  total (fun l' => Forall2 internalized l l' /\
    forall t, newly t l l' = 0 \/ exists tok, tokens !! t = Some tok /\
      default 0 (used !! t) + newly t l l' <= available_balance tok)
    (internalize_all tokens used l : res E _).
Proof.
  intros Hw Hl. revert used Hw. induction Hl as [|i l Hi Hl IH]; intros used Hw; cbn [internalize_all].
  { cbn. split; [constructor|]. by left. }
  eapply total_bind; [by apply internalize_one_spec|]. intros [used1 i'] (Hw1 & Hkept & Hcase).
  eapply total_bind; [by apply IH|]. intros l' [Hall Hnew]. cbn. split; [by constructor|].
  intros t. specialize (Hnew t). destruct Hcase as [[-> ->]|[-> Hused]].
  { rewrite andb_negb_l. exact Hnew. }
  specialize (Hused t). pose proof (asked_for_unsigned t _ Hi). pose proof (within_unsigned _ Hw t).
  set (n := if _ : bool then _ else _). assert (n = 0 \/ n = asked_for t (outputs i)) as Hn by (unfold n; case_match; auto).
  destruct Hnew as [Hz|(tok & Htok & Hle)]; [|right; exists tok; split; [done|lia]].
  destruct (decide (n = 0)) as [|Hn0]; [left; lia|]. right.
  destruct (used1 !! t) as [v|] eqn:Hv; cbn in Hused; [|lia].
  apply Hw1 in Hv as (_ & tok & Htok & Hle). exists tok. split; [done|lia].
Qed.

(** Letting the buffers replace interactions never panics, changes nothing
    but the flag of interactions whose inputs are all trusted, and the outputs
    of those turned on, summed over the solution, stay within what the
    settlement contract holds of each token. *)
Theorem internalizations_within_buffers {E} (s : Solution L) :
  Forall (fun i => amounts_unsigned (outputs i)) (interactions s) ->
  exists l, with_buffers_internalizations s tokens =
      (Ok (mkSolution (id s) (prices s) (trades s) (pre_interactions s) l (post_interactions s) (gas s)) : res E _) /\
    Forall2 internalized (interactions s) l /\
    forall t, newly t (interactions s) l = 0 \/
      exists tok, tokens !! t = Some tok /\ newly t (interactions s) l <= available_balance tok.
Proof.
  intros Hl. unfold with_buffers_internalizations.
  destruct (total_Ok _ _ (internalize_all_spec (E:=E) ∅ (interactions s) ltac:(intros t v; by rewrite lookup_empty) Hl))
    as (l & -> & Hall & Hnew).
  exists l. split_and!; [done..|]. intros t. specialize (Hnew t). rewrite lookup_empty in Hnew. exact Hnew.
Qed.
End internalization.

Section witnesses.
Import SolverSolution.
Let order : Order := mkOrder 7 (mkAsset 100 1) (mkAsset 50 2) Sell Limit false.
Let single : Single unit := mkSingle order (mkAsset 100 1) (mkAsset 60 2) [] 5.

(** The fee of 10 comes out of the 100 sold: 90 are swapped at 60 for 100. *)
Example single_with_fee :
  into_solution single 10 =
    Ok (mkSolution 0 (<[2 := 90]> (<[1 := 54]> ∅)) [TFulfillment (mkFulfillment order 90 (Surplus 10))] [] [] [] (Some 5)).
Proof. vm_compute. reflexivity. Qed.

Lemma single_solution_settles_witness :
  exists f paid received,
    trades (mkSolution (L:=unit) 0 (<[2 := 90]> (<[1 := 54]> ∅)) [TFulfillment (mkFulfillment order 90 (Surplus 10))] [] [] [] (Some 5)) =
      [TFulfillment f] /\ SolverSolution.order f = order /\
    (100 * (received + 1) <= U256_MAX -> settled_amounts (mkSolution (L:=unit) 0 (<[2 := 90]> (<[1 := 54]> ∅))
      [TFulfillment (mkFulfillment order 90 (Surplus 10))] [] [] [] (Some 5)) f paid received) /\
    100 <= paid /\ received <= 60 /\ 50 * paid <= 100 * received /\ paid <= 100 /\
    (Sell = Buy -> received <= 50) /\ (false = false -> paid = 100).
Proof.
  apply (single_solution_settles single 10); try (vm_compute; congruence).
  all: vm_compute; split_and?; discriminate.
Defined.

Lemma internalizations_within_buffers_witness :
  let tokens : Tokens := {[1 := mkToken None 0 true; 2 := mkToken None 10 false]} in
  let i n := ILiquidity (mkLiquidityInteraction tt (mkAsset 5 1) (mkAsset n 2) false) in
  exists l, with_buffers_internalizations (mkSolution 0 ∅ [] [] [i 8; i 7; i 2] [] None) tokens =
      (Ok (mkSolution 0 ∅ [] [] l [] None) : res unit _) /\
    Forall2 (internalized tokens) [i 8; i 7; i 2] l /\
    forall t, newly t [i 8; i 7; i 2] l = 0 \/
      exists tok, tokens !! t = Some tok /\ newly t [i 8; i 7; i 2] l <= available_balance tok.
Proof.
  intros tokens i.
  apply (internalizations_within_buffers tokens (mkSolution 0 ∅ [] [] [i 8; i 7; i 2] [] None)).
  repeat constructor; cbn; lia.
Defined.
(** The second of them does not fit and stays. *)
Example second_does_not_fit :
  let tokens : Tokens := {[1 := mkToken None 0 true; 2 := mkToken None 10 false]} in
  let i n b := ILiquidity (mkLiquidityInteraction tt (mkAsset 5 1) (mkAsset n 2) b) in
  internalize_all tokens ∅ [i 8 false; i 7 false; i 2 false] = (Ok [i 8 true; i 7 false; i 2 true] : res unit _).
Proof. vm_compute. reflexivity. Qed.
End witnesses.
