(* ===== verification/BaselineEngine.v ===== *)
(** The baseline solver engine: crates/solvers/src/domain/solver/baseline.rs and
    boundary/baseline.rs, with the liquidity of domain/liquidity and its
    conversion in boundary/liquidity.

    The engine looks for the best route of each user order over the liquidity
    of the auction, halving the amounts of partially fillable orders until one
    is found. A boundary pool of Balancer is represented by the reference its
    quotes are made through. Uniswap V3 pools are data here, as no engine uses
    them. The lossy conversions between U256 and floats are parameters. *)
From Stdlib Require Import ZArith Lia.
From stdpp Require Import prelude gmap strings sorting.
From S2P Require Import Prelude U256 FixedPoint BaselineSolver UniswapV2 BalancerSwap Floats SolverSolution.

Open Scope Z_scope.
Open Scope rust_scope.
Import SolverEth SolverOrder SolverAuction.

(** * domain/liquidity *)
Module SolverLiquidity.
(** [eth::Rational]: a [Ratio<U256>]. *)
Record Rational : Type := mkRational { numer : Z; denom : Z }.

(** [ScalingFactor::new] *)
Definition scaling_factor_new (value : Rational) : option Rational :=
  if (numer value =? 0) || (denom value =? 0) then None else Some value.

(** ** constant_product.rs *)
Record ConstantProductPool : Type := mkConstantProductPool {
  cp_reserves : Asset * Asset;
  cp_fee : Rational;
}.
(** [Reserves::new]: reserves are limited to uint112 and ordered by token. *)
Definition cp_reserves_new (a b : Asset) : option (Asset * Asset) :=
  let max := 2 ^ 112 - 1 in
  if (max <? amount a) || (max <? amount b) then None
  else
    match token a ?= token b with
    | Lt => Some (a, b)
    | Eq => None
    | Gt => Some (b, a)
    end.
Definition cp_tokens {E} (self : ConstantProductPool) : res E TokenPair.TokenPair :=
  opt_expect (TokenPair.new (token (cp_reserves self).1) (token (cp_reserves self).2)).
Definition cp_k {E} (self : ConstantProductPool) : res E Z :=
  opt_expect (checked_mul (amount (cp_reserves self).1) (amount (cp_reserves self).2)).

(** ** weighted_product.rs and stable.rs *)
Record WeightedReserve : Type := mkWeightedReserve { w_asset : Asset; w_weight : Rational; w_scale : Rational }.
Inductive Version : Type := V0 | V3Plus.
Record WeightedPool : Type := mkWeightedPool {
  w_reserves : list WeightedReserve;
  w_fee : Rational;
  w_version : Version;
}.
Record StableReserve : Type := mkStableReserve { s_asset : Asset; s_scale : Rational }.
Record StablePool : Type := mkStablePool {
  s_reserves : list StableReserve;
  s_amplification_parameter : Rational;
  s_fee : Rational;
}.
(** [Reserves::new] of both: sorted by token, without duplicates. *)
Fixpoint has_duplicates (tokens : list Z) : bool :=
  match tokens with
  | a :: ((b :: _) as rest) => (a =? b) || has_duplicates rest
  | _ => false
  end.
Definition by_token {A} (key : A -> Z) (x y : A) : Prop := key x <= key y.
#[local] Instance by_token_dec {A} (key : A -> Z) : RelDecision (by_token key).
Proof. intros x y. unfold by_token. apply _. Defined.
Definition reserves_new {A} (key : A -> Z) (reserves : list A) : option (list A) :=
  let reserves := merge_sort (by_token key) reserves in
  if has_duplicates (map key reserves) then None else Some reserves.
(** [token_pairs]: the pairs in the order of [tuple_combinations]. *)
Fixpoint token_pairs {E} (tokens : list Z) : res E (list TokenPair.TokenPair) :=
  match tokens with
  | [] => Ok []
  | a :: rest =>
      let* pairs := rmap (fun b => opt_expect (TokenPair.new a b)) rest in
      let* more := token_pairs rest in
      Ok (pairs ++ more)
  end.

(** ** concentrated.rs and limit_order.rs *)
Record ConcentratedPool : Type := mkConcentratedPool {
  c_tokens : TokenPair.TokenPair;
  sqrt_price : Z;
  c_liquidity : Z;
  tick : Z;
  liquidity_net : gmap Z Z;
  c_fee : Rational;
}.
Record LimitOrder : Type := mkLimitOrder { maker : Asset; taker : Asset; taker_fee : Z }.

Inductive State : Type :=
| ConstantProduct (pool : ConstantProductPool)
| WeightedProduct (pool : WeightedPool)
| Stable (pool : StablePool)
| Concentrated (pool : ConcentratedPool)
| StateLimitOrder (order : LimitOrder).
Record Liquidity : Type := mkLiquidity { id : string; address : Z; gas : Z; state : State }.
End SolverLiquidity.
Import SolverLiquidity.

(** * boundary/liquidity *)
Module BoundaryLiquidity.
(** [U256::as_u128] panics beyond 128 bits. *)
Definition as_u128 (z : Z) : res unit Z := if z <? 2 ^ 128 then Ok z else Panic.
Definition U32_MAX : Z := 2 ^ 32 - 1.
(** [num::rational::Ratio::new]: in lowest terms; a zero denominator panics. *)
Definition ratio_new (n d : Z) : res unit UniswapV2.Ratio :=
  if d =? 0 then Panic
  else let g := Z.gcd n d in Ok (UniswapV2.mkRatio (n / g) (d / g)).

Definition constant_product_to_boundary (address : Z) (pool : ConstantProductPool) : res unit UniswapV2.Pool :=
  let '(a, b) := cp_reserves pool in
  let* tokens := opt_expect (TokenPair.new (token a) (token b)) in
  let* r0 := as_u128 (amount a) in
  let* r1 := as_u128 (amount b) in
  if (U32_MAX <? numer (cp_fee pool)) || (U32_MAX <? denom (cp_fee pool)) then Err tt
  else
    let* fee := ratio_new (numer (cp_fee pool)) (denom (cp_fee pool)) in
    Ok (UniswapV2.mkPool address tokens (r0, r1) fee).

(** Balancer's fixed point numbers have 18 decimals. *)
Definition to_fixed_point (ratio : Rational) : res unit Z :=
  let* n := opt (checked_mul (numer ratio) (10 ^ 18)) in u_div n (denom ratio).

Definition weighted_to_boundary (pool : WeightedPool) : res unit BalancerSwap.WeightedPoolRef :=
  let* swap_fee := to_fixed_point (w_fee pool) in
  let* reserves := rmap (fun reserve =>
    let* scaling_factor := to_fixed_point (w_scale reserve) in
    let* weight := to_fixed_point (w_weight reserve) in
    Ok (token (w_asset reserve),
        BalancerSwap.mkWeightedTokenState
          (BalancerSwap.mkTokenState (amount (w_asset reserve)) scaling_factor) weight)) (w_reserves pool) in
  Ok (BalancerSwap.mkWeightedPoolRef
    (foldl (fun m '(k, v) => bt_insert m k v) [] reserves) swap_fee
    match w_version pool with V0 => BalancerSwap.V0 | V3Plus => BalancerSwap.V3Plus end).

Definition stable_to_boundary (address : Z) (pool : StablePool) : res unit BalancerSwap.StablePoolRef :=
  let* swap_fee := to_fixed_point (s_fee pool) in
  let* reserves := rmap (fun reserve =>
    let* scaling_factor := to_fixed_point (s_scale reserve) in
    Ok (token (s_asset reserve), BalancerSwap.mkTokenState (amount (s_asset reserve)) scaling_factor))
    (s_reserves pool) in
  let* amplification := BalancerSwap.amplification_new
    (numer (s_amplification_parameter pool)) (denom (s_amplification_parameter pool)) in
  Ok (BalancerSwap.mkStablePoolRef address
    (foldl (fun m '(k, v) => bt_insert m k v) [] reserves) swap_fee amplification).

(** ** limit_order.rs *)
Definition GAS_PER_ZEROEX_ORDER : Z := 66358.
Definition limit_get_amount_out (self : LimitOrder) (out_token : H160) (inp : Z * H160) : res unit Z :=
  let '(in_amount, in_token) := inp in
  if negb (in_token =? token (taker self)) || negb (out_token =? token (maker self)) ||
     (amount (taker self) <? in_amount)
  then Err tt
  else
    let* p := opt (checked_mul in_amount (amount (maker self))) in
    opt (checked_div p (amount (taker self))).
Definition limit_get_amount_in (self : LimitOrder) (in_token : H160) (out : Z * H160) : res unit Z :=
  let '(out_amount, out_token) := out in
  if negb (out_token =? token (maker self)) || negb (in_token =? token (taker self)) ||
     (amount (maker self) <? out_amount)
  then Err tt
  else
    let* p := opt (checked_mul out_amount (amount (taker self))) in
    opt (checked_div p (amount (maker self))).
End BoundaryLiquidity.
Import BoundaryLiquidity.

#[global] Instance limit_order_solvable : BaselineSolvable LimitOrder := {
  get_amount_out := limit_get_amount_out;
  get_amount_in := limit_get_amount_in;
  gas_cost _ := GAS_PER_ZEROEX_ORDER;
}.

(** * boundary/baseline.rs *)
Module BoundarySolver.
Inductive LiquiditySource : Type :=
| SConstantProduct (pool : UniswapV2.Pool)
| SWeightedProduct (pool : BalancerSwap.WeightedPoolRef)
| SStable (pool : BalancerSwap.StablePoolRef)
| SLimitOrder (order : LimitOrder).
Record OnchainLiquidity : Type := mkOnchainLiquidity {
  onchain_id : string;
  token_pair : TokenPair.TokenPair;
  source : LiquiditySource;
}.

#[export] Instance onchain_solvable : BaselineSolvable OnchainLiquidity := {
  get_amount_out self out_token inp :=
    match source self with
    | SConstantProduct pool => get_amount_out pool out_token inp
    | SWeightedProduct pool => get_amount_out pool out_token inp
    | SStable pool => get_amount_out pool out_token inp
    | SLimitOrder order => get_amount_out order out_token inp
    end;
  get_amount_in self in_token out :=
    match source self with
    | SConstantProduct pool => get_amount_in pool in_token out
    | SWeightedProduct pool => get_amount_in pool in_token out
    | SStable pool => get_amount_in pool in_token out
    | SLimitOrder order => get_amount_in order in_token out
    end;
  gas_cost self :=
    match source self with
    | SConstantProduct pool => gas_cost pool
    | SWeightedProduct pool => gas_cost pool
    | SStable pool => gas_cost pool
    | SLimitOrder order => gas_cost order
    end;
}.

(** [HashMap::entry(pair).or_default().push(..)] *)
Definition push (m : gmap TokenPair.TokenPair (list OnchainLiquidity)) (l : OnchainLiquidity)
  : gmap TokenPair.TokenPair (list OnchainLiquidity) :=
  <[token_pair l := default [] (m !! token_pair l) ++ [l]]> m.
Definition push_pairs (m : gmap TokenPair.TokenPair (list OnchainLiquidity)) (id : string)
    (pairs : list TokenPair.TokenPair) (source : LiquiditySource)
  : gmap TokenPair.TokenPair (list OnchainLiquidity) :=
  foldl (fun m tokens => push m (mkOnchainLiquidity id tokens source)) m pairs.

(** [to_boundary_liquidity]: what cannot be converted is left out. *)
Definition add_liquidity (m : gmap TokenPair.TokenPair (list OnchainLiquidity)) (liquidity : Liquidity)
  : res unit (gmap TokenPair.TokenPair (list OnchainLiquidity)) :=
  match state liquidity with
  | ConstantProduct pool =>
      match constant_product_to_boundary (address liquidity) pool with
      | Ok p => Ok (push m (mkOnchainLiquidity (id liquidity) (UniswapV2.tokens p) (SConstantProduct p)))
      | Err _ => Ok m
      | Panic => Panic
      end
  | WeightedProduct pool =>
      match weighted_to_boundary pool with
      | Ok p =>
          let* pairs := token_pairs (map (fun r => token (w_asset r)) (w_reserves pool)) in
          Ok (push_pairs m (id liquidity) pairs (SWeightedProduct p))
      | Err _ => Ok m
      | Panic => Panic
      end
  | Stable pool =>
      match stable_to_boundary (address liquidity) pool with
      | Ok p =>
          let* pairs := token_pairs (map (fun r => token (s_asset r)) (s_reserves pool)) in
          Ok (push_pairs m (id liquidity) pairs (SStable p))
      | Err _ => Ok m
      | Panic => Panic
      end
  | StateLimitOrder order =>
      match TokenPair.new (token (maker order)) (token (taker order)) with
      | Some tokens => Ok (push m (mkOnchainLiquidity (id liquidity) tokens (SLimitOrder order)))
      | None => Ok m
      end
  | Concentrated _ => Ok m
  end.
Definition to_boundary_liquidity (liquidity : list Liquidity)
  : res unit (gmap TokenPair.TokenPair (list OnchainLiquidity)) :=
  rfold add_liquidity ∅ liquidity.

Record Solver : Type := mkSolver {
  solver_base_tokens : Baseline.BaseTokens;
  onchain_liquidity : gmap TokenPair.TokenPair (list OnchainLiquidity);
  liquidity : gmap string Liquidity;
}.
(** [Solver::new]; collecting into a HashMap keeps the last of equal ids. *)
Definition new (weth : Z) (base_tokens : gset Z) (liquidity : list Liquidity) : res unit Solver :=
  let* onchain := to_boundary_liquidity liquidity in
  Ok (mkSolver (Baseline.new weth (elements base_tokens)) onchain
        (foldl (fun m l => <[id l := l]> m) ∅ liquidity)).

(** [baseline::Request] and [baseline::Segment] *)
Record Request : Type := mkRequest { request_sell : Asset; request_buy : Asset; request_side : Side }.
Record Segment : Type := mkSegment {
  segment_liquidity : Liquidity;
  segment_input : Asset;
  segment_output : Asset;
  segment_gas : Z;
}.

Definition traverse_hop (self : Solver) (st : list Segment * Z * Z) (l : OnchainLiquidity)
  : res unit (list Segment * Z * Z) :=
  let '(segments, sell_token, sell_amount) := st in
  let* reference_liquidity := opt_expect (liquidity self !! onchain_id l) in
  let* buy_token := opt_expect (TokenPair.other (token_pair l) sell_token) in
  let* buy_amount := get_amount_out l buy_token (sell_amount, sell_token) in
  Ok (segments ++ [mkSegment reference_liquidity (mkAsset sell_amount sell_token)
                     (mkAsset buy_amount buy_token) (gas_cost l)], buy_token, buy_amount).
Definition traverse_path (self : Solver) (path : list OnchainLiquidity) (sell_token sell_amount : Z)
  : res unit (list Segment) :=
  res_map (fun st => st.1.1) (rfold (traverse_hop self) ([], sell_token, sell_amount) path).

(** The closures of [route]: the segments of a candidate path with its
    estimate, when it satisfies the request. *)
Definition buy_candidate (self : Solver) (request : Request) (path : list Z)
  : res unit (list Segment * Baseline.Estimate (L:=OnchainLiquidity)) :=
  let* sell := Baseline.estimate_sell_amount (amount (request_buy request)) path (onchain_liquidity self) in
  let* segments := traverse_path self (Baseline.path sell) (token (request_sell request)) (Baseline.value sell) in
  let covers := match last segments with
                | Some segment => amount (request_buy request) <=? amount (segment_output segment)
                | None => false
                end in
  if negb covers then Err tt
  else if Baseline.value sell <=? amount (request_sell request) then Ok (segments, sell) else Err tt.
Definition sell_candidate (self : Solver) (request : Request) (path : list Z)
  : res unit (list Segment * Baseline.Estimate (L:=OnchainLiquidity)) :=
  let* buy := Baseline.estimate_buy_amount (amount (request_sell request)) path (onchain_liquidity self) in
  let* segments := traverse_path self (Baseline.path buy) (token (request_sell request))
                     (amount (request_sell request)) in
  let covers := match head segments with
                | Some segment => amount (request_sell request) <=? amount (segment_input segment)
                | None => false
                end in
  if negb covers then Err tt
  else if amount (request_buy request) <=? Baseline.value buy then Ok (segments, buy) else Err tt.

(** [route]; [baseline::Route::new] refuses a route without segments. *)
Definition route (self : Solver) (request : Request) (max_hops : nat) : res unit (list Segment) :=
  let candidates := elements (Baseline.path_candidates_with_hops (solver_base_tokens self)
    (token (request_sell request)) (token (request_buy request)) max_hops) in
  let* ' (segments, _) :=
    match request_side request with
    | Buy =>
        let* found := rfilter_map (buy_candidate self request) candidates in
        opt (min_by_key (fun c => Baseline.value c.2) found)
    | Sell =>
        let* found := rfilter_map (sell_candidate self request) candidates in
        opt (max_by_key (fun c => Baseline.value c.2) found)
    end in
  if bool_decide (length segments = 0%nat) then Err tt else Ok segments.
End BoundarySolver.
Import BoundarySolver.

(** * domain/solver/baseline.rs *)
Module BaselineEngine.
(** [Config], which [Inner] copies. *)
Record Inner : Type := mkInner {
  weth : Z;
  base_tokens : gset Z;
  max_hops : nat;
  max_partial_attempts : nat;
  solution_gas_offset : Z;
  native_token_price_estimation_amount : Z;
}.
Record Auction : Type := mkAuction {
  tokens : Tokens;
  orders : list Order;
  auction_liquidity : list Liquidity;
  gas_price : Z;
}.

(** [Route::input], [Route::output] and [Route::gas] *)
Definition route_input (segments : list Segment) : res unit Asset :=
  opt_expect (segment_input <$> head segments).
Definition route_output (segments : list Segment) : res unit Asset :=
  opt_expect (segment_output <$> last segments).
Definition route_gas (segments : list Segment) : Z :=
  foldl (fun acc segment => saturating_add acc (segment_gas segment)) 0 segments.

(** The [i]th item of [requests_for_order]: halved [i] times; a divisor of
    256 bits is zero, and the division panics. Zero amounts are filtered out. *)
Definition request_for_order (order : Order) (i : nat) : res unit Request :=
  let divisor := Z.shiftl 1 (Z.of_nat i) mod 2 ^ 256 in
  let* sell_amount := u_div (amount (sell order)) divisor in
  let* buy_amount := u_div (amount (buy order)) divisor in
  if (sell_amount =? 0) || (buy_amount =? 0) then Err tt
  else Ok (mkRequest (mkAsset sell_amount (token (sell order))) (mkAsset buy_amount (token (buy order)))
             (side order)).
Definition number_of_requests (self : Inner) (order : Order) : nat :=
  if partially_fillable order then max_partial_attempts self else 1%nat.

Definition native_price_request (self : Inner) (order : Order) : Request :=
  mkRequest (mkAsset (Z.shiftl 1 144) (token (sell order)))
    (mkAsset (native_token_price_estimation_amount self) (weth self)) Buy.

(** [Iterator::find_map] with a closure that may panic. *)
Fixpoint find_map {A B} (f : A -> res unit B) (l : list A) : res unit B :=
  match l with
  | [] => Err tt
  | a :: l => match f a with Ok b => Ok b | Err _ => find_map f l | Panic => Panic end
  end.

Section solve.
Context (to_f64_lossy : Z -> F64.f64) (from_f64_lossy : F64.f64 -> Z).

Definition to_normalized_price (price : F64.f64) : option Z :=
  let uint_max := F64.of_Z (2 ^ 256) in
  let price_in_eth := F64.mul (F64.of_Z (10 ^ 18)) price in
  if F64.is_normal price_in_eth && F64.leb (F64.of_Z 1) price_in_eth && F64.ltb price_in_eth uint_max
  then Some (from_f64_lossy price_in_eth) else None.

(** The price of the sell token; [Err] is the [continue]. *)
Definition sell_token_price (self : Inner) (solver : Solver) (auction : Auction) (order : Order) : res unit Z :=
  let sell_token := token (sell order) in
  match reference_price (tokens auction) sell_token with
  | Some price => Ok price
  | None =>
      if sell_token =? weth self then Ok (10 ^ 18)
      else
        match route solver (native_price_request self order) (max_hops self) with
        | Ok segments =>
            let* inp := route_input segments in
            opt (to_normalized_price (F64.div (to_f64_lossy (native_token_price_estimation_amount self))
                                               (to_f64_lossy (amount inp))))
        | Err _ => Ok U256_MAX
        | Panic => Panic
        end
  end.

(** The closure that tries one request. *)
Definition segment_interaction (segment : Segment) : SolverSolution.Interaction Liquidity :=
  SolverSolution.ILiquidity (SolverSolution.mkLiquidityInteraction
    (segment_liquidity segment) (segment_input segment) (segment_output segment) false).
Definition solve_request (self : Inner) (solver : Solver) (auction : Auction) (i : nat) (order : Order)
    (price : Z) (request : Request) : res unit (SolverSolution.Solution Liquidity) :=
  let* segments := route solver request (max_hops self) in
  let* output := route_output segments in
  let output := match side order with
                | Buy => mkAsset (Z.min (amount output) (amount (buy order))) (token output)
                | Sell => output
                end in
  let gas := add_signed (route_gas segments) (solution_gas_offset self) in
  let* cost := opt (checked_mul gas (gas_price auction)) in
  let* fee := ether_value price cost in
  let* input := route_input segments in
  let* solution := SolverSolution.into_solution
    (SolverSolution.mkSingle order input output (map segment_interaction segments) gas) fee in
  SolverSolution.with_buffers_internalizations
    (SolverSolution.with_id solution (Z.of_nat i mod 2 ^ 64)) (tokens auction).

Definition solve_order (self : Inner) (solver : Solver) (auction : Auction) (i : nat) (order : Order)
  : res unit (SolverSolution.Solution Liquidity) :=
  if negb (is_user_order order) then Err tt
  else
    let* price := sell_token_price self solver auction order in
    find_map (fun n =>
      let* request := request_for_order order n in
      solve_request self solver auction i order price request) (seq 0 (number_of_requests self order)).

(** [Inner::solve]: the solutions in the order they are sent; a panic ends the
    background task. *)
Fixpoint solve_orders (self : Inner) (solver : Solver) (auction : Auction) (i : nat) (orders : list Order)
  : list (SolverSolution.Solution Liquidity) :=
  match orders with
  | [] => []
  | order :: orders =>
      match solve_order self solver auction i order with
      | Ok solution => solution :: solve_orders self solver auction (S i) orders
      | Err _ => solve_orders self solver auction (S i) orders
      | Panic => []
      end
  end.
Definition inner_solve (self : Inner) (auction : Auction) : list (SolverSolution.Solution Liquidity) :=
  match BoundarySolver.new (weth self) (base_tokens self) (auction_liquidity auction) with
  | Ok solver => solve_orders self solver auction 0 (orders auction)
  | _ => []
  end.
(** [Baseline::solve] answers with what was sent before the deadline. *)
Definition solve (self : Inner) (auction : Auction) (sent : nat) : list (SolverSolution.Solution Liquidity) :=
  take sent (inner_solve self auction).
End solve.
End BaselineEngine.

(** * Routes *)
Section routes.
Implicit Types (self : Solver) (l : OnchainLiquidity).

(** Liquidity is registered under its pair of tokens. *)
Definition keyed (m : gmap TokenPair.TokenPair (list OnchainLiquidity)) : Prop :=
  forall tokens ls, m !! tokens = Some ls -> Forall (fun l => token_pair l = tokens) ls.

Lemma push_keyed m l : keyed m -> keyed (push m l).
Proof.
  intros Hm tokens ls Hls. unfold push in Hls. apply lookup_insert_Some in Hls as [[<- <-]|[_ Hls]]; [|by apply Hm].
  apply Forall_app. split; [|by repeat constructor].
  destruct (m !! token_pair l) as [ls|] eqn:E; [exact (Hm _ _ E)|constructor].
Qed.

Lemma push_pairs_keyed m i pairs src : keyed m -> keyed (push_pairs m i pairs src).
Proof. unfold push_pairs. revert m. induction pairs; intros m Hm; cbn; [done|]. apply IHpairs. exact (push_keyed _ _ Hm). Qed.

Lemma to_boundary_keyed liquidity m : to_boundary_liquidity liquidity = Ok m -> keyed m.
Proof.
  intros H. apply (rfold_Ok_inv keyed _ _ _ _ H); [intros ? ?; by rewrite lookup_empty|].
  intros m1 x m2 _ Hm Hx. unfold add_liquidity in Hx.
  destruct (state x); repeat case_match; inv_ok; eauto using push_keyed, push_pairs_keyed.
Qed.

Lemma new_keyed weth base liquidity self :
  BoundarySolver.new weth base liquidity = Ok self -> keyed (onchain_liquidity self).
Proof. unfold BoundarySolver.new. intros H. inv_ok. by eapply to_boundary_keyed. Qed.

Lemma pair_other t u tokens : TokenPair.new t u = Some tokens -> TokenPair.other tokens t = Some u /\ t <> u.
Proof.
  intros [Hne ->]%pair_new_Some. split; [|done]. unfold TokenPair.other. cbn.
  destruct (Z.eqb_spec (Z.min t u) t); [f_equal; lia|].
  destruct (Z.eqb_spec (Z.max t u) t); [f_equal; lia|lia].
Qed.

(** A segment is what a registered liquidity quotes for its input. *)
Definition quoted self l (s : Segment) : Prop :=
  liquidity self !! onchain_id l = Some (segment_liquidity s) /\ segment_gas s = gas_cost l /\
  (exists pools, onchain_liquidity self !! token_pair l = Some pools /\ l ∈ pools) /\
  get_amount_out l (token (segment_output s)) (amount (segment_input s), token (segment_input s))
    = Ok (amount (segment_output s)).
(** Segments that turn one asset into another, each selling all that the one
    before bought. *)
Fixpoint connected self (from : Asset) (segments : list Segment) (to : Asset) : Prop :=
  match segments with
  | [] => from = to
  | s :: segments =>
      segment_input s = from /\ token (segment_output s) <> token from /\
  (exists l, quoted self l s) /\ connected self (segment_output s) segments to
  end.

Lemma traverse_connected self h p path a0 b0 : keyed (onchain_liquidity self) ->
  (forall t u l a b, h t u l a b -> exists pools, pools_between (onchain_liquidity self) t u pools /\ l ∈ pools) ->
  BaselineSolver.route h p path a0 b0 -> forall t acc a segments t' a',
  head p = Some t -> rfold (traverse_hop self) (acc, t, a) path = Ok (segments, t', a') ->
  exists s, segments = acc ++ s /\ length s = length path /\ last p = Some t' /\
  connected self (mkAsset a t) s (mkAsset a' t').
Proof.
  intros Hk Hh. induction 1 as [t0 a1|t0 u ts l ls a1 b1 c Hhop Hr IH]; intros t acc a segments t' a' Ht H.
  { cbn in H, Ht. simplify_eq. exists []. rewrite app_nil_r. done. }
  cbn [head] in Ht. injection Ht as ->. cbn [rfold] in H. apply rbind_Ok in H as (st & Hst & H).
  destruct (Hh _ _ _ _ _ Hhop) as (pools & (tokens & Hnew & Hpools) & Hl).
  assert (token_pair l = tokens) as Htp by exact (Forall_elem _ _ _ (Hk _ _ Hpools) Hl).
  destruct (pair_other _ _ _ Hnew) as [Hother Hne].
  unfold traverse_hop in Hst. apply rbind_Ok in Hst as (r & Href%opt_expect_Ok & Hst).
  rewrite Htp, Hother in Hst. cbn [opt_expect rbind] in Hst.
  apply rbind_Ok in Hst as (out & Hout & [= <-]).
  destruct (IH u _ _ _ _ _ eq_refl H) as (s & -> & Hlen & Hlast & Hc).
  eexists (_ :: s). rewrite <- app_assoc. split; [done|]. split; [cbn; by rewrite Hlen|].
  split; [by rewrite last_cons_cons|]. cbn [connected segment_input segment_output token amount].
  split_and!; [done|done| |done]. exists l. unfold quoted. cbn. split_and!; [done|done| |done].
  exists pools. by rewrite Htp.
Qed.

(** Along the route of the best outputs the amounts are those of the estimate. *)
Lemma traverse_amount self p path a0 b0 : keyed (onchain_liquidity self) ->
  BaselineSolver.route (best_buy_hop (onchain_liquidity self)) p path a0 b0 -> forall t acc segments t' a',
  head p = Some t -> rfold (traverse_hop self) (acc, t, a0) path = Ok (segments, t', a') -> a' = b0.
Proof.
  intros Hk. induction 1 as [t0 a1|t0 u ts l ls a1 b1 c Hhop Hr IH]; intros t acc segments t' a' Ht H.
  { cbn in H. by simplify_eq. }
  cbn [head] in Ht. injection Ht as ->. cbn [rfold] in H. apply rbind_Ok in H as (st & Hst & H).
  destruct Hhop as (pools & (tokens & Hnew & Hpools) & Hl & Hquote & _).
  assert (token_pair l = tokens) as Htp by exact (Forall_elem _ _ _ (Hk _ _ Hpools) Hl).
  destruct (pair_other _ _ _ Hnew) as [Hother _].
  unfold traverse_hop in Hst. apply rbind_Ok in Hst as (r & Href%opt_expect_Ok & Hst).
  rewrite Htp, Hother in Hst. cbn [opt_expect rbind] in Hst. rewrite Hquote in Hst. cbn [rbind] in Hst.
  injection Hst as <-. exact (IH u _ _ _ _ eq_refl H).
Qed.

Lemma traverse_path_spec self h p path a0 b0 t a segments : keyed (onchain_liquidity self) ->
  (forall t u l a b, h t u l a b -> exists pools, pools_between (onchain_liquidity self) t u pools /\ l ∈ pools) ->
  BaselineSolver.route h p path a0 b0 -> head p = Some t ->
  traverse_path self path t a = Ok segments ->
  exists t' a', rfold (traverse_hop self) ([], t, a) path = Ok (segments, t', a') /\
    last p = Some t' /\ length segments = length path /\
    connected self (mkAsset a t) segments (mkAsset a' t').
Proof.
  intros Hk Hh Hr Ht H. unfold traverse_path in H. apply res_map_Ok in H as ([[segs t'] a'] & H & <-).
  destruct (traverse_connected self h p path a0 b0 Hk Hh Hr t [] a _ _ _ Ht H) as (s & -> & ? & ? & ?).
  eauto 10.
Qed.

Lemma connected_last self from segments to : connected self from segments to ->
  match last segments with Some s => segment_output s = to | None => from = to end.
Proof.
  revert from. induction segments as [|s segments IH]; intros from; cbn; [done|].
  intros (_ & _ & _ & Hc). specialize (IH _ Hc). destruct segments as [|s' segments]; [exact IH|].
  rewrite last_cons_cons. destruct (last (s' :: segments)) eqn:E; [exact IH|].
  apply last_None in E. discriminate.
Qed.

(** The tokens of a path candidate. *)
Lemma candidate_ends sell buy base hops p : p ∈ Baseline.path_candidates sell buy base hops ->
  sell <> buy /\ head p = Some sell /\ last p = Some buy /\ (1 < length p)%nat.
Proof.
  intros (Hne & mids & -> & _)%path_candidates_elem. split_and!; [done|done| |].
  - by rewrite app_comm_cons, last_snoc.
  - cbn. rewrite length_app. cbn. lia.
Qed.

(** What a candidate that satisfies a request consists of. *)
Definition satisfies self (request : Request) (segments : list Segment)
    (e : Baseline.Estimate (L:=OnchainLiquidity)) : Prop :=
  exists inp out, segments <> [] /\
    connected self (mkAsset inp (token (request_sell request))) segments
                   (mkAsset out (token (request_buy request))) /\
    amount (request_buy request) <= out /\
    match request_side request with
    | Buy => inp = Baseline.value e /\ inp <= amount (request_sell request)
    | Sell => inp = amount (request_sell request) /\ out = Baseline.value e
    end.
Definition candidate self (request : Request) : list Z -> res unit (list Segment * Baseline.Estimate) :=
  match request_side request with Buy => buy_candidate self request | Sell => sell_candidate self request end.
Definition candidates self (request : Request) (hops : nat) : gset (list Z) :=
  Baseline.path_candidates_with_hops (solver_base_tokens self)
    (token (request_sell request)) (token (request_buy request)) hops.

Lemma candidate_satisfies self request hops p segments e : keyed (onchain_liquidity self) ->
  p ∈ candidates self request hops -> candidate self request p = Ok (segments, e) ->
  satisfies self request segments e.
Proof.
  intros Hk Hp H. apply candidate_ends in Hp as (_ & Hhead & Hlast & Hlen). unfold candidate in H.
  unfold satisfies. destruct (request_side request).
  - unfold buy_candidate in H. apply rbind_Ok in H as (est & Hest & H). apply rbind_Ok in H as (segs & Hsegs & H).
    pose proof (estimate_sell_route _ _ _ _ Hest) as Hr.
    assert (Hhop : forall t u l a b, best_sell_hop (onchain_liquidity self) t u l a b ->
      exists pools, pools_between (onchain_liquidity self) t u pools /\ l ∈ pools) by (unfold best_sell_hop; naive_solver).
    destruct (traverse_path_spec _ _ _ _ _ _ _ _ _ Hk Hhop Hr Hhead Hsegs) as (t' & a' & _ & Hl & Hn & Hc).
    assert (t' = token (request_buy request)) as -> by congruence.
    pose proof (connected_last _ _ _ _ Hc) as Hout.
    destruct (last segs) as [sl|] eqn:Hsl; [|discriminate]. cbn [negb] in H.
    destruct (Z.leb_spec (amount (request_buy request)) (amount (segment_output sl))) as [Hle|]; [|discriminate].
    cbn [negb] in H. destruct (Z.leb_spec (Baseline.value est) (amount (request_sell request))) as [Hle'|]; [|discriminate].
    injection H as <- <-. exists (Baseline.value est), a'. rewrite Hout in Hle.
    split_and!; [intros ->; discriminate|exact Hc|exact Hle|done|exact Hle'].
  - unfold sell_candidate in H. apply rbind_Ok in H as (est & Hest & H). apply rbind_Ok in H as (segs & Hsegs & H).
    pose proof (estimate_buy_route _ _ _ _ Hest) as Hr.
    assert (Hhop : forall t u l a b, best_buy_hop (onchain_liquidity self) t u l a b ->
      exists pools, pools_between (onchain_liquidity self) t u pools /\ l ∈ pools) by (unfold best_buy_hop; naive_solver).
    destruct (traverse_path_spec _ _ _ _ _ _ _ _ _ Hk Hhop Hr Hhead Hsegs) as (t' & a' & Hf & Hl & Hn & Hc).
    pose proof (traverse_amount _ _ _ _ _ Hk Hr _ _ _ _ _ Hhead Hf) as ->.
    assert (t' = token (request_buy request)) as -> by congruence.
    destruct (head segs) as [sh|] eqn:Hsh; [|discriminate].
    destruct (negb _) eqn:Hcov; [discriminate|].
    destruct (Z.leb_spec (amount (request_buy request)) (Baseline.value est)) as [Hle|]; [|discriminate].
    injection H as <- <-. exists (amount (request_sell request)), (Baseline.value est).
    split_and!; [intros ->; discriminate|exact Hc|exact Hle|done|done].
Qed.

(** No other candidate is better for the user. *)
Definition best self (request : Request) (hops : nat) (e : Baseline.Estimate (L:=OnchainLiquidity)) : Prop :=
  forall p segments e', p ∈ candidates self request hops -> candidate self request p = Ok (segments, e') ->
    match request_side request with
    | Buy => Baseline.value e <= Baseline.value e'
    | Sell => Baseline.value e' <= Baseline.value e
    end.

Lemma route_spec self request hops segments : keyed (onchain_liquidity self) ->
  BoundarySolver.route self request hops = Ok segments ->
  exists p e, p ∈ candidates self request hops /\ candidate self request p = Ok (segments, e) /\
    satisfies self request segments e /\ best self request hops e.
Proof.
  intros Hk H. unfold BoundarySolver.route in H. fold (candidates self request hops) in H.
  apply rbind_Ok in H as ([segs e] & H & Hlen). destruct (bool_decide _); [discriminate|].
  injection Hlen as <-.
  assert (exists p, p ∈ candidates self request hops /\ candidate self request p = Ok (segs, e) /\ best self request hops e)
    as (p & Hp & Hc & Hb).
  { unfold candidate, best. destruct (request_side request) eqn:Hs.
    - apply rbind_Ok in H as (found & Hfound & Hmin%ok_or_Ok%min_by_key_Some). destruct Hmin as [Hin Hmin].
      apply (rfilter_map_elem _ _ _ _ Hfound) in Hin as (p & Hp%elem_of_elements & Hc). exists p. split_and!; [done|done|].
      intros p' segs' e' Hp' Hc'. unfold candidate in Hc'. rewrite ?Hs in Hc'. apply (Hmin (segs', e')). apply (rfilter_map_elem _ _ _ _ Hfound).
      exists p'. split; [by apply elem_of_elements|done].
    - apply rbind_Ok in H as (found & Hfound & Hmax%ok_or_Ok%max_by_key_Some). destruct Hmax as [Hin Hmax].
      apply (rfilter_map_elem _ _ _ _ Hfound) in Hin as (p & Hp%elem_of_elements & Hc). exists p. split_and!; [done|done|].
      intros p' segs' e' Hp' Hc'. unfold candidate in Hc'. rewrite ?Hs in Hc'. apply (Hmax (segs', e')). apply (rfilter_map_elem _ _ _ _ Hfound).
      exists p'. split; [by apply elem_of_elements|done]. }
  exists p, e. split_and!; [done..| |done]. by eapply candidate_satisfies.
Qed.
End routes.

(** * Solutions of the engine *)
Section engine.
Import BaselineEngine.

(** The liquidity keeps its promises: its pools are well-formed. *)
Definition source_wf (l : OnchainLiquidity) : Prop :=
  match source l with
  | SConstantProduct pool => well_formed pool
  | SWeightedProduct pool => well_formed pool
  | SStable pool => well_formed pool
  | SLimitOrder order => u256 (amount (maker order)) /\ u256 (amount (taker order))
  end.
Definition liquidity_wf (m : gmap TokenPair.TokenPair (list OnchainLiquidity)) : Prop :=
  forall tokens ls, m !! tokens = Some ls -> Forall source_wf ls.

Lemma limit_in_u256 o t b u a : u256 (amount (maker o)) -> u256 (amount (taker o)) -> u256 b ->
  limit_get_amount_in o t (b, u) = Ok a -> u256 a.
Proof.
  intros Hm Ht Hb H. unfold limit_get_amount_in in H. destruct (_ || _) eqn:Hbad; [discriminate|].
  bool_to_prop. inv_ok. apply checked_mul_Some in Hv as [-> Hv]. apply checked_div_Some in H as [-> Hd].
  apply div_u256; unfold u256 in *; nia.
Qed.

Lemma in_u256 l t b u a : source_wf l -> u256 b -> get_amount_in l t (b, u) = Ok a -> u256 a.
Proof.
  unfold source_wf. cbn [get_amount_in onchain_solvable]. destruct (source l) as [p|p|p|o]; intros Hwf Hb H.
  1-3: exact (proj1 (in_covers_out p t b u a Hwf Hb H)).
  exact (limit_in_u256 o t b u a (proj1 Hwf) (proj2 Hwf) Hb H).
Qed.

Lemma estimate_sell_u256 m b path e : liquidity_wf m -> u256 b ->
  Baseline.estimate_sell_amount b path m = Ok e -> u256 (Baseline.value e).
Proof.
  intros Hwf Hb Hr%estimate_sell_route.
  eapply (route_impl u256 _ (fun _ _ _ _ _ => True)) in Hr as [? _]; [done| |done].
  intros t u l a b' Hb' (pools & (tokens & _ & Hp) & Hl & Hin & _). split; [|done].
  eapply in_u256; [|exact Hb'|exact Hin]. exact (Forall_elem _ _ _ (Hwf _ _ Hp) Hl).
Qed.

Lemma find_map_Ok {A B} (f : A -> res unit B) l b : find_map f l = Ok b -> exists a, a ∈ l /\ f a = Ok b.
Proof.
  induction l as [|a l IH]; cbn; [done|]. destruct (f a) eqn:Hf; intros H; inv_ok.
  - exists a. split; [by left|done].
  - destruct (IH H) as (a' & ? & ?). exists a'. split; [by right|done].
Qed.

(** An order as the API accepts it. *)
Definition order_wf (o : Order) : Prop :=
  token (sell o) <> token (buy o) /\ 0 < amount (sell o) <= U256_MAX /\ 0 < amount (buy o) <= U256_MAX.

Lemma request_spec o i r : order_wf o -> request_for_order o i = Ok r ->
  token (request_sell r) = token (sell o) /\ token (request_buy r) = token (buy o) /\ request_side r = side o /\
  0 < amount (request_sell r) <= amount (sell o) /\ 0 < amount (request_buy r) <= amount (buy o).
Proof.
  intros (_ & Hs & Hb) H. unfold request_for_order in H. cbv zeta in H.
  set (d := _ mod _) in H. assert (0 <= d) by (apply Z.mod_pos_bound; lia).
  apply rbind_Ok in H as (x & [-> Hd]%u_div_Ok & H). apply rbind_Ok in H as (y & [-> _]%u_div_Ok & H).
  destruct (_ || _) eqn:Hz; [discriminate|]. bool_to_prop. injection H as <-. cbn.
  assert (forall a, 0 < a -> a / d <> 0 -> 0 < a / d <= a) as Hdiv.
  { intros a Ha Hne. pose proof (Z.div_pos a d ltac:(lia) ltac:(lia)).
    split; [lia|]. apply Z.div_le_upper_bound; [lia|nia]. }
  split_and!; [done..|apply Hdiv; [lia|done]|apply Hdiv; [lia|done]|apply Hdiv; [lia|done]|apply Hdiv; [lia|done]].
Qed.

Lemma gas_cost_nonneg (l : OnchainLiquidity) : 0 <= gas_cost l.
Proof. cbn [gas_cost onchain_solvable]. destruct (source l); vm_compute; discriminate. Qed.

Lemma connected_gas solver from segments to : connected solver from segments to ->
  Forall (fun s => 0 <= segment_gas s) segments.
Proof.
  revert from. induction segments as [|s segments IH]; intros from; cbn; [constructor|].
  intros (_ & _ & (l & _ & Hgas & _) & Hc). constructor; [rewrite Hgas; apply gas_cost_nonneg|eauto].
Qed.

Lemma route_gas_nonneg segments : Forall (fun s => 0 <= segment_gas s) segments -> 0 <= route_gas segments.
Proof.
  intros Hs. unfold route_gas.
  assert (forall acc, 0 <= acc -> 0 <= foldl (fun acc s => saturating_add acc (segment_gas s)) acc segments) as H;
    [|by apply H].
  induction Hs as [|s segments Hs _ IH]; intros acc Hacc; cbn [foldl]; [done|].
  apply IH. unfold saturating_add, U256_MAX. lia.
Qed.

Lemma connected_ends solver from s segments to : connected solver from (s :: segments) to ->
  route_input (s :: segments) = Ok from /\ route_output (s :: segments) = Ok to.
Proof.
  intros Hc. pose proof (connected_last _ _ _ _ Hc) as Hl. cbn in Hc. unfold route_input, route_output.
  split; [cbn; f_equal; tauto|].
  destruct (last (s :: segments)) as [x|] eqn:E; [cbn; by rewrite Hl|]. by apply last_None in E.
Qed.

(** What it means that a solution settles an order over a route. *)
Definition settles (solver : Solver) (tokens : Tokens) (o : Order)
    (sol : SolverSolution.Solution Liquidity) : Prop :=
  exists f paid received segments inp out,
    SolverSolution.trades sol = [SolverSolution.TFulfillment f] /\ SolverSolution.order f = o /\
    (amount (sell o) * (received + 1) <= U256_MAX -> settled_amounts sol f paid received) /\
    connected solver (mkAsset inp (token (sell o))) segments (mkAsset out (token (buy o))) /\
    Forall2 (internalized tokens) (map segment_interaction segments) (SolverSolution.interactions sol) /\
    inp <= paid <= amount (sell o) /\ 0 < received <= out /\
    amount (buy o) * paid <= amount (sell o) * received /\
    (side o = Buy -> received <= amount (buy o)) /\
    (partially_fillable o = false ->
       match side o with Buy => received = amount (buy o) | Sell => paid = amount (sell o) end).

Lemma solve_request_settles self solver auction i o price r sol :
  keyed (onchain_liquidity solver) -> liquidity_wf (onchain_liquidity solver) ->
  order_wf o -> 0 <= price -> 0 <= gas_price auction ->
  (exists n, request_for_order o n = Ok r) ->
  solve_request self solver auction i o price r = Ok sol ->
  settles solver (tokens auction) o sol /\ SolverSolution.id sol = Z.of_nat i mod 2 ^ 64.
Proof.
  intros Hk Hwf Ho Hprice Hgp (n & Hr) H.
  destruct (request_spec _ _ _ Ho Hr) as (Hts & Htb & Hside & Hs & Hb).
  destruct Ho as (Htok & Hos & Hob).
  unfold solve_request in H. apply rbind_Ok in H as (segments & Hroute & H).
  destruct (route_spec _ _ _ _ Hk Hroute) as (p & e & _ & Hcand & (inp & out & Hne & Hc & Hout & Hamounts) & _).
  rewrite Hts, Htb in Hc. rewrite Hside in Hamounts.
  assert (0 <= inp) as Hinp.
  { destruct (side o) eqn:Hso; [|lia]. destruct Hamounts as [-> _]. unfold candidate in Hcand. rewrite Hside in Hcand.
    apply rbind_Ok in Hcand as (est & Hest & Hcand). apply rbind_Ok in Hcand as (? & _ & Hcand). cbv zeta in Hcand.
    destruct (negb _); [discriminate|]. destruct (_ <=? _); [|discriminate]. injection Hcand as _ <-.
    apply estimate_sell_u256 in Hest; [apply Hest|done|unfold u256; lia]. }
  destruct segments as [|s0 segments]; [done|]. set (segs := s0 :: segments) in *.
  destruct (connected_ends _ _ _ _ _ Hc) as [Hri Hro]. fold segs in Hri, Hro. rewrite Hro, Hri in H. cbn [rbind] in H.
  set (output := match side o with Buy => _ | Sell => _ end) in H.
  assert (token output = token (buy o) /\ 0 < amount output <= out) as [Hot Hoa].
  { unfold output. destruct (side o); cbn; split; (done || lia). }
  apply rbind_Ok in H as (cost & [-> _]%ok_or_Ok%checked_mul_Some & H).
  apply rbind_Ok in H as (fee & Hfee & H). apply rbind_Ok in H as (sol0 & Hsol & H).
  assert (0 <= add_signed (route_gas segs) (solution_gas_offset self)) as Hgas.
  { pose proof (route_gas_nonneg _ (connected_gas _ _ _ _ Hc)). unfold add_signed, saturating_add, saturating_sub, U256_MAX.
    destruct (Z.ltb_spec 0 (solution_gas_offset self)); lia. }
  assert (0 <= fee) as Hfee0.
  { unfold ether_value, BASE in Hfee. apply rbind_Ok in Hfee as (x & [-> _]%ok_or_Ok%checked_mul_Some & Hfee).
    apply ok_or_Ok, checked_div_Some in Hfee as [-> Hd]. apply Z.div_pos; [|lia].
    apply Z.mul_nonneg_nonneg; [apply Z.mul_nonneg_nonneg|]; lia. }
  unfold SolverSolution.with_buffers_internalizations in H.
  apply rbind_Ok in H as (ints & Hints0%internalize_all_Ok & H). injection H as <-.
  destruct (single_settled (SolverSolution.mkSingle o (mkAsset inp (token (sell o))) output
      (map segment_interaction segs) (add_signed (route_gas segs) (solution_gas_offset self))) fee sol0)
    as (f & paid & received & Htrades & Hf & Hints & Hrec & Hset & Hpaid & Hle & Hlimit & Hmax & Hbuy & Hfill);
    cbn [SolverSolution.single_order SolverSolution.single_input SolverSolution.single_output amount]; try done; try lia.
  { repeat split; cbn; lia. }
  { intros Hso. rewrite Hso in Hamounts. lia. }
  cbn [SolverSolution.single_order SolverSolution.single_input SolverSolution.single_output amount
       SolverSolution.single_interactions] in *.
  split; [|reflexivity]. exists f, paid, received, segs, inp, out.
  split_and!; try done; try lia. cbn [SolverSolution.with_id SolverSolution.interactions] in *. by rewrite <- Hints.
Qed.

Section solve.
Context (to_f64_lossy : Z -> F64.f64) (from_f64_lossy : F64.f64 -> Z).
Context (Hfrom : forall x, 0 <= from_f64_lossy x).

Lemma guarded_Some {A} (b : bool) (x p : A) : (if b then Some x else None) = Some p -> p = x.
Proof. destruct b; congruence. Qed.

Lemma sell_token_price_nonneg self solver auction o price :
  (forall t p, reference_price (tokens auction) t = Some p -> 0 <= p) ->
  sell_token_price to_f64_lossy from_f64_lossy self solver auction o = Ok price -> 0 <= price.
Proof.
  intros Href H. unfold sell_token_price in H. destruct (reference_price _ _) eqn:E; [inv_ok; eauto|].
  destruct (_ =? _); [inv_ok; lia|]. destruct (BoundarySolver.route _ _ _); [|injection H as H; rewrite <- H; unfold U256_MAX; lia|done].
  apply rbind_Ok in H as (inp & _ & H%ok_or_Ok). apply guarded_Some in H as ->. apply Hfrom.
Qed.

Lemma solve_order_settles self solver auction i o sol :
  keyed (onchain_liquidity solver) -> liquidity_wf (onchain_liquidity solver) ->
  order_wf o -> 0 <= gas_price auction ->
  (forall t p, reference_price (tokens auction) t = Some p -> 0 <= p) ->
  solve_order to_f64_lossy from_f64_lossy self solver auction i o = Ok sol ->
  is_user_order o = true /\ settles solver (tokens auction) o sol /\ SolverSolution.id sol = Z.of_nat i mod 2 ^ 64.
Proof.
  intros Hk Hwf Ho Hgp Href H. unfold solve_order in H. destruct (is_user_order o); [|discriminate].
  cbn [negb] in H. apply rbind_Ok in H as (price & Hprice & (n & _ & H)%find_map_Ok).
  apply sell_token_price_nonneg in Hprice; [|done]. apply rbind_Ok in H as (r & Hr & H).
  split; [done|]. eapply solve_request_settles; eauto.
Qed.

Lemma solve_orders_elem self solver auction i os sol :
  sol ∈ solve_orders to_f64_lossy from_f64_lossy self solver auction i os ->
  exists n o, os !! n = Some o /\ solve_order to_f64_lossy from_f64_lossy self solver auction (i + n) o = Ok sol.
Proof.
  revert i. induction os as [|o os IH]; intros i; cbn [solve_orders]; [by intros ?%not_elem_of_nil|].
  assert (sol ∈ solve_orders to_f64_lossy from_f64_lossy self solver auction (S i) os ->
    exists n o', (o :: os) !! n = Some o' /\
      solve_order to_f64_lossy from_f64_lossy self solver auction (i + n) o' = Ok sol) as Hrest.
  { intros (n & o' & Hn & H)%IH. exists (S n), o'. by rewrite Nat.add_succ_r. }
  destruct (solve_order _ _ _ _ _ i o) eqn:E; [|exact Hrest|by intros ?%not_elem_of_nil].
  intros [->|H]%elem_of_cons; [|by apply Hrest]. exists 0%nat, o. by rewrite Nat.add_0_r.
Qed.
End solve.
End engine.

(** * Properties *)
Section properties.
Import BaselineEngine.

(** A route satisfies its request: its segments lead from the sell to the
    buy token, each selling over the liquidity it names all that the one
    before bought; a sell request is sold completely for at least what it asks,
    a buy request gets at least what it asks for at most what it offers; and
    no other path within the allowed hops is better for the user. *)
Theorem route_satisfies_request (weth : Z) (base : gset Z) (liquidity : list Liquidity)
    (self : Solver) (request : Request) (hops : nat) (segments : list Segment) :
  BoundarySolver.new weth base liquidity = Ok self ->
  BoundarySolver.route self request hops = Ok segments ->
  exists e, satisfies self request segments e /\ best self request hops e.
Proof.
  intros Hk%new_keyed H. destruct (route_spec _ _ _ _ Hk H) as (p & e & _ & _ & ? & ?). eauto.
Qed.

End properties.

Section witnesses.
Import BaselineEngine.
Let pool : ConstantProductPool :=
  mkConstantProductPool (mkAsset 1000000 1, mkAsset 2000000 2) (mkRational 3 1000).
Let pools : list Liquidity :=
  [mkLiquidity "uniswap" 77 60000 (ConstantProduct pool);
   mkLiquidity "zeroex" 78 60000 (StateLimitOrder (mkLimitOrder (mkAsset 300 2) (mkAsset 100 1) 0))].
Let uniswap : OnchainLiquidity :=
  mkOnchainLiquidity "uniswap" (1, 2)
    (SConstantProduct (UniswapV2.mkPool 77 (1, 2) (1000000, 2000000) (UniswapV2.mkRatio 3 1000))).
Let zeroex : OnchainLiquidity :=
  mkOnchainLiquidity "zeroex" (1, 2) (SLimitOrder (mkLimitOrder (mkAsset 300 2) (mkAsset 100 1) 0)).
Let solver : Solver :=
  mkSolver (Baseline.new 9 []) {[(1, 2) := [uniswap; zeroex]]}
    {["uniswap" := mkLiquidity "uniswap" 77 60000 (ConstantProduct pool);
      "zeroex" := mkLiquidity "zeroex" 78 60000 (StateLimitOrder (mkLimitOrder (mkAsset 300 2) (mkAsset 100 1) 0))]}.
Let sell_order : Order := mkOrder 5 (mkAsset 1000 1) (mkAsset 1500 2) Sell Limit true.
Let buy_order (n : Z) : Order := mkOrder 6 (mkAsset 60 1) (mkAsset n 2) Buy Market false.
Let engine : Inner := mkInner 9 ∅ 2 5 0 (10 ^ 18).
Let auction : Auction :=
  mkAuction {[1 := mkToken (Some (10 ^ 30)) 0 true; 2 := mkToken None 80 false]} [sell_order; buy_order 50; buy_order 60] pools 20.

Lemma new_solver : BoundarySolver.new 9 ∅ pools = Ok solver.
Proof. vm_compute. reflexivity. Qed.
Lemma solver_wf : liquidity_wf (onchain_liquidity solver).
Proof.
  intros tokens ls H. unfold solver in H. cbn [onchain_liquidity] in H.
  apply lookup_singleton_Some in H as [<- <-]. repeat constructor; vm_compute; split_and?; congruence.
Qed.

(** The sell order is settled over the pool with a fee, the last buy order over
    the limit order, where the buffers replace the swap. For the other one the
    limit order asks for too little, and hides the pool that could serve it. *)
Example engine_solves :
  map (fun sol => (SolverSolution.id sol, SolverSolution.prices sol !! 1, SolverSolution.prices sol !! 2,
                   map SolverSolution.internalize (SolverSolution.interactions sol)))
    (solve F64.of_Z (fun _ => 0) engine auction 10) =
  [(0, Some 1992, Some 1000, [false]); (2, Some 60, Some 20, [true])].
Proof. vm_compute. reflexivity. Qed.

(** A limit order rounds the input it asks for down: it does not keep the
    promise of [Covering]. *)
Example limit_order_asks_too_little :
  let o := mkLimitOrder (mkAsset 300 2) (mkAsset 100 1) 0 in
  get_amount_in o 1 (50, 2) = Ok 16 /\ get_amount_out o 2 (16, 1) = Ok 48.
Proof. split; vm_compute; reflexivity. Qed.

Lemma route_satisfies_request_witness :
  let request := mkRequest (mkAsset 60 1) (mkAsset 60 2) Buy in
  exists e, satisfies solver request
      [mkSegment (mkLiquidity "zeroex" 78 60000 (StateLimitOrder (mkLimitOrder (mkAsset 300 2) (mkAsset 100 1) 0)))
         (mkAsset 20 1) (mkAsset 60 2) 66358] e /\ best solver request 2 e.
Proof.
  intros request. apply (route_satisfies_request 9 ∅ pools); [exact new_solver|vm_compute; reflexivity].
Defined.

End witnesses.
