(* ===== verification/NaiveSolver.v ===== *)
(** The naive solver engine: crates/solvers/src/domain/solver/naive.rs and
    boundary/naive.rs, around crates/solver/src/solver/naive_solver and
    liquidity/slippage.rs.

    All orders over a pair of tokens are matched with each other, and what is
    left over with the deepest constant product pool of the pair. A pool
    writes its execution where its handler wants it: that place is the state
    [W], which outlives an attempt. HashMaps of two contexts are drained in the
    order [drain] says. *)
From Stdlib Require Import ZArith Lia QArith Qcanon String.
From stdpp Require Import prelude gmap.
From S2P Require Import Prelude U256 Bytes Floats ModelOrder BaselineSolver UniswapV2 SettlementEncoder.
From S2P Require Import DecodedSettlement SolverSolution BaselineEngine.

Open Scope Z_scope.
Open Scope rust_scope.
Import ModelSignature ModelOrder Settlement SettlementEncoder.

(** * crates/solver/src/liquidity.rs *)
Module LegacyLiquidity.
Inductive LiquidityOrderId : Type := Protocol (uid : Z) | ZeroEx (id : list byte).
Inductive LimitOrderId : Type := IdMarket (uid : Z) | IdLimit (uid : Z) | IdLiquidity (id : LiquidityOrderId).
Definition id_order_uid (self : LimitOrderId) : option Z :=
  match self with
  | IdMarket uid | IdLimit uid | IdLiquidity (Protocol uid) => Some uid
  | IdLiquidity (ZeroEx _) => None
  end.
Inductive Exchange : Type := GnosisProtocol | ExchangeZeroEx.
Record LimitOrderExecution : Type := mkLimitOrderExecution { filled : Z; execution_fee : Z }.
Record TokenAmount : Type := mkTokenAmount { amount_token : Z; token_amount : Z }.
Record AmmOrderExecution : Type := mkAmmOrderExecution {
  input_max : TokenAmount;
  amm_output : TokenAmount;
  internalizable : bool;
}.
(** The handler is its method [encode]. *)
Record LimitOrder : Type := mkLimitOrder {
  order_id : LimitOrderId;
  limit_sell_token : Z;
  limit_buy_token : Z;
  limit_sell_amount : Z;
  limit_buy_amount : Z;
  limit_kind : OrderKind;
  limit_partially_fillable : bool;
  user_fee : Z;
  settlement_handling : LimitOrderExecution -> SettlementEncoder -> res unit SettlementEncoder;
  exchange : Exchange;
}.
Definition is_liquidity_order (self : LimitOrder) : bool :=
  match order_id self with IdLiquidity _ => true | _ => false end.
Definition limit_solver_determines_fee (self : LimitOrder) : bool :=
  match order_id self with IdLimit _ => true | _ => false end.
Definition full_execution_amount (self : LimitOrder) : Z :=
  match limit_kind self with Sell => limit_sell_amount self | Buy => limit_buy_amount self end.

Record ConstantProductOrder (W : Type) : Type := mkConstantProductOrder {
  pool_address : Z;
  pool_tokens : TokenPair.TokenPair;
  pool_reserves : Z * Z;
  pool_fee : UniswapV2.Ratio;
  pool_handling : AmmOrderExecution -> SettlementEncoder -> st W unit SettlementEncoder;
}.
Arguments mkConstantProductOrder {W}.
Arguments pool_tokens {W}.
Arguments pool_reserves {W}.
Arguments pool_fee {W}.
Arguments pool_handling {W}.
Definition for_pool {W} (pool : UniswapV2.Pool)
    (handling : AmmOrderExecution -> SettlementEncoder -> st W unit SettlementEncoder) : ConstantProductOrder W :=
  mkConstantProductOrder (UniswapV2.address pool) (UniswapV2.tokens pool) (UniswapV2.reserves pool) (UniswapV2.fee pool)
    handling.
End LegacyLiquidity.
Import LegacyLiquidity.

(** * crates/solver/src/liquidity/slippage.rs *)
Module LegacySlippage.
Definition BPS_BASE : Z := 10000.
Record SlippageCalculator : Type := mkSlippageCalculator { calculator_relative : Qc; calculator_absolute : option Z }.
Record SlippageContext : Type := mkSlippageContext {
  context_prices : ExternalPrices.ExternalPrices;
  calculator : SlippageCalculator;
}.
Definition from_bps (relative_bps : Z) (absolute : option Z) : SlippageCalculator :=
  mkSlippageCalculator (Qc_of_Z relative_bps / Qc_of_Z BPS_BASE)%Qc absolute.
(** Rounded up. *)
Definition absolute_slippage_amount (relative : Qc) (amount : Z) : Z :=
  let ratio := (relative * Qc_of_Z amount)%Qc in cdiv (qc_numer ratio) (qc_denom ratio).
Definition qc_checked_div (a b : Qc) : option Qc := if decide (b = 0%Qc) then None else Some (a / b)%Qc.
Definition qc_min (a b : Qc) : Qc := if decide (a <= b)%Qc then a else b.
Definition compute (self : SlippageCalculator) (price : option Qc) (amount : Z) : res unit (Qc * Z) :=
  let* relative :=
    match calculator_absolute self with
    | Some max_absolute_native_token =>
        let* price := opt price in
        let* max_absolute_slippage := opt (qc_checked_div (Qc_of_Z max_absolute_native_token) price) in
        let* max_relative := opt (qc_checked_div max_absolute_slippage (Qc_of_Z amount)) in
        Ok (qc_min max_relative (calculator_relative self))
    | None => Ok (calculator_relative self)
    end in
  Ok (relative, absolute_slippage_amount relative amount).
(** [SlippageAmount]: its relative part, a float that is only logged, is left
    out; [from_num] fails as well when the ratio is not a number, which the
    ratio of integers never is. *)
Definition slippage_from_num (absolute : Z) : res unit Z := opt (big_int_to_u256 absolute).
Definition add_to_amount (absolute amount : Z) : Z := U256.saturating_add amount absolute.
Definition sub_from_amount (absolute amount : Z) : Z := U256.saturating_sub amount absolute.
Definition apply_to_amm_execution (self : SlippageContext) (execution : AmmOrderExecution) : res unit AmmOrderExecution :=
  let relative_ratio a :=
    res_map fst (compute (calculator self) (context_prices self !! amount_token a) (token_amount a)) in
  let* relative :=
    match relative_ratio (input_max execution) with
    | Ok relative => Ok relative
    | Err _ => match relative_ratio (amm_output execution) with
               | Ok relative => Ok relative
               | Err _ => Ok (calculator_relative (calculator self))
               | Panic => Panic
               end
    | Panic => Panic
    end in
  let* absolute := slippage_from_num (absolute_slippage_amount relative (token_amount (input_max execution))) in
  Ok (mkAmmOrderExecution
        (mkTokenAmount (amount_token (input_max execution)) (add_to_amount absolute (token_amount (input_max execution))))
        (amm_output execution) (internalizable execution)).
End LegacySlippage.
Import LegacySlippage.

(** * multi_order_solver.rs *)
Module MultiOrderSolver.
Record TokenContext : Type := mkTokenContext { address : Z; reserve : Z; buy_volume : Z; sell_volume : Z }.
(** [denom - numer] is an operation on [u32]. *)
Definition fee_complement (fee : UniswapV2.Ratio) : Z := (UniswapV2.denom fee - UniswapV2.numer fee) mod 2 ^ 32.
Definition is_excess_after_fees (self deficit : TokenContext) (fee : UniswapV2.Ratio) : bool :=
  UniswapV2.denom fee * reserve self * (sell_volume deficit - buy_volume deficit)
    <? fee_complement fee * reserve deficit * (sell_volume self - buy_volume self).
Definition is_excess_before_fees (self deficit : TokenContext) : bool :=
  reserve self * (sell_volume deficit - buy_volume deficit) <? reserve deficit * (sell_volume self - buy_volume self).

(** [None] is a denominator of zero. *)
Definition compute_uniswap_out (shortage excess : TokenContext) (amm_fee : UniswapV2.Ratio) : option Qc :=
  let numerator_minuend :=
    fee_complement amm_fee * (sell_volume excess - buy_volume excess) * reserve shortage in
  let numerator_subtrahend :=
    UniswapV2.denom amm_fee * (sell_volume shortage - buy_volume shortage) * reserve excess in
  let denominator :=
    UniswapV2.denom amm_fee * reserve excess + fee_complement amm_fee * (sell_volume excess - buy_volume excess) in
  if denominator =? 0 then None
  else Some (Qc_of_Z (numerator_minuend - numerator_subtrahend) / Qc_of_Z denominator)%Qc.
Definition compute_uniswap_in (out : Qc) (shortage excess : TokenContext) (amm_fee : UniswapV2.Ratio) : option Qc :=
  let numerator := (u256_to_big_rational (UniswapV2.denom amm_fee) * out * Qc_of_Z (reserve excess))%Qc in
  let denominator :=
    (u256_to_big_rational (fee_complement amm_fee) * (u256_to_big_rational (reserve shortage) - out))%Qc in
  qc_checked_div numerator denominator.

Definition is_valid_trade (clearing_prices : gmap Z Z) (trade : PricedTrade) : bool :=
  let order := data (Settlement.order (priced trade)) in
  match checked_mul (sell_amount order) (sell_token_price trade), checked_mul (buy_amount order) (buy_token_price trade) with
  | Some sell_volume, Some buy_volume => buy_volume <=? sell_volume
  | _, _ => false
  end &&
  match (fun p => checked_mul p (sell_token_price trade)) <$> clearing_prices !! buy_token order,
        (fun p => checked_mul p (buy_token_price trade)) <$> clearing_prices !! sell_token order with
  | Some execution_sell_value, Some clearing_buy_value =>
      (* the order of options: [None] is below every value *)
      match execution_sell_value, clearing_buy_value with
      | None, _ => true
      | Some _, None => false
      | Some a, Some b => a <=? b
      end
  | _, _ => false
  end.
Definition is_valid_solution (solution : SettlementEncoder) : res Error bool :=
  let* trades := all_trades solution in Ok (forallb (is_valid_trade (prices solution)) trades).

Section solver.
Context {W : Type} (drain : list LimitOrder -> bool).
Implicit Types (pool : ConstantProductOrder W) (orders : list LimitOrder).

Definition get_reserve pool (token : Z) : option Z :=
  if (TokenPair.get (pool_tokens pool)).1 =? token then Some (pool_reserves pool).1
  else if (TokenPair.get (pool_tokens pool)).2 =? token then Some (pool_reserves pool).2
  else None.

(** The entry of a token, with a volume added by the panicking operator. *)
Definition add_volume pool (contexts : gmap Z TokenContext) (token buy sell : Z) : res unit (gmap Z TokenContext) :=
  let* context :=
    match contexts !! token with
    | Some context => Ok context
    | None => let* reserve := opt_expect (get_reserve pool token) in Ok (mkTokenContext token reserve 0 0)
    end in
  let* buy_volume := u_add (buy_volume context) buy in
  let* sell_volume := u_add (sell_volume context) sell in
  Ok (<[token := mkTokenContext (address context) (reserve context) buy_volume sell_volume]> contexts).
Definition add_order pool (contexts : gmap Z TokenContext) (order : LimitOrder) : res unit (gmap Z TokenContext) :=
  let* contexts :=
    add_volume pool contexts (limit_buy_token order)
      match limit_kind order with Buy => limit_buy_amount order | Sell => 0 end 0 in
  add_volume pool contexts (limit_sell_token order) 0
    match limit_kind order with Sell => limit_sell_amount order | Buy => 0 end.
(** The assertion fails unless there are two contexts. *)
Definition split_into_contexts pool orders : res unit (TokenContext * TokenContext) :=
  let* contexts := rfold (add_order pool) ∅ orders in
  match map snd (map_to_list contexts) with
  | [a; b] => Ok (if drain orders then (b, a) else (a, b))
  | _ => Panic
  end.

Definition with_order (settlement : SettlementEncoder) (order : LimitOrder) : res unit SettlementEncoder :=
  settlement_handling order (mkLimitOrderExecution (full_execution_amount order) (user_fee order)) settlement.
Definition solve_without_uniswap orders (context_a context_b : TokenContext) : res unit SettlementEncoder :=
  rfold with_order
    (SettlementEncoder.new (<[address context_b := reserve context_a]> {[address context_a := reserve context_b]})) orders.

(** What the orders take out of the pool, before the clamp to [U256]. *)
Definition required_out (out_token uniswap_out uniswap_in total : Z) (order : LimitOrder) : res unit Z :=
  if limit_sell_token order =? out_token then
    let* sold :=
      match limit_kind order with
      | Sell => Ok (limit_sell_amount order)
      | Buy => let* p := opt (checked_mul (limit_buy_amount order) uniswap_out) in opt (checked_div p uniswap_in)
      end in
    Ok (total - sold)
  else
    let* bought :=
      match limit_kind order with
      | Sell =>
          let* p := opt (checked_mul (limit_sell_amount order) uniswap_out) in opt (checked_ceil_div p uniswap_in)
      | Buy => Ok (limit_buy_amount order)
      end in
    Ok (total + bought).

Definition solve_with_uniswap (slippage : SlippageContext) orders pool (shortage excess : TokenContext)
  : st W unit SettlementEncoder :=
  let in_token := address excess in
  let out_token := address shortage in
  let! ' (settlement, uniswap_in, out_with_rounding) :=
    st_lift (
      let* out := opt (compute_uniswap_out shortage excess (pool_fee pool)) in
      let* in_ := opt (compute_uniswap_in out shortage excess (pool_fee pool)) in
      let* uniswap_out := opt (big_rational_to_u256 out) in
      let* uniswap_in := opt (big_rational_to_u256 in_) in
      let* settlement :=
        rfold with_order (SettlementEncoder.new (<[out_token := uniswap_in]> {[in_token := uniswap_out]})) orders in
      let* required := rfold (required_out out_token uniswap_out uniswap_in) 0 orders in
      let* required := opt (big_int_to_u256 required) in
      Ok (settlement, uniswap_in, Z.max required uniswap_out)) in
  let! execution :=
    st_lift (apply_to_amm_execution slippage
      (mkAmmOrderExecution (mkTokenAmount in_token uniswap_in) (mkTokenAmount out_token out_with_rounding) false)) in
  pool_handling pool execution settlement.

Definition solve_orders (slippage : SlippageContext) orders pool (context_a context_b : TokenContext)
  : st W unit SettlementEncoder :=
  if is_excess_after_fees context_a context_b (pool_fee pool)
  then solve_with_uniswap slippage orders pool context_b context_a
  else if is_excess_after_fees context_b context_a (pool_fee pool)
  then solve_with_uniswap slippage orders pool context_a context_b
  else st_lift (solve_without_uniswap orders context_a context_b).

(** [max_by] with the products of the panicking operator; of equal orders the
    last one counts. *)
Definition worse_order (best : option (nat * LimitOrder)) (order : nat * LimitOrder) : res unit (option (nat * LimitOrder)) :=
  match best with
  | Some b =>
      let* l := u_mul (limit_buy_amount b.2) (limit_sell_amount order.2) in
      let* r := u_mul (limit_sell_amount b.2) (limit_buy_amount order.2) in
      Ok (if r <? l then best else Some order)
  | None => Ok (Some order)
  end.
Definition order_to_remove (excess_token : Z) orders : res unit (option (nat * LimitOrder)) :=
  rfold worse_order None
    (List.filter (fun o => limit_sell_token o.2 =? excess_token) (imap (fun i o => (i, o)) orders)).

(** One round: a settlement, or the orders to go on with. *)
Definition round (slippage : SlippageContext) orders pool
  : st W unit (SettlementEncoder + list LimitOrder) :=
  let! ' (a, b) := st_lift (split_into_contexts pool orders) in
  fun w =>
    let '(w, solved) := solve_orders slippage orders pool a b w in
    (w,
     let* valid :=
       match solved with
       | Ok settlement =>
           let* valid := map_err (fun _ => tt) (is_valid_solution settlement) in
           Ok (if valid then Some settlement else None)
       | Err _ => Ok None
       | Panic => Panic
       end in
     match valid with
     | Some settlement => Ok (inl settlement)
     | None =>
         let excess_token := if is_excess_before_fees a b then address a else address b in
         let* remove := order_to_remove excess_token orders in
         match remove with
         | Some (index, _) => Ok (inr (swap_remove orders index))
         | None => Err tt
         end
     end).
Fixpoint solve_loop (fuel : nat) (slippage : SlippageContext) orders pool : st W unit SettlementEncoder :=
  match fuel, orders with
  | O, _ | _, [] => st_lift (Err tt)
  | S fuel, _ =>
      let! next := round slippage orders pool in
      match next with
      | inl settlement => st_lift (Ok settlement)
      | inr orders => solve_loop fuel slippage orders pool
      end
  end.
(** Every round removes an order. *)
Definition solve (slippage : SlippageContext) orders pool : st W unit SettlementEncoder :=
  solve_loop (length orders) slippage orders pool.
End solver.
End MultiOrderSolver.
Import MultiOrderSolver.

(** * crates/solvers/src/boundary/naive.rs *)
Module BoundaryNaive.
Import SolverEth SolverOrder SolverLiquidity.
(** What the handler of the pool captures: input and output. *)
Definition Swap : Type := option (Asset * Asset).

Definition model_kind (side : Side) : OrderKind := match side with Buy => ModelOrder.Buy | Sell => ModelOrder.Sell end.
Definition model_class (class : Class) : OrderClass :=
  match class with Market => ModelOrder.Market | Limit => ModelOrder.Limit | SolverOrder.Liquidity => ModelOrder.Liquidity end.
(** The default values of all that is not set. *)
Definition handler_order (order : Order) : ModelOrder.Order :=
  ModelOrder.mkOrder
    (mkOrderMetadata 0 0 (uid order) 0 0 0 0 0 false Open (model_class (class order)) 0 0 0 None None None None)
    (mkOrderData (token (sell order)) (token (buy order)) None (amount (sell order)) (amount (buy order)) 0 (zeros 32) 0
       (model_kind (side order)) (SolverOrder.partially_fillable order) SellErc20 BuyErc20)
    (ModelSignature.Eip712 (mkEcdsa 0 0 0)) (mkInteractions [] []).
(** [OrderHandler::encode] *)
Definition order_handler (order : ModelOrder.Order) (execution : LimitOrderExecution) (encoder : SettlementEncoder)
  : res unit SettlementEncoder :=
  map_err (fun _ => tt) (res_map fst (add_trade encoder order (filled execution) (execution_fee execution))).
(** [PoolHandler::encode] *)
Definition pool_handler (execution : AmmOrderExecution) (encoder : SettlementEncoder) : st Swap unit SettlementEncoder :=
  fun _ =>
  (Some (mkAsset (token_amount (input_max execution)) (amount_token (input_max execution)),
         mkAsset (token_amount (amm_output execution)) (amount_token (amm_output execution))), Ok encoder).
Definition limit_order (order : Order) : LegacyLiquidity.LimitOrder :=
  LegacyLiquidity.mkLimitOrder
    match class order with
    | Market => IdMarket (uid order)
    | Limit => IdLimit (uid order)
    | SolverOrder.Liquidity => IdLiquidity (Protocol (uid order))
    end
    (token (sell order)) (token (buy order)) (amount (sell order)) (amount (buy order)) (model_kind (side order))
    (SolverOrder.partially_fillable order) 0 (order_handler (handler_order order)) GnosisProtocol.

(** [Slippage::new] and [context] *)
Definition slippage_context (tokens : TokenPair.TokenPair) : res unit SlippageContext :=
  let* prices := res_expect (ExternalPrices.new 0 (<[tokens.2 := 1%Qc]> {[tokens.1 := 1%Qc]})) in
  Ok (mkSlippageContext prices (from_bps 0 None)).

Section solve.
Context (drain : list LegacyLiquidity.LimitOrder -> bool).
(** The order of a trade; a limit order cannot be filled without a fee. *)
Definition trade_of (orders : list Order) (traded : ModelOrder.Order) : res unit SolverSolution.Trade :=
  let* order := opt_expect (List.find (fun o => uid o =? order_uid (metadata traded)) orders) in
  let* fulfillment := opt_expect (SolverSolution.fulfillment_fill order) in
  Ok (SolverSolution.TFulfillment fulfillment).
Definition solve (orders : list Order) (liquidity : SolverLiquidity.Liquidity)
  : res unit (SolverSolution.Solution SolverLiquidity.Liquidity) :=
  match state liquidity with
  | ConstantProduct pool =>
      let boundary_orders := map limit_order (List.filter (fun order => negb (solver_determines_fee order)) orders) in
      let* tokens := cp_tokens pool in
      let* slippage := slippage_context tokens in
      let* boundary_pool := BoundaryLiquidity.constant_product_to_boundary (address liquidity) pool in
      let '(swap, solved) := MultiOrderSolver.solve drain slippage boundary_orders (for_pool boundary_pool pool_handler) None in
      let* boundary_solution := solved in
      let* priced_trades := map_err (fun _ => tt) (all_trades boundary_solution) in
      let* trades := rmap (fun t => trade_of orders (Settlement.order (priced t))) priced_trades in
      Ok (SolverSolution.mkSolution 0 (prices boundary_solution) trades []
            match swap with
            | Some (input, output) =>
                [SolverSolution.ILiquidity (SolverSolution.mkLiquidityInteraction liquidity input output false)]
            | None => []
            end [] None)
  | _ => Err tt
  end.
End solve.
End BoundaryNaive.
Import BoundaryNaive.

(** * crates/solvers/src/domain/solver/naive.rs *)
Module Naive.
Import SolverEth SolverOrder SolverLiquidity.
Record Group : Type := mkGroup {
  group_orders : list Order;
  group_liquidity : SolverLiquidity.Liquidity;
  group_pool : ConstantProductPool;
}.
Abbreviation Groups := (gmap TokenPair.TokenPair Group).
(** The deepest pool of each pair. *)
Definition add_pool (groups : Groups) (liquidity : SolverLiquidity.Liquidity) : res unit Groups :=
  match state liquidity with
  | ConstantProduct pool =>
      let* tokens := cp_tokens pool in
      match groups !! tokens with
      | Some group =>
          let* k := cp_k (group_pool group) in
          let* k' := cp_k pool in
          Ok (if k <? k' then <[tokens := mkGroup (group_orders group) liquidity pool]> groups else groups)
      | None => Ok (<[tokens := mkGroup [] liquidity pool]> groups)
      end
  | _ => Ok groups
  end.
(** Orders with an amount of zero are left out. *)
Definition add_order (groups : Groups) (order : Order) : Groups :=
  if (amount (sell order) =? 0) || (amount (buy order) =? 0) then groups
  else
    match TokenPair.new (token (sell order)) (token (buy order)) with
    | Some tokens =>
        alter (fun group => mkGroup (group_orders group ++ [order]) (group_liquidity group) (group_pool group)) tokens groups
    | None => groups
    end.
Definition group_by_token_pair (auction : BaselineEngine.Auction) : res unit Groups :=
  let* groups := rfold add_pool ∅ (BaselineEngine.auction_liquidity auction) in
  let groups := foldl add_order groups (BaselineEngine.orders auction) in
  Ok (filter (fun g => group_orders g.2 <> []) groups).

(** [U256::as_u64] panics; the sum is one of [u64]. *)
Definition solution_gas (trades : nat) (liquidity : SolverLiquidity.Liquidity) : res unit Z :=
  if 2 ^ 64 <=? SolverLiquidity.gas liquidity then Panic
  else
    Ok ((SolverSolution.INITIALIZATION_COST + SolverSolution.SETTLEMENT
         + SolverSolution.ERC20_TRANSFER * Z.of_nat trades * 2 + SolverLiquidity.gas liquidity) mod 2 ^ 64).
Section solve.
Context (drain : list LegacyLiquidity.LimitOrder -> bool).
Definition solve_group (i : nat) (group : Group) : res unit (SolverSolution.Solution SolverLiquidity.Liquidity) :=
  let* solution := BoundaryNaive.solve drain (group_orders group) (group_liquidity group) in
  let* gas := solution_gas (length (SolverSolution.trades solution)) (group_liquidity group) in
  Ok (SolverSolution.with_id (SolverSolution.with_gas solution gas) (Z.of_nat i mod 2 ^ 64)).
(** A panic of one group is one of the engine. *)
Definition solve (auction : BaselineEngine.Auction) : res unit (list (SolverSolution.Solution SolverLiquidity.Liquidity)) :=
  let* groups := group_by_token_pair auction in
  let* solutions := rfilter_map (fun g => solve_group g.1 g.2) (imap (fun i g => (i, g)) (map snd (map_to_list groups))) in
  rmap (fun s => SolverSolution.with_buffers_internalizations s (BaselineEngine.tokens auction)) solutions.
End solve.
End Naive.

(** * Lemmas *)
Import EncoderSpec.

(** ** The contexts *)
Section contexts.
Context {W : Type} (drain : list LimitOrder -> bool).
Implicit Types (pool : ConstantProductOrder W).

Lemma add_volume_Ok pool m token buy sell m' : add_volume pool m token buy sell = Ok m' ->
  (forall t c, m !! t = Some c -> address c = t) ->
  (forall t c, m' !! t = Some c -> address c = t) /\ dom m' = {[token]} ∪ dom m.
Proof.
  intros H Ha. unfold add_volume in H. apply rbind_Ok in H as (c & Hc & H). inv_ok. split; [|by rewrite dom_insert_L].
  intros t c' [[<- <-]|[_ Hc']]%lookup_insert_Some; [|by apply Ha]. cbn.
  destruct (m !! token) as [c0|] eqn:Hm; [injection Hc as <-; by apply Ha|]. inv_ok. done.
Qed.

Lemma split_tokens pool orders a b : split_into_contexts drain pool orders = Ok (a, b) ->
  address a <> address b /\
  Forall (fun o => (limit_sell_token o = address a \/ limit_sell_token o = address b) /\
    (limit_buy_token o = address a \/ limit_buy_token o = address b)) orders.
Proof.
  intros H. unfold split_into_contexts in H. apply rbind_Ok in H as (m & Hm & H).
  assert (Hall : (forall t c, m !! t = Some c -> address c = t) /\
    Forall (fun o => limit_sell_token o ∈ dom m /\ limit_buy_token o ∈ dom m) orders).
  { clear H. assert (H0 : forall t c, (∅ : gmap Z TokenContext) !! t = Some c -> address c = t) by (intros t c; by rewrite lookup_empty).
    revert Hm H0. generalize (∅ : gmap Z TokenContext). induction orders as [|o orders IH]; intros m0 Hm H0.
    - injection Hm as <-. split; [done|constructor].
    - cbn in Hm. apply rbind_Ok in Hm as (m1 & H1 & Hm). unfold add_order in H1.
      apply rbind_Ok in H1 as (m2 & H2 & H1). apply add_volume_Ok in H2 as [H2 D2]; [|done].
      apply add_volume_Ok in H1 as [H1 D1]; [|done].
      assert (Hsub : forall m0 m, rfold (add_order pool) m0 orders = Ok m ->
        (forall t c, m0 !! t = Some c -> address c = t) -> dom m0 ⊆ dom m).
      { clear. induction orders as [|o orders IH]; intros m0 m Hm H0; [by injection Hm as <-|].
        cbn in Hm. apply rbind_Ok in Hm as (m1 & H1 & Hm). unfold add_order in H1.
        apply rbind_Ok in H1 as (m2 & H2 & H1). apply add_volume_Ok in H2 as [H2 D2]; [|done].
        apply add_volume_Ok in H1 as [H1 D1]; [|done]. specialize (IH _ _ Hm H1). set_solver. }
      specialize (Hsub _ _ Hm H1). apply IH in Hm as [Ha Ho]; [|done]. split; [done|]. constructor; [|done]. set_solver. }
  destruct Hall as [Ha Ho]. destruct (map_to_list m) as [|[t1 c1] [|[t2 c2] [|]]] eqn:Hl; try done. cbn in H.
  assert (Hc1 : m !! t1 = Some c1) by (apply elem_of_map_to_list; rewrite Hl; left).
  assert (Hc2 : m !! t2 = Some c2) by (apply elem_of_map_to_list; rewrite Hl; right; left).
  assert (Hne : t1 <> t2).
  { pose proof (NoDup_fst_map_to_list m) as Hn. rewrite Hl in Hn. cbn in Hn. inversion_clear Hn as [|? ? Hn' _]. set_solver. }
  assert (Hdom : forall t, t ∈ dom m -> t = t1 \/ t = t2).
  { intros t [c Hc]%elem_of_dom. apply elem_of_map_to_list in Hc. rewrite Hl in Hc. set_solver. }
  apply Ha in Hc1 as E1, Hc2 as E2.
  assert (Hab : (address a = t1 /\ address b = t2) \/ (address a = t2 /\ address b = t1)).
  { destruct (drain orders); injection H as <- <-; naive_solver. }
  split; [destruct Hab as [[-> ->]|[-> ->]]; congruence|]. eapply Forall_impl; [exact Ho|]. cbn.
  intros o [Hs%Hdom Hb%Hdom]. destruct Hab as [[-> ->]|[-> ->]]; naive_solver.
Qed.
End contexts.

(** ** The loop *)
Section loop.
Context {W : Type} (drain : list LimitOrder -> bool) (slippage : SlippageContext) (pool : ConstantProductOrder W).

(** How a round accepted a settlement of the orders [os]. *)
Record accepted (os : list LimitOrder) (w : W) (settlement : SettlementEncoder) : Prop := {
  accepted_round : exists a b w0, split_into_contexts drain pool os = Ok (a, b) /\
    solve_orders slippage os pool a b w0 = (w, Ok settlement);
  accepted_valid : is_valid_solution settlement = Ok true;
}.

Lemma worse_order_in l best r : rfold worse_order best l = Ok r ->
  r = best \/ exists x, r = Some x /\ x ∈ l.
Proof.
  revert best. induction l as [|x l IH]; intros best H; [left; by injection H as <-|]. cbn in H.
  apply rbind_Ok in H as (b & Hb & H). apply IH in H as [->|(y & -> & Hy)]; [|right; exists y; split; [done|by right]].
  unfold worse_order in Hb. destruct best as [best|]; [|injection Hb as <-; right; exists x; split; [done|left]].
  apply rbind_Ok in Hb as (u & _ & Hb). apply rbind_Ok in Hb as (v & _ & Hb).
  destruct (v <? u); injection Hb as <-; [by left|]. right. exists x. split; [done|left].
Qed.

Lemma order_to_remove_in excess os i o : order_to_remove excess os = Ok (Some (i, o)) -> os !! i = Some o.
Proof.
  intros H. apply worse_order_in in H as [H|(x & [= <-] & Hx)]; [done|].
  apply list_elem_of_In, filter_In in Hx as [Hx _]. apply list_elem_of_In, elem_of_lookup_imap in Hx as (j & y & [= -> ->] & Hy).
  done.
Qed.

(** The round either accepts, or goes on with one order less. *)
Lemma round_Ok os w w' r : round drain slippage os pool w = (w', Ok r) ->
  match r with
  | inl settlement => accepted os w' settlement
  | inr os' => exists o, o :: os' ≡ₚ os
  end.
Proof.
  intros H. apply st_bind_Ok in H as (w1 & [a b] & [-> Hs]%st_lift_Ok & H).
  destruct (solve_orders slippage os pool a b w) as [w2 solved] eqn:Hso. injection H as <- H.
  apply rbind_Ok in H as (valid & Hv & H). destruct valid as [settlement|].
  - injection H as <-. destruct solved as [s| |]; [|done..]. apply rbind_Ok in Hv as (v & Hv & Hv').
    apply map_err_Ok in Hv. destruct v; [|done]. injection Hv' as ->. split; [|done]. by exists a, b, w.
  - apply rbind_Ok in H as (rm & Hrm & H). destruct rm as [[i o]|]; [|done]. injection H as <-.
    exists o. apply swap_remove_perm. by apply order_to_remove_in in Hrm.
Qed.

Lemma solve_loop_Ok fuel os w w' settlement : solve_loop drain fuel slippage os pool w = (w', Ok settlement) ->
  exists os', os' ⊆+ os /\ os' <> [] /\ accepted os' w' settlement.
Proof.
  revert os w. induction fuel as [|fuel IH]; intros os w H; [done|]. cbn in H. destruct os as [|o os]; [done|].
  apply st_bind_Ok in H as (w1 & r & Hr & H). apply round_Ok in Hr. destruct r as [s|os'].
  - apply st_lift_Ok in H as [-> [= ->]]. by exists (o :: os).
  - destruct Hr as [o' Hp]. apply IH in H as (os'' & Hsub & Hne & Ha). exists os''. split; [|done].
    rewrite <- Hp. by apply submseteq_cons.
Qed.

(** More fuel than there are orders changes nothing. *)
Lemma solve_loop_fuel fuel os w : (length os <= fuel)%nat ->
  solve_loop drain fuel slippage os pool w = solve_loop drain (length os) slippage os pool w.
Proof.
  revert fuel w. remember (length os) as n eqn:Hn. revert os Hn. induction n as [|n IH]; intros os Hn fuel w Hf.
  - destruct os; [|done]. by destruct fuel.
  - destruct fuel as [|fuel]; [lia|]. destruct os as [|o os]; [done|]. cbn [solve_loop]. unfold st_bind.
    destruct (round drain slippage (o :: os) pool w) as [w1 [r| |]] eqn:Hr; [|done..].
    apply round_Ok in Hr. destruct r as [s|os']; [done|]. destruct Hr as [o' Hp%Permutation_length]. cbn in Hp, Hn.
    apply IH; lia.
Qed.
End loop.

(** ** The trades of a settlement *)
Section trades.
Import SolverEth SolverOrder.

(** The fill of an order, and how a trade fills it: a market order at the
    clearing prices, an order that is liquidity at its limit. *)
Definition fill (o : Order) : Z := match side o with Buy => amount (buy o) | Sell => amount (sell o) end.
Definition fills (p : gmap Z Z) (o : Order) (t : EncoderTrade) : Prop :=
  Settlement.order (trade_data t) = handler_order o /\ executed_amount (trade_data t) = fill o /\
  match class o with
  | Market => trade_prices p t = (s ← p !! token (sell o); b ← p !! token (buy o); Some (s, b))
  | _ => trade_prices p t = Some (amount (buy o), amount (sell o))
  end.

Lemma fills_prices p p' o t : p = p' -> fills p o t -> fills p' o t.
Proof. by intros ->. Qed.

Lemma with_order_Ok e o e' exs : class o <> Limit -> with_order e (limit_order o) = Ok e' -> consistent e exs ->
  exists ex t, consistent e' (exs ++ [ex]) /\ prices e' = prices e /\ encoder_trades e' = encoder_trades e ++ [t] /\
    fills (prices e) o t.
Proof.
  intros Hc H Hcon. unfold with_order in H. cbn [settlement_handling limit_order] in H. unfold order_handler in H.
  apply map_err_Ok, res_map_Ok in H as ([e1 ex] & H & <-). cbn [filled execution_fee fst] in *.
  replace (full_execution_amount (limit_order o)) with (fill o) in H by (unfold fill, full_execution_amount; cbn; by destruct (side o)).
  cbn [user_fee limit_order] in H.
  pose proof (add_trade_consistent e exs (handler_order o) (fill o) 0 Hcon) as Hr. rewrite H in Hr. cbn in Hr.
  exists ex. unfold add_trade in H. apply rbind_Ok in H as ([e2 ex2] & H & [= <- <-]).
  cbn [handler_order metadata ModelOrder.class] in H. destruct (class o) eqn:Hk; [|done|]; cbn [model_class] in H.
  - unfold add_market_trade in H. apply rbind_Ok in H as (_ & _ & H). apply rbind_Ok in H as (sp & Hsp & H).
    apply rbind_Ok in H as (i & Hi & H). apply rbind_Ok in H as (bp & Hbp & H). apply rbind_Ok in H as (j & Hj & H).
    apply rbind_Ok in H as (ex' & Hex & [= <- <-]). eexists. split; [exact Hr|]. split; [done|]. split; [done|].
    unfold fills. rewrite Hk. split; [done|]. split; [done|]. done.
  - unfold add_custom_price_trade in H. apply rbind_Ok in H as (_ & _ & H). apply rbind_Ok in H as (ex' & Hex & [= <- <-]).
    eexists. split; [exact Hr|]. split; [done|]. split; [done|]. unfold fills. rewrite Hk. done.
Qed.

Lemma with_orders_Ok l e e' exs : Forall (fun o => class o <> Limit) l ->
  rfold with_order e (map limit_order l) = Ok e' -> consistent e exs ->
  exists exs', consistent e' (exs ++ exs') /\ prices e' = prices e /\
    exists ts, encoder_trades e' = encoder_trades e ++ ts /\ Forall2 (fills (prices e)) l ts.
Proof.
  intros Hl. revert e exs. induction Hl as [|o l Ho _ IH]; intros e exs H Hc.
  - injection H as <-. exists []. rewrite app_nil_r. split; [done|]. split; [done|]. exists []. by rewrite app_nil_r.
  - cbn in H. apply rbind_Ok in H as (e1 & H1 & H). eapply with_order_Ok in H1 as (ex & t & Hc1 & Hp & Ht & Hf); [|done..].
    apply (IH _ _ H) in Hc1 as (exs' & Hc' & Hp' & ts & Hts & Hall). exists (ex :: exs').
    split; [by rewrite <- app_assoc in Hc'|]. split; [congruence|]. exists (t :: ts). rewrite Hts, Ht, <- app_assoc.
    split; [done|]. constructor; [done|]. by rewrite Hp in Hall.
Qed.

Lemma all_trades_consistent e exs : consistent e exs -> exists ps, all_trades e = Ok ps /\
  Forall2 (fun p t => priced p = trade_data t /\ trade_prices (prices e) t = Some (sell_token_price p, buy_token_price p))
    ps (encoder_trades e).
Proof.
  intros [[_ _ Hok] Hex]. unfold all_trades. revert Hok exs Hex. generalize (encoder_trades e). intros l Hok.
  induction Hok as [|t l Ht _ IH]; intros exs Hex; [exists []; split; [done|constructor]|].
  inversion Hex as [|? ex ? exs' (s & b & Hsb & _) Hexs']; subst. destruct (IH _ Hexs') as (ps & Hps & Hall).
  assert (Hp : exists p, compute_trade_token_prices e t = Ok p /\ priced p = trade_data t /\
    trade_prices (prices e) t = Some (sell_token_price p, buy_token_price p)).
  { unfold compute_trade_token_prices, trade_prices, trade_ok in *. destruct (trade_tokens t) as [i j|s' b'].
    - destruct Ht as (Hi & Hj & _). rewrite Hi, Hj. cbn [opt_expect rbind].
      apply bind_Some in Hsb as (s1 & Hs1 & Hsb). apply bind_Some in Hsb as (b1 & Hb1 & [= <- <-]).
      rewrite Hs1, Hb1. cbn [opt_expect rbind]. eexists. split; [done|]. by split.
    - injection Hsb as <- <-. eexists. split; [done|]. by split. }
  destruct Hp as (p & Hp & Hp1 & Hp2). exists (p :: ps). cbn [rmap]. rewrite Hp. cbn [rbind].
  change (rmap _ l) with (rmap (compute_trade_token_prices e) l). rewrite Hps. split; [done|]. by constructor.
Qed.

(** An order gets no less than its limit at the clearing prices, as long as
    the value of what it buys fits. *)
Definition within_limit (p : gmap Z Z) (o : Order) : Prop :=
  exists ps pb, p !! token (sell o) = Some ps /\ p !! token (buy o) = Some pb /\
    (amount (buy o) * pb <= U256_MAX \/ class o = Market -> amount (buy o) * pb <= amount (sell o) * ps).

Lemma valid_within_limit p o t pt : class o <> Limit -> fills p o t -> priced pt = trade_data t ->
  trade_prices p t = Some (sell_token_price pt, buy_token_price pt) -> is_valid_trade p pt = true -> within_limit p o.
Proof.
  intros Hc (Ho & _ & Hp) Hpt Hprices Hv. unfold is_valid_trade in Hv. rewrite Hpt, Ho in Hv.
  cbn [handler_order data sell_amount buy_amount ModelOrder.sell_token ModelOrder.buy_token] in Hv.
  apply andb_prop in Hv as [H1 H2].
  destruct (p !! token (buy o)) as [pb|] eqn:Hpb; [|done]. destruct (p !! token (sell o)) as [ps|] eqn:Hps; [|done].
  cbn [fmap option_fmap option_map] in H2. exists ps, pb. split; [done|]. split; [done|]. intros Hor.
  destruct (checked_mul (amount (sell o)) _) as [sv|] eqn:Hsv; [|done]. destruct (checked_mul (amount (buy o)) _) as [bv|] eqn:Hbv; [|done].
  apply checked_mul_Some in Hsv as [-> _]. apply checked_mul_Some in Hbv as [-> _]. apply Z.leb_le in H1.
  destruct (class o) eqn:Hk; [|done|].
  - rewrite Hp in Hprices. cbn in Hprices. injection Hprices as Es Eb. rewrite Es, Eb. lia.
  - rewrite Hp in Hprices. injection Hprices as Es Eb. rewrite <- Es, <- Eb in H2.
    destruct Hor as [Hfit|]; [|done]. rewrite (proj2 (checked_mul_Some pb (amount (buy o)) (pb * amount (buy o)))) in H2
      by (split; [done|lia]).
    destruct (checked_mul ps (amount (sell o))) as [v|] eqn:Hm; [|done]. apply checked_mul_Some in Hm as [-> _].
    apply Z.leb_le in H2. lia.
Qed.
End trades.

(** ** What goes through the pool *)
Section pool.
Import SolverEth SolverOrder.

(** What the trades take out of the settlement in a token, net. *)
Definition net_of (token : Z) (ex : TradeExecution) : Z :=
  (if execution_buy_token ex =? token then execution_buy_amount ex else 0)
  - (if execution_sell_token ex =? token then execution_sell_amount ex else 0).
Definition net_demand (token : Z) (exs : list TradeExecution) : Z := foldr (fun ex total => net_of token ex + total) 0 exs.

Lemma big_rational_to_u256_nonneg q z : big_rational_to_u256 q = Some z -> 0 <= z.
Proof.
  unfold big_rational_to_u256, big_int_to_u256, big_uint_to_u256, u256_try_from. intros H.
  repeat (case_match; [done|]); case_match; [|done]. injection H as <-. apply Z.abs_nonneg.
Qed.

(** The two shapes of a solved settlement. *)
Lemma solve_orders_Ok slippage os bp a b w w' e :
  solve_orders slippage os (for_pool bp pool_handler) a b w = (w', Ok e) ->
  if is_excess_after_fees a b (UniswapV2.fee bp) || is_excess_after_fees b a (UniswapV2.fee bp) then
    exists shortage excess uo ui required input,
      ((shortage, excess) = (a, b) \/ (shortage, excess) = (b, a)) /\
      rfold with_order (SettlementEncoder.new (<[address shortage := ui]> {[address excess := uo]})) os = Ok e /\
      rfold (required_out (address shortage) uo ui) 0 os = Ok required /\
      0 <= ui /\ token input = address excess /\ w' = Some (input, mkAsset (Z.max required uo) (address shortage))
  else
    rfold with_order (SettlementEncoder.new (<[address b := reserve a]> {[address a := reserve b]})) os = Ok e /\ w' = w.
Proof.
  assert (Huni : forall shortage excess, solve_with_uniswap slippage os (for_pool bp pool_handler) shortage excess w = (w', Ok e) ->
    exists uo ui required input,
      rfold with_order (SettlementEncoder.new (<[address shortage := ui]> {[address excess := uo]})) os = Ok e /\
      rfold (required_out (address shortage) uo ui) 0 os = Ok required /\
      0 <= ui /\ token input = address excess /\ w' = Some (input, mkAsset (Z.max required uo) (address shortage))).
  { intros shortage excess H. unfold solve_with_uniswap in H.
    apply st_bind_Ok in H as (w1 & [[s ui] m] & [-> Hl]%st_lift_Ok & H).
    apply rbind_Ok in Hl as (out & _ & Hl). apply rbind_Ok in Hl as (in_ & _ & Hl). apply rbind_Ok in Hl as (uo & _ & Hl).
    apply rbind_Ok in Hl as (ui' & Hui & Hl). apply ok_or_Ok, big_rational_to_u256_nonneg in Hui. apply rbind_Ok in Hl as (s' & Hs & Hl). apply rbind_Ok in Hl as (req & Hreq & Hl).
    apply rbind_Ok in Hl as (req' & Hreq' & [= <- <- <-]).
    apply st_bind_Ok in H as (w1 & ex & [-> Hex]%st_lift_Ok & H). cbn [pool_handling for_pool pool_handler] in H.
    unfold pool_handler in H. injection H as <- <-. unfold apply_to_amm_execution in Hex.
    apply rbind_Ok in Hex as (rel & _ & Hex). apply rbind_Ok in Hex as (ab & _ & [= <-]). cbn.
    eexists uo, ui', req, (mkAsset _ (address excess)). split; [exact Hs|]. split; [exact Hreq|]. split; [exact Hui|].
    assert (req' = req) as ->; [|by split].
    apply ok_or_Ok in Hreq'. unfold big_int_to_u256, big_uint_to_u256, u256_try_from in Hreq'.
    destruct (Z.ltb_spec req 0); [done|]. rewrite Z.abs_eq in Hreq' by done. destruct (req <=? U256_MAX); [by injection Hreq'|done]. }
  unfold solve_orders. cbn [pool_fee for_pool]. destruct (is_excess_after_fees a b (UniswapV2.fee bp)) eqn:E1; cbn [orb].
  - intros (uo & ui & req & input & H)%Huni. exists b, a, uo, ui, req, input. split; [by right|done].
  - destruct (is_excess_after_fees b a (UniswapV2.fee bp)) eqn:E2.
    + intros (uo & ui & req & input & H)%Huni. exists a, b, uo, ui, req, input. split; [by left|done].
    + intros [-> H]%st_lift_Ok. done.
Qed.

Lemma traded_full (o : Order) t ps pb ex : 0 < amount (sell o) -> 0 < amount (buy o) ->
  Settlement.order (trade_data t) = handler_order o -> executed_amount (trade_data t) = fill o ->
  executed_amounts (trade_data t) ps pb = Some ex ->
  execution_sell_token ex = token (sell o) /\ execution_buy_token ex = token (buy o) /\
  match side o with
  | Sell => execution_sell_amount ex = amount (sell o) /\ execution_buy_amount ex = cdiv (amount (sell o) * ps) pb /\ 1 <= pb
  | Buy => execution_buy_amount ex = amount (buy o) /\ execution_sell_amount ex = amount (buy o) * pb / ps /\ ps <> 0
  end.
Proof.
  intros H1 H2 Ho Hf (x & Hx & -> & -> & -> & ->)%executed_amounts_Some. rewrite Ho, Hf in *. cbn [handler_order data] in *.
  split; [done|]. split; [done|]. unfold fill in Hx. apply traded_amounts_Some in Hx. cbn [kind] in Hx.
  destruct (side o); cbn [model_kind] in Hx; destruct Hx as [-> Hx]; done.
Qed.

Lemma demand_of_order out in_ uo ui p o t ex total total' : p = <[out := ui]> {[in_ := uo]} -> in_ <> out ->
  (token (sell o) = out /\ token (buy o) = in_) \/ (token (sell o) = in_ /\ token (buy o) = out) ->
  0 < amount (sell o) -> 0 < amount (buy o) -> fills p o t -> executes p t ex ->
  within_limit p o -> (class o <> Market -> forall pb, p !! token (buy o) = Some pb -> amount (buy o) * pb <= U256_MAX) ->
  class o <> Limit -> 0 <= ui -> required_out out uo ui total (limit_order o) = Ok total' -> net_of out ex <= total' - total.
Proof.
  intros Hp Hne Htok H1 H2 (Ho & Hfill & Hpr) (s & b & Hsb & Hex) (ps & pb & Hps & Hpb & Hlim) Hfit Hc Hui Hreq.
  assert (Hl : amount (buy o) * pb <= amount (sell o) * ps).
  { apply Hlim. destruct (class o); [by right|done|left; by apply Hfit]. }
  clear Hlim Hfit. unfold net_of. pose proof (traded_full o t s b ex H1 H2 Ho Hfill Hex) as (-> & -> & Hamt).
  assert (Hsb' : (s = ps /\ b = pb) \/ (s = amount (buy o) /\ b = amount (sell o))).
  { destruct (class o); [left|done|right]; rewrite Hpr in Hsb; [rewrite Hps, Hpb in Hsb; cbn in Hsb|]; injection Hsb as -> ->; done. }
  unfold required_out in Hreq. cbn [limit_sell_token limit_order limit_kind limit_sell_amount limit_buy_amount] in Hreq.
  destruct Htok as [[Es Eb]|[Es Eb]]; rewrite Es, Eb in *.
  - rewrite Z.eqb_refl in *. rewrite (proj2 (Z.eqb_neq in_ out)) by done.
    subst p. rewrite lookup_insert_eq in Hps. rewrite lookup_insert_ne, lookup_singleton_eq in Hpb by done.
    injection Hps as ->. injection Hpb as ->.
    destruct (side o); cbn [model_kind] in Hreq.
    + apply rbind_Ok in Hreq as (sold & Hs & [= <-]). apply rbind_Ok in Hs as (pr & Hpr' & Hs).
      apply ok_or_Ok in Hpr', Hs. apply checked_mul_Some in Hpr' as [-> _]. apply checked_div_Some in Hs as [-> Hz].
      destruct Hamt as (_ & -> & Hs0). destruct Hsb' as [[-> ->]|[-> ->]]; [lia|].
      rewrite Z.mul_comm, Z.div_mul by lia. pose proof (Z.mul_div_le (amount (buy o) * pb) ps ltac:(lia)). nia.
    + cbn in Hreq. injection Hreq as <-. destruct Hamt as (-> & _). lia.
  - rewrite (proj2 (Z.eqb_neq in_ out)) in * by done. rewrite Z.eqb_refl.
    subst p. rewrite lookup_insert_eq in Hpb. rewrite lookup_insert_ne, lookup_singleton_eq in Hps by done.
    injection Hps as ->. injection Hpb as ->.
    destruct (side o); cbn [model_kind] in Hreq.
    + cbn in Hreq. injection Hreq as <-. destruct Hamt as (-> & _). lia.
    + apply rbind_Ok in Hreq as (bought & Hs & [= <-]). apply rbind_Ok in Hs as (pr & Hpr' & Hs).
      apply ok_or_Ok in Hpr', Hs. apply checked_mul_Some in Hpr' as [-> _]. apply checked_ceil_div_cdiv in Hs as [-> Hz].
      destruct Hamt as (_ & -> & Hs0). destruct Hsb' as [[-> ->]|[-> ->]]; [lia|].
      rewrite cdiv_mul by lia. pose proof (cdiv_spec (amount (sell o) * ps) pb ltac:(lia)). nia.
Qed.
(** An order the engine considers. *)
Record considered (o : Order) : Prop := {
  considered_class : class o <> Limit;
  considered_tokens : token (sell o) <> token (buy o);
  considered_sell : 0 < amount (sell o);
  considered_buy : 0 < amount (buy o);
}.
(** The value of what a liquidity order buys fits; a check of the code takes
    the one that does not for small. *)
Definition liquidity_fits (p : gmap Z Z) (o : Order) : Prop :=
  class o <> Market -> forall pb, p !! token (buy o) = Some pb -> amount (buy o) * pb <= U256_MAX.

Lemma demand_of_orders out in_ uo ui p l ts exs total total' : p = <[out := ui]> {[in_ := uo]} -> in_ <> out -> 0 <= ui ->
  Forall (fun o => (token (sell o) = out /\ token (buy o) = in_) \/ (token (sell o) = in_ /\ token (buy o) = out)) l ->
  Forall considered l -> Forall (within_limit p) l -> Forall (liquidity_fits p) l ->
  Forall2 (fills p) l ts -> Forall2 (executes p) ts exs ->
  rfold (required_out out uo ui) total (map limit_order l) = Ok total' -> net_demand out exs <= total' - total.
Proof.
  intros Hp Hne Hui Htok Hcon Hlim Hfit Hfills. revert exs total Htok Hcon Hlim Hfit.
  induction Hfills as [|o t l ts Hf _ IH]; intros exs total Htok Hcon Hlim Hfit Hex Hreq.
  { inversion Hex; subst. injection Hreq as <-. cbn. lia. }
  inversion Hex as [|? ex ? exs' He Hexs]; subst exs. cbn in Hreq. apply rbind_Ok in Hreq as (total1 & H1 & Hreq).
  apply Forall_cons_iff in Htok as [Ht Htok], Hlim as [Hl Hlim], Hfit as [Hfi Hfit], Hcon as [[C1 C2 C3 C4] Hcon].
  specialize (IH _ _ Htok Hcon Hlim Hfit Hexs Hreq).
  change (net_demand out (ex :: exs')) with (net_of out ex + net_demand out exs').
  pose proof (demand_of_order _ _ _ _ _ _ _ _ _ _ Hp Hne Ht C3 C4 Hf He Hl Hfi C1 Hui H1). lia.
Qed.

(** What the trades of a valid settlement of the orders are. *)
Lemma settled_orders p l e : Forall considered l -> rfold with_order (SettlementEncoder.new p) (map limit_order l) = Ok e ->
  is_valid_solution e = Ok true ->
  exists exs ts, consistent e exs /\ prices e = p /\ encoder_trades e = ts /\ Forall2 (fills p) l ts /\
    Forall2 (executes p) ts exs /\ Forall (within_limit p) l.
Proof.
  intros Hcon Hw Hv. assert (Hcl : Forall (fun o => class o <> Limit) l) by (eapply Forall_impl; [exact Hcon|]; by intros o []).
  destruct (with_orders_Ok _ _ _ _ Hcl Hw (new_consistent p)) as (exs & Hc & Hp & ts & Hts & Hf). cbn in Hp, Hts, Hf, Hc.
  exists exs, ts. split; [done|]. split; [done|]. split; [done|]. split; [done|].
  pose proof Hc as [_ Hex]. rewrite Hp, Hts in Hex. split; [done|].
  destruct (all_trades_consistent _ _ Hc) as (ps & Hps & Hall). unfold is_valid_solution in Hv. rewrite Hps in Hv. cbn in Hv.
  injection Hv as Hv. rewrite Hp, Hts in Hall. rewrite Hp in Hv. clear -Hcl Hf Hall Hv. rename Hall into Hps. revert Hcl ps Hps Hv.
  induction Hf as [|o t l ts Hf _ IH]; intros Hcl ps Hps Hv; [constructor|].
  inversion Hps as [|pt ? ps' ? [Hp1 Hp2] Hps']; subst. cbn in Hv. apply andb_prop in Hv as [Hv1 Hv2].
  apply Forall_cons_iff in Hcl as [Hc Hcl]. constructor; [by eapply valid_within_limit|]. by eapply IH.
Qed.
End pool.

(** ** The engine *)
Section engine.
Import SolverEth SolverOrder SolverLiquidity Naive.

Lemma submseteq_map_inv {A B} (f : A -> B) (l : list A) (k : list B) : k ⊆+ map f l ->
  exists l', k = map f l' /\ l' ⊆+ l.
Proof.
  intros (k' & Hp)%submseteq_Permutation. symmetry in Hp. apply Permutation_map_inv in Hp as (l3 & Heq & Hp). symmetry in Heq.
  apply map_eq_app in Heq as (l1 & l2 & -> & <- & <-). exists l1. split; [done|]. rewrite Hp. apply submseteq_inserts_r. done.
Qed.

Lemma rmap_elem {E A B} (f : A -> res E B) l bs b : rmap f l = Ok bs -> b ∈ bs -> exists a, a ∈ l /\ f a = Ok b.
Proof.
  intros H%rmap_Ok. induction H as [|x y l bs Hxy _ IH]; [by intros ?%elem_of_nil|].
  intros [->|(a & Ha & Hf)%IH]%elem_of_cons; [exists x; split; [left|done]|exists a; split; [by right|done]].
Qed.

(** What is known of a group. *)
Record grouped (auction : BaselineEngine.Auction) (tokens : TokenPair.TokenPair) (g : Group) : Prop := {
  grouped_orders : group_orders g =
    List.filter (fun o => negb ((amount (sell o) =? 0) || (amount (buy o) =? 0))
      && bool_decide (TokenPair.new (token (sell o)) (token (buy o)) = Some tokens)) (BaselineEngine.orders auction);
  grouped_liquidity : group_liquidity g ∈ BaselineEngine.auction_liquidity auction;
  grouped_pool : state (group_liquidity g) = ConstantProduct (group_pool g) /\ cp_tokens (E := unit) (group_pool g) = Ok tokens;
  grouped_deepest liquidity pool k : liquidity ∈ BaselineEngine.auction_liquidity auction ->
    state liquidity = ConstantProduct pool -> cp_tokens (E := unit) pool = Ok tokens -> cp_k (E := unit) pool = Ok k ->
    exists k', cp_k (E := unit) (group_pool g) = Ok k' /\ k <= k';
}.

(** The pools of the groups, after the liquidity [seen]. *)
Definition pools_ok (seen : list SolverLiquidity.Liquidity) (groups : Groups) : Prop :=
  forall tokens g, groups !! tokens = Some g ->
  group_orders g = [] /\ group_liquidity g ∈ seen /\
  (state (group_liquidity g) = ConstantProduct (group_pool g) /\ cp_tokens (E := unit) (group_pool g) = Ok tokens) /\
  forall liquidity pool k, liquidity ∈ seen -> state liquidity = ConstantProduct pool ->
    cp_tokens (E := unit) pool = Ok tokens -> cp_k (E := unit) pool = Ok k ->
    exists k', cp_k (E := unit) (group_pool g) = Ok k' /\ k <= k'.
(** Every pool that was seen has a group. *)
Definition pools_complete (seen : list SolverLiquidity.Liquidity) (groups : Groups) : Prop :=
  forall liquidity pool tokens, liquidity ∈ seen -> state liquidity = ConstantProduct pool ->
    cp_tokens (E := unit) pool = Ok tokens -> is_Some (groups !! tokens).

Lemma add_pool_ok seen groups l groups' : add_pool groups l = Ok groups' -> pools_ok seen groups -> pools_complete seen groups ->
  pools_ok (seen ++ [l]) groups' /\ pools_complete (seen ++ [l]) groups'.
Proof.
  intros H Ho Hc. unfold add_pool in H. destruct (state l) as [pool| | | |] eqn:Hl.
  2-5: injection H as <-; split; [intros tokens g (H1 & H2 & H3 & H4)%Ho; split_and!; [done|set_solver|by apply H3|by apply H3|]
    |intros l' p' t [Hin| ->%list_elem_of_singleton]%elem_of_app Hs; [by eapply Hc|congruence]];
    intros l' p' k [Hin| ->%list_elem_of_singleton]%elem_of_app Hs; [by eapply H4|congruence].
  apply rbind_Ok in H as (tokens & Htok & H).
  assert (Hother : forall g, groups' = <[tokens := g]> groups \/ groups' = groups ->
    forall t g', t <> tokens -> groups' !! t = Some g' ->
      group_orders g' = [] /\ group_liquidity g' ∈ seen ++ [l] /\
      (state (group_liquidity g') = ConstantProduct (group_pool g') /\ cp_tokens (E := unit) (group_pool g') = Ok t) /\
      forall liquidity pool k, liquidity ∈ seen ++ [l] -> state liquidity = ConstantProduct pool ->
        cp_tokens (E := unit) pool = Ok t -> cp_k (E := unit) pool = Ok k ->
        exists k', cp_k (E := unit) (group_pool g') = Ok k' /\ k <= k').
  { intros g Hg t g' Hne Hg'. assert (Hg0 : groups !! t = Some g') by (destruct Hg as [->| ->]; [by rewrite lookup_insert_ne in Hg'|done]).
    destruct (Ho _ _ Hg0) as (H1 & H2 & H3 & H4). split; [done|]. split; [set_solver|]. split; [done|].
    intros l' p' k [Hin| ->%list_elem_of_singleton]%elem_of_app Hs Ht Hk; [by eapply H4|]. rewrite Hl in Hs. injection Hs as <-. congruence. }
  assert (Hcomp : forall g, groups' = <[tokens := g]> groups \/ (groups' = groups /\ is_Some (groups !! tokens)) ->
    pools_complete (seen ++ [l]) groups').
  { intros g Hg l' p' t [Hin| ->%list_elem_of_singleton]%elem_of_app Hs Ht.
    - destruct (Hc _ _ _ Hin Hs Ht) as [g' Hg']. destruct Hg as [->|[-> _]]; [|by eexists].
      destruct (decide (t = tokens)) as [->|]; [rewrite lookup_insert_eq|rewrite lookup_insert_ne by done]; by eexists.
    - rewrite Hl in Hs. injection Hs as <-. assert (t = tokens) as -> by congruence.
      destruct Hg as [->|[-> Hg]]; [rewrite lookup_insert_eq; by eexists|done]. }
  destruct (groups !! tokens) as [g|] eqn:Hg.
  - destruct (Ho _ _ Hg) as (H1 & H2 & H3 & H4).
    apply rbind_Ok in H as (k & Hk & H). apply rbind_Ok in H as (k' & Hk' & H).
    destruct (Z.ltb_spec k k') as [Hlt|Hge]; injection H as <-.
    + split; [|apply (Hcomp _ (or_introl eq_refl))]. intros t g' Hg'. destruct (decide (t = tokens)) as [->|Hne]; [|by eapply Hother; [left|..]].
      rewrite lookup_insert_eq in Hg'. injection Hg' as <-. cbn. split; [done|]. split; [set_solver|]. split; [done|].
      intros l' p' k0 [Hin| ->%list_elem_of_singleton]%elem_of_app Hs Ht Hk0.
      * destruct (H4 _ _ _ Hin Hs Ht Hk0) as (k1 & Hk1 & Hle). exists k'. split; [done|]. rewrite Hk in Hk1. injection Hk1 as <-. lia.
      * rewrite Hl in Hs. injection Hs as <-. exists k'. split; [done|]. rewrite Hk' in Hk0. injection Hk0 as <-. lia.
    + split; [|apply (Hcomp g), or_intror; by split]. intros t g' Hg'. destruct (decide (t = tokens)) as [->|Hne]; [|by eapply (Hother g); [right|..]].
      rewrite Hg in Hg'. injection Hg' as <-. split; [done|]. split; [set_solver|]. split; [done|].
      intros l' p' k0 [Hin| ->%list_elem_of_singleton]%elem_of_app Hs Ht Hk0; [by eapply H4|].
      rewrite Hl in Hs. injection Hs as <-. exists k. split; [done|]. rewrite Hk' in Hk0. injection Hk0 as <-. lia.
  - injection H as <-. split; [|apply (Hcomp _ (or_introl eq_refl))].
    intros t g' Hg'. destruct (decide (t = tokens)) as [->|Hne]; [|by eapply Hother; [left|..]].
    rewrite lookup_insert_eq in Hg'. injection Hg' as <-. cbn. split; [done|]. split; [set_solver|]. split; [done|].
    intros l' p' k0 [Hin| ->%list_elem_of_singleton]%elem_of_app Hs Ht Hk0.
    + destruct (Hc _ _ _ Hin Hs Ht) as [g' Hg']. congruence.
    + rewrite Hl in Hs. injection Hs as <-. exists k0. split; [done|lia].
Qed.

Lemma add_pools_ok l groups : rfold add_pool ∅ l = Ok groups -> pools_ok l groups.
Proof.
  assert (H0 : pools_ok [] ∅ /\ pools_complete [] ∅) by (split; [intros ? ? ?|intros ? ? ? Hin; by apply elem_of_nil in Hin]; by rewrite lookup_empty in *).
  change l with ([] ++ l) at 2. revert H0. generalize (∅ : Groups). generalize (@nil SolverLiquidity.Liquidity).
  induction l as [|x l IH]; intros seen g0 [Ho Hc] H; [rewrite app_nil_r; by injection H as <-|].
  cbn in H. apply rbind_Ok in H as (g1 & H1 & H). rewrite cons_middle, app_assoc. apply (IH _ g1); [|done]. by eapply add_pool_ok.
Qed.

(** The orders of a group. *)
Definition over (tokens : TokenPair.TokenPair) (o : Order) : bool :=
  negb ((amount (sell o) =? 0) || (amount (buy o) =? 0))
  && bool_decide (TokenPair.new (token (sell o)) (token (buy o)) = Some tokens).

Lemma add_orders_ok l groups tokens :
  foldl add_order groups l !! tokens =
  (fun g => mkGroup (group_orders g ++ List.filter (over tokens) l) (group_liquidity g) (group_pool g)) <$> groups !! tokens.
Proof.
  revert groups. induction l as [|o l IH]; intros groups; cbn [foldl List.filter].
  { destruct (groups !! tokens) as [[]|]; [|done]. cbn. by rewrite app_nil_r. }
  rewrite IH. unfold add_order, over at 2. destruct (_ || _); cbn [negb andb]; [done|].
  destruct (TokenPair.new (token (sell o)) (token (buy o))) as [t|] eqn:Ht; [|by rewrite bool_decide_false].
  destruct (decide (t = tokens)) as [->|Hne].
  - rewrite bool_decide_true by done. rewrite lookup_alter_eq. destruct (groups !! tokens); [|done]. cbn. by rewrite <- app_assoc.
  - rewrite bool_decide_false by congruence. by rewrite lookup_alter_ne.
Qed.

Lemma groups_ok auction groups tokens g : group_by_token_pair auction = Ok groups -> groups !! tokens = Some g ->
  grouped auction tokens g /\ group_orders g <> [].
Proof.
  intros H Hg. unfold group_by_token_pair in H. apply rbind_Ok in H as (pools & Hp & [= <-]).
  apply map_lookup_filter_Some in Hg as [Hg Hne]. split; [|exact Hne]. rewrite add_orders_ok in Hg.
  destruct (pools !! tokens) as [g0|] eqn:Hg0; [|done]. injection Hg as <-.
  apply add_pools_ok in Hp. destruct (Hp _ _ Hg0) as (H1 & H2 & H3 & H4). split; cbn; try done. by rewrite H1.
Qed.

Lemma trade_of_Ok orders o t : NoDup (map uid orders) -> o ∈ orders ->
  trade_of orders (handler_order o) = Ok t -> t = SolverSolution.TFulfillment (SolverSolution.mkFulfillment o (fill o) SolverSolution.Protocol).
Proof.
  intros Hn Hin H. unfold trade_of in H. cbn [handler_order metadata order_uid] in H.
  apply rbind_Ok in H as (o' & Ho & H). apply opt_expect_Ok in Ho. apply find_some in Ho as [Hin' He]. apply Z.eqb_eq in He.
  assert (o' = o) as ->.
  { apply list_elem_of_In, list_elem_of_lookup in Hin' as [i Hi]. apply list_elem_of_lookup in Hin as [j Hj].
    assert (i = j) as ->; [|congruence]. eapply (NoDup_lookup (map uid orders)); [done|..]; rewrite list_lookup_fmap.
    - by rewrite Hi.
    - rewrite Hj. cbn. by rewrite He. }
  apply rbind_Ok in H as (f & Hf & [= <-]). apply opt_expect_Ok in Hf. unfold SolverSolution.fulfillment_fill in Hf.
  apply fulfillment_new_Some in Hf as [-> _]. done.
Qed.

Definition filled_trade (o : Order) : SolverSolution.Trade :=
  SolverSolution.TFulfillment (SolverSolution.mkFulfillment o (fill o) SolverSolution.Protocol).

Lemma trades_of_Ok orders e exs l p trades : NoDup (map uid orders) -> l ⊆ orders -> consistent e exs ->
  Forall2 (fills p) l (encoder_trades e) ->
  (let* ps := map_err (fun _ => tt) (all_trades e) in rmap (fun t => trade_of orders (Settlement.order (priced t))) ps) = Ok trades ->
  trades = map filled_trade l.
Proof.
  intros Hn Hsub Hc Hf H. destruct (all_trades_consistent _ _ Hc) as (ps & Hps & Hall). rewrite Hps in H. cbn in H. clear Hps Hc.
  revert ps Hall trades H. induction Hf as [|o t l ts (Ho & _) _ IH]; intros ps Hall trades H.
  - inversion Hall; subst. by injection H as <-.
  - inversion Hall as [|pt ? ps' ? [Hp1 _] Hps']; subst. cbn in H. apply rbind_Ok in H as (t1 & H1 & H).
    apply rbind_Ok in H as (ts1 & H2 & [= <-]). rewrite Hp1, Ho in H1. apply trade_of_Ok in H1 as ->; [|done|set_solver].
    cbn. f_equal. apply (IH ltac:(set_solver) ps'); done.
Qed.

(** The orders that were accepted, of those of the group. *)
Lemma accepted_orders drain slippage bp orders w e :
  Forall (fun o => over (UniswapV2.tokens bp) o = true /\ 0 <= amount (sell o) /\ 0 <= amount (buy o)) orders ->
  (exists w0, MultiOrderSolver.solve drain slippage
     (map limit_order (List.filter (fun order => negb (solver_determines_fee order)) orders)) (for_pool bp pool_handler) w0 = (w, Ok e)) ->
  exists l, l ⊆+ orders /\ l <> [] /\ Forall considered l /\
    accepted drain slippage (for_pool bp pool_handler) (map limit_order l) w e.
Proof.
  intros Hover (w0 & H). unfold MultiOrderSolver.solve in H. apply solve_loop_Ok in H as (os & Hsub & Hne & Ha).
  apply submseteq_map_inv in Hsub as (l & -> & Hsub). exists l. split.
  { etransitivity; [exact Hsub|]. apply sublist_submseteq. clear. induction orders as [|o orders IH]; [done|]. cbn.
    destruct (negb _); [by apply sublist_skip|by apply sublist_cons]. }
  split; [by intros ->|]. split; [|done]. apply Forall_forall. intros o Ho.
  assert (Hin : o ∈ List.filter (fun order => negb (solver_determines_fee order)) orders) by (by eapply elem_of_submseteq).
  apply list_elem_of_In, filter_In in Hin as [Hin Hc]. rewrite Forall_forall in Hover.
  destruct (Hover o) as (Ho1 & Hs & Hb); [by apply list_elem_of_In|]. unfold over in Ho1. apply andb_prop in Ho1 as [Hz Ht].
  apply negb_true_iff, orb_false_iff in Hz as [Hz1 Hz2]. apply Z.eqb_neq in Hz1, Hz2. apply bool_decide_eq_true in Ht.
  apply pair_new_Some in Ht as [Hne' _]. split; [|done|lia|lia]. intros Hl. unfold solver_determines_fee in Hc. by rewrite Hl in Hc.
Qed.

Lemma accepted_settles drain slippage bp l w e : Forall considered l ->
  accepted drain slippage (for_pool bp pool_handler) (map limit_order l) w e ->
  exists exs p, consistent e exs /\ prices e = p /\ Forall2 (fills p) l (encoder_trades e) /\
    Forall2 (executes p) (encoder_trades e) exs /\ Forall (within_limit p) l.
Proof.
  intros Hcon [(a & b & w0 & _ & Hs) Hv].
  assert (Hw : exists p, rfold with_order (SettlementEncoder.new p) (map limit_order l) = Ok e).
  { apply solve_orders_Ok in Hs. destruct (_ || _); [|destruct Hs as [Hs _]; by eexists].
    destruct Hs as (sh & ex & uo & ui & rq & inp & _ & Hs & _). by eexists. }
  destruct Hw as (p & Hw). destruct (settled_orders _ _ _ Hcon Hw Hv) as (exs & ts & H1 & H2 & <- & H4 & H5 & H6).
  exists exs, p. done.
Qed.

Lemma boundary_solve_Ok drain orders liquidity pool tokens s : state liquidity = ConstantProduct pool ->
  cp_tokens (E := unit) pool = Ok tokens ->
  Forall (fun o => over tokens o = true /\ 0 <= amount (sell o) /\ 0 <= amount (buy o)) orders -> NoDup (map uid orders) ->
  BoundaryNaive.solve drain orders liquidity = Ok s ->
  exists l, l ⊆+ orders /\ l <> [] /\ Forall considered l /\ SolverSolution.trades s = map filled_trade l /\
    Forall (within_limit (SolverSolution.prices s)) l.
Proof.
  intros Hst Htok Hover Hn H. unfold BoundaryNaive.solve in H. rewrite Hst in H.
  apply rbind_Ok in H as (tokens' & Htok' & H). assert (tokens' = tokens) as -> by congruence.
  apply rbind_Ok in H as (slippage & _ & H). apply rbind_Ok in H as (bp & Hbp & H).
  assert (Hbt : UniswapV2.tokens bp = tokens).
  { unfold BoundaryLiquidity.constant_product_to_boundary in Hbp. unfold cp_tokens in Htok. destruct (cp_reserves pool) as [ra rb].
    apply opt_expect_Ok in Htok. cbn in Htok. rewrite Htok in Hbp. cbn [opt_expect rbind] in Hbp.
    apply rbind_Ok in Hbp as (r0 & _ & Hbp). apply rbind_Ok in Hbp as (r1 & _ & Hbp). destruct (_ || _); [done|].
    by apply rbind_Ok in Hbp as (f & _ & [= <-]). }
  destruct (MultiOrderSolver.solve _ _ _ _ _) as [w solved] eqn:Hsolve. apply rbind_Ok in H as (e & -> & H).
  destruct (accepted_orders drain slippage bp orders w e) as (l & Hsub & Hne & Hcon & Hacc).
  { by rewrite Hbt. }
  { by eexists. }
  exists l. split; [done|]. split; [done|]. split; [done|].
  destruct (accepted_settles _ _ _ _ _ _ Hcon Hacc) as (exs & p & Hc & <- & Hf & _ & Hlim).
  apply rbind_Ok in H as (ps & Hps & H). apply rbind_Ok in H as (trades & Htr & [= <-]). cbn. split; [|done].
  eapply trades_of_Ok; [exact Hn| |exact Hc|exact Hf|by rewrite Hps].
  intros o Ho. by eapply elem_of_submseteq.
Qed.
End engine.

(** * Properties *)
Lemma qc_cancel (k a b : Qc) : k <> 0%Qc -> (k * a = k * b)%Qc -> a = b.
Proof.
  intros Hk H. rewrite <- (Qcmult_1_l a), <- (Qcmult_1_l b), <- (Qcmult_inv_l k Hk), <- !Qcmult_assoc. by rewrite H.
Qed.

Section properties.
Import SolverEth SolverOrder SolverLiquidity Naive.

(** C10: The naive engine settles orders of the auction within their limits:
    every solution fills some orders over one pair completely, each of them
    once, none of a class whose fee the solver determines, and at the clearing
    prices of the solution each order gets at least its limit (for an order
    that provides liquidity: as long as the value of what it buys fits into
    256 bits). *)
Theorem naive_solutions_settle (drain : list LegacyLiquidity.LimitOrder -> bool) (auction : BaselineEngine.Auction)
    (solutions : list (SolverSolution.Solution SolverLiquidity.Liquidity)) (s : SolverSolution.Solution SolverLiquidity.Liquidity) :
  NoDup (map uid (BaselineEngine.orders auction)) ->
  Forall (fun o => 0 <= amount (sell o) /\ 0 <= amount (buy o)) (BaselineEngine.orders auction) ->
  Naive.solve drain auction = Ok solutions -> s ∈ solutions ->
  exists tokens l, l <> [] /\ l ⊆+ BaselineEngine.orders auction /\ SolverSolution.trades s = map filled_trade l /\
    Forall (fun o => TokenPair.new (token (sell o)) (token (buy o)) = Some tokens /\ class o <> Limit /\
                     within_limit (SolverSolution.prices s) o) l.
Proof.
  intros Hn Hnonneg H Hin. unfold Naive.solve in H. apply rbind_Ok in H as (groups & Hg & H).
  apply rbind_Ok in H as (sols & Hs & H). destruct (rmap_elem _ _ _ _ H Hin) as (s0 & Hin0 & Hb). unfold SolverSolution.with_buffers_internalizations in Hb.
  apply rbind_Ok in Hb as (il & _ & [= <-]). cbn.
  apply (rfilter_map_elem _ _ _ _ Hs) in Hin0 as ([i g] & Hig & Hsolve). cbn in Hsolve.
  apply elem_of_lookup_imap in Hig as (j & g' & [= -> ->] & Hj). apply list_elem_of_lookup_2 in Hj.
  apply list_elem_of_fmap in Hj as ([tokens g''] & -> & Hkv). apply elem_of_map_to_list in Hkv. cbn in *.
  apply (groups_ok auction) in Hkv as [[Ho _ [Hst Ht] _] _]; [|done].
  unfold solve_group in Hsolve. apply rbind_Ok in Hsolve as (s1 & Hs1 & Hsolve). apply rbind_Ok in Hsolve as (gas & _ & [= <-]). cbn.
  assert (Hsub : group_orders g'' ⊆+ BaselineEngine.orders auction).
  { rewrite Ho. apply sublist_submseteq. generalize (BaselineEngine.orders auction). clear. induction l as [|o l IH]; [done|].
    cbn. destruct (negb _ && _); [by apply sublist_skip|by apply sublist_cons]. }
  destruct (boundary_solve_Ok drain (group_orders g'') _ _ tokens s1 Hst Ht) as (l & Hl & Hne & Hcon & Htr & Hlim).
  - apply Forall_forall. intros o Hin1. rewrite Ho in Hin1. apply list_elem_of_In, filter_In in Hin1 as [Hin1 Hov].
    split; [done|]. rewrite Forall_forall in Hnonneg. apply Hnonneg. by apply list_elem_of_In.
  - assert (Hm : map uid (group_orders g'') ⊆+ map uid (BaselineEngine.orders auction)) by (by apply fmap_submseteq).
    by eapply submseteq_NoDup.
  - done.
  - exists tokens, l. split; [done|]. split; [by etransitivity|]. split; [done|]. apply Forall_forall. intros o Hin1.
    rewrite Forall_forall in Hlim, Hcon. split; [|split; [by apply Hcon|by apply Hlim]].
    assert (Hin2 : o ∈ group_orders g'') by (by eapply elem_of_submseteq). rewrite Ho in Hin2.
    apply list_elem_of_In, filter_In in Hin2 as [_ Hov]. by apply andb_prop in Hov as [_ Hov%bool_decide_eq_true].
Qed.

(** C39: The swap covers what the trades lack: of a valid settlement that was
    matched with the pool, the output of the swap is at least what the trades
    take out of the settlement in that token beyond what they bring, whatever
    slippage is applied and however prices are rounded. A settlement that was
    matched without the pool leaves the swap that an earlier attempt may have
    captured in place. *)
Theorem swap_covers_net_demand (drain : list LegacyLiquidity.LimitOrder -> bool) (slippage : SlippageContext) (bp : UniswapV2.Pool)
    (l : list Order) (a b : TokenContext) (w w' : Swap) (e : SettlementEncoder) :
  Forall considered l ->
  split_into_contexts drain (for_pool bp pool_handler) (map limit_order l) = Ok (a, b) ->
  solve_orders slippage (map limit_order l) (for_pool bp pool_handler) a b w = (w', Ok e) ->
  is_valid_solution e = Ok true -> Forall (liquidity_fits (prices e)) l ->
  exists exs, consistent e exs /\
  if is_excess_after_fees a b (UniswapV2.fee bp) || is_excess_after_fees b a (UniswapV2.fee bp) then
    exists input output, w' = Some (input, output) /\
      ((token input = MultiOrderSolver.address a /\ token output = MultiOrderSolver.address b) \/ (token input = MultiOrderSolver.address b /\ token output = MultiOrderSolver.address a)) /\
      net_demand (token output) exs <= amount output
  else w' = w.
Proof.
  intros Hcon Hsplit Hsolve Hv Hfit. destruct (accepted_settles drain slippage bp l w' e Hcon) as (exs & p & Hc & <- & Hf & He & Hlim).
  { split; [|done]. by exists a, b, w. }
  exists exs. split; [done|]. apply split_tokens in Hsplit as [Hab Htok]. apply solve_orders_Ok in Hsolve.
  destruct (_ || _); [|by destruct Hsolve].
  destruct Hsolve as (sh & ex & uo & ui & req & input & Hor & Hw & Hreq & Hui & Hin & ->).
  assert (Hse : MultiOrderSolver.address ex <> MultiOrderSolver.address sh) by (destruct Hor as [[= -> ->]|[= -> ->]]; congruence).
  exists input. eexists. split; [done|]. split.
  { destruct Hor as [[= -> ->]|[= -> ->]]; cbn; auto. }
  cbn. etransitivity; [|apply Z.le_max_l]. rewrite <- (Z.sub_0_r req).
  destruct (settled_orders _ _ _ Hcon Hw Hv) as (_ & _ & _ & Hp & _).
  eapply (demand_of_orders (MultiOrderSolver.address sh) (MultiOrderSolver.address ex) uo ui (prices e) l); try done.
  apply Forall_forall. intros o Ho. rewrite Forall_map, Forall_forall in Htok. rewrite Forall_forall in Hcon.
  destruct (Htok o Ho) as [Hs Hb], (Hcon o Ho) as [_ Hne _ _]. cbn in Hs, Hb.
  clear - Hs Hb Hne Hor. destruct Hor as [[= -> ->]|[= -> ->]]; destruct Hs as [Hs|Hs], Hb as [Hb|Hb]; try congruence; auto.
Qed.

(** The formulas for the swap are right: over the rational numbers, the
    swap keeps the product of the reserves, with the fee taken from the input,
    and at its price demand meets supply, that is the surplus of the one token
    is worth the deficit of the other and the output of the pool. *)
Theorem match_clears_at_pool_price (shortage excess : TokenContext) (fee : UniswapV2.Ratio) (out in_ : Qc) :
  compute_uniswap_out shortage excess fee = Some out ->
  compute_uniswap_in out shortage excess fee = Some in_ ->
  let c := Qc_of_Z (fee_complement fee) in
  let d := Qc_of_Z (UniswapV2.denom fee) in
  let surplus := Qc_of_Z (sell_volume excess - buy_volume excess) in
  let deficit := Qc_of_Z (sell_volume shortage - buy_volume shortage) in
  ((c * in_ + d * Qc_of_Z (reserve excess)) * (Qc_of_Z (reserve shortage) - out) =
   d * Qc_of_Z (reserve excess) * Qc_of_Z (reserve shortage))%Qc /\
  (in_ * (out + deficit) = out * surplus)%Qc.
Proof.
  unfold compute_uniswap_out, compute_uniswap_in, qc_checked_div, u256_to_big_rational. intros Hout Hin. cbv zeta.
  destruct (Z.eqb_spec (UniswapV2.denom fee * reserve excess + fee_complement fee * (sell_volume excess - buy_volume excess)) 0)
    as [|Hd]; [done|]. injection Hout as Hout. destruct (decide _) as [|Hz] in Hin; [done|]. injection Hin as Hin.
  assert (Hd' : Qc_of_Z (UniswapV2.denom fee * reserve excess + fee_complement fee * (sell_volume excess - buy_volume excess)) <> 0%Qc).
  { intros H0. apply Hd. rewrite <- Z2Qc_inj_0 in H0. by apply Z2Qc_inj in H0. }
  rewrite !Z2Qc_inj_sub, !Z2Qc_inj_add, !Z2Qc_inj_mul in *.
  set (d := Qc_of_Z (UniswapV2.denom fee)) in *. set (c := Qc_of_Z (fee_complement fee)) in *.
  set (re := Qc_of_Z (reserve excess)) in *. set (rs := Qc_of_Z (reserve shortage)) in *.
  rewrite !Z2Qc_inj_sub in *.
  set (x := (Qc_of_Z (sell_volume excess) - Qc_of_Z (buy_volume excess))%Qc) in *.
  set (y := (Qc_of_Z (sell_volume shortage) - Qc_of_Z (buy_volume shortage))%Qc) in *.
  assert (H1 : (in_ * (c * (rs - out)) = d * out * re)%Qc).
  { rewrite <- Hin. unfold Qcdiv. rewrite <- Qcmult_assoc, (Qcmult_comm (/ _)), Qcmult_inv_r by exact Hz. ring. }
  assert (H2 : (out * (d * re + c * x) = c * x * rs - d * y * re)%Qc).
  { rewrite <- Hout. unfold Qcdiv. rewrite <- Qcmult_assoc, (Qcmult_comm (/ _)), Qcmult_inv_r by exact Hd'. ring. }
  split.
  - transitivity (in_ * (c * (rs - out)) + d * re * (rs - out))%Qc; [ring|]. rewrite H1. ring.
  - assert (Hc : (c * (rs - out) * (in_ * (out + y)) = c * (rs - out) * (out * x))%Qc).
    { transitivity ((in_ * (c * (rs - out))) * (out + y))%Qc; [ring|]. rewrite H1.
      transitivity (out * ((out * (d * re + c * x)) - out * c * x + d * y * re))%Qc; [ring|]. rewrite H2. ring. }
    by apply (qc_cancel _ _ _ Hz).
Qed.
End properties.

(** * Three orders over a pool with equal reserves *)
Section witnesses.
Import SolverEth SolverOrder SolverLiquidity Naive.
Let sells (u from to sell buy : Z) : Order := mkOrder u (mkAsset sell from) (mkAsset buy to) Sell Market false.
Let pool : ConstantProductPool := mkConstantProductPool (mkAsset 1000000 1, mkAsset 1000000 2) (mkRational 3 1000).
Let liquidity : SolverLiquidity.Liquidity := mkLiquidity String.EmptyString 9 60000 (ConstantProduct pool).
Let auction (third : Order) : BaselineEngine.Auction :=
  BaselineEngine.mkAuction ∅ [sells 1 1 2 100 90; sells 2 2 1 100 90; third] [liquidity] 1.
Let drain (l : list LegacyLiquidity.LimitOrder) : bool := false.
Let bp : UniswapV2.Pool := UniswapV2.mkPool 9 (1, 2) (1000000, 1000000) (UniswapV2.mkRatio 3 1000).
Let slippage : SlippageContext := mkSlippageContext ∅ (from_bps 0 None).
Let l : list Order := [sells 1 1 2 100 90; sells 2 2 1 100 90; sells 3 1 2 50 40].

Lemma naive_solutions_settle_witness : exists s,
  Naive.solve drain (auction (sells 3 1 2 50 40)) = Ok [s] /\
  exists l, l <> [] /\ SolverSolution.trades s = map filled_trade l /\ Forall (within_limit (SolverSolution.prices s)) l.
Proof.
  destruct (Naive.solve drain (auction (sells 3 1 2 50 40))) as [[|s [|]]| |] eqn:Hs; [vm_compute in Hs; discriminate| |vm_compute in Hs; discriminate..].
  exists s. split; [reflexivity|].
  destruct (naive_solutions_settle drain (auction (sells 3 1 2 50 40)) [s] s) as (tokens & l' & Hne & _ & Ht & Hall).
  - apply (bool_decide_unpack _). vm_compute. exact I.
  - repeat constructor; closed.
  - exact Hs.
  - left.
  - exists l'. split; [exact Hne|]. split; [exact Ht|]. eapply Forall_impl; [exact Hall|]. intros o (_ & _ & H). exact H.
Defined.

Lemma swap_covers_net_demand_witness : exists a b w e input output exs,
  split_into_contexts drain (for_pool bp pool_handler) (map limit_order l) = Ok (a, b) /\
  solve_orders slippage (map limit_order l) (for_pool bp pool_handler) a b None = (w, Ok e) /\
  w = Some (input, output) /\ net_demand (token output) exs <= amount output.
Proof.
  destruct (split_into_contexts drain (for_pool bp pool_handler) (map limit_order l)) as [[a b]| |] eqn:Hsplit;
    [|vm_compute in Hsplit; discriminate..].
  destruct (solve_orders slippage (map limit_order l) (for_pool bp pool_handler) a b None) as [w [e| |]] eqn:Hs.
  2-3: vm_compute in Hsplit; injection Hsplit as <- <-; vm_compute in Hs; discriminate.
  destruct (swap_covers_net_demand drain slippage bp l a b None w e) as (exs & _ & H).
  - repeat constructor; closed || discriminate.
  - exact Hsplit.
  - exact Hs.
  - vm_compute in Hsplit. injection Hsplit as <- <-. vm_compute in Hs. injection Hs as <- <-. vm_compute. reflexivity.
  - repeat constructor; intros H; exfalso; apply H; reflexivity.
  - assert (Hx : is_excess_after_fees a b (UniswapV2.fee bp) || is_excess_after_fees b a (UniswapV2.fee bp) = true)
      by (clear H Hs; vm_compute in Hsplit; injection Hsplit as <- <-; vm_compute; reflexivity).
    rewrite Hx in H. destruct H as (input & output & Hw & _ & Hd).
    exists a, b, w, e, input, output, exs. split; [reflexivity|]. split; [exact Hs|]. split; [exact Hw|exact Hd].
Defined.

Let shortage : TokenContext := mkTokenContext 2 1000000 0 100.
Let excess : TokenContext := mkTokenContext 1 1000000 0 150.
Lemma match_clears_at_pool_price_witness : exists out in_,
  compute_uniswap_out shortage excess (UniswapV2.mkRatio 3 1000) = Some out /\
  (in_ * (out + Qc_of_Z 100) = out * Qc_of_Z 150)%Qc.
Proof.
  destruct (compute_uniswap_out shortage excess (UniswapV2.mkRatio 3 1000)) as [out|] eqn:Ho; [|vm_compute in Ho; discriminate].
  destruct (compute_uniswap_in out shortage excess (UniswapV2.mkRatio 3 1000)) as [in_|] eqn:Hi.
  2: vm_compute in Ho; injection Ho as <-; vm_compute in Hi; discriminate.
  exists out, in_. split; [reflexivity|]. exact (proj2 (match_clears_at_pool_price _ _ _ out in_ Ho Hi)).
Defined.

(** The third order asks for too much. It is removed after an attempt over the
    pool; what is left is matched without the pool, and yet the solution has
    the swap of the attempt that failed. *)
Example stale_swap : exists s i,
  Naive.solve drain (auction (sells 3 1 2 50 100)) = Ok [s] /\
  SolverSolution.trades s = map filled_trade [sells 1 1 2 100 90; sells 2 2 1 100 90] /\
  SolverSolution.interactions s = [SolverSolution.ILiquidity i] /\
  SolverSolution.input i = mkAsset 49 1 /\ SolverSolution.output i = mkAsset 50 2 /\
  SolverSolution.prices s = <[1 := 1000000]> {[2 := 1000000]}.
Proof. eexists _, _. split; [vm_compute; reflexivity|]. repeat split; vm_compute; reflexivity. Qed.
End witnesses.
