(* ===== verification/Estimators.v ===== *)
(** Price estimators: crates/shared/src/price_estimation.rs with sanitized.rs,
    native.rs, gas.rs and competition/ (mod.rs, quote.rs, native.rs), and the
    lists of bad tokens, bad_token/list_based.rs.

    An estimator is a function of the query: of the futures that are polled
    concurrently only the order in which they complete is visible, which is a
    parameter of the competition. The lossy conversions between [U256] and
    [f64] are those of the crate primitive-types. *)
From Stdlib Require Import ZArith Lia SpecFloat String.
From stdpp Require Import prelude.
From S2P Require Import Prelude U256 Floats ModelOrder OrderQuoting OrderValidation.

Open Scope Z_scope.
Open Scope rust_scope.
Import ModelOrder OrderValidation PriceEstimation.

(** * bad_token/list_based.rs *)
Module BadTokens.
Definition BadTokenDetector : Type := Z -> res unit TokenQuality.
Definition is_good (self : TokenQuality) : bool := match self with Good => true | Bad _ => false end.
Inductive UnknownTokenStrategy : Type :=
| Allow
| Deny
| Forward (inner : BadTokenDetector).
Record ListBasedDetector : Type := mkListBasedDetector {
  allow_list : list Z;
  deny_list : list Z;
  strategy : UnknownTokenStrategy;
}.
(** Panics if a token is on both lists. *)
Definition new (allow deny : list Z) (strategy : UnknownTokenStrategy) : res unit ListBasedDetector :=
  if forallb (fun token => bool_decide (token ∉ deny)) allow then Ok (mkListBasedDetector allow deny strategy) else Panic.
Definition deny_only (list : list Z) : ListBasedDetector := mkListBasedDetector [] list Allow.
Definition detect (self : ListBasedDetector) : BadTokenDetector := fun token =>
  if bool_decide (token ∈ allow_list self) then Ok Good
  else if bool_decide (token ∈ deny_list self) then Ok (Bad "token is explicitly deny listed")
  else
    match strategy self with
    | Allow => Ok Good
    | Deny => Ok (Bad "token is not allow listed")
    | Forward inner => inner token
    end.
End BadTokens.
Import BadTokens.

(** * price_estimation.rs *)
Module Estimates.
(** [amounts]: the sell and the buy amount. *)
Definition amounts (self : Estimate) (query : Query) : Z * Z :=
  match query_kind query with
  | Buy => (out_amount self, in_amount query)
  | Sell => (in_amount query, out_amount self)
  end.
Definition Estimator : Type := Query -> res PriceEstimationError Estimate.
Definition NativeEstimator : Type := Z -> res PriceEstimationError F64.f64.
Section prices.
Context (to_f64_lossy : Z -> F64.f64).
Definition price_in_sell_token_f64 (self : Estimate) (query : Query) : F64.f64 :=
  let '(sell_amount, buy_amount) := amounts self query in F64.div (to_f64_lossy sell_amount) (to_f64_lossy buy_amount).
Definition price_in_buy_token_f64 (self : Estimate) (query : Query) : F64.f64 :=
  let '(sell_amount, buy_amount) := amounts self query in F64.div (to_f64_lossy buy_amount) (to_f64_lossy sell_amount).
End prices.
End Estimates.
Import Estimates.

(** * sanitized.rs, with the constants of gas.rs *)
Module Sanitized.
Definition GAS_PER_WETH_UNWRAP : Z := 9223.
Definition GAS_PER_WETH_WRAP : Z := 24038.
Record SanitizedPriceEstimator : Type := mkSanitizedPriceEstimator {
  inner : Estimator;
  bad_token_detector : BadTokenDetector;
  native_token : Z;
}.
Fixpoint handle_bad_tokens (self : SanitizedPriceEstimator) (tokens : list Z) : res PriceEstimationError unit :=
  match tokens with
  | [] => Ok tt
  | token :: tokens =>
      match bad_token_detector self token with
      | Err _ => Err ProtocolInternal
      | Panic => Panic
      | Ok (Bad reason) => Err (UnsupportedToken token reason)
      | Ok Good => handle_bad_tokens self tokens
      end
  end.
Definition set_tokens (query : Query) (sell buy : Z) : Query :=
  mkQuery sell buy (in_amount query) (query_kind query) (query_verification query) (block_dependent query).
Definition add_gas (estimate : Estimate) (gas_ : Z) : res PriceEstimationError Estimate :=
  if gas estimate + gas_ <=? 2 ^ 64 - 1
  then Ok (mkEstimate (out_amount estimate) (gas estimate + gas_) (solver estimate) (verified estimate))
  else Err ProtocolInternal.
(** One to one, at the given cost. *)
Definition trivial (query : Query) (gas : Z) : Estimate := mkEstimate (in_amount query) gas 0 true.
Definition estimate (self : SanitizedPriceEstimator) : Estimator := fun query =>
  let* _ := handle_bad_tokens self [query_sell_token query; query_buy_token query] in
  let sell := query_sell_token query in
  let buy := query_buy_token query in
  let native := native_token self in
  if buy =? sell then Ok (trivial query 0)
  else if (sell =? native) && (buy =? BUY_ETH_ADDRESS) then Ok (trivial query GAS_PER_WETH_UNWRAP)
  else if (sell =? BUY_ETH_ADDRESS) && (buy =? native) then Ok (trivial query GAS_PER_WETH_WRAP)
  else if negb (sell =? native) && (buy =? BUY_ETH_ADDRESS) then
    let* estimate := inner self (set_tokens query sell native) in
    add_gas estimate GAS_PER_WETH_UNWRAP
  else if (sell =? BUY_ETH_ADDRESS) && negb (buy =? native) then
    let* estimate := inner self (set_tokens query native buy) in
    add_gas estimate GAS_PER_WETH_WRAP
  else inner self query.
End Sanitized.

(** * native.rs *)
Module Native.
(** The accounts and interactions of [Verification::default]. *)
Definition default_verification : Verification := mkVerification 0 0 [] [] SellErc20 BuyErc20.
Definition default_amount_to_estimate_native_prices_with (chain_id : Z) : option Z :=
  if existsb (Z.eqb chain_id) [1; 5; 11155111; 42161] then Some (10 ^ 18)
  else if chain_id =? 100 then Some (10 ^ 21) else None.
Record NativePriceEstimator : Type := mkNativePriceEstimator {
  inner : Estimator;
  native_token : Z;
  price_estimation_amount : Z;
}.
Definition query (self : NativePriceEstimator) (token : Z) : Query :=
  mkQuery token (native_token self) (price_estimation_amount self) Buy default_verification false.
Definition estimate_native_price (to_f64_lossy : Z -> F64.f64) (self : NativePriceEstimator) : NativeEstimator := fun token =>
  let query := query self token in
  let* estimate := inner self query in
  Ok (price_in_buy_token_f64 to_f64_lossy estimate query).
End Native.

(** * competition/mod.rs *)
Module Competing.
(** Stage and index within the stage of an estimator. *)
Definition EstimatorIndex : Type := nat * nat.
(** [usize::MAX], the default of the early return. *)
Definition USIZE_MAX : Z := 2 ^ 64 - 1.

Section competition.
(** What is asked, an estimator's answer and which answers are usable; the
    requests of a batch complete in the order [complete]. *)
Context {T R : Type}.
Context (result_is_usable : res PriceEstimationError R -> bool).
Context (get_single_result : T -> res PriceEstimationError R).
Context (complete : list (EstimatorIndex * T) -> list (EstimatorIndex * T)).

Record CompetitionEstimator : Type := mkCompetitionEstimator {
  stages : list (list T);
  usable_results_for_early_return : Z;
}.
(** Panics without stages, or with an empty one. *)
Definition new (stages : list (list T)) : res unit CompetitionEstimator :=
  match stages with
  | [] => Panic
  | _ => if forallb (fun stage => negb (bool_decide (length stage = 0%nat))) stages
         then Ok (mkCompetitionEstimator stages USIZE_MAX) else Panic
  end.
Definition with_early_return (self : CompetitionEstimator) (usable_results : Z) : CompetitionEstimator :=
  mkCompetitionEstimator (stages self) usable_results.

Definition ResultWithIndex : Type := EstimatorIndex * res PriceEstimationError R.
Definition usable (results : list ResultWithIndex) : list ResultWithIndex :=
  List.filter (fun r => result_is_usable r.2) results.
Definition missing_results (self : CompetitionEstimator) (results : list ResultWithIndex) : Z :=
  saturating_sub (usable_results_for_early_return self) (Z.of_nat (length (usable results))).

(** The estimators of the stage of the given index. *)
Definition requests_of (stage_index : nat) (stage : list T) : list (EstimatorIndex * T) :=
  imap (fun index estimator => ((stage_index, index), estimator)) stage.
(** Stages are added until there are enough requests; with the stages left. *)
Fixpoint batch (needed : Z) (stage_index : nat) (left_ : list (list T)) (requests : list (EstimatorIndex * T))
  : list (EstimatorIndex * T) * nat * list (list T) :=
  match left_ with
  | [] => (requests, stage_index, [])
  | stage :: left' =>
      if Z.of_nat (length requests) <? needed
      then batch needed (S stage_index) left' (requests ++ requests_of stage_index stage)
      else (requests, stage_index, left_)
  end.
(** The results as they come in; whether enough are usable. *)
Fixpoint drain (self : CompetitionEstimator) (requests : list (EstimatorIndex * T)) (results : list ResultWithIndex)
  : res PriceEstimationError (bool * list ResultWithIndex) :=
  match requests with
  | [] => Ok (false, results)
  | (index, estimator) :: requests =>
      match get_single_result estimator with
      | Panic => Panic
      | result =>
          let results := results ++ [(index, result)] in
          if missing_results self results =? 0 then Ok (true, results) else drain self requests results
      end
  end.
Fixpoint produce (fuel : nat) (self : CompetitionEstimator) (stage_index : nat) (left_ : list (list T))
    (results : list ResultWithIndex) : res PriceEstimationError (list ResultWithIndex) :=
  match fuel, left_ with
  | S fuel, _ :: _ =>
      let '(requests, stage_index, left_) := batch (missing_results self results) stage_index left_ [] in
      let* drained := drain self (complete requests) results in
      let '(enough, results) := drained in
      if enough : bool then Ok results else produce fuel self stage_index left_ results
  | _, _ => Ok results
  end.
(** Every round takes a stage: see [produce_spec]. *)
Definition produce_results (self : CompetitionEstimator) : res PriceEstimationError (list ResultWithIndex) :=
  produce (length (stages self)) self 0 (stages self) [].
(** All that can be asked. *)
Definition all_requests (stages : list (list T)) : list (EstimatorIndex * T) :=
  concat (imap requests_of stages).
Definition answer (request : EstimatorIndex * T) : ResultWithIndex := (request.1, get_single_result request.2).
End competition.
Arguments CompetitionEstimator : clear implicits.

Definition error_to_integer_priority (err : PriceEstimationError) : Z :=
  match err with
  | RateLimited => 5
  | ProtocolInternal => 4
  | EstimatorInternal => 3
  | UnsupportedToken _ _ => 2
  | NoLiquidity => 1
  | UnsupportedOrderType _ => 0
  end.
Definition compare_error (a b : PriceEstimationError) : comparison :=
  error_to_integer_priority a ?= error_to_integer_priority b.

(** [Iterator::max_by]: of several greatest elements the last one. *)
Definition max_by {A} (compare : A -> A -> comparison) (l : list A) : option A :=
  match l with
  | [] => None
  | a :: l => Some (foldl (fun x y => match compare x y with Gt => x | _ => y end) a l)
  end.
(** Results are better than errors, which compare by how recoverable they are;
    there are no panics among them. *)
Definition compare_result {R} (compare : R -> R -> comparison) (a b : res PriceEstimationError R) : comparison :=
  match a, b with
  | Ok a, Ok b => compare a b
  | Ok _, _ => Gt
  | _, Ok _ => Lt
  | Err a, Err b => compare_error a b
  | Err _, Panic => Gt
  | Panic, Err _ => Lt
  | Panic, Panic => Eq
  end.
End Competing.
Import Competing.

(** * competition/quote.rs *)
Module QuoteCompetition.
Inductive PriceRanking : Type :=
| MaxOutAmount
| BestBangForBuck (native : NativeEstimator) (gas : res unit F64.f64).
Record RankingContext : Type := mkRankingContext { native_price : F64.f64; gas_price : F64.f64 }.

Section quotes.
Context (to_f64_lossy : Z -> F64.f64) (from_f64_lossy : F64.f64 -> Z).

(** The two are joined: an error of either is returned (the first of two, for
    which the native price counts as being faster). *)
Definition provide_context (self : PriceRanking) (token : Z) : res PriceEstimationError RankingContext :=
  match self with
  | MaxOutAmount => Ok (mkRankingContext (F64.of_Z 1) (F64.of_Z 0))
  | BestBangForBuck native gas =>
      let* native_price := native token in
      let* gas_price := map_err (fun _ => ProtocolInternal) gas in
      Ok (mkRankingContext native_price gas_price)
  end.
Definition effective_eth_out (self : RankingContext) (estimate : Estimate) (kind : OrderKind) : Z :=
  let eth_out := F64.mul (to_f64_lossy (out_amount estimate)) (native_price self) in
  let fees := F64.mul (F64.of_Z (gas estimate)) (gas_price self) in
  from_f64_lossy
    match kind with
    | Sell => F64.sub eth_out fees
    | Buy => F64.add eth_out fees
    end.
Definition compare_quote (kind : OrderKind) (context : RankingContext) (a b : Estimate) : comparison :=
  let a := effective_eth_out context a kind in
  let b := effective_eth_out context b kind in
  match kind with
  | Buy => CompOpp (a ?= b)
  | Sell => a ?= b
  end.
Definition compare_estimates (kind : OrderKind) (context : RankingContext) (prefer_verified : bool) (a b : Estimate)
  : comparison :=
  match prefer_verified, verified a, verified b with
  | true, true, false => Gt
  | true, false, true => Lt
  | _, _, _ => compare_quote kind context a b
  end.
Definition compare_quote_result kind context prefer_verified :=
  compare_result (compare_estimates kind context prefer_verified).

Definition gas_is_reasonable (r : res PriceEstimationError Estimate) : bool :=
  match r with Ok r => 0 <? gas r | _ => false end.
(** What competes for the best estimate: errors too. *)
Definition competes (r : res PriceEstimationError Estimate) : bool :=
  match r with Ok r => 0 <? gas r | _ => true end.
Definition out_token (query : Query) : Z :=
  match query_kind query with Buy => query_sell_token query | Sell => query_buy_token query end.
Definition prefers_verified (verification_mode : QuoteVerificationMode) : bool :=
  match verification_mode with Unverified => false | _ => true end.
Definition estimate (complete : list (EstimatorIndex * Estimator) -> list (EstimatorIndex * Estimator))
    (self : CompetitionEstimator Estimator) (ranking : PriceRanking) (verification_mode : QuoteVerificationMode) : Estimator :=
  fun query =>
  let* context := provide_context ranking (out_token query) in
  let* results := produce_results gas_is_reasonable (fun e => e query) complete self in
  match max_by (fun a b => compare_quote_result (query_kind query) context (prefers_verified verification_mode) a.2 b.2)
          (List.filter (fun r => competes r.2) results) with
  | Some winner => winner.2
  | None => Err EstimatorInternal
  end.
End quotes.
End QuoteCompetition.

(** * competition/native.rs *)
Module NativeCompetition.
(** [f64::total_cmp] compares the bits as integers: for the numbers a key that
    grows with the exponent and then the mantissa, reversed below zero. The
    only NaN there is counts as positive. *)
Definition magnitude (m e : Z) : Z := (e + 2000) * 2 ^ 53 + m.
Definition total_key (x : F64.f64) : Z :=
  match x with
  | S754_zero false => 0
  | S754_zero true => -1
  | S754_finite false m e => magnitude (Zpos m) e
  | S754_finite true m e => - 1 - magnitude (Zpos m) e
  | S754_infinity false => magnitude 0 1000
  | S754_infinity true => - 1 - magnitude 0 1000
  | S754_nan => magnitude 1 1000
  end.
Definition total_cmp (a b : F64.f64) : comparison := total_key a ?= total_key b.
Definition compare_native_result := compare_result total_cmp.
(** Panics when there is no result. *)
Definition estimate_native_price (complete : list (EstimatorIndex * NativeEstimator) -> list (EstimatorIndex * NativeEstimator))
    (self : CompetitionEstimator NativeEstimator) : NativeEstimator := fun token =>
  let* results := produce_results is_ok (fun e => e token) complete self in
  let* winner := opt_expect (max_by (fun a b => compare_native_result a.2 b.2) results) in
  winner.2.
End NativeCompetition.

(** * Lemmas *)
(** ** The greatest element *)
(** Comparisons that are total preorders. *)
Class TotalComparison {A} (compare : A -> A -> comparison) : Prop := {
  compare_opp a b : compare b a = CompOpp (compare a b);
  compare_trans a b c : compare a b <> Gt -> compare b c <> Gt -> compare a c <> Gt;
}.
#[export] Instance Zcompare_total : TotalComparison Z.compare.
Proof. split; [intros a b; by rewrite Z.compare_antisym|]. exact Z.le_trans. Qed.
(** A comparison of keys, and a reversed one. *)
Lemma key_total {A B} (f : A -> B) compare : TotalComparison compare -> TotalComparison (fun a b => compare (f a) (f b)).
Proof. intros [H1 H2]. split; [intros a b; apply H1|intros a b c; apply H2]. Qed.
Lemma opp_total {A} (compare : A -> A -> comparison) : TotalComparison compare -> TotalComparison (fun a b => CompOpp (compare a b)).
Proof.
  intros [H1 H2]. split; [intros a b; by rewrite H1|]. intros a b c. rewrite <- !H1. intros Hba Hcb. by apply (H2 c b a).
Qed.

Section max.
Context {A : Type} (compare : A -> A -> comparison) {Ht : TotalComparison compare}.
Lemma compare_refl a : compare a a = Eq.
Proof. pose proof (compare_opp a a). by destruct (compare a a). Qed.
Lemma max_by_Some l w : max_by compare l = Some w -> w ∈ l /\ forall x, x ∈ l -> compare x w <> Gt.
Proof.
  destruct l as [|a l]; [done|]. cbn [max_by]. intros [= Hw]. revert a Hw.
  induction l as [|b l IH]; intros a; cbn [foldl].
  - intros ->. split; [by left|]. intros x ->%list_elem_of_singleton. by rewrite compare_refl.
  - intros Hw. apply IH in Hw as [Hin Hmax]. split.
    + apply elem_of_cons in Hin as [->|Hin]; [|by do 2 right]. case_match; [by right; left..|by left].
    + assert (Hc : forall z, z = (match compare a b with Gt => a | _ => b end) -> compare a z <> Gt /\ compare b z <> Gt).
      { intros z ->. pose proof (compare_opp a b) as Ho. pose proof (compare_refl a). pose proof (compare_refl b).
        destruct (compare a b) eqn:Hab; cbn in Ho; split; congruence. }
      destruct (Hc _ eq_refl) as [Ha Hb]. pose proof (Hmax _ (list_elem_of_here _ _)) as Hz.
      intros x [->|[->|Hx]%elem_of_cons]%elem_of_cons; [by eapply compare_trans..|].
      apply Hmax. by right.
Qed.
End max.

Lemma compare_error_total : TotalComparison compare_error.
Proof. apply (key_total error_to_integer_priority), _. Qed.
#[export] Instance compare_result_total {R} (compare : R -> R -> comparison) :
  TotalComparison compare -> TotalComparison (compare_result compare).
Proof.
  intros H. pose proof compare_error_total as He. split.
  - intros [a|a|] [b|b|]; cbn; try done; apply compare_opp.
  - intros [a|a|] [b|b|] [c|c|]; cbn; try done; apply compare_trans.
Qed.
#[export] Instance compare_estimates_total to_f64_lossy from_f64_lossy kind context prefer_verified :
  TotalComparison (QuoteCompetition.compare_estimates to_f64_lossy from_f64_lossy kind context prefer_verified).
Proof.
  set (f := fun e => QuoteCompetition.effective_eth_out to_f64_lossy from_f64_lossy context e kind).
  assert (H : TotalComparison (QuoteCompetition.compare_quote to_f64_lossy from_f64_lossy kind context)).
  { destruct kind; [apply opp_total|]; apply (key_total f), _. }
  unfold QuoteCompetition.compare_estimates. split.
  - intros a b. destruct prefer_verified, (verified a), (verified b); try done; apply compare_opp.
  - intros a b c. destruct prefer_verified, (verified a), (verified b), (verified c); try done; apply compare_trans.
Qed.
#[export] Instance total_cmp_total : TotalComparison NativeCompetition.total_cmp.
Proof. apply (key_total NativeCompetition.total_key), _. Qed.

(** ** The results of a competition *)
Section producing.
Context {T R : Type}.
Context (result_is_usable : res PriceEstimationError R -> bool).
Context (get_single_result : T -> res PriceEstimationError R).
Context (complete : list (EstimatorIndex * T) -> list (EstimatorIndex * T)).
Context (Hcomplete : forall l, complete l ≡ₚ l).
Context (self : CompetitionEstimator T).
Local Abbreviation answers := (map (answer get_single_result)) (only parsing).
Local Abbreviation usable := (usable result_is_usable) (only parsing).
Local Abbreviation missing := (missing_results result_is_usable self) (only parsing).
Local Abbreviation n := (usable_results_for_early_return self) (only parsing).

(** No more than what is wanted. *)
Definition not_enough (results : list (ResultWithIndex (R := R))) : Prop := Z.of_nat (length (usable results)) < n.

Lemma usable_snoc results r :
  Z.of_nat (length (usable (results ++ [r]))) =
  Z.of_nat (length (usable results)) + (if result_is_usable r.2 then 1 else 0).
Proof.
  unfold Competing.usable. rewrite List.filter_app, length_app, Nat2Z.inj_add. f_equal. cbn [List.filter].
  by destruct (result_is_usable r.2).
Qed.
Lemma missing_zero results : (missing results =? 0) = bool_decide (~ not_enough results).
Proof.
  unfold missing_results, not_enough, saturating_sub.
  destruct (Z.eqb_spec (Z.max (n - Z.of_nat (length (usable results))) 0) 0) as [H|H];
    [rewrite bool_decide_true|rewrite bool_decide_false]; lia || done.
Qed.

(** Draining asks for the results in turn and stops at the last one that is
    wanted. *)
Lemma drain_spec requests results enough results' : not_enough results ->
  drain result_is_usable get_single_result self requests results = Ok (enough, results') ->
  exists asked rest, requests = asked ++ rest /\ results' = results ++ answers asked /\
    if enough : bool then Z.of_nat (length (usable results')) = n else rest = [] /\ not_enough results'.
Proof.
  revert results. induction requests as [|[index e] requests IH]; intros results Hn; cbn [drain].
  { intros [= <- <-]. exists [], []. cbn [map]. by rewrite (app_nil_r results). }
  assert (Hstep : forall r, r = get_single_result e ->
    (if missing (results ++ [(index, r)]) =? 0 then Ok (true, results ++ [(index, r)])
     else drain result_is_usable get_single_result self requests (results ++ [(index, r)])) = Ok (enough, results') ->
    exists asked rest, (index, e) :: requests = asked ++ rest /\ results' = results ++ answers asked /\
      if enough : bool then Z.of_nat (length (usable results')) = n else rest = [] /\ not_enough results').
  { intros r ->. rewrite missing_zero. case_bool_decide as Hm; intros Hd.
    - simplify_eq. exists [(index, e)], requests. split; [done|]. split; [done|].
      revert Hm Hn. unfold not_enough. rewrite usable_snoc. cbn. destruct (result_is_usable _); lia.
    - destruct (IH _ Hm Hd) as (asked & rest & -> & -> & H).
      exists ((index, e) :: asked), rest. rewrite <- app_assoc in *. done. }
  destruct (get_single_result e); [by apply Hstep..|done].
Qed.

Lemma drain_no_panic requests results : (forall r, r ∈ requests -> get_single_result r.2 <> Panic) ->
  exists out, drain result_is_usable get_single_result self requests results = Ok out.
Proof.
  revert results. induction requests as [|[index e] requests IH]; intros results H; cbn [drain]; [eauto|].
  pose proof (H _ (list_elem_of_here _ _)) as He. cbn in He.
  destruct (get_single_result e); [case_match; [eauto|apply IH; intros; apply H; by right]..|done].
Qed.

Lemma batch_spec needed i left_ requests requests' i' left' :
  batch (T := T) needed i left_ requests = (requests', i', left') ->
  exists done_, left_ = done_ ++ left' /\ i' = (i + length done_)%nat /\
    requests' = requests ++ concat (imap (fun j => requests_of (T := T) (i + j)) done_) /\
    (left_ <> [] -> Z.of_nat (length requests) < needed -> done_ <> []).
Proof.
  revert i requests. induction left_ as [|stage left_ IH]; intros i requests; cbn [batch].
  { intros [= <- <- <-]. exists []. cbn. rewrite (app_nil_r requests), Nat.add_0_r. done. }
  destruct (Z.ltb_spec (Z.of_nat (length requests)) needed) as [Hn|Hn].
  - intros H. apply IH in H as (done_ & -> & -> & -> & _). exists (stage :: done_). split; [done|].
    split; [cbn; lia|]. split; [|done]. cbn [imap concat]. rewrite Nat.add_0_r, <- app_assoc. do 3 f_equal.
    apply imap_ext. intros j x _. cbn. f_equal. lia.
  - intros [= <- <- <-]. exists []. cbn. rewrite (app_nil_r requests), Nat.add_0_r. split_and!; try done. intros _ ?. lia.
Qed.

(** What the competition comes to, whatever the order of the answers: the
    answers to some requests, as many usable ones as it wants or all answers. *)
Lemma produce_spec fuel i left_ results asked out :
  (length left_ <= fuel)%nat -> not_enough results -> results = answers asked ->
  produce result_is_usable get_single_result complete fuel self i left_ results = Ok out ->
  exists asked', out = answers (asked ++ asked') /\
    ((exists rest, asked' ++ rest ≡ₚ concat (imap (fun j => requests_of (T := T) (i + j)) left_)) /\
     (Z.of_nat (length (usable out)) = n \/
      (asked' ≡ₚ concat (imap (fun j => requests_of (T := T) (i + j)) left_) /\ not_enough out))).
Proof.
  revert i left_ results asked. induction fuel as [|fuel IH]; intros i left_ results asked Hf Hn Hr.
  { destruct left_; [|cbn in Hf; lia]. cbn. intros [= <-]. exists []. rewrite app_nil_r. split; [done|].
    split; [by exists []|right]. by subst results. }
  destruct left_ as [|stage left_].
  { cbn. intros [= <-]. exists []. rewrite app_nil_r. split; [done|].
    split; [by exists []|right]. by subst results. }
  cbn [produce]. destruct (batch _ i (stage :: left_) []) as [[requests i'] left'] eqn:Hb.
  apply batch_spec in Hb as (done_ & Hl & -> & Hreq & Hdone).
  assert (Hd : done_ <> []).
  { apply Hdone; [done|]. cbn. unfold missing_results. revert Hn. unfold not_enough, saturating_sub. lia. }
  cbn [app] in Hreq. subst requests. intros H. apply rbind_Ok in H as ([enough results1] & Hdr & H).
  destruct (drain_spec _ _ _ _ Hn Hdr) as (a1 & rest & Hc & -> & Hen).
  assert (Hperm : a1 ++ rest ≡ₚ concat (imap (fun j => requests_of (T := T) (i + j)) done_)) by by rewrite <- Hc, Hcomplete.
  rewrite Hl, imap_app, concat_app.
  destruct enough.
  - injection H as <-. exists a1. rewrite map_app, Hr. split; [done|]. split; [|left; by rewrite <- Hr].
    exists (rest ++ concat (imap (λ n0 : nat, (λ j : nat, requests_of (T := T) (i + j)) (length done_ + n0)%nat) left')).
    by rewrite app_assoc, Hperm.
  - destruct Hen as [-> Hne]. rewrite app_nil_r in *.
    apply (IH _ left' _ (asked ++ a1)) in H as (a2 & -> & [[rest2 Hrest] Hout]).
    + exists (a1 ++ a2). rewrite <- !app_assoc in *. split; [done|].
      assert (Himap : concat (imap (fun j => requests_of (i + length done_ + j)) left') =
        concat (imap (λ n0 : nat, (λ j : nat, requests_of (T := T) (i + j)) (length done_ + n0)%nat) left')).
      { f_equal. apply imap_ext. intros j x _. cbn. f_equal. lia. }
      rewrite Himap in *. split.
      * exists rest2. rewrite <- app_assoc, Hrest, Hperm. done.
      * destruct Hout as [Hout|[Hout ?]]; [by left|right]. split; [|done]. by rewrite Hout, Hperm.
    + assert (Hlen : length (stage :: left_) = (length done_ + length left')%nat) by by rewrite Hl, length_app.
      destruct done_; [done|]. cbn in Hlen, Hf |- *. lia.
    + done.
    + by rewrite Hr, map_app.
Qed.

Lemma produce_no_panic fuel i left_ results :
  (forall e, e ∈ concat left_ -> get_single_result e <> Panic) ->
  exists out, produce result_is_usable get_single_result complete fuel self i left_ results = Ok out.
Proof.
  revert i left_ results. induction fuel as [|fuel IH]; intros i left_ results H; [by eexists|].
  destruct left_ as [|stage left_]; [by eexists|]. cbn [produce].
  destruct (batch _ i (stage :: left_) []) as [[requests i'] left'] eqn:Hb.
  apply batch_spec in Hb as (done_ & Hl & -> & Hreq & _). cbn [app] in Hreq. rewrite Hl, concat_app in H.
  destruct (drain_no_panic (complete requests) results) as [[enough out] Hd].
  - intros [ix e] Hin. rewrite Hcomplete, Hreq in Hin. apply H, elem_of_app. left. cbn.
    apply list_elem_of_In, in_concat in Hin as (l & Hl' & Hin). apply list_elem_of_In in Hl', Hin.
    apply elem_of_lookup_imap in Hl' as (j & stage' & -> & Hj).
    apply elem_of_lookup_imap in Hin as (k & e' & [= _ ->] & Hk).
    apply list_elem_of_In, in_concat. exists stage'. split; apply list_elem_of_In; by eapply list_elem_of_lookup_2.
  - rewrite Hd. cbn. destruct enough; [by eexists|]. apply IH. intros e He. apply H, elem_of_app. by right.
Qed.
End producing.

Section results.
Context {T R : Type}.
Context (result_is_usable : res PriceEstimationError R -> bool).
Context (get_single_result : T -> res PriceEstimationError R).
Context (complete : list (EstimatorIndex * T) -> list (EstimatorIndex * T)).
Context (Hcomplete : forall l, complete l ≡ₚ l).

(** The estimators of the requests are those of the stages. *)
Lemma all_requests_estimators (stages : list (list T)) : map snd (all_requests stages) = concat stages.
Proof.
  unfold all_requests. assert (H : forall k, map snd (concat (imap (fun j => requests_of (k + j)) stages)) = concat stages).
  { induction stages as [|stage stages IH]; intros k; [done|]. cbn [imap concat]. rewrite map_app. f_equal.
    - apply list_eq. intros j. unfold requests_of. rewrite list_lookup_fmap, list_lookup_imap. by destruct (stage !! j).
    - rewrite <- (IH (S k)). do 2 f_equal. apply imap_ext. intros j x _. cbn. f_equal. lia. }
  apply (H 0%nat).
Qed.

(** Without an early return all the answers are there. *)
Lemma produce_all (stages : list (list T)) out :
  Z.of_nat (length (concat stages)) < USIZE_MAX ->
  produce_results result_is_usable get_single_result complete (mkCompetitionEstimator stages USIZE_MAX) = Ok out ->
  map snd out ≡ₚ map get_single_result (concat stages).
Proof.
  intros Hlen H. apply (produce_spec result_is_usable get_single_result complete Hcomplete _ _ _ _ _ []) in H
    as (asked & -> & [[rest Hrest] Hout]); [|done|closed|done].
  cbn [app] in *. change (asked ++ rest ≡ₚ all_requests stages) in Hrest.
  assert (Hall : asked ≡ₚ all_requests stages).
  { destruct Hout as [Hout|[Hout _]]; [exfalso|done]. cbn [usable_results_for_early_return] in Hout.
    assert (H1 : (length (usable result_is_usable (map (answer get_single_result) asked)) <= length asked)%nat).
    { unfold usable. etransitivity; [apply List.filter_length_le|]. by rewrite length_map. }
    assert (H2 : (length asked + length rest = length (concat stages))%nat).
    { by rewrite <- length_app, Hrest, <- all_requests_estimators, length_map. }
    lia. }
  rewrite <- all_requests_estimators, <- Hall, !map_map. done.
Qed.
End results.

(** A competition with an early return asks no estimator twice, and stops at the
    usable result that makes it as many as are wanted; when there are not that
    many it has the answers of all estimators, in the order they came. *)
Theorem competition_awaits_enough {T R : Type} (result_is_usable : res PriceEstimationError R -> bool)
    (get_single_result : T -> res PriceEstimationError R)
    (complete : list (EstimatorIndex * T) -> list (EstimatorIndex * T)) (self : CompetitionEstimator T) :
  (forall l, complete l ≡ₚ l) -> 0 < usable_results_for_early_return self ->
  (forall e, e ∈ concat (stages self) -> get_single_result e <> Panic) ->
  exists asked rest,
    produce_results result_is_usable get_single_result complete self = Ok (map (answer get_single_result) asked) /\
    asked ++ rest ≡ₚ all_requests (stages self) /\
    (Z.of_nat (length (usable result_is_usable (map (answer get_single_result) asked))) =
       usable_results_for_early_return self \/
     (rest = [] /\ Z.of_nat (length (usable result_is_usable (map (answer get_single_result) asked))) <
       usable_results_for_early_return self)).
Proof.
  intros Hc Hn Hp.
  destruct (produce_no_panic result_is_usable get_single_result complete Hc self (length (stages self)) 0 (stages self) [] Hp)
    as [out Hout]. pose proof Hout as Hs.
  apply (produce_spec result_is_usable get_single_result complete Hc _ _ _ _ _ []) in Hs
    as (asked & -> & [[rest Hrest] Hs]); [|done|exact Hn|done].
  destruct Hs as [Hs|[Hs Hlt]].
  - exists asked, rest. split; [exact Hout|]. split; [exact Hrest|by left].
  - exists asked, []. split; [exact Hout|]. rewrite app_nil_r. split; [exact Hs|by right].
Qed.

(** C24: without an early return, and when the ranking has its prices, the best of
    all usable estimates wins: one that costs gas, verified if any is and
    verified ones are preferred, and with the best effective amount of those
    it is compared with. An error is returned only if no estimator has a usable
    estimate, and it is the most recoverable one. *)
Theorem best_estimate_wins (to_f64_lossy : Z -> F64.f64) (from_f64_lossy : F64.f64 -> Z)
    (complete : list (EstimatorIndex * Estimator) -> list (EstimatorIndex * Estimator)) (stages : list (list Estimator))
    (self : CompetitionEstimator Estimator) (ranking : QuoteCompetition.PriceRanking) (mode : QuoteVerificationMode)
    (query : Query) (context : QuoteCompetition.RankingContext) :
  (forall l, complete l ≡ₚ l) -> new stages = Ok self -> Z.of_nat (length (concat stages)) < USIZE_MAX ->
  QuoteCompetition.provide_context ranking (QuoteCompetition.out_token query) = Ok context ->
  (forall s, s ∈ concat stages -> s query <> Panic) ->
  let effective e := QuoteCompetition.effective_eth_out to_f64_lossy from_f64_lossy context e (query_kind query) in
  match QuoteCompetition.estimate to_f64_lossy from_f64_lossy complete self ranking mode query with
  | Ok e =>
      (exists s, s ∈ concat stages /\ s query = Ok e) /\ 0 < gas e /\
      forall s e', s ∈ concat stages -> s query = Ok e' -> 0 < gas e' ->
        (mode <> Unverified -> verified e' = true -> verified e = true) /\
        (mode = Unverified \/ verified e = verified e' ->
         match query_kind query with Sell => effective e' <= effective e | Buy => effective e <= effective e' end)
  | Err err =>
      (forall s e', s ∈ concat stages -> s query = Ok e' -> gas e' <= 0) /\
      (forall s err', s ∈ concat stages -> s query = Err err' ->
         error_to_integer_priority err' <= error_to_integer_priority err)
  | Panic => False
  end.
Proof.
  intros Hc Hnew Hlen Hctx Hp effective.
  assert (Hself : self = mkCompetitionEstimator stages USIZE_MAX).
  { revert Hnew. unfold new. destruct stages; [done|]. by case_match; intros [= <-]. }
  subst self. unfold QuoteCompetition.estimate. rewrite Hctx. cbn [rbind].
  destruct (produce_no_panic QuoteCompetition.gas_is_reasonable (fun e : Estimator => e query) complete Hc
    (mkCompetitionEstimator stages USIZE_MAX) (length stages) 0 stages [] Hp) as [out Hout].
  change (produce_results QuoteCompetition.gas_is_reasonable (fun e : Estimator => e query) complete
    (mkCompetitionEstimator stages USIZE_MAX) = Ok out) in Hout.
  match goal with |- context [produce_results ?u ?g ?c ?s] => replace (produce_results u g c s) with (Ok (E := PriceEstimationError) out) by (symmetry; exact Hout) end.
  cbn [rbind].
  pose proof (produce_all _ _ _ Hc _ _ Hlen Hout) as Hall.
  assert (Hin : forall r, (exists i, (i, r) ∈ List.filter (fun r => QuoteCompetition.competes r.2) out) <->
    exists s, s ∈ concat stages /\ s query = r /\ QuoteCompetition.competes r = true).
  { intros r. transitivity (QuoteCompetition.competes r = true /\ r ∈ map snd out).
    - rewrite list_elem_of_fmap. setoid_rewrite list_elem_of_In. setoid_rewrite filter_In. cbn. split.
      + intros (i & Hi & Hr). split; [done|]. by exists (i, r).
      + intros (Hr & [i r'] & -> & Hi). by exists i.
    - rewrite Hall, list_elem_of_fmap. naive_solver. }
  set (cmp := fun a b : ResultWithIndex => QuoteCompetition.compare_quote_result to_f64_lossy from_f64_lossy
    (query_kind query) context (QuoteCompetition.prefers_verified mode) a.2 b.2).
  match goal with |- context [max_by ?c ?l] => change (max_by c l) with (max_by cmp l) end.
  destruct (max_by cmp _) as [[i w]|] eqn:Hmax.
  - assert (Ht : TotalComparison cmp) by (apply (key_total snd), _).
    apply (max_by_Some cmp) in Hmax as [Hw Hbest]. cbn [snd].
    destruct (proj1 (Hin w)) as (s & Hs & Hsw & Hcomp); [by exists i|].
    assert (Hmax : forall s', s' ∈ concat stages -> QuoteCompetition.competes (s' query) = true ->
      QuoteCompetition.compare_quote_result to_f64_lossy from_f64_lossy (query_kind query) context
        (QuoteCompetition.prefers_verified mode) (s' query) w <> Gt).
    { intros s' Hs' Hc'. destruct (proj2 (Hin (s' query))) as [j Hj]; [eauto|]. exact (Hbest _ Hj). }
    clear Hbest Hin Hall Hout.
    destruct w as [e|err|]; [| |by apply (Hp s)].
    + apply Z.ltb_lt in Hcomp. split; [eauto|]. split; [done|]. intros s' e' Hs' He' Hg.
      specialize (Hmax s' Hs'). rewrite He' in Hmax. cbn in Hmax. specialize (Hmax (proj2 (Z.ltb_lt _ _) Hg)).
      revert Hmax. unfold QuoteCompetition.compare_estimates, QuoteCompetition.compare_quote. fold (effective e) (effective e').
      split.
      * intros Hm Hv. destruct mode; [done|..]; cbn in Hmax; rewrite Hv in Hmax; by destruct (verified e).
      * intros Hm. assert (Hcmp : match query_kind query with Buy => CompOpp (effective e' ?= effective e)
          | Sell => effective e' ?= effective e end <> Gt).
        { destruct Hm as [->|Hv]; [exact Hmax|]. rewrite <- Hv in Hmax.
          by destruct (QuoteCompetition.prefers_verified mode), (verified e). }
        destruct (query_kind query); [|exact Hcmp]. rewrite <- Z.compare_antisym in Hcmp. exact Hcmp.
    + split.
      * intros s' e' Hs' He'. destruct (Z.leb_spec (gas e') 0); [done|]. specialize (Hmax s' Hs'). rewrite He' in Hmax.
        cbn in Hmax. by destruct Hmax; [apply Z.ltb_lt|].
      * intros s' err' Hs' He'. specialize (Hmax s' Hs'). rewrite He' in Hmax. exact (Hmax eq_refl).
  - assert (Hempty : List.filter (fun r => QuoteCompetition.competes r.2) out = []) by by destruct (List.filter _ _).
    rewrite Hempty in Hin. split.
    + intros s e' Hs He'. destruct (Z.leb_spec (gas e') 0); [done|]. destruct (proj2 (Hin (Ok e'))) as [j Hj].
      * exists s. split; [done|]. split; [done|]. by apply Z.ltb_lt.
      * by apply not_elem_of_nil in Hj.
    + intros s err' Hs He'. destruct (proj2 (Hin (Err err'))) as [j Hj]; [by exists s|]. by apply not_elem_of_nil in Hj.
Qed.

(** ** Sanitized queries *)
Lemma handle_bad_tokens_Ok self tokens :
  Sanitized.handle_bad_tokens self tokens = Ok tt <->
  Forall (fun token => Sanitized.bad_token_detector self token = Ok Good) tokens.
Proof.
  induction tokens as [|token tokens IH]; cbn; [by split; [constructor|]|]. rewrite Forall_cons_iff, <- IH.
  destruct (Sanitized.bad_token_detector self token) as [[|reason]| |]; naive_solver.
Qed.

(** An estimate is given for supported tokens only, and an estimator that is
    asked through the sanitizer never sees the address that stands for the native
    token, nor a trade of a token for itself: what it says about them does not
    matter. *)
Theorem sanitized_queries_are_plain (inner inner' : Estimator) (detector : BadTokenDetector) (native : Z) (query : Query) :
  native <> BUY_ETH_ADDRESS ->
  (forall q, query_sell_token q <> query_buy_token q -> query_sell_token q <> BUY_ETH_ADDRESS ->
     query_buy_token q <> BUY_ETH_ADDRESS -> inner q = inner' q) ->
  let self := Sanitized.mkSanitizedPriceEstimator inner detector native in
  Sanitized.estimate self query = Sanitized.estimate (Sanitized.mkSanitizedPriceEstimator inner' detector native) query /\
  (forall e, Sanitized.estimate self query = Ok e ->
     detector (query_sell_token query) = Ok Good /\ detector (query_buy_token query) = Ok Good).
Proof.
  intros Hn Hi self. split.
  - unfold Sanitized.estimate, self. cbn [Sanitized.inner Sanitized.native_token].
    assert (Hb : forall l, Sanitized.handle_bad_tokens (Sanitized.mkSanitizedPriceEstimator inner detector native) l =
      Sanitized.handle_bad_tokens (Sanitized.mkSanitizedPriceEstimator inner' detector native) l).
    { intros l. induction l as [|t l IH]; [done|]. cbn. by rewrite IH. }
    rewrite Hb. destruct (Sanitized.handle_bad_tokens _ _) as [[]| |]; cbn [rbind]; [|done..].
    destruct (Z.eqb_spec (query_buy_token query) (query_sell_token query)) as [|H1]; [done|].
    destruct (Z.eqb_spec (query_sell_token query) native) as [H2|H2],
      (Z.eqb_spec (query_buy_token query) BUY_ETH_ADDRESS) as [H3|H3],
      (Z.eqb_spec (query_sell_token query) BUY_ETH_ADDRESS) as [H4|H4],
      (Z.eqb_spec (query_buy_token query) native) as [H5|H5]; cbn [andb negb]; try done; try congruence.
    all: try (rewrite Hi; [done|cbn; congruence..]).
  - intros e He. unfold Sanitized.estimate in He. apply rbind_Ok in He as ([] & Hb & _).
    apply handle_bad_tokens_Ok in Hb. apply Forall_cons_iff in Hb as [H1 Hb]. by apply Forall_cons_iff in Hb as [H2 _].
Qed.

(** * Two estimators in two stages; the first is verified, the second is better *)
Section witnesses.
Let first : Estimator := fun q => Ok (mkEstimate (in_amount q) 100 7 true).
Let second : Estimator := fun q => Ok (mkEstimate (2 * in_amount q) 100 8 false).
Let cheat : Estimator := fun q => Ok (mkEstimate (9 * in_amount q) 0 9 true).
Let stages : list (list Estimator) := [[first; cheat]; [second]].
Let query : Query := mkQuery 1 2 1000 Sell Native.default_verification false.
Let to_f64 : Z -> F64.f64 := F64.of_Z.
Let from_f64 : F64.f64 -> Z := fun x => match x with S754_finite false m e => Z.shiftl (Zpos m) e | _ => 0 end.
Let competition : CompetitionEstimator Estimator := mkCompetitionEstimator stages USIZE_MAX.
Let best mode := QuoteCompetition.estimate to_f64 from_f64 (@rev _) competition QuoteCompetition.MaxOutAmount mode query.

Example best_of_two :
  (best Unverified, best Prefer) = (Ok (mkEstimate 2000 100 8 false), Ok (mkEstimate 1000 100 7 true)).
Proof. vm_compute. reflexivity. Qed.

Lemma best_estimate_wins_witness :
  best Unverified = Ok (mkEstimate 2000 100 8 false) /\
  QuoteCompetition.effective_eth_out to_f64 from_f64
    (QuoteCompetition.mkRankingContext (F64.of_Z 1) (F64.of_Z 0)) (mkEstimate 1000 100 7 true) Sell <= 2000.
Proof.
  assert (Hbest : best Unverified = Ok (mkEstimate 2000 100 8 false)) by (vm_compute; reflexivity).
  split; [exact Hbest|].
  pose proof (best_estimate_wins to_f64 from_f64 (@rev _) stages competition QuoteCompetition.MaxOutAmount Unverified query
    (QuoteCompetition.mkRankingContext (F64.of_Z 1) (F64.of_Z 0))) as H.
  cbv zeta in H. unfold best in Hbest. rewrite Hbest in H. cbn [query_kind query] in H.
  destruct H as (_ & _ & H).
  - intros l. symmetry. apply Permutation_rev.
  - reflexivity.
  - closed.
  - reflexivity.
  - intros s' Hs'. cbn in Hs'. rewrite !elem_of_cons in Hs'. destruct Hs' as [->|[->|[->|Hs']]]; [discriminate..|].
    by apply not_elem_of_nil in Hs'.
  - assert (Hin : first ∈ concat stages) by (cbn; apply elem_of_cons; by left).
    destruct (H first (mkEstimate 1000 100 7 true) Hin eq_refl) as [_ H']; [closed|].
    refine (Z.le_trans _ _ _ (H' (or_introl eq_refl)) _). closed.
Defined.

Let early : CompetitionEstimator Estimator := mkCompetitionEstimator stages 1.
Lemma competition_awaits_enough_witness : exists asked rest,
  produce_results QuoteCompetition.gas_is_reasonable (fun e : Estimator => e query) (fun l => l) early =
    Ok (map (answer (fun e : Estimator => e query)) asked) /\
  asked ++ rest ≡ₚ all_requests stages /\ length asked = 1%nat.
Proof.
  destruct (competition_awaits_enough QuoteCompetition.gas_is_reasonable (fun e : Estimator => e query) (fun l => l) early)
    as (asked & rest & H1 & H2 & H3).
  - done.
  - reflexivity.
  - intros e He. cbn in He. rewrite !elem_of_cons in He. destruct He as [->|[->|[->|He]]]; [discriminate..|].
    by apply not_elem_of_nil in He.
  - exists asked, rest. split; [exact H1|]. split; [exact H2|].
    assert (H : produce_results QuoteCompetition.gas_is_reasonable (fun e : Estimator => e query) (fun l => l) early =
      Ok [((0%nat, 0%nat), first query)]) by reflexivity.
    rewrite H in H1. injection H1 as H1. apply (f_equal length) in H1. rewrite length_map in H1. cbn in H1. by rewrite <- H1.
Defined.

Let detector : BadTokenDetector := fun token => Ok (if token =? 6 then Bad "fee on transfer" else Good).
Lemma sanitized_queries_are_plain_witness :
  Sanitized.estimate (Sanitized.mkSanitizedPriceEstimator first detector 5)
    (mkQuery 1 BUY_ETH_ADDRESS 1000 Sell Native.default_verification false) = Ok (mkEstimate 1000 9323 7 true).
Proof.
  destruct (sanitized_queries_are_plain first
    (fun q => if query_buy_token q =? BUY_ETH_ADDRESS then Panic else first q) detector 5
    (mkQuery 1 BUY_ETH_ADDRESS 1000 Sell Native.default_verification false)) as [H _].
  - discriminate.
  - intros q _ _ Hq. by rewrite (proj2 (Z.eqb_neq _ _) Hq).
  - rewrite H. vm_compute. reflexivity.
Defined.
End witnesses.
