(* ===== verification/Caches.v ===== *)
(** The caches between the services and what they ask:
    crates/shared/src/price_estimation/native_price_cache.rs,
    account_balances/cached.rs and bad_token/cache.rs.

    The lock of a cache is never held while something is fetched, so the
    operations here are the sections that run under the lock, and their
    compositions without interruption; [PriceEvent] is any interleaving of
    them. Instants and durations are nanoseconds. *)
From Stdlib Require Import ZArith Lia SpecFloat.
From stdpp Require Import prelude gmap sorting.
From S2P Require Import Prelude U256 Bytes Floats ModelOrder OrderQuoting OrderValidation Estimators.

Open Scope Z_scope.
Open Scope rust_scope.
Import ModelOrder OrderValidation PriceEstimation.

(** * bad_token/cache.rs *)
Module BadTokenCache.
Import BadTokens.
Record CachingDetector : Type := mkCachingDetector { cache : gmap Z (Z * TokenQuality); cache_expiry : Z }.
Definition get_from_cache (self : CachingDetector) (token now : Z) : option TokenQuality :=
  match cache self !! token with
  | Some (instant, quality) => if Z.max (now - instant) 0 <? cache_expiry self then Some quality else None
  | None => None
  end.
Definition insert_into_cache (self : CachingDetector) (token : Z) (quality : TokenQuality) (now : Z) : CachingDetector :=
  mkCachingDetector (<[token := (now, quality)]> (cache self)) (cache_expiry self).
(** Asked at [now]; the answer of the inner detector is there at [later]. *)
Definition detect (inner : BadTokenDetector) (token now later : Z) : st CachingDetector unit TokenQuality := fun self =>
  match get_from_cache self token now with
  | Some quality => (self, Ok quality)
  | None =>
      match inner token with
      | Ok result => (insert_into_cache self token result later, Ok result)
      | Err e => (self, Err e)
      | Panic => (self, Panic)
      end
  end.
End BadTokenCache.

(** * native_price_cache.rs *)
Module NativePriceCache.
(** A result that is not a panic. *)
Abbreviation CacheEntry := (res PriceEstimationError F64.f64) (only parsing).
Record CachedResult : Type := mkCachedResult { result : CacheEntry; updated_at : Z; requested_at : Z }.
Abbreviation Cache := (gmap Z CachedResult) (only parsing).

Section inner.
(** The first instant the platform represents. *)
Context (epoch : Z).
(** [Instant::checked_sub] and [saturating_duration_since] *)
Definition instant_checked_sub (now d : Z) : option Z := if epoch <=? now - d then Some (now - d) else None.
Definition saturating_duration_since (now earlier : Z) : Z := Z.max (now - earlier) 0.

Definition get_cached_price (token now : Z) (cache : Cache) (max_age : Z) (create_missing_entry : bool)
  : res unit (Cache * option CacheEntry) :=
  match cache !! token with
  | Some entry =>
      let is_recent := saturating_duration_since now (updated_at entry) <? max_age in
      Ok (<[token := mkCachedResult (result entry) (updated_at entry) now]> cache,
          if is_recent then Some (result entry) else None)
  | None =>
      if create_missing_entry then
        let* outdated_timestamp := opt_expect (instant_checked_sub now max_age) in
        Ok (<[token := mkCachedResult (Ok (F64.of_Z 0)) outdated_timestamp now]> cache, None)
      else Ok (cache, None)
  end.
Definition should_cache (result : CacheEntry) : bool :=
  match result with
  | Ok _ | Err NoLiquidity | Err (UnsupportedToken _ _) => true
  | _ => false
  end.
(** The update of the cache with an answer *)
Definition store (token now : Z) (result : CacheEntry) (cache : Cache) : Cache :=
  if should_cache result then <[token := mkCachedResult result now now]> cache else cache.

Record Inner : Type := mkInner { cache : gmap Z CachedResult; high_priority : list Z; max_age : Z }.
Definition set_cache (self : Inner) (c : gmap Z CachedResult) : Inner := mkInner c (high_priority self) (max_age self).

(** [estimate_prices_and_update_cache] of one token after the other; the
    answer to a token asked for at [now] is there at [later now]. *)
Section estimating.
Context (estimator : Z -> CacheEntry) (later : Z -> Z).
Definition estimate_and_update (token now max_age : Z) (self : Inner) : res unit (Inner * CacheEntry) :=
  let* '(c, price) := get_cached_price token now (cache self) max_age false in
  match price with
  | Some price => Ok (set_cache self c, price)
  | None => let result := estimator token in Ok (set_cache self (store token (later now) result c), result)
  end.
Fixpoint estimate_prices_and_update_cache (tokens : list Z) (now max_age : Z) (self : Inner)
  : res unit (Inner * list CacheEntry) :=
  match tokens with
  | [] => Ok (self, [])
  | token :: tokens =>
      let* '(self, result) := estimate_and_update token now max_age self in
      let* '(self, results) := estimate_prices_and_update_cache tokens (later now) max_age self in
      Ok (self, result :: results)
  end.

(** [IndexSet::get_index_of] *)
Fixpoint get_index_of (l : list Z) (token : Z) : option nat :=
  match l with
  | [] => None
  | t :: l => if t =? token then Some 0%nat else S <$> get_index_of l token
  end.
(** The key of the order: the index, then [Reverse] of the time. *)
Definition index (self : Inner) (token : Z) : Z := default (2 ^ 64 - 1) (Z.of_nat <$> get_index_of (high_priority self) token).
Definition before (self : Inner) (a b : Z * Z) : Prop :=
  index self a.1 < index self b.1 \/ (index self a.1 = index self b.1 /\ b.2 <= a.2).
#[export] Instance before_dec self : RelDecision (before self).
Proof. intros a b. unfold before. apply _. Defined.
Definition outdated (self : Inner) (max_age now : Z) : list (Z * Z) :=
  map (fun '(token, cached) => (token, requested_at cached))
    (filter (fun '(_, cached) => max_age < saturating_duration_since now (updated_at cached)) (map_to_list (cache self))).
Definition sorted_tokens_to_update (self : Inner) (max_age now : Z) : list Z :=
  map fst (merge_sort (before self) (outdated self max_age now)).

Record UpdateTask : Type := mkUpdateTask { update_size : option nat; prefetch_time : Z }.
Definition single_update (task : UpdateTask) (now : Z) (self : Inner) : res unit Inner :=
  let max_age := Prelude.saturating_sub (max_age self) (prefetch_time task) in
  let outdated_entries := sorted_tokens_to_update self max_age now in
  let outdated_entries := match update_size task with Some n => take n outdated_entries | None => outdated_entries end in
  let* '(self, _) := estimate_prices_and_update_cache outdated_entries now max_age self in
  Ok self.

(** [CachingNativePriceEstimator] *)
Fixpoint get_cached_prices (tokens : list Z) (now : Z) (self : Inner) (results : gmap Z CacheEntry)
  : res unit (Inner * gmap Z CacheEntry) :=
  match tokens with
  | [] => Ok (self, results)
  | token :: tokens =>
      let* '(c, cached) := get_cached_price token now (cache self) (max_age self) true in
      get_cached_prices tokens now (set_cache self c)
        (match cached with Some result => <[token := result]> results | None => results end)
  end.
Definition replace_high_priority (tokens : list Z) (self : Inner) : Inner := mkInner (cache self) tokens (max_age self).
Definition estimate_native_price (token now : Z) (self : Inner) : res unit (Inner * CacheEntry) :=
  let* '(c, cached) := get_cached_price token now (cache self) (max_age self) false in
  match cached with
  | Some price => Ok (set_cache self c, price)
  | None => estimate_and_update token now (max_age self) (set_cache self c)
  end.
End estimating.

(** ** Interleavings: the sections under the lock, each at a time *)
Inductive PriceEvent : Type :=
| Requested (tokens : list Z)
| LookedUp (token age : Z)
| Answered (token : Z) (result : CacheEntry)
| Prioritized (tokens : list Z).
(** What an event shows: the prices it takes from the cache. *)
Definition price_event (now : Z) (event : PriceEvent) (self : Inner) : res unit (Inner * gmap Z CacheEntry) :=
  match event with
  | Requested tokens => get_cached_prices tokens now self ∅
  | LookedUp token age =>
      let* '(c, cached) := get_cached_price token now (cache self) age false in
      Ok (set_cache self c, match cached with Some price => {[token := price]} | None => ∅ end)
  | Answered token result => Ok (set_cache self (store token now result (cache self)), ∅)
  | Prioritized tokens => Ok (replace_high_priority tokens self, ∅)
  end.
Fixpoint price_events (events : list (Z * PriceEvent)) (self : Inner) : res unit Inner :=
  match events with
  | [] => Ok self
  | (now, event) :: events => let* '(self, _) := price_event now event self in price_events events self
  end.
End inner.
End NativePriceCache.

(** * account_balances/cached.rs *)
(** Queries are the keys of a map. *)
#[export] Instance InteractionData_eq_dec : EqDecision InteractionData.
Proof. solve_decision. Defined.
#[export] Instance BalanceQuery_eq_dec : EqDecision BalanceQuery.
Proof. solve_decision. Defined.
#[export] Instance SellTokenSource_countable : Countable SellTokenSource.
Proof.
  refine (inj_countable' (fun s => match s with SellErc20 => 0 | SellExternal => 1 | SellInternal => 2 end)
    (fun z => if z =? 0 then SellErc20 else if z =? 1 then SellExternal else SellInternal) _). by intros [].
Defined.
#[export] Instance InteractionData_countable : Countable InteractionData.
Proof.
  refine (inj_countable' (fun i => (target i, value i, call_data i)) (fun '(t, v, d) => mkInteractionData t v d) _).
  by intros [].
Defined.
#[export] Instance BalanceQuery_countable : Countable BalanceQuery.
Proof.
  refine (inj_countable' (fun q => (balance_owner q, balance_token q, balance_source q, balance_interactions q))
    (fun '(o, t, s, i) => mkBalanceQuery o t s i) _). by intros [].
Defined.

Module BalanceCache.
Definition EVICTION_TIME : Z := 5.
Record BalanceEntry : Type := mkBalanceEntry { requested_at : Z; updated_at : Z; balance : Z }.
Record BalanceCache : Type := mkBalanceCache { last_seen_block : Z; data : gmap BalanceQuery BalanceEntry }.

Definition get_cached_balance (self : BalanceCache) (query : BalanceQuery) : BalanceCache * option Z :=
  match data self !! query with
  | Some entry =>
      (mkBalanceCache (last_seen_block self)
         (<[query := mkBalanceEntry (last_seen_block self) (updated_at entry) (balance entry)]> (data self)),
       Some (balance entry))
  | None => (self, None)
  end.
Definition update_balance (self : BalanceCache) (query : BalanceQuery) (balance update_block : Z) : BalanceCache :=
  if update_block <? last_seen_block self then self
  else
    match data self !! query with
    | Some entry =>
        mkBalanceCache (last_seen_block self)
          (<[query := mkBalanceEntry (requested_at entry) update_block balance]> (data self))
    | None => self
    end.
Definition insert_balance (self : BalanceCache) (query : BalanceQuery) (balance requested_at : Z) : BalanceCache :=
  mkBalanceCache (last_seen_block self)
    (<[query := mkBalanceEntry requested_at requested_at balance]> (data self)).

Record CacheResponse : Type := mkCacheResponse {
  cached : list (nat * res unit Z);
  missing : list nat;
  response_requested_at : Z;
}.
(** The queries from the index [i] on, split into those that are cached and
    those that are not. *)
Fixpoint partition_queries (self : BalanceCache) (i : nat) (queries : list BalanceQuery)
  : BalanceCache * list (nat * res unit Z) * list nat :=
  match queries with
  | [] => (self, [], [])
  | query :: queries =>
      let '(self, found) := get_cached_balance self query in
      let '(self, cached, missing) := partition_queries self (S i) queries in
      match found with
      | Some balance => (self, (i, Ok balance) :: cached, missing)
      | None => (self, cached, i :: missing)
      end
  end.
Definition get_cached_balances (self : BalanceCache) (queries : list BalanceQuery) : BalanceCache * CacheResponse :=
  let '(self, cached, missing) := partition_queries self 0 queries in
  (self, mkCacheResponse cached missing (last_seen_block self)).

(** ** A new block: what to refresh, and the balances that came back *)
Definition see_block (self : BalanceCache) (block : Z) : BalanceCache * list BalanceQuery :=
  (mkBalanceCache block (data self),
   map fst (filter (fun '(_, entry) => Prelude.saturating_sub block EVICTION_TIME <= requested_at entry)
              (map_to_list (data self)))).
Definition refresh (self : BalanceCache) (block : Z) (queries : list BalanceQuery) (results : list (res unit Z)) : BalanceCache :=
  let self :=
    foldl (fun self '(query, result) =>
        match result with Ok balance => update_balance self query balance block | _ => self end)
      self (zip queries results) in
  mkBalanceCache (last_seen_block self) (filter (fun '(_, entry) => block <= updated_at entry) (data self)).

Definition by_index (a b : nat * res unit Z) : Prop := (a.1 <= b.1)%nat.
#[export] Instance by_index_dec : RelDecision by_index.
Proof. intros a b. unfold by_index. apply _. Defined.
(** The fetched balances are kept. *)
Definition keep (self : BalanceCache) (requested_at : Z) (queries : list BalanceQuery) (results : list (res unit Z)) : BalanceCache :=
  foldl (fun self '(query, result) =>
      match result with Ok balance => insert_balance self query balance requested_at | _ => self end)
    self (zip queries results).
Section fetching.
(** [BalanceFetching::get_balances] of the node *)
Context (inner : list BalanceQuery -> list (res unit Z)).
Definition get_balances (self : BalanceCache) (queries : list BalanceQuery) : res unit (BalanceCache * list (res unit Z)) :=
  let '(self, response) := get_cached_balances self queries in
  match missing response with
  | [] => Ok (self, map snd (cached response))
  | missing =>
      let* missing_queries := rmap (fun i => opt_expect (queries !! i)) missing in
      let new_balances := inner missing_queries in
      let self := keep self (response_requested_at response) missing_queries new_balances in
      Ok (self, map snd (merge_sort by_index (cached response ++ zip missing new_balances)))
  end.
(** The background task on a new block *)
Definition on_block (self : BalanceCache) (block : Z) : BalanceCache :=
  let '(self, queries) := see_block self block in
  refresh self block queries (inner queries).
End fetching.
End BalanceCache.

(** * Native prices *)
Section prices.
Import NativePriceCache.
Context (epoch : Z).

Lemma get_cached_price_spec token now (c c' : gmap Z CachedResult) age create o :
  get_cached_price epoch token now c age create = Ok (c', o) ->
  (forall k e', c' !! k = Some e' ->
     (exists e, c !! k = Some e /\ result e' = result e /\ updated_at e' = updated_at e) \/
     (create = true /\ updated_at e' = now - age)) /\
  (forall p, o = Some p -> exists e, c !! token = Some e /\ result e = p /\ now - updated_at e < age).
Proof.
  unfold get_cached_price. destruct (c !! token) as [e|] eqn:He.
  - intros [= <- <-]. split.
    + intros k e' [[<- <-]|[? ?]]%lookup_insert_Some; left; eauto.
    + intros p. unfold saturating_duration_since. destruct (Z.ltb_spec (Z.max (now - updated_at e) 0) age); [|done].
      intros [= <-]. exists e. split; [done|]. split; [done|lia].
  - destruct create.
    + intros H. apply rbind_Ok in H as (t & Ht & [= <- <-]). apply opt_expect_Ok in Ht.
      unfold instant_checked_sub in Ht. case_match; simplify_eq. split; [|done].
      intros k e' [[<- <-]|[? ?]]%lookup_insert_Some; [by right|left; eauto].
    + intros [= <- <-]. split; [|done]. intros k e' Hk. left. eauto.
Qed.

Lemma get_cached_price_total token now (c : gmap Z CachedResult) age create :
  epoch <= now - age \/ create = false -> exists out, get_cached_price epoch token now c age create = Ok out.
Proof.
  intros H. unfold get_cached_price. destruct (c !! token); [eauto|]. destruct create; [|eauto].
  unfold instant_checked_sub. destruct H as [H|]; [|done]. rewrite (proj2 (Z.leb_le _ _) H). eauto.
Qed.

(** What the cache holds is an answer, or too old to be served: an entry that
    was made for a price that is missing. *)
Definition answered (log : list (Z * PriceEvent)) (now age token : Z) (price : CacheEntry) : Prop :=
  exists t, (t, Answered token price) ∈ log /\ should_cache price = true /\ now - t < age.
Definition entry_ok (log : list (Z * PriceEvent)) (max_age now token : Z) (e : CachedResult) : Prop :=
  ((updated_at e, Answered token (result e)) ∈ log /\ should_cache (result e) = true) \/ updated_at e + max_age <= now.
Definition cache_ok (log : list (Z * PriceEvent)) (max_age now : Z) (self : Inner) : Prop :=
  max_age = NativePriceCache.max_age self /\
  forall token e, cache self !! token = Some e -> entry_ok log max_age now token e.

Lemma entry_ok_later log log' max_age now now' token e :
  log ⊆ log' -> now <= now' -> entry_ok log max_age now token e -> entry_ok log' max_age now' token e.
Proof. intros Hl Hn [[H1 H2]|H]; [left; split; [by apply Hl|done]|right; lia]. Qed.

Lemma lookup_ok log now age token c c' self o create :
  cache_ok log (max_age self) now self -> cache self = c ->
  age <= max_age self -> (create = true -> age = max_age self) ->
  get_cached_price epoch token now c age create = Ok (c', o) ->
  cache_ok log (max_age self) now (set_cache self c') /\ (forall p, o = Some p -> answered log now age token p).
Proof.
  intros [_ Hok] <- Hage Hcreate H. apply get_cached_price_spec in H as [Hc Ho]. split.
  - split; [done|]. intros k e' He'. destruct (Hc k e' He') as [(e & He & Hr & Hu)|[-> Hu]].
    + apply Hok in He. unfold entry_ok in *. by rewrite Hr, Hu.
    + right. rewrite Hu, (Hcreate eq_refl). lia.
  - intros p Hp. destruct (Ho p Hp) as (e & He & <- & Hlt). apply Hok in He as [[Hin Hs]|Hold]; [|lia].
    by exists (updated_at e).
Qed.

Lemma get_cached_prices_ok log now tokens self self' results results' :
  cache_ok log (max_age self) now self ->
  (forall token p, results !! token = Some p -> answered log now (max_age self) token p) ->
  get_cached_prices epoch tokens now self results = Ok (self', results') ->
  max_age self' = max_age self /\ cache_ok log (max_age self) now self' /\
  (forall token p, results' !! token = Some p -> answered log now (max_age self) token p).
Proof.
  revert self results. induction tokens as [|token tokens IH]; intros self results Hok Hr; cbn [get_cached_prices].
  { by intros [= <- <-]. }
  intros H. apply rbind_Ok in H as ([c o] & Hg & H).
  destruct (lookup_ok log now (max_age self) token _ c self o true Hok eq_refl) as [Hok' Ho]; [lia|done|done|].
  apply (IH (set_cache self c)) in H; [exact H|exact Hok'|].
  intros k p Hk. destruct o as [q|]; [|by apply Hr].
  apply lookup_insert_Some in Hk as [[<- <-]|[_ Hk]]; [by apply Ho|by apply Hr].
Qed.

Definition age_ok (max_age_ : Z) (event : PriceEvent) : Prop :=
  match event with LookedUp _ age => age <= max_age_ | _ => True end.
Definition event_age (max_age_ : Z) (event : PriceEvent) : Z := match event with LookedUp _ age => age | _ => max_age_ end.

(** One section under the lock keeps the cache, and shows answers. *)
Lemma price_event_ok log now event self self' out :
  cache_ok log (max_age self) now self -> age_ok (max_age self) event ->
  price_event epoch now event self = Ok (self', out) ->
  cache_ok (log ++ [(now, event)]) (max_age self) now self' /\
  (forall token p, out !! token = Some p -> answered log now (event_age (max_age self) event) token p).
Proof.
  intros Hok Ha. assert (Hmono : forall self'', cache_ok log (max_age self) now self'' ->
    cache_ok (log ++ [(now, event)]) (max_age self) now self'').
  { intros self'' [H1 H2]. split; [done|]. intros token e He. apply H2 in He. revert He.
    apply entry_ok_later; [|lia]. intros x Hx. apply elem_of_app. by left. }
  destruct event as [tokens|token age|token result|tokens]; cbn [price_event].
  - intros H. destruct (get_cached_prices_ok log now tokens self self' ∅ out Hok) as (_ & H1 & H2); [|done|].
    + intros token p Hp. by rewrite lookup_empty in Hp.
    + split; [by apply Hmono|exact H2].
  - intros H. apply rbind_Ok in H as ([c o] & Hg & [= <- <-]).
    destruct (lookup_ok log now age token _ c self o false Hok eq_refl) as [Hok' Ho]; [exact Ha|done|done|].
    split; [by apply Hmono|]. intros k p Hp. destruct o as [q|]; [|by rewrite lookup_empty in Hp].
    apply lookup_singleton_Some in Hp as [<- <-]. by apply Ho.
  - intros [= <- <-]. split; [|intros ? ? Hp; by rewrite lookup_empty in Hp]. unfold store.
    destruct (should_cache result) eqn:Hs; [|by apply Hmono]. destruct Hok as [Hm Hok]. split; [done|].
    intros k e He. cbn [cache set_cache] in He. apply lookup_insert_Some in He as [[<- <-]|[_ He]].
    + left. split; [|done]. apply elem_of_app. right. by apply list_elem_of_singleton.
    + destruct (Hmono self) as [_ H]; [by split|]. by apply H.
  - intros [= <- <-]. split; [|intros ? ? Hp; by rewrite lookup_empty in Hp]. apply Hmono. exact Hok.
Qed.

Lemma price_event_total now event self : epoch <= now - max_age self -> exists out, price_event epoch now event self = Ok out.
Proof.
  intros He. destruct event as [tokens|token age|token result|tokens]; cbn [price_event]; [|..|by eexists|by eexists].
  - assert (H : forall results, exists out, get_cached_prices epoch tokens now self results = Ok out); [|apply H].
    revert self He. induction tokens as [|token tokens IH]; intros self He results; cbn [get_cached_prices]; [by eexists|].
    destruct (get_cached_price_total token now (cache self) (max_age self) true (or_introl He)) as [[c o] ->]. cbn.
    by apply IH.
  - destruct (get_cached_price_total token now (cache self) age false (or_intror eq_refl)) as [[c o] ->]. cbn. by eexists.
Qed.

Lemma price_event_max_age now event self self' out :
  price_event epoch now event self = Ok (self', out) -> max_age self' = max_age self.
Proof.
  destruct event as [tokens|token age|token result|tokens]; cbn [price_event].
  - generalize (∅ : gmap Z CacheEntry). revert self. induction tokens as [|token tokens IH]; intros self r; cbn [get_cached_prices].
    + by intros [= <- _].
    + intros H. apply rbind_Ok in H as ([c o] & _ & H). by apply IH in H.
  - intros H. by apply rbind_Ok in H as ([c o] & _ & [= <- _]).
  - by intros [= <- _].
  - by intros [= <- _].
Qed.

Definition event_ok (max_age_ : Z) (event : Z * PriceEvent) : Prop := epoch <= event.1 - max_age_ /\ age_ok max_age_ event.2.

(** Neither does a sequence of them. *)
Lemma price_events_ok max_age_ log l self t :
  cache_ok log max_age_ t self -> Forall (event_ok max_age_) l -> StronglySorted Z.le (t :: map fst l) ->
  exists self', price_events epoch l self = Ok self' /\
    exists t', cache_ok (log ++ l) max_age_ t' self' /\ (l = [] /\ t' = t \/ exists e, e ∈ l /\ t' = e.1).
Proof.
  revert log self t. induction l as [|[t1 e1] l IH]; intros log self t Hok Hl Hsl.
  - exists self. split; [done|]. exists t. rewrite app_nil_r. split; [done|by left].
  - cbn [map fst] in Hsl. apply StronglySorted_inv in Hsl as [Hsl Hle]. apply Forall_cons_iff in Hl as [[He Ha] Hl].
    apply Forall_cons_iff in Hle as [Hle _]. pose proof (proj1 Hok) as Hm. cbn [fst snd] in *.
    assert (Hok1 : cache_ok log (NativePriceCache.max_age self) t1 self).
    { rewrite <- Hm. split; [done|]. intros token e Hte. apply (proj2 Hok) in Hte. revert Hte. by apply entry_ok_later. }
    destruct (price_event_total t1 e1 self) as [[s1 out] H1]; [by rewrite <- Hm|].
    pose proof H1 as H2. apply (price_event_ok log) in H2 as [Hok2 _]; [|done|by rewrite <- Hm].
    rewrite <- Hm in Hok2. destruct (IH (log ++ [(t1, e1)]) s1 t1) as (s' & Hs' & t' & Hok' & Ht'); [done..|].
    exists s'. cbn [price_events]. rewrite H1. split; [exact Hs'|]. exists t'. rewrite <- app_assoc in Hok'.
    split; [exact Hok'|]. right. destruct Ht' as [[-> ->]|(e & Hin & ->)]; [exists (t1, e1); split; [by left|done]|].
    exists e. split; [by right|done].
Qed.
End prices.


(** ** The order of the updates *)
Section priority.
Import NativePriceCache.

#[local] Instance before_trans self : Transitive (before self).
Proof. intros a b c. unfold before. lia. Qed.
#[local] Instance before_total self : Total (before self).
Proof. intros a b. unfold before. lia. Qed.

Lemma elem_of_outdated self age now token t :
  (token, t) ∈ outdated self age now <->
  exists e, cache self !! token = Some e /\ requested_at e = t /\ age < saturating_duration_since now (updated_at e).
Proof.
  unfold outdated. rewrite list_elem_of_fmap. split.
  - intros ([k e] & Heq & Hin). apply list_elem_of_filter in Hin as [Hage Hin]. apply elem_of_map_to_list in Hin.
    injection Heq as -> ->. eauto.
  - intros (e & He & <- & Hage). exists (token, e). split; [done|]. apply list_elem_of_filter. split; [done|].
    by apply elem_of_map_to_list.
Qed.

Lemma outdated_NoDup self age now : NoDup (map fst (outdated self age now)).
Proof.
  unfold outdated. rewrite map_map. rewrite (map_ext _ fst) by (by intros []).
  apply NoDup_fmap_fst; [|apply NoDup_filter, NoDup_map_to_list].
  intros k e1 e2 [_ H1]%list_elem_of_filter [_ H2]%list_elem_of_filter. apply elem_of_map_to_list in H1, H2. congruence.
Qed.

Lemma sorted_lookup {A} (R : A -> A -> Prop) l i j a b :
  StronglySorted R l -> (i < j)%nat -> l !! i = Some a -> l !! j = Some b -> R a b.
Proof.
  intros Hs Hij Ha Hb. rewrite <- (take_drop j l) in Hs. apply (StronglySorted_app_1_elem_of _ _ _ _ _ Hs).
  - apply list_elem_of_lookup. exists i. by rewrite lookup_take_lt.
  - apply list_elem_of_lookup. exists 0%nat. by rewrite lookup_drop, Nat.add_0_r.
Qed.

Lemma outdated_sorted self l : StronglySorted (before self) (merge_sort (before self) l).
Proof. apply (StronglySorted_merge_sort _). Qed.

End priority.

(** The background task fetches exactly the tokens whose price is older than the
    given age, each once: those that were prioritized first, in the order they
    were given, and of the others (as of equals) those that were asked for last. *)
Theorem updates_follow_priority (self : NativePriceCache.Inner) (age now : Z) :
  0 <= age ->
  let l := NativePriceCache.sorted_tokens_to_update self age now in
  NoDup l /\
  (forall token, token ∈ l <->
     exists e, NativePriceCache.cache self !! token = Some e /\ age < now - NativePriceCache.updated_at e) /\
  forall i j a b ea eb, (i < j)%nat -> l !! i = Some a -> l !! j = Some b ->
    NativePriceCache.cache self !! a = Some ea -> NativePriceCache.cache self !! b = Some eb ->
    NativePriceCache.index self a < NativePriceCache.index self b \/
    (NativePriceCache.index self a = NativePriceCache.index self b /\
     NativePriceCache.requested_at eb <= NativePriceCache.requested_at ea).
Proof.
  intros Hage l. subst l. unfold NativePriceCache.sorted_tokens_to_update.
  set (out := NativePriceCache.outdated self age now). set (s := merge_sort _ out).
  assert (Hp : s ≡ₚ out) by apply merge_sort_Permutation.
  assert (Hin : forall token t, (token, t) ∈ s <-> exists e, NativePriceCache.cache self !! token = Some e /\
    NativePriceCache.requested_at e = t /\ age < NativePriceCache.saturating_duration_since now (NativePriceCache.updated_at e)).
  { intros token t. rewrite Hp. apply elem_of_outdated. }
  unfold NativePriceCache.saturating_duration_since in Hin. split; [|split].
  - rewrite Hp. apply outdated_NoDup.
  - intros token. rewrite list_elem_of_fmap. split.
    + intros ([k t] & -> & Hk). apply Hin in Hk as (e & He & _ & Ha). exists e. split; [done|]. lia.
    + intros (e & He & Ha). exists (token, NativePriceCache.requested_at e). split; [done|]. apply Hin. exists e.
      split; [done|]. split; [done|]. lia.
  - intros i j a b ea eb Hij Ha Hb Hea Heb. apply list_lookup_fmap_Some in Ha as ([a' ta] & -> & Ha).
    apply list_lookup_fmap_Some in Hb as ([b' tb] & -> & Hb). cbn [fst] in *.
    pose proof (sorted_lookup _ _ _ _ _ _ (outdated_sorted self out) Hij Ha Hb) as Hbefore.
    apply list_elem_of_lookup_2, Hin in Ha as (ea' & Hea' & <- & _). apply list_elem_of_lookup_2, Hin in Hb as (eb' & Heb' & <- & _).
    rewrite Hea in Hea'. rewrite Heb in Heb'. simplify_eq. exact Hbefore.
Qed.

(** * Balances *)
Module BalanceOps.
Import BalanceCache.
(** What is done with the cache, while the node answers for the current block. *)
Inductive BalanceOp : Type := Queried (queries : list BalanceQuery) | NewBlock (block : Z).
Section chain.
Context (chain : Z -> BalanceQuery -> res unit Z).
Fixpoint balance_ops (ops : list BalanceOp) (block : Z) (self : BalanceCache) : res unit (list (list (res unit Z))) :=
  match ops with
  | [] => Ok []
  | Queried queries :: ops =>
      let* '(self, balances) := get_balances (map (chain block)) self queries in
      let* rest := balance_ops ops block self in
      Ok (balances :: rest)
  | NewBlock block :: ops => balance_ops ops block (on_block (map (chain block)) self block)
  end.
(** The same without a cache *)
Fixpoint direct (ops : list BalanceOp) (block : Z) : list (list (res unit Z)) :=
  match ops with
  | [] => []
  | Queried queries :: ops => map (chain block) queries :: direct ops block
  | NewBlock block :: ops => direct ops block
  end.
End chain.
Fixpoint blocks_increase (ops : list BalanceOp) (block : Z) : Prop :=
  match ops with
  | [] => True
  | Queried _ :: ops => blocks_increase ops block
  | NewBlock block' :: ops => block < block' /\ blocks_increase ops block'
  end.
End BalanceOps.

Section balances.
Import BalanceCache BalanceOps.
Context (chain : Z -> BalanceQuery -> res unit Z).

(** Every cached balance is that of the block. *)
Record fresh (block : Z) (self : BalanceCache) : Prop := {
  fresh_seen : last_seen_block self <= block;
  fresh_data q e : data self !! q = Some e -> chain block q = Ok (balance e) /\ updated_at e <= last_seen_block self;
}.

Lemma fresh_insert block self q e :
  fresh block self -> chain block q = Ok (balance e) -> updated_at e <= last_seen_block self ->
  fresh block (mkBalanceCache (last_seen_block self) (<[q := e]> (data self))).
Proof.
  intros [Hs Hd] Hq Hu. split; [done|]. intros q' e' He. cbn [data] in He.
  apply lookup_insert_Some in He as [[<- <-]|[_ He]]; [done|]. by apply Hd.
Qed.

Lemma get_cached_balance_spec block self q self' o :
  fresh block self -> get_cached_balance self q = (self', o) ->
  fresh block self' /\ last_seen_block self' = last_seen_block self /\ (forall b, o = Some b -> chain block q = Ok b).
Proof.
  intros Hf. unfold get_cached_balance. destruct (data self !! q) as [e|] eqn:He; intros [= <- <-]; [|done].
  destruct (fresh_data _ _ Hf q e He) as [Hc Hu]. split; [by apply fresh_insert|]. split; [done|]. by intros b [= <-].
Qed.

(** The answers by their index. *)
Definition numbered (i : nat) (block : Z) (queries : list BalanceQuery) : list (nat * res unit Z) :=
  imap (fun j q => ((i + j)%nat, chain block q)) queries.

Lemma numbered_cons i block q queries :
  numbered i block (q :: queries) = (i, chain block q) :: numbered (S i) block queries.
Proof.
  unfold numbered. cbn [imap]. rewrite Nat.add_0_r. f_equal. apply imap_ext. intros j x _. cbn. f_equal. lia.
Qed.
Lemma elem_of_numbered i block queries j r :
  (j, r) ∈ numbered i block queries -> (i <= j)%nat /\ exists q, queries !! (j - i)%nat = Some q /\ r = chain block q.
Proof.
  intros (k & q & Heq & Hk)%elem_of_lookup_imap. injection Heq as -> ->. split; [lia|]. exists q. split; [|done].
  by replace (i + k - i)%nat with k by lia.
Qed.
Lemma numbered_sorted i block queries : StronglySorted by_index (numbered i block queries).
Proof.
  revert i. induction queries as [|q queries IH]; intros i; [constructor|]. rewrite numbered_cons. constructor; [apply IH|].
  apply Forall_forall. intros [j r] Hj. apply elem_of_numbered in Hj as [Hj _]. unfold by_index. cbn. lia.
Qed.
Lemma numbered_snd i block queries : map snd (numbered i block queries) = map (chain block) queries.
Proof.
  apply list_eq. intros j. unfold numbered. rewrite !list_lookup_fmap, list_lookup_imap. by destruct (queries !! j).
Qed.

(** The answers sorted by their index are the numbered ones. *)
Lemma sorted_numbered i block queries l :
  StronglySorted by_index l -> l ≡ₚ numbered i block queries -> l = numbered i block queries.
Proof.
  intros Hs Hp. apply (StronglySorted_unique_strong by_index); [|done|apply numbered_sorted|done].
  intros [j r] [j' r'] Hin Hin'. rewrite Hp in Hin. unfold by_index. cbn. intros H1 H2.
  apply elem_of_numbered in Hin as (H3 & q & Hq & ->), Hin' as (H4 & q' & Hq' & ->).
  assert (j = j') as -> by lia. congruence.
Qed.

Lemma partition_queries_spec block self i queries self' cached_ missing_ :
  fresh block self -> partition_queries self i queries = (self', cached_, missing_) ->
  fresh block self' /\ last_seen_block self' = last_seen_block self /\
  StronglySorted by_index cached_ /\ Forall (fun r => (i <= r.1)%nat) cached_ /\
  exists missing_queries, Forall2 (fun j q => (i <= j)%nat /\ queries !! (j - i)%nat = Some q) missing_ missing_queries /\
    cached_ ++ zip missing_ (map (chain block) missing_queries) ≡ₚ numbered i block queries.
Proof.
  revert i self self' cached_ missing_. induction queries as [|q queries IH]; intros i self self' cached_ missing_ Hf;
    cbn [partition_queries].
  { intros [= <- <- <-]. split; [done|]. split; [done|]. split; [constructor|]. split; [constructor|]. by exists []. }
  destruct (get_cached_balance self q) as [s1 o] eqn:Hg.
  destruct (get_cached_balance_spec _ _ _ _ _ Hf Hg) as (Hf1 & Hl1 & Ho).
  destruct (partition_queries s1 (S i) queries) as [[s2 c2] m2] eqn:Hp.
  destruct (IH _ _ _ _ _ Hf1 Hp) as (Hf2 & Hl2 & Hs2 & Hi2 & mq & Hm & Hperm).
  assert (Hm' : Forall2 (fun j q' => (i <= j)%nat /\ (q :: queries) !! (j - i)%nat = Some q') m2 mq).
  { eapply Forall2_impl; [exact Hm|]. intros j q' [Hj Hq]. split; [lia|].
    replace (j - i)%nat with (S (j - S i)) by lia. exact Hq. }
  assert (Hi' : Forall (fun r : nat * res unit Z => (i <= r.1)%nat) c2) by (eapply Forall_impl; [exact Hi2|cbn; lia]).
  rewrite numbered_cons. destruct o as [b|]; intros [= <- <- <-].
  - split; [done|]. split; [congruence|]. split; [|split].
    + constructor; [done|]. eapply Forall_impl; [exact Hi2|]. intros [j x] Hr. cbn in Hr. unfold by_index. cbn. lia.
    + constructor; [done|]. done.
    + exists mq. split; [done|]. cbn [app]. by rewrite (Ho b eq_refl), Hperm.
  - split; [done|]. split; [congruence|]. split; [done|]. split; [done|]. exists (q :: mq). split.
    + constructor; [|done]. split; [lia|]. by rewrite Nat.sub_diag.
    + cbn [map zip_with]. rewrite <- Permutation_middle. by rewrite Hperm.
Qed.

Lemma keep_fresh block self queries :
  fresh block self -> fresh block (keep self (last_seen_block self) queries (map (chain block) queries)).
Proof.
  unfold keep. intros Hf. set (seen := last_seen_block self) at 1.
  assert (Hseen : seen = last_seen_block self) by done. clearbody seen. revert self Hf Hseen.
  induction queries as [|q queries IH]; intros self Hf Hseen; cbn [map zip_with foldl]; [done|].
  destruct (chain block q) as [b| |] eqn:Hq; cbn; [|by apply IH..].
  apply IH; [|done]. by apply (fresh_insert block self q (mkBalanceEntry seen seen b)); [..|cbn; lia].
Qed.

Lemma keep_seen self seen queries results : last_seen_block (keep self seen queries results) = last_seen_block self.
Proof.
  unfold keep. generalize (zip queries results). intros l. revert self. induction l as [|[q r] l IH]; intros self; cbn [foldl]; [done|].
  rewrite IH. by destruct r.
Qed.

#[local] Instance by_index_trans : Transitive by_index.
Proof. intros a b c. unfold by_index. lia. Qed.
#[local] Instance by_index_total : Total by_index.
Proof. intros a b. unfold by_index. lia. Qed.

Lemma get_balances_fresh block self queries :
  fresh block self -> exists self', get_balances (map (chain block)) self queries = Ok (self', map (chain block) queries) /\
    fresh block self' /\ last_seen_block self' = last_seen_block self.
Proof.
  intros Hf. unfold get_balances, get_cached_balances.
  destruct (partition_queries self 0 queries) as [[s1 c1] m1] eqn:Hp.
  destruct (partition_queries_spec _ _ _ _ _ _ _ Hf Hp) as (Hf1 & Hl1 & Hs1 & _ & mq & Hm & Hperm).
  cbn [missing cached response_requested_at].
  assert (Hmq : rmap (fun j => opt_expect (E := unit) (queries !! j)) m1 = Ok mq).
  { apply rmap_Ok. eapply Forall2_impl; [exact Hm|]. intros j q [_ Hq]. rewrite Nat.sub_0_r in Hq. by rewrite Hq. }
  destruct m1 as [|j m1].
  - exists s1. cbn [zip_with] in Hperm. rewrite app_nil_r in Hperm.
    rewrite (sorted_numbered 0 block queries c1 Hs1 Hperm), numbered_snd. done.
  - rewrite Hmq. cbn [rbind]. eexists. split; [do 2 f_equal|].
    + rewrite <- (numbered_snd 0 block queries). f_equal. apply sorted_numbered; [apply (StronglySorted_merge_sort _)|].
      rewrite merge_sort_Permutation. exact Hperm.
    + split; [by apply keep_fresh|]. by rewrite keep_seen.
Qed.

(** A new block refreshes what is kept. *)
Lemma on_block_fresh block block' self :
  fresh block self -> block < block' -> fresh block' (on_block (map (chain block')) self block').
Proof.
  intros [Hseen Hdata] Hlt. unfold on_block, see_block, refresh. set (queries := map fst _). clearbody queries.
  set (ok := fun self : BalanceCache => last_seen_block self = block' /\ forall q e, data self !! q = Some e ->
    updated_at e < block' \/ (chain block' q = Ok (balance e) /\ updated_at e = block')).
  assert (H0 : ok (mkBalanceCache block' (data self))).
  { split; [done|]. intros q e He. left. destruct (Hdata q e He). lia. }
  generalize dependent (mkBalanceCache block' (data self)). intros s Hs.
  assert (Hok : ok (foldl (fun (self : BalanceCache) '(query, result) =>
    match result with Ok balance => update_balance self query balance block' | _ => self end) s
      (zip queries (map (chain block') queries)))).
  { revert s Hs. induction queries as [|q queries IH]; intros s Hs; cbn [map zip_with foldl]; [done|].
    apply IH. destruct (chain block' q) as [b| |] eqn:Hq; [|done..]. destruct Hs as [Hl Hd]. unfold update_balance.
    case_match; [by split|]. destruct (data s !! q) as [e|]; [|by split]. split; [done|].
    intros q' e' He. cbn [data] in He. apply lookup_insert_Some in He as [[<- <-]|[_ He]]; [by right|]. by apply Hd. }
  destruct Hok as [Hl Hd]. split; cbn [last_seen_block data]; [lia|]. intros q e He.
  apply map_lookup_filter_Some in He as [He Hu]. apply Hd in He. lia || (destruct He as [He|[He1 He2]]; [lia|]).
  split; [done|lia].
Qed.

Lemma balance_ops_direct ops block self : fresh block self -> blocks_increase ops block ->
  balance_ops chain ops block self = Ok (direct chain ops block).
Proof.
  revert block self. induction ops as [|[queries|block'] ops IH]; intros block self Hf Hb; cbn; [done|..].
  - destruct (get_balances_fresh block self queries Hf) as (s' & -> & Hf' & _). cbn. by rewrite (IH block s').
  - destruct Hb as [Hlt Hb]. apply IH; [|done]. by apply (on_block_fresh block).
Qed.
End balances.


(** * Examples *)
Section witnesses.
Import NativePriceCache.
Let price : F64.f64 := F64.of_Z 2.
(** A missing price is asked for, found and served, an error that may go away
    is not kept. *)
Let events : list (Z * PriceEvent) :=
  [(100, Requested [1; 2]); (101, Prioritized [2; 1]); (102, LookedUp 2 8); (104, Answered 2 (Ok price));
   (105, Answered 1 (Err RateLimited))].


Let state : Inner :=
  mkInner {[1 := mkCachedResult (Ok price) 50 90; 2 := mkCachedResult (Ok price) 95 96; 3 := mkCachedResult (Ok price) 20 95;
            4 := mkCachedResult (Ok price) 20 30]} [4; 2] 60.
Lemma updates_follow_priority_witness :
  sorted_tokens_to_update state 40 100 = [4; 3; 1] /\ index state 4 < index state 3.
Proof.
  assert (E : sorted_tokens_to_update state 40 100 = [4; 3; 1]) by (vm_compute; reflexivity).
  split; [exact E|]. destruct (updates_follow_priority state 40 100) as (_ & _ & H); [lia|].
  assert (H1 : (0 < 1)%nat) by lia.
  pose proof (H 0%nat 1%nat 4 3 (mkCachedResult (Ok price) 20 30) (mkCachedResult (Ok price) 20 95) H1) as Hlt.
  rewrite E in Hlt. destruct (Hlt eq_refl eq_refl eq_refl eq_refl) as [Hi|[Hi _]]; [exact Hi|]. discriminate Hi.
Defined.
End witnesses.

Section balance_witnesses.
Import BalanceCache BalanceOps.
Let q (owner : Z) : BalanceQuery := mkBalanceQuery owner 1 SellErc20 [].
Let chain (block : Z) (query : BalanceQuery) : res unit Z :=
  if (balance_owner query =? 3) && (block =? 11) then Err tt else Ok (100 * balance_owner query + block).
Let ops : list BalanceOp :=
  [Queried [q 1; q 2; q 1]; NewBlock 11; Queried [q 2; q 3]; NewBlock 12; Queried [q 3; q 1]; NewBlock 20; Queried [q 1]].

(** The balances of a request that was sent before a block and is answered after
    it are kept although the block has been processed: the next request
    gets the balance of the old block. *)
Example late_balance_is_stale :
  let cache := on_block (map (chain 10)) (mkBalanceCache 0 ∅) 10 in
  let '(cache, response) := get_cached_balances cache [q 1] in
  let fetched := map (chain 10) [q 1] in
  let cache := on_block (map (chain 11)) cache 11 in
  let cache := keep cache (response_requested_at response) [q 1] fetched in
  (res_map snd (get_balances (map (chain 11)) cache [q 1]), chain 11 (q 1)) = (Ok [Ok 110], Ok 111).
Proof. vm_compute. reflexivity. Qed.
End balance_witnesses.
