(* ===== verification/ProtocolFees.v ===== *)
(** Fee policies and auctions of the autopilot:
    crates/autopilot/src/domain/fee (mod.rs, policy.rs), domain/auction (mod.rs,
    order.rs), boundary/order.rs and infra/persistence/dto/quote.rs.

    A fee factor is a float; the enums of the domain are those of the model. *)
From Stdlib Require Import ZArith Lia QArith Qcanon SpecFloat.
From stdpp Require Import prelude gmap.
From S2P Require Import Prelude U256 Bytes Floats DriverOrder ModelOrder RemainingAmounts OrderQuoting OrderValidation OrderStore.
From S2P Require Import OnchainSettlement.

Open Scope Z_scope.
Open Scope rust_scope.
Import ModelOrder.

(** * domain/auction *)
Module AutopilotAuction.
(** [domain::Order]; the executed amount is that of the side of the order. *)
Record Order : Type := mkOrder {
  order_uid : Z;
  order_sell : Eth.Asset;
  order_buy : Eth.Asset;
  protocol_fees : list FeePolicy.Policy;
  order_side : OrderKind;
  order_class : OrderClass;
  order_valid_to : Z;
  order_receiver : option Z;
  order_owner : Z;
  order_partially_fillable : bool;
  order_executed : Z;
  order_pre_interactions : list InteractionData;
  order_post_interactions : list InteractionData;
  order_sell_token_balance : SellTokenSource;
  order_buy_token_balance : BuyTokenDestination;
  order_app_data : list byte;
  order_signature : ModelSignature.Signature;
}.
Definition is_limit_order (self : Order) : bool := is_limit (order_class self).
Definition solver_determines_fee (self : Order) : bool := is_limit_order self.

Record Auction : Type := mkAuction {
  block : Z;
  latest_settlement_block : Z;
  orders : list Order;
  prices : gmap Z Z;
  surplus_capturing_jit_order_owners : list Z;
}.

(** [Price]: the wei for 10^18 atoms. *)
Definition BASE : Z := 10 ^ 18.
Definition price_new (value : Z) : option Z := if value =? 0 then None else Some value.
Definition in_eth {E} (self amount : Z) : res E Z :=
  let* product := u_mul amount self in
  u_div product BASE.
End AutopilotAuction.

(** * boundary/order.rs *)
Definition to_domain (order : Order) (protocol_fees : list FeePolicy.Policy) : AutopilotAuction.Order :=
  let d := data order in
  let executed := RemainingAmounts.executed_amount (RemainingAmounts.from_model order) in
  AutopilotAuction.mkOrder (order_uid (metadata order)) (Eth.mkAsset (sell_amount d) (sell_token d))
    (Eth.mkAsset (buy_amount d) (buy_token d)) protocol_fees (kind d) (class (metadata order)) (valid_to d) (receiver d)
    (owner (metadata order)) (partially_fillable d) executed
    (if executed =? 0 then pre (interactions order) else []) (post (interactions order))
    (sell_token_balance d) (buy_token_balance d) (app_data d) (signature order).

(** * infra/persistence/dto/quote.rs *)
Module QuoteDto.
Inductive QuoteError : Type := U256Overflow | InvalidInput | DivisionByZero | Error.
Record Quote : Type := mkQuote { quote_order_uid : Z; quote_sell : Z; quote_buy : Z; quote_fee : Z }.

(** [BigRational::from_f64], of finite numbers *)
Definition from_f64 (x : F64.f64) : option Qc :=
  match x with
  | S754_zero _ => Some 0%Qc
  | S754_finite s m e =>
      let z := Qc_of_Z (if s then Zneg m else Zpos m) in
      Some (if 0 <=? e then (z * Qc_of_Z (2 ^ e))%Qc else (z / Qc_of_Z (2 ^ (- e)))%Qc)
  | _ => None
  end.
Definition into_domain (order_uid : Z) (quote : Database.QuoteRow) : res QuoteError Quote :=
  let* gas_amount := ok_or (from_f64 (Database.quote_gas_amount quote)) InvalidInput in
  let* gas_price := ok_or (from_f64 (Database.quote_gas_price quote)) InvalidInput in
  let* sell_token_price := ok_or (from_f64 (Database.quote_sell_token_price quote)) InvalidInput in
  let* ratio :=
    if decide (sell_token_price = 0%Qc) then Err DivisionByZero else Ok (gas_amount * gas_price / sell_token_price)%Qc in
  let* fee := ok_or (big_rational_to_u256 ratio) Error in
  let* sell := ok_or (OrderStoring.big_decimal_to_u256 (Database.quote_sell_amount quote)) U256Overflow in
  let* buy := ok_or (OrderStoring.big_decimal_to_u256 (Database.quote_buy_amount quote)) U256Overflow in
  Ok (mkQuote order_uid sell buy fee).
End QuoteDto.

(** * domain/fee *)
Module FeeFactor.
Definition is_nan (x : F64.f64) : bool := match x with S754_nan => true | _ => false end.
(** [f64::max] and [f64::min], which ignore a NaN *)
Definition fmax (x y : F64.f64) : F64.f64 :=
  if is_nan x then y else if is_nan y then x else if F64.ltb x y then y else x.
Definition fmin (x y : F64.f64) : F64.f64 :=
  if is_nan x then y else if is_nan y then x else if F64.ltb y x then y else x.
(** What is in [0, 1) *)
Definition in_range (value : F64.f64) : bool := F64.leb (F64.of_Z 0) value && F64.ltb value (F64.of_Z 1).
Definition try_from (value : F64.f64) : res unit F64.f64 := if in_range value then Ok value else Err tt.
Definition try_from_capped (value cap : F64.f64) : res unit F64.f64 := try_from (fmin (fmax value (F64.of_Z 0)) cap).
End FeeFactor.

Module ProtocolFee.
Inductive FeeOrderClass : Type := FeeMarket | FeeLimit | FeeAny.
(** policy.rs: the configured policy, without the quote *)
Inductive PolicyKind : Type :=
| Surplus (factor max_volume_factor : F64.f64)
| PriceImprovement (factor max_volume_factor : F64.f64)
| Volume (factor : F64.f64).
Record ProtocolFee : Type := mkProtocolFee { policy : PolicyKind; order_class : FeeOrderClass }.

(** The three [apply]s of policy.rs *)
Definition surplus_apply (factor max_volume_factor : F64.f64) (order : Order) : option FeePolicy.Policy :=
  match class (metadata order) with
  | Market => None
  | Liquidity => None
  | Limit => Some (FeePolicy.Surplus factor max_volume_factor)
  end.
Definition quote_from (value : QuoteDto.Quote) : FeePolicy.Quote :=
  FeePolicy.mkQuote (QuoteDto.quote_sell value) (QuoteDto.quote_buy value) (QuoteDto.quote_fee value).
Definition price_improvement_apply (factor max_volume_factor : F64.f64) (order : Order) (quote : QuoteDto.Quote)
  : option FeePolicy.Policy :=
  match class (metadata order) with
  | Market => None
  | Liquidity => None
  | Limit => Some (FeePolicy.PriceImprovement factor max_volume_factor (quote_from quote))
  end.
Definition volume_apply (factor : F64.f64) (order : Order) : option FeePolicy.Policy :=
  match class (metadata order) with
  | Market => None
  | Liquidity => None
  | Limit => Some (FeePolicy.Volume factor)
  end.

Definition variant_fee_apply (order : Order) (quote : QuoteDto.Quote) (policy : PolicyKind) : option FeePolicy.Policy :=
  match policy with
  | Surplus factor max_volume_factor => surplus_apply factor max_volume_factor order
  | PriceImprovement factor max_volume_factor => price_improvement_apply factor max_volume_factor order quote
  | Volume factor => volume_apply factor order
  end.
Definition protocol_fee_into_policy (order : Order) (order_ quote_ : OrderValidation.Amounts) (protocol_fee : ProtocolFee)
  : res unit (option PolicyKind) :=
  let* outside_market_price := OrderValidation.is_order_outside_market_price order_ quote_ (kind (data order)) in
  Ok match outside_market_price, order_class protocol_fee with
     | _, FeeAny => Some (policy protocol_fee)
     | true, FeeLimit => Some (policy protocol_fee)
     | false, FeeMarket => Some (policy protocol_fee)
     | _, _ => None
     end.
End ProtocolFee.
Import ProtocolFee.

Module ProtocolFees.
Record ProtocolFees : Type := mkProtocolFees {
  fee_policies : list ProtocolFee;
  max_partner_fee : F64.f64;
  enable_protocol_fees : bool;
}.

(** [find_map] over the policies *)
Fixpoint find_policy (order : Order) (order_ quote_ : OrderValidation.Amounts) (policies : list ProtocolFee)
  : res unit (option PolicyKind) :=
  match policies with
  | [] => Ok None
  | fee_policy :: policies =>
      let* policy := protocol_fee_into_policy order order_ quote_ fee_policy in
      match policy with
      | Some policy => Ok (Some policy)
      | None => find_policy order order_ quote_ policies
      end
  end.
Definition apply_single_policy (self : ProtocolFees) (order : Order) (quote : QuoteDto.Quote)
    (order_ quote_ : OrderValidation.Amounts) (partner_fees : list FeePolicy.Policy) : res unit AutopilotAuction.Order :=
  match partner_fees with
  | partner_fee :: _ => Ok (to_domain order [partner_fee])
  | [] =>
      let* found := find_policy order order_ quote_ (fee_policies self) in
      Ok (to_domain order (option_list (policy ← found; variant_fee_apply order quote policy)))
  end.
Definition apply_multiple_policies (self : ProtocolFees) (order : Order) (quote : QuoteDto.Quote)
    (order_ quote_ : OrderValidation.Amounts) (partner_fees : list FeePolicy.Policy) : res unit AutopilotAuction.Order :=
  let* policies := rmap (protocol_fee_into_policy order order_ quote_) (fee_policies self) in
  let protocol_fees := omap (fun policy => policy ≫= variant_fee_apply order quote) policies in
  Ok (to_domain order (protocol_fees ++ partner_fees)).

Section apply.
Context (keccak256 : list byte -> list byte) (parse_root : list byte -> option AppData.Root).
(** The size limit is [usize::MAX]. *)
Definition partner_fee_of (self : ProtocolFees) (order : Order) : res unit (list FeePolicy.Policy) :=
  match full_app_data (metadata order) with
  | None => Ok []
  | Some full_app_data =>
      match AppData.validate keccak256 parse_root (2 ^ 64 - 1) full_app_data with
      | Panic => Panic
      | Err _ => Ok []
      | Ok validated =>
          match AppData.partner_fee (AppData.protocol validated) with
          | None => Ok []
          | Some partner_fee =>
              let* factor :=
                res_expect (FeeFactor.try_from_capped
                  (F64.div (F64.of_Z (AppData.bps partner_fee)) (F64.of_Z 10000)) (max_partner_fee self)) in
              Ok [FeePolicy.Volume factor]
          end
      end
  end.
(** Without a quote the order counts as outside the market price. *)
Definition assumed_quote (order : Order) (quote : option QuoteDto.Quote) : QuoteDto.Quote :=
  default (QuoteDto.mkQuote (order_uid (metadata order)) (sell_amount (data order)) 0 (fee_amount (data order))) quote.
Definition apply (self : ProtocolFees) (order : Order) (quote : option QuoteDto.Quote)
    (surplus_capturing_jit_order_owners : list Z) : res unit AutopilotAuction.Order :=
  let* partner_fee := partner_fee_of self order in
  if bool_decide (owner (metadata order) ∈ surplus_capturing_jit_order_owners) then Ok (to_domain order partner_fee)
  else
    let d := data order in
    let order_ := OrderValidation.mkAmounts (sell_amount d) (buy_amount d) (fee_amount d) in
    let quote := assumed_quote order quote in
    let quote_ := OrderValidation.mkAmounts (QuoteDto.quote_sell quote) (QuoteDto.quote_buy quote) (QuoteDto.quote_fee quote) in
    if enable_protocol_fees self
    then apply_multiple_policies self order quote order_ quote_ partner_fee
    else apply_single_policy self order quote order_ quote_ partner_fee.
End apply.
End ProtocolFees.

(** * Capped factors *)
Section factors.
Import FeeFactor.
(** Numbers that are not negative: a zero, or a mantissa and an exponent that
    compare lexicographically. *)
Definition nonneg (x : F64.f64) : Prop :=
  match x with S754_zero _ | S754_finite false _ _ => True | _ => False end.
Definition lex_lt (m e m' e' : Z) : Prop := e < e' \/ (e = e' /\ m < m').

Lemma finite_compare m e m' e' :
  SFcompare (S754_finite false m e) (S754_finite false m' e') =
  Some (if decide (lex_lt (Zpos m) e (Zpos m') e') then Lt
        else if decide (lex_lt (Zpos m') e' (Zpos m) e) then Gt else Eq).
Proof.
  unfold lex_lt. cbn [SFcompare]. destruct (Z.compare_spec e e') as [->|H|H].
  - change (Pos.compare_cont Eq m m') with (Pos.compare m m'). destruct (Pos.compare_spec m m') as [->|H|H];
      repeat case_decide; try done; lia.
  - rewrite decide_True by lia. done.
  - rewrite decide_False, decide_True by lia. done.
Qed.

Lemma zero_is : F64.of_Z 0 = S754_zero false. Proof. reflexivity. Qed.
Lemma one_is : F64.of_Z 1 = S754_finite false 4503599627370496 (-52). Proof. reflexivity. Qed.

Lemma fmax_zero value : nonneg (fmax value (F64.of_Z 0)) \/ fmax value (F64.of_Z 0) = S754_infinity false.
Proof.
  rewrite zero_is. unfold fmax. destruct value as [s|[]| |[] m e]; cbn; auto.
Qed.

Lemma capped_between x cap : nonneg x -> nonneg cap -> SFltb cap (S754_finite false 4503599627370496 (-52)) = true ->
  F64.ltb cap x = false ->
  SFleb (S754_zero false) x = true /\ SFltb x (S754_finite false 4503599627370496 (-52)) = true /\ SFleb x cap = true.
Proof.
  unfold F64.ltb, SFltb, SFleb. generalize 4503599627370496%positive (-52). intros m0 e0 Hx Hc H1 Hlt.
  destruct x as [s| | |[] m e], cap as [s'| | |[] m' e']; try done.
  rewrite !finite_compare in *. unfold lex_lt in *. split; [done|]. repeat case_decide; try done; lia.
Qed.

(** Capping keeps the cap, and what is capped is a factor. *)
Lemma try_from_capped_spec value cap : in_range cap = true ->
  exists factor, try_from_capped value cap = Ok factor /\ in_range factor = true /\ F64.leb factor cap = true.
Proof.
  unfold try_from_capped, try_from, in_range, F64.leb, F64.ltb. intros Hcap. apply andb_prop in Hcap as [H0 H1].
  pose proof (fmax_zero value) as Hmax. set (x := fmax value (F64.of_Z 0)) in *. clearbody x. rewrite zero_is, one_is in *.
  assert (Hc : nonneg cap).
  { clear -H0 H1. destruct cap as [s|[]| |[] m e]; first [exact I|discriminate H0|discriminate H1]. }
  assert (Hself : SFleb cap cap = true).
  { clear -Hc. destruct cap as [s|s| |[] m e]; try contradiction Hc; [by destruct s|].
    unfold SFleb. rewrite finite_compare, !decide_False by (unfold lex_lt; lia). reflexivity. }
  assert (Hn : is_nan x = false) by (clear -Hmax; destruct Hmax as [H| ->]; [destruct x; [done..|contradiction H|done]|done]).
  assert (Hn' : is_nan cap = false) by (clear -Hc; by destruct cap).
  unfold fmin. rewrite Hn, Hn'.
  destruct (F64.ltb cap x) eqn:Hlt.
  - exists cap. rewrite H0, H1. done.
  - assert (Hxc : SFleb (S754_zero false) x = true /\ SFltb x (S754_finite false 4503599627370496 (-52)) = true /\ SFleb x cap = true).
    { destruct Hmax as [Hx| ->]; [|clear -Hlt Hc; exfalso; by destruct cap as [|[]| |[]]].
      apply (capped_between x cap Hx Hc H1 Hlt). }
    destruct Hxc as (Ha & Hb & Hle). exists x. rewrite Ha, Hb. split; [reflexivity|]. split; [reflexivity|exact Hle].
Qed.
End factors.

(** * Which fees are charged *)
Section charged.
Context (keccak256 : list byte -> list byte) (parse_root : list byte -> option AppData.Root).
Import ProtocolFees.

(** The fee of the partner that the app data names. *)
Definition partner (order : Order) : option AppData.PartnerFee :=
  full_app_data ← full_app_data (metadata order);
  match AppData.validate keccak256 parse_root (2 ^ 64 - 1) full_app_data with
  | Ok validated => AppData.partner_fee (AppData.protocol validated)
  | _ => None
  end.
Lemma validate_no_panic full : AppData.validate keccak256 parse_root (2 ^ 64 - 1) full <> Panic.
Proof. unfold AppData.validate. do 2 (case_match; [done|]). by destruct (parse_root full). Qed.

Lemma partner_fee_of_spec self order : FeeFactor.in_range (max_partner_fee self) = true ->
  exists fees, partner_fee_of keccak256 parse_root self order = Ok fees /\
    (match partner order with None => fees = [] | Some _ => exists f, fees = [FeePolicy.Volume f] /\
       FeeFactor.in_range f = true /\ F64.leb f (max_partner_fee self) = true end).
Proof.
  intros Hcap. unfold partner_fee_of, partner. destruct (full_app_data (metadata order)) as [full|]; [|by eexists].
  cbn [mbind option_bind]. pose proof (validate_no_panic full). destruct (AppData.validate _ _ _ _) as [v| |]; [|by eexists|done].
  destruct (AppData.partner_fee (AppData.protocol v)) as [p|]; [|by eexists].
  destruct (try_from_capped_spec (F64.div (F64.of_Z (AppData.bps p)) (F64.of_Z 10000)) (max_partner_fee self) Hcap)
    as (f & -> & Hr & Hl). cbn [res_expect rbind]. eexists. split; [done|]. by exists f.
Qed.

(** Whether a configured policy is for an order in or outside the market. *)
Definition is_for (outside : bool) (p : ProtocolFee) : bool :=
  match order_class p with FeeAny => true | FeeLimit => outside | FeeMarket => negb outside end.
Definition charge (quote : QuoteDto.Quote) (p : PolicyKind) : FeePolicy.Policy :=
  match p with
  | Surplus factor max_volume_factor => FeePolicy.Surplus factor max_volume_factor
  | PriceImprovement factor max_volume_factor => FeePolicy.PriceImprovement factor max_volume_factor (quote_from quote)
  | Volume factor => FeePolicy.Volume factor
  end.
(** The specification: only limit orders pay the configured fees; of several
    fees only the first is charged unless all are enabled, and then a partner's
    takes precedence. *)
Definition charged (self : ProtocolFees) (order : Order) (quote : QuoteDto.Quote) (outside : bool)
    (partner_fees : list FeePolicy.Policy) : list FeePolicy.Policy :=
  let configured :=
    if is_limit_order order then map (fun p => charge quote (policy p)) (List.filter (is_for outside) (fee_policies self)) else [] in
  if enable_protocol_fees self then configured ++ partner_fees
  else match partner_fees with [] => take 1 configured | fee :: _ => [fee] end.

Lemma into_policy_Ok order order_ quote_ outside p :
  OrderValidation.is_order_outside_market_price order_ quote_ (kind (data order)) = Ok (E := unit) outside ->
  protocol_fee_into_policy order order_ quote_ p = Ok (if is_for outside p then Some (policy p) else None).
Proof.
  intros H. unfold protocol_fee_into_policy, is_for. rewrite H. cbn. by destruct outside, (order_class p).
Qed.

Lemma variant_limit order quote p :
  variant_fee_apply order quote p = if is_limit_order order then Some (charge quote p) else None.
Proof.
  unfold is_limit_order, is_limit. destruct p; cbn; unfold surplus_apply, price_improvement_apply, volume_apply;
    by destruct (class (metadata order)).
Qed.

Lemma omap_policies order quote outside l :
  omap (fun policy => policy ≫= variant_fee_apply order quote)
    (map (fun p => if is_for outside p then Some (policy p) else None) l) =
  if is_limit_order order then map (fun p => charge quote (policy p)) (List.filter (is_for outside) l) else [].
Proof.
  induction l as [|p l IH]; cbn; [by case_match|]. rewrite IH. destruct (is_for outside p); cbn; [|done].
  rewrite variant_limit. by destruct (is_limit_order order).
Qed.

Lemma apply_policies self order quote order_ quote_ outside partner_fees :
  OrderValidation.is_order_outside_market_price order_ quote_ (kind (data order)) = Ok (E := unit) outside ->
  (if enable_protocol_fees self then apply_multiple_policies self order quote order_ quote_ partner_fees
   else apply_single_policy self order quote order_ quote_ partner_fees) =
  Ok (to_domain order (charged self order quote outside partner_fees)).
Proof.
  intros Hm. unfold charged. destruct (enable_protocol_fees self).
  - unfold apply_multiple_policies.
    assert (rmap (protocol_fee_into_policy order order_ quote_) (fee_policies self) =
      Ok (map (fun p => if is_for outside p then Some (policy p) else None) (fee_policies self))) as ->.
    { apply rmap_Ok, Forall2_fmap_r, Forall_Forall2_diag, Forall_forall. intros p _. by apply into_policy_Ok. }
    cbn [rbind]. by rewrite omap_policies.
  - unfold apply_single_policy. destruct partner_fees as [|fee fees]; [|done].
    assert (find_policy order order_ quote_ (fee_policies self) =
      Ok (policy <$> head (List.filter (is_for outside) (fee_policies self)))) as ->.
    { induction (fee_policies self) as [|p l IH]; cbn; [done|]. rewrite (into_policy_Ok _ _ _ outside) by done. cbn.
      by destruct (is_for outside p). }
    cbn. do 2 f_equal. destruct (List.filter _ _) as [|p l]; cbn; [by case_match|]. rewrite variant_limit.
    by destruct (is_limit_order order).
Qed.
End charged.

(** The market test does not panic; a quote that buys nothing puts the order
    outside. *)
Lemma market_test kind_ (order_ quote_ : OrderValidation.Amounts) :
  OrderValidation.sell quote_ + OrderValidation.fee quote_ <= U256_MAX ->
  exists outside, OrderValidation.is_order_outside_market_price order_ quote_ kind_ = Ok (E := unit) outside /\
    (OrderValidation.buy quote_ = 0 -> 0 < OrderValidation.sell quote_ -> 0 <= OrderValidation.fee quote_ ->
     0 < OrderValidation.buy order_ -> outside = true).
Proof.
  intros Hq. unfold OrderValidation.is_order_outside_market_price. destruct kind_.
  - unfold u_add, checked_add. rewrite (proj2 (Z.leb_le _ _) Hq). cbn. eexists. split; [done|]. intros -> ? ? ?.
    apply Z.ltb_lt. nia.
  - eexists. split; [done|]. intros -> ? ? ?. unfold checked_mul, checked_div, checked_sub. rewrite Z.mul_0_r.
    change (0 <=? U256_MAX) with true. cbn [mbind option_bind]. rewrite (proj2 (Z.eqb_neq _ 0)) by lia.
    cbn [mbind option_bind]. rewrite Zdiv_0_l. cbn [mbind option_bind Z.leb Z.compare default].
    rewrite Z.mul_0_r. apply Z.ltb_lt. nia.
Qed.


(** * A limit order outside the market price, with a partner *)
Section witnesses.
Let half : F64.f64 := F64.div (F64.of_Z 1) (F64.of_Z 2).
Let percent : F64.f64 := F64.div (F64.of_Z 1) (F64.of_Z 100).
Let keccak256 (l : list byte) : list byte := l.
(** A partner that asks for ten percent. *)
Let parse_root (l : list byte) : option AppData.Root :=
  Some (AppData.mkRoot (Some (AppData.mkProtocolAppData (AppData.mkHooks [] []) None None (Some (AppData.mkPartnerFee 1000 9)))) None).
Let self (all : bool) : ProtocolFees.ProtocolFees :=
  ProtocolFees.mkProtocolFees
    [mkProtocolFee (PriceImprovement half percent) FeeMarket; mkProtocolFee (Surplus half percent) FeeLimit;
     mkProtocolFee (Volume percent) FeeAny] percent all.
Let order : Order :=
  ModelOrder.mkOrder
    (mkOrderMetadata 0 5 77 0 0 0 0 0 false Open Limit 8 0 0 (Some []) None None None)
    (mkOrderData 1 2 None 1000 500 1000 [] 0 Sell false SellErc20 BuyErc20) ModelSignature.PreSign (mkInteractions [] []).


(** Without all fees the partner's takes precedence. *)
Example single_policy :
  res_map AutopilotAuction.protocol_fees (ProtocolFees.apply keccak256 parse_root (self false) order None []) =
  Ok [FeePolicy.Volume percent].
Proof. vm_compute. reflexivity. Qed.
End witnesses.
