(* ===== verification/SolvableOrders.v ===== *)
(** How the autopilot makes an auction of the orders in the database:
    crates/autopilot/src/solvable_orders.rs, with database/auction.rs,
    quotes.rs and order_events.rs.

    [update] is the whole pipeline, a computation over the state it shares:
    the tables, the caches of banned users and of native prices, and the
    auction it keeps. Metrics and log messages are left out. *)
From Stdlib Require Import ZArith Lia QArith Qcanon String SpecFloat.
From stdpp Require Import prelude gmap numbers sorting strings.
From S2P Require Import Prelude U256 Bytes Floats ModelOrder RemainingAmounts OrderQuoting OrderValidation OrderStore.
From S2P Require Import Estimators Caches ProtocolFees.

Open Scope Z_scope.
Open Scope rust_scope.
Import ModelSignature ModelOrder OrderValidation.

(** * database/auction.rs, quotes.rs and order_events.rs *)
Module AutopilotDb.
Record SolvableOrders : Type := mkSolvableOrders {
  orders : list Order;
  quotes : gmap Z QuoteDto.Quote;
  latest_settlement_block : Z;
}.
(** Quotes that cannot be converted are left out. *)
Definition read_quotes (db : Database.Db) (uids : list Z) : gmap Z QuoteDto.Quote :=
  list_to_map
    (omap (fun uid => row ← Database.order_quotes db !! uid;
             match QuoteDto.into_domain uid row with Ok quote => Some (uid, quote) | _ => None end) uids).
(** The two queries see the same tables. *)
Definition solvable_orders (db : Database.Db) (min_valid_to : Z) : res unit SolvableOrders :=
  let* orders := rmap OrderStoring.shared_full_order_into_model_order (Database.solvable_orders db min_valid_to) in
  Ok (mkSolvableOrders orders (read_quotes db (map (fun o => order_uid (metadata o)) orders))
        (Database.latest_settlement_block db mod 2 ^ 64)).
Definition store_order_events (db : Database.Db) (order_uids : list Z) (label : Database.OrderEventLabel) (timestamp : Z)
  : Database.Db :=
  foldl (fun db uid => Database.insert_order_event db (Database.mkOrderEvent uid timestamp label)) db order_uids.
End AutopilotDb.

(** * solvable_orders.rs *)
(** ** [OrderFilterCounter] *)
Module OrderFilterCounter.
Record OrderFilterCounter : Type := mkCounter { orders : gmap Z OrderClass; counts : gmap string Z }.
Definition uid_of (order : Order) : Z := order_uid (metadata order).
Definition new (orders : list Order) : OrderFilterCounter :=
  mkCounter (foldl (fun m order => <[uid_of order := class (metadata order)]> m) ∅ orders) ∅.
(** The orders that are not in the list any more are removed and returned. *)
Definition checkpoint (self : OrderFilterCounter) (reason : string) (remaining : list Order)
  : res unit (OrderFilterCounter * list Z) :=
  let filtered_orders := foldl (fun order_uids order => delete (uid_of order) order_uids) (orders self) remaining in
  let counts := <[reason := default 0 (counts self !! reason) + Z.of_nat (size filtered_orders)]> (counts self) in
  let keys := map fst (map_to_list filtered_orders) in
  let* orders :=
    rfold (fun m uid => match m !! uid with Some _ => Ok (delete uid m) | None => Panic end) (orders self) keys in
  Ok (mkCounter orders counts, keys).
Definition record (self : OrderFilterCounter) (remaining : list Order) : res unit (list Z) :=
  res_map snd (checkpoint self "other" remaining).
End OrderFilterCounter.

Module SolvableOrders.
Import OrderFilterCounter.
(** ** The filters *)
(** Owner and receiver; no receiver is the address zero. *)
Definition users_of (order : Order) : list Z := [owner (metadata order); default 0 (receiver (data order))].
Definition filter_banned_user_orders {C : Type} `{Banned.TimedCache C} (users : Banned.Users) (cache : C) (now : Z)
    (orders : list Order) : C * list Order :=
  let '(cache, banned) := Banned.banned users cache now (concat (map users_of orders)) in
  (cache,
   List.filter (fun order => negb (bool_decide (owner (metadata order) ∈ banned))
                             && negb (bool_decide (default 0 (receiver (data order)) ∈ banned))) orders).

Definition presignature_pending (order : Order) : bool :=
  match status (metadata order) with PresignaturePending => true | _ => false end.
Definition signature_check (order : Order) : option SignatureCheck :=
  match signature order with
  | Eip1271 signature =>
      let '(hash, signer, _) := OrderUid.parts (uid_of order) in
      Some (mkSignatureCheck signer (be_bytes 32 hash) signature (pre (interactions order)))
  | _ => None
  end.
Definition is_eip1271 (order : Order) : bool := match signature order with Eip1271 _ => true | _ => false end.
(** The validations are taken in turn; there must be one for each check. *)
Fixpoint validated (orders : list Order) (validations : list (res SignatureValidationError unit)) : res unit (list Order) :=
  match orders with
  | [] => Ok []
  | order :: orders =>
      if is_eip1271 order then
        match validations with
        | [] => Panic
        | validation :: validations =>
            let* rest := validated orders validations in
            Ok (match validation with Ok _ => order :: rest | _ => rest end)
        end
      else let* rest := validated orders validations in Ok (order :: rest)
  end.
Definition filter_invalid_signature_orders (validate_signatures : list SignatureCheck -> list (res SignatureValidationError unit))
    (orders : list Order) : res unit (list Order) :=
  let orders := List.filter (fun order => negb (presignature_pending order)) orders in
  match omap signature_check orders with
  | [] => Ok orders
  | checks => validated orders (validate_signatures checks)
  end.

(** [token_pair().unwrap()] panics when both tokens are the same. *)
Definition token_pair (d : OrderData) : option (Z * Z) :=
  match buy_token d ?= sell_token d with
  | Lt => Some (buy_token d, sell_token d)
  | Eq => None
  | Gt => Some (sell_token d, buy_token d)
  end.
(** Whether no token of the list is bad: they are looked at in turn. *)
Fixpoint all_good (bad_token : BadTokens.BadTokenDetector) (tokens : list Z) : res unit bool :=
  match tokens with
  | [] => Ok true
  | token :: tokens =>
      let* quality := bad_token token in
      if BadTokens.is_good quality then all_good bad_token tokens else Ok false
  end.
(** Every round moves on or removes an order. *)
Fixpoint unsupported_loop (fuel : nat) (bad_token : BadTokens.BadTokenDetector) (index : nat) (orders : list Order)
  : res unit (list Order) :=
  match fuel with
  | O => Ok orders
  | S fuel =>
      match orders !! index with
      | None => Ok orders
      | Some order =>
          let* '(t0, t1) := opt_expect (token_pair (data order)) in
          let* good := all_good bad_token [t0; t1] in
          if good : bool then unsupported_loop fuel bad_token (S index) orders
          else unsupported_loop fuel bad_token index (swap_remove orders index)
      end
  end.
Definition filter_unsupported_tokens (bad_token : BadTokens.BadTokenDetector) (orders : list Order) : res unit (list Order) :=
  unsupported_loop (length orders) bad_token 0 orders.

(** *** Balances: of several results for a query the last one counts. *)
Definition Balances : Type := list (BalanceQuery * Z).
Definition query_from_order (order : Order) : BalanceQuery :=
  mkBalanceQuery (owner (metadata order)) (sell_token (data order)) (sell_token_balance (data order))
    (pre (interactions order)).
Definition collect_balances (queries : list BalanceQuery) (fetched : list (res unit Z)) : Balances :=
  omap (fun '(query, balance) => match balance with Ok balance => Some (query, balance) | _ => None end) (zip queries fetched).
Definition get_balance (balances : Balances) (query : BalanceQuery) : option Z :=
  snd <$> last (filter (fun b => b.1 = query) balances).

Definition newest (a b : Order) : Prop := creation_date (metadata b) <= creation_date (metadata a).
#[export] Instance newest_dec : RelDecision newest.
Proof. intros a b. unfold newest. apply _. Defined.
Definition has_balance (balances : Balances) (order : Order) : bool :=
  match get_balance balances (query_from_order order) with
  | None => false
  | Some balance =>
      if partially_fillable (data order) && (1 <=? balance) then true
      else
        match checked_add (sell_amount (data order)) (fee_amount (data order)) with
        | None => false
        | Some needed_balance => needed_balance <=? balance
        end
  end.
Definition orders_with_balance (balances : Balances) (orders : list Order) : list Order :=
  List.filter (has_balance balances) (merge_sort newest orders).

Definition is_no_dust (balances : Balances) (order : Order) : bool :=
  if negb (partially_fillable (data order)) then true
  else
    match get_balance balances (query_from_order order) with
    | None => false
    | Some balance =>
        match RemainingAmounts.from_order_with_balance (RemainingAmounts.from_model order) balance with
        | Ok remaining =>
            match RemainingAmounts.remaining remaining (sell_amount (data order)),
              RemainingAmounts.remaining remaining (buy_amount (data order)) with
            | Ok sell_amount, Ok buy_amount => negb (sell_amount =? 0) && negb (buy_amount =? 0)
            | _, _ => false
            end
        | _ => false
        end
    end.
Definition filter_dust_orders (balances : Balances) (orders : list Order) : list Order :=
  List.filter (is_no_dust balances) orders.

(** *** Prices *)
Section prices.
Context (from_f64_lossy : F64.f64 -> Z).
Definition UINT_MAX : F64.f64 := F64.of_Z (2 ^ 256).
Definition to_normalized_price (price : F64.f64) : option Z :=
  let price_in_eth := F64.mul (F64.of_Z (10 ^ 18)) price in
  if F64.is_normal price_in_eth && F64.leb (F64.of_Z 1) price_in_eth && F64.ltb price_in_eth UINT_MAX
  then Some (from_f64_lossy price_in_eth) else None.
Definition normalized (cached : gmap Z (res PriceEstimation.PriceEstimationError F64.f64)) : gmap Z Z :=
  omap (fun result => match result with Ok price => to_normalized_price price | _ => None end) cached.
Definition get_native_prices (epoch : Z) (tokens : list Z) (now : Z) : st NativePriceCache.Inner unit (gmap Z Z) := fun inner =>
  match NativePriceCache.get_cached_prices epoch tokens now inner ∅ with
  | Ok (inner, cached) => (inner, Ok (normalized cached))
  | Err e => (inner, Err e)
  | Panic => (inner, Panic)
  end.
End prices.

(** [prioritize_missing_prices]: an [IndexSet] is extended by what is not in it. *)
Definition extend (set tokens : list Z) : list Z :=
  foldl (fun set token => if bool_decide (token ∈ set) then set else set ++ [token]) set tokens.
Definition MARKET_ORDER_AGE_MINUTES : Z := 30.
Definition most_used (a b : Z * Z) : Prop := b.2 <= a.2.
#[export] Instance most_used_dec : RelDecision most_used.
Proof. intros a b. unfold most_used. apply _. Defined.
Definition count_token (counts : gmap Z Z) (token : Z) : gmap Z Z := <[token := default 0 (counts !! token) + 1]> counts.
Definition prioritize_missing_prices (now : Z) (orders : list Order) : list Z :=
  let '(high_priority_tokens, most_used_tokens) :=
    foldl (fun '(high_priority_tokens, most_used_tokens) order =>
        let sell := sell_token (data order) in
        let buy := buy_token (data order) in
        if now - creation_date (metadata order) <=? MARKET_ORDER_AGE_MINUTES * 60
        then (extend high_priority_tokens [sell; buy], most_used_tokens)
        else (high_priority_tokens, count_token (count_token most_used_tokens sell) buy))
      ([], ∅) (merge_sort newest orders) in
  extend high_priority_tokens (map fst (merge_sort most_used (map_to_list most_used_tokens))).

(** The orders with prices, and the prices they use. *)
Definition is_priced (prices : gmap Z Z) (order : Order) : bool :=
  match prices !! sell_token (data order), prices !! buy_token (data order) with Some _, Some _ => true | _, _ => false end.
Definition use_prices (prices used : gmap Z Z) (order : Order) : gmap Z Z :=
  match prices !! sell_token (data order), prices !! buy_token (data order) with
  | Some p0, Some p1 => <[buy_token (data order) := p1]> (<[sell_token (data order) := p0]> used)
  | _, _ => used
  end.
Definition traded_tokens (orders : list Order) : list Z :=
  elements (list_to_set (concat (map (fun order => [sell_token (data order); buy_token (data order)]) orders)) : gset Z).
Definition get_orders_with_native_prices (from_f64_lossy : F64.f64 -> Z) (epoch now wall_clock : Z) (orders : list Order)
  : st NativePriceCache.Inner unit (list Order * gmap Z Z) :=
  let! prices := get_native_prices from_f64_lossy epoch (traded_tokens orders) now in
  fun inner =>
    let usable := List.filter (is_priced prices) orders in
    let filtered := List.filter (fun order => negb (is_priced prices order)) orders in
    (NativePriceCache.replace_high_priority (prioritize_missing_prices wall_clock filtered) inner,
     Ok (usable, foldl (use_prices prices) ∅ orders)).

(** Panics on a limit order whose tokens have no price. *)
Definition is_in_market (prices : gmap Z Z) (price_factor : Qc) (order : Order) : res unit bool :=
  if negb (is_limit_order order) then Ok true
  else
    let* sell_price := opt_expect (prices !! sell_token (data order)) in
    let* buy_price := opt_expect (prices !! buy_token (data order)) in
    Ok match checked_mul (sell_amount (data order)) sell_price, checked_mul (buy_amount (data order)) buy_price with
       | Some sell_native, Some buy_native =>
           bool_decide (Qc_of_Z buy_native * price_factor <= Qc_of_Z sell_native)%Qc
       | _, _ => false
       end.
Fixpoint filter_mispriced_limit_orders (prices : gmap Z Z) (price_factor : Qc) (orders : list Order) : res unit (list Order) :=
  match orders with
  | [] => Ok []
  | order :: orders =>
      let* keep := is_in_market prices price_factor order in
      let* rest := filter_mispriced_limit_orders prices price_factor orders in
      Ok (if keep : bool then order :: rest else rest)
  end.

(** ** The cache and its update *)
Record CowAmm : Type := mkCowAmm { amm_address : Z; traded_tokens_of : list Z }.
Record SolvableOrdersCache : Type := mkSolvableOrdersCache {
  min_order_validity_period : Z;
  banned_users : Banned.Users;
  balance_fetcher : list BalanceQuery -> list (res unit Z);
  bad_token_detector : BadTokens.BadTokenDetector;
  native_estimator : Z -> res PriceEstimation.PriceEstimationError F64.f64;
  signature_validator : list SignatureCheck -> list (res SignatureValidationError unit);
  weth : Z;
  limit_order_price_factor : Qc;
  protocol_fees : ProtocolFees.ProtocolFees;
  amms : list CowAmm;
}.
(** When things happen: seconds for the clock on the wall, instants for the
    caches. *)
Record Times : Type := mkTimes {
  wall_clock : Z;
  banned_at : Z;
  prices_at : Z;
  weth_at : Z;
  weth_answer : Z -> Z;
  amm_prices_at : Z;
}.
Record State (C : Type) : Type := mkState {
  db : Database.Db;
  banned_cache : C;
  native : NativePriceCache.Inner;
  auction : option AutopilotAuction.Auction;
}.
#[global] Arguments mkState {C}.
#[global] Arguments db {C}.
#[global] Arguments banned_cache {C}.
#[global] Arguments native {C}.
#[global] Arguments auction {C}.

Section update.
Context {C : Type} `{Banned.TimedCache C}.
Context (from_f64_lossy : F64.f64 -> Z) (epoch : Z).
Context (keccak256 : list byte -> list byte) (parse_root : list byte -> option AppData.Root).
Context (self : SolvableOrdersCache) (times : Times).

Definition with_native {A} (m : st NativePriceCache.Inner unit A) : st (State C) unit A := fun s =>
  let '(native, r) := m (native s) in (mkState (db s) (banned_cache s) native (auction s), r).
Definition of_res {S A} (m : res unit A) : st S unit A := st_lift m.

(** What is left of the orders, and what has become of the others. *)
Record Selection : Type := mkSelection {
  selected : list Order;
  counter : OrderFilterCounter;
  invalid_order_uids : list Z;
  filtered_order_events : list Z;
}.
Definition invalid (s : Selection) (reason : string) (orders : list Order) : res unit Selection :=
  let* '(counter, removed) := checkpoint (counter s) reason orders in
  Ok (mkSelection orders counter (invalid_order_uids s ++ removed) (filtered_order_events s)).
Definition filtered (s : Selection) (reason : string) (orders : list Order) : res unit Selection :=
  let* '(counter, removed) := checkpoint (counter s) reason orders in
  Ok (mkSelection orders counter (invalid_order_uids s) (filtered_order_events s ++ removed)).

(** The filters before the prices; the caches they use are not those of the state. *)
Definition min_valid_to : Z := (wall_clock times + min_order_validity_period self mod 2 ^ 32) mod 2 ^ 32.
Definition banned_step (orders : list Order) : st (State C) unit (list Order) := fun s =>
  let '(cache, orders) := filter_banned_user_orders (banned_users self) (banned_cache s) (banned_at times) orders in
  (mkState (db s) cache (native s) (auction s), Ok orders).
Definition select (candidates : list Order) : st (State C) unit Selection :=
  let s := mkSelection candidates (OrderFilterCounter.new candidates) [] [] in
  let! orders := banned_step (selected s) in
  let! s := of_res (invalid s "banned_user" orders) in
  let! orders := of_res (filter_invalid_signature_orders (signature_validator self) (selected s)) in
  let! s := of_res (invalid s "invalid_signature" orders) in
  let! orders := of_res (filter_unsupported_tokens (bad_token_detector self) (selected s)) in
  let! s := of_res (invalid s "unsupported_token" orders) in
  let missing_queries := map query_from_order (selected s) in
  let balances := collect_balances missing_queries (balance_fetcher self missing_queries) in
  let! s := of_res (invalid s "insufficient_balance" (orders_with_balance balances (selected s))) in
  of_res (filtered s "dust_order" (filter_dust_orders balances (selected s))).

(** The price of WETH is there even if no order needs it. *)
Definition weth_price (prices : gmap Z Z) : st (State C) unit (gmap Z Z) :=
  match prices !! weth self with
  | Some _ => of_res (Ok prices)
  | None =>
      let! price :=
        with_native (fun inner =>
          match NativePriceCache.estimate_native_price epoch (native_estimator self) (weth_answer times) (weth self)
                  (weth_at times) inner with
          | Ok (inner, r) => (inner, Ok r)
          | Err e => (inner, Err e)
          | Panic => (inner, Panic)
          end) in
      let! price := of_res (res_expect price) in
      let! price := of_res (opt_expect (to_normalized_price from_f64_lossy price)) in
      of_res (Ok (<[weth self := price]> prices))
  end.
Definition amm_prices (prices : gmap Z Z) : st (State C) unit (gmap Z Z) :=
  let tokens := concat (map traded_tokens_of (amms self)) in
  let missing := List.filter (fun token => negb (bool_decide (is_Some (prices !! token)))) (extend [] tokens) in
  let! found := with_native (get_native_prices from_f64_lossy epoch missing (amm_prices_at times)) in
  of_res (Ok (found ∪ prices)).
Definition priced (s : Selection) : st (State C) unit (Selection * gmap Z Z) :=
  let! '(orders, prices) :=
    with_native (get_orders_with_native_prices from_f64_lossy epoch (prices_at times) (wall_clock times) (selected s)) in
  let! prices := weth_price prices in
  let! prices := amm_prices prices in
  let! s := of_res (filtered s "missing_price" orders) in
  let! orders := of_res (filter_mispriced_limit_orders prices (limit_order_price_factor self) (selected s)) in
  let! s := of_res (filtered s "out_of_market" orders) in
  of_res (
    let* removed := record (counter s) orders in
    Ok (mkSelection orders (counter s) (invalid_order_uids s) (filtered_order_events s ++ removed), prices)).

(** The events are stored in the background, and whether that works is ignored. *)
Definition store_events (invalid filtered : list Z) : st (State C) unit unit := fun s =>
  let db := AutopilotDb.store_order_events (db s) invalid Database.Invalid (wall_clock times) in
  let db := AutopilotDb.store_order_events db filtered Database.Filtered (wall_clock times) in
  (mkState db (banned_cache s) (native s) (auction s), Ok tt).
Definition jit_owners (prices : gmap Z Z) : list Z :=
  map amm_address
    (List.filter (fun amm => forallb (fun token => bool_decide (is_Some (prices !! token))) (traded_tokens_of amm)) (amms self)).
Definition make_auction (block : Z) (db_orders : AutopilotDb.SolvableOrders) (orders : list Order) (prices : gmap Z Z)
  : res unit AutopilotAuction.Auction :=
  let owners := jit_owners prices in
  let* orders :=
    rmap (fun order =>
        ProtocolFees.apply keccak256 parse_root (protocol_fees self) order (AutopilotDb.quotes db_orders !! uid_of order) owners)
      orders in
  if forallb (fun p : Z * Z => bool_decide (is_Some (AutopilotAuction.price_new p.2))) (map_to_list prices)
  then Ok (AutopilotAuction.mkAuction block (AutopilotDb.latest_settlement_block db_orders) orders prices owners)
  else Err tt.
Definition update (block : Z) : st (State C) unit unit :=
  let! db_orders := fun s => (s, AutopilotDb.solvable_orders (db s) min_valid_to) in
  let! selection := select (AutopilotDb.orders db_orders) in
  let! '(selection, prices) := priced selection in
  let! _ := store_events (invalid_order_uids selection) (filtered_order_events selection) in
  let! auction := of_res (make_auction block db_orders (selected selection) prices) in
  fun s => (mkState (db s) (banned_cache s) (native s) (Some auction), Ok tt).
End update.
End SolvableOrders.

(** * Lemmas *)
Import OrderFilterCounter SolvableOrders.

(** ** The counter *)
Lemma foldl_delete_lookup {A} (m : gmap Z A) (l : list Order) k :
  foldl (fun m order => delete (uid_of order) m) m l !! k = if decide (k ∈ map uid_of l) then None else m !! k.
Proof.
  revert m. induction l as [|o l IH]; intros m; cbn [foldl map].
  - by rewrite decide_False by apply not_elem_of_nil.
  - rewrite IH. destruct (decide (k ∈ map uid_of l)) as [Hk|Hk].
    + by rewrite decide_True by (by right).
    + destruct (decide (uid_of o = k)) as [->|Hne].
      * by rewrite lookup_delete_eq, decide_True by left.
      * rewrite lookup_delete_ne by done. rewrite decide_False; [done|]. by intros [->|?]%elem_of_cons.
Qed.

Lemma elem_of_keys {A} (m : gmap Z A) k : k ∈ map fst (map_to_list m) <-> is_Some (m !! k).
Proof.
  rewrite list_elem_of_fmap. split.
  - intros ([k' a] & -> & Hin). apply elem_of_map_to_list in Hin. by exists a.
  - intros [a Ha]. exists (k, a). split; [done|]. by apply elem_of_map_to_list.
Qed.

Lemma remove_keys {A} (m : gmap Z A) l : NoDup l -> (forall k, k ∈ l -> is_Some (m !! k)) ->
  exists m', rfold (E := unit) (fun m uid => match m !! uid with Some _ => Ok (delete uid m) | None => Panic end) m l = Ok m' /\
    forall k, m' !! k = if decide (k ∈ l) then None else m !! k.
Proof.
  revert m. induction l as [|u l IH]; intros m Hnd Hin; cbn [rfold].
  { exists m. split; [done|]. intros k. by rewrite decide_False by apply not_elem_of_nil. }
  apply NoDup_cons in Hnd as [Hu Hnd]. destruct (Hin u) as [a Ha]; [by left|]. rewrite Ha. cbn [rbind].
  destruct (IH (delete u m) Hnd) as (m' & -> & Hm').
  { intros k Hk. rewrite lookup_delete_ne by set_solver. apply Hin. by right. }
  exists m'. split; [done|]. intros k. rewrite Hm'. destruct (decide (k ∈ l)) as [Hk|Hk].
  - by rewrite decide_True by (by right).
  - destruct (decide (u = k)) as [->|Hne].
    + by rewrite lookup_delete_eq, decide_True by left.
    + rewrite lookup_delete_ne by done. rewrite decide_False; [done|]. by intros [->|?]%elem_of_cons.
Qed.

(** What is known of the orders while they are filtered: the selected ones and
    those that were reported make up the candidates, and the counter has
    the selected ones. *)
Record accounted (candidates : list Order) (s : Selection) : Prop := {
  accounted_uids : map uid_of (selected s) ++ invalid_order_uids s ++ filtered_order_events s ≡ₚ map uid_of candidates;
  accounted_counter k : is_Some (orders (counter s) !! k) <-> k ∈ map uid_of (selected s);
}.

Lemma checkpoint_spec (c : OrderFilterCounter) reason (before remaining : list Order) :
  NoDup (map uid_of before) -> (forall k, is_Some (orders c !! k) <-> k ∈ map uid_of before) -> remaining ⊆+ before ->
  exists c' removed, checkpoint c reason remaining = Ok (c', removed) /\
    map uid_of remaining ++ removed ≡ₚ map uid_of before /\
    (forall k, is_Some (orders c' !! k) <-> k ∈ map uid_of remaining).
Proof.
  intros Hnd Hc Hsub. unfold checkpoint. set (gone := foldl _ (orders c) remaining).
  assert (Hgone : forall k, gone !! k = if decide (k ∈ map uid_of remaining) then None else orders c !! k)
    by (intros k; apply foldl_delete_lookup).
  assert (Hsub' : map uid_of remaining ⊆+ map uid_of before) by by apply fmap_submseteq.
  destruct (remove_keys (orders c) (map fst (map_to_list gone))) as (m' & -> & Hm').
  { apply NoDup_fst_map_to_list. }
  { intros k Hk. apply elem_of_keys in Hk. rewrite Hgone in Hk. by case_decide. }
  cbn [rbind]. eexists _, _. split; [done|].
  assert (Hkeys : forall k, k ∈ map fst (map_to_list gone) <-> (k ∉ map uid_of remaining) /\ k ∈ map uid_of before).
  { intros k. rewrite elem_of_keys, Hgone, <- Hc. case_decide; [|tauto]. split; [by intros []|tauto]. }
  split.
  - apply NoDup_Permutation; [|done|].
    + apply NoDup_app. split; [by eapply submseteq_NoDup|]. split; [|apply NoDup_fst_map_to_list].
      intros k Hk Hk'. by apply Hkeys in Hk' as [? _].
    + intros k. rewrite elem_of_app, Hkeys. split; [|destruct (decide (k ∈ map uid_of remaining)); tauto].
      intros [Hk|[_ Hk]]; [|done]. by eapply elem_of_submseteq.
  - intros k. cbn [orders]. rewrite Hm'. case_decide as Hk.
    + apply Hkeys in Hk as [Hk _]. split; [by intros []|done].
    + rewrite Hkeys in Hk. rewrite Hc. split.
      * intros Hb. destruct (decide (k ∈ map uid_of remaining)); [done|]. tauto.
      * intros Hr. by eapply elem_of_submseteq.
Qed.

(** Both kinds of checkpoints keep the accounts. *)
Lemma invalid_spec candidates s reason remaining :
  NoDup (map uid_of candidates) -> accounted candidates s -> remaining ⊆+ selected s ->
  exists s', invalid s reason remaining = Ok s' /\ accounted candidates s' /\ selected s' = remaining.
Proof.
  intros Hnd [Hu Hc] Hsub. assert (Hnd' : NoDup (map uid_of (selected s))).
  { rewrite <- Hu in Hnd. by apply NoDup_app in Hnd as [? _]. }
  destruct (checkpoint_spec (counter s) reason _ _ Hnd' Hc Hsub) as (c' & removed & Hck & Hp & Hc').
  unfold invalid. rewrite Hck. cbn. eexists. split; [done|]. split; [|done]. split; cbn; [|done].
  rewrite <- Hu, <- Hp. solve_Permutation.
Qed.
Lemma filtered_spec candidates s reason remaining :
  NoDup (map uid_of candidates) -> accounted candidates s -> remaining ⊆+ selected s ->
  exists s', filtered s reason remaining = Ok s' /\ accounted candidates s' /\ selected s' = remaining.
Proof.
  intros Hnd [Hu Hc] Hsub. assert (Hnd' : NoDup (map uid_of (selected s))).
  { rewrite <- Hu in Hnd. by apply NoDup_app in Hnd as [? _]. }
  destruct (checkpoint_spec (counter s) reason _ _ Hnd' Hc Hsub) as (c' & removed & Hck & Hp & Hc').
  unfold filtered. rewrite Hck. cbn. eexists. split; [done|]. split; [|done]. split; cbn; [|done].
  rewrite <- Hu, <- Hp. solve_Permutation.
Qed.

Lemma accounted_new candidates : NoDup (map uid_of candidates) ->
  accounted candidates (mkSelection candidates (OrderFilterCounter.new candidates) [] []).
Proof.
  intros _. split; cbn [selected invalid_order_uids filtered_order_events counter]; [by rewrite app_nil_r|].
  intros k. unfold OrderFilterCounter.new. cbn [orders].
  assert (H : forall m : gmap Z OrderClass,
    is_Some (foldl (fun m order => <[uid_of order := class (metadata order)]> m) m candidates !! k) <->
    is_Some (m !! k) \/ k ∈ map uid_of candidates).
  { induction candidates as [|o l IH]; intros m; cbn [foldl map].
    - split; [by left|]. intros [?|?%not_elem_of_nil]; done.
    - rewrite IH, lookup_insert_is_Some, elem_of_cons. destruct (decide (uid_of o = k)); naive_solver. }
  rewrite H, lookup_empty. split; [by intros [[]|]|by right].
Qed.

(** ** The filters *)
Lemma filter_keeps {A} (f : A -> bool) (l : list A) : List.filter f l ⊆+ l /\ Forall (fun x => f x = true) (List.filter f l).
Proof.
  split.
  - induction l as [|x l IH]; cbn; [done|]. case_match; [by apply submseteq_skip|by apply submseteq_cons].
  - apply Forall_forall. intros x Hx. apply list_elem_of_In, filter_In in Hx as [_ ?]. done.
Qed.

Section banned.
Context {C : Type} `{Banned.TimedCache C}.
Lemma banned_users_listed (users : Banned.Users) (cache : C) now l a :
  a ∈ l -> a ∈ Banned.banned_list users -> a ∈ (Banned.banned users cache now l).2.
Proof.
  intros Hl Hb. assert (Hin : a ∈ (list_to_set l ∩ Banned.banned_list users : gset Z)) by set_solver.
  unfold Banned.banned. destruct (Banned.onchain users) as [fetch|]; [|done].
  destruct (Banned.read_cache _ _ _) as [[c m] cached]. destruct (Banned.fill_cache _ _ _ _) as [c' fetched].
  cbn. set_solver.
Qed.
Lemma filter_banned_spec users (cache cache' : C) now orders orders' :
  filter_banned_user_orders users cache now orders = (cache', orders') ->
  orders' ⊆+ orders /\
  Forall (fun o => (owner (metadata o) ∉ Banned.banned_list users) /\
                   (default 0 (receiver (data o)) ∉ Banned.banned_list users)) orders'.
Proof.
  unfold filter_banned_user_orders. pose proof (banned_users_listed users cache now (concat (map users_of orders))) as Hb.
  destruct (Banned.banned _ _ _ _) as [c banned]. intros [= _ <-]. cbn [snd] in Hb.
  destruct (filter_keeps (fun order => negb (bool_decide (owner (metadata order) ∈ banned))
    && negb (bool_decide (default 0 (receiver (data order)) ∈ banned))) orders) as [Hs Hf].
  split; [exact Hs|]. apply Forall_forall. intros o Ho. pose proof (Forall_elem _ _ _ Hf Ho) as Hk. cbn in Hk.
  apply andb_prop in Hk as [H1 H2]. apply negb_true_iff, bool_decide_eq_false in H1, H2.
  assert (Hin : forall a, a ∈ users_of o -> a ∈ concat (map users_of orders)).
  { intros a Ha. apply list_elem_of_In, in_concat. exists (users_of o). split; [|by apply list_elem_of_In].
    apply in_map, list_elem_of_In. by eapply elem_of_submseteq. }
  split; intros Hl; [apply H1|apply H2]; apply Hb; try done; apply Hin; unfold users_of; set_solver.
Qed.
End banned.

(** An order whose contract signature is accepted. *)
Definition signed (validates : SignatureCheck -> res SignatureValidationError unit) (order : Order) : Prop :=
  presignature_pending order = false /\ forall check, signature_check order = Some check -> validates check = Ok tt.

Lemma signature_check_eip1271 o : is_eip1271 o = match signature_check o with Some _ => true | None => false end.
Proof. unfold is_eip1271, signature_check. destruct (signature o); [done..| |done]. by destruct (OrderUid.parts _) as [[? ?] ?]. Qed.

Lemma validated_spec (validates : SignatureCheck -> res SignatureValidationError unit) orders :
  (forall c, validates c <> Panic) ->
  exists out, validated orders (map validates (omap signature_check orders)) = Ok out /\ out ⊆+ orders /\
    Forall (fun o => forall check, signature_check o = Some check -> validates check = Ok tt) out.
Proof.
  intros Hp. induction orders as [|o orders (out & Hv & Hs & Hf)]; [by exists []|]. cbn [validated omap list_omap].
  rewrite signature_check_eip1271. destruct (signature_check o) as [check|] eqn:Hc; cbn [map].
  - rewrite Hv. cbn [rbind]. eexists. split; [done|]. destruct (validates check) as [[]|e|] eqn:Hval.
    + split; [by apply submseteq_skip|]. constructor; [|done]. congruence.
    + split; [by apply submseteq_cons|done].
    + by apply Hp in Hval.
  - rewrite Hv. cbn [rbind]. eexists. split; [done|]. split; [by apply submseteq_skip|]. constructor; [|done]. congruence.
Qed.

Lemma filter_invalid_signature_spec validates validate_signatures orders :
  (forall l, validate_signatures l = map validates l) -> (forall c, validates c <> Panic) ->
  exists out, filter_invalid_signature_orders validate_signatures orders = Ok out /\ out ⊆+ orders /\
    Forall (signed validates) out.
Proof.
  intros Hv Hp. unfold filter_invalid_signature_orders.
  set (os := List.filter (fun order => negb (presignature_pending order)) orders).
  destruct (filter_keeps (fun order => negb (presignature_pending order)) orders) as [Hs Hf]. fold os in Hs, Hf.
  assert (Hlift : forall out, out ⊆+ os -> Forall (fun o => forall check, signature_check o = Some check -> validates check = Ok tt) out ->
    out ⊆+ orders /\ Forall (signed validates) out).
  { intros out Ho Hc. split; [by transitivity os|]. apply Forall_forall. intros o Hin.
    split; [|by apply (Forall_elem _ _ _ Hc)]. apply negb_true_iff. apply (Forall_elem _ _ _ Hf). by eapply elem_of_submseteq. }
  destruct (omap signature_check os) as [|check checks] eqn:Hom.
  - exists os. split; [done|]. apply Hlift; [done|]. apply Forall_forall. intros o Ho check Hc.
    assert (Hin : check ∈ omap signature_check os) by (apply list_elem_of_omap; eauto).
    rewrite Hom in Hin. by apply not_elem_of_nil in Hin.
  - rewrite <- Hom, Hv. destruct (validated_spec validates os Hp) as (out & Ho & Hsub & Hval). exists out.
    split; [done|]. by apply Hlift.
Qed.

(** *** Tokens *)
Lemma take_swap_remove {A} (l : list A) i : (i < length l)%nat -> take i (swap_remove l i) = take i l.
Proof.
  intros Hi. unfold swap_remove. destruct (last l) as [x|] eqn:Hl; [|done].
  rewrite take_take, Nat.min_l by lia. by rewrite take_insert_ge by lia.
Qed.
Lemma all_good_Ok bad_token tokens : all_good bad_token tokens = Ok true -> Forall (fun t => bad_token t = Ok Good) tokens.
Proof.
  induction tokens as [|t tokens IH]; cbn; [by constructor|]. intros H. apply rbind_Ok in H as (q & Hq & H).
  destruct q; cbn in H; [|done]. constructor; [done|]. by apply IH.
Qed.
Definition supported (bad_token : BadTokens.BadTokenDetector) (order : Order) : Prop :=
  bad_token (sell_token (data order)) = Ok Good /\ bad_token (buy_token (data order)) = Ok Good.
Lemma token_pair_good (bad_token : BadTokens.BadTokenDetector) d t0 t1 :
  token_pair d = Some (t0, t1) -> Forall (fun t => bad_token t = Ok Good) [t0; t1] ->
  bad_token (sell_token d) = Ok Good /\ bad_token (buy_token d) = Ok Good.
Proof.
  unfold token_pair. rewrite !Forall_cons_iff. destruct (buy_token d ?= sell_token d); [done|..]; intros [= <- <-]; tauto.
Qed.

Lemma unsupported_loop_spec bad_token fuel i orders out :
  (length orders - i <= fuel)%nat -> Forall (supported bad_token) (take i orders) ->
  unsupported_loop fuel bad_token i orders = Ok out -> out ⊆+ orders /\ Forall (supported bad_token) out.
Proof.
  revert i orders. induction fuel as [|fuel IH]; intros i orders Hf Hg; cbn [unsupported_loop].
  { intros [= <-]. split; [done|]. rewrite take_ge in Hg by lia. exact Hg. }
  destruct (orders !! i) as [o|] eqn:Hi.
  2: { intros [= <-]. apply lookup_ge_None in Hi. split; [done|]. rewrite take_ge in Hg by lia. exact Hg. }
  assert (Hlt : (i < length orders)%nat) by by eapply lookup_lt_Some.
  intros H. apply rbind_Ok in H as ([t0 t1] & Hp & H). apply opt_expect_Ok in Hp.
  apply rbind_Ok in H as (good & Hgood & H). destruct good.
  - apply IH in H; [exact H|lia|]. rewrite (take_S_r _ _ o) by done. apply Forall_app. split; [done|].
    constructor; [|done]. by apply (token_pair_good _ _ t0 t1), all_good_Ok.
  - pose proof (swap_remove_perm orders i o Hi) as Hperm.
    apply IH in H as [Hs Hg'].
    + split; [|done]. rewrite Hs. revert Hperm. generalize (swap_remove orders i). intros l <-. by apply submseteq_cons.
    + apply Permutation_length in Hperm. cbn in Hperm. lia.
    + by rewrite take_swap_remove.
Qed.

(** *** Balances *)
(** The balance that counts is what was fetched for the query. *)
Lemma get_balance_fetched (fetches : BalanceQuery -> res unit Z) queries q b :
  get_balance (collect_balances queries (map fetches queries)) q = Some b -> fetches q = Ok b.
Proof.
  unfold get_balance, collect_balances. intros H. apply fmap_Some in H as ([q' b'] & Hl & ->).
  apply last_Some_elem_of, list_elem_of_filter in Hl as [Hq Hin]. cbn in Hq |- *. subst q'.
  apply list_elem_of_omap in Hin as ([q' r] & Hz & Hr). destruct r as [z| |]; [|done..]. injection Hr as -> ->.
  clear -Hz. induction queries as [|k queries IH]; [by apply not_elem_of_nil in Hz|]. cbn in Hz.
  apply elem_of_cons in Hz as [Hz|Hz]; [congruence|auto].
Qed.

(** An order that its owner's balance can pay for: all of it, or if it may be
    filled partially a part of it that is worth something. *)
Definition affordable (fetches : BalanceQuery -> res unit Z) (order : Order) : Prop :=
  exists balance, fetches (query_from_order order) = Ok balance /\
    if partially_fillable (data order) then
      exists remaining sell buy,
        RemainingAmounts.from_order_with_balance (RemainingAmounts.from_model order) balance = Ok remaining /\
        RemainingAmounts.remaining remaining (sell_amount (data order)) = Ok sell /\
        RemainingAmounts.remaining remaining (buy_amount (data order)) = Ok buy /\ sell <> 0 /\ buy <> 0
    else sell_amount (data order) + fee_amount (data order) <= Z.min balance U256_MAX.

Lemma balances_affordable fetches queries o :
  has_balance (collect_balances queries (map fetches queries)) o = true ->
  is_no_dust (collect_balances queries (map fetches queries)) o = true -> affordable fetches o.
Proof.
  unfold has_balance, is_no_dust, affordable. set (q := query_from_order o). set (bs := collect_balances _ _).
  destruct (get_balance bs q) as [b|] eqn:Hb; [|done]. apply get_balance_fetched in Hb as Hf. intros Hh Hd.
  exists b. split; [exact Hf|]. destruct (partially_fillable (data o)); cbn [negb andb] in *.
  - destruct (RemainingAmounts.from_order_with_balance _ b) as [r| |] eqn:Hr; [|done..].
    destruct (RemainingAmounts.remaining r (sell_amount (data o))) as [s| |] eqn:Hs; [|done..].
    destruct (RemainingAmounts.remaining r (buy_amount (data o))) as [y| |] eqn:Hy; [|done..].
    apply andb_prop in Hd as [H1 H2]. bool_to_prop. exists r, s, y. done.
  - destruct (checked_add _ _) as [n|] eqn:Hn; [|done]. apply checked_add_Some in Hn as [-> Hm]. bool_to_prop. lia.
Qed.

Lemma orders_with_balance_keeps balances orders :
  orders_with_balance balances orders ⊆+ orders /\
  Forall (fun o => has_balance balances o = true) (orders_with_balance balances orders).
Proof.
  unfold orders_with_balance. destruct (filter_keeps (has_balance balances) (merge_sort newest orders)) as [Hs Hf].
  split; [|done]. by rewrite Hs, merge_sort_Permutation.
Qed.

(** *** Prices *)
Lemma foldl_use_prices prices orders used o :
  o ∈ orders -> is_priced prices o = true ->
  is_Some (foldl (use_prices prices) used orders !! sell_token (data o)) /\
  is_Some (foldl (use_prices prices) used orders !! buy_token (data o)).
Proof.
  assert (Hmono : forall l used k, is_Some (used !! k) -> is_Some (foldl (use_prices prices) used l !! k)).
  { induction l as [|x l IH]; intros u k Hk; [done|]. cbn [foldl]. apply IH. unfold use_prices.
    destruct (prices !! sell_token (data x)), (prices !! buy_token (data x)); [|done..].
    rewrite !lookup_insert_is_Some. destruct (decide (buy_token (data x) = k)), (decide (sell_token (data x) = k)); tauto. }
  revert used. induction orders as [|x orders IH]; intros used Hin Hp; [by apply not_elem_of_nil in Hin|].
  cbn [foldl]. apply elem_of_cons in Hin as [->|Hin]; [|by apply IH].
  unfold is_priced in Hp. unfold use_prices at 2 4.
  destruct (prices !! sell_token (data x)), (prices !! buy_token (data x)); [|done..].
  split; apply Hmono; rewrite !lookup_insert_is_Some; destruct (decide (buy_token (data x) = sell_token (data x))); tauto.
Qed.

(** A limit order with a price within the factor. *)
Definition in_market (prices : gmap Z Z) (price_factor : Qc) (o : Order) : Prop :=
  is_limit_order o = true -> exists sell buy, prices !! sell_token (data o) = Some sell /\ prices !! buy_token (data o) = Some buy /\
    sell_amount (data o) * sell <= U256_MAX /\ buy_amount (data o) * buy <= U256_MAX /\
    (Qc_of_Z (buy_amount (data o) * buy) * price_factor <= Qc_of_Z (sell_amount (data o) * sell))%Qc.

Definition has_prices (prices : gmap Z Z) (o : Order) : Prop :=
  is_Some (prices !! sell_token (data o)) /\ is_Some (prices !! buy_token (data o)).

Lemma is_in_market_Ok prices factor o : is_in_market prices factor o = Ok true -> in_market prices factor o.
Proof.
  unfold is_in_market, in_market. destruct (is_limit_order o); cbn [negb]; [|done]. intros H _.
  apply rbind_Ok in H as (sell & Hs & H). apply rbind_Ok in H as (buy & Hb & H). apply opt_expect_Ok in Hs, Hb.
  exists sell, buy. destruct (checked_mul _ sell) as [s|] eqn:H1; [|done]. destruct (checked_mul _ buy) as [b|] eqn:H2; [|done].
  apply checked_mul_Some in H1 as [-> ?], H2 as [-> ?]. injection H as H. by apply bool_decide_eq_true in H.
Qed.

Lemma filter_mispriced_spec prices factor orders : Forall (has_prices prices) orders ->
  exists out, filter_mispriced_limit_orders prices factor orders = Ok out /\ out ⊆+ orders /\
    Forall (in_market prices factor) out.
Proof.
  induction orders as [|o orders IH]; intros Hp; [by exists []|]. apply Forall_cons_iff in Hp as [[[sp Hs] [bp Hb]] Hp].
  destruct (IH Hp) as (out & Ho & Hsub & Hm). cbn [filter_mispriced_limit_orders].
  assert (exists b, is_in_market prices factor o = Ok b) as [b Hmk].
  { unfold is_in_market. destruct (negb _); [by eexists|]. rewrite Hs, Hb. cbn. by eexists. }
  rewrite Hmk, Ho. cbn [rbind]. eexists. split; [done|]. destruct b.
  - split; [by apply submseteq_skip|]. constructor; [by apply is_in_market_Ok|done].
  - split; [by apply submseteq_cons|done].
Qed.

(** ** The pipeline *)
Lemma Forall_sub {A} (P : A -> Prop) (l k : list A) : l ⊆+ k -> Forall P k -> Forall P l.
Proof. intros Hs Hk. apply Forall_forall. intros x Hx. eapply Forall_elem; [exact Hk|]. by eapply elem_of_submseteq. Qed.

Section pipeline.
Context {C : Type} `{Banned.TimedCache C}.
Context (from_f64_lossy : F64.f64 -> Z) (epoch : Z).
Context (self : SolvableOrdersCache) (times : Times).
Context (validates : SignatureCheck -> res SignatureValidationError unit) (fetches : BalanceQuery -> res unit Z).
(** The validator and the fetcher answer each question for itself. *)
Context (Hvalidates : forall l, signature_validator self l = map validates l).
Context (Hno_panic : forall check, validates check <> Panic).
Context (Hfetches : forall l, balance_fetcher self l = map fetches l).

(** Only the caches change. *)
Definition same_rest (s s' : State C) : Prop := db s' = db s /\ auction s' = auction s.

Lemma with_native_Ok {A} (m : st NativePriceCache.Inner unit A) (s s' : State C) a :
  with_native m s = (s', Ok a) -> (exists inner, m (native s) = (inner, Ok a)) /\ same_rest s s'.
Proof. unfold with_native. destruct (m (native s)) as [i r]. intros [= <- ->]. split; [by exists i|done]. Qed.

Lemma of_res_Ok {S A} (m : res unit A) (s s' : S) a : of_res m s = (s', Ok a) -> s' = s /\ m = Ok a.
Proof. apply st_lift_Ok. Qed.

Record selectable (o : Order) : Prop := {
  selectable_users : (owner (metadata o) ∉ Banned.banned_list (banned_users self)) /\
    (default 0 (receiver (data o)) ∉ Banned.banned_list (banned_users self));
  selectable_signed : signed validates o;
  selectable_tokens : supported (bad_token_detector self) o;
  selectable_balance : affordable fetches o;
}.

(** The candidates are accounted for, and those that are still there have a
    property; a checkpoint adds one. *)
Record kept (candidates : list Order) (P : Order -> Prop) (s : Selection) : Prop := {
  kept_accounted : accounted candidates s;
  kept_candidates : selected s ⊆+ candidates;
  kept_property : Forall P (selected s);
}.
Lemma invalid_kept candidates P Q s s' reason remaining :
  NoDup (map uid_of candidates) -> kept candidates P s -> remaining ⊆+ selected s /\ Forall Q remaining ->
  invalid s reason remaining = Ok s' -> kept candidates (fun o => P o /\ Q o) s' /\ selected s' = remaining.
Proof.
  intros Hnd [Ha Hc Hp] [Hs Hq] Hi. destruct (invalid_spec _ _ reason _ Hnd Ha Hs) as (s1 & H1 & Ha1 & He).
  rewrite Hi in H1. injection H1 as <-. split; [|done]. rewrite <- He in Hs, Hq. split; [done|by transitivity (selected s)|].
  apply Forall_and. split; [by eapply Forall_sub|done].
Qed.
Lemma filtered_kept candidates P Q s s' reason remaining :
  NoDup (map uid_of candidates) -> kept candidates P s -> remaining ⊆+ selected s /\ Forall Q remaining ->
  filtered s reason remaining = Ok s' -> kept candidates (fun o => P o /\ Q o) s' /\ selected s' = remaining.
Proof.
  intros Hnd [Ha Hc Hp] [Hs Hq] Hi. destruct (filtered_spec _ _ reason _ Hnd Ha Hs) as (s1 & H1 & Ha1 & He).
  rewrite Hi in H1. injection H1 as <-. split; [|done]. rewrite <- He in Hs, Hq. split; [done|by transitivity (selected s)|].
  apply Forall_and. split; [by eapply Forall_sub|done].
Qed.

Lemma select_spec candidates s s' sel :
  NoDup (map uid_of candidates) -> select self times candidates s = (s', Ok sel) ->
  same_rest s s' /\ kept candidates selectable sel.
Proof.
  intros Hnd Hsel. unfold select in Hsel.
  assert (Hk : kept candidates (fun _ => True) (mkSelection candidates (OrderFilterCounter.new candidates) [] [])).
  { split; [by apply accounted_new|done|by apply Forall_forall]. }
  apply st_bind_Ok in Hsel as (st1 & o1 & Hb & Hsel). unfold banned_step in Hb.
  destruct (filter_banned_user_orders _ _ _ _) as [c1 o1'] eqn:Hban. injection Hb as <- ->. apply filter_banned_spec in Hban.
  apply st_bind_Ok in Hsel as (st2 & s1 & Hi & Hsel). apply of_res_Ok in Hi as [-> Hi].
  destruct (invalid_kept _ _ _ _ _ _ _ Hnd Hk Hban Hi) as [Hk1 _].
  apply st_bind_Ok in Hsel as (st3 & o2 & Ho2 & Hsel). apply of_res_Ok in Ho2 as [-> Ho2].
  destruct (filter_invalid_signature_spec validates _ (selected s1) Hvalidates Hno_panic) as (o2' & Ho2' & Hs2).
  rewrite Ho2' in Ho2. injection Ho2 as ->.
  apply st_bind_Ok in Hsel as (st4 & s2 & Hi2 & Hsel). apply of_res_Ok in Hi2 as [-> Hi2].
  destruct (invalid_kept _ _ _ _ _ _ _ Hnd Hk1 Hs2 Hi2) as [Hk2 _].
  apply st_bind_Ok in Hsel as (st5 & o3 & Ho3 & Hsel). apply of_res_Ok in Ho3 as [-> Ho3].
  apply unsupported_loop_spec in Ho3; [|lia|by rewrite take_0; constructor].
  apply st_bind_Ok in Hsel as (st6 & s3 & Hi3 & Hsel). apply of_res_Ok in Hi3 as [-> Hi3].
  destruct (invalid_kept _ _ _ _ _ _ _ Hnd Hk2 Ho3 Hi3) as [Hk3 _].
  rewrite Hfetches in Hsel. set (balances := collect_balances _ _) in Hsel.
  apply st_bind_Ok in Hsel as (st7 & s4 & Hi4 & Hsel). apply of_res_Ok in Hi4 as [-> Hi4].
  destruct (invalid_kept _ _ _ _ _ _ _ Hnd Hk3 (orders_with_balance_keeps balances (selected s3)) Hi4) as [Hk4 _].
  apply of_res_Ok in Hsel as [-> Hi5].
  destruct (filtered_kept _ _ _ _ _ _ _ Hnd Hk4 (filter_keeps (is_no_dust balances) (selected s4)) Hi5) as [[Ha Hc Hp] _].
  split; [done|]. split; [done|done|]. eapply Forall_impl; [exact Hp|].
  intros o (((((_ & Hu) & Hsig) & Htok) & Hbal) & Hdust). split; [done|done|done|].
  by apply (balances_affordable fetches (map query_from_order (selected s3))).
Qed.

(** The prices are only extended. *)
Definition extends (prices prices' : gmap Z Z) : Prop := forall k, is_Some (prices !! k) -> is_Some (prices' !! k).
Lemma weth_price_spec prices prices' (s s' : State C) :
  weth_price from_f64_lossy epoch self times prices s = (s', Ok prices') -> same_rest s s' /\ extends prices prices'.
Proof.
  unfold weth_price. destruct (prices !! weth self) as [p|].
  { intros Hw. apply of_res_Ok in Hw as [-> [= <-]]. split; [done|]. by intros k. }
  intros Hw. apply st_bind_Ok in Hw as (s1 & r & H1 & Hw). apply with_native_Ok in H1 as [_ H1].
  apply st_bind_Ok in Hw as (s2 & price & H2 & Hw). apply of_res_Ok in H2 as [-> _].
  apply st_bind_Ok in Hw as (s3 & z & H3 & Hw). apply of_res_Ok in H3 as [-> _].
  apply of_res_Ok in Hw as [-> [= <-]]. split; [done|]. intros k Hk. rewrite lookup_insert_is_Some.
  destruct (decide (weth self = k)); tauto.
Qed.
Lemma amm_prices_spec prices prices' (s s' : State C) :
  amm_prices from_f64_lossy epoch self times prices s = (s', Ok prices') -> same_rest s s' /\ extends prices prices'.
Proof.
  unfold amm_prices. intros Ha. apply st_bind_Ok in Ha as (s1 & found & H1 & Ha). apply with_native_Ok in H1 as [_ H1].
  apply of_res_Ok in Ha as [-> [= <-]]. split; [done|]. intros k [p Hk].
  rewrite lookup_union, Hk. destruct (found !! k); by eexists.
Qed.

Lemma get_orders_spec now wall orders_ inner inner' usable prices :
  get_orders_with_native_prices from_f64_lossy epoch now wall orders_ inner = (inner', Ok (usable, prices)) ->
  usable ⊆+ orders_ /\ Forall (has_prices prices) usable.
Proof.
  unfold get_orders_with_native_prices. intros Hg. apply st_bind_Ok in Hg as (i1 & found & _ & Hg).
  injection Hg as _ <- <-. destruct (filter_keeps (is_priced found) orders_) as [Hs Hf]. split; [done|].
  apply Forall_forall. intros o Ho. apply foldl_use_prices; [by eapply elem_of_submseteq|]. by apply (Forall_elem _ _ _ Hf).
Qed.

Lemma priced_spec candidates sel sel' prices s s' :
  NoDup (map uid_of candidates) -> kept candidates selectable sel ->
  priced from_f64_lossy epoch self times sel s = (s', Ok (sel', prices)) ->
  same_rest s s' /\
  kept candidates (fun o => selectable o /\ has_prices prices o /\ in_market prices (limit_order_price_factor self) o) sel'.
Proof.
  intros Hnd Hk Hp. unfold priced in Hp.
  apply st_bind_Ok in Hp as (s1 & [usable p1] & H1 & Hp). apply with_native_Ok in H1 as [[i Hg] R1].
  apply get_orders_spec in Hg as [Hs1 Hf1].
  apply st_bind_Ok in Hp as (s2 & p2 & H2 & Hp). apply weth_price_spec in H2 as [R2 E2].
  apply st_bind_Ok in Hp as (s3 & p3 & H3 & Hp). apply amm_prices_spec in H3 as [R3 E3].
  assert (Hf3 : Forall (has_prices p3) usable).
  { eapply Forall_impl; [exact Hf1|]. intros o [Ha Hb]. split; by apply E3, E2. }
  apply st_bind_Ok in Hp as (s4 & sel1 & H4 & Hp). apply of_res_Ok in H4 as [-> H4].
  destruct (filtered_kept _ _ _ _ _ _ _ Hnd Hk (conj Hs1 Hf3) H4) as [Hk1 He1].
  apply st_bind_Ok in Hp as (s5 & o & H5 & Hp). apply of_res_Ok in H5 as [-> H5].
  destruct (filter_mispriced_spec p3 (limit_order_price_factor self) (selected sel1)) as (o' & Ho' & Hs').
  { by rewrite He1. }
  rewrite Ho' in H5. injection H5 as ->.
  apply st_bind_Ok in Hp as (s6 & sel2 & H6 & Hp). apply of_res_Ok in H6 as [-> H6].
  destruct (filtered_kept _ _ _ _ _ _ _ Hnd Hk1 Hs' H6) as [[[Hu Hc] Hsub Hp2] He2].
  apply of_res_Ok in Hp as [-> Hp]. apply rbind_Ok in Hp as (removed & Hrec & Hp). injection Hp as <- <-.
  split; [by destruct R1, R2, R3; split; congruence|].
  assert (Hnd2 : NoDup (map uid_of (selected sel2))) by (rewrite <- Hu in Hnd; by apply NoDup_app in Hnd as [? _]).
  unfold record in Hrec. apply res_map_Ok in Hrec as ([c' r] & Hck & <-).
  destruct (checkpoint_spec (counter sel2) "other" (selected sel2) o Hnd2 Hc) as (c2 & r2 & Hck2 & Hperm & _).
  { by rewrite He2. }
  rewrite Hck in Hck2. injection Hck2 as <- <-. rewrite He2 in Hperm.
  assert (Hr : r = []).
  { apply Permutation_length in Hperm. rewrite length_app in Hperm. destruct r; [done|]. cbn in Hperm. lia. }
  subst r. split; cbn [selected invalid_order_uids filtered_order_events counter snd].
  - rewrite app_nil_r. rewrite He2 in Hu, Hc. by split.
  - by rewrite He2 in Hsub.
  - rewrite He2 in Hp2. eapply Forall_impl; [exact Hp2|]. tauto.
Qed.
End pipeline.

(** ** The auction *)
Lemma into_model_order_uid order st fee o : OrderStoring.into_model_order order st fee = Ok o -> uid_of o = Database.full_uid order.
Proof. unfold OrderStoring.into_model_order. intros H. inv_ok. done. Qed.

Lemma solvable_orders_NoDup db min_valid l :
  AutopilotDb.solvable_orders db min_valid = Ok l -> NoDup (map uid_of (AutopilotDb.orders l)).
Proof.
  unfold AutopilotDb.solvable_orders. intros H. apply rbind_Ok in H as (os & Hos & [= <-]). cbn.
  apply rmap_Ok in Hos. assert (map uid_of os = map Database.full_uid (Database.solvable_orders db min_valid)) as ->.
  { induction Hos as [|f o fs os Hf _ IH]; [done|]. cbn. rewrite IH. f_equal. by eapply into_model_order_uid. }
  unfold Database.solvable_orders. eapply submseteq_NoDup.
  - apply fmap_submseteq, filter_keeps.
  - unfold Database.full_orders. rewrite map_map. rewrite (map_ext _ fst) by (by intros []). apply NoDup_fst_map_to_list.
Qed.

Lemma fees_apply_domain keccak256 parse_root self order quote owners o :
  ProtocolFees.apply keccak256 parse_root self order quote owners = Ok o -> exists fees, o = to_domain order fees.
Proof.
  unfold ProtocolFees.apply, ProtocolFees.apply_multiple_policies, ProtocolFees.apply_single_policy. intros H.
  apply rbind_Ok in H as (partner & _ & H). case_bool_decide; [injection H as <-; by eexists|].
  destruct (ProtocolFees.enable_protocol_fees self).
  - apply rbind_Ok in H as (policies & _ & [= <-]). by eexists.
  - destruct partner; [|injection H as <-; by eexists]. apply rbind_Ok in H as (found & _ & [= <-]). by eexists.
Qed.

(** What an auction is made of. *)
Record settleable (self : SolvableOrdersCache) (validates : SignatureCheck -> res SignatureValidationError unit)
    (fetches : BalanceQuery -> res unit Z) (prices : gmap Z Z) (order : Order) : Prop := {
  settleable_order : selectable self validates fetches order;
  settleable_priced : exists sell buy, prices !! sell_token (data order) = Some sell /\
    prices !! buy_token (data order) = Some buy /\ sell <> 0 /\ buy <> 0;
  settleable_market : in_market prices (limit_order_price_factor self) order;
}.

Lemma update_spec {C : Type} `{Banned.TimedCache C} (from_f64_lossy : F64.f64 -> Z) (epoch : Z)
    (keccak256 : list byte -> list byte) (parse_root : list byte -> option AppData.Root)
    (self : SolvableOrdersCache) (times : Times) (block : Z) (s s' : State C)
    (validates : SignatureCheck -> res SignatureValidationError unit) (fetches : BalanceQuery -> res unit Z) :
  (forall l, signature_validator self l = map validates l) -> (forall check, validates check <> Panic) ->
  (forall l, balance_fetcher self l = map fetches l) ->
  update from_f64_lossy epoch keccak256 parse_root self times block s = (s', Ok tt) ->
  exists db_orders sel prices a,
    AutopilotDb.solvable_orders (db s) (min_valid_to self times) = Ok db_orders /\
    kept (AutopilotDb.orders db_orders) (settleable self validates fetches prices) sel /\
    make_auction keccak256 parse_root self block db_orders (selected sel) prices = Ok a /\ auction s' = Some a /\
    db s' = AutopilotDb.store_order_events (AutopilotDb.store_order_events (db s) (invalid_order_uids sel) Database.Invalid (wall_clock times))
              (filtered_order_events sel) Database.Filtered (wall_clock times).
Proof.
  intros Hv Hp Hf Hu. unfold update in Hu. apply st_bind_Ok in Hu as (s1 & dbo & H1 & Hu). injection H1 as <- H1.
  apply st_bind_Ok in Hu as (s2 & sel & H2 & Hu). pose proof (solvable_orders_NoDup _ _ _ H1) as Hnd.
  apply (select_spec self times validates fetches Hv Hp Hf) in H2 as [[Hd2 _] Hk2]; [|done].
  apply st_bind_Ok in Hu as (s3 & [sel' prices] & H3 & Hu).
  apply (priced_spec from_f64_lossy epoch self times validates fetches (AutopilotDb.orders dbo)) in H3 as [[Hd3 _] Hk3]; [|done..].
  apply st_bind_Ok in Hu as (s4 & [] & H4 & Hu). injection H4 as <-.
  apply st_bind_Ok in Hu as (s5 & a & H5 & Hu). apply of_res_Ok in H5 as [-> H5]. injection Hu as <-.
  exists dbo, sel', prices, a. split; [done|]. split; [|split; [done|]; cbn; split; [done|]; by rewrite Hd3, Hd2].
  destruct Hk3 as [Ha Hc Hpr]. split; [done..|]. eapply Forall_impl; [exact Hpr|]. intros o (Hs & [[p0 Hp0] [p1 Hp1]] & Hm).
  split; [done| |done]. exists p0, p1. split; [done|]. split; [done|].
  unfold make_auction in H5. apply rbind_Ok in H5 as (os & _ & H5). destruct (forallb _ _) eqn:Hall; [|done].
  rewrite forallb_forall in Hall.
  assert (Hnz : forall k p, prices !! k = Some p -> p <> 0).
  { intros k p Hkp ->.
    specialize (Hall (k, 0) (proj1 (list_elem_of_In _ _) (proj2 (elem_of_map_to_list _ _ _) Hkp))).
    apply bool_decide_eq_true in Hall as [x Hx]. discriminate Hx. }
  split; [exact (Hnz _ _ Hp0)|exact (Hnz _ _ Hp1)].
Qed.

(** C5: every order of an auction comes from the database and can be settled: its
    owner and receiver are not listed as banned, its signature is not missing and
    accepted by its contract, its tokens are supported, its owner's balance pays
    for it (for a part worth something, if it may be filled partially), the
    auction has prices for its tokens that are not zero, and as a limit order
    it is within the factor of these prices. *)
Theorem auction_orders_are_settleable {C : Type} `{Banned.TimedCache C} (from_f64_lossy : F64.f64 -> Z) (epoch : Z)
    (keccak256 : list byte -> list byte) (parse_root : list byte -> option AppData.Root)
    (self : SolvableOrdersCache) (times : Times) (block : Z) (s s' : State C)
    (validates : SignatureCheck -> res SignatureValidationError unit) (fetches : BalanceQuery -> res unit Z) :
  (forall l, signature_validator self l = map validates l) -> (forall check, validates check <> Panic) ->
  (forall l, balance_fetcher self l = map fetches l) ->
  update from_f64_lossy epoch keccak256 parse_root self times block s = (s', Ok tt) ->
  exists a db_orders, auction s' = Some a /\ AutopilotAuction.block a = block /\
    AutopilotDb.solvable_orders (db s) (min_valid_to self times) = Ok db_orders /\
    forall o, o ∈ AutopilotAuction.orders a ->
      exists order fees, order ∈ AutopilotDb.orders db_orders /\ o = to_domain order fees /\
        settleable self validates fetches (AutopilotAuction.prices a) order.
Proof.
  intros Hv Hp Hf Hu. destruct (update_spec _ _ _ _ _ _ _ _ _ _ _ Hv Hp Hf Hu) as (dbo & sel & prices & a & H1 & [_ Hc Hs] & Ha & H2 & _).
  unfold make_auction in Ha. apply rbind_Ok in Ha as (os & Hos & Ha). destruct (forallb _ _); [|done]. injection Ha as <-.
  eexists _, dbo. split; [done|]. split; [done|]. split; [done|]. cbn [AutopilotAuction.orders AutopilotAuction.prices].
  intros o Ho. apply rmap_Ok in Hos. apply list_elem_of_lookup in Ho as [i Hi].
  destruct (Forall2_lookup_r _ _ _ _ _ Hos Hi) as (order & Hord & Hap). apply list_elem_of_lookup_2 in Hord.
  apply fees_apply_domain in Hap as [fees ->]. exists order, fees. split; [by eapply elem_of_submseteq|]. split; [done|].
  by apply (Forall_elem _ _ _ Hs).
Qed.

(** C8: no order disappears: of the orders that are solvable by the database each is
    either in the auction, or reported once as invalid (its user is banned, or
    its signature, tokens or balance do not do), or reported once as filtered (it is
    dust, lacks a price or is out of the market), and the reports are what is
    logged. *)
Theorem solvable_orders_are_accounted_for {C : Type} `{Banned.TimedCache C} (from_f64_lossy : F64.f64 -> Z) (epoch : Z)
    (keccak256 : list byte -> list byte) (parse_root : list byte -> option AppData.Root)
    (self : SolvableOrdersCache) (times : Times) (block : Z) (s s' : State C)
    (validates : SignatureCheck -> res SignatureValidationError unit) (fetches : BalanceQuery -> res unit Z) :
  (forall l, signature_validator self l = map validates l) -> (forall check, validates check <> Panic) ->
  (forall l, balance_fetcher self l = map fetches l) ->
  update from_f64_lossy epoch keccak256 parse_root self times block s = (s', Ok tt) ->
  exists a db_orders invalid filtered, auction s' = Some a /\
    AutopilotDb.solvable_orders (db s) (min_valid_to self times) = Ok db_orders /\
    NoDup (map uid_of (AutopilotDb.orders db_orders)) /\
    map AutopilotAuction.order_uid (AutopilotAuction.orders a) ++ invalid ++ filtered ≡ₚ
      map uid_of (AutopilotDb.orders db_orders) /\
    db s' = AutopilotDb.store_order_events (AutopilotDb.store_order_events (db s) invalid Database.Invalid (wall_clock times))
              filtered Database.Filtered (wall_clock times).
Proof.
  intros Hv Hp Hf Hu. destruct (update_spec _ _ _ _ _ _ _ _ _ _ _ Hv Hp Hf Hu)
    as (dbo & sel & prices & a & H1 & [[Huids _] _ _] & Ha & H2 & H3).
  exists a, dbo, (invalid_order_uids sel), (filtered_order_events sel). split; [done|]. split; [done|].
  split; [by apply (solvable_orders_NoDup _ _ _ H1)|]. split; [|done]. rewrite <- Huids.
  unfold make_auction in Ha. apply rbind_Ok in Ha as (os & Hos & Ha). destruct (forallb _ _); [|done]. injection Ha as <-.
  cbn [AutopilotAuction.orders]. assert (map AutopilotAuction.order_uid os = map uid_of (selected sel)) as ->; [|done].
  apply rmap_Ok in Hos. clear -Hos. induction Hos as [|order o l os Ho _ IH]; [done|]. cbn. rewrite IH.
  by apply fees_apply_domain in Ho as [fees ->].
Qed.

(** * An auction of three orders: one is settleable, the user of another is
    banned, and the last has the balance for dust only *)
Section witnesses.
#[local] Instance no_cache : Banned.TimedCache unit := {|
  Banned.cache_get c _ _ := (c, None);
  Banned.cache_set c _ _ _ := c;
|}.
Let row (owner sell buy : Z) (partial : bool) : Database.OrderRow :=
  Database.mkOrderRow owner 90 1 2 None sell buy 2000 (zeros 32) 0 Sell partial [byte_of_Z 1] SEip1271 8 SellErc20 BuyErc20 0
    None Limit.
Let tables : Database.Db :=
  Database.set_orders no_rows {[77 := row 5 1000 500 false; 78 := row 9 1000 500 false; 79 := row 6 1000 100 true]}.
Let validates (check : SignatureCheck) : res SignatureValidationError unit := Ok tt.
Let fetches (query : BalanceQuery) : res unit Z := Ok (if balance_owner query =? 6 then 1 else 5000).
Let price : F64.f64 := F64.of_Z 1.
Let from_f64 : F64.f64 -> Z := fun x => match x with S754_finite false m e => Z.shiftl (Zpos m) e | _ => 0 end.
Let self : SolvableOrdersCache :=
  mkSolvableOrdersCache 100 (Banned.from_set {[9]}) (map fetches) (fun _ => Ok Good) (fun _ => Ok price) (map validates) 3
    1%Qc (ProtocolFees.mkProtocolFees [ProtocolFee.mkProtocolFee (ProtocolFee.Volume (F64.of_Z 0)) ProtocolFee.FeeAny] (F64.of_Z 0) true)
    [mkCowAmm 40 [1; 3]; mkCowAmm 41 [1; 4]].
Let cached (t : Z) : NativePriceCache.CachedResult := NativePriceCache.mkCachedResult (Ok price) t t.
Let s0 : State unit :=
  mkState tables tt (NativePriceCache.mkInner {[1 := cached 50; 2 := cached 60]} [] 100) None.
Let times : Times := mkTimes 1000 100 100 101 (Z.add 1) 103.
Let run := update from_f64 0 (fun l => l) (fun _ => None) self times 12 s0.

(** The auction, and the log. *)
Example three_orders :
  match run with
  | (s', Ok tt) =>
      (res_map (fun a => (map AutopilotAuction.order_uid (AutopilotAuction.orders a), map_to_list (AutopilotAuction.prices a),
                          AutopilotAuction.surplus_capturing_jit_order_owners a))
         (opt (auction s')),
       map (fun e => (Database.event_order e, Database.label e)) (Database.order_events (db s')))
  | _ => (Panic, [])
  end =
  (Ok ([77], [(3, 10 ^ 18); (2, 10 ^ 18); (1, 10 ^ 18)], [40]),
   [(78, Database.Invalid); (79, Database.Filtered)]).
Proof. vm_compute. reflexivity. Qed.

Let result : State unit := run.1.
Lemma ran : run = (result, Ok tt).
Proof. vm_compute. reflexivity. Qed.

Lemma auction_orders_are_settleable_witness : exists a o order fees,
  auction result = Some a /\ o ∈ AutopilotAuction.orders a /\ o = to_domain order fees /\
  settleable self validates fetches (AutopilotAuction.prices a) order.
Proof.
  destruct (auction_orders_are_settleable from_f64 0 (fun l => l) (fun _ => None) self times 12 s0 result validates fetches)
    as (a & dbo & Ha & _ & _ & Hall).
  - reflexivity.
  - discriminate.
  - reflexivity.
  - exact ran.
  - assert (Hne : exists o l, AutopilotAuction.orders a = o :: l).
    { assert (E : match auction result with Some a => length (AutopilotAuction.orders a) | None => O end = 1%nat) by (vm_compute; reflexivity).
      rewrite Ha in E. destruct (AutopilotAuction.orders a) as [|o l]; [discriminate E|]. by exists o, l. }
    destruct Hne as (o & l & Hl). destruct (Hall o) as (order & fees & _ & Ho & Hs); [rewrite Hl; left|].
    exists a, o, order, fees. split; [exact Ha|]. split; [rewrite Hl; left|]. split; [exact Ho|exact Hs].
Defined.

Lemma solvable_orders_are_accounted_for_witness : exists a db_orders invalid filtered, auction result = Some a /\
  AutopilotDb.solvable_orders tables 1100 = Ok db_orders /\
  map AutopilotAuction.order_uid (AutopilotAuction.orders a) ++ invalid ++ filtered ≡ₚ map uid_of (AutopilotDb.orders db_orders).
Proof.
  destruct (solvable_orders_are_accounted_for from_f64 0 (fun l => l) (fun _ => None) self times 12 s0 result validates fetches)
    as (a & dbo & i & f & Ha & Hd & _ & Hp & _).
  - reflexivity.
  - discriminate.
  - reflexivity.
  - exact ran.
  - exists a, dbo, i, f. split; [exact Ha|]. split; [exact Hd|exact Hp].
Defined.
End witnesses.
