(* ===== verification/SettlementIndex.v ===== *)
(** How the autopilot follows the settlement contract: the tables of its logs
    (crates/database/src/events.rs, settlements.rs, settlement_observations.rs,
    order_execution.rs), the conversion of logs (autopilot/src/database/
    events.rs), the store the event handler feeds (boundary/events/settlement.rs)
    and the task that finds the auction of every settlement
    (on_settlement_event_updater.rs).

    The store is an instance of the class [EventStoring] of EventHandling.v. The
    task is split where another transaction can come in between: [prepare]
    reads, [apply] writes. *)
From Stdlib Require Import ZArith Lia QArith Qcanon.
From stdpp Require Import prelude gmap numbers.
From S2P Require Import Prelude U256 Bytes EventHandling ModelOrder OrderStore SettlementEncoder DecodedSettlement.
From S2P Require Import SolvableOrders.

Open Scope Z_scope.
Open Scope rust_scope.
Import Database.

(** * Tables keyed by the place of a log *)
Definition I64_MAX : Z := 2 ^ 63 - 1.
(** ON CONFLICT DO NOTHING *)
Definition insert_new {K A} `{Countable K} (t : gmap K A) (i : K) (a : A) : gmap K A :=
  match t !! i with Some _ => t | None => <[i := a]> t end.
(** DELETE ... WHERE block_number >= from *)
Definition delete_from {A} (t : gmap EventIndex A) (from : Z) : gmap EventIndex A :=
  filter (fun row => ~ Z.min from I64_MAX <= row.1.1) t.

(** * crates/database/src/events.rs *)
Module EventsDb.
Inductive Event : Type :=
| Trade (trade : TradeRow)
| Invalidation (order_uid : Z)
| Settlement (solver transaction_hash : Z)
| PreSignature (event : PresignatureRow).

Definition set_logs (self : Indexed) (t : gmap EventIndex TradeRow) (i : gmap EventIndex Z)
    (p : gmap EventIndex PresignatureRow) (s : gmap EventIndex SettlementRow) : Indexed :=
  mkIndexed t i p s (settlement_observations self) (order_execution self) (onchain_placed_orders self)
    (onchain_order_invalidations self) (ethflow_orders self) (ethflow_refunds self).
Definition insert (index : EventIndex) (event : Event) (self : Indexed) : Indexed :=
  let set := set_logs self in
  match event with
  | Trade t => set (insert_new (trades self) index t) (invalidations self) (presignature_events self) (settlements self)
  | Invalidation uid =>
      set (trades self) (insert_new (invalidations self) index uid) (presignature_events self) (settlements self)
  | Settlement solver hash =>
      set (trades self) (invalidations self) (presignature_events self)
        (insert_new (settlements self) index (mkSettlementRow solver hash None))
  | PreSignature p =>
      set (trades self) (invalidations self) (insert_new (presignature_events self) index p) (settlements self)
  end.
Definition append (self : Indexed) (events : list (EventIndex * Event)) : Indexed :=
  foldl (fun self '(index, event) => insert index event self) self events.
Definition delete (self : Indexed) (from : Z) : Indexed :=
  set_logs self (delete_from (trades self) from) (delete_from (invalidations self) from)
    (delete_from (presignature_events self) from) (delete_from (settlements self) from).
Definition last_block (self : Indexed) : Z :=
  foldr Z.max (max_block (trades self))
    [max_block (settlements self); max_block (invalidations self); max_block (presignature_events self)].
End EventsDb.

(** * settlements.rs, settlement_observations.rs and order_execution.rs *)
Module SettlementsDb.
Record SettlementEvent : Type := mkSettlementEvent { event_index : EventIndex; event_tx_hash : Z }.

Definition set_settlements (self : Indexed) (s : gmap EventIndex SettlementRow) : Indexed :=
  EventsDb.set_logs self (trades self) (invalidations self) (presignature_events self) s.
Definition set_details (self : Indexed) (o : gmap EventIndex Observation) (e : gmap (Z * Z) (option Z * Z)) : Indexed :=
  mkIndexed (trades self) (invalidations self) (presignature_events self) (settlements self) o e
    (onchain_placed_orders self) (onchain_order_invalidations self) (ethflow_orders self) (ethflow_refunds self).

(** ORDER BY block_number: the settlements in the first block of those without
    an auction; LIMIT 1 takes one of them. *)
Definition without_auction (self : Indexed) : list SettlementEvent :=
  omap (fun '(i, row) => match auction_id row with None => Some (mkSettlementEvent i (tx_hash row)) | Some _ => None end)
    (map_to_list (settlements self)).
Definition in_first_block (events : list SettlementEvent) : list SettlementEvent :=
  List.filter (fun e => forallb (fun e' => (event_index e).1 <=? (event_index e').1) events) events.
Definition get_settlement_without_auction (limit_1 : list SettlementEvent -> option SettlementEvent) (self : Indexed)
  : option SettlementEvent := limit_1 (in_first_block (without_auction self)).
Definition of_auction (self : Indexed) (id : Z) : list (EventIndex * SettlementRow) :=
  filter (fun row => auction_id row.2 = Some id) (map_to_list (settlements self)).
Definition already_processed (self : Indexed) (id : Z) : bool := 1 <=? Z.of_nat (length (of_auction self id)).
Definition update_settlement_auction (self : Indexed) (index : EventIndex) (id : Z) : Indexed :=
  set_settlements self
    (alter (fun row => mkSettlementRow (settlement_solver row) (tx_hash row) (Some id)) index (settlements self)).
(** Deletes what was derived from the settlements of reorganized blocks. *)
Definition delete (self : Indexed) (from : Z) : Indexed :=
  set_details self (delete_from (settlement_observations self) from)
    (filter (fun row => ~ Z.min from I64_MAX <= row.2.2) (order_execution self)).
Definition upsert (self : Indexed) (index : EventIndex) (observation : Observation) : Indexed :=
  set_details self (<[index := observation]> (settlement_observations self)) (order_execution self).
Definition save (self : Indexed) (order auction block_number executed_fee : Z) : Indexed :=
  set_details self (settlement_observations self)
    (<[(order, auction) := (Some executed_fee, block_number)]> (order_execution self)).
End SettlementsDb.

(** * autopilot/src/database/events.rs *)
Module ContractEvents.
(** What the code reads of the events of the settlement contract. *)
Inductive ContractEvent : Type :=
| Trade (order_uid : list byte) (sell_amount buy_amount fee_amount : Z)
| Settlement (solver : Z)
| OrderInvalidated (order_uid : list byte)
| PreSignature (owner : Z) (order_uid : list byte) (signed : bool)
| Interaction.
(** An event with the rest of its metadata. *)
Record Log : Type := mkLog { contract_event : ContractEvent; transaction_hash : Z }.

Definition meta_to_event_index (meta : Z * N) : EventIndex := (Z.min meta.1 I64_MAX, Z.min (Z.of_N meta.2) I64_MAX).
Definition bytes_to_order_uid (bytes : list byte) : res unit Z :=
  if (length bytes =? 56)%nat then Ok (from_be_bytes bytes) else Err tt.
Definition convert (log : Log) : res unit (option EventsDb.Event) :=
  match contract_event log with
  | Trade order_uid sell buy fee =>
      let* uid := bytes_to_order_uid order_uid in Ok (Some (EventsDb.Trade (mkTradeRow uid buy sell fee)))
  | Settlement solver => Ok (Some (EventsDb.Settlement solver (transaction_hash log)))
  | OrderInvalidated order_uid => let* uid := bytes_to_order_uid order_uid in Ok (Some (EventsDb.Invalidation uid))
  | PreSignature owner order_uid signed =>
      let* uid := bytes_to_order_uid order_uid in Ok (Some (EventsDb.PreSignature (mkPresignatureRow owner uid signed)))
  | Interaction => Ok None
  end.
(** Interactions are left out; one event that cannot be converted fails all. *)
Fixpoint contract_to_db_events (events : list (Event Log)) : res unit (list (EventIndex * EventsDb.Event)) :=
  match events with
  | [] => Ok []
  | event :: events =>
      match meta event with
      | None => Err tt
      | Some meta =>
          let* converted := convert (data event) in
          let* rest := contract_to_db_events events in
          Ok (match converted with Some e => (meta_to_event_index meta, e) :: rest | None => rest end)
      end
  end.
End ContractEvents.

(** * boundary/events/settlement.rs: a transaction that fails changes nothing *)
Module Indexer.
Import ContractEvents.
Definition append_events (self : Db) (events : list (Event Log)) : Db * bool :=
  match contract_to_db_events events with
  | Ok events => (set_indexed self (EventsDb.append (indexed self) events), true)
  | _ => (self, false)
  end.
Definition replace_events (self : Db) (events : list (Event Log)) (range : CurrentBlock.RangeInclusive) : Db * bool :=
  match contract_to_db_events events with
  | Ok events =>
      let from_block := CurrentBlock.start range in
      let tables := EventsDb.append (EventsDb.delete (indexed self) from_block) events in
      (set_indexed self (SettlementsDb.delete tables from_block), true)
  | _ => (self, false)
  end.
Definition last_event_block (self : Db) : option Z :=
  let block := EventsDb.last_block (indexed self) in if 0 <=? block then Some block else None.
#[global] Instance indexing : EventStoring Log Db := {
  EventHandling.replace_events := replace_events;
  EventHandling.append_events := append_events;
  EventHandling.last_event_block := last_event_block;
}.
End Indexer.

(** * on_settlement_event_updater.rs, and database/on_settlement_event_updater.rs *)
Module Updater.
Import SettlementsDb.
Record Transaction : Type := mkTransaction { solver : Z; input : list byte; gas : Z; gas_price : Z }.
Record AuctionData : Type := mkAuctionData {
  data_gas_used : Z;
  data_effective_gas_price : Z;
  data_surplus : Z;
  data_fee : Z;
  order_executions : list (Z * Z);
}.
Record SettlementUpdate : Type := mkSettlementUpdate {
  update_index : EventIndex;
  update_auction : Z;
  auction_data : option AuctionData;
}.
Inductive AuctionIdRecoveryStatus : Type :=
| AddAuctionData (id : Z) (settlement : DecodedSettlement.DecodedSettlement)
| DoNotAddAuctionData (id : Z)
| InvalidCalldata.
(** [i64::from_be_bytes] *)
Definition i64_from_be_bytes (bytes : list byte) : Z :=
  let z := from_be_bytes bytes in if z <? 2 ^ 63 then z else z - 2 ^ 64.

Section updater.
Context (keccak256 : list byte -> list byte) (ec_recover : list byte -> Z -> Z -> Z -> option Z).
Context (selector : list byte) (decode_input : list byte -> option EncodedSettlement.EncodedSettlement).
(** The node, and the tables of the competitions: the winner of an auction, the
    prices and orders it had, and the owners of its JIT orders. *)
Context (domain_separator : list byte) (weth : Z) (transaction : Z -> option Transaction).
Context (winner : Z -> option Z) (find_competition : Z -> option (gmap Z Z * list Z)) (jit_owners : Z -> option (list Z)).
Context (limit_1 : list SettlementEvent -> option SettlementEvent).

Definition recover_auction_id_from_calldata (db : Db) (tx : Transaction) : res unit AuctionIdRecoveryStatus :=
  match DecodedSettlement.new keccak256 ec_recover selector decode_input (input tx) domain_separator with
  | Panic => Panic
  | Err _ => Ok InvalidCalldata
  | Ok settlement =>
      match DecodedSettlement.metadata settlement with
      | None => Ok InvalidCalldata
      | Some bytes =>
          let id := i64_from_be_bytes bytes in
          Ok match winner id, already_processed (indexed db) id with
             | None, _ => DoNotAddAuctionData id
             | Some _, true => DoNotAddAuctionData id
             | Some winner, false => if negb (winner =? solver tx) then DoNotAddAuctionData id else AddAuctionData id settlement
             end
      end
  end.
Definition fetch_auction_data (settlement : DecodedSettlement.DecodedSettlement) (id : Z) (tx : Transaction) : res unit AuctionData :=
  let* ' (prices, orders) := opt (find_competition id) in
  let* external_prices := ExternalPrices.try_from_auction_prices weth prices in
  let owners := default [] (jit_owners id) in
  let* surplus := DecodedSettlement.total_surplus settlement external_prices (list_to_set orders) (list_to_set owners) in
  let* all_fees := DecodedSettlement.all_fees settlement external_prices in
  let* fee := rfold (fun acc fees => u_add acc (DecodedSettlement.fees_native fees)) 0 all_fees in
  let executions :=
    map (fun fee => (DecodedSettlement.fees_order fee, default 0 (DecodedSettlement.executed_surplus_fee fee))) all_fees in
  Ok (mkAuctionData (gas tx) (gas_price tx) surplus fee executions).

(** The reading part of [update]. *)
Definition prepare (db : Db) : res unit (option SettlementUpdate) :=
  match get_settlement_without_auction limit_1 (indexed db) with
  | None => Ok None
  | Some event =>
      match transaction (event_tx_hash event) with
      | None => Ok None
      | Some tx =>
          let* status := recover_auction_id_from_calldata db tx in
          let* ' (id, data) :=
            match status with
            | InvalidCalldata => Ok (0, None)
            | DoNotAddAuctionData id => Ok (id, None)
            | AddAuctionData id settlement => let* data := fetch_auction_data settlement id tx in Ok (id, Some data)
            end in
          Ok (Some (mkSettlementUpdate (event_index event) id data))
      end
  end.
Definition observation_of (data : AuctionData) : Observation :=
  mkObservation (data_gas_used data) (data_effective_gas_price data) (data_surplus data) (data_fee data).
(** [update_settlement_details] at the time [now] *)
Definition save_execution (id block : Z) (self : Indexed) (execution : Z * Z) : Indexed :=
  save self execution.1 id block execution.2.
Definition apply (now : Z) (db : Db) (update : SettlementUpdate) : Db :=
  let db := set_indexed db (update_settlement_auction (indexed db) (update_index update) (update_auction update)) in
  match auction_data update with
  | None => db
  | Some data =>
      let db := set_indexed db (upsert (indexed db) (update_index update) (observation_of data)) in
      let db := AutopilotDb.store_order_events db (map fst (order_executions data)) Traded now in
      set_indexed db
        (foldl (save_execution (update_auction update) (update_index update).1) (indexed db) (order_executions data))
  end.
(** Whether an update was performed. *)
Definition update (now : Z) (db : Db) : res unit (Db * bool) :=
  let* prepared := prepare db in
  match prepared with
  | None => Ok (db, false)
  | Some update => Ok (apply now db update, true)
  end.
(** [listen_for_updates] until it waits for the next notification; an error is
    logged. *)
Fixpoint listen_for_updates (fuel : nat) (now : Z) (db : Db) : res unit Db :=
  match fuel with
  | O => Ok db
  | S fuel =>
      match update now db with
      | Ok (db, true) => listen_for_updates fuel now db
      | Ok (db, false) => Ok db
      | Err _ => Ok db
      | Panic => Panic
      end
  end.

(** What happens to the tables: the event handler stores logs, the task
    updates; an update that fails changes nothing. *)
Inductive IndexOp : Type :=
| Appended (events : list (Event ContractEvents.Log))
| Replaced (events : list (Event ContractEvents.Log)) (range : CurrentBlock.RangeInclusive)
| Updated (now : Z).
Definition index_op (db : Db) (op : IndexOp) : res unit Db :=
  match op with
  | Appended events => Ok (Indexer.append_events db events).1
  | Replaced events range => Ok (Indexer.replace_events db events range).1
  | Updated now => match update now db with Ok (db, _) => Ok db | Err _ => Ok db | Panic => Panic end
  end.
Definition index_ops (db : Db) (ops : list IndexOp) : res unit Db := rfold index_op db ops.
End updater.
End Updater.

(** * The tables mirror the logs *)
Section tables.
Import EventsDb.

(** The rows made of the events by [f] are those of the table. *)
Definition table_of {A} (t : gmap EventIndex A) (f : A -> EventsDb.Event) (rows : list (EventIndex * EventsDb.Event)) : Prop :=
  forall i a, t !! i = Some a <-> (i, f a) ∈ rows.
Definition settled (row : SettlementRow) : Z * Z := (settlement_solver row, tx_hash row).
Definition mirrors (self : Indexed) (rows : list (EventIndex * EventsDb.Event)) : Prop :=
  table_of (trades self) EventsDb.Trade rows /\ table_of (invalidations self) EventsDb.Invalidation rows /\
  table_of (presignature_events self) EventsDb.PreSignature rows /\
  table_of (settled <$> settlements self) (uncurry EventsDb.Settlement) rows.

#[export] Instance mirrors_perm self : Proper ((≡ₚ) ==> iff) (mirrors self).
Proof. intros l l' Hl. unfold mirrors, table_of. by setoid_rewrite Hl. Qed.

Lemma table_insert_same {A} (t : gmap EventIndex A) f rows i a :
  Inj (=) (=) f -> table_of t f rows -> i ∉ map fst rows -> table_of (insert_new t i a) f (rows ++ [(i, f a)]).
Proof.
  intros Hf Ht Hi j b. assert (Hn : t !! i = None).
  { destruct (t !! i) as [x|] eqn:Hx; [|done]. apply Ht in Hx. destruct Hi. by apply (list_elem_of_fmap_2 fst _ _ Hx). }
  unfold insert_new. rewrite Hn, elem_of_app, list_elem_of_singleton. destruct (decide (j = i)) as [->|Hne].
  - rewrite lookup_insert_eq. split; [intros [= ->]; by right|].
    intros [Hr|[= Hr]]; [|by apply Hf in Hr as ->]. apply Ht in Hr. by rewrite Hn in Hr.
  - rewrite lookup_insert_ne by done. rewrite (Ht j b). split; [by left|]. intros [?|[= ? ?]]; done.
Qed.

Lemma table_insert_other {A} (t : gmap EventIndex A) f rows i e :
  table_of t f rows -> (forall a, f a <> e) -> table_of t f (rows ++ [(i, e)]).
Proof.
  intros Ht Hne j b. rewrite elem_of_app, list_elem_of_singleton, (Ht j b).
  split; [by left|]. intros [?|[= _ He]]; [done|by destruct (Hne b)].
Qed.

Lemma table_delete {A} (t : gmap EventIndex A) f rows from :
  table_of t f rows -> table_of (delete_from t from) f (filter (fun row => ~ Z.min from I64_MAX <= row.1.1) rows).
Proof.
  intros Ht i a. unfold delete_from. rewrite map_lookup_filter_Some, list_elem_of_filter, (Ht i a). cbn. tauto.
Qed.

#[local] Instance trade_inj : Inj (=) (=) EventsDb.Trade. Proof. by intros ? ? [=]. Qed.
#[local] Instance invalidation_inj : Inj (=) (=) EventsDb.Invalidation. Proof. by intros ? ? [=]. Qed.
#[local] Instance presignature_inj : Inj (=) (=) EventsDb.PreSignature. Proof. by intros ? ? [=]. Qed.
#[local] Instance settlement_inj : Inj (=) (=) (uncurry EventsDb.Settlement). Proof. by intros [] [] [= -> ->]. Qed.

Lemma settled_insert_new (t : gmap EventIndex SettlementRow) i row :
  settled <$> insert_new t i row = insert_new (settled <$> t) i (settled row).
Proof. unfold insert_new. rewrite lookup_fmap. destruct (t !! i); [done|]. apply fmap_insert. Qed.
Lemma settled_delete_from (t : gmap EventIndex SettlementRow) from :
  settled <$> delete_from t from = delete_from (settled <$> t) from.
Proof.
  unfold delete_from. apply map_eq. intros i. rewrite lookup_fmap, !map_lookup_filter, lookup_fmap.
  destruct (t !! i) as [row|]; [|done]. cbn. by case_guard.
Qed.

Lemma insert_mirrors self rows i e :
  mirrors self rows -> i ∉ map fst rows -> mirrors (EventsDb.insert i e self) (rows ++ [(i, e)]).
Proof.
  intros (H1 & H2 & H3 & H4) Hi. destruct e as [t|uid|s h|p]; unfold mirrors; cbn; rewrite ?settled_insert_new; split_and!;
    try (by apply table_insert_same; [apply _| |]); try (apply table_insert_other; [done|by intros []]).
  exact (table_insert_same _ _ _ i (s, h) _ H4 Hi).
Qed.
Lemma append_mirrors self rows new :
  mirrors self rows -> NoDup (map fst (rows ++ new)) -> mirrors (EventsDb.append self new) (rows ++ new).
Proof.
  revert self rows. induction new as [|[i e] new IH]; intros self rows Hm Hn; [by rewrite app_nil_r|].
  rewrite (cons_middle (i, e)), app_assoc in *. apply IH; [|done]. apply insert_mirrors; [done|].
  rewrite !map_app in Hn. apply list.NoDup_app in Hn as [Hn _]. apply list.NoDup_app in Hn as (_ & Hn & _).
  intros Hin. apply (Hn i Hin). by left.
Qed.
Lemma delete_mirrors self rows from :
  mirrors self rows -> mirrors (EventsDb.delete self from) (filter (fun row => ~ Z.min from I64_MAX <= row.1.1) rows).
Proof.
  intros (H1 & H2 & H3 & H4). unfold mirrors. cbn. rewrite settled_delete_from. by split_and!; apply table_delete.
Qed.
End tables.

(** ** The store keeps the promise of the event handler *)
Section laws.
Import ContractEvents.
Implicit Types (e : Event Log) (l evs : list (Event Log)).

(** The row an event is kept as, if any. *)
Definition row_of e : option (EventIndex * EventsDb.Event) :=
  i ← meta e; match convert (data e) with Ok (Some d) => Some (meta_to_event_index i, d) | _ => None end.
(** The tables are those of the events. *)
Definition holds (db : Db) l : Prop := EventHandling.placed l /\ mirrors (indexed db) (omap row_of l).

#[export] Instance holds_perm db : Proper ((≡ₚ) ==> iff) (holds db).
Proof.
  intros l l' Hl. unfold holds. assert (Hm : mirrors (indexed db) (omap row_of l) <-> mirrors (indexed db) (omap row_of l')) by (by rewrite Hl).
  rewrite Hm. split; (intros [Hp ?]; split; [|done]); by eapply placed_perm.
Qed.

Lemma rows_cons e l :
  omap row_of (e :: l) = match row_of e with Some row => row :: omap row_of l | None => omap row_of l end.
Proof. done. Qed.

Lemma contract_to_db_events_Ok evs rows : contract_to_db_events evs = Ok rows -> rows = omap row_of evs.
Proof.
  revert rows. induction evs as [|e evs IH]; intros rows H; cbn in H; [by injection H as <-|].
  rewrite rows_cons. unfold row_of at 1. destruct (meta e) as [i|]; [|done].
  apply rbind_Ok in H as (converted & Hc & H). apply rbind_Ok in H as (rest & Hr & H). injection H as <-.
  cbn [mbind option_bind]. rewrite Hc, (IH rest Hr). by destruct converted.
Qed.

Lemma row_of_index e row : row_of e = Some row -> exists i, meta e = Some i /\ row.1 = meta_to_event_index i.
Proof.
  unfold row_of. destruct (meta e) as [i|]; cbn; [|done]. destruct (convert (data e)) as [[d|]| |]; [|done..].
  intros [= <-]. by exists i.
Qed.
Lemma index_fits i : fits_i64 i -> meta_to_event_index i = (i.1, Z.of_N i.2).
Proof. intros [H1 H2]. unfold meta_to_event_index, I64_MAX. f_equal; lia. Qed.

Lemma rows_NoDup l : EventHandling.placed l -> NoDup (map fst (omap row_of l)).
Proof.
  intros (Hp & Hn & _). induction l as [|e l IH]; [constructor|]. rewrite rows_cons.
  apply Forall_cons_iff in Hp as [He Hp]. cbn in Hn. apply list.NoDup_cons in Hn as [Hni Hn]. specialize (IH Hp Hn).
  destruct (row_of e) as [row|] eqn:Hr; [|done]. cbn. apply list.NoDup_cons. split; [|done].
  intros Hin. destruct Hni. apply row_of_index in Hr as (i & Hi & Hrow). rewrite Hi.
  apply (list_elem_of_fmap_1 fst) in Hin as (row' & Heq & (e' & He' & Hr')%list_elem_of_omap).
  apply row_of_index in Hr' as (i' & Hi' & Hrow').
  assert (i = i') as ->; [|rewrite <- Hi'; by apply (list_elem_of_fmap_2 meta)].
  rewrite Hrow, Hrow' in Heq. destruct He as (j & Hj & Hf). rewrite Hi in Hj. injection Hj as <-.
  destruct (proj1 (Forall_forall _ _) Hp e' ltac:(by apply list_elem_of_In)) as (j & Hj & Hf').
  rewrite Hi' in Hj. injection Hj as <-. rewrite !index_fits in Heq by done.
  destruct i, i'. injection Heq as -> Heq. cbn in *. f_equal. lia.
Qed.

Lemma rows_before l n : EventHandling.placed l ->
  omap row_of (before n l) = filter (fun row => ~ Z.min n I64_MAX <= row.1.1) (omap row_of l).
Proof.
  intros [Hp _]. unfold before. induction l as [|e l IH]; [done|]. apply Forall_cons_iff in Hp as [(i & Hi & Hf) Hp].
  specialize (IH Hp). rewrite filter_cons, rows_cons. destruct (row_of e) as [row|] eqn:Hr.
  - apply row_of_index in Hr as Hrow. destruct Hrow as (i' & Hi' & Hrow). rewrite Hi in Hi'. injection Hi' as <-.
    rewrite index_fits in Hrow by done. rewrite filter_cons.
    assert (Hb : event_block e = i.1) by (unfold event_block; rewrite Hi; by destruct i).
    rewrite Hb, Hrow. destruct i as [b j], Hf. cbn [fst snd] in *. unfold I64_MAX in *.
    destruct (decide (b < n)), (decide (~ Z.min n (2 ^ 63 - 1) <= b)); [|lia..|done].
    by rewrite rows_cons, Hr, IH.
  - rewrite <- IH. case_decide; [|done]. by rewrite rows_cons, Hr.
Qed.

(** What the tables say about the events, read back. *)
Lemma row_elem l b li d : EventHandling.placed l ->
  ((b, Z.of_N li), d) ∈ omap row_of l <->
  exists x, mkEvent (Some (b, li)) x ∈ l /\ convert x = Ok (Some d).
Proof.
  intros [Hp _]. rewrite list_elem_of_omap. split.
  - intros (e & He & Hr). destruct (proj1 (Forall_forall _ _) Hp e ltac:(by apply list_elem_of_In)) as (i & Hi & Hf).
    unfold row_of in Hr. rewrite Hi in Hr. cbn in Hr. rewrite index_fits in Hr by done.
    destruct (convert (data e)) as [[d'|]| |] eqn:Hc; [|done..]. injection Hr as Hb Hli <-.
    exists (data e). split; [|done]. destruct i as [b' li'], e as [m x]. cbn in *. subst.
    by assert (li' = li) as <- by lia.
  - intros (e & He & Hc). exists (mkEvent (Some (b, li)) e). split; [done|].
    destruct (proj1 (Forall_forall _ _) Hp _ (proj1 (list_elem_of_In _ _) He)) as (i & [= <-] & Hf).
    unfold row_of. cbn. by rewrite Hc, index_fits.
Qed.
Lemma convert_trade x uid buy sell fee : convert x = Ok (Some (EventsDb.Trade (mkTradeRow uid buy sell fee))) <->
  exists bytes hash, x = mkLog (Trade bytes sell buy fee) hash /\ bytes_to_order_uid bytes = Ok uid.
Proof.
  split.
  - destruct x as [[bytes s b f| | | |] hash]; cbn; intros H; try discriminate H;
      try (apply rbind_Ok in H as (u & Hu & H); try discriminate H). injection H as -> <- <- <-. by exists bytes, hash.
  - intros (bytes & hash & -> & Hu). cbn. by rewrite Hu.
Qed.
Lemma convert_settlement x solver hash : convert x = Ok (Some (EventsDb.Settlement solver hash)) <->
  x = mkLog (Settlement solver) hash.
Proof.
  split; [|by intros ->]. destruct x as [[| | | |] h]; cbn; intros H; try discriminate H;
    try (apply rbind_Ok in H as (u & Hu & H); discriminate H). by injection H as -> ->.
Qed.
Lemma mirrors_events self l : EventHandling.placed l -> mirrors self (omap row_of l) ->
  (forall b li uid buy sell fee, trades self !! (b, Z.of_N li) = Some (mkTradeRow uid buy sell fee) <->
     exists bytes hash, mkEvent (Some (b, li)) (mkLog (Trade bytes sell buy fee) hash) ∈ l /\
       bytes_to_order_uid bytes = Ok uid) /\
  (forall b li solver hash, (exists a, settlements self !! (b, Z.of_N li) = Some (mkSettlementRow solver hash a)) <->
     mkEvent (Some (b, li)) (mkLog (Settlement solver) hash) ∈ l).
Proof.
  intros Hp (H1 & _ & _ & H4). split.
  - intros b li uid buy sell fee. rewrite (H1 _ _), row_elem by done. setoid_rewrite convert_trade. split.
    + intros (x & Hx & bytes & hash & -> & Hu). by exists bytes, hash.
    + intros (bytes & hash & Hx & Hu). by eexists _; split; [exact Hx|exists bytes, hash].
  - intros b li solver hash. pose proof (H4 (b, Z.of_N li) (solver, hash)) as H. cbn [uncurry] in H.
    rewrite row_elem in H by done. setoid_rewrite convert_settlement in H. rewrite lookup_fmap in H.
    transitivity (settled <$> settlements self !! (b, Z.of_N li) = Some (solver, hash)); [|rewrite H].
    + destruct (settlements self !! _) as [[s' h' a']|]; cbn; split.
      * by intros (a & [= -> -> ->]).
      * intros [= -> ->]. by exists a'.
      * by intros (a & ?).
      * done.
    + split; [by intros (x & Hx & ->)|]. intros Hx. by eexists.
Qed.

Lemma append_held (db db' : Db) l evs rows :
  mirrors (indexed db) (omap row_of l) -> EventHandling.placed (l ++ evs) -> contract_to_db_events evs = Ok rows ->
  holds (set_indexed db (EventsDb.append (indexed db) rows)) (l ++ evs).
Proof.
  intros Hm Hp Hc. apply contract_to_db_events_Ok in Hc as ->. split; [done|]. cbn [indexed set_indexed].
  rewrite omap_app. apply append_mirrors; [done|]. rewrite <- omap_app. by apply rows_NoDup.
Qed.

#[export] Instance indexer_laws : EventStoringLaws Log Db holds.
Proof.
  split; [apply _|..].
  - intros db l evs range [Hl Hm] Hp. cbn. unfold Indexer.replace_events.
    destruct (contract_to_db_events evs) as [rows| |] eqn:Hc; [|done..].
    pose proof (append_held (set_indexed db (EventsDb.delete (indexed db) (CurrentBlock.start range))) db
      (before (CurrentBlock.start range) l) evs rows) as H. cbn [indexed set_indexed] in H.
    rewrite rows_before in H by done. destruct H as [H1 H2]; [by apply delete_mirrors|done|done|].
    split; [done|exact H2].
  - intros db l evs [Hl Hm] Hp. cbn. unfold Indexer.append_events.
    destruct (contract_to_db_events evs) as [rows| |] eqn:Hc; [|done..]. by apply (append_held db db).
Qed.
End laws.

(** * Settlements and their auctions *)
Section attribution.
Import SettlementsDb Updater.
Context (keccak256 : list byte -> list byte) (ec_recover : list byte -> Z -> Z -> Z -> option Z).
Context (selector : list byte) (decode_input : list byte -> option EncodedSettlement.EncodedSettlement).
Context (domain_separator : list byte) (weth : Z) (transaction : Z -> option Transaction).
Context (winner : Z -> option Z) (find_competition : Z -> option (gmap Z Z * list Z)) (jit_owners : Z -> option (list Z)).
Context (limit_1 : list SettlementEvent -> option SettlementEvent).
Abbreviation decode := (DecodedSettlement.new keccak256 ec_recover selector decode_input).
Abbreviation fetch := (fetch_auction_data weth find_competition jit_owners).
Abbreviation prepare := (prepare keccak256 ec_recover selector decode_input domain_separator weth transaction winner
  find_competition jit_owners limit_1).
Abbreviation update := (update keccak256 ec_recover selector decode_input domain_separator weth transaction winner
  find_competition jit_owners limit_1).

(** An observation is what the winner of the auction that its settlement names
    achieved. *)
Record explains (row : SettlementRow) (o : Observation) (a : Z) (tx : Transaction) (data : AuctionData) : Prop := {
  explains_tx : transaction (tx_hash row) = Some tx;
  explains_auction : auction_id row = Some a;
  explains_winner : winner a = Some (solver tx);
  explains_data : exists settlement bytes, decode (input tx) domain_separator = Ok settlement /\
    DecodedSettlement.metadata settlement = Some bytes /\ a = i64_from_be_bytes bytes /\ fetch settlement a tx = Ok data;
  explains_observation : o = observation_of data;
}.
Record attributed_tables (s : gmap EventIndex SettlementRow) (os : gmap EventIndex Observation)
    (x : gmap (Z * Z) (option Z * Z)) : Prop := {
  observations_explained i o : os !! i = Some o ->
    exists row a tx data, s !! i = Some row /\ explains row o a tx data;
  observed_once i j row row' : is_Some (os !! i) -> is_Some (os !! j) -> s !! i = Some row -> s !! j = Some row' ->
    auction_id row = auction_id row' -> i = j;
  executions_settled order a fee block : x !! (order, a) = Some (fee, block) ->
    exists i row, i.1 = block /\ s !! i = Some row /\ auction_id row = Some a /\ is_Some (os !! i);
}.
Definition attributed (db : Db) : Prop :=
  let t := indexed db in attributed_tables (settlements t) (settlement_observations t) (order_execution t).

(** Rows that have their auction are all that matters. *)
Lemma attributed_mono s s' os x : attributed_tables s os x ->
  (forall i row, s !! i = Some row -> is_Some (auction_id row) -> s' !! i = Some row) -> attributed_tables s' os x.
Proof.
  intros [H1 H2 H3] Hs. assert (Hobs : forall i o, os !! i = Some o -> exists row, s !! i = Some row /\ s' !! i = Some row).
  { intros i o Ho. destruct (H1 i o Ho) as (row & a & tx & data & Hr & He). exists row. split; [done|].
    apply Hs; [done|]. rewrite (explains_auction _ _ _ _ _ He). by eexists. }
  split.
  - intros i o Ho. destruct (H1 i o Ho) as (row & a & tx & data & Hr & He). exists row, a, tx, data. split; [|done].
    apply Hs; [done|]. rewrite (explains_auction _ _ _ _ _ He). by eexists.
  - intros i j row row' [o Ho] [o' Ho'] Hr Hr' Ha.
    destruct (Hobs i o Ho) as (r & Hri & Hri'), (Hobs j o' Ho') as (r' & Hrj & Hrj').
    rewrite Hr in Hri'. rewrite Hr' in Hrj'. injection Hri' as <-. injection Hrj' as <-. by eapply H2.
  - intros order a fee block Hx. destruct (H3 _ _ _ _ Hx) as (i & row & Hb & Hr & Ha & Ho). exists i, row.
    split; [done|]. split; [|done]. apply Hs; [done|]. rewrite Ha. by eexists.
Qed.

Lemma delete_from_Some {A} (t : gmap EventIndex A) from i a :
  delete_from t from !! i = Some a <-> t !! i = Some a /\ ~ Z.min from I64_MAX <= i.1.
Proof. unfold delete_from. by rewrite map_lookup_filter_Some. Qed.

(** What is derived from a settlement goes with it. *)
Lemma attributed_delete s os x from : attributed_tables s os x ->
  attributed_tables (delete_from s from) (delete_from os from)
    (filter (fun row => ~ Z.min from I64_MAX <= row.2.2) x).
Proof.
  intros [H1 H2 H3]. split.
  - intros i o [Ho Hi]%delete_from_Some. destruct (H1 i o Ho) as (row & a & tx & data & Hr & He).
    exists row, a, tx, data. by rewrite delete_from_Some.
  - intros i j row row' [o [Ho _]%delete_from_Some] [o' [Ho' _]%delete_from_Some] [Hr _]%delete_from_Some
      [Hr' _]%delete_from_Some. apply H2; [by eexists..|done|done].
  - intros order a fee block [Hx Hb]%map_lookup_filter_Some. cbn in Hb.
    destruct (H3 _ _ _ _ Hx) as (i & row & <- & Hr & Ha & [o Ho]). exists i, row. rewrite delete_from_Some.
    split_and!; try done. exists o. by apply delete_from_Some.
Qed.

Lemma insert_new_Some {A} (t : gmap EventIndex A) i a j b : t !! j = Some b -> insert_new t i a !! j = Some b.
Proof.
  intros Hj. unfold insert_new. destruct (t !! i) eqn:Hi; [done|]. rewrite lookup_insert_ne; [done|]. congruence.
Qed.
Lemma append_details rows self :
  (forall i row, settlements self !! i = Some row -> settlements (EventsDb.append self rows) !! i = Some row) /\
  settlement_observations (EventsDb.append self rows) = settlement_observations self /\
  order_execution (EventsDb.append self rows) = order_execution self.
Proof.
  revert self. induction rows as [|[j e] rows IH]; intros self; [done|]. cbn.
  destruct (IH (EventsDb.insert j e self)) as (H1 & H2 & H3). split_and!.
  - intros i row Hi. apply H1. destruct e; cbn; [done..| |done]. by apply insert_new_Some.
  - etrans; [exact H2|]. by destruct e.
  - etrans; [exact H3|]. by destruct e.
Qed.
Lemma append_attributed self rows :
  attributed_tables (settlements self) (settlement_observations self) (order_execution self) ->
  let self' := EventsDb.append self rows in
  attributed_tables (settlements self') (settlement_observations self') (order_execution self').
Proof.
  intros Ha self'. unfold self'. destruct (append_details rows self) as (H1 & -> & ->). eapply attributed_mono; [exact Ha|]. intros i row Hi _.
  by apply H1.
Qed.

Lemma store_order_events_indexed db uids label now : indexed (AutopilotDb.store_order_events db uids label now) = indexed db.
Proof.
  unfold AutopilotDb.store_order_events. revert db. induction uids as [|uid uids IH]; intros db; [done|]. cbn. rewrite IH.
  apply insert_order_event_tables.
Qed.
Lemma save_executions id block es self :
  let self' := foldl (save_execution id block) self es in
  settlements self' = settlements self /\ settlement_observations self' = settlement_observations self /\
    forall order a fee b, order_execution self' !! (order, a) = Some (fee, b) ->
    (a = id /\ b = block) \/ order_execution self !! (order, a) = Some (fee, b).
Proof.
  revert self. induction es as [|e es IH]; intros self; [by split_and!; [..|right]|]. cbn.
  destruct (IH (save_execution id block self e)) as (H1 & H2 & H3). split_and!; [exact H1|exact H2|].
  intros order a fee b Hx. destruct (H3 _ _ _ _ Hx) as [?|Hx']; [by left|]. cbn in Hx'.
  apply lookup_insert_Some in Hx' as [[[= _ ->] [= _ ->]]|[_ Hx']]; [by left|by right].
Qed.

(** What the reading part of an update found out. *)
Lemma prepare_spec db u : (forall l e, limit_1 l = Some e -> e ∈ l) -> prepare db = Ok (Some u) ->
  exists row, settlements (indexed db) !! update_index u = Some row /\ auction_id row = None /\
    forall data, auction_data u = Some data ->
      (forall i row', settlements (indexed db) !! i = Some row' -> auction_id row' <> Some (update_auction u)) /\
    exists tx, explains (mkSettlementRow (settlement_solver row) (tx_hash row) (Some (update_auction u)))
        (observation_of data) (update_auction u) tx data.
Proof.
  intros Hlimit Hp. unfold Updater.prepare in Hp.
  destruct (get_settlement_without_auction limit_1 (indexed db)) as [e|] eqn:He; [|done].
  assert (Hrow : exists row, settlements (indexed db) !! event_index e = Some row /\ auction_id row = None /\
    tx_hash row = event_tx_hash e).
  { unfold get_settlement_without_auction in He. apply Hlimit, list_elem_of_In, filter_In in He as [He _].
    apply list_elem_of_In, list_elem_of_omap in He as ([i row] & Hin & Hr). destruct (auction_id row) eqn:Ha; [done|].
    injection Hr as <-. exists row. split; [by apply elem_of_map_to_list|done]. }
  destruct Hrow as (row & Hrow & Hnone & Hhash). destruct (transaction (event_tx_hash e)) as [tx|] eqn:Htx; [|done].
  apply rbind_Ok in Hp as (status & Hstatus & Hp). apply rbind_Ok in Hp as ([id od] & Hdata & [= <-]).
  cbn [update_index update_auction auction_data]. exists row. split_and!; [done|done|]. intros data ->.
  destruct status as [id' settlement|id'|]; [|done..]. apply rbind_Ok in Hdata as (data' & Hfetch & [= -> ->]).
  unfold recover_auction_id_from_calldata in Hstatus.
  destruct (decode (input tx) domain_separator) as [st| |] eqn:Hdec; [|done..].
  destruct (DecodedSettlement.metadata st) as [bytes|] eqn:Hmeta; [|done]. injection Hstatus as Hst.
  destruct (winner (i64_from_be_bytes bytes)) as [w|] eqn:Hw; [|done].
  destruct (already_processed (indexed db) (i64_from_be_bytes bytes)) eqn:Hdone; [done|].
  destruct (Z.eqb_spec w (solver tx)) as [->|]; [|done]. injection Hst as <- <-. split.
  - intros i row' Hr Ha. unfold already_processed, of_auction in Hdone. apply Z.leb_gt in Hdone.
    assert (Hin : (i, row') ∈ filter (fun row => auction_id row.2 = Some (i64_from_be_bytes bytes))
      (map_to_list (settlements (indexed db)))) by (apply list_elem_of_filter; split; [done|by apply elem_of_map_to_list]).
    destruct (filter _ _); [by apply not_elem_of_nil in Hin|]. cbn in Hdone. lia.
  - exists tx. split; [by rewrite Hhash|done|done|by exists st, bytes|done].
Qed.

Lemma apply_attributed db u now : (forall l e, limit_1 l = Some e -> e ∈ l) -> prepare db = Ok (Some u) ->
  attributed db -> attributed (apply now db u).
Proof.
  intros Hlimit Hp Ha. destruct (prepare_spec db u Hlimit Hp) as (row & Hrow & Hnone & Hdata).
  set (i := update_index u) in *. set (a := update_auction u) in *.
  set (row' := mkSettlementRow (settlement_solver row) (tx_hash row) (Some a)) in *.
  set (s' := settlements (update_settlement_auction (indexed db) i a)).
  assert (Hs' : s' !! i = Some row') by (unfold s'; cbn; by rewrite lookup_alter_eq, Hrow).
  assert (Hne : forall j, j <> i -> s' !! j = settlements (indexed db) !! j)
    by (intros j Hj; unfold s'; cbn; by rewrite lookup_alter_ne).
  assert (Hmono : attributed_tables s' (settlement_observations (indexed db)) (order_execution (indexed db))).
  { eapply attributed_mono; [exact Ha|]. intros j r Hr [? Hsome]. rewrite Hne; [done|]. intros ->. congruence. }
  unfold attributed, apply. fold i a. destruct (auction_data u) as [data|]; [|exact Hmono].
  destruct (Hdata data eq_refl) as [Hfresh (tx & Hex)]. clear Hdata. cbn [indexed set_indexed].
  rewrite store_order_events_indexed. cbn [indexed set_indexed].
  match goal with |- context [foldl (save_execution a i.1) ?t ?es] => pose proof (save_executions a i.1 es t) as Hsave end.
  cbv zeta in Hsave. destruct Hsave as (-> & -> & Hx). cbn [upsert set_details settlements settlement_observations] in *.
  fold s'. destruct Hmono as [H1 H2 H3].
  assert (Hother : forall j r, j <> i -> s' !! j = Some r -> auction_id r <> Some a).
  { intros j r Hj Hr. rewrite Hne in Hr by done. by eapply Hfresh. }
  assert (Hobs : forall j, j <> i -> is_Some (<[i := observation_of data]> (settlement_observations (indexed db)) !! j) ->
    is_Some (settlement_observations (indexed db) !! j)) by (intros j Hj; by rewrite lookup_insert_ne).
  split.
  - intros j o [[<- <-]|[Hj Ho]]%lookup_insert_Some; [by exists row', a, tx, data|by apply H1].
  - intros j k r r' Hj Hk Hr Hr' Heq. destruct (decide (j = i)) as [->|Hji], (decide (k = i)) as [->|Hki]; [done| | |].
    + rewrite Hs' in Hr. injection Hr as <-. destruct (Hother k r' Hki Hr'). by rewrite <- Heq.
    + rewrite Hs' in Hr'. injection Hr' as <-. destruct (Hother j r Hji Hr). by rewrite Heq.
    + apply (H2 j k r r'); [by apply Hobs..|done|done|done].
  - intros order b fee block [[-> ->]|Hold]%Hx.
    + exists i, row'. split_and!; [done|done|done|]. rewrite lookup_insert_eq. by eexists.
    + destruct (H3 _ _ _ _ Hold) as (j & r & Hb & Hr & Hb' & Ho). exists j, r. split_and!; [done..|].
      destruct (decide (j = i)) as [->|Hji]; [rewrite lookup_insert_eq; by eexists|by rewrite lookup_insert_ne].
Qed.

Abbreviation index_op := (Updater.index_op keccak256 ec_recover selector decode_input domain_separator weth transaction winner
  find_competition jit_owners limit_1).
Lemma index_op_attributed db op db' : (forall l e, limit_1 l = Some e -> e ∈ l) ->
  attributed db -> index_op db op = Ok db' -> attributed db'.
Proof.
  intros Hlimit Ha H. destruct op as [events|events range|now]; cbn in H.
  - injection H as <-. unfold Indexer.append_events. destruct (ContractEvents.contract_to_db_events events); [|done..].
    by apply append_attributed.
  - injection H as <-. unfold Indexer.replace_events. destruct (ContractEvents.contract_to_db_events events) as [rows| |]; [|done..].
    unfold attributed. cbn. set (from := CurrentBlock.start range).
    destruct (append_details rows (EventsDb.delete (indexed db) from)) as (H1 & -> & ->).
    eapply attributed_mono; [exact (attributed_delete _ _ _ from Ha)|]. intros i row Hi _. by apply H1.
  - unfold Updater.update in H. destruct (prepare db) as [[u|]| |] eqn:Hp; cbn in H; [|by injection H as <-..|done].
    injection H as <-. by apply apply_attributed.
Qed.

(** ** The task gets through *)
Lemma first_block_nonempty l : l <> [] -> in_first_block l <> [].
Proof.
  intros Hl. assert (Hmin : exists e, e ∈ l /\ forall e', e' ∈ l -> (event_index e).1 <= (event_index e').1).
  { induction l as [|e l IH]; [done|]. destruct (decide (l = [])) as [->|Hne].
    - exists e. split; [by left|]. intros e' He'. apply list_elem_of_singleton in He' as ->. lia.
    - destruct (IH Hne) as (m & Hm & Hle). destruct (decide ((event_index e).1 <= (event_index m).1)).
      + exists e. split; [by left|]. intros e' [->|He']%elem_of_cons; [lia|]. specialize (Hle e' He'). lia.
      + exists m. split; [by right|]. intros e' [->|He']%elem_of_cons; [lia|]. by apply Hle. }
  destruct Hmin as (e & He & Hle). intros Hnil. apply (not_elem_of_nil e). rewrite <- Hnil.
  apply list_elem_of_In, filter_In. split; [by apply list_elem_of_In|]. apply forallb_forall.
  intros e' He'. apply Z.leb_le, Hle. by apply list_elem_of_In.
Qed.

Lemma without_auction_nil self : without_auction self = [] <->
  forall i row, settlements self !! i = Some row -> auction_id row <> None.
Proof.
  unfold without_auction. split.
  - intros Hnil i row Hr Ha. apply elem_of_map_to_list in Hr.
    apply (not_elem_of_nil (mkSettlementEvent i (tx_hash row))). rewrite <- Hnil. apply list_elem_of_omap.
    exists (i, row). by rewrite Ha.
  - intros H. assert (Hall : forall e, e ∉ without_auction self).
    { intros e ([i row] & Hin & Hr)%list_elem_of_omap. apply elem_of_map_to_list in Hin. specialize (H i row Hin).
      destruct (auction_id row); [done|by destruct H]. }
    destruct (without_auction self) as [|e l] eqn:Hw; [exact Hw|]. destruct (Hall e). by left.
Qed.

Lemma without_auction_insert self s i row : s !! i = None ->
  without_auction (set_settlements self (<[i := row]> s)) ≡ₚ
    match auction_id row with None => [mkSettlementEvent i (tx_hash row)] | Some _ => [] end
    ++ without_auction (set_settlements self s).
Proof. intros Hi. unfold without_auction. cbn. rewrite map_to_list_insert by done. cbn. by destruct (auction_id row). Qed.
Lemma update_shrinks self i row a : settlements self !! i = Some row -> auction_id row = None ->
  length (without_auction self) = S (length (without_auction (update_settlement_auction self i a))).
Proof.
  intros Hr Hn. set (rest := base.delete i (settlements self)).
  assert (Hs : <[i := row]> rest = settlements self) by (by apply insert_delete_id).
  assert (Hi : rest !! i = None) by apply lookup_delete_eq.
  pose proof (without_auction_insert self rest i row Hi) as H1. rewrite Hs, Hn in H1.
  unfold update_settlement_auction. rewrite <- Hs, alter_insert_eq. apply Permutation_length in H1.
  rewrite (Permutation_length (without_auction_insert self rest i (mkSettlementRow _ _ (Some a)) Hi)).
  cbn [auction_id app length] in *. by rewrite <- H1.
Qed.

(** The settlements themselves stay. *)
Lemma apply_settlements db u now : let s' := settlements (indexed (apply now db u)) in
  s' = settlements (update_settlement_auction (indexed db) (update_index u) (update_auction u)).
Proof.
  unfold apply. destruct (auction_data u) as [data|]; [|done]. cbn [indexed set_indexed].
  rewrite store_order_events_indexed. cbn [indexed set_indexed].
  match goal with |- context [foldl (save_execution ?a ?b) ?t ?es] => pose proof (save_executions a b es t) as Hsave end.
  cbv zeta in Hsave. by destruct Hsave as (-> & _).
Qed.
Lemma update_auction_settled self i a : settled <$> settlements (update_settlement_auction self i a) = settled <$> settlements self.
Proof.
  cbn. apply map_eq. intros j. rewrite !lookup_fmap. destruct (decide (j = i)) as [->|Hj].
  - rewrite lookup_alter_eq. by destruct (settlements self !! i).
  - by rewrite lookup_alter_ne.
Qed.

(** Settlements that the node knows and whose auction can be evaluated *)
Definition recoverable (row : SettlementRow) : Prop :=
  exists tx, transaction (tx_hash row) = Some tx /\ decode (input tx) domain_separator <> Panic /\
    forall settlement bytes, decode (input tx) domain_separator = Ok settlement ->
      DecodedSettlement.metadata settlement = Some bytes ->
      exists data, fetch settlement (i64_from_be_bytes bytes) tx = Ok data.

Lemma prepare_answers db e row : settlements (indexed db) !! event_index e = Some row ->
  event_tx_hash e = tx_hash row -> recoverable row ->
  get_settlement_without_auction limit_1 (indexed db) = Some e ->
  exists u, prepare db = Ok (Some u) /\ update_index u = event_index e.
Proof.
  intros Hr Hh (tx & Htx & Hp & Hd) He. unfold Updater.prepare. rewrite He, Hh, Htx.
  unfold recover_auction_id_from_calldata. destruct (decode (input tx) domain_separator) as [st| |]; [|by eexists|done].
  destruct (DecodedSettlement.metadata st) as [bytes|] eqn:Hm; [|by eexists]. cbn [rbind].
  destruct (Hd st bytes eq_refl Hm) as [data Hdata].
  destruct (winner (i64_from_be_bytes bytes)) as [w|]; [|by eexists].
  destruct (already_processed (indexed db) (i64_from_be_bytes bytes)); [by eexists|].
  destruct (negb (w =? solver tx)); [by eexists|]. cbn [rbind]. rewrite Hdata. by eexists.
Qed.

Abbreviation listen := (listen_for_updates keccak256 ec_recover selector decode_input domain_separator weth transaction winner
  find_competition jit_owners limit_1).
Lemma listen_spec fuel now db : (forall l e, limit_1 l = Some e -> e ∈ l) -> (forall l, l <> [] -> limit_1 l <> None) ->
  (forall i row, settlements (indexed db) !! i = Some row -> auction_id row = None -> recoverable row) ->
  (length (without_auction (indexed db)) < fuel)%nat ->
  exists db', listen fuel now db = Ok db' /\ without_auction (indexed db') = [] /\
    settled <$> settlements (indexed db') = settled <$> settlements (indexed db).
Proof.
  intros Hlimit Hsome. revert db. induction fuel as [|fuel IH]; intros db Hrec Hfuel; [lia|]. cbn. unfold Updater.update.
  destruct (get_settlement_without_auction limit_1 (indexed db)) as [e|] eqn:He.
  - pose proof He as Hin. unfold get_settlement_without_auction in Hin.
    apply Hlimit, list_elem_of_In, filter_In in Hin as [Hin _].
    apply list_elem_of_In, list_elem_of_omap in Hin as ([i row] & Hr%elem_of_map_to_list & Hev).
    destruct (auction_id row) eqn:Ha; [done|]. injection Hev as <-.
    destruct (prepare_answers db (mkSettlementEvent i (tx_hash row)) row) as (u & Hu & Hi); [done|done|by eapply Hrec|done|].
    rewrite Hu. cbn [rbind]. pose proof (apply_settlements db u now) as Hs. cbv zeta in Hs. rewrite Hi in Hs. cbn in Hs.
    destruct (IH (apply now db u)) as (db' & Hl & Hnil & Hset).
    + intros j r Hj Hnone. rewrite Hs in Hj. destruct (decide (j = i)) as [->|Hne].
      * rewrite lookup_alter_eq, Hr in Hj. by injection Hj as <-.
      * rewrite lookup_alter_ne in Hj by done. by eapply Hrec.
    + pose proof (update_shrinks (indexed db) i row (update_auction u) Hr Ha) as Hlen.
      unfold without_auction in *. rewrite Hs. cbn in Hlen. lia.
    + exists db'. split_and!; [done|done|]. rewrite Hset, Hs. apply update_auction_settled.
  - unfold Updater.prepare. rewrite He. cbn [rbind]. exists db. split; [done|]. split; [|done].
    destruct (without_auction (indexed db)) as [|e l] eqn:Hw; [done|].
    destruct (Hsome (in_first_block (without_auction (indexed db)))); [apply first_block_nonempty; by rewrite Hw|done].
Qed.
End attribution.

(** * Properties *)
Section properties.
Import SettlementsDb Updater.

(** C12: the tables of the autopilot follow the chain: after an update of the
    event handler succeeds, the table of trades has exactly the trades that the
    settlement contract logged on the new chain, and the table of settlements its
    settlements with their solvers, through reorganizations (or, when the node
    fell back to a part of the old chain, nothing changed). *)
Theorem settlement_tables_follow_chain (ev : Z -> list (Event ContractEvents.Log)) n
    (h h' : @EventHandling.EventHandler Db) old new :
  good_chain ev old -> good_chain ev new -> linked old new -> node_of ev n new ->
  take (length old - 65) old = take (length old - 65) new ->
  synced holds ev h old -> resumable h old new ->
  EventHandling.update_events n h = (h', Ok tt) ->
  (h' = h /\ new `prefix_of` old) \/
  (let tables := indexed (EventHandling.store h') in
   (forall b li uid buy sell fee,
     trades tables !! (b, Z.of_N li) = Some (mkTradeRow uid buy sell fee) <->
     exists bytes hash, mkEvent (Some (b, li)) (ContractEvents.mkLog (ContractEvents.Trade bytes sell buy fee) hash) ∈ events_of ev new /\
       ContractEvents.bytes_to_order_uid bytes = Ok uid) /\
   (forall b li solver hash,
     (exists a, settlements tables !! (b, Z.of_N li) = Some (mkSettlementRow solver hash a)) <->
     mkEvent (Some (b, li)) (ContractEvents.mkLog (ContractEvents.Settlement solver) hash) ∈ events_of ev new)).
Proof.
  intros Ho Hn Hl Hnode Hr Hs Hres Hu.
  destruct (update_events_spec holds ev n h h' old new (Ok tt) Ho Hn Hl Hnode Hr Hs Hres Hu) as (_ & Hok & _).
  destruct (Hok eq_refl) as [[[Hp Hm] _ _]|?]; [right|by left]. by apply mirrors_events.
Qed.

Context (keccak256 : list byte -> list byte) (ec_recover : list byte -> Z -> Z -> Z -> option Z).
Context (selector : list byte) (decode_input : list byte -> option EncodedSettlement.EncodedSettlement).
Context (domain_separator : list byte) (weth : Z) (transaction : Z -> option Transaction).
Context (winner : Z -> option Z) (find_competition : Z -> option (gmap Z Z * list Z)) (jit_owners : Z -> option (list Z)).
Context (limit_1 : list SettlementEvent -> option SettlementEvent).

(** C11: an auction is rewarded at most once, and to its winner: from empty tables,
    whatever the chain logs and reorganizes in between the updates, every
    observation belongs to a settlement in the table that the winner of the
    auction it names executed, and is what that settlement achieved; no two
    settlements of an auction have one; and everything recorded as executed
    belongs to such a settlement in the block it is recorded for. *)
Theorem auctions_rewarded_once (db db' : Db) (ops : list IndexOp) :
  (forall l e, limit_1 l = Some e -> e ∈ l) ->
  settlements (indexed db) = ∅ -> settlement_observations (indexed db) = ∅ -> order_execution (indexed db) = ∅ ->
  index_ops keccak256 ec_recover selector decode_input domain_separator weth transaction winner find_competition jit_owners
    limit_1 db ops = Ok db' ->
  attributed keccak256 ec_recover selector decode_input domain_separator weth transaction winner find_competition jit_owners db'.
Proof.
  intros Hlimit H1 H2 H3 Hops. eapply (rfold_Ok_inv (attributed _ _ _ _ _ _ _ _ _ _)); [exact Hops| |].
  - unfold attributed. rewrite H1, H2, H3. split; [done|by intros ? ? ? ? []|done].
  - intros d op d' _ Hd Hop. by eapply index_op_attributed.
Qed.

End properties.

(** * Two settlements of the auction 7, by the solver 5 that won it and by the
    solver 6, and one that names no auction *)
Section witnesses.
Import SettlementsDb Updater ContractEvents.
Let no_trades : EncodedSettlement.EncodedSettlement := EncodedSettlement.mkEncodedSettlement [] [] [] ([], [], []).
Let decode_input (l : list byte) : option EncodedSettlement.EncodedSettlement :=
  if (length l =? 0)%nat then Some no_trades else None.
Let calldata (id : Z) : list byte := be_bytes 8 id.
Let transaction (hash : Z) : option Transaction :=
  if hash =? 51 then Some (mkTransaction 5 (calldata 7) 100 3)
  else if hash =? 61 then Some (mkTransaction 6 (calldata 7) 200 3)
  else if hash =? 52 then Some (mkTransaction 5 (be_bytes 9 7) 300 3) else None.
Let winner (id : Z) : option Z := if id =? 7 then Some 5 else None.
Let competition (id : Z) : option (gmap Z Z * list Z) := Some (∅, []).
Let no_recovery (m : list byte) (v r s : Z) : option Z := None.
Let log (b : Z) (li : N) (e : ContractEvent) (hash : Z) : Event Log := mkEvent (Some (b, li)) (mkLog e hash).
Let run := index_ops id no_recovery [] decode_input [] 3 transaction winner competition (fun _ => None) head no_rows.
Let first := log 10 1 (Settlement 5) 51.
Let other := log 10 4 (Settlement 6) 61.
Let invalid := log 11 0 (Settlement 5) 52.
Let ops : list IndexOp :=
  [Appended [first; other; invalid]; Updated 100; Updated 101; Replaced [invalid] (CurrentBlock.mkRange 11 11); Updated 102].

Example auctions_of_three :
  (res_map (fun db => (map (fun '(i, row) => (i, auction_id row)) (map_to_list (settlements (indexed db))),
                       map_to_list (settlement_observations (indexed db)))) (run ops)) =
  Ok ([(11, 0, Some 0); (10, 1, Some 7); (10, 4, Some 7)], [((10, 1), mkObservation 100 3 0 0)]).
Proof. vm_compute. reflexivity. Qed.

Lemma head_elem l e : head l = Some e -> e ∈ (l : list SettlementEvent).
Proof. destruct l; [done|]. intros [= ->]. by left. Qed.

Lemma auctions_rewarded_once_witness : exists db o, run ops = Ok db /\
  settlement_observations (indexed db) !! (10, 1) = Some o /\
  exists row a tx data, settlements (indexed db) !! (10, 1) = Some row /\
    explains id no_recovery [] decode_input [] 3 transaction winner competition (fun _ => None) row o a tx data.
Proof.
  destruct (run ops) as [db| |] eqn:Hrun; [|vm_compute in Hrun; discriminate Hrun..].
  pose proof (auctions_rewarded_once id no_recovery [] decode_input [] 3 transaction winner competition (fun _ => None) head
    no_rows db ops head_elem eq_refl eq_refl eq_refl Hrun) as [H _ _].
  assert (Ho : res_map (fun db => settlement_observations (indexed db) !! (10, 1)) (run ops) = Ok (Some (mkObservation 100 3 0 0)))
    by (vm_compute; reflexivity).
  rewrite Hrun in Ho. injection Ho as Ho. exists db, (mkObservation 100 3 0 0). split; [reflexivity|]. split; [exact Ho|].
  apply (H (10, 1) (mkObservation 100 3 0 0) Ho).
Defined.

Let tables : Db := (Indexer.append_events no_rows [first; other; invalid]).1.

(** A solver that puts the auction of another into its call data, and settles
    first, takes the observation from the winner. *)
Example reward_stolen :
  res_map (fun db => (map (fun '(i, row) => (i, settlement_solver row, auction_id row)) (map_to_list (settlements (indexed db))),
                      map_to_list (settlement_observations (indexed db))))
    (run [Appended [log 9 0 (Settlement 6) 61; first]; Updated 100; Updated 101]) =
  Ok ([(9, 0, 6, Some 7); (10, 1, 5, Some 7)], []).
Proof. vm_compute. reflexivity. Qed.

(** An update that reads before a reorganization and writes after it leaves an
    observation of a settlement that is gone. *)
Example late_update_is_orphaned :
  let prepared := prepare id no_recovery [] decode_input [] 3 transaction winner competition (fun _ => None) head tables in
  let reorganized := (Indexer.replace_events tables [] (CurrentBlock.mkRange 10 11)).1 in
  res_map (fun u => match u with
                    | Some u => let t := indexed (apply 100 reorganized u) in
                                (map_to_list (settlements t), map_to_list (settlement_observations t))
                    | None => ([], [])
                    end) prepared = Ok ([], [((10, 1), mkObservation 100 3 0 0)]).
Proof. vm_compute. reflexivity. Qed.

(** The chain of the tables, and one that replaces its last block *)
Let order : list byte := be_bytes 56 77.
Let old : list CurrentBlock.BlockNumberHash := [(0, 10); (1, 11); (2, 12)].
Let new : list CurrentBlock.BlockNumberHash := [(0, 10); (1, 11); (2, 22); (3, 23)].
Let ev (h : Z) : list (Event Log) :=
  if h =? 11 then [log 1 0 (Trade order 100 50 0) 51; log 1 1 Interaction 51; log 1 2 (Settlement 5) 51]
  else if h =? 12 then [log 2 0 (Settlement 6) 61]
  else if h =? 23 then [log 3 0 (Settlement 5) 52] else [].
Let range_answer (r : CurrentBlock.RangeInclusive) : bool := (0 <=? CurrentBlock.start r) && (CurrentBlock.end_ r <? 4).
Let n : @EventHandling.node Log := {|
  EventHandling.current_block := Some (CurrentBlock.mkBlockInfo 3 23 22);
  EventHandling.blocks r := if range_answer r then Some (slice new r) else None;
  EventHandling.block_events h := Some (ev h);
  EventHandling.range_events r := if range_answer r then Some (map Some (events_of ev (slice new r))) else None;
|}.
Let handler : @EventHandling.EventHandler Db :=
  EventHandling.mkEventHandler (Indexer.append_events no_rows (events_of ev old)).1 [(1, 11); (2, 12)].

Lemma index_chains_good : good_chain ev old /\ good_chain ev new /\ linked old new.
Proof.
  split_and!; [split| split|].
  4, 8: vm_compute; constructor.
  1, 4: intros [|[|[|[|i]]]] b Hb; simplify_eq/=; done.
  1, 3: intros b Hb; repeat (apply elem_of_cons in Hb as [->|Hb];
    [repeat (constructor; [eexists; split; [reflexivity|repeat split; closed]|]); constructor|]); by apply elem_of_nil in Hb.
  1, 2: apply (bool_decide_eq_true_1 _); vm_compute; reflexivity.
  intros [|[|[|i]]] [|[|[|[|j]]]] bi bj Hi Hj Heq; simplify_eq/=; done.
Qed.
Lemma index_node_of : node_of ev n new.
Proof.
  assert (Ha : forall r, range_answer r = true -> CurrentBlock.end_ r < 4)
    by (unfold range_answer; intros r Hr; bool_to_prop; lia).
  split.
  - intros info [= <-]. by exists [(0, 10); (1, 11)], (2, 22), (3, 23).
  - intros r bs Hr _. cbn in Hr. destruct (range_answer r) eqn:Hra; [|done]. injection Hr as <-. split; [by apply Ha|done].
  - by intros b es [= <-].
  - intros r items Hr. cbn in Hr. destruct (range_answer r); [|done]. injection Hr as <-.
    exists (events_of ev (slice new r)), []. rewrite app_nil_r. by split_and!.
Qed.
Lemma index_synced : synced holds ev handler old.
Proof.
  split; [|by exists [(0, 10)]|cbn; lia].
  assert (Hl : holds no_rows []).
  { split; [split_and!; constructor|]. unfold mirrors, table_of. cbn.
    split_and!; intros i a; rewrite ?lookup_empty; (split; [done|intros []%not_elem_of_nil]). }
  pose proof (append_spec no_rows [] (events_of ev old) Hl (good_placed ev old (proj1 index_chains_good))) as H.
  exact H.
Qed.

Lemma settlement_tables_follow_chain_witness : exists h',
  EventHandling.update_events n handler = (h', Ok tt) /\
  (exists a, settlements (indexed (EventHandling.store h')) !! (3, 0) = Some (mkSettlementRow 5 52 a)) /\
  trades (indexed (EventHandling.store h')) !! (1, 0) = Some (mkTradeRow 77 50 100 0).
Proof.
  destruct (EventHandling.update_events n handler) as [h' r] eqn:Hu.
  assert (Hr : r = Ok tt) by (apply (f_equal snd) in Hu; vm_compute in Hu; by rewrite <- Hu).
  subst r. exists h'. split; [reflexivity|].
  destruct index_chains_good as (H1 & H2 & H3).
  assert (Hres : resumable handler old new) by (left; discriminate).
  assert (Hsame : take (length old - 65) old = take (length old - 65) new) by reflexivity.
  destruct (settlement_tables_follow_chain ev n handler h' old new H1 H2 H3 index_node_of Hsame index_synced Hres Hu)
    as [[_ Hk]|[Ht Hs]].
  - destruct Hk as [k Hk]. discriminate Hk.
  - split.
    + apply (Hs 3 0%N 5 52). do 3 right. left.
    + apply (Ht 1 0%N 77 50 100 0). exists order, 51. split; [left|vm_compute; reflexivity].
Defined.
End witnesses.
