(* ===== verification/CompetitionStore.v ===== *)
(** What the autopilot keeps of a competition: the data of
    crates/model/src/solver_competition.rs and
    autopilot/src/domain/competition/mod.rs, the tables (crates/database/src:
    auction.rs, solver_competition.rs, settlement_scores.rs,
    auction_participants.rs, auction_prices.rs, settlement_call_data.rs,
    auction_orders.rs, surplus_capturing_jit_order_owners.rs, fee_policies.rs),
    the transactions that fill them (autopilot/src/database/competition.rs,
    fee_policies.rs, auction.rs), the queries that put an auction and its winner
    together again (autopilot/src/infra/persistence/mod.rs, dto/), and the
    settlement that is made of them (domain/settlement/mod.rs). *)
From Stdlib Require Import ZArith Lia QArith Qcanon SpecFloat.
From stdpp Require Import prelude gmap strings.
From S2P Require Import Prelude U256 Bytes Floats DriverOrder ModelOrder OrderStore OnchainSettlement ProtocolFees SolvableOrders.
From S2P Require Import SettlementIndex.

Open Scope Z_scope.
Open Scope rust_scope.

(** * model/src/solver_competition.rs *)
Module SolverCompetition.
Record CompetitionAuction : Type := mkCompetitionAuction { orders : list Z; prices : gmap Z Z }.
Inductive Score : Type :=
| Solver (score : Z)
| Protocol (score : Z)
| ProtocolWithSolverRisk (score : Z)
| Discounted (score : Z).
Definition score (self : Score) : Z :=
  match self with Solver s => s | Protocol s => s | ProtocolWithSolverRisk s => s | Discounted s => s end.
Inductive Order : Type :=
| Colocated (id sell_amount buy_amount : Z)
| Legacy (id executed_amount : Z).
Record SolverSettlement : Type := mkSolverSettlement {
  settlement_solver : string;
  solver_address : Z;
  settlement_score : option Score;
  ranking : nat;
  clearing_prices : gmap Z Z;
  settlement_orders : list Order;
  settlement_call_data : option (list byte);
  settlement_uninternalized : option (list byte);
}.
Record SolverCompetitionDB : Type := mkSolverCompetitionDB {
  auction_start_block : Z;
  table_simulation_block : Z;
  auction : CompetitionAuction;
  solutions : list SolverSettlement;
}.
End SolverCompetition.

(** * autopilot/src/domain/competition/mod.rs; amounts are pairs of what was
    sold and bought. *)
Module DomainCompetition.
Record Solution : Type := mkSolution {
  solver : Z;
  score : Z;
  orders : gmap Z (Z * Z);
  prices : gmap Z Z;
}.
Record SolutionWithId : Type := mkSolutionWithId { id : Z; solution : Solution }.
Definition score_new (score : Z) : res unit Z := if score =? 0 then Err tt else Ok score.
Definition order_ids (self : Solution) : list Z := map fst (map_to_list (orders self)).
Inductive SolutionError : Type := ZeroScore | InvalidPrice | SolverDenyListed.
End DomainCompetition.

(** * infra/persistence/dto *)
(** ** fee_policy.rs, and the rows of database/src/fee_policies.rs *)
Module FeePolicies.
Inductive FeePolicyKind : Type := KSurplus | KVolume | KPriceImprovement.
Record FeePolicyRow : Type := mkFeePolicyRow {
  policy_auction_id : Z;
  policy_order_uid : Z;
  policy_kind : FeePolicyKind;
  surplus_factor : option F64.f64;
  surplus_max_volume_factor : option F64.f64;
  volume_factor : option F64.f64;
  price_improvement_factor : option F64.f64;
  price_improvement_max_volume_factor : option F64.f64;
}.
Inductive Error : Type := Inconsistency | MissingQuote.

Definition from_domain (auction_id order_uid : Z) (policy : FeePolicy.Policy) : FeePolicyRow :=
  match policy with
  | FeePolicy.Surplus factor max_volume_factor =>
      mkFeePolicyRow auction_id order_uid KSurplus (Some factor) (Some max_volume_factor) None None None
  | FeePolicy.Volume factor => mkFeePolicyRow auction_id order_uid KVolume None None (Some factor) None None
  | FeePolicy.PriceImprovement factor max_volume_factor _ =>
      mkFeePolicyRow auction_id order_uid KPriceImprovement None None None (Some factor) (Some max_volume_factor)
  end.
(** A factor that is there and in range *)
Definition factor_of (column : option F64.f64) : res Error F64.f64 :=
  let* factor := ok_or column Inconsistency in
  map_err (fun _ => Inconsistency) (FeeFactor.try_from factor).
Definition try_into_domain (policy : FeePolicyRow) (quote : option QuoteDto.Quote) : res Error FeePolicy.Policy :=
  match policy_kind policy with
  | KSurplus =>
      let* factor := factor_of (surplus_factor policy) in
      let* max_volume_factor := factor_of (surplus_max_volume_factor policy) in
      Ok (FeePolicy.Surplus factor max_volume_factor)
  | KVolume => let* factor := factor_of (volume_factor policy) in Ok (FeePolicy.Volume factor)
  | KPriceImprovement =>
      let* factor := factor_of (price_improvement_factor policy) in
      let* max_volume_factor := factor_of (price_improvement_max_volume_factor policy) in
      let* quote := ok_or quote MissingQuote in
      Ok (FeePolicy.PriceImprovement factor max_volume_factor (ProtocolFee.quote_from quote))
  end.
End FeePolicies.

(** ** order.rs and auction.rs: what is stored and sent to drivers. The enums of
    both sides are those of crates/model. *)
Module AuctionDto.
Import ModelOrder.
Inductive FeePolicyDto : Type :=
| DtoSurplus (factor max_volume_factor : F64.f64)
| DtoPriceImprovement (factor max_volume_factor : F64.f64) (quote_sell quote_buy quote_fee : Z)
| DtoVolume (factor : F64.f64).
Record OrderDto : Type := mkOrderDto {
  dto_uid : Z;
  dto_sell_token : Z;
  dto_buy_token : Z;
  dto_sell_amount : Z;
  dto_buy_amount : Z;
  dto_protocol_fees : list FeePolicyDto;
  dto_valid_to : Z;
  dto_kind : OrderKind;
  dto_receiver : option Z;
  dto_owner : Z;
  dto_partially_fillable : bool;
  dto_executed : Z;
  dto_pre_interactions : list InteractionData;
  dto_post_interactions : list InteractionData;
  dto_sell_token_balance : SellTokenSource;
  dto_buy_token_balance : BuyTokenDestination;
  dto_class : OrderClass;
  dto_app_data : list byte;
  dto_signature : ModelSignature.Signature;
}.
Record Auction : Type := mkAuction {
  dto_block : Z;
  dto_latest_settlement_block : Z;
  dto_orders : list OrderDto;
  dto_prices : gmap Z Z;
  dto_jit_order_owners : list Z;
}.

Definition policy_from_domain (policy : FeePolicy.Policy) : FeePolicyDto :=
  match policy with
  | FeePolicy.Surplus factor max_volume_factor => DtoSurplus factor max_volume_factor
  | FeePolicy.PriceImprovement factor max_volume_factor quote =>
      DtoPriceImprovement factor max_volume_factor (FeePolicy.sell_amount quote) (FeePolicy.buy_amount quote) (FeePolicy.fee quote)
  | FeePolicy.Volume factor => DtoVolume factor
  end.
(** The factors are unwrapped. *)
Definition policy_to_domain {E} (policy : FeePolicyDto) : res E FeePolicy.Policy :=
  match policy with
  | DtoSurplus factor max_volume_factor =>
      let* factor := res_expect (FeeFactor.try_from factor) in
      let* max_volume_factor := res_expect (FeeFactor.try_from max_volume_factor) in
      Ok (FeePolicy.Surplus factor max_volume_factor)
  | DtoPriceImprovement factor max_volume_factor sell buy fee =>
      let* factor := res_expect (FeeFactor.try_from factor) in
      let* max_volume_factor := res_expect (FeeFactor.try_from max_volume_factor) in
      Ok (FeePolicy.PriceImprovement factor max_volume_factor (FeePolicy.mkQuote sell buy fee))
  | DtoVolume factor =>
      let* factor := res_expect (FeeFactor.try_from factor) in
      Ok (FeePolicy.Volume factor)
  end.
Definition order_from_domain (order : AutopilotAuction.Order) : OrderDto :=
  mkOrderDto (AutopilotAuction.order_uid order)
    (Eth.token (AutopilotAuction.order_sell order)) (Eth.token (AutopilotAuction.order_buy order))
    (Eth.amount (AutopilotAuction.order_sell order)) (Eth.amount (AutopilotAuction.order_buy order))
    (map policy_from_domain (AutopilotAuction.protocol_fees order)) (AutopilotAuction.order_valid_to order)
    (AutopilotAuction.order_side order) (AutopilotAuction.order_receiver order) (AutopilotAuction.order_owner order)
    (AutopilotAuction.order_partially_fillable order) (AutopilotAuction.order_executed order)
    (AutopilotAuction.order_pre_interactions order) (AutopilotAuction.order_post_interactions order)
    (AutopilotAuction.order_sell_token_balance order) (AutopilotAuction.order_buy_token_balance order)
    (AutopilotAuction.order_class order) (AutopilotAuction.order_app_data order) (AutopilotAuction.order_signature order).
Definition order_to_domain {E} (order : OrderDto) : res E AutopilotAuction.Order :=
  let* protocol_fees := rmap policy_to_domain (dto_protocol_fees order) in
  Ok (AutopilotAuction.mkOrder (dto_uid order) (Eth.mkAsset (dto_sell_amount order) (dto_sell_token order))
    (Eth.mkAsset (dto_buy_amount order) (dto_buy_token order)) protocol_fees (dto_kind order) (dto_class order)
    (dto_valid_to order) (dto_receiver order) (dto_owner order) (dto_partially_fillable order) (dto_executed order)
    (dto_pre_interactions order) (dto_post_interactions order) (dto_sell_token_balance order) (dto_buy_token_balance order)
    (dto_app_data order) (dto_signature order)).
Definition from_domain (auction : AutopilotAuction.Auction) : Auction :=
  mkAuction (AutopilotAuction.block auction) (AutopilotAuction.latest_settlement_block auction)
    (map order_from_domain (AutopilotAuction.orders auction)) (AutopilotAuction.prices auction)
    (AutopilotAuction.surplus_capturing_jit_order_owners auction).
(** [collect] of a map of results: the prices, unless one is zero. *)
Definition prices_new (prices : gmap Z Z) : res unit (gmap Z Z) :=
  let* entries :=
    rmap (fun '(token, price) => let* price := opt (AutopilotAuction.price_new price) in Ok (token, price)) (map_to_list prices) in
  Ok (list_to_map entries).
Definition try_to_domain (auction : Auction) : res unit AutopilotAuction.Auction :=
  let* orders := rmap order_to_domain (dto_orders auction) in
  let* prices := prices_new (dto_prices auction) in
  Ok (AutopilotAuction.mkAuction (dto_block auction) (dto_latest_settlement_block auction) orders prices
    (dto_jit_order_owners auction)).
End AuctionDto.

(** The orders of a solution as they are in the table *)
Definition colocated (orders : gmap Z (Z * Z)) : list SolverCompetition.Order :=
  map (fun '(id, (sell, buy)) => SolverCompetition.Colocated id sell buy) (map_to_list orders).

(** * The tables *)
Module Competitions.
Import SolverCompetition FeePolicies.
Record ScoreRow : Type := mkScoreRow {
  winner : Z;
  winning_score : Z;
  reference_score : Z;
  block_deadline : Z;
  simulation_block : Z;
}.
(** [fee_policies] is in the order of the insertions, that of the column
    application_order; the auctions have ids of a sequence. *)
Record Competitions : Type := mkCompetitions {
  auctions : gmap Z AuctionDto.Auction;
  next_auction_id : Z;
  solver_competitions : gmap Z SolverCompetitionDB;
  settlement_scores : gmap Z ScoreRow;
  auction_participants : gset (Z * Z);
  auction_prices : gmap (Z * Z) Z;
  settlement_call_data : gmap Z (list byte * list byte);
  auction_orders : gmap Z (list Z);
  surplus_capturing_jit_order_owners : gmap Z (list Z);
  fee_policies : list FeePolicyRow;
}.
(** A key that is there already fails the statement. *)
Definition insert_unique {K A} `{Countable K} (t : gmap K A) (k : K) (a : A) : res unit (gmap K A) :=
  match t !! k with Some _ => Err tt | None => Ok (<[k := a]> t) end.

(** auction.rs: the table is truncated, the sequence goes on. *)
Definition replace_current_auction (self : Competitions) (auction : AuctionDto.Auction) : Competitions * Z :=
  (mkCompetitions {[ next_auction_id self := auction ]} (next_auction_id self + 1) (solver_competitions self)
     (settlement_scores self) (auction_participants self) (auction_prices self) (settlement_call_data self)
     (auction_orders self) (surplus_capturing_jit_order_owners self) (fee_policies self),
   next_auction_id self).

(** What the run loop saves. *)
Record Competition : Type := mkCompetition {
  auction_id : Z;
  competition_winner : Z;
  competition_winning_score : Z;
  competition_reference_score : Z;
  participants : gset Z;
  competition_prices : gmap Z Z;
  competition_block_deadline : Z;
  competition_simulation_block : Z;
  call_data : list byte;
  uninternalized_call_data : list byte;
  competition_table : SolverCompetitionDB;
}.
(** [u64] to [i64] *)
Definition to_i64 (z : Z) : res unit Z := if z <? 2 ^ 63 then Ok z else Err tt.
Definition insert_participants (t : gset (Z * Z)) (id : Z) (participants : list Z) : res unit (gset (Z * Z)) :=
  rfold (fun t p => if bool_decide ((id, p) ∈ t) then Err tt else Ok ({[ (id, p) ]} ∪ t)) t participants.
Definition insert_prices (t : gmap (Z * Z) Z) (id : Z) (prices : list (Z * Z)) : res unit (gmap (Z * Z) Z) :=
  rfold (fun t '(token, price) => insert_unique t (id, token) price) t prices.
(** One transaction *)
Definition save_competition (self : Competitions) (competition : Competition) : res unit Competitions :=
  let id := auction_id competition in
  let* solver_competitions := insert_unique (solver_competitions self) id (competition_table competition) in
  let* deadline := to_i64 (competition_block_deadline competition) in
  let* simulation := to_i64 (competition_simulation_block competition) in
  let* scores :=
    insert_unique (settlement_scores self) id
      (mkScoreRow (competition_winner competition) (competition_winning_score competition)
        (competition_reference_score competition) deadline simulation) in
  let* participants := insert_participants (auction_participants self) id (elements (participants competition)) in
  let* prices := insert_prices (auction_prices self) id (map_to_list (competition_prices competition)) in
  let* call_data :=
    insert_unique (settlement_call_data self) id (call_data competition, uninternalized_call_data competition) in
  let* orders := insert_unique (auction_orders self) id (orders (auction (competition_table competition))) in
  Ok (mkCompetitions (auctions self) (next_auction_id self) solver_competitions scores participants prices call_data orders
        (surplus_capturing_jit_order_owners self) (fee_policies self)).
Definition save_surplus_capturing_jit_orders_orders (self : Competitions) (id : Z) (owners : list Z) : res unit Competitions :=
  let* owners := insert_unique (surplus_capturing_jit_order_owners self) id owners in
  Ok (mkCompetitions (auctions self) (next_auction_id self) (solver_competitions self) (settlement_scores self)
        (auction_participants self) (auction_prices self) (settlement_call_data self) (auction_orders self) owners
        (fee_policies self)).
(** fee_policies.rs: a batch, of which all are inserted in order. *)
Definition insert_batch (self : Competitions) (id : Z) (policies : list (Z * list FeePolicy.Policy)) : Competitions :=
  let rows := concat (map (fun '(order_uid, policies) => map (from_domain id order_uid) policies) policies) in
  mkCompetitions (auctions self) (next_auction_id self) (solver_competitions self) (settlement_scores self)
    (auction_participants self) (auction_prices self) (settlement_call_data self) (auction_orders self)
    (surplus_capturing_jit_order_owners self) (fee_policies self ++ rows).
(** [chunks] of at most [size] elements; the size is not zero. *)
Fixpoint chunks_fuel {A} (fuel size : nat) (l : list A) : list (list A) :=
  match fuel, l with
  | S fuel, _ :: _ => take size l :: chunks_fuel fuel size (drop size l)
  | _, _ => []
  end.
Definition chunks {A} (size : nat) (l : list A) : list (list A) := chunks_fuel (length l) size l.
Definition store_fee_policies (insert_batch_size : nat) (self : Competitions) (id : Z) (policies : list (Z * list FeePolicy.Policy))
  : Competitions := foldl (fun self chunk => insert_batch self id chunk) self (chunks insert_batch_size policies).

Definition find_competition (self : Competitions) (id : Z) : option SolverCompetitionDB := solver_competitions self !! id.
(** fee_policies.rs: the policies of the orders, in the order of application *)
Definition fetch_all (self : Competitions) (id : Z) (orders : gset Z) : gmap Z (list FeePolicyRow) :=
  foldl (fun m row => <[policy_order_uid row := default [] (m !! policy_order_uid row) ++ [row]]> m) ∅
    (filter (fun row => policy_auction_id row = id /\ policy_order_uid row ∈ orders) (fee_policies self)).
Definition prices_of (self : Competitions) (id : Z) : list (Z * Z) :=
  omap (fun row : (Z * Z) * Z => if row.1.1 =? id then Some (row.1.2, row.2) else None) (map_to_list (auction_prices self)).
End Competitions.

(** * infra/persistence/mod.rs *)
Module Persistence.
Import Competitions.
Inductive AuctionError : Type :=
| AuctionNotFound
| InvalidFeePolicy (e : FeePolicies.Error) (order : Z)
| InvalidPrice (token : Z).
Inductive SolutionError : Type :=
| SolutionNotFound
| InvalidScore
| InvalidSolutionPrice (token : Z)
| InvalidSolverCompetition.

(** Staging and production share the settlements. *)
Definition auction_has_settlement (db : Database.Db) (id : Z) : bool := SettlementsDb.already_processed (Database.indexed db) id.
Definition is_price_improvement (row : FeePolicies.FeePolicyRow) : bool :=
  match FeePolicies.policy_kind row with FeePolicies.KPriceImprovement => true | _ => false end.
Definition price_of (row : Z * Z) : res AuctionError (Z * Z) :=
  let '(token, price) := row in
  let* price := ok_or (OrderStoring.big_decimal_to_u256 price) (InvalidPrice token) in
  let* price := ok_or (AutopilotAuction.price_new price) (InvalidPrice token) in
  Ok (token, price).
Definition policies_of (quotes : gmap Z QuoteDto.Quote) (policies : gmap Z (list FeePolicies.FeePolicyRow)) (order : Z)
  : res AuctionError (Z * list FeePolicy.Policy) :=
  let* policies :=
    match policies !! order with
    | Some rows =>
        rmap (fun row => map_err (fun e => InvalidFeePolicy e order) (FeePolicies.try_into_domain row (quotes !! order))) rows
    | None => Ok []
    end in
  Ok (order, policies).
Definition get_auction (self : Competitions) (db : Database.Db) (id : Z) : res AuctionError SettlementAuction.Auction :=
  let* owners := ok_or (surplus_capturing_jit_order_owners self !! id) AuctionNotFound in
  let* prices := rmap price_of (prices_of self id) in
  let* orders := ok_or (auction_orders self !! id) AuctionNotFound in
  let auction_orders : gset Z := list_to_set orders in
  let fee_policies := fetch_all self id auction_orders in
  let improved := filter (fun entry : Z * list FeePolicies.FeePolicyRow => existsb is_price_improvement entry.2) (map_to_list fee_policies) in
  let quotes := AutopilotDb.read_quotes db (map fst improved) in
  let* orders := rmap (policies_of quotes fee_policies) (elements auction_orders) in
  Ok (SettlementAuction.mkAuction id (list_to_map orders) (list_to_map prices) (list_to_set owners)).

Definition traded_amounts (order : SolverCompetition.Order) : res SolutionError (Z * (Z * Z)) :=
  match order with
  | SolverCompetition.Colocated id sell buy => Ok (id, (sell, buy))
  | SolverCompetition.Legacy _ _ => Err SolutionNotFound
  end.
Definition solution_price (row : Z * Z) : res SolutionError (Z * Z) :=
  let* price := ok_or (AutopilotAuction.price_new row.2) (InvalidSolutionPrice row.1) in Ok (row.1, price).
(** Of several amounts of an order the last one stays. *)
Definition get_winning_solution (self : Competitions) (id : Z) : res SolutionError DomainCompetition.Solution :=
  let* competition := ok_or (settlement_scores self !! id) SolutionNotFound in
  let* score := ok_or (OrderStoring.big_decimal_to_u256 (winning_score competition)) InvalidScore in
  let* score := map_err (fun _ => InvalidScore) (DomainCompetition.score_new score) in
  let* table := ok_or (solver_competitions self !! id) SolutionNotFound in
  let* winning_solution := ok_or (last (SolverCompetition.solutions table)) SolutionNotFound in
  let* orders := rmap traded_amounts (SolverCompetition.settlement_orders winning_solution) in
  let* prices := rmap solution_price (map_to_list (SolverCompetition.clearing_prices winning_solution)) in
  Ok (DomainCompetition.mkSolution (winner competition) score (list_to_map (rev orders)) (list_to_map prices)).
End Persistence.

(** * domain/settlement/mod.rs *)
Module StagedSettlement.
Import Persistence.
Record Settlement : Type := mkSettlement {
  solution : OnchainSolution.Solution;
  transaction : Updater.Transaction;
  auction : SettlementAuction.Auction;
}.
Inductive InconsistentData : Type :=
| DataAuctionNotFound
| DataSolutionNotFound
| DataInvalidFeePolicy (e : FeePolicies.Error) (order : Z)
| DataInvalidPrice (token : Z)
| DataInvalidScore
| DataInvalidSolverCompetition.
Inductive Error : Type :=
| Inconsistent (e : InconsistentData)
| WrongEnvironment
| BuildingSolution (e : OnchainSolution.Error)
| BuildingScore (e : OnchainSolution.ScoreError)
| SolverMismatch (expected got : Z).
Definition from_auction_error (e : AuctionError) : Error :=
  match e with
  | AuctionNotFound => Inconsistent DataAuctionNotFound
  | InvalidFeePolicy e order => Inconsistent (DataInvalidFeePolicy e order)
  | InvalidPrice token => Inconsistent (DataInvalidPrice token)
  end.
(** The conversion of one error is left as [todo!]. *)
Definition from_solution_error {A} (m : res SolutionError A) : res Error A :=
  match m with
  | Ok a => Ok a
  | Err SolutionNotFound => Err (Inconsistent DataSolutionNotFound)
  | Err InvalidScore => Err (Inconsistent DataInvalidScore)
  | Err InvalidSolverCompetition => Err (Inconsistent DataInvalidSolverCompetition)
  | Err (InvalidSolutionPrice _) => Panic
  | Panic => Panic
  end.
(** The auction an error is about, as far as it is known. *)
Definition error_auction_id (e : OnchainSolution.Error) : option Z :=
  match e with
  | OnchainSolution.Decoding (Tokenized.Ethabi id) => Some id
  | OnchainSolution.Decoding _ => None
  | OnchainSolution.OrderUidRecover id => Some id
  end.

Section staged.
Context (lossy : F64.f64 -> Z) (selector : list byte) (decode_input : list byte -> option Tokenized.Decoded).
Context (order_uid : Tokenized.Trade -> list Z -> option Z).

Definition with_ {A} (id : Z) (m : res Error A) : res (Error * option Z) A := map_err (fun e => (e, Some id)) m.
Definition new (self : Competitions.Competitions) (db : Database.Db) (tx : Updater.Transaction)
  : res (Error * option Z) Settlement :=
  let* solution :=
    map_err (fun e => (BuildingSolution e, error_auction_id e))
      (OnchainSolution.new selector decode_input order_uid (Updater.input tx)) in
  let auction_id := OnchainSolution.auction_id solution in
  if auction_has_settlement db auction_id then with_ auction_id (Err WrongEnvironment)
  else
    let* auction := with_ auction_id (map_err from_auction_error (get_auction self db auction_id)) in
    let* promised := with_ auction_id (from_solution_error (get_winning_solution self auction_id)) in
    if negb (Updater.solver tx =? DomainCompetition.solver promised) then
      with_ auction_id (Err (SolverMismatch (DomainCompetition.solver promised) (Updater.solver tx)))
    else
      let* _ := with_ auction_id (map_err BuildingScore (OnchainSolution.score lossy solution auction)) in
      Ok (mkSettlement solution tx auction).
Definition native_surplus (self : Settlement) : res OnchainTrade.Error Z :=
  OnchainSolution.native_surplus (solution self) (auction self).
Definition native_fee (self : Settlement) : res OnchainTrade.Error Z :=
  OnchainSolution.native_fee (solution self) (SettlementAuction.prices (auction self)).
Definition order_fees (self : Settlement) : res OnchainTrade.Error (gmap Z (option Z)) :=
  OnchainSolution.fees (solution self) (SettlementAuction.prices (auction self)).
End staged.
End StagedSettlement.

(** * Lemmas *)
Import Competitions Persistence.

(** ** Tables *)
Lemma insert_unique_Ok {K A} `{Countable K} (t t' : gmap K A) k a :
  insert_unique t k a = Ok t' -> t !! k = None /\ t' = <[k := a]> t.
Proof. unfold insert_unique. destruct (t !! k) eqn:Hk; [done|]. by intros [= <-]. Qed.

Lemma insert_prices_Ok t id l t' : insert_prices t id l = Ok t' ->
  forall k p, t' !! k = Some p <-> t !! k = Some p \/ (k.1 = id /\ (k.2, p) ∈ l).
Proof.
  revert t. induction l as [|[token price] l IH]; intros t; cbn [insert_prices rfold].
  { intros [= <-] k p. split; [by left|]. by intros [?|[_ []%not_elem_of_nil]]. }
  intros Hl k p. destruct (insert_unique t (id, token) price) as [t1| |] eqn:Hi; [|done..].
  apply insert_unique_Ok in Hi as [Hn ->]. rewrite (IH _ Hl), lookup_insert_Some, elem_of_cons.
  destruct k as [i tok]. cbn [fst snd]. split.
  - intros [[[[= <- <-] <-]|[_ ?]]|[? ?]]; [right; by split; [|left]|by left|right; by split; [|right]].
  - intros [Ht|[-> [[= -> ->]|?]]]; [|by left; left|by right].
    left. right. split; [|done]. intros [= <- <-]. by rewrite Hn in Ht.
Qed.

Lemma prices_of_elem self id token price :
  (token, price) ∈ prices_of self id <-> auction_prices self !! (id, token) = Some price.
Proof.
  unfold prices_of. rewrite list_elem_of_omap, <- elem_of_map_to_list. split.
  - intros ([[i t] p] & Hin & Hif). cbn [fst snd] in Hif. destruct (Z.eqb_spec i id) as [->|]; [|done].
    by injection Hif as -> ->.
  - intros Hin. exists ((id, token), price). split; [done|]. cbn. by rewrite Z.eqb_refl.
Qed.

Lemma NoDup_omap_fst {A B K L} (f : A * B -> option (K * L)) (l : list (A * B)) :
  (forall x y k v w, x ∈ l -> y ∈ l -> f x = Some (k, v) -> f y = Some (k, w) -> x.1 = y.1) ->
  NoDup l.*1 -> NoDup (omap f l).*1.
Proof.
  intros Hf. induction l as [|x l IH]; cbn; [constructor|]. intros [Hx Hl]%NoDup_cons.
  assert (Hl' : NoDup (omap f l).*1) by (apply IH; [|done]; intros; eapply Hf; [by right|by right|done|done]).
  destruct (f x) as [[k v]|] eqn:Hfx; [|done]. cbn. apply NoDup_cons. split; [|done].
  intros ([k' w] & -> & (y & Hy & Hfy)%list_elem_of_omap)%list_elem_of_fmap. cbn in Hfx.
  apply Hx. apply list_elem_of_fmap. exists y. split; [|done].
  eapply Hf; [by left|by right|exact Hfx|exact Hfy].
Qed.

Lemma NoDup_prices_of self id : NoDup (prices_of self id).*1.
Proof.
  unfold prices_of. apply NoDup_omap_fst; [|apply NoDup_fst_map_to_list].
  intros [[i t] p] [[i' t'] p'] k v w _ _. cbn.
  destruct (Z.eqb_spec i id) as [->|]; [|done]. destruct (Z.eqb_spec i' id) as [->|]; [|done]. congruence.
Qed.

Lemma concat_chunks {A} size (l : list A) : size <> O -> concat (chunks size l) = l.
Proof.
  intros Hs. unfold chunks. assert (Hg : forall fuel (l : list A), (length l <= fuel)%nat -> concat (chunks_fuel fuel size l) = l).
  { clear l. induction fuel as [|fuel IH]; intros [|a l] Hl; cbn in Hl |- *; [done|lia|done|].
    rewrite IH; [by rewrite take_drop|]. rewrite length_drop. cbn. lia. }
  by apply Hg.
Qed.

Lemma rmap_id {E A B} (f : A -> res E B) (g : A -> B) l : (forall a, a ∈ l -> f a = Ok (g a)) -> rmap f l = Ok (map g l).
Proof.
  intros Hf. apply rmap_Ok. induction l as [|a l IH]; cbn; constructor; [apply Hf; by left|].
  apply IH. intros b Hb. apply Hf. by right.
Qed.

(** ** Fee policies *)
Definition policy_rows (id : Z) (policies : list (Z * list FeePolicy.Policy)) : list FeePolicies.FeePolicyRow :=
  concat (map (fun '(uid, policies) => map (FeePolicies.from_domain id uid) policies) policies).

Lemma policy_rows_concat id ls : policy_rows id (concat ls) = concat (map (policy_rows id) ls).
Proof. unfold policy_rows. induction ls as [|l ls IH]; cbn; [done|]. by rewrite map_app, concat_app, IH. Qed.

Lemma store_fee_policies_rows size self id policies : size <> O ->
  store_fee_policies size self id policies =
  mkCompetitions (auctions self) (next_auction_id self) (solver_competitions self) (settlement_scores self)
    (auction_participants self) (auction_prices self) (settlement_call_data self) (auction_orders self)
    (surplus_capturing_jit_order_owners self) (fee_policies self ++ policy_rows id policies).
Proof.
  intros Hs. unfold store_fee_policies. rewrite <- (concat_chunks size policies Hs) at 2. rewrite policy_rows_concat.
  generalize (chunks size policies) as ls. intros ls. revert self.
  induction ls as [|l ls IH]; intros self; cbn [foldl map concat]; [destruct self; by rewrite app_nil_r|].
  rewrite IH. unfold insert_batch. cbn. by rewrite <- app_assoc.
Qed.

Lemma from_domain_columns id uid p :
  FeePolicies.policy_auction_id (FeePolicies.from_domain id uid p) = id /\
  FeePolicies.policy_order_uid (FeePolicies.from_domain id uid p) = uid.
Proof. by destruct p. Qed.

Definition rows_by (uid : Z) (l : list FeePolicies.FeePolicyRow) : list FeePolicies.FeePolicyRow :=
  filter (fun row => FeePolicies.policy_order_uid row = uid) l.
Lemma group_by_order (l : list FeePolicies.FeePolicyRow) (m : gmap Z (list FeePolicies.FeePolicyRow)) uid :
  foldl (fun m row => <[FeePolicies.policy_order_uid row := default [] (m !! FeePolicies.policy_order_uid row) ++ [row]]> m) m l !! uid =
  match rows_by uid l with [] => m !! uid | rows => Some (default [] (m !! uid) ++ rows) end.
Proof.
  revert m. induction l as [|row l IH]; intros m; cbn [foldl]; [done|].
  rewrite IH. unfold rows_by. rewrite filter_cons. destruct (decide (FeePolicies.policy_order_uid row = uid)) as [<-|Hne].
  - rewrite lookup_insert_eq. cbn [default]. destruct (filter _ l); [done|]. cbn. by rewrite <- app_assoc.
  - by rewrite lookup_insert_ne.
Qed.

Lemma rows_by_policy_rows id uid policies : NoDup policies.*1 ->
  rows_by uid (policy_rows id policies) = map (FeePolicies.from_domain id uid) (default [] ((list_to_map policies : gmap Z _) !! uid)).
Proof.
  unfold rows_by, policy_rows. induction policies as [|[u ps] policies IH]; cbn [map concat fmap list_fmap]; [done|].
  intros [Hu Hnd]%NoDup_cons. rewrite filter_app, (IH Hnd). cbn [list_to_map foldr]. cbn [uncurry fst snd] in *.
  assert (Hf : filter (fun row => FeePolicies.policy_order_uid row = uid) (map (FeePolicies.from_domain id u) ps) =
    if decide (u = uid) then map (FeePolicies.from_domain id u) ps else []).
  { clear. induction ps as [|p ps IH]; cbn [map]; [by case_decide|]. rewrite filter_cons, IH.
    destruct (from_domain_columns id u p) as [_ ->]. by case_decide. }
  rewrite Hf. case_decide as Heq; [subst u|by rewrite lookup_insert_ne].
  rewrite lookup_insert_eq. rewrite not_elem_of_list_to_map_1 by done. cbn. by rewrite app_nil_r.
Qed.

(** Nothing of the auction is stored yet. *)
Record fresh (self : Competitions) (id : Z) : Prop := {
  fresh_prices token : auction_prices self !! (id, token) = None;
  fresh_policies row : row ∈ fee_policies self -> FeePolicies.policy_auction_id row <> id;
}.
(** A policy that is the same when it is read: its factors are factors, and its
    quote is the one of the order. *)
Definition readable (db : Database.Db) (uid : Z) (p : FeePolicy.Policy) : Prop :=
  match p with
  | FeePolicy.Surplus factor cap => FeeFactor.in_range factor = true /\ FeeFactor.in_range cap = true
  | FeePolicy.Volume factor => FeeFactor.in_range factor = true
  | FeePolicy.PriceImprovement factor cap quote =>
      FeeFactor.in_range factor = true /\ FeeFactor.in_range cap = true /\
      exists row q, Database.order_quotes db !! uid = Some row /\ QuoteDto.into_domain uid row = Ok q /\ ProtocolFee.quote_from q = quote
  end.

Lemma filter_agree {A} (P Q : A -> Prop) `{!forall x, Decision (P x), !forall x, Decision (Q x)} (l : list A) :
  (forall x, x ∈ l -> P x <-> Q x) -> filter P l = filter Q l.
Proof.
  induction l as [|x l IH]; intros Hl; [done|]. rewrite !filter_cons, IH by (intros; apply Hl; by right).
  pose proof (Hl x ltac:(by left)). repeat case_decide; naive_solver.
Qed.
Lemma policy_rows_elem id policies row : row ∈ policy_rows id policies ->
  FeePolicies.policy_auction_id row = id /\ FeePolicies.policy_order_uid row ∈ policies.*1.
Proof.
  unfold policy_rows. induction policies as [|[u ps] policies IH]; cbn [map concat fmap list_fmap]; [by intros []%not_elem_of_nil|].
  intros [(p & -> & _)%list_elem_of_fmap|[? ?]%IH]%elem_of_app.
  - destruct (from_domain_columns id u p) as [-> ->]. split; [done|]. by left.
  - split; [done|]. by right.
Qed.

(** The policies of the auction that are read, by their orders. *)
Lemma fetch_all_rows self tables id policies orders uid : NoDup policies.*1 -> fresh self id ->
  fee_policies tables = fee_policies self ++ policy_rows id policies ->
  fetch_all tables id orders !! uid =
  if decide (uid ∈ orders) then
    match map (FeePolicies.from_domain id uid) (default [] ((list_to_map policies : gmap Z _) !! uid)) with
    | [] => None
    | rows => Some rows
    end
  else None.
Proof.
  intros Hnd [_ Hold] Ht. unfold fetch_all. rewrite group_by_order, lookup_empty, <- rows_by_policy_rows by done.
  unfold rows_by. rewrite Ht, list_filter_filter, filter_app, (filter_none _ (fee_policies self)).
  2: { apply Forall_forall. intros row Hr (? & ? & ?). by eapply Hold. }
  cbn [app]. case_decide as Huid.
  - rewrite (filter_agree _ (fun row => FeePolicies.policy_order_uid row = uid)); [by destruct (filter _ _)|].
    intros row [Hid _]%policy_rows_elem. split; [by intros [? ?]|]. by intros <-.
  - rewrite filter_none; [done|]. apply Forall_forall. by intros row _ (<- & _ & ?).
Qed.

Lemma read_quotes_lookup db uids uid row q : uid ∈ uids -> Database.order_quotes db !! uid = Some row ->
  QuoteDto.into_domain uid row = Ok q -> AutopilotDb.read_quotes db uids !! uid = Some q.
Proof.
  intros Hin Hrow Hq. unfold AutopilotDb.read_quotes. induction uids as [|u uids IH]; [by apply not_elem_of_nil in Hin|].
  cbn [omap list_omap]. destruct (decide (u = uid)) as [->|Hne].
  - rewrite Hrow. cbn [mbind option_bind]. rewrite Hq. cbn. by rewrite lookup_insert_eq.
  - apply elem_of_cons in Hin as [?|Hin]; [done|]. specialize (IH Hin).
    destruct (Database.order_quotes db !! u) as [r|]; cbn [mbind option_bind]; [|done].
    destruct (QuoteDto.into_domain u r) as [q'| |]; [|done..]. cbn. by rewrite lookup_insert_ne.
Qed.

Lemma try_into_from db quotes id uid p : readable db uid p ->
  (forall factor cap quote, p = FeePolicy.PriceImprovement factor cap quote ->
     forall row q, Database.order_quotes db !! uid = Some row -> QuoteDto.into_domain uid row = Ok q -> quotes = Some q) ->
  FeePolicies.try_into_domain (FeePolicies.from_domain id uid p) quotes = Ok p.
Proof.
  unfold FeePolicies.try_into_domain, FeePolicies.factor_of, FeeFactor.try_from.
  destruct p as [f c|f c q|f]; cbn.
  - by intros [-> ->].
  - intros (-> & -> & row & q' & Hrow & Hq & <-) Hquotes. rewrite (Hquotes f c _ eq_refl row q' Hrow Hq). done.
  - by intros ->.
Qed.

Lemma is_price_improvement_from id uid p :
  is_price_improvement (FeePolicies.from_domain id uid p) = match p with FeePolicy.PriceImprovement _ _ _ => true | _ => false end.
Proof. by destruct p. Qed.

(** Every order of the auction has the policies that were stored for it. *)
Lemma policies_of_stored self tables db id policies (orders : gset Z) uid : NoDup policies.*1 -> fresh self id ->
  fee_policies tables = fee_policies self ++ policy_rows id policies -> uid ∈ orders ->
  (forall uid ps p, (uid, ps) ∈ policies -> p ∈ ps -> readable db uid p) ->
  let stored := fetch_all tables id orders in
  policies_of (AutopilotDb.read_quotes db (map fst (filter (fun e : Z * _ => existsb is_price_improvement e.2) (map_to_list stored))))
    stored uid = Ok (uid, default [] ((list_to_map policies : gmap Z _) !! uid)).
Proof.
  intros Hnd Hf Ht Huid Hread stored. unfold policies_of.
  pose proof (fetch_all_rows self tables id policies orders uid Hnd Hf Ht) as Hl. rewrite decide_True in Hl by done.
  fold stored in Hl. set (ps := default [] ((list_to_map policies : gmap Z _) !! uid)) in *.
  assert (Hps : forall p, p ∈ ps -> readable db uid p).
  { intros p Hp. subst ps. destruct (list_to_map policies !! uid) as [ps|] eqn:Hm; [|by apply not_elem_of_nil in Hp].
    apply elem_of_list_to_map_2 in Hm. by eapply Hread. }
  set (quotes := AutopilotDb.read_quotes _ _).
  assert (Hg : rmap (fun row => map_err (fun e => InvalidFeePolicy e uid) (FeePolicies.try_into_domain row (quotes !! uid)))
    (map (FeePolicies.from_domain id uid) ps) = Ok ps).
  { apply rmap_Ok, Forall2_fmap_l, Forall_Forall2_diag, Forall_forall. intros p Hp. cbn.
    rewrite (try_into_from db); [done|by apply Hps|]. intros factor cap quote -> row q Hrow Hq.
    apply (read_quotes_lookup _ _ _ row); [|done..]. apply list_elem_of_fmap.
    exists (uid, map (FeePolicies.from_domain id uid) ps). split; [done|]. apply list_elem_of_filter. split.
    - apply Is_true_true, existsb_exists. eexists. split; [apply in_map, list_elem_of_In, Hp|]. by rewrite is_price_improvement_from.
    - apply elem_of_map_to_list. rewrite Hl. destruct ps; [by apply not_elem_of_nil in Hp|done]. }
  rewrite Hl. destruct ps; [done|]. cbn [map] in Hg |- *. by rewrite Hg.
Qed.

Lemma price_of_Ok token price : 0 < price <= U256_MAX -> price_of (token, price) = Ok (token, price).
Proof.
  intros Hp. unfold price_of, OrderStoring.big_decimal_to_u256, u256b, AutopilotAuction.price_new.
  rewrite (proj2 (Z.leb_le 0 price)), (proj2 (Z.leb_le price _)) by lia. cbn [andb ok_or rbind].
  by rewrite (proj2 (Z.eqb_neq price 0)) by lia.
Qed.
Lemma rmap_same {E A} (f : A -> res E A) l : (forall a, a ∈ l -> f a = Ok a) -> rmap f l = Ok l.
Proof. intros Hf. rewrite (rmap_id f (fun a => a)) by done. by rewrite map_id. Qed.

(** ** What a competition reads back as *)
Record recorded (table : SolverCompetition.SolverCompetitionDB) (orders : gmap Z (Z * Z)) (prices : gmap Z Z) : Prop := {
  recorded_solution : exists s, last (SolverCompetition.solutions table) = Some s /\
    SolverCompetition.settlement_orders s = colocated orders /\ SolverCompetition.clearing_prices s = prices;
  recorded_prices token price : prices !! token = Some price -> price <> 0;
}.

Lemma insert_participants_Ok t id ps t' : insert_participants t id ps = Ok t' ->
  forall a p, (a, p) ∈ t' <-> (a, p) ∈ t \/ (a = id /\ p ∈ ps).
Proof.
  revert t. induction ps as [|q ps IH]; intros t; cbn [insert_participants rfold].
  { intros [= <-] a p. set_solver. }
  intros H a p. case_bool_decide; [done|]. cbn [rbind] in H. rewrite (IH _ H), elem_of_cons. set_solver.
Qed.

(** The transaction adds the rows of an auction that has none. *)
Record saved (self : Competitions) (c : Competition) (self1 : Competitions) : Prop := {
  saved_new : solver_competitions self !! auction_id c = None /\ settlement_scores self !! auction_id c = None;
  saved_table : solver_competitions self1 = <[auction_id c := competition_table c]> (solver_competitions self);
  saved_scores : settlement_scores self1 = <[auction_id c := mkScoreRow (competition_winner c) (competition_winning_score c)
    (competition_reference_score c) (competition_block_deadline c) (competition_simulation_block c)]> (settlement_scores self);
  saved_participants a p : (a, p) ∈ auction_participants self1 <->
    (a, p) ∈ auction_participants self \/ (a = auction_id c /\ p ∈ participants c);
  saved_prices a token price : (token, price) ∈ prices_of self1 a <->
    (token, price) ∈ prices_of self a \/ (a = auction_id c /\ competition_prices c !! token = Some price);
  saved_call_data : settlement_call_data self1 = <[auction_id c := (call_data c, uninternalized_call_data c)]> (settlement_call_data self);
  saved_orders : auction_orders self1 =
    <[auction_id c := SolverCompetition.orders (SolverCompetition.auction (competition_table c))]> (auction_orders self);
  saved_rest : fee_policies self1 = fee_policies self /\ next_auction_id self1 = next_auction_id self /\
    surplus_capturing_jit_order_owners self1 = surplus_capturing_jit_order_owners self /\ auctions self1 = auctions self;
}.
Lemma save_competition_saved self c self1 : save_competition self c = Ok self1 -> saved self c self1.
Proof.
  intros Hs. unfold save_competition, to_i64 in Hs. inv_ok.
  repeat match goal with H : insert_unique _ _ _ = Ok _ |- _ => apply insert_unique_Ok in H as [? ->] end.
  match goal with H : insert_prices _ _ _ = Ok _ |- _ => pose proof (insert_prices_Ok _ _ _ _ H) as Hprices end.
  match goal with H : insert_participants _ _ _ = Ok _ |- _ => pose proof (insert_participants_Ok _ _ _ _ H) as Hpart end.
  repeat match goal with H : (if _ then Ok _ else _) = Ok _ |- _ => case_match; simplify_eq end.
  split; cbn; try done.
  - intros a p. rewrite Hpart. by rewrite elem_of_elements.
  - intros a token price. rewrite !prices_of_elem. cbn [auction_prices]. rewrite Hprices. cbn [fst snd]. by rewrite elem_of_map_to_list.
Qed.

Lemma get_winning_solution_recorded tables table id row orders prices :
  solver_competitions tables !! id = Some table -> settlement_scores tables !! id = Some row ->
  0 < winning_score row <= U256_MAX -> recorded table orders prices ->
  get_winning_solution tables id = Ok (DomainCompetition.mkSolution (winner row) (winning_score row) orders prices).
Proof.
  intros Ht Hr Hw [(s & Hl & Ho & Hc) Hp]. unfold get_winning_solution. rewrite Hr. cbn [ok_or rbind].
  unfold OrderStoring.big_decimal_to_u256, u256b, DomainCompetition.score_new.
  rewrite (proj2 (Z.leb_le 0 _)), (proj2 (Z.leb_le _ U256_MAX)) by lia. cbn [andb ok_or rbind].
  rewrite (proj2 (Z.eqb_neq _ 0)) by lia. cbn [map_err rbind]. rewrite Ht. cbn [ok_or rbind]. rewrite Hl. cbn [ok_or rbind].
  rewrite Ho, Hc. unfold colocated.
  assert (Horders : rmap traded_amounts (map (fun '(id, (sell, buy)) => SolverCompetition.Colocated id sell buy) (map_to_list orders)) =
    Ok (map_to_list orders)).
  { apply rmap_Ok, Forall2_fmap_l, Forall_Forall2_diag, Forall_true. by intros [i [a b]]. }
  rewrite Horders. cbn [rbind]. rewrite rmap_same.
  - cbn [rbind]. rewrite list_to_map_to_list. do 2 f_equal.
    rewrite <- (list_to_map_to_list orders) at 2. apply list_to_map_proper.
    + rewrite <- Permutation_rev. apply NoDup_fst_map_to_list.
    + by rewrite <- Permutation_rev.
  - intros [token price] Hin%elem_of_map_to_list. unfold solution_price, AutopilotAuction.price_new. cbn.
    by rewrite (proj2 (Z.eqb_neq price 0)) by (by eapply Hp).
Qed.

Lemma get_auction_stored self tables db id prices orders owners policies :
  fresh self id -> NoDup policies.*1 -> (forall uid ps p, (uid, ps) ∈ policies -> p ∈ ps -> readable db uid p) ->
  (forall token price, (token, price) ∈ prices_of tables id <-> prices !! token = Some price) ->
  (forall token price, prices !! token = Some price -> 0 < price <= U256_MAX) ->
  auction_orders tables !! id = Some orders -> surplus_capturing_jit_order_owners tables !! id = Some owners ->
  fee_policies tables = fee_policies self ++ policy_rows id policies ->
  exists auction, get_auction tables db id = Ok auction /\ SettlementAuction.id auction = id /\
    (forall uid, SettlementAuction.orders auction !! uid =
      if decide (uid ∈ orders) then Some (default [] ((list_to_map policies : gmap Z _) !! uid)) else None) /\
    SettlementAuction.prices auction = prices /\ SettlementAuction.surplus_capturing_jit_order_owners auction = list_to_set owners.
Proof.
  intros Hf Hnd Hread Hp Hv Ho Hj Hr. unfold get_auction. rewrite Hj. cbn [ok_or rbind].
  rewrite rmap_same; [cbn [rbind]|intros [t p] Hin; apply price_of_Ok, (Hv t), Hp, Hin].
  rewrite Ho. cbn [ok_or rbind].
  rewrite (rmap_id _ (fun uid => (uid, default [] ((list_to_map policies : gmap Z _) !! uid)))).
  2: { intros uid Huid%elem_of_elements. by eapply policies_of_stored. }
  cbn [rbind]. eexists. split; [reflexivity|]. split; [done|]. cbn. split_and!; [| |done].
  - intros uid. case_decide as Hin.
    + apply elem_of_list_to_map_1.
      * rewrite <- list_fmap_compose. apply NoDup_fmap_2_strong; [done|]. apply NoDup_elements.
      * apply list_elem_of_fmap. exists uid. split; [done|]. by apply elem_of_elements, elem_of_list_to_set.
    + apply not_elem_of_list_to_map_1. intros ([u ps] & -> & (u' & [= <- _] & Hu)%list_elem_of_fmap)%list_elem_of_fmap.
      apply Hin. by apply elem_of_elements, elem_of_list_to_set in Hu.
  - apply map_eq. intros token. apply option_eq. intros price. rewrite <- Hp. symmetry. apply elem_of_list_to_map, NoDup_prices_of.
Qed.

(** ** Auctions that are stored and sent *)
Lemma policy_dto_roundtrip {E} (p : FeePolicy.Policy) :
  match p with
  | FeePolicy.Surplus factor cap => FeeFactor.in_range factor = true /\ FeeFactor.in_range cap = true
  | FeePolicy.PriceImprovement factor cap _ => FeeFactor.in_range factor = true /\ FeeFactor.in_range cap = true
  | FeePolicy.Volume factor => FeeFactor.in_range factor = true
  end -> AuctionDto.policy_to_domain (E := E) (AuctionDto.policy_from_domain p) = Ok p.
Proof.
  unfold AuctionDto.policy_to_domain, AuctionDto.policy_from_domain, FeeFactor.try_from.
  destruct p as [f c|f c []|f]; cbn; [by intros [-> ->]..|by intros ->].
Qed.

(** The auction that is sent to drivers is the one that was cut, as long as its
    policies and prices are what their types promise. *)
Theorem auction_dto_reads_back (auction : AutopilotAuction.Auction) :
  (forall o p, o ∈ AutopilotAuction.orders auction -> p ∈ AutopilotAuction.protocol_fees o ->
     AuctionDto.policy_to_domain (E := unit) (AuctionDto.policy_from_domain p) = Ok p) ->
  (forall token price, AutopilotAuction.prices auction !! token = Some price -> price <> 0) ->
  AuctionDto.try_to_domain (AuctionDto.from_domain auction) = Ok auction.
Proof.
  intros Hp Hprices. unfold AuctionDto.try_to_domain, AuctionDto.from_domain, AuctionDto.prices_new. cbn.
  assert (Ho : rmap AuctionDto.order_to_domain (map AuctionDto.order_from_domain (AutopilotAuction.orders auction)) =
    Ok (E := unit) (AutopilotAuction.orders auction)).
  { apply rmap_Ok, Forall2_fmap_l, Forall_Forall2_diag, Forall_forall. intros o Hin. unfold AuctionDto.order_to_domain. cbn.
    assert (Hf : rmap AuctionDto.policy_to_domain (map AuctionDto.policy_from_domain (AutopilotAuction.protocol_fees o)) =
      Ok (E := unit) (AutopilotAuction.protocol_fees o)).
    { apply rmap_Ok, Forall2_fmap_l, Forall_Forall2_diag, Forall_forall. intros p Hin'. by eapply Hp. }
    rewrite Hf. by destruct o as [? [] []]. }
  rewrite Ho. cbn [rbind]. rewrite rmap_same.
  - cbn [rbind]. rewrite list_to_map_to_list. by destruct auction.
  - intros [token price] Hin%elem_of_map_to_list. unfold AutopilotAuction.price_new.
    by rewrite (proj2 (Z.eqb_neq price 0)) by by eapply Hprices.
Qed.
