(* ===== verification/RunLoop.v ===== *)
(** The run loop of the autopilot (crates/autopilot/src/run_loop.rs), which lets
    the drivers compete for an auction and has the winner settle it, with the
    requests and answers of drivers (infra/solvers/dto/solve.rs) and the search
    for the transaction (database/recent_settlements.rs).

    What the drivers, the node and the contract answer while an auction is run
    is a record, so that a run is a function of the state. The tables it fills
    are those of CompetitionStore.v; those of settlements (SettlementIndex.v)
    are filled by another task, and seen by the loop when it polls. *)
From Stdlib Require Import ZArith Lia QArith Qcanon SpecFloat.
From stdpp Require Import prelude gmap strings sorting.
From S2P Require Import Prelude U256 Bytes Floats EventHandling DriverOrder ModelOrder OrderStore SettlementEncoder DecodedSettlement OnchainSettlement.
From S2P Require Import ProtocolFees SolvableOrders SettlementIndex CompetitionStore.

Open Scope Z_scope.
Open Scope rust_scope.

(** * infra/solvers/dto/solve.rs *)
Module SolversDto.
Record Solution : Type := mkSolution {
  solution_id : Z;
  score : Z;
  submission_address : Z;
  orders : gmap Z (Z * Z);
  clearing_prices : gmap Z Z;
}.
Definition into_domain (self : Solution) : res DomainCompetition.SolutionError DomainCompetition.SolutionWithId :=
  let* score := map_err (fun _ => DomainCompetition.ZeroScore) (DomainCompetition.score_new (score self)) in
  let* prices := map_err (fun _ => DomainCompetition.InvalidPrice) (AuctionDto.prices_new (clearing_prices self)) in
  Ok (DomainCompetition.mkSolutionWithId (solution_id self)
        (DomainCompetition.mkSolution (submission_address self) score (orders self) prices)).

Record Token : Type := mkToken { address : Z; price : option Z; trusted : bool }.
Record Request : Type := mkRequest {
  request_id : Z;
  tokens : list Token;
  request_orders : list AuctionDto.OrderDto;
  deadline : Z;
  request_jit_order_owners : list Z;
}.
(** [unique_by]: the first of each key stays. *)
Fixpoint unique_by {A K} `{EqDecision K} (key : A -> K) (seen : list K) (l : list A) : list A :=
  match l with
  | [] => []
  | a :: l => if bool_decide (key a ∈ seen) then unique_by key seen l else a :: unique_by key (key a :: seen) l
  end.
Definition request_new (id : Z) (auction : AutopilotAuction.Auction) (trusted_tokens : gset Z) (now time_limit : Z) : Request :=
  mkRequest id
    (unique_by address []
      (map (fun '(token, price) => mkToken token (Some price) (bool_decide (token ∈ trusted_tokens)))
         (map_to_list (AutopilotAuction.prices auction))
       ++ map (fun token => mkToken token None true) (elements trusted_tokens)))
    (map AuctionDto.order_from_domain (AutopilotAuction.orders auction))
    (now + time_limit) (AutopilotAuction.surplus_capturing_jit_order_owners auction).
End SolversDto.

(** * run_loop.rs *)
Module RunLoop.
Import DomainCompetition Competitions.
Record InFlightOrders : Type := mkInFlightOrders { in_flight_tx_hash : Z; in_flight_uids : gset Z }.
Record Participant : Type := mkParticipant { driver : string; participant_solution : SolutionWithId }.
Inductive SolveError : Type := SolveTimeout | NoSolutionsProposed | SolveFailure.
Inductive RevealError : Type := AuctionMismatch | RevealFailure.

(** The state the loop works on *)
Record World : Type := mkWorld {
  world_db : Database.Db;
  competitions : Competitions;
  in_flight_orders : option InFlightOrders;
}.
Definition set_db (self : World) (db : Database.Db) : World := mkWorld db (competitions self) (in_flight_orders self).
Definition set_competitions (self : World) (c : Competitions) : World := mkWorld (world_db self) c (in_flight_orders self).
Definition set_in_flight (self : World) (o : option InFlightOrders) : World := mkWorld (world_db self) (competitions self) o.

(** Whether the transaction is seen before the driver answers. *)
Inductive Race : Type := TransactionFirst | DriverFirst (settled : bool).
(** What is answered while an auction is run. A driver that does not answer in
    time has no answer; a poll is a block number and the tables at that time. *)
Record Answers : Type := mkAnswers {
  solve_answer : string -> SolversDto.Request -> option (res unit (list SolversDto.Solution));
  is_solver : Z -> option bool;
  reveal_answer : string -> Z -> option (list byte * list byte);
  previous_settlement : Z -> option Z;
  shuffle : list Participant -> list Participant;
  current_block : Z;
  wall_clock : Z;
  polls : list (Z * option Database.Indexed);
  race : Race;
}.

Section run_loop.
Context (drivers : list string) (trusted_tokens : gset Z) (submission_deadline solve_deadline : Z) (insert_batch_size : nat).
Context (limit_1 : list Database.SettlementRow -> option Database.SettlementRow).

(** ** Auctions *)
Definition is_liquidity (order : AutopilotAuction.Order) : bool :=
  match AutopilotAuction.order_class order with ModelOrder.Liquidity => true | _ => false end.
Definition next_auction (self : World) (current_auction : option AutopilotAuction.Auction)
  : World * option (Z * AutopilotAuction.Auction) :=
  match current_auction with
  | None => (self, None)
  | Some auction =>
      let '(c, id) := replace_current_auction (competitions self) (AuctionDto.from_domain auction) in
      let self := set_competitions self c in
      if forallb is_liquidity (AutopilotAuction.orders auction) then (self, None) else (self, Some (id, auction))
  end.
Definition U64_MAX : Z := 2 ^ 64 - 1.
(** If the transaction is not found, all its orders are assumed in flight. *)
Definition remove_in_flight_orders (answers : Answers) (self : World) (auction : AutopilotAuction.Auction)
  : AutopilotAuction.Auction :=
  match in_flight_orders self with
  | None => auction
  | Some in_flight =>
      let prev_settlement_block := default U64_MAX (previous_settlement answers (in_flight_tx_hash in_flight)) in
      if AutopilotAuction.latest_settlement_block auction <? prev_settlement_block
      then AutopilotAuction.mkAuction (AutopilotAuction.block auction) (AutopilotAuction.latest_settlement_block auction)
             (List.filter (fun o => negb (bool_decide (AutopilotAuction.order_uid o ∈ in_flight_uids in_flight)))
                (AutopilotAuction.orders auction))
             (AutopilotAuction.prices auction) (AutopilotAuction.surplus_capturing_jit_order_owners auction)
      else auction
  end.

(** ** The competition *)
Definition check_allowed (answers : Answers) (solution_ : res SolutionError SolutionWithId) : res SolutionError SolutionWithId :=
  let* s := solution_ in
  match is_solver answers (solver (solution s)) with
  | Some true => Ok s
  | _ => Err SolverDenyListed
  end.
Definition solve (answers : Answers) (driver_ : string) (request : SolversDto.Request)
  : res SolveError (list (res SolutionError SolutionWithId)) :=
  match solve_answer answers driver_ request with
  | None => Err SolveTimeout
  | Some (Ok []) => Err NoSolutionsProposed
  | Some (Ok solutions) => Ok (map (fun s => check_allowed answers (SolversDto.into_domain s)) solutions)
  | Some _ => Err SolveFailure
  end.
(** The valid solutions of a driver *)
Definition participants_of (answers : Answers) (request : SolversDto.Request) (driver_ : string) : list Participant :=
  omap (fun s => match s with Ok s => Some (mkParticipant driver_ s) | _ => None end)
    (match solve answers driver_ request with Ok solutions => solutions | _ => [] end).
Definition auction_uids (auction : AutopilotAuction.Auction) : list Z :=
  map AutopilotAuction.order_uid (AutopilotAuction.orders auction).
Definition store_events (answers : Answers) (self : World) (uids : list Z) (label : Database.OrderEventLabel) : World :=
  set_db self (AutopilotDb.store_order_events (world_db self) uids label (wall_clock answers)).
Definition competition (answers : Answers) (self : World) (id : Z) (auction : AutopilotAuction.Auction)
  : World * list Participant :=
  let request := SolversDto.request_new id auction trusted_tokens (wall_clock answers) solve_deadline in
  (store_events answers self (auction_uids auction) Database.Ready,
   concat (map (participants_of answers request) drivers)).

(** The score of a participant; the sort is of a list that was shuffled. *)
Definition score_of (p : Participant) : Z := score (solution (participant_solution p)).
Definition by_score (a b : Participant) : Prop := score_of a <= score_of b.
#[export] Instance by_score_dec : RelDecision by_score.
Proof. intros a b. unfold by_score. apply _. Defined.
Definition ranked (answers : Answers) (participants : list Participant) : list Participant :=
  merge_sort by_score (shuffle answers participants).
Definition uids_of (p : Participant) : list Z := order_ids (solution (participant_solution p)).

(** [ends_with] *)
Definition ends_with (suffix l : list byte) : bool :=
  bool_decide (drop (length l - length suffix) l = suffix).
Definition reveal (answers : Answers) (driver_ : string) (auction_id solution_id : Z) : res RevealError (list byte * list byte) :=
  match reveal_answer answers driver_ solution_id with
  | None => Err RevealFailure
  | Some (internalized, uninternalized) =>
      if ends_with (be_bytes 8 (auction_id mod 2 ^ 64)) internalized then Ok (internalized, uninternalized) else Err AuctionMismatch
  end.

(** ** What is saved *)
Definition find_order (auction : AutopilotAuction.Auction) (uid : Z) : option AutopilotAuction.Order :=
  List.find (fun o => AutopilotAuction.order_uid o =? uid) (AutopilotAuction.orders auction).
Definition insert_price (auction : AutopilotAuction.Auction) (token : Z) (prices : gmap Z Z) : gmap Z Z :=
  match AutopilotAuction.prices auction !! token with Some price => <[token := price]> prices | None => prices end.
(** The policies of the orders of the winner that were auctioned, and the prices
    of their tokens *)
Definition order_data (auction : AutopilotAuction.Auction) (acc : gmap Z Z * list (Z * list FeePolicy.Policy)) (uid : Z)
  : gmap Z Z * list (Z * list FeePolicy.Policy) :=
  let '(prices, fee_policies) := acc in
  match find_order auction uid with
  | Some o =>
      (insert_price auction (Eth.token (AutopilotAuction.order_buy o)) (insert_price auction (Eth.token (AutopilotAuction.order_sell o)) prices),
       fee_policies ++ [(AutopilotAuction.order_uid o, AutopilotAuction.protocol_fees o)])
  | None => (prices, fee_policies)
  end.
Definition winner_data (auction : AutopilotAuction.Auction) (winner_ : Participant) : gmap Z Z * list (Z * list FeePolicy.Policy) :=
  foldl (order_data auction) (∅, []) (uids_of winner_).
Definition settlement_of (revealed : list byte * list byte) (count index : nat) (p : Participant) : SolverCompetition.SolverSettlement :=
  let s := solution (participant_solution p) in
  let is_winner := (count - index =? 1)%nat in
  SolverCompetition.mkSolverSettlement (driver p) (solver s) (Some (SolverCompetition.Solver (score s))) (count - index)
    (prices s) (colocated (orders s))
    (if is_winner then Some revealed.1 else None) (if is_winner then Some revealed.2 else None).
Definition table_of (answers : Answers) (auction : AutopilotAuction.Auction) (solutions : list Participant)
    (revealed : list byte * list byte) : SolverCompetition.SolverCompetitionDB :=
  SolverCompetition.mkSolverCompetitionDB (AutopilotAuction.block auction) (current_block answers)
    (SolverCompetition.mkCompetitionAuction (auction_uids auction) (AutopilotAuction.prices auction))
    (imap (settlement_of revealed (length solutions)) solutions).
(** [nth_back] *)
Definition nth_back {A} (n : nat) (l : list A) : option A := rev l !! n.
Definition u64_add (a b : Z) : Z := (a + b) mod 2 ^ 64.
Definition competition_of (answers : Answers) (id : Z) (auction : AutopilotAuction.Auction) (solutions : list Participant)
    (winner_ : Participant) (revealed : list byte * list byte) : Competition :=
  mkCompetition id (solver (solution (participant_solution winner_))) (score_of winner_)
    (from_option score_of 0 (nth_back 1 solutions))
    (list_to_set (map (fun p => solver (solution (participant_solution p))) solutions))
    (winner_data auction winner_).1 (u64_add (current_block answers) submission_deadline) (current_block answers)
    revealed.1 revealed.2 (table_of answers auction solutions revealed).

(** ** Settling *)
Definition get_hash_by_auction_id (self : Database.Indexed) (id : Z) : option Z :=
  Database.tx_hash <$> limit_1 (filter (fun row => Database.auction_id row = Some id) (map snd (map_to_list (Database.settlements self)))).
(** [saturating_add]; nothing is known while the polls go on. *)
Fixpoint wait_until (deadline_ id : Z) (polls_ : list (Z * option Database.Indexed)) : option (res unit Z) :=
  match polls_ with
  | [] => None
  | (block, tables) :: polls_ =>
      if deadline_ <? block then Some (Err tt)
      else match tables ≫= fun t => get_hash_by_auction_id t id with
           | Some hash => Some (Ok hash)
           | None => wait_until deadline_ id polls_
           end
  end.
Definition wait_for_settlement_transaction (answers : Answers) (id : Z) : option (res unit Z) :=
  wait_until (Z.min (current_block answers + submission_deadline) U64_MAX) id (polls answers).
Definition wait_for_settlement (answers : Answers) (id : Z) : option (res unit Z) :=
  match race answers with
  | TransactionFirst => wait_for_settlement_transaction answers id
  | DriverFirst false => Some (Err tt)
  | DriverFirst true => wait_for_settlement_transaction answers id
  end.
Definition settle (answers : Answers) (self : World) (winner_ : Participant) (id : Z) : World * option (res unit Z) :=
  let self := store_events answers self (uids_of winner_) Database.Executing in
  match wait_for_settlement answers id with
  | Some (Ok hash) => (set_in_flight self (Some (mkInFlightOrders hash (list_to_set (uids_of winner_)))), Some (Ok hash))
  | result => (self, result)
  end.

(** ** One auction *)
Inductive Outcome : Type :=
| NoSolutions
| NotRevealed (e : RevealError)
| NotSaved
| OwnersNotSaved
| Settling (winner : Participant) (settled : option (res unit Z)).
Definition single_run (answers : Answers) (self : World) (id : Z) (auction : AutopilotAuction.Auction) : World * Outcome :=
  let auction := remove_in_flight_orders answers self auction in
  let '(self, participants) := competition answers self id auction in
  let solutions := ranked answers participants in
  match last solutions with
  | None => (self, NoSolutions)
  | Some winner_ =>
      let considered := SolversDto.unique_by (fun uid => uid) [] (concat (map uids_of solutions)) in
      let self := store_events answers self considered Database.Considered in
      match reveal answers (driver winner_) id (DomainCompetition.id (participant_solution winner_)) with
      | Ok revealed =>
          match save_competition (competitions self) (competition_of answers id auction solutions winner_ revealed) with
          | Ok c =>
              let self := set_competitions self c in
              match save_surplus_capturing_jit_orders_orders c id (AutopilotAuction.surplus_capturing_jit_order_owners auction) with
              | Ok c =>
                  let self := set_competitions self (store_fee_policies insert_batch_size c id (winner_data auction winner_).2) in
                  let '(self, settled) := settle answers self winner_ id in
                  (self, Settling winner_ settled)
              | _ => (self, OwnersNotSaved)
              end
          | _ => (self, NotSaved)
          end
      | Err e => (self, NotRevealed e)
      | Panic => (self, NotSaved)
      end
  end.

(** ** The loop: whether the solvers run for an auction. The second comparison is
    made, and the block remembered, only if the auction is the same. *)
Record LoopState : Type := mkLoopState { last_auction : option AutopilotAuction.Auction; last_block : option Z }.
Definition should_run (same : AutopilotAuction.Auction -> AutopilotAuction.Auction -> bool) (s : LoopState)
    (auction : AutopilotAuction.Auction) (block : Z) : LoopState * bool :=
  let previous := last_auction s in
  let s := mkLoopState (Some auction) (last_block s) in
  if negb (from_option (fun p => same p auction) false previous) then (s, true)
  else (mkLoopState (last_auction s) (Some block), negb (from_option (Z.eqb block) false (last_block s))).
End run_loop.
End RunLoop.

(** * Lemmas *)
Import Persistence DomainCompetition Competitions RunLoop.

(** ** Ranking *)
#[local] Instance by_score_total : Total by_score.
Proof. intros a b. unfold by_score. lia. Qed.
#[local] Instance by_score_trans : Transitive by_score.
Proof. intros a b c. unfold by_score. lia. Qed.

Lemma last_Some_app {A} (l : list A) x : last l = Some x -> exists l', l = l' ++ [x].
Proof. by intros [l' ->]%last_Some; exists l'. Qed.
Lemma StronglySorted_last {A} (R : A -> A -> Prop) (l : list A) x :
  StronglySorted R (l ++ [x]) -> Forall (fun a => R a x) l.
Proof.
  induction l as [|a l IH]; cbn; [constructor|]. intros [Ha Hs]%StronglySorted_cons. constructor; [|by apply IH].
  apply Forall_app in Ha as [_ Hx]. by apply Forall_inv in Hx.
Qed.
Lemma foldr_max_le l m : 0 <= m -> Forall (fun x => x <= m) l -> foldr Z.max 0 l <= m.
Proof. intros Hm. induction 1; cbn; lia. Qed.

(** The winner is ranked last, and the score before it is the best of the others. *)
Lemma ranked_last answers participants w : (forall l, shuffle answers l ≡ₚ l) -> last (ranked answers participants) = Some w ->
  exists others, ranked answers participants = others ++ [w] /\ participants ≡ₚ w :: others /\
    Forall (fun p => score_of p <= score_of w) others /\
    (Forall (fun p => 0 <= score_of p) others ->
     from_option score_of 0 (nth_back 1 (others ++ [w])) = foldr Z.max 0 (map score_of others)).
Proof.
  intros Hshuffle Hl. apply last_Some_app in Hl as [others Ho]. exists others. split; [done|].
  assert (Hs : StronglySorted by_score (others ++ [w])).
  { rewrite <- Ho. apply (StronglySorted_merge_sort by_score). }
  assert (Hp : participants ≡ₚ w :: others).
  { rewrite <- (Hshuffle participants), <- (merge_sort_Permutation by_score (shuffle answers participants)).
    change (merge_sort by_score (shuffle answers participants)) with (ranked answers participants).
    rewrite Ho. symmetry. apply Permutation_cons_append. }
  split; [done|]. split; [exact (StronglySorted_last _ _ _ Hs)|]. intros Hpos. unfold nth_back. rewrite rev_app_distr. cbn.
  destruct others as [|o others _] using rev_ind; [done|]. rewrite rev_app_distr. cbn.
  rewrite <- app_assoc in Hs. assert (Hs' : StronglySorted by_score (others ++ [o])).
  { rewrite app_assoc in Hs. by apply StronglySorted_app in Hs as (_ & ? & _). }
  apply StronglySorted_last in Hs'. apply Forall_app in Hpos as [_ Hpos%Forall_inv].
  rewrite map_app, foldr_app. cbn. rewrite Z.max_l by done.
  assert (Hm : forall z, 0 <= z -> Forall (fun x => x <= z) (map score_of others) -> foldr Z.max z (map score_of others) = z).
  { clear. intros z Hz. induction (map score_of others) as [|x l IH]; intros Hl; [done|]. cbn. inversion_clear Hl.
    rewrite IH by done. lia. }
  symmetry. apply Hm; [done|]. by apply Forall_map.
Qed.

(** ** Bids *)
Section bids.
Context (drivers : list string).
(** The valid solutions of all drivers for a request *)
Definition bids (answers : Answers) (request : SolversDto.Request) : list Participant :=
  concat (map (participants_of answers request) drivers).

(** What makes a bid valid *)
Record valid_bid (answers : Answers) (request : SolversDto.Request) (p : Participant) : Prop := {
  bid_driver : driver p ∈ drivers;
  bid_proposed : exists sols s, solve_answer answers (driver p) request = Some (Ok sols) /\ s ∈ sols /\
    SolversDto.into_domain s = Ok (participant_solution p);
  bid_allowed : is_solver answers (solver (solution (participant_solution p))) = Some true;
  bid_score : score_of p <> 0;
  bid_prices token price : prices (solution (participant_solution p)) !! token = Some price -> price <> 0;
}.

Lemma prices_new_Ok ps ps' : AuctionDto.prices_new ps = Ok ps' -> ps' = ps /\ forall token price, ps !! token = Some price -> price <> 0.
Proof.
  unfold AuctionDto.prices_new. intros H. inv_ok. match goal with H : rmap _ _ = Ok _ |- _ => apply rmap_Ok in H as Hv end.
  assert (Hid : v = map_to_list ps /\ Forall (fun e : Z * Z => e.2 <> 0) (map_to_list ps)).
  { clear -Hv. induction Hv as [|[t p] e l l' He Hl [-> IH]]; [done|]. unfold AutopilotAuction.price_new in He. cbn in He.
    destruct (Z.eqb_spec p 0); [done|]. injection He as <-. split; [done|]. by constructor. }
  destruct Hid as [-> Hne]. split; [apply list_to_map_to_list|]. intros token price Hp%elem_of_map_to_list.
  rewrite Forall_forall in Hne. by apply (Hne (token, price)).
Qed.

Lemma bids_valid answers request p : p ∈ bids answers request -> valid_bid answers request p.
Proof.
  unfold bids. rewrite list_elem_of_In, in_concat. intros (l & (d & <- & Hd)%in_map_iff & Hp).
  apply list_elem_of_In in Hd, Hp. unfold participants_of in Hp.
  apply list_elem_of_omap in Hp as (r & Hr & Hs). destruct r as [sol| |]; [|done..]. injection Hs as <-.
  unfold solve in Hr. destruct (solve_answer answers d request) as [[sols| |]|] eqn:Ha; try by apply not_elem_of_nil in Hr.
  assert (Hm : Ok sol ∈ map (fun s => check_allowed answers (SolversDto.into_domain s)) sols)
    by (destruct sols; [by apply not_elem_of_nil in Hr|done]).
  apply list_elem_of_fmap in Hm as (s & Hs & Hin). unfold check_allowed in Hs. symmetry in Hs. inv_ok.
  destruct (is_solver answers (solver (solution v))) as [[]|] eqn:Hsolver; [|done..]. injection Hs as <-.
  pose proof Hv as Hdom. unfold SolversDto.into_domain, score_new in Hv. inv_ok.
  destruct (Z.eqb_spec (SolversDto.score s) 0); [done|]. inv_ok.
  match goal with H : AuctionDto.prices_new _ = Ok _ |- _ => apply prices_new_Ok in H as [-> Hprices] end.
  split; cbn; [done|by exists sols, s|done|done|done].
Qed.
End bids.

(** ** One run *)
Section run.
Context (drivers : list string) (trusted_tokens : gset Z) (submission_deadline solve_deadline : Z) (insert_batch_size : nat).
Context (limit_1 : list Database.SettlementRow -> option Database.SettlementRow).
Abbreviation single_run := (single_run drivers trusted_tokens submission_deadline solve_deadline insert_batch_size limit_1).
Abbreviation competition_of := (competition_of submission_deadline).
Definition request_of (answers : Answers) (id : Z) (auction : AutopilotAuction.Auction) : SolversDto.Request :=
  SolversDto.request_new id auction trusted_tokens (wall_clock answers) solve_deadline.

(** What a run that saves a competition has done before *)
Record won (answers : Answers) (id : Z) (auction : AutopilotAuction.Auction) (c0 c1 : Competitions) (w : Participant)
    (revealed : list byte * list byte) : Prop := {
  won_last : last (ranked answers (bids drivers answers (request_of answers id auction))) = Some w;
  won_revealed : reveal answers (driver w) id (DomainCompetition.id (participant_solution w)) = Ok revealed;
  won_saved : save_competition c0 (competition_of answers id auction
    (ranked answers (bids drivers answers (request_of answers id auction))) w revealed) = Ok c1;
}.
Lemma store_events_world answers self uids label :
  Database.indexed (world_db (store_events answers self uids label)) = Database.indexed (world_db self) /\
  competitions (store_events answers self uids label) = competitions self /\
  in_flight_orders (store_events answers self uids label) = in_flight_orders self.
Proof. split_and!; [apply store_order_events_indexed|done..]. Qed.
Lemma settle_world answers self w id self' settled : settle submission_deadline limit_1 answers self w id = (self', settled) ->
  Database.indexed (world_db self') = Database.indexed (world_db self) /\ competitions self' = competitions self /\
  in_flight_orders self' = match settled with
    | Some (Ok hash) => Some (mkInFlightOrders hash (list_to_set (uids_of w)))
    | _ => in_flight_orders self
    end.
Proof.
  unfold settle. pose proof (store_events_world answers self (uids_of w) Database.Executing) as (H1 & H2 & H3).
  destruct (wait_for_settlement _ _ answers id) as [[hash| |]|]; intros [= <- <-]; by split_and!.
Qed.

(** A run changes the competitions only by saving one, and the orders in flight
    only by a settlement; the tables of the chain belong to others. *)
Lemma single_run_cases answers self id auction self' outcome : single_run answers self id auction = (self', outcome) ->
  let auction := remove_in_flight_orders answers self auction in
  Database.indexed (world_db self') = Database.indexed (world_db self) /\
  ((competitions self' = competitions self /\ in_flight_orders self' = in_flight_orders self /\ forall w r, outcome <> Settling w r) \/
   exists w revealed c1, won answers id auction (competitions self) c1 w revealed /\
     ((competitions self' = c1 /\ in_flight_orders self' = in_flight_orders self /\ outcome = OwnersNotSaved) \/
      exists c2 settled,
        save_surplus_capturing_jit_orders_orders c1 id (AutopilotAuction.surplus_capturing_jit_order_owners auction) = Ok c2 /\
        competitions self' = store_fee_policies insert_batch_size c2 id (winner_data auction w).2 /\
        outcome = Settling w settled /\
        in_flight_orders self' = match settled with
          | Some (Ok hash) => Some (mkInFlightOrders hash (list_to_set (uids_of w)))
          | _ => in_flight_orders self
          end)).
Proof.
  intros H. cbv zeta. unfold RunLoop.single_run in H. cbv zeta in H. set (auction' := remove_in_flight_orders answers self auction) in *.
  unfold competition in H. pose proof (store_events_world answers self (auction_uids auction') Database.Ready) as (H1 & H2 & H3).
  set (self1 := store_events answers self _ _) in *.
  change (concat (map (participants_of answers _) drivers)) with (bids drivers answers (request_of answers id auction')) in H.
  set (solutions := ranked answers _) in *. destruct (last solutions) as [w|] eqn:Hl; [|injection H as <- <-; split; [done|by left]].
  set (considered := SolversDto.unique_by _ _ _) in *.
  pose proof (store_events_world answers self1 considered Database.Considered) as (H4 & H5 & H6).
  set (self2 := store_events answers self1 considered _) in *. rewrite <- H4 in H1. rewrite H2 in H5. rewrite H3 in H6.
  destruct (reveal answers _ id _) as [revealed| |] eqn:Hrev; [|injection H as <- <-; split; [congruence|by left]..].
  destruct (save_competition _ _) as [c1| |] eqn:Hsave; [|injection H as <- <-; split; [congruence|by left]..].
  rewrite H5 in Hsave. assert (Hwon : won answers id auction' (competitions self) c1 w revealed) by done.
  destruct (save_surplus_capturing_jit_orders_orders c1 id _) as [c2| |] eqn:Hsave2.
  2,3: injection H as <- <-; split; [exact H1|right; exists w, revealed, c1; split; [done|left; done]].
  destruct (settle _ _ answers _ w id) as [self3 settled] eqn:Hsettle. injection H as <- <-.
  apply settle_world in Hsettle as (H7 & H8 & H9). split; [rewrite H7; exact H1|].
  right. exists w, revealed, c1. split; [done|]. right. exists c2, settled. split_and!; [done|done|done|].
  rewrite H9. by destruct settled as [[]|].
Qed.
End run.

(** ** What is saved of the winner *)
Section winner_data.
Context (auction : AutopilotAuction.Auction).
Definition policies_of_uids (uids : list Z) : list (Z * list FeePolicy.Policy) :=
  omap (fun uid => (fun o => (AutopilotAuction.order_uid o, AutopilotAuction.protocol_fees o)) <$> find_order auction uid) uids.
Definition token_of (o : AutopilotAuction.Order) (token : Z) : Prop :=
  token = Eth.token (AutopilotAuction.order_sell o) \/ token = Eth.token (AutopilotAuction.order_buy o).

Lemma find_order_Some uid o : find_order auction uid = Some o -> o ∈ AutopilotAuction.orders auction /\ AutopilotAuction.order_uid o = uid.
Proof. intros [Hin Huid%Z.eqb_eq]%find_some. split; [by apply list_elem_of_In|done]. Qed.
Lemma find_order_elem o : NoDup (auction_uids auction) -> o ∈ AutopilotAuction.orders auction ->
  find_order auction (AutopilotAuction.order_uid o) = Some o.
Proof.
  unfold find_order, auction_uids. induction (AutopilotAuction.orders auction) as [|o' l IH]; cbn; [by intros _ ?%not_elem_of_nil|].
  intros [Hn Hnd]%list.NoDup_cons [<-|Hin]%elem_of_cons; [by rewrite Z.eqb_refl|].
  destruct (Z.eqb_spec (AutopilotAuction.order_uid o') (AutopilotAuction.order_uid o)) as [Heq|]; [|by apply IH].
  destruct Hn. rewrite Heq. by apply list_elem_of_fmap_2.
Qed.

Lemma insert_price_lookup token prices t p : (forall t p, prices !! t = Some p -> AutopilotAuction.prices auction !! t = Some p) ->
  insert_price auction token prices !! t = Some p <-> prices !! t = Some p \/ (t = token /\ AutopilotAuction.prices auction !! t = Some p).
Proof.
  intros Hp. unfold insert_price. destruct (AutopilotAuction.prices auction !! token) as [q|] eqn:Hq.
  - rewrite lookup_insert_Some. split.
    + intros [[<- <-]|[_ ?]]; [by right|by left].
    + intros [H|[-> H]]; [|left; split; congruence].
      destruct (decide (token = t)) as [->|]; [left; split; [done|]|by right]. apply Hp in H. congruence.
  - split; [by left|]. intros [?|[-> ?]]; [done|congruence].
Qed.

Lemma order_data_foldl uids acc :
  (forall t p, acc.1 !! t = Some p -> AutopilotAuction.prices auction !! t = Some p) ->
  let acc' := foldl (order_data auction) acc uids in
  acc'.2 = acc.2 ++ policies_of_uids uids /\
  forall t p, acc'.1 !! t = Some p <-> acc.1 !! t = Some p \/
    (AutopilotAuction.prices auction !! t = Some p /\ exists uid o, uid ∈ uids /\ find_order auction uid = Some o /\ token_of o t).
Proof.
  revert acc. induction uids as [|uid uids IH]; intros [prices policies] Hacc; cbn [foldl]; cbv zeta.
  { cbn. rewrite app_nil_r. split; [done|]. intros t p. split; [by left|]. intros [?|(_ & ? & ? & []%not_elem_of_nil & _)]; done. }
  unfold order_data at 2 4. unfold policies_of_uids. cbn [omap list_omap]. cbn [fst snd] in Hacc.
  destruct (find_order auction uid) as [o|] eqn:Ho; cbn [fmap option_fmap option_map].
  - set (prices' := insert_price _ _ _).
    assert (Hp : forall t p, prices' !! t = Some p <-> prices !! t = Some p \/ (token_of o t /\ AutopilotAuction.prices auction !! t = Some p)).
    { intros t p. subst prices'. rewrite insert_price_lookup.
      - rewrite insert_price_lookup by done. unfold token_of. naive_solver.
      - intros t' p'. rewrite insert_price_lookup by done. naive_solver. }
    destruct (IH (prices', policies ++ [(AutopilotAuction.order_uid o, AutopilotAuction.protocol_fees o)])) as [H1 H2].
    { intros t p. cbn. rewrite Hp. naive_solver. }
    rewrite H1. cbn [fst snd]. split; [by rewrite <- app_assoc|]. intros t p. rewrite H2. cbn [fst]. rewrite Hp. split.
    + intros [[?|[? ?]]|(? & u & o' & Hu & ?)]; [by left|right|right]; (split; [done|]).
      * exists uid, o. split_and!; [by left|done..].
      * exists u, o'. split; [by right|done].
    + intros [?|(Hq & u & o' & [->|Hu]%elem_of_cons & Ho' & Ht)]; [by left; left|left; right|right; split; [done|by exists u, o']].
      rewrite Ho in Ho'. by injection Ho' as <-.
  - destruct (IH (prices, policies) Hacc) as [H1 H2]. rewrite H1. split; [done|]. intros t p. rewrite H2. cbn [fst]. split.
    + intros [?|(? & u & o' & Hu & ?)]; [by left|right]. split; [done|]. exists u, o'. split; [by right|done].
    + intros [?|(Hq & u & o' & [->|Hu]%elem_of_cons & Ho' & Ht)]; [by left|congruence|right; split; [done|by exists u, o']].
Qed.
Lemma winner_data_spec w :
  (winner_data auction w).2 = policies_of_uids (uids_of w) /\
  forall t p, (winner_data auction w).1 !! t = Some p <->
    AutopilotAuction.prices auction !! t = Some p /\ exists uid o, uid ∈ uids_of w /\ find_order auction uid = Some o /\ token_of o t.
Proof.
  unfold winner_data. destruct (order_data_foldl (uids_of w) (∅, [])) as [H1 H2]; [done|].
  split; [done|]. intros t p. rewrite H2. cbn. rewrite lookup_empty. naive_solver.
Qed.
Lemma NoDup_uids_of w : NoDup (uids_of w).
Proof. apply NoDup_fst_map_to_list. Qed.
Lemma policies_of_uids_elem uids uid ps : (uid, ps) ∈ policies_of_uids uids <->
  uid ∈ uids /\ AutopilotAuction.protocol_fees <$> find_order auction uid = Some ps.
Proof.
  unfold policies_of_uids. rewrite list_elem_of_omap. split.
  - intros (u & Hu & Ho). destruct (find_order auction u) as [o|] eqn:Hf; [|done]. injection Ho as <- <-.
    apply find_order_Some in Hf as Huid. destruct Huid as [_ ->]. by rewrite Hf.
  - intros [Hu Ho]. exists uid. split; [done|]. destruct (find_order auction uid) as [o|] eqn:Hf; [|done].
    injection Ho as <-. apply find_order_Some in Hf as [_ <-]. done.
Qed.
Lemma NoDup_policies uids : NoDup uids -> NoDup (policies_of_uids uids).*1.
Proof.
  induction uids as [|uid uids IH]; [constructor|]. intros [Hu Hnd]%list.NoDup_cons. specialize (IH Hnd).
  change (policies_of_uids (uid :: uids)) with (policies_of_uids ([uid] ++ uids)). unfold policies_of_uids in *.
  rewrite omap_app. cbn [omap list_omap]. destruct (find_order auction uid) as [o|] eqn:Ho; [|done]. cbn.
  apply list.NoDup_cons. split; [|done]. apply find_order_Some in Ho as [_ ->].
  intros ([u ps] & -> & Hin)%list_elem_of_fmap. by apply policies_of_uids_elem in Hin as [? _].
Qed.
Lemma policies_lookup uids uid : NoDup uids ->
  (list_to_map (policies_of_uids uids) : gmap Z _) !! uid =
    if decide (uid ∈ uids) then AutopilotAuction.protocol_fees <$> find_order auction uid else None.
Proof.
  intros Hnd. apply option_eq. intros ps. rewrite <- elem_of_list_to_map by by apply NoDup_policies.
  rewrite policies_of_uids_elem. case_decide; naive_solver.
Qed.
End winner_data.

(** * The run loop and the tasks that follow the chain, on the same tables *)
Section world.
Context (drivers : list string) (trusted_tokens : gset Z) (submission_deadline solve_deadline : Z) (insert_batch_size : nat).
Context (limit_1_row : list Database.SettlementRow -> option Database.SettlementRow).
Context (keccak256 : list byte -> list byte) (ec_recover : list byte -> Z -> Z -> Z -> option Z).
Context (selector : list byte) (decode_input : list byte -> option EncodedSettlement.EncodedSettlement).
Context (domain_separator : list byte) (weth : Z) (transaction : Z -> option Updater.Transaction).
Context (limit_1 : list SettlementsDb.SettlementEvent -> option SettlementsDb.SettlementEvent).

(** What the updater reads of the competitions *)
Definition winner_of (c : Competitions) (id : Z) : option Z := winner <$> settlement_scores c !! id.
Definition competition_auction (c : Competitions) (id : Z) : option (gmap Z Z * list Z) :=
  (fun table => let a := SolverCompetition.auction table in (SolverCompetition.prices a, SolverCompetition.orders a))
    <$> find_competition c id.
Definition owners_of (c : Competitions) (id : Z) : option (list Z) := surplus_capturing_jit_order_owners c !! id.

Inductive WorldOp : Type :=
| Ran (answers : Answers) (current_auction : option AutopilotAuction.Auction)
| Indexed (op : Updater.IndexOp).
(** A run, whose transactions are taken together, or a step of the tasks that
    index the chain. *)
Definition world_op (self : World) (op : WorldOp) : res unit World :=
  match op with
  | Ran answers current_auction =>
      match next_auction self current_auction with
      | (self, None) => Ok self
      | (self, Some (id, auction)) =>
          Ok (single_run drivers trusted_tokens submission_deadline solve_deadline insert_batch_size limit_1_row answers self id auction).1
      end
  | Indexed op =>
      let c := competitions self in
      let* db :=
        Updater.index_op keccak256 ec_recover selector decode_input domain_separator weth transaction (winner_of c)
          (competition_auction c) (owners_of c) limit_1 (world_db self) op in
      Ok (set_db self db)
  end.
Definition world_ops (self : World) (ops : list WorldOp) : res unit World := rfold world_op self ops.

Abbreviation attributed := (attributed keccak256 ec_recover selector decode_input domain_separator weth transaction).

(** What is explained stays so when other auctions are saved. *)
Lemma attributed_agree w w' f f' j j' db : attributed w f j db ->
  (forall a, is_Some (w a) -> w' a = w a /\ f' a = f a /\ j' a = j a) -> attributed w' f' j' db.
Proof.
  intros [H1 H2 H3] Hagree. split; [|exact H2|exact H3].
  intros i o Ho. destruct (H1 i o Ho) as (row & a & tx & data & Hr & [E1 E2 E3 (st & bs & D1 & D2 & D3 & D4) E5]).
  destruct (Hagree a) as (Hw & Hf & Hj); [rewrite E3; by eexists|].
  exists row, a, tx, data. split; [done|]. split; [done|done|by rewrite Hw| |done].
  exists st, bs. split_and!; [done..|]. rewrite <- D4. unfold Updater.fetch_auction_data. by rewrite Hf, Hj.
Qed.

(** The auction was won by the best of the bids for it in some run. *)
Definition best_bidder (ops : list WorldOp) (id solver_ : Z) : Prop :=
  exists answers current_auction request w, Ran answers current_auction ∈ ops /\ SolversDto.request_id request = id /\
    w ∈ bids drivers answers request /\ solver (solution (participant_solution w)) = solver_ /\
    forall p, p ∈ bids drivers answers request -> score_of p <= score_of w.

Record consistent (ops : list WorldOp) (self : World) : Prop := {
  known_auctions id : is_Some (settlement_scores (competitions self) !! id) -> id < next_auction_id (competitions self);
  winners_bid_best id row : settlement_scores (competitions self) !! id = Some row -> best_bidder ops id (winner row);
  rewards_attributed :
    attributed (winner_of (competitions self)) (competition_auction (competitions self)) (owners_of (competitions self)) (world_db self);
}.
Lemma best_bidder_mono ops ops' id s : best_bidder ops id s -> ops ⊆ ops' -> best_bidder ops' id s.
Proof. intros (answers & cur & request & w & Hin & ?) Hsub. exists answers, cur, request, w. split; [by apply Hsub|done]. Qed.

Lemma store_fee_policies_rest self id policies :
  let self' := store_fee_policies insert_batch_size self id policies in
  settlement_scores self' = settlement_scores self /\ solver_competitions self' = solver_competitions self /\
  surplus_capturing_jit_order_owners self' = surplus_capturing_jit_order_owners self /\ next_auction_id self' = next_auction_id self /\
  auction_participants self' = auction_participants self /\ settlement_call_data self' = settlement_call_data self.
Proof.
  unfold store_fee_policies. generalize (chunks insert_batch_size policies). intros ls. revert self.
  induction ls as [|l ls IH]; intros self; cbn [foldl]; [done|]. apply (IH (insert_batch self id l)).
Qed.
Lemma save_owners_Ok self id owners self' : save_surplus_capturing_jit_orders_orders self id owners = Ok self' ->
  surplus_capturing_jit_order_owners self' = <[id := owners]> (surplus_capturing_jit_order_owners self) /\
  settlement_scores self' = settlement_scores self /\ solver_competitions self' = solver_competitions self /\
  next_auction_id self' = next_auction_id self /\ fee_policies self' = fee_policies self /\ auction_prices self' = auction_prices self /\
  auction_orders self' = auction_orders self /\ auction_participants self' = auction_participants self /\
  settlement_call_data self' = settlement_call_data self.
Proof.
  unfold save_surplus_capturing_jit_orders_orders. intros H. inv_ok. apply insert_unique_Ok in Hv as [_ ->]. done.
Qed.

(** One run adds the winner of its own auction at most. *)
Lemma single_run_competitions answers self id auction :
  let self' := (single_run drivers trusted_tokens submission_deadline solve_deadline insert_batch_size limit_1_row answers self id auction).1 in
  Database.indexed (world_db self') = Database.indexed (world_db self) /\
  next_auction_id (competitions self') = next_auction_id (competitions self) /\
  (forall a, a <> id -> winner_of (competitions self') a = winner_of (competitions self) a /\
     competition_auction (competitions self') a = competition_auction (competitions self) a /\
     owners_of (competitions self') a = owners_of (competitions self) a /\
     settlement_scores (competitions self') !! a = settlement_scores (competitions self) !! a) /\
  (competitions self' = competitions self \/ exists w row, settlement_scores (competitions self') !! id = Some row /\
     winner row = solver (solution (participant_solution w)) /\
     last (ranked answers (bids drivers answers
       (request_of trusted_tokens solve_deadline answers id (remove_in_flight_orders answers self auction)))) = Some w).
Proof.
  cbv zeta. destruct (single_run _ _ _ _ _ _ answers self id auction) as [self' outcome] eqn:H. cbn [fst].
  apply single_run_cases in H as [Hi [(Hc & _)|(w & revealed & c1 & [Hl _ Hsave] & Hcases)]].
  { rewrite Hc. split_and!; [done..|by left]. }
  apply save_competition_saved in Hsave. destruct Hsave as [_ Ht Hs _ _ _ _ (_ & Hn & Hj & _)]. cbn [auction_id RunLoop.competition_of] in *.
  assert (Hrest : exists owners, settlement_scores (competitions self') = settlement_scores c1 /\
    solver_competitions (competitions self') = solver_competitions c1 /\ next_auction_id (competitions self') = next_auction_id c1 /\
    forall a, a <> id -> surplus_capturing_jit_order_owners (competitions self') !! a = owners a /\ owners a = surplus_capturing_jit_order_owners c1 !! a).
  { exists (fun a => surplus_capturing_jit_order_owners c1 !! a). destruct Hcases as [(-> & _)|(c2 & settled & Hc2 & -> & _)]; [done|].
    apply save_owners_Ok in Hc2 as (H1 & H2 & H3 & H4 & _).
    destruct (store_fee_policies_rest c2 id (winner_data (remove_in_flight_orders answers self auction) w).2) as (-> & -> & -> & -> & _).
    rewrite H1, H2, H3, H4. split_and!; [done..|]. intros a Ha. split; [|done]. by rewrite lookup_insert_ne. }
  destruct Hrest as (owners & H1 & H2 & H3 & H4). split_and!; [done|congruence| |right].
  - intros a Ha. unfold winner_of, competition_auction, find_competition, owners_of. rewrite H1, H2, Hs, Ht, !lookup_insert_ne by done.
    destruct (H4 a Ha) as [-> ->]. by rewrite Hj.
  - eexists w, _. rewrite H1, Hs, lookup_insert_eq. split_and!; [reflexivity|done|done].
Qed.

Lemma world_op_ran self answers auction :
  let '(c, id) := replace_current_auction (competitions self) (AuctionDto.from_domain auction) in
  world_op self (Ran answers (Some auction)) =
  Ok (if forallb is_liquidity (AutopilotAuction.orders auction) then set_competitions self c
      else (single_run drivers trusted_tokens submission_deadline solve_deadline insert_batch_size limit_1_row answers
              (set_competitions self c) id auction).1).
Proof.
  unfold world_op, next_auction. destruct (replace_current_auction _ _) as [c id]. by destruct (forallb _ _).
Qed.

Lemma world_op_consistent ops op self self' : (forall l e, limit_1 l = Some e -> e ∈ l) ->
  (forall answers cur, op = Ran answers cur -> forall l, shuffle answers l ≡ₚ l) ->
  consistent ops self -> world_op self op = Ok self' -> consistent (ops ++ [op]) self'.
Proof.
  intros Hlimit Hshuffle [H1 H2 H3] Hop. destruct op as [answers cur|op].
  - specialize (Hshuffle answers cur eq_refl). destruct cur as [auction|]; [|injection Hop as <-; split; [done| |done]].
    2: { intros id row Hr. eapply best_bidder_mono; [by eapply H2|set_solver]. }
    pose proof (world_op_ran self answers auction) as Hran. rewrite Hop in Hran. unfold replace_current_auction in Hran.
    injection Hran as ->. clear Hop. set (id := next_auction_id (competitions self)) in *. set (self1 := set_competitions self _) in *.
    assert (Hnew : settlement_scores (competitions self1) !! id = None).
    { cbn. destruct (settlement_scores (competitions self) !! id) eqn:Hs; [|done]. exfalso.
      assert (id < id); [|lia]. apply H1. rewrite Hs. by eexists. }
    assert (Hc1 : consistent (ops ++ [Ran answers (Some auction)]) self1).
    { split; cbn.
      - intros a Ha. specialize (H1 a Ha). lia.
      - intros a row Hr. eapply best_bidder_mono; [by eapply H2|set_solver].
      - exact H3. }
    destruct (forallb is_liquidity _); [done|]. clear H1 H2 H3. destruct Hc1 as [H1 H2 H3].
    destruct (single_run_competitions answers self1 id auction) as (Hi & Hn & Hother & Hid).
    set (self2 := (single_run _ _ _ _ _ _ _ _ _ _).1) in *.
    assert (Hbest : forall row, settlement_scores (competitions self2) !! id = Some row -> best_bidder (ops ++ [Ran answers (Some auction)]) id (winner row)).
    { intros row Hr. destruct Hid as [Hid|(w & row' & Hr' & Hw & Hl)]; [by rewrite Hid, Hnew in Hr|].
      rewrite Hr in Hr'. injection Hr' as <-. destruct (ranked_last _ _ _ Hshuffle Hl) as (others & _ & Hp & Hle & _).
      exists answers, (Some auction), (request_of trusted_tokens solve_deadline answers id (remove_in_flight_orders answers self1 auction)), w.
      split; [apply elem_of_app; right; by left|]. split; [reflexivity|].
      split; [rewrite Hp; by left|]. split; [by symmetry|]. intros p. rewrite Hp. intros [->|Hin]%elem_of_cons; [done|].
      rewrite Forall_forall in Hle. by apply Hle. }
    split.
    + intros a Ha. rewrite Hn. destruct (decide (a = id)) as [->|Hne]; [cbn; subst id; lia|].
      destruct (Hother a Hne) as (_ & _ & _ & Hs). rewrite Hs in Ha. by apply H1.
    + intros a row Hr. destruct (decide (a = id)) as [->|Hne]; [by apply Hbest|].
      destruct (Hother a Hne) as (_ & _ & _ & Hs). rewrite Hs in Hr. by apply H2.
    + unfold SettlementIndex.attributed. rewrite Hi. eapply attributed_agree; [exact H3|].
      intros a Ha. assert (Hne : a <> id); [intros ->; unfold winner_of in Ha; rewrite Hnew in Ha; by destruct Ha|].
      by destruct (Hother a Hne) as (-> & -> & -> & _).
  - cbn in Hop. inv_ok. split; [done| |].
    + intros a row Hr. eapply best_bidder_mono; [by eapply H2|set_solver].
    + cbn. eapply index_op_attributed; [exact Hlimit|exact H3|exact Hv].
Qed.
Lemma world_ops_consistent ops self self' : (forall l e, limit_1 l = Some e -> e ∈ l) ->
  (forall answers cur, Ran answers cur ∈ ops -> forall l, shuffle answers l ≡ₚ l) ->
  consistent [] self -> world_ops self ops = Ok self' -> consistent ops self'.
Proof.
  intros Hlimit. revert self'. induction ops as [|op ops IH] using rev_ind; intros self' Hshuffle Hc H.
  { by injection H as <-. }
  unfold world_ops in H. rewrite rfold_app in H. inv_ok. cbn [rfold] in H. inv_ok.
  match goal with H : rfold _ _ _ = Ok ?s |- _ => apply (world_op_consistent ops op s) end; [done| | |done].
  - intros answers cur ->. apply (Hshuffle answers cur). apply elem_of_app. right. by left.
  - apply IH; [|done..]. intros answers cur Hin. apply (Hshuffle answers cur). apply elem_of_app. by left.
Qed.
End world.

(** The rankings count down to one. *)
Lemma rankings_descend (f : nat -> Participant -> SolverCompetition.SolverSettlement) (l : list Participant) :
  (forall i p, SolverCompetition.ranking (f i p) = (length l - i)%nat) ->
  map SolverCompetition.ranking (imap f l) = rev (seq 1 (length l)).
Proof.
  revert f. induction l as [|p l IH]; intros f Hf; [done|].
  change (length (p :: l)) with (S (length l)) in *. rewrite seq_S, rev_app_distr. cbn [imap map rev app]. f_equal.
  - rewrite Hf. lia.
  - apply IH. intros i q. unfold compose. rewrite Hf. lia.
Qed.

(** * Properties *)
Section properties.
Context (drivers : list string) (trusted_tokens : gset Z) (submission_deadline solve_deadline : Z) (insert_batch_size : nat).
Context (limit_1_row : list Database.SettlementRow -> option Database.SettlementRow).
Abbreviation run := (single_run drivers trusted_tokens submission_deadline solve_deadline insert_batch_size limit_1_row).
Abbreviation asked answers self id auction :=
  (request_of trusted_tokens solve_deadline answers id (remove_in_flight_orders answers self auction)).

(** C9: the best bid wins: the solution that is settled was proposed by a driver
    for this auction, has a score and prices that are not zero, and a solver that
    is allowed; no valid solution of any driver scores more. The scores
    that are saved are its own and the best of the others, the participants are
    the solvers of all valid solutions, and what the winner revealed is tagged
    with the auction. *)
Theorem best_bid_wins answers self id auction self' w settled :
  (forall l, shuffle answers l ≡ₚ l) ->
  (forall d r sols s, solve_answer answers d r = Some (Ok sols) -> s ∈ sols -> 0 <= SolversDto.score s) ->
  run answers self id auction = (self', Settling w settled) ->
  let tables := competitions self' in
  valid_bid drivers answers (asked answers self id auction) w /\
  exists others row revealed rest,
    bids drivers answers (asked answers self id auction) ≡ₚ w :: others /\
    Forall (fun p => score_of p <= score_of w) others /\
    settlement_scores tables !! id = Some row /\ winner row = solver (solution (participant_solution w)) /\
    winning_score row = score_of w /\ reference_score row = foldr Z.max 0 (map score_of others) /\
    (forall s, (id, s) ∈ auction_participants tables <->
      (id, s) ∈ auction_participants (competitions self) \/
      s ∈ map (fun p => solver (solution (participant_solution p))) (w :: others)) /\
    reveal_answer answers (driver w) (DomainCompetition.id (participant_solution w)) = Some revealed /\
    settlement_call_data tables !! id = Some revealed /\ revealed.1 = rest ++ be_bytes 8 (id mod 2 ^ 64).
Proof.
  intros Hshuffle Hpos H. apply single_run_cases in H as [_ [(_ & _ & H)|(w' & revealed & c1 & [Hl Hr Hs] & Hcases)]];
    [by destruct (H w settled)|].
  destruct Hcases as [(_ & _ & H)|(c2 & st & Hc2 & Ht & [= <- <-] & _)]; [done|]. cbv zeta.
  destruct (ranked_last _ _ _ Hshuffle Hl) as (others & Ho & Hp & Hle & Href).
  assert (Hvalid : forall p, p ∈ w :: others -> valid_bid drivers answers (asked answers self id auction) p)
    by (intros p Hin; apply bids_valid; by rewrite Hp).
  split; [apply Hvalid; by left|].
  apply save_competition_saved in Hs. destruct Hs as [_ _ Hsc Hpa _ Hcd _ _]. cbn [auction_id RunLoop.competition_of] in *.
  apply save_owners_Ok in Hc2 as (_ & E1 & _ & _ & _ & _ & _ & E2 & E3).
  destruct (store_fee_policies_rest insert_batch_size c2 id (winner_data (remove_in_flight_orders answers self auction) w).2)
    as (F1 & _ & _ & _ & F2 & F3). rewrite <- Ht in F1, F2, F3.
  unfold reveal in Hr. destruct (reveal_answer answers (driver w) _) as [[internalized uninternalized]|] eqn:Hra; [|done].
  destruct (ends_with _ internalized) eqn:Hend; [|done]. injection Hr as <-. apply bool_decide_eq_true in Hend.
  eexists others, _, (internalized, uninternalized), (take (length internalized - 8) internalized).
  rewrite F1, E1, Hsc, lookup_insert_eq, F3, E3, Hcd, lookup_insert_eq.
  split_and!; [done|done|reflexivity|done|done| | |done|done|].
  - cbn. rewrite Ho. apply Href, Forall_forall. intros p Hin. destruct (Hvalid p (list_elem_of_further _ _ _ Hin)) as [_ Hprop _ _ _].
    destruct Hprop as (sols & s & Hsol & Hs & Hd). specialize (Hpos _ _ _ _ Hsol Hs). unfold SolversDto.into_domain, score_new in Hd.
    destruct (Z.eqb_spec (SolversDto.score s) 0); cbn in Hd; [done|]. inv_ok. unfold score_of. rewrite <- Hd. exact Hpos.
  - intros s. rewrite F2, E2, Hpa. cbn [participants RunLoop.competition_of]. rewrite elem_of_list_to_set, Ho.
    rewrite <- (Permutation_cons_append others w). naive_solver.
  - cbn [fst]. rewrite <- Hend, length_be_bytes. by rewrite take_drop.
Qed.


(** C33: orders are not offered while they settle: once the settlement of a run is
    found, the drivers are asked to solve auctions without the orders of its
    winner until an auction was cut with the block of the settlement, or later,
    indexed; from then on auctions are offered whole. *)
Theorem settling_orders_are_withheld answers answers' self id id' auction auction' self' w hash :
  run answers self id auction = (self', Settling w (Some (Ok hash))) ->
  let offered := map AuctionDto.dto_uid (SolversDto.request_orders (asked answers' self' id' auction')) in
  let settled_in := default U64_MAX (previous_settlement answers' hash) in
  (AutopilotAuction.latest_settlement_block auction' < settled_in ->
     forall uid, uid ∈ offered <-> uid ∈ auction_uids auction' /\ (uid ∉ uids_of w)) /\
  (settled_in <= AutopilotAuction.latest_settlement_block auction' -> offered = auction_uids auction').
Proof.
  intros H. apply single_run_cases in H as [_ [(_ & _ & H)|(w' & revealed & c1 & _ & Hcases)]]; [by destruct (H w (Some (Ok hash)))|].
  destruct Hcases as [(_ & _ & H)|(c2 & st & _ & _ & [= <- <-] & Hflight)]; [done|]. cbv zeta.
  unfold asked, request_of, remove_in_flight_orders. rewrite Hflight. cbn [in_flight_tx_hash in_flight_uids].
  unfold auction_uids. split; intros Hblock.
  - rewrite (proj2 (Z.ltb_lt _ _) Hblock). cbn. intros uid. rewrite !list_elem_of_fmap. split.
    + intros (d & -> & (o & -> & Hin)%list_elem_of_fmap). apply list_elem_of_In, filter_In in Hin as [Hin Hn].
      apply negb_true_iff, bool_decide_eq_false in Hn. rewrite elem_of_list_to_set in Hn. cbn. split; [|done].
      exists o. split; [done|]. by apply list_elem_of_In.
    + intros [(o & -> & Hin) Hn]. exists (AuctionDto.order_from_domain o). split; [done|]. apply list_elem_of_fmap. exists o. split; [done|].
      apply list_elem_of_In, filter_In. split; [by apply list_elem_of_In|].
      apply negb_true_iff, bool_decide_eq_false. by rewrite elem_of_list_to_set.
  - rewrite (proj2 (Z.ltb_ge _ _) Hblock). cbn. rewrite map_map. done.
Qed.

Context (keccak256 : list byte -> list byte) (ec_recover : list byte -> Z -> Z -> Z -> option Z).
Context (selector : list byte) (decode_input : list byte -> option EncodedSettlement.EncodedSettlement).
Context (domain_separator : list byte) (weth : Z) (transaction : Z -> option Updater.Transaction).
Context (limit_1 : list SettlementsDb.SettlementEvent -> option SettlementsDb.SettlementEvent).

(** C1: rewards go to the best bids: from empty tables, however runs of the loop,
    the logs of the chain, its reorganizations and the updates of settlements
    follow each other, what is recorded as achieved belongs to a settlement
    whose transaction was sent by a solver that, when the auction the settlement
    names was run, made the highest of all valid bids for it; and it is the
    only settlement of that auction with such a record. *)
Theorem rewards_go_to_best_bids (ops : list WorldOp) (self self' : World) :
  (forall l e, limit_1 l = Some e -> e ∈ l) ->
  (forall answers cur, Ran answers cur ∈ ops -> forall l, shuffle answers l ≡ₚ l) ->
  settlement_scores (competitions self) = ∅ ->
  (let t := Database.indexed (world_db self) in
   Database.settlements t = ∅ /\ Database.settlement_observations t = ∅ /\ Database.order_execution t = ∅) ->
  world_ops drivers trusted_tokens submission_deadline solve_deadline insert_batch_size limit_1_row keccak256 ec_recover selector
    decode_input domain_separator weth transaction limit_1 self ops = Ok self' ->
  let t := Database.indexed (world_db self') in
  forall i o, Database.settlement_observations t !! i = Some o ->
  exists row a tx, Database.settlements t !! i = Some row /\ Database.auction_id row = Some a /\
    transaction (Database.tx_hash row) = Some tx /\ best_bidder drivers ops a (Updater.solver tx) /\
    forall j row', is_Some (Database.settlement_observations t !! j) -> Database.settlements t !! j = Some row' ->
      Database.auction_id row' = Some a -> j = i.
Proof.
  intros Hlimit Hshuffle Hs (H1 & H2 & H3) Hops. cbv zeta.
  assert (Hc : consistent drivers keccak256 ec_recover selector decode_input domain_separator weth transaction ops self').
  { eapply world_ops_consistent; [exact Hlimit|exact Hshuffle| |exact Hops]. split.
    - rewrite Hs. intros a [row Hr]. by rewrite lookup_empty in Hr.
    - rewrite Hs. intros a row Hr. by rewrite lookup_empty in Hr.
    - unfold attributed. rewrite H1, H2, H3. split; [done|by intros ? ? ? ? []|done]. }
  destruct Hc as [_ Hbest [Hex Honce _]]. intros i o Ho.
  destruct (Hex i o Ho) as (row & a & tx & data & Hr & [E1 E2 E3 _ _]). exists row, a, tx. split_and!; [done..| |].
  - unfold winner_of in E3. destruct (settlement_scores _ !! a) as [sr|] eqn:Hsr; [|done]. injection E3 as <-. by apply Hbest.
  - intros j row' Hj Hr' Ha. symmetry. apply (Honce i j row row'); [by eexists|done..|congruence].
Qed.
End properties.

(** * Two drivers that bid for the auction 7, and the settlement of the better one *)
Section witnesses.
Import ModelOrder.
Let tokens : gmap Z Z := {[1 := 10 ^ 18; 2 := 2 * 10 ^ 18; 3 := 10 ^ 18]}.
Let policy : FeePolicy.Policy := FeePolicy.Volume (F64.of_Z 0).
Let order (uid : Z) (fees : list FeePolicy.Policy) : AutopilotAuction.Order :=
  AutopilotAuction.mkOrder uid (Eth.mkAsset 100 1) (Eth.mkAsset 40 2) fees Sell Limit 1000 None 9 false 0 [] []
    SellErc20 BuyErc20 [] ModelSignature.PreSign.
Let auction_7 : AutopilotAuction.Auction := AutopilotAuction.mkAuction 9 8 [order 77 [policy]; order 78 []] tokens [4].
Let worse : SolversDto.Solution := SolversDto.mkSolution 0 10 6 {[77 := (100, 41)]} {[1 := 1; 2 := 2]}.
Let better : SolversDto.Solution := SolversDto.mkSolution 1 30 5 {[77 := (100, 45)]} {[1 := 1; 2 := 2]}.
Let zero : SolversDto.Solution := SolversDto.mkSolution 2 0 5 ∅ ∅.
Let tagged : list byte := be_bytes 8 7.
Let settled_table : Database.Indexed :=
  SettlementsDb.set_settlements (Database.indexed no_rows) {[(10, 1) := Database.mkSettlementRow 5 51 (Some 7)]}.
Let answers : Answers := {|
  solve_answer d r := if String.eqb d "a" then Some (Ok [worse; zero]) else if String.eqb d "b" then Some (Ok [better]) else None;
  is_solver s := Some true;
  reveal_answer d i := Some (tagged, tagged);
  previous_settlement h := Some 10;
  shuffle l := rev l;
  current_block := 9;
  wall_clock := 50;
  polls := [(9, None); (10, Some settled_table)];
  race := DriverFirst true;
|}.
Let drivers : list string := ["a"%string; "b"%string; "late"%string].
Let tables : Competitions := mkCompetitions ∅ 7 ∅ ∅ ∅ ∅ ∅ ∅ ∅ [].
Let world : World := mkWorld no_rows tables None.
Let winner_ : Participant := mkParticipant "b" (mkSolutionWithId 1 (mkSolution 5 30 {[77 := (100, 45)]} {[1 := 1; 2 := 2]})).
Let run_7 := single_run drivers {[1]} 5 15 100 head answers world 7 auction_7.

Lemma run_7_settles : run_7.2 = Settling winner_ (Some (Ok 51)).
Proof. vm_compute. reflexivity. Qed.
Lemma run_7_eq : run_7 = (run_7.1, Settling winner_ (Some (Ok 51))).
Proof. rewrite <- run_7_settles. apply surjective_pairing. Qed.
Lemma shuffle_answers l : shuffle answers l ≡ₚ l.
Proof. symmetry. apply Permutation_rev. Qed.

Lemma best_bid_wins_witness : exists row,
  settlement_scores (competitions run_7.1) !! 7 = Some row /\ winner row = 5 /\ winning_score row = 30 /\ reference_score row = 10.
Proof.
  destruct (best_bid_wins drivers {[1]} 5 15 100 head answers world 7 auction_7 run_7.1 winner_ (Some (Ok 51)) shuffle_answers) as
    (_ & others & row & revealed & rest & _ & _ & Hrow & Hw & Hs & _).
  - intros d r sols s. cbn. destruct (String.eqb d "a"); [|destruct (String.eqb d "b"); [|done]]; intros [= <-] Hin;
      repeat (apply elem_of_cons in Hin as [->|Hin]; [closed|]); by apply not_elem_of_nil in Hin.
  - exact run_7_eq.
  - exists row. split; [exact Hrow|]. split; [exact Hw|]. split; [exact Hs|].
    assert (Href : option_map reference_score (settlement_scores (competitions run_7.1) !! 7) = Some 10) by (vm_compute; reflexivity).
    rewrite Hrow in Href. by injection Href.
Defined.


(** The next auction, cut before the settlement was indexed *)
Let auction_8 : AutopilotAuction.Auction := AutopilotAuction.mkAuction 10 9 [order 77 [policy]; order 78 []; order 79 []] tokens [].
Lemma settling_orders_are_withheld_witness :
  map AuctionDto.dto_uid (SolversDto.request_orders (request_of {[1]} 15 answers 8 (remove_in_flight_orders answers run_7.1 auction_8))) = [78; 79] /\
  (77 ∉ map AuctionDto.dto_uid (SolversDto.request_orders (request_of {[1]} 15 answers 8 (remove_in_flight_orders answers run_7.1 auction_8)))).
Proof.
  split; [vm_compute; reflexivity|].
  destruct (settling_orders_are_withheld drivers {[1]} 5 15 100 head answers answers world 7 8 auction_7 auction_8 run_7.1 winner_ 51 run_7_eq)
    as [H _].
  intros Hin. apply H in Hin as [_ Hn]; [|closed]. apply Hn. left.
Defined.

(** The chain logs the settlement of the auction, and then one of another solver. *)
Let no_trades : EncodedSettlement.EncodedSettlement := EncodedSettlement.mkEncodedSettlement [] [] [] ([], [], []).
Let decode_input (l : list byte) : option EncodedSettlement.EncodedSettlement := if (length l =? 0)%nat then Some no_trades else None.
Let transaction (hash : Z) : option Updater.Transaction :=
  if hash =? 51 then Some (Updater.mkTransaction 5 tagged 100 3) else if hash =? 61 then Some (Updater.mkTransaction 6 tagged 200 3) else None.
Let no_recovery (m : list byte) (v r s : Z) : option Z := None.
Let log (b : Z) (li : N) (solver_ hash : Z) : Event ContractEvents.Log :=
  mkEvent (Some (b, li)) (ContractEvents.mkLog (ContractEvents.Settlement solver_) hash).
Let ops : list WorldOp :=
  [Ran answers (Some auction_7); Indexed (Updater.Appended [log 10 1 5 51; log 11 0 6 61]); Indexed (Updater.Updated 60); Indexed (Updater.Updated 61)].
Let outcome := world_ops drivers {[1]} 5 15 100 head (fun m => m) no_recovery [] decode_input [] 3 transaction head world ops.
Lemma rewards_go_to_best_bids_witness : exists self' o, outcome = Ok self' /\
  Database.settlement_observations (Database.indexed (world_db self')) !! (10, 1) = Some o /\ best_bidder drivers ops 7 5.
Proof.
  destruct outcome as [self'| |] eqn:Hrun; [|vm_compute in Hrun; discriminate Hrun..].
  assert (Ho : res_map (fun w => Database.settlement_observations (Database.indexed (world_db w)) !! (10, 1)) outcome =
    Ok (Some (Database.mkObservation 100 3 0 0))) by (vm_compute; reflexivity).
  assert (Hr : res_map (fun w => Database.settlements (Database.indexed (world_db w)) !! (10, 1)) outcome =
    Ok (Some (Database.mkSettlementRow 5 51 (Some 7)))) by (vm_compute; reflexivity).
  rewrite Hrun in Ho, Hr. injection Ho as Ho. injection Hr as Hr.
  destruct (rewards_go_to_best_bids drivers {[1]} 5 15 100 head (fun m => m) no_recovery [] decode_input [] 3 transaction head ops world self')
    with (i := (10, 1)) (o := Database.mkObservation 100 3 0 0) as (row & a & tx & Hrow & Ha & Htx & Hbest & _).
  - intros [|e l] e'; [discriminate|]. intros [= ->]. by left.
  - intros answers' cur Hin. assert (answers' = answers) as ->; [|exact shuffle_answers].
    assert (Hall : Forall (fun op => match op with Ran a _ => a = answers | Indexed _ => True end) ops)
      by (repeat (constructor; [first [reflexivity|exact I]|]); constructor).
    rewrite Forall_forall in Hall. exact (Hall _ Hin).
  - reflexivity.
  - split_and!; reflexivity.
  - exact Hrun.
  - exact Ho.
  - exists self', (Database.mkObservation 100 3 0 0). split; [reflexivity|]. split; [exact Ho|].
    rewrite Hr in Hrow. injection Hrow as <-. injection Ha as <-. injection Htx as <-. exact Hbest.
Defined.

(** An auction that changes while the block stays, or together with it, is run
    again when nothing has changed any more: the block was not remembered. *)
Example same_auction_runs_twice :
  let same (a b : AutopilotAuction.Auction) := AutopilotAuction.block a =? AutopilotAuction.block b in
  let '(s, first) := should_run same (mkLoopState (Some auction_7) (Some 100)) auction_8 101 in
  let '(s, second) := should_run same s auction_8 101 in
  (first, second, (should_run same s auction_8 101).2) = (true, true, false).
Proof. reflexivity. Qed.

(** The reference score may be a second bid of the winner itself. *)
Example winner_is_its_own_reference :
  let answers := mkAnswers (fun d r => Some (Ok [better; SolversDto.mkSolution 3 29 5 {[78 := (100, 41)]} {[1 := 1; 2 := 2]}]))
    (is_solver answers) (reveal_answer answers) (previous_settlement answers) (shuffle answers) 9 50 [] TransactionFirst in
  option_map (fun row => (winner row, winning_score row, reference_score row))
    (settlement_scores (competitions (single_run ["b"%string] {[1]} 5 15 100 head answers world 7 auction_7).1) !! 7) = Some (5, 30, 29).
Proof. vm_compute. reflexivity. Qed.
End witnesses.
