(* ===== verification/OnchainOrders.v ===== *)
(** Orders that are placed on chain: how the autopilot indexes the events of a
    contract that broadcasts orders (autopilot/src/database/
    onchain_order_events.rs) with the parser of the data of ETH flow orders
    (onchain_order_events/ethflow_events.rs), the events of refunds
    (ethflow_events/event_storing.rs) and the tables they fill
    (crates/database/src/onchain_broadcasted_orders.rs, onchain_invalidations.rs,
    ethflow_orders.rs and the upserts of orders.rs).

    The trait [OnchainOrderParsing] is a class, with what the general parser
    relies on as its laws and the ETH flow parser as an instance. The quoter is
    the class of OrderQuoting.v. *)
From Stdlib Require Import ZArith Lia.
From S2P Require Import Prelude U256 Bytes Floats EventHandling ModelOrder OrderQuoting OrderValidation OrderStore.
From S2P Require Import SettlementIndex.
From stdpp Require Import prelude gmap numbers sorting.
Import list_basics.list list_relations.list list_monad.list list_misc.list.

Open Scope Z_scope.
Open Scope rust_scope.
Import ModelSignature ModelOrder Database.

(** * crates/database *)
Module OnchainDb.
Definition set_onchain (self : Indexed) (p : gmap Z OnchainOrderPlacementRow) (i : gmap Z EventIndex) (e : gmap Z Z)
    (r : gmap Z (Z * Z)) : Indexed :=
  mkIndexed (trades self) (Database.invalidations self) (presignature_events self) (settlements self)
    (settlement_observations self) (order_execution self) p i e r.
Definition set_placed (db : Db) (p : gmap Z OnchainOrderPlacementRow) : Db :=
  let t := indexed db in
  set_indexed db (set_onchain t p (onchain_order_invalidations t) (ethflow_orders t) (ethflow_refunds t)).
Definition set_invalidated (db : Db) (i : gmap Z EventIndex) : Db :=
  let t := indexed db in set_indexed db (set_onchain t (onchain_placed_orders t) i (ethflow_orders t) (ethflow_refunds t)).
Definition set_ethflow (db : Db) (e : gmap Z Z) : Db :=
  let t := indexed db in
  set_indexed db (set_onchain t (onchain_placed_orders t) (onchain_order_invalidations t) e (ethflow_refunds t)).
Definition set_refunds (db : Db) (r : gmap Z (Z * Z)) : Db :=
  let t := indexed db in
  set_indexed db (set_onchain t (onchain_placed_orders t) (onchain_order_invalidations t) (ethflow_orders t) r).

(** ** onchain_broadcasted_orders.rs *)
Record OnchainOrderPlacement : Type := mkPlacement {
  order_uid : Z;
  sender : Z;
  error : option OnchainOrderPlacementError;
}.
(** COALESCE(MAX(block_number), 0) *)
Definition last_block (db : Db) : Z :=
  match map (fun row => (placed_at row.2).1) (map_to_list (onchain_placed_orders (indexed db))) with
  | [] => 0
  | block :: blocks => foldr Z.max block blocks
  end.
Definition reorged (from_block : Z) (row : OnchainOrderPlacementRow) : OnchainOrderPlacementRow :=
  if from_block <=? (placed_at row).1
  then mkPlacementRow (placement_sender row) (Database.placement_error row) true (placed_at row) else row.
Definition mark_as_reorged (db : Db) (mark_from_block_number : Z) : Db :=
  set_placed db (reorged mark_from_block_number <$> onchain_placed_orders (indexed db)).
Definition placement_row (index : EventIndex) (event : OnchainOrderPlacement) : OnchainOrderPlacementRow :=
  mkPlacementRow (sender event) (error event) false index.
Definition insert_onchain_order (db : Db) (e : EventIndex * OnchainOrderPlacement) : Db :=
  set_placed db (<[order_uid e.2 := placement_row e.1 e.2]> (onchain_placed_orders (indexed db))).
Definition append (db : Db) (events : list (EventIndex * OnchainOrderPlacement)) : Db :=
  foldl insert_onchain_order db events.

(** ** onchain_invalidations.rs *)
Definition delete_invalidations (db : Db) (block_number : Z) : Db :=
  set_invalidated db (filter (fun row => ~ block_number <= row.2.1) (onchain_order_invalidations (indexed db))).
Definition insert_onchain_invalidation (db : Db) (index : EventIndex) (order_uid : Z) : Db :=
  set_invalidated db (<[order_uid := index]> (onchain_order_invalidations (indexed db))).
Definition insert_onchain_invalidations (db : Db) (now : Z) (events : list (EventIndex * Z)) : Db :=
  foldl (fun db e =>
      insert_order_event (insert_onchain_invalidation db e.1 e.2) (mkOrderEvent e.2 now EventCancelled)) db events.

(** ** ethflow_orders.rs *)
Definition insert_or_overwrite_ethflow_order (db : Db) (event : Z * Z) : Db :=
  set_ethflow db (<[event.1 := event.2]> (ethflow_orders (indexed db))).
Definition insert_or_overwrite_orders (db : Db) (events : list (Z * Z)) : Db :=
  foldl insert_or_overwrite_ethflow_order db events.
(** An order's validity, and the transaction that refunded it. *)
Record EthOrderData : Type := mkEthOrderData { eth_valid_to : Z; refund_tx : option Z }.
Definition read_order (db : Db) (id : Z) : option EthOrderData :=
  (fun valid_to => mkEthOrderData valid_to (snd <$> ethflow_refunds (indexed db) !! id)) <$> ethflow_orders (indexed db) !! id.
Record Refund : Type := mkRefund { refund_order : Z; refund_block : Z; refund_hash : Z }.
Definition delete_refunds (db : Db) (from_block to_block : Z) : Db :=
  set_refunds db (filter (fun row => ~ (from_block <= row.2.1 /\ row.2.1 <= to_block)) (ethflow_refunds (indexed db))).
(** ORDER BY block_number DESC LIMIT 1 *)
Definition last_indexed_block (db : Db) : option Z :=
  match map (fun row => row.2.1) (map_to_list (ethflow_refunds (indexed db))) with
  | [] => None
  | block :: blocks => Some (foldr Z.max block blocks)
  end.
Definition insert_refund_tx_hash (db : Db) (refund : Refund) : Db :=
  set_refunds db (<[refund_order refund := (Z.min (refund_block refund) I64_MAX, refund_hash refund)]>
    (ethflow_refunds (indexed db))).
Definition insert_refund_tx_hashes (db : Db) (refunds : list Refund) : Db := foldl insert_refund_tx_hash db refunds.

(** What the query of refundable orders asks of an order; the division and the
    comparison with a float are done by the database: [slippage_reached] gets the
    amount of the order, that of the quote and the bound. *)
Section refundable.
Context (slippage_reached : Z -> Z -> F64.f64 -> bool) (since_valid_to min_validity_duration : Z) (min_slippage : F64.f64).
Definition refundable (db : Db) (uid : Z) (o : OrderRow) (eth_valid_to : Z) (quote : QuoteRow) : bool :=
  bool_decide (ethflow_refunds (indexed db) !! uid = None)
  && bool_decide (onchain_order_invalidations (indexed db) !! uid = None)
  && negb (row_partially_fillable o)
  && bool_decide (trades_of db uid = [])
  && (eth_valid_to <? since_valid_to)
  && (row_sell_amount o =? quote_sell_amount quote)
  && slippage_reached (row_buy_amount o) (Z.max (quote_buy_amount quote) 1) min_slippage
  && (min_validity_duration <? eth_valid_to - creation_timestamp o).
Definition refundable_row (db : Db) (order : Z * OrderRow) : option (Z * Z) :=
  eth_valid_to ← ethflow_orders (indexed db) !! order.1;
  quote ← order_quotes db !! order.1;
  if refundable db order.1 order.2 eth_valid_to quote then Some (order.1, eth_valid_to) else None.
Definition refundable_orders (db : Db) : list (Z * Z) := omap (refundable_row db) (map_to_list (orders db)).
End refundable.

(** ** orders.rs: what is there already is kept, or overwritten in part *)
Definition insert_order_and_ignore_conflicts (db : Db) (order : Z * OrderRow) : Db :=
  set_orders db (insert_new (orders db) order.1 order.2).
Definition insert_orders_and_ignore_conflicts (db : Db) (orders : list (Z * OrderRow)) : Db :=
  foldl (fun db order =>
      insert_order_event (insert_order_and_ignore_conflicts db order)
        (mkOrderEvent order.1 (creation_timestamp order.2) Created)) db orders.
(** The time of the execution is not overwritten. *)
Definition overwrite_interaction (uid : Z) (interaction : InteractionRow) (row : Z * InteractionRow) : Z * InteractionRow :=
  if decide (row.1 = uid /\ index row.2 = index interaction)
  then (uid, mkInteractionRow (interaction_target interaction) (interaction_value interaction)
               (interaction_data interaction) (index interaction) (execution row.2))
  else row.
Definition insert_or_overwrite_interaction (db : Db) (e : Z * InteractionRow) : Db :=
  set_interaction_rows db
    (if decide (Exists (fun row => row.1 = e.1 /\ index row.2 = index e.2) (interaction_rows db))
     then map (overwrite_interaction e.1 e.2) (interaction_rows db) else interaction_rows db ++ [e]).
Definition insert_or_overwrite_interactions (db : Db) (uid_and_interaction : list (Z * InteractionRow)) : Db :=
  foldl insert_or_overwrite_interaction db uid_and_interaction.
(** The solver of a quote is not overwritten. *)
Definition overwrite_quote (old : option QuoteRow) (quote : QuoteRow) : QuoteRow :=
  mkQuoteRow (quote_gas_amount quote) (quote_gas_price quote) (quote_sell_token_price quote) (quote_sell_amount quote)
    (quote_buy_amount quote) (match old with Some old => quote_row_solver old | None => quote_row_solver quote end).
Definition insert_quote_and_update_on_conflict (db : Db) (quote : Z * QuoteRow) : Db :=
  set_order_quotes db (<[quote.1 := overwrite_quote (order_quotes db !! quote.1) quote.2]> (order_quotes db)).
Definition insert_quotes (db : Db) (quotes : list (Z * QuoteRow)) : Db :=
  foldl insert_quote_and_update_on_conflict db quotes.
End OnchainDb.
Import OnchainDb.

(** * The contract's events *)
Module CowswapOnchainOrders.
(** The order of the event, with the hashes of the names of its variants. *)
Record ContractOrder : Type := mkContractOrder {
  c_sell_token : Z;
  c_buy_token : Z;
  c_receiver : Z;
  c_sell_amount : Z;
  c_buy_amount : Z;
  c_valid_to : Z;
  c_app_data : list byte;
  c_fee_amount : Z;
  c_kind : list byte;
  c_partially_fillable : bool;
  c_sell_token_balance : list byte;
  c_buy_token_balance : list byte;
}.
Record OrderPlacement : Type := mkOrderPlacement {
  event_sender : Z;
  event_order : ContractOrder;
  event_signature : Z * list byte;
  event_data : list byte;
}.
Inductive ContractEvent : Type :=
| Placed (event : OrderPlacement)
| Invalidated (order_uid : list byte).
Definition is_placement (e : Event ContractEvent) : bool :=
  match EventHandling.data e with Placed _ => true | Invalidated _ => false end.
End CowswapOnchainOrders.
Import CowswapOnchainOrders.

(** * onchain_order_events.rs *)
Module OnchainOrderEvents.
Record OnchainOrderCustomData (T : Type) : Type := mkCustomData { quote_id : Z; additional_data : option T }.
Arguments mkCustomData {T} _ _.
Arguments quote_id {T} _.
Arguments additional_data {T} _.

(** The trait: what a kind of on-chain order has in its data, and what is stored
    of it. *)
Class OnchainOrderParsing (EventData EventRow : Type) : Type := {
  append_custom_order_info_to_db : Db -> list EventRow -> Db;
  parse_custom_event_data : list (Event ContractEvent) ->
    res unit (list (EventIndex * OnchainOrderCustomData EventData));
  customized_event_data_for_event_index : EventIndex -> Z * OrderRow -> gmap EventIndex EventData ->
    OnchainOrderPlacement -> res unit EventRow;
}.
(** The tables that are left to the general parser. *)
Record general_tables_kept (db db' : Db) : Prop := {
  kept_orders : orders db' = orders db;
  kept_quotes : order_quotes db' = order_quotes db;
  kept_placed : onchain_placed_orders (indexed db') = onchain_placed_orders (indexed db);
  kept_invalidated : onchain_order_invalidations (indexed db') = onchain_order_invalidations (indexed db);
}.
(** Events that have metadata are parsed, one without makes the parsing fail,
    and what was parsed with its data gets a row. *)
Class OnchainOrderParsingLaws (EventData EventRow : Type) `{OnchainOrderParsing EventData EventRow} : Prop := {
  parsing_fails events : parse_custom_event_data events = Err tt <-> Exists (fun e => EventHandling.meta e = None) events;
  parsing_returns events : parse_custom_event_data events <> Panic;
  parsed_has_data events parsed i c : parse_custom_event_data events = Ok parsed -> (i, c) ∈ parsed ->
    is_Some (additional_data c);
  row_of_parsed i order (data : gmap EventIndex EventData) p : is_Some (data !! i) ->
    exists row, customized_event_data_for_event_index i order data p = Ok row;
  append_keeps db rows : general_tables_kept db (append_custom_order_info_to_db db rows);
}.

(** [Verification::default()] *)
Definition no_verification : PriceEstimation.Verification :=
  PriceEstimation.mkVerification 0 0 [] [] SellErc20 BuyErc20.

Abbreviation GeneralOnchainOrderPlacementData :=
  (EventIndex * option (Z * QuoteRow) * OnchainOrderPlacement * (Z * OrderRow))%type.

(** A [Result] that is a value, not the end of the computation. *)
Definition caught {E F A} (m : res E A) : res F (res E A) := match m with Panic => Panic | _ => Ok m end.
(** [filter_map] of the futures' results *)
Fixpoint keep_ok {A} (l : list (res unit A)) : res unit (list A) :=
  match l with
  | [] => Ok []
  | Ok a :: l => let* rest := keep_ok l in Ok (a :: rest)
  | Err _ :: l => keep_ok l
  | Panic :: _ => Panic
  end.
(** [Vec::dedup] *)
Fixpoint dedup (l : list Z) : list Z :=
  match l with
  | a :: ((b :: _) as rest) => if a =? b then dedup rest else a :: dedup rest
  | _ => l
  end.

(** The quoter and the node at the time of a call, and the order in which the
    futures of [buffer_unordered] complete. *)
Record Services (S : Type) : Type := mkServices {
  quotes : S;
  timestamp_of_block_in_seconds : Z -> res unit Z;
  now : Z;
  buffer_unordered : list (res unit GeneralOnchainOrderPlacementData) -> list (res unit GeneralOnchainOrderPlacementData);
  buffer_unordered_all l : buffer_unordered l ≡ₚ l;
}.
Arguments mkServices {S} _ _ _ _ _.
Arguments quotes {S} _.
Arguments timestamp_of_block_in_seconds {S} _ _.
Arguments now {S} _.
Arguments buffer_unordered {S} _ _.

Section parser.
Context (keccak256 : list byte -> list byte) (domain_separator : list byte) (settlement_contract : Z).

(** The slice of the first 20 bytes panics when there are fewer. *)
Definition extract_order_data_from_onchain_order_placement_event (order_placement : OrderPlacement)
  : res unit (OrderData * Z * SigningScheme * Z) :=
  let '(scheme, bytes) := event_signature order_placement in
  let* ' (signing_scheme, owner) :=
    if scheme =? 0 then
      if (length bytes <? 20)%nat then Panic else Ok (SEip1271, from_be_bytes (take 20 bytes))
    else if scheme =? 1 then Ok (SPreSign, event_sender order_placement)
    else Err tt in
  let order := CowswapOnchainOrders.event_order order_placement in
  let receiver := if c_receiver order =? 0 then None else Some (c_receiver order) in
  let* kind := opt (kind_from_bytes (c_kind order)) in
  let* sell_token_balance := opt (sell_token_source_from_bytes (c_sell_token_balance order)) in
  let* buy_token_balance := opt (buy_token_destination_from_bytes (c_buy_token_balance order)) in
  let order_data :=
    mkOrderData (c_sell_token order) (c_buy_token order) receiver (c_sell_amount order) (c_buy_amount order)
      (c_valid_to order) (c_app_data order) (c_fee_amount order) kind (c_partially_fillable order) sell_token_balance
      buy_token_balance in
  Ok (order_data, owner, signing_scheme, uid keccak256 order_data domain_separator owner).

Definition placed_order_row (order_placement : OrderPlacement) (event_timestamp : Z) (order_data : OrderData)
    (signing_scheme : SigningScheme) (owner : Z) : OrderRow :=
  mkOrderRow owner event_timestamp (sell_token order_data) (buy_token order_data) (receiver order_data)
    (sell_amount order_data) (buy_amount order_data) (ModelOrder.valid_to order_data) (app_data order_data)
    (fee_amount order_data) (kind order_data) (partially_fillable order_data) (event_signature order_placement).2
    signing_scheme settlement_contract (sell_token_balance order_data) (buy_token_balance order_data)
    (fee_amount order_data) None (if fee_amount order_data =? 0 then Limit else Market).
(** The row of the order, and that it was placed; an order outside the market
    price is logged only. *)
Definition convert_onchain_order_placement (order_placement : OrderPlacement) (event_timestamp : Z)
    (quote : res OnchainOrderPlacementError OrderQuoting.Quote) (order_data : OrderData) (signing_scheme : SigningScheme)
    (order_uid owner : Z) : res unit (OnchainOrderPlacement * (Z * OrderRow)) :=
  let* _ :=
    match quote with
    | Ok quote =>
        within_market order_data
          (mkQuoteAmounts (OrderQuoting.sell_amount quote) (OrderQuoting.buy_amount quote) (OrderQuoting.fee_amount quote))
    | _ => Ok true
    end in
  Ok (mkPlacement order_uid (event_sender order_placement) (match quote with Err e => Some e | _ => None end),
      (order_uid, placed_order_row order_placement event_timestamp order_data signing_scheme owner)).

Section quoter.
Context {S : Type} `{OrderQuoting.Quoting S}.
(** With an id the quoter stores nothing ([get_quote_stores_nothing]). *)
Definition get_quote (s : S) (order_data : OrderData) (signing_scheme : SigningScheme) (quote_id : Z)
  : res OnchainOrderPlacementError OrderQuoting.Quote :=
  map_err OrderValidation.onchain_order_placement_error_from
    (let* quote_signing_scheme :=
       OrderValidation.convert_signing_scheme_into_quote_signing_scheme signing_scheme false 0 in
     let parameters :=
       OrderQuoting.mkQuoteSearchParameters (sell_token order_data) (buy_token order_data) (sell_amount order_data)
         (buy_amount order_data) (fee_amount order_data) (kind order_data) quote_signing_scheme 0 no_verification in
     let fee_amount := if fee_amount order_data =? 0 then None else Some (fee_amount order_data) in
     (OrderValidation.get_quote_and_check_fee parameters (Some quote_id) fee_amount s).2).
Definition quote_row (quote : OrderQuoting.Quote) : QuoteRow :=
  let fee := OrderQuoting.fee_parameters (OrderQuoting.data quote) in
  mkQuoteRow (Fee.gas_amount fee) (Fee.gas_price fee) (Fee.sell_token_price fee) (OrderQuoting.sell_amount quote)
    (OrderQuoting.buy_amount quote) (OrderQuoting.quote_solver (OrderQuoting.data quote)).
(** One of the futures *)
Definition placement_data (s : S) (e : Event ContractEvent * Z * Z) : res unit GeneralOnchainOrderPlacementData :=
  let '(e, event_timestamp, quote_id) := e in
  let* meta := opt (EventHandling.meta e) in
  let* event := match EventHandling.data e with Placed event => Ok event | Invalidated _ => Panic end in
  let* ' (order_data, owner, signing_scheme, order_uid) := extract_order_data_from_onchain_order_placement_event event in
  let* quote_result := caught (get_quote s order_data signing_scheme quote_id) in
  let* ' (placement, order) :=
    convert_onchain_order_placement event event_timestamp quote_result order_data signing_scheme order_uid owner in
  let quote := match quote_result with Ok quote => Some (order_uid, quote_row quote) | _ => None end in
  Ok (ContractEvents.meta_to_event_index meta, quote, placement, order).
Definition parse_general_onchain_order_placement_data (svc : Services S) (events : list (Event ContractEvent * Z * Z))
  : res unit (list GeneralOnchainOrderPlacementData) :=
  keep_ok (buffer_unordered svc (map (placement_data (quotes svc)) events)).

Definition get_block_numbers_of_events (svc : Services S) (events : list (Event ContractEvent)) : res unit (gmap Z Z) :=
  let* event_block_numbers := rmap (fun e => let* meta := opt (EventHandling.meta e) in Ok meta.1) events in
  let* pairs :=
    rmap (fun block => let* timestamp := timestamp_of_block_in_seconds svc block in Ok (block, timestamp))
      (dedup event_block_numbers) in
  Ok (foldl (fun m p => <[p.1 := p.2]> m) ∅ pairs).
Definition get_invalidation_events (events : list (Event ContractEvent)) : res unit (list (EventIndex * list byte)) :=
  res_map (omap Datatypes.id)
    (rmap (fun e =>
        let* meta := opt (EventHandling.meta e) in
        Ok (match EventHandling.data e with
            | Invalidated order_uid => Some (ContractEvents.meta_to_event_index meta, order_uid)
            | Placed _ => None
            end)) events).
Definition extract_invalidated_order_uids (invalidations : list (EventIndex * list byte)) : res unit (list (EventIndex * Z)) :=
  rmap (fun i => let* uid := ContractEvents.bytes_to_order_uid i.2 in Ok (i.1, uid)) invalidations.

Context {EventData EventRow : Type} `{OnchainOrderParsing EventData EventRow}.
(** What is extracted of an event *)
Record Extracted : Type := mkExtracted {
  custom : EventRow;
  extracted_quote : option (Z * QuoteRow);
  broadcasted : EventIndex * OnchainOrderPlacement;
  extracted_order : Z * OrderRow;
}.
Definition custom_data_of (custom_event_data : list (EventIndex * OnchainOrderCustomData EventData))
  : gmap EventIndex EventData :=
  foldl (fun m c => match additional_data c.2 with Some data => <[c.1 := data]> m | None => m end) ∅ custom_event_data.
Definition quote_ids_of (custom_event_data : list (EventIndex * OnchainOrderCustomData EventData)) : gmap EventIndex Z :=
  foldl (fun m c => <[c.1 := quote_id c.2]> m) ∅ custom_event_data.
(** An event with its time and quote, when its data was parsed; the time of its
    block must be known. *)
Definition event_and_quote (timestamps : gmap Z Z) (quote_ids : gmap EventIndex Z) (e : Event ContractEvent)
  : res unit (option (Event ContractEvent * Z * Z)) :=
  match EventHandling.meta e with
  | None => Ok None
  | Some meta =>
      let event_index := ContractEvents.meta_to_event_index meta in
      match quote_ids !! event_index with
      | None => Ok None
      | Some quote_id => let* timestamp := opt_expect (timestamps !! event_index.1) in Ok (Some (e, timestamp, quote_id))
      end
  end.
Definition extract_custom_and_general_order_data (svc : Services S) (order_placement_events : list (Event ContractEvent))
  : res unit (list Extracted) :=
  let* timestamps := get_block_numbers_of_events svc order_placement_events in
  let* custom_event_data := parse_custom_event_data order_placement_events in
  let custom_data := custom_data_of custom_event_data in
  let* events_and_quotes := rmap (event_and_quote timestamps (quote_ids_of custom_event_data)) order_placement_events in
  let* onchain_order_data :=
    parse_general_onchain_order_placement_data svc (omap Datatypes.id events_and_quotes) in
  rmap (fun '(event_index, quote, placement, order) =>
      let* custom := customized_event_data_for_event_index event_index order custom_data placement in
      Ok (mkExtracted custom quote (event_index, placement) order)) onchain_order_data.

(** The writes of [insert_events] *)
Definition write (now : Z) (db : Db) (invalidated : list (EventIndex * Z)) (extracted : list Extracted) : Db :=
  let db := insert_onchain_invalidations db now invalidated in
  let db := append_custom_order_info_to_db db (map custom extracted) in
  let db := OnchainDb.append db (map broadcasted extracted) in
  let db := insert_quotes db (omap extracted_quote extracted) in
  insert_orders_and_ignore_conflicts db (map extracted_order extracted).
Definition insert_events (svc : Services S) (db : Db) (events : list (Event ContractEvent)) : res unit Db :=
  let order_placement_events := List.filter is_placement events in
  let* invalidation_events := get_invalidation_events events in
  let* invalidated := extract_invalidated_order_uids invalidation_events in
  let* extracted := extract_custom_and_general_order_data svc order_placement_events in
  Ok (write (now svc) db invalidated extracted).
Definition delete_events (db : Db) (range : CurrentBlock.RangeInclusive) : Db :=
  let from_block := Z.min (CurrentBlock.start range) I64_MAX in
  delete_invalidations (mark_as_reorged db from_block) from_block.

(** The trait [EventStoring]; a transaction that fails changes nothing. *)
Definition commit (db : Db) (result : res unit Db) : Db * bool := match result with Ok db' => (db', true) | _ => (db, false) end.
Definition replace_events (svc : Services S) (db : Db) (events : list (Event ContractEvent))
    (range : CurrentBlock.RangeInclusive) : Db * bool := commit db (insert_events svc (delete_events db range) events).
Definition append_events (svc : Services S) (db : Db) (events : list (Event ContractEvent)) : Db * bool :=
  commit db (insert_events svc db events).
Definition last_event_block (db : Db) : option Z :=
  let block_number := OnchainDb.last_block db in if 0 <=? block_number then Some block_number else None.
Definition storing (svc : Services S) : EventStoring ContractEvent Db := {|
  EventHandling.replace_events := replace_events svc;
  EventHandling.append_events := append_events svc;
  EventHandling.last_event_block := last_event_block;
|}.
(** What the updater of events asks of the store over time. *)
Inductive OnchainOp : Type :=
| Appended (svc : Services S) (events : list (Event ContractEvent))
| Replaced (svc : Services S) (events : list (Event ContractEvent)) (range : CurrentBlock.RangeInclusive).
Definition onchain_op (db : Db) (op : OnchainOp) : Db :=
  match op with
  | Appended svc events => (append_events svc db events).1
  | Replaced svc events range => (replace_events svc db events range).1
  end.
Definition onchain_ops (db : Db) (ops : list OnchainOp) : Db := foldl onchain_op db ops.
End quoter.
End parser.
End OnchainOrderEvents.

(** * onchain_order_events/ethflow_events.rs *)
Module EthflowEvents.
Import OnchainOrderEvents.
Definition WRAP_ALL_SELECTOR : list byte := be_bytes 4 0x4c84c1c8.
(** [EthFlowData] is the validity the user asked for. *)
Record EthFlowDataForDb : Type := mkEthFlowDataForDb { eth_order_placement : Z * Z; pre_interaction : InteractionRow }.
Definition convert_to_quote_id_and_user_valid_to (order_placement : OrderPlacement) : res unit (Z * Z) :=
  let data := event_data order_placement in
  if (length data =? 12)%nat
  then Ok (Updater.i64_from_be_bytes (take 8 data), from_be_bytes (drop 8 data))
  else Err tt.
Definition parse_event (e : Event ContractEvent) : res unit (option (EventIndex * OnchainOrderCustomData Z)) :=
  let* meta := opt (EventHandling.meta e) in
  match EventHandling.data e with
  | Invalidated _ => Ok None
  | Placed event =>
      match convert_to_quote_id_and_user_valid_to event with
      | Ok (quote_id, user_valid_to) =>
          Ok (Some (ContractEvents.meta_to_event_index meta, mkCustomData quote_id (Some user_valid_to)))
      | Err _ => Ok None
      | Panic => Panic
      end
  end.
Definition parse (contract_events : list (Event ContractEvent)) : res unit (list (EventIndex * OnchainOrderCustomData Z)) :=
  res_map (omap Datatypes.id) (rmap parse_event contract_events).
Definition wrap_all (owner : Z) : InteractionRow := mkInteractionRow owner 0 WRAP_ALL_SELECTOR 0 Pre.
Definition customized (event_index : EventIndex) (order : Z * OrderRow) (hashmap : gmap EventIndex Z)
    (_ : OnchainOrderPlacement) : res unit EthFlowDataForDb :=
  let* user_valid_to := opt_expect (hashmap !! event_index) in
  Ok (mkEthFlowDataForDb (order.1, user_valid_to) (wrap_all (row_owner order.2))).
Definition append_custom (db : Db) (custom_onchain_data : list EthFlowDataForDb) : Db :=
  insert_or_overwrite_interactions (insert_or_overwrite_orders db (map eth_order_placement custom_onchain_data))
    (map (fun data => ((eth_order_placement data).1, pre_interaction data)) custom_onchain_data).
#[export] Instance ethflow_parsing : OnchainOrderParsing Z EthFlowDataForDb := {
  append_custom_order_info_to_db := append_custom;
  parse_custom_event_data := parse;
  customized_event_data_for_event_index := customized;
}.
End EthflowEvents.

(** * ethflow_events/event_storing.rs *)
Module EthflowRefunds.
Inductive EthFlowEvent : Type :=
| OrderRefund (order_uid : list byte)
| OtherEthFlowEvent.
(** An event with the rest of its metadata. *)
Record RefundLog : Type := mkRefundLog { ethflow_event : EthFlowEvent; transaction_hash : Z }.
Definition get_refunds (events : list (Event RefundLog)) : res unit (list Refund) :=
  res_map (omap Datatypes.id)
    (rmap (fun e =>
        let* meta := opt (EventHandling.meta e) in
        match ethflow_event (EventHandling.data e) with
        | OrderRefund order_uid =>
            let* uid := ContractEvents.bytes_to_order_uid order_uid in
            Ok (Some (mkRefund uid meta.1 (transaction_hash (EventHandling.data e))))
        | OtherEthFlowEvent => Ok None
        end) events).
Definition last_event_block (db : Db) : option Z := Some (default 0 (last_indexed_block db) mod 2 ^ 64).
Definition append_events (db : Db) (events : list (Event RefundLog)) : Db * bool :=
  match get_refunds events with
  | Ok refunds => (insert_refund_tx_hashes db refunds, true)
  | _ => (db, false)
  end.
Definition replace_events (db : Db) (events : list (Event RefundLog)) (range : CurrentBlock.RangeInclusive) : Db * bool :=
  match get_refunds events with
  | Ok refunds =>
      let db := delete_refunds db (Z.min (CurrentBlock.start range) I64_MAX) (Z.min (CurrentBlock.end_ range) I64_MAX) in
      (insert_refund_tx_hashes db refunds, true)
  | _ => (db, false)
  end.
#[export] Instance refund_storing : EventStoring RefundLog Db := {
  EventHandling.replace_events := replace_events;
  EventHandling.append_events := append_events;
  EventHandling.last_event_block := last_event_block;
}.
End EthflowRefunds.

(** * Lemmas *)
Import OnchainOrderEvents EthflowEvents.

(** ** Loops over results *)
Section results.
Context {A B : Type}.
Implicit Types (l : list (res unit A)) (f : A -> res unit B).

Lemma keep_ok_Ok l xs x : keep_ok l = Ok xs -> x ∈ xs <-> Ok x ∈ l.
Proof.
  revert xs. induction l as [|[a|e|] l IH]; intros xs; cbn [keep_ok].
  - intros [= <-]. by rewrite !elem_of_nil.
  - intros H. inv_ok. rewrite !elem_of_cons, (IH _ Hv). naive_solver.
  - intros H. rewrite elem_of_cons, (IH xs) by done. naive_solver.
  - done.
Qed.
Lemma keep_ok_length l xs : keep_ok l = Ok xs -> (length xs <= length l)%nat.
Proof.
  revert xs. induction l as [|[a|e|] l IH]; intros xs; cbn [keep_ok length].
  - by intros [= <-].
  - intros H. inv_ok. cbn. specialize (IH _ Hv). lia.
  - intros H%IH. lia.
  - done.
Qed.
Lemma keep_ok_Err l e : keep_ok l <> Err e.
Proof. induction l as [|[a|e'|] l IH]; cbn [keep_ok]; [done| |done..]. by destruct (keep_ok l). Qed.

Lemma rmap_not_Panic f (xs : list A) : Forall (fun x => f x <> Panic) xs -> rmap f xs <> Panic.
Proof. induction 1 as [|x xs Hx _ IH]; cbn; [done|]. destruct (f x); cbn; [|done..]. by destruct (rmap f xs). Qed.
Lemma rmap_Err f (xs : list A) : Forall (fun x => f x <> Panic) xs ->
  rmap f xs = Err tt <-> Exists (fun x => f x = Err tt) xs.
Proof.
  induction 1 as [|x xs Hx Hxs IH]; cbn; [by rewrite Exists_nil|]. rewrite Exists_cons, <- IH.
  destruct (f x) as [b|[]|]; cbn; [|naive_solver..]. destruct (rmap f xs) as [|[]|]; naive_solver.
Qed.
Lemma keep_ok_Panic l : keep_ok l = Panic -> Panic ∈ l.
Proof.
  induction l as [|[a|e|] l IH]; cbn [keep_ok]; [done| |intros Hp; right; by apply IH|by left].
  intros Hp. right. apply IH. by destruct (keep_ok l).
Qed.
Lemma rmap_not_Err f (xs : list A) : (forall x, f x <> Err tt) -> rmap f xs <> Err tt.
Proof.
  intros Hf. induction xs as [|x xs IH]; cbn; [done|]. specialize (Hf x). destruct (f x) as [b|[]|]; [|done..].
  cbn. by destruct (rmap f xs) as [|[]|].
Qed.
Lemma rmap_Panic f (xs : list A) : rmap f xs = Panic -> exists x, x ∈ xs /\ f x = Panic.
Proof.
  induction xs as [|x xs IH]; cbn; [done|]. destruct (f x) as [b|e|] eqn:Hx; cbn; [|done|].
  - intros Hp. destruct IH as (x' & Hin & Hx'); [by destruct (rmap f xs)|]. exists x'. split; [by right|done].
  - intros _. exists x. split; [by left|done].
Qed.
End results.

Lemma elem_of_dedup x l : x ∈ dedup l <-> x ∈ l.
Proof.
  induction l as [|a [|b l] IH]; [done..|]. cbn [dedup]. destruct (Z.eqb_spec a b) as [->|Hn].
  - rewrite IH, !elem_of_cons. naive_solver.
  - rewrite !(elem_of_cons _ _ a), IH. done.
Qed.

(** With an id, the quoter is only asked for what it has. *)
Lemma get_quote_stores_nothing {S} `{OrderQuoting.Quoting S} p i fee (s : S) :
  (OrderValidation.get_quote_and_check_fee p (Some i) fee s).1 = s.
Proof.
  unfold OrderValidation.get_quote_and_check_fee, OrderValidation.get_or_create_quote, st_bind, st_lift.
  destruct (OrderQuoting.quoting_find s (Some i) p) as [q|[]|]; done.
Qed.

(** ** Tables under a loop of writes *)
Lemma foldl_proj {D X M} (proj : D -> M) (f : D -> X -> D) (g : M -> X -> M) d l :
  (forall d x, proj (f d x) = g (proj d) x) -> proj (foldl f d l) = foldl g (proj d) l.
Proof. intros Hf. revert d. induction l as [|x l IH]; intros d; [done|]. cbn. by rewrite IH, Hf. Qed.
Lemma foldl_keeps {D X M} (proj : D -> M) (f : D -> X -> D) d l :
  (forall d x, proj (f d x) = proj d) -> proj (foldl f d l) = proj d.
Proof. intros Hf. revert d. induction l as [|x l IH]; intros d; [done|]. cbn. by rewrite IH. Qed.

(** Among writes of rows the last one of a key counts. *)
Lemma foldl_upsert {K V X} `{Countable K} (key : X -> K) (row : X -> V) (m : gmap K V) xs i :
  foldl (fun m x => <[key x := row x]> m) m xs !! i =
  match last (filter (fun x => key x = i) xs) with Some x => Some (row x) | None => m !! i end.
Proof.
  revert m. induction xs as [|x xs IH] using rev_ind; intros m; [done|].
  rewrite foldl_app, filter_app, filter_cons. cbn. case_decide as Hx; subst.
  - by rewrite lookup_insert_eq, last_snoc.
  - rewrite lookup_insert_ne, app_nil_r by done. apply IH.
Qed.
Lemma foldl_upsert_elem {K V X} `{Countable K} (key : X -> K) (row : X -> V) (m : gmap K V) xs i r :
  foldl (fun m x => <[key x := row x]> m) m xs !! i = Some r ->
  (exists x, x ∈ xs /\ key x = i /\ r = row x) \/ m !! i = Some r.
Proof.
  rewrite foldl_upsert. destruct (last _) as [x|] eqn:Hx; [|by right]. intros [= <-]. left. exists x.
  apply last_Some_elem_of, list_elem_of_filter in Hx as [Hk Hx]. done.
Qed.
Lemma foldl_upsert_last {K V X} `{Countable K} (key : X -> K) (row : X -> V) (m : gmap K V) xs x r : x ∈ xs ->
  foldl (fun m x => <[key x := row x]> m) m xs !! key x = Some r -> exists y, y ∈ xs /\ key y = key x /\ r = row y.
Proof.
  intros Hx. rewrite foldl_upsert. destruct (last (filter _ xs)) as [y|] eqn:Hl.
  - intros [= <-]. apply last_Some_elem_of, list_elem_of_filter in Hl as [Hk Hy]. by exists y.
  - apply last_None in Hl. by destruct (filter_nil_not_elem_of _ _ x Hl).
Qed.
(** A loop that never removes and writes every key it meets. *)
Lemma foldl_dom {K V X} `{Countable K} (key : X -> K) (f : gmap K V -> X -> gmap K V) m xs i :
  (forall m x, dom (f m x) = {[key x]} ∪ dom m) ->
  is_Some (foldl f m xs !! i) <-> i ∈ map key xs \/ is_Some (m !! i).
Proof.
  intros Hf. revert m. induction xs as [|x xs IH]; intros m; cbn [foldl map].
  - rewrite elem_of_nil. tauto.
  - rewrite IH, elem_of_cons, <- !elem_of_dom, Hf, elem_of_union, elem_of_singleton. tauto.
Qed.

Lemma overwrite_interactions_keep db l (db' := insert_or_overwrite_interactions db l) :
  orders db' = orders db /\ order_quotes db' = order_quotes db /\ indexed db' = indexed db.
Proof. split_and!; by apply foldl_keeps. Qed.
Lemma overwrite_orders_keep db l (db' := insert_or_overwrite_orders db l) :
  orders db' = orders db /\ order_quotes db' = order_quotes db /\ interaction_rows db' = interaction_rows db /\
  onchain_placed_orders (indexed db') = onchain_placed_orders (indexed db) /\
  onchain_order_invalidations (indexed db') = onchain_order_invalidations (indexed db) /\
  ethflow_orders (indexed db') = foldl (fun m x => <[x.1 := x.2]> m) (ethflow_orders (indexed db)) l.
Proof.
  split_and!; [by apply foldl_keeps..| | |].
  - by apply (foldl_keeps (fun db => onchain_placed_orders (indexed db))).
  - by apply (foldl_keeps (fun db => onchain_order_invalidations (indexed db))).
  - by apply (foldl_proj (fun db => ethflow_orders (indexed db))).
Qed.

(** ** The ETH flow parser keeps the laws of the trait *)
Lemma parse_event_Err e : parse_event e = Err tt <-> EventHandling.meta e = None.
Proof.
  unfold parse_event. destruct (EventHandling.meta e) as [m|]; cbn; [|done]. destruct (EventHandling.data e) as [p|]; [|done].
  unfold convert_to_quote_id_and_user_valid_to. by destruct (_ =? _)%nat.
Qed.
Lemma parse_event_returns e : parse_event e <> Panic.
Proof.
  unfold parse_event. destruct (EventHandling.meta e) as [m|]; cbn; [|done]. destruct (EventHandling.data e) as [p|]; [|done].
  unfold convert_to_quote_id_and_user_valid_to. by destruct (_ =? _)%nat.
Qed.
Lemma parse_elem events parsed i c : parse events = Ok parsed -> (i, c) ∈ parsed ->
  exists e m p q v, e ∈ events /\ EventHandling.meta e = Some m /\ EventHandling.data e = Placed p /\
    i = ContractEvents.meta_to_event_index m /\ convert_to_quote_id_and_user_valid_to p = Ok (q, v) /\
    c = mkCustomData q (Some v).
Proof.
  unfold parse. intros (os & Hos & <-)%res_map_Ok Hin. apply rmap_Ok in Hos.
  apply list_elem_of_omap in Hin as (o & Ho & Hi). cbn in Hi. subst o.
  apply list_elem_of_lookup in Ho as [k Hk]. destruct (Forall2_lookup_r _ _ _ _ _ Hos Hk) as (e & He & Hp).
  unfold parse_event in Hp. destruct (EventHandling.meta e) as [m|] eqn:Hm; [|done]. cbn in Hp.
  destruct (EventHandling.data e) as [p|] eqn:Hd; [|done].
  destruct (convert_to_quote_id_and_user_valid_to p) as [[q u]| |] eqn:Hc; [|done..]. injection Hp as <- <-.
  exists e, m, p, q, u. split_and!; try done. by apply list_elem_of_lookup_2 in He.
Qed.

#[export] Instance ethflow_parsing_laws : OnchainOrderParsingLaws Z EthFlowDataForDb.
Proof.
  assert (Hf : forall events : list (Event ContractEvent), Forall (fun e => parse_event e <> Panic) events).
  { intros events. apply Forall_forall. intros e _. apply parse_event_returns. }
  split.
  - intros events. cbn. unfold parse, res_map. rewrite rbind_Err, rmap_Err by done.
    setoid_rewrite parse_event_Err. naive_solver.
  - intros events. cbn. unfold parse. pose proof (rmap_not_Panic _ _ (Hf events)). by destruct (rmap _ _).
  - intros events parsed i c Hp Hin. destruct (parse_elem _ _ _ _ Hp Hin) as (e & m & p & q & u & _ & _ & _ & _ & _ & ->).
    by eexists.
  - intros i order data p [u Hu]. cbn. unfold customized. rewrite Hu. by eexists.
  - intros db rows. cbn. unfold append_custom.
    destruct (overwrite_interactions_keep (insert_or_overwrite_orders db (map eth_order_placement rows))
      (map (fun data => ((eth_order_placement data).1, pre_interaction data)) rows)) as (H1 & H2 & H3).
    destruct (overwrite_orders_keep db (map eth_order_placement rows)) as (H4 & H5 & _ & H6 & H7 & _).
    by split; rewrite ?H1, ?H2, ?H3.
Qed.

(** * Batches of events *)
Section batches.
Context (keccak256 : list byte -> list byte) (domain_separator : list byte) (settlement_contract : Z).
Context {S : Type} `{OrderQuoting.Quoting S} {EventData EventRow : Type} `{OnchainOrderParsing EventData EventRow}.
Context `{!OnchainOrderParsingLaws EventData EventRow}.
Implicit Types (svc : Services S) (events : list (Event ContractEvent)) (e : Event ContractEvent).
Implicit Types (x : @Extracted EventRow).
Abbreviation placement_data := (placement_data keccak256 domain_separator settlement_contract).
Abbreviation extract := (extract_custom_and_general_order_data keccak256 domain_separator settlement_contract).
Abbreviation insert_events := (insert_events keccak256 domain_separator settlement_contract).

(** An event without its place in the chain. *)
Definition unplaced e : Prop := EventHandling.meta e = None.
Definition malformed_invalidation e : Prop :=
  exists order_uid, EventHandling.data e = Invalidated order_uid /\ length order_uid <> 56%nat.
(** A placement of which the time is not known. *)
Definition timeless svc e : Prop :=
  exists m, is_placement e = true /\ EventHandling.meta e = Some m /\ timestamp_of_block_in_seconds svc m.1 = Err tt.

Lemma invalidations_Err events : get_invalidation_events events = Err tt <-> Exists unplaced events.
Proof.
  unfold get_invalidation_events, res_map. rewrite rbind_Err, rmap_Err.
  - unfold unplaced. split.
    + intros [He|(? & _ & ?)]; [|done]. eapply Exists_impl; [exact He|]. intros e. cbn. by destruct (EventHandling.meta e).
    + intros He. left. eapply Exists_impl; [exact He|]. by intros e ->.
  - apply Forall_forall. intros e _. by destruct (EventHandling.meta e).
Qed.
Lemma invalidations_Ok events is_ : get_invalidation_events events = Ok is_ ->
  forall bytes, (exists i, (i, bytes) ∈ is_) <-> exists e, e ∈ events /\ EventHandling.data e = Invalidated bytes.
Proof.
  unfold get_invalidation_events. intros (os & Hos & <-)%res_map_Ok bytes. apply rmap_Ok in Hos. split.
  - intros (i & (o & Ho & Hi)%list_elem_of_omap). cbn in Hi. subst o. apply list_elem_of_lookup in Ho as [k Hk].
    destruct (Forall2_lookup_r _ _ _ _ _ Hos Hk) as (e & He%list_elem_of_lookup_2 & Hp). inv_ok.
    exists e. split; [done|]. destruct (EventHandling.data e); congruence.
  - intros (e & [k Hk]%list_elem_of_lookup & Hd). destruct (Forall2_lookup_l _ _ _ _ _ Hos Hk) as (o & Ho & Hp).
    rewrite Hd in Hp. destruct (EventHandling.meta e) as [m|]; [|done]. cbn in Hp. injection Hp as <-.
    exists (ContractEvents.meta_to_event_index m). apply list_elem_of_omap. eexists. split; [|done].
    by apply list_elem_of_lookup_2 in Ho.
Qed.
Lemma uids_Err is_ : extract_invalidated_order_uids is_ = Err tt <-> exists i bytes, (i, bytes) ∈ is_ /\ length bytes <> 56%nat.
Proof.
  unfold extract_invalidated_order_uids, ContractEvents.bytes_to_order_uid. rewrite rmap_Err.
  - rewrite Exists_exists. split.
    + intros ([i bytes] & Hin & He). exists i, bytes. split; [done|]. cbn in He. intros Hl. by rewrite Hl in He.
    + intros (i & bytes & Hin & Hl). exists (i, bytes). split; [done|]. cbn. by destruct (Nat.eqb_spec (length bytes) 56).
  - apply Forall_forall. intros [i bytes] _. cbn. by destruct (_ =? _)%nat.
Qed.
Lemma uids_not_Panic is_ : extract_invalidated_order_uids is_ <> Panic.
Proof.
  apply rmap_not_Panic, Forall_forall. intros [i bytes] _. cbn. unfold ContractEvents.bytes_to_order_uid.
  by destruct (_ =? _)%nat.
Qed.

(** ** The times of blocks *)
Section times.
Context svc (Hnode : forall block, timestamp_of_block_in_seconds svc block <> Panic).

Lemma blocks_of events blocks :
  rmap (fun e => let* meta := opt (EventHandling.meta e) in Ok meta.1) events = Ok blocks ->
  forall block, block ∈ blocks <-> exists e m, e ∈ events /\ EventHandling.meta e = Some m /\ block = m.1.
Proof.
  intros Hb%rmap_Ok block. split.
  - intros [k Hk]%list_elem_of_lookup. destruct (Forall2_lookup_r _ _ _ _ _ Hb Hk) as (e & He%list_elem_of_lookup_2 & Hp).
    destruct (EventHandling.meta e) as [m|] eqn:Hm; [|done]. injection Hp as <-. by exists e, m.
  - intros (e & m & [k Hk]%list_elem_of_lookup & Hm & ->). destruct (Forall2_lookup_l _ _ _ _ _ Hb Hk) as (b & Ho & Hp).
    rewrite Hm in Hp. injection Hp as <-. by apply list_elem_of_lookup_2 in Ho.
Qed.

Lemma block_numbers_Err events :
  get_block_numbers_of_events svc events = Err tt <->
  Exists (fun e => unplaced e \/ exists m, EventHandling.meta e = Some m /\ timestamp_of_block_in_seconds svc m.1 = Err tt) events.
Proof.
  unfold get_block_numbers_of_events. rewrite rbind_Err. setoid_rewrite rbind_Err. rewrite rmap_Err.
  2:{ apply Forall_forall. intros e _. by destruct (EventHandling.meta e). }
  assert (Hnp : forall blocks : list Z, Forall (fun block =>
    (let* timestamp := timestamp_of_block_in_seconds svc block in Ok (block, timestamp)) <> Panic) (dedup blocks)).
  { intros blocks. apply Forall_forall. intros b _. specialize (Hnode b). by destruct (timestamp_of_block_in_seconds svc b). }
  setoid_rewrite (rmap_Err _ _ (Hnp _)). rewrite !Exists_exists. split.
  - intros [(e & He & Hp)|(blocks & Hb & [Hex|(? & _ & ?)])]; [|..|done].
    + exists e. split; [done|]. left. unfold unplaced. by destruct (EventHandling.meta e).
    + apply Exists_exists in Hex as (b & Hin & Ht). apply elem_of_dedup, (blocks_of _ _ Hb) in Hin as (e & m & He & Hm & ->).
      exists e. split; [done|]. right. exists m. split; [done|]. by destruct (timestamp_of_block_in_seconds svc m.1) as [|[]|].
  - intros (e & He & Hu). destruct (rmap (fun e => let* meta := opt (EventHandling.meta e) in Ok meta.1) events)
      as [blocks|[]|] eqn:Hb.
    + right. exists blocks. split; [done|]. left. destruct Hu as [Hu|(m & Hm & Ht)].
      { apply rmap_Ok in Hb. apply list_elem_of_lookup in He as [k Hk].
        destruct (Forall2_lookup_l _ _ _ _ _ Hb Hk) as (? & _ & Hp). by rewrite Hu in Hp. }
      apply Exists_exists. exists m.1. split; [|by rewrite Ht]. apply elem_of_dedup, (blocks_of _ _ Hb). by exists e, m.
    + left. apply rmap_Err in Hb; [by apply Exists_exists in Hb|]. apply Forall_forall. intros e' _.
      by destruct (EventHandling.meta e').
    + exfalso. revert Hb. apply rmap_not_Panic, Forall_forall. intros e' _. by destruct (EventHandling.meta e').
Qed.

Lemma block_numbers_Ok events times e m :
  get_block_numbers_of_events svc events = Ok times -> e ∈ events -> EventHandling.meta e = Some m ->
  exists timestamp, times !! m.1 = Some timestamp /\ timestamp_of_block_in_seconds svc m.1 = Ok timestamp.
Proof.
  unfold get_block_numbers_of_events. intros (blocks & Hb & (pairs & Hp & [= <-])%rbind_Ok)%rbind_Ok He Hm.
  apply rmap_Ok in Hp. assert (Hin : m.1 ∈ dedup blocks).
  { apply elem_of_dedup, (blocks_of _ _ Hb). by exists e, m. }
  assert (Hpairs : forall p, p ∈ pairs -> timestamp_of_block_in_seconds svc p.1 = Ok p.2).
  { intros p [k Hk]%list_elem_of_lookup. destruct (Forall2_lookup_r _ _ _ _ _ Hp Hk) as (b & _ & Hbp). by inv_ok. }
  apply list_elem_of_lookup in Hin as [k Hk]. destruct (Forall2_lookup_l _ _ _ _ _ Hp Hk) as (p0 & Hk' & (t & _ & [= <-])%rbind_Ok).
  apply list_elem_of_lookup_2 in Hk'. rewrite foldl_upsert.
  destruct (last (filter _ pairs)) as [p|] eqn:Hl.
  - apply last_Some_elem_of, list_elem_of_filter in Hl as [Hp1 Hp2]. exists p.2. split; [done|].
    rewrite <- Hp1. by apply Hpairs.
  - apply last_None in Hl. by destruct (filter_nil_not_elem_of _ _ (m.1, t) Hl).
Qed.
End times.

Lemma block_numbers_lookup svc events times block timestamp :
  get_block_numbers_of_events svc events = Ok times -> times !! block = Some timestamp ->
  timestamp_of_block_in_seconds svc block = Ok timestamp.
Proof.
  unfold get_block_numbers_of_events. intros (blocks & _ & (pairs & Hp & [= <-])%rbind_Ok)%rbind_Ok Ht.
  apply foldl_upsert_elem in Ht as [(p & [k Hk]%list_elem_of_lookup & <- & ->)|Ht]; [|by rewrite lookup_empty in Ht].
  apply rmap_Ok in Hp. destruct (Forall2_lookup_r _ _ _ _ _ Hp Hk) as (b & _ & (t & Hb & [= <-])%rbind_Ok). done.
Qed.

(** ** What the parser of the data found *)
Lemma quote_ids_elem (parsed : list (EventIndex * OnchainOrderCustomData EventData)) i q :
  quote_ids_of parsed !! i = Some q -> exists c, (i, c) ∈ parsed /\ q = quote_id c.
Proof.
  intros [((j & c) & Hin & <- & ->)|Hn]%(foldl_upsert_elem fst (fun a => quote_id a.2)); [by exists c|].
  by rewrite lookup_empty in Hn.
Qed.
Lemma custom_data_snoc (parsed : list (EventIndex * OnchainOrderCustomData EventData)) c :
  custom_data_of (parsed ++ [c]) =
  match additional_data c.2 with Some data => <[c.1 := data]> (custom_data_of parsed) | None => custom_data_of parsed end.
Proof. unfold custom_data_of. by rewrite foldl_app. Qed.
Lemma custom_data_elem (parsed : list (EventIndex * OnchainOrderCustomData EventData)) i d :
  custom_data_of parsed !! i = Some d -> exists c, (i, c) ∈ parsed /\ additional_data c = Some d.
Proof.
  induction parsed as [|[j c] parsed IH] using rev_ind; [unfold custom_data_of; cbn [foldl]; by rewrite lookup_empty|]. rewrite custom_data_snoc. cbn.
  setoid_rewrite elem_of_app. destruct (additional_data c) as [d'|] eqn:Hd; [|naive_solver].
  intros [[<- <-]|[_ Hi]]%lookup_insert_Some; [|naive_solver]. exists c. split; [|done]. right. by left.
Qed.
Lemma custom_data_known (parsed : list (EventIndex * OnchainOrderCustomData EventData)) i c :
  (forall i c, (i, c) ∈ parsed -> is_Some (additional_data c)) -> (i, c) ∈ parsed -> is_Some (custom_data_of parsed !! i).
Proof.
  induction parsed as [|[j c'] parsed IH] using rev_ind; intros Hall Hin; [by apply elem_of_nil in Hin|].
  rewrite custom_data_snoc. cbn. setoid_rewrite elem_of_app in Hall. setoid_rewrite list_elem_of_singleton in Hall.
  destruct (Hall j c' (or_intror eq_refl)) as [d ->]. destruct (decide (i = j)) as [->|Hn].
  - rewrite lookup_insert_eq. by eexists.
  - rewrite lookup_insert_ne by done. apply elem_of_app in Hin as [Hin|[=]%list_elem_of_singleton]; [|by subst].
    apply IH; [|done]. intros i' c'' Hi. apply (Hall i' c''). by left.
Qed.

(** ** What is extracted of the events *)
Definition data_of x : GeneralOnchainOrderPlacementData :=
  ((broadcasted x).1, extracted_quote x, (broadcasted x).2, extracted_order x).
(** [x] is what the placement [event] at [m] gives. *)
Record extracted_from svc events (parsed : list (EventIndex * OnchainOrderCustomData EventData)) x e m event : Prop := {
  from_events : e ∈ events;
  from_meta : EventHandling.meta e = Some m;
  from_data : EventHandling.data e = Placed event;
  from_future : exists timestamp c, (ContractEvents.meta_to_event_index m, c) ∈ parsed /\
    timestamp_of_block_in_seconds svc (ContractEvents.meta_to_event_index m).1 = Ok timestamp /\
    placement_data (quotes svc) (e, timestamp, quote_id c) = Ok (data_of x);
  from_custom : exists order p, extracted_order x = order /\
    customized_event_data_for_event_index (ContractEvents.meta_to_event_index m) order (custom_data_of parsed) p =
    Ok (custom x);
}.

Lemma placement_data_index s e t q i quote p o : placement_data s (e, t, q) = Ok (i, quote, p, o) ->
  exists m event, EventHandling.meta e = Some m /\ EventHandling.data e = Placed event /\ i = ContractEvents.meta_to_event_index m.
Proof.
  unfold OnchainOrderEvents.placement_data. destruct (EventHandling.meta e) as [m|]; [|done]. cbn [opt ok_or rbind].
  destruct (EventHandling.data e) as [event|]; [|done]. cbn [rbind].
  intros ([[[d w] sch] u] & _ & (r & _ & ([pl o'] & _ & [= <- _ _ _])%rbind_Ok)%rbind_Ok)%rbind_Ok. by exists m, event.
Qed.
Lemma events_and_quotes_elem times quote_ids events l e t q :
  rmap (event_and_quote times quote_ids) events = Ok l -> Some (e, t, q) ∈ l ->
  e ∈ events /\ exists m, EventHandling.meta e = Some m /\ times !! (ContractEvents.meta_to_event_index m).1 = Some t /\
    quote_ids !! ContractEvents.meta_to_event_index m = Some q.
Proof.
  intros Hl%rmap_Ok [k Hk]%list_elem_of_lookup.
  destruct (Forall2_lookup_r _ _ _ _ _ Hl Hk) as (e' & He%list_elem_of_lookup_2 & Hp). unfold event_and_quote in Hp.
  destruct (EventHandling.meta e') as [m|] eqn:Hm; [|done].
  destruct (quote_ids !! ContractEvents.meta_to_event_index m) as [q'|] eqn:Hq; [|done].
  apply rbind_Ok in Hp as (t' & Ht%opt_expect_Ok & [= -> -> ->]). split; [done|]. by exists m.
Qed.
Lemma futures_elem svc l data d :
  parse_general_onchain_order_placement_data keccak256 domain_separator settlement_contract svc l = Ok data ->
  d ∈ data <-> exists a, a ∈ l /\ placement_data (quotes svc) a = Ok d.
Proof.
  unfold parse_general_onchain_order_placement_data. intros Hd. rewrite (keep_ok_Ok _ _ _ Hd), buffer_unordered_all.
  rewrite list_elem_of_fmap. naive_solver.
Qed.

Lemma extract_elem svc events xs x : extract svc events = Ok xs -> x ∈ xs ->
  exists parsed e m event, parse_custom_event_data events = Ok parsed /\ extracted_from svc events parsed x e m event.
Proof.
  unfold extract_custom_and_general_order_data.
  intros (times & Ht & (parsed & Hp & (l & Hl & (data & Hd & Hxs)%rbind_Ok)%rbind_Ok)%rbind_Ok)%rbind_Ok Hx.
  apply rmap_Ok in Hxs. apply list_elem_of_lookup in Hx as [k Hk].
  destruct (Forall2_lookup_r _ _ _ _ _ Hxs Hk) as ([[[i quote] pl] o] & Hin%list_elem_of_lookup_2 & Hc).
  apply rbind_Ok in Hc as (c & Hc & [= <-]). apply (futures_elem _ _ _ _ Hd) in Hin as ([[e t] q] & Hin & Hpd).
  apply list_elem_of_omap in Hin as (a & Ha & Hi). cbn in Hi. subst a.
  destruct (events_and_quotes_elem _ _ _ _ _ _ _ Hl Ha) as (He & m & Hm & Htime & Hq).
  destruct (placement_data_index _ _ _ _ _ _ _ _ Hpd) as (m' & event & Hm' & Hev & ->).
  rewrite Hm in Hm'. injection Hm' as <-. destruct (quote_ids_elem _ _ _ Hq) as (cd & Hcd & ->).
  exists parsed, e, m, event. split; [done|]. split; [done..| |by exists o, pl].
  exists t, cd. split; [done|]. split; [by eapply block_numbers_lookup|done].
Qed.

(** ** How a batch fails *)
Definition all_placements events : Prop := Forall (fun e => is_placement e = true) events.
(** A row can be made of everything that was parsed. *)
Lemma customized_known svc events times parsed l data d :
  get_block_numbers_of_events svc events = Ok times -> parse_custom_event_data events = Ok parsed ->
  rmap (event_and_quote times (quote_ids_of parsed)) events = Ok l ->
  parse_general_onchain_order_placement_data keccak256 domain_separator settlement_contract svc (omap Datatypes.id l) =
    Ok data -> d ∈ data -> is_Some (custom_data_of parsed !! d.1.1.1).
Proof.
  intros Ht Hp Hl Hd Hin. apply (futures_elem _ _ _ _ Hd) in Hin as ([[e t] q] & Hin & Hpd).
  apply list_elem_of_omap in Hin as (a & Ha & Hi). cbn in Hi. subst a.
  destruct (events_and_quotes_elem _ _ _ _ _ _ _ Hl Ha) as (_ & m & Hm & _ & Hq). destruct d as [[[i quote] pl] o].
  destruct (placement_data_index _ _ _ _ _ _ _ _ Hpd) as (m' & event & Hm' & _ & ->). rewrite Hm in Hm'.
  injection Hm' as <-. destruct (quote_ids_elem _ _ _ Hq) as (c & Hc & _). eapply custom_data_known; [|exact Hc].
  intros i' c' Hi. by eapply parsed_has_data.
Qed.
Lemma customizing_succeeds svc events times parsed l data :
  get_block_numbers_of_events svc events = Ok times -> parse_custom_event_data events = Ok parsed ->
  rmap (event_and_quote times (quote_ids_of parsed)) events = Ok l ->
  parse_general_onchain_order_placement_data keccak256 domain_separator settlement_contract svc (omap Datatypes.id l) =
    Ok data ->
  exists xs, rmap (fun '(event_index, quote, placement, order) =>
      let* custom := customized_event_data_for_event_index event_index order (custom_data_of parsed) placement in
      Ok (mkExtracted custom quote (event_index, placement) order)) data = Ok xs.
Proof.
  intros Ht Hp Hl Hd. pose proof (fun d => customized_known svc events times parsed l data d Ht Hp Hl Hd) as Hk.
  clear Hd. induction data as [|[[[i quote] pl] o] data IH]; [by eexists|]. cbn.
  destruct (row_of_parsed i o (custom_data_of parsed) pl) as [row ->].
  { apply (Hk (i, quote, pl, o)). by left. }
  destruct IH as [xs ->]; [intros d Hd; apply Hk; by right|]. by eexists.
Qed.

Lemma event_and_quote_not_Err times quote_ids e : event_and_quote times quote_ids e <> Err tt.
Proof.
  unfold event_and_quote. destruct (EventHandling.meta e) as [m|]; [|done].
  destruct (quote_ids !! _); [|done]. by destruct (times !! _).
Qed.

Section failing.
Context svc (Hnode : forall block, timestamp_of_block_in_seconds svc block <> Panic).

Lemma extract_Err events : extract svc events = Err tt <-> get_block_numbers_of_events svc events = Err tt.
Proof.
  unfold extract_custom_and_general_order_data. rewrite rbind_Err. split; [|by left].
  intros [?|(times & Ht & Hr)]; [done|]. exfalso. apply rbind_Err in Hr as [Hp|(parsed & Hp & Hr)].
  { apply parsing_fails in Hp. assert (Hn : get_block_numbers_of_events svc events = Err tt); [|by rewrite Ht in Hn].
    apply block_numbers_Err; [done|]. eapply Exists_impl; [exact Hp|]. intros e He. by left. }
  apply rbind_Err in Hr as [Hl|(l & Hl & Hr)].
  { revert Hl. by apply rmap_not_Err, event_and_quote_not_Err. }
  apply rbind_Err in Hr as [Hd|(data & Hd & Hr)]; [by apply keep_ok_Err in Hd|].
  destruct (customizing_succeeds _ _ _ _ _ _ Ht Hp Hl Hd) as [xs Hxs]. by rewrite Hxs in Hr.
Qed.

Lemma extract_Panic events : all_placements events -> extract svc events = Panic ->
  exists e m, e ∈ events /\ EventHandling.meta e = Some m /\
    (I64_MAX < m.1 \/ exists t q, placement_data (quotes svc) (e, t, q) = Panic).
Proof.
  intros Hall. unfold extract_custom_and_general_order_data.
  destruct (get_block_numbers_of_events svc events) as [times| |] eqn:Ht; [|done|]; cbn [rbind].
  2:{ intros _. exfalso. unfold get_block_numbers_of_events in Ht.
      destruct (rmap _ events) as [blocks| |] eqn:Hb; [|done|]; cbn [rbind] in Ht.
      - destruct (rmap _ (dedup blocks)) as [pairs| |] eqn:Hps; [done..|]. apply rmap_Panic in Hps as (b & _ & Hb').
        specialize (Hnode b). by destruct (timestamp_of_block_in_seconds svc b).
      - apply rmap_Panic in Hb as (e & _ & He). by destruct (EventHandling.meta e). }
  destruct (parse_custom_event_data events) as [parsed| |] eqn:Hp; [|done|by apply parsing_returns in Hp]. cbn [rbind].
  destruct (rmap (event_and_quote _ _) events) as [l| |] eqn:Hl; [|done|]; cbn [rbind].
  2:{ intros _. apply rmap_Panic in Hl as (e & He & Hpan). unfold event_and_quote in Hpan.
      destruct (EventHandling.meta e) as [m|] eqn:Hm; [|done]. destruct (quote_ids_of parsed !! _); [|done].
      destruct (block_numbers_Ok svc events times e m Ht He Hm) as (t & Htime & _).
      exists e, m. split_and!; [done..|]. left. cbn in Hpan.
      destruct (Z.lt_ge_cases I64_MAX m.1) as [?|Hle]; [done|]. by rewrite Z.min_l, Htime in Hpan. }
  destruct (parse_general_onchain_order_placement_data _ _ _ svc _) as [data| |] eqn:Hd; [|done|]; cbn [rbind].
  { destruct (customizing_succeeds _ _ _ _ _ _ Ht Hp Hl Hd) as [xs ->]. done. }
  intros _. apply keep_ok_Panic in Hd. rewrite buffer_unordered_all in Hd.
  apply list_elem_of_fmap in Hd as ([[e t] q] & Hpan & Hin). apply list_elem_of_omap in Hin as (a & Ha & Hi). cbn in Hi.
  subst a. destruct (events_and_quotes_elem _ _ _ _ _ _ _ Hl Ha) as (He & m & Hm & _). exists e, m.
  split_and!; [done..|]. right. by exists t, q.
Qed.
End failing.

Lemma placements_only events : all_placements (List.filter is_placement events).
Proof. apply Forall_forall. by intros e [_ He]%list_elem_of_In%filter_In. Qed.
Lemma elem_of_placements e events : e ∈ List.filter is_placement events <-> e ∈ events /\ is_placement e = true.
Proof. by rewrite !list_elem_of_In, filter_In. Qed.

(** How indexing a batch fails: it returns an error exactly when an event lacks
    its place, an invalidation is no order uid or the time of a placement is not
    known; what else can stop it is one placement. *)
Lemma insert_events_Err svc db events :
  (forall block, timestamp_of_block_in_seconds svc block <> Panic) ->
  insert_events svc db events = Err tt <->
  Exists (fun e => unplaced e \/ malformed_invalidation e \/ timeless svc e) events.
Proof.
  intros Hnode. unfold OnchainOrderEvents.insert_events.
  assert (Htimes : extract svc (List.filter is_placement events) = Err tt ->
    Exists (fun e => unplaced e \/ malformed_invalidation e \/ timeless svc e) events).
  { intros He. apply extract_Err, block_numbers_Err, Exists_exists in He as (e & [He Hpl]%elem_of_placements & Hcase);
      [|done..]. apply Exists_exists. exists e. split; [done|]. destruct Hcase as [?|(m & Hm & Ht)]; [by left|].
    right; right. by exists m. }
  destruct (get_invalidation_events events) as [is_|[]|] eqn:Hi; cbn [rbind].
  - destruct (extract_invalidated_order_uids is_) as [uids|[]|] eqn:Hu; cbn [rbind].
    + split.
      * destruct (extract svc _) as [xs|[]|] eqn:Hx; cbn [rbind]; [done| |done]. intros _. by apply Htimes.
      * intros (e & He & Hcase)%Exists_exists.
        assert (Hx : extract svc (List.filter is_placement events) = Err tt); [|by rewrite Hx].
        destruct Hcase as [Hun|[(bytes & Hd & Hl)|(m & Hpl & Hm & Ht)]].
        -- assert (Hn : get_invalidation_events events = Err tt); [|by rewrite Hi in Hn].
           apply invalidations_Err, Exists_exists. by exists e.
        -- assert (Hn : extract_invalidated_order_uids is_ = Err tt); [|by rewrite Hu in Hn].
           destruct (proj2 (invalidations_Ok _ _ Hi bytes)) as [i Hin]; [by exists e|].
           apply uids_Err. by exists i, bytes.
        -- apply extract_Err, block_numbers_Err, Exists_exists; [done..|]. exists e.
           split; [by apply elem_of_placements|]. right. by exists m.
    + split; [intros _|done]. apply uids_Err in Hu as (i & bytes & Hin & Hl).
      destruct (proj1 (invalidations_Ok _ _ Hi bytes)) as (e & He & Hd); [by exists i|].
      apply Exists_exists. exists e. split; [done|]. right; left. by exists bytes.
    + by apply uids_not_Panic in Hu.
  - split; [intros _|done]. apply invalidations_Err in Hi. eapply Exists_impl; [exact Hi|]. intros e He. by left.
  - exfalso. revert Hi. unfold get_invalidation_events, res_map. destruct (rmap _ events) eqn:Hr; [done..|].
    apply rmap_Panic in Hr as (e & _ & He). by destruct (EventHandling.meta e).
Qed.
Lemma insert_events_Panic svc db events :
  (forall block, timestamp_of_block_in_seconds svc block <> Panic) -> insert_events svc db events = Panic ->
  exists e m, e ∈ events /\ is_placement e = true /\ EventHandling.meta e = Some m /\
    (I64_MAX < m.1 \/ exists t q, placement_data (quotes svc) (e, t, q) = Panic).
Proof.
  intros Hnode. unfold OnchainOrderEvents.insert_events. destruct (get_invalidation_events events) as [is_| |] eqn:Hi; cbn [rbind]; [|done|].
  - destruct (extract_invalidated_order_uids is_) as [uids| |] eqn:Hu; cbn [rbind]; [|done|by apply uids_not_Panic in Hu].
    destruct (extract svc _) as [xs| |] eqn:Hx; cbn [rbind]; [done..|]. intros _.
    apply extract_Panic in Hx as (e & m & [He Hpl]%elem_of_placements & Hm & Hc); [|done|apply placements_only].
    by exists e, m.
  - exfalso. revert Hi. unfold get_invalidation_events, res_map. destruct (rmap _ events) eqn:Hr; [done..|].
    apply rmap_Panic in Hr as (e & _ & He). by destruct (EventHandling.meta e).
Qed.
End batches.

(** * What a batch leaves in the tables *)
Definition upsert_placement (m : gmap Z OnchainOrderPlacementRow) (b : EventIndex * OnchainOrderPlacement) :=
  <[order_uid b.2 := placement_row b.1 b.2]> m.
Definition upsert_quote (m : gmap Z QuoteRow) (q : Z * QuoteRow) := <[q.1 := overwrite_quote (m !! q.1) q.2]> m.
Definition insert_missing (m : gmap Z OrderRow) (o : Z * OrderRow) := insert_new m o.1 o.2.

Lemma invalidations_write db now l (db' := insert_onchain_invalidations db now l) :
  orders db' = orders db /\ interaction_rows db' = interaction_rows db /\ order_quotes db' = order_quotes db /\
  onchain_placed_orders (indexed db') = onchain_placed_orders (indexed db) /\
  ethflow_orders (indexed db') = ethflow_orders (indexed db) /\
  onchain_order_invalidations (indexed db') =
    foldl (fun m e => <[e.2 := e.1]> m) (onchain_order_invalidations (indexed db)) l.
Proof.
  set (f := fun db e => insert_order_event (insert_onchain_invalidation db e.1 e.2) (mkOrderEvent e.2 now EventCancelled)).
  assert (Hf : forall db (e : EventIndex * Z), let db1 := insert_onchain_invalidation db e.1 e.2 in
    orders (f db e) = orders db1 /\ interaction_rows (f db e) = interaction_rows db1 /\
    order_quotes (f db e) = order_quotes db1 /\ indexed (f db e) = indexed db1).
  { intros d e. destruct (insert_order_event_tables (insert_onchain_invalidation d e.1 e.2)
      (mkOrderEvent e.2 now EventCancelled)) as (H1 & H2 & H3 & _ & H5). done. }
  split_and!.
  - apply foldl_keeps. intros d e. apply (Hf d e).
  - apply foldl_keeps. intros d e. apply (Hf d e).
  - apply foldl_keeps. intros d e. apply (Hf d e).
  - apply (foldl_keeps (fun d => onchain_placed_orders (indexed d))). intros d e.
    exact (f_equal onchain_placed_orders (proj2 (proj2 (proj2 (Hf d e))))).
  - apply (foldl_keeps (fun d => ethflow_orders (indexed d))). intros d e.
    exact (f_equal ethflow_orders (proj2 (proj2 (proj2 (Hf d e))))).
  - apply (foldl_proj (fun d => onchain_order_invalidations (indexed d))). intros d e.
    exact (f_equal onchain_order_invalidations (proj2 (proj2 (proj2 (Hf d e))))).
Qed.
Lemma append_write db l (db' := OnchainDb.append db l) :
  orders db' = orders db /\ interaction_rows db' = interaction_rows db /\ order_quotes db' = order_quotes db /\
  onchain_placed_orders (indexed db') = foldl upsert_placement (onchain_placed_orders (indexed db)) l /\
  ethflow_orders (indexed db') = ethflow_orders (indexed db) /\
  onchain_order_invalidations (indexed db') = onchain_order_invalidations (indexed db).
Proof.
  split_and!; [by apply foldl_keeps..| | |].
  - by apply (foldl_proj (fun d => onchain_placed_orders (indexed d))).
  - by apply (foldl_keeps (fun d => ethflow_orders (indexed d))).
  - by apply (foldl_keeps (fun d => onchain_order_invalidations (indexed d))).
Qed.
Lemma quotes_write db l (db' := insert_quotes db l) :
  orders db' = orders db /\ interaction_rows db' = interaction_rows db /\
  order_quotes db' = foldl upsert_quote (order_quotes db) l /\ indexed db' = indexed db.
Proof. split_and!; [by apply foldl_keeps..| |by apply foldl_keeps]. by apply foldl_proj. Qed.
Lemma orders_write db l (db' := insert_orders_and_ignore_conflicts db l) :
  orders db' = foldl insert_missing (orders db) l /\ interaction_rows db' = interaction_rows db /\
  order_quotes db' = order_quotes db /\ indexed db' = indexed db.
Proof.
  set (f := fun db order => insert_order_event (insert_order_and_ignore_conflicts db order)
    (mkOrderEvent order.1 (creation_timestamp order.2) Created)).
  assert (Hf : forall db (o : Z * OrderRow), orders (f db o) = insert_missing (orders db) o /\
    interaction_rows (f db o) = interaction_rows db /\ order_quotes (f db o) = order_quotes db /\ indexed (f db o) = indexed db).
  { intros d o. destruct (insert_order_event_tables (insert_order_and_ignore_conflicts d o)
      (mkOrderEvent o.1 (creation_timestamp o.2) Created)) as (H1 & H2 & H3 & _ & H5). done. }
  split_and!.
  - apply foldl_proj. intros d o. apply (Hf d o).
  - apply foldl_keeps. intros d o. apply (Hf d o).
  - apply foldl_keeps. intros d o. apply (Hf d o).
  - apply foldl_keeps. intros d o. apply (Hf d o).
Qed.

(** The tables of the general parser after the writes of a batch. *)
Record written {EventRow} (db : Db) (invalidated : list (EventIndex * Z)) (xs : list (@Extracted EventRow)) (db' : Db) : Prop := {
  written_orders : orders db' = foldl insert_missing (orders db) (map extracted_order xs);
  written_quotes : order_quotes db' = foldl upsert_quote (order_quotes db) (omap extracted_quote xs);
  written_placed : onchain_placed_orders (indexed db') =
    foldl upsert_placement (onchain_placed_orders (indexed db)) (map broadcasted xs);
  written_invalidated : onchain_order_invalidations (indexed db') =
    foldl (fun m e => <[e.2 := e.1]> m) (onchain_order_invalidations (indexed db)) invalidated;
}.
Lemma write_written {EventData EventRow} `{OnchainOrderParsing EventData EventRow} `{!OnchainOrderParsingLaws EventData EventRow}
    now db invalidated (xs : list (@Extracted EventRow)) :
  written db invalidated xs (write now db invalidated xs).
Proof.
  unfold write.
  set (db1 := insert_onchain_invalidations db now invalidated).
  set (db2 := append_custom_order_info_to_db db1 (map custom xs)). set (db3 := OnchainDb.append db2 (map broadcasted xs)).
  set (db4 := insert_quotes db3 (omap extracted_quote xs)).
  destruct (invalidations_write db now invalidated) as (A1 & A2 & A3 & A4 & A5 & A6).
  destruct (append_keeps db1 (map custom xs)) as [B1 B2 B3 B4].
  destruct (append_write db2 (map broadcasted xs)) as (C1 & C2 & C3 & C4 & C5 & C6).
  destruct (quotes_write db3 (omap extracted_quote xs)) as (D1 & D2 & D3 & D4).
  destruct (orders_write db4 (map extracted_order xs)) as (E1 & E2 & E3 & E4).
  fold db1 in A1, A2, A3, A4, A5, A6. fold db2 in B1, B2, B3, B4. fold db3 in C1, C2, C3, C4, C5, C6.
  fold db4 in D1, D2, D3, D4.
  split.
  - by rewrite E1, D1, C1, B1, A1.
  - by rewrite E3, D3, C3, B2, A3.
  - by rewrite E4, D4, C4, B3, A4.
  - by rewrite E4, D4, C6, B4, A6.
Qed.

(** The tables of the ETH flow parser. *)
Lemma append_custom_write db (rows : list EthFlowDataForDb) (db' := append_custom db rows) :
  ethflow_orders (indexed db') = foldl (fun m x => <[x.1 := x.2]> m) (ethflow_orders (indexed db)) (map eth_order_placement rows) /\
  interaction_rows db' = interaction_rows (insert_or_overwrite_interactions db
    (map (fun data => ((eth_order_placement data).1, pre_interaction data)) rows)).
Proof.
  unfold append_custom in db'. subst db'. destruct (overwrite_interactions_keep (insert_or_overwrite_orders db (map eth_order_placement rows))
    (map (fun data => ((eth_order_placement data).1, pre_interaction data)) rows)) as (_ & _ & H3).
  destruct (overwrite_orders_keep db (map eth_order_placement rows)) as (_ & _ & H6 & _ & _ & H7). split; [by rewrite H3|].
  unfold insert_or_overwrite_interactions.
  rewrite !(foldl_proj interaction_rows insert_or_overwrite_interaction (fun rows e =>
    if decide (Exists (fun row => row.1 = e.1 /\ index row.2 = index e.2) rows)
    then map (overwrite_interaction e.1 e.2) rows else rows ++ [e])) by done.
  by rewrite H6.
Qed.
Lemma ethflow_write now db invalidated (xs : list (@Extracted EthFlowDataForDb)) (db' := write now db invalidated xs) :
  ethflow_orders (indexed db') =
    foldl (fun m x => <[x.1 := x.2]> m) (ethflow_orders (indexed db)) (map (fun x => eth_order_placement (custom x)) xs) /\
  interaction_rows db' = interaction_rows (insert_or_overwrite_interactions db
    (map (fun x => ((eth_order_placement (custom x)).1, pre_interaction (custom x))) xs)).
Proof.
  unfold write in db'. subst db'.
  set (db1 := insert_onchain_invalidations db now invalidated).
  set (db2 := append_custom_order_info_to_db db1 (map custom xs)). set (db3 := OnchainDb.append db2 (map broadcasted xs)).
  set (db4 := insert_quotes db3 (omap extracted_quote xs)).
  destruct (invalidations_write db now invalidated) as (_ & A2 & _ & _ & A5 & _).
  destruct (append_custom_write db1 (map custom xs)) as [B1 B2].
  destruct (append_write db2 (map broadcasted xs)) as (_ & C2 & _ & _ & C5 & _).
  destruct (quotes_write db3 (omap extracted_quote xs)) as (_ & D2 & _ & D4).
  destruct (orders_write db4 (map extracted_order xs)) as (_ & E2 & _ & E4).
  fold db1 in A2, A5. change (append_custom db1 (map custom xs)) with db2 in B1, B2. fold db3 in C2, C5. fold db4 in D2, D4.
  split.
  - by rewrite E4, D4, C5, B1, A5, map_map.
  - rewrite E2, D2, C2, B2, map_map. unfold insert_or_overwrite_interactions.
    rewrite !(foldl_proj interaction_rows insert_or_overwrite_interaction (fun rows e =>
      if decide (Exists (fun row => row.1 = e.1 /\ index row.2 = index e.2) rows)
      then map (overwrite_interaction e.1 e.2) rows else rows ++ [e])) by done. by rewrite A2.
Qed.

(** * On-chain orders are backed *)
Lemma owner_of_parts hash owner valid_to : 0 <= owner < 2 ^ 160 -> OrderUid.owner (OrderUid.from_parts hash owner valid_to) = owner.
Proof.
  intros Ho. assert (Hb : from_be_bytes (be_bytes 20 owner) = owner) by (apply be_bytes_roundtrip; exact Ho).
  pose proof (from_be_bytes_bound (be_bytes 4 valid_to)) as Hv. rewrite length_be_bytes in Hv.
  unfold OrderUid.owner, OrderUid.from_parts. rewrite !from_be_bytes_app, Hb, !length_app, !length_be_bytes.
  generalize dependent (from_be_bytes (be_bytes 32 hash)). generalize dependent (from_be_bytes (be_bytes 4 valid_to)).
  intros v Hv h. change (256 ^ Z.of_nat 4) with (2 ^ 32) in *. change (256 ^ Z.of_nat (20 + 4)) with (2 ^ 160 * 2 ^ 32).
  replace (h * (2 ^ 160 * 2 ^ 32) + (owner * 2 ^ 32 + v)) with (v + (h * 2 ^ 160 + owner) * 2 ^ 32) by ring.
  rewrite Z.div_add, (Z.div_small v) by lia. rewrite Z.add_0_l, Z.add_comm, Z.mod_add by lia. by apply Z.mod_small.
Qed.

Section placed.
Context (keccak256 : list byte -> list byte) (domain_separator : list byte) (settlement_contract : Z).
Context {S : Type} `{OrderQuoting.Quoting S}.
Abbreviation placement_data := (placement_data keccak256 domain_separator settlement_contract).
Abbreviation order_data_of :=
  (extract_order_data_from_onchain_order_placement_event keccak256 domain_separator).

(** The parts of a placement have one uid, that of its data; without an error
    there is a quote. *)
Record placement_of event t (quote : option (Z * QuoteRow)) p (o : Z * OrderRow) d w sch : Prop := {
  placement_parsed : order_data_of event = Ok (d, w, sch, o.1);
  placement_order : o.2 = placed_order_row settlement_contract event t d sch w;
  placement_sent : p = mkPlacement o.1 (event_sender event) (error p);
  placement_quoted : match quote with Some q => q.1 = o.1 /\ error p = None | None => is_Some (error p) end;
}.
Lemma placement_data_parts (s : S) e t q i quote p o event :
  placement_data s (e, t, q) = Ok (i, quote, p, o) -> EventHandling.data e = Placed event ->
  exists d w sch, placement_of event t quote p o d w sch.
Proof.
  intros Hp He. unfold OnchainOrderEvents.placement_data in Hp. rewrite He in Hp.
  apply rbind_Ok in Hp as (m & _ & Hp). cbn [rbind] in Hp. apply rbind_Ok in Hp as ([[[d w] sch] u] & Hd & Hp).
  apply rbind_Ok in Hp as (r & Hr & Hp). apply rbind_Ok in Hp as ([pl o'] & Hc & Hp).
  unfold convert_onchain_order_placement in Hc. apply rbind_Ok in Hc as (_ & _ & [= <- <-]).
  injection Hp as _ <- <- <-. exists d, w, sch. split; [done..|]. cbn.
  unfold caught in Hr. destruct (get_quote _ _ _ _) as [qt|err|]; [..|done]; injection Hr as <-; cbn; [done|by eexists].
Qed.
Lemma order_data_uid event d w sch u : order_data_of event = Ok (d, w, sch, u) ->
  u = uid keccak256 d domain_separator w /\
  (sch = SEip1271 /\ w = from_be_bytes (take 20 (event_signature event).2) /\ (20 <= length (event_signature event).2)%nat \/
   sch = SPreSign /\ w = event_sender event).
Proof.
  unfold extract_order_data_from_onchain_order_placement_event. destruct (event_signature event) as [c bytes].
  intros Hd. apply rbind_Ok in Hd as ([sch' w'] & Hs & Hd). inv_ok. split; [done|]. cbn.
  destruct (Z.eqb_spec c 0) as [->|].
  - destruct (Nat.ltb_spec (length bytes) 20); [done|]. injection Hs as <- <-. by left.
  - destruct (Z.eqb_spec c 1); [|done]. injection Hs as <- <-. by right.
Qed.
(** The order is the event's. *)
Lemma placed_order_data event d w sch u (o := CowswapOnchainOrders.event_order event) : order_data_of event = Ok (d, w, sch, u) ->
  (buy_token d = c_buy_token o /\ receiver d = (if c_receiver o =? 0 then None else Some (c_receiver o))) /\
  sell_amount d = c_sell_amount o /\ buy_amount d = c_buy_amount o /\ app_data d = c_app_data o /\
  fee_amount d = c_fee_amount o /\ partially_fillable d = c_partially_fillable o.
Proof.
  unfold extract_order_data_from_onchain_order_placement_event. destruct (event_signature event) as [c bytes].
  intros Hd. apply rbind_Ok in Hd as ([sch' w'] & _ & Hd). inv_ok. by cbn.
Qed.
Lemma order_data_owner event d w sch u : order_data_of event = Ok (d, w, sch, u) ->
  0 <= event_sender event < 2 ^ 160 -> OrderUid.owner u = w.
Proof.
  intros [-> Hw]%order_data_uid Hs. apply owner_of_parts. destruct Hw as [(_ & -> & Hl)|[_ ->]]; [|done].
  pose proof (from_be_bytes_bound (take 20 (event_signature event).2)) as Hb. rewrite length_take_le in Hb by done. exact Hb.
Qed.
End placed.

(** ** The interactions of ETH flow orders *)
Definition overwrite_rows (rows : list (Z * InteractionRow)) (e : Z * InteractionRow) : list (Z * InteractionRow) :=
  if decide (Exists (fun row => row.1 = e.1 /\ index row.2 = index e.2) rows)
  then map (overwrite_interaction e.1 e.2) rows else rows ++ [e].
Lemma overwrite_interactions_rows db l :
  interaction_rows (insert_or_overwrite_interactions db l) = foldl overwrite_rows (interaction_rows db) l.
Proof. by apply foldl_proj. Qed.

(** The first interaction of the order runs before it and wraps ether for its owner. *)
Definition wraps (rows : list (Z * InteractionRow)) (uid : Z) : Prop := (uid, wrap_all (OrderUid.owner uid)) ∈ rows.
(** The interactions at the first index are executed before the order. *)
Definition first_is_pre (rows : list (Z * InteractionRow)) : Prop :=
  Forall (fun row => index row.2 = 0 -> execution row.2 = Pre) rows.

Lemma overwrite_wraps rows u uid : first_is_pre rows ->
  let rows' := overwrite_rows rows (u, wrap_all (OrderUid.owner u)) in
  first_is_pre rows' /\ wraps rows' u /\ (wraps rows uid -> wraps rows' uid).
Proof.
  intros Hp. unfold overwrite_rows. cbn [fst snd index wrap_all]. case_decide as Hex.
  - unfold first_is_pre, wraps in *. split_and!.
    + apply Forall_map. eapply Forall_impl; [exact Hp|]. intros [v row] Hrow. unfold overwrite_interaction.
      case_decide as Hc; [|done]. cbn in *. tauto.
    + apply Exists_exists in Hex as ([v row] & Hin & Hv & Hi). cbn in Hv, Hi. subst v. apply list_elem_of_fmap. exists (u, row). split; [|done].
      unfold overwrite_interaction. rewrite decide_True by done. cbn.
      pose proof (Forall_elem _ _ _ Hp Hin Hi) as He. cbn in He. by rewrite He.
    + intros Hin. apply list_elem_of_fmap. exists (uid, wrap_all (OrderUid.owner uid)). split; [|done].
      unfold overwrite_interaction. case_decide as Hc; [|done]. destruct Hc as [Hc _]. cbn in Hc. by subst u.
  - unfold first_is_pre, wraps in *. split_and!.
    + apply Forall_app. split; [done|]. by constructor.
    + apply elem_of_app. right. by apply list_elem_of_singleton.
    + intros Hin. apply elem_of_app. by left.
Qed.
Lemma overwrites_wrap rows us uid : first_is_pre rows ->
  let rows' := foldl overwrite_rows rows (map (fun u => (u, wrap_all (OrderUid.owner u))) us) in
  first_is_pre rows' /\ (wraps rows uid \/ uid ∈ us -> wraps rows' uid).
Proof.
  revert rows. induction us as [|u us IH]; intros rows Hp; cbn [map foldl].
  - split; [done|]. intros [?|Hn]; [done|by apply elem_of_nil in Hn].
  - destruct (overwrite_wraps rows u uid Hp) as (Hp' & Hu & Huid).
    destruct (IH (overwrite_rows rows (u, wrap_all (OrderUid.owner u))) Hp') as [Hf Hw]. split; [done|].
    intros [Hin|[->|Hin]%elem_of_cons]; apply Hw; [left; by apply Huid|by left|by right].
Qed.

(** ** What every placed order has *)
Record backed_order (db : Db) (uid : Z) (p : OnchainOrderPlacementRow) : Prop := {
  backed_row : is_Some (orders db !! uid);
  backed_validity : is_Some (ethflow_orders (indexed db) !! uid);
  backed_wrap : wraps (interaction_rows db) uid;
  backed_quote : Database.placement_error p = None -> is_Some (order_quotes db !! uid);
}.
Definition backed (db : Db) : Prop :=
  first_is_pre (interaction_rows db) /\
  forall uid p, onchain_placed_orders (indexed db) !! uid = Some p -> backed_order db uid p.
(** The address that sent an order is an address. *)
Definition sent_by_address (e : Event ContractEvent) : Prop :=
  match EventHandling.data e with Placed event => 0 <= event_sender event < 2 ^ 160 | Invalidated _ => True end.

Lemma delete_events_backed db range : backed db -> backed (delete_events db range).
Proof.
  intros [Hp Hb]. split; [done|]. intros uid p. cbn. rewrite lookup_fmap_Some. intros (p0 & Hr & H0).
  destruct (Hb uid p0 H0) as [H1 H2 H3 H4]. split; [done..|]. cbn. intros He. apply H4. subst p.
  revert He. unfold reorged. by case_match.
Qed.

Section backing.
Context (keccak256 : list byte -> list byte) (domain_separator : list byte) (settlement_contract : Z).
Context {S : Type} `{OrderQuoting.Quoting S}.
Abbreviation extract := (extract_custom_and_general_order_data keccak256 domain_separator settlement_contract).
Abbreviation ops := (onchain_ops keccak256 domain_separator settlement_contract).
Implicit Types (svc : Services S) (events : list (Event ContractEvent)) (xs : list (@Extracted EthFlowDataForDb)).

(** The parts of what is extracted of one event belong to one order. *)
Definition consistent_parts (x : @Extracted EthFlowDataForDb) : Prop :=
  let uid := (extracted_order x).1 in
  order_uid (broadcasted x).2 = uid /\ (eth_order_placement (custom x)).1 = uid /\
  pre_interaction (custom x) = wrap_all (OrderUid.owner uid) /\
  match extracted_quote x with Some q => q.1 = uid /\ error (broadcasted x).2 = None | None => is_Some (error (broadcasted x).2) end.
Lemma extract_consistent svc events xs : extract svc events = Ok xs -> Forall sent_by_address events ->
  Forall consistent_parts xs.
Proof.
  intros Hx Hs. apply Forall_forall. intros x Hin.
  destruct (extract_elem _ _ _ _ _ _ _ Hx Hin) as (parsed & e & m & event & Hp & [He Hm Hd (t & c & _ & _ & Hpd) (o & p & Ho & Hc)]).
  destruct (placement_data_parts _ _ _ _ _ _ _ _ _ _ _ _ Hpd Hd) as (d & w & sch & [Hpar Hrow Hsent Hq]).
  pose proof (Forall_elem _ _ _ Hs He) as Hsender. unfold sent_by_address in Hsender. rewrite Hd in Hsender.
  apply order_data_owner in Hpar; [|done]. cbn in Hc. unfold customized in Hc.
  apply rbind_Ok in Hc as (u & _ & [= Hc]). unfold consistent_parts. rewrite <- Hc, <- Ho, Hsent, Hrow. cbn.
  rewrite Hpar. done.
Qed.

Lemma write_backed now db invalidated xs : Forall consistent_parts xs -> backed db -> backed (write now db invalidated xs).
Proof.
  intros Hx [Hp Hb]. destruct (write_written now db invalidated xs) as [W1 W2 W3 _].
  destruct (ethflow_write now db invalidated xs) as [W4 W5]. unfold backed. rewrite W5, overwrite_interactions_rows.
  assert (Hi : map (fun x => ((eth_order_placement (custom x)).1, pre_interaction (custom x))) xs =
    map (fun u => (u, wrap_all (OrderUid.owner u))) (map (fun x => (extracted_order x).1) xs)).
  { rewrite map_map. clear -Hx. induction Hx as [|x xs (_ & H1 & H2 & _) _ IH]; [done|].
    cbn [map]. rewrite IH, H1, H2. done. }
  rewrite Hi. split; [apply (overwrites_wrap _ _ 0 Hp)|]. intros uid p. rewrite W3. intros Hpl.
  assert (Hsrc : (exists x, x ∈ xs /\ (extracted_order x).1 = uid /\ error (broadcasted x).2 = Database.placement_error p) \/
    onchain_placed_orders (indexed db) !! uid = Some p).
  { apply (foldl_upsert_elem (fun b => order_uid b.2) (fun b => placement_row b.1 b.2)) in Hpl as [(b & Hin & Hu & ->)|?];
      [left|by right]. apply list_elem_of_fmap in Hin as (x & -> & Hin). exists x. split; [done|].
    destruct (Forall_elem _ _ _ Hx Hin) as (H1 & _). by rewrite <- H1. }
  split.
  - rewrite W1. apply (foldl_dom fst); [|destruct Hsrc as [(x & Hin & <- & _)|Hold]; [left|right; by apply (Hb uid p)]].
    + intros m o. unfold insert_missing, insert_new. destruct (m !! o.1) eqn:Hm; [|by rewrite dom_insert_L].
      apply set_eq. intros k. rewrite elem_of_union, elem_of_singleton, elem_of_dom. naive_solver.
    + rewrite map_map. by apply (list_elem_of_fmap_2 (fun x => (extracted_order x).1)).
  - rewrite W4. apply (foldl_dom fst); [intros; by rewrite dom_insert_L|].
    destruct Hsrc as [(x & Hin & <- & _)|Hold]; [left|right; by apply (Hb uid p)].
    rewrite map_map. apply list_elem_of_fmap. exists x. split; [|done]. by destruct (Forall_elem _ _ _ Hx Hin) as (_ & -> & _).
  - rewrite W5, overwrite_interactions_rows, Hi. apply overwrites_wrap; [done|].
    destruct Hsrc as [(x & Hin & <- & _)|Hold]; [right|left; by apply (Hb uid p)].
    by apply (list_elem_of_fmap_2 (fun x => (extracted_order x).1)).
  - intros Hn. rewrite W2. apply (foldl_dom fst); [intros; apply dom_insert_L|].
    destruct Hsrc as [(x & Hin & <- & He)|Hold]; [left|right; by apply (Hb uid p)].
    destruct (Forall_elem _ _ _ Hx Hin) as (_ & _ & _ & Hq). rewrite He, Hn in Hq.
    destruct (extracted_quote x) as [q|] eqn:Hqx; [|by destruct Hq]. destruct Hq as [<- _].
    apply (list_elem_of_fmap_2 fst). apply list_elem_of_omap. by exists x.
Qed.

Lemma insert_events_backed svc db events db' : insert_events keccak256 domain_separator settlement_contract svc db events = Ok db' ->
  Forall sent_by_address events -> backed db -> backed db'.
Proof.
  unfold insert_events. intros (i & _ & (u & _ & (xs & Hx & [= <-])%rbind_Ok)%rbind_Ok)%rbind_Ok Hs Hb.
  apply write_backed; [|done]. eapply extract_consistent; [exact Hx|]. apply Forall_forall.
  intros e [He _]%elem_of_placements. by eapply Forall_elem.
Qed.
Definition op_events (op : @OnchainOp S) : list (Event ContractEvent) :=
  match op with Appended _ events | Replaced _ events _ => events end.
Lemma onchain_ops_backed db (l : list OnchainOp) :
  Forall (fun op => Forall sent_by_address (op_events op)) l -> backed db -> backed (ops db l).
Proof.
  intros Hl. revert db. induction Hl as [|op l Hop _ IH]; intros db Hb; [done|]. apply IH. clear IH.
  destruct op as [svc events|svc events range]; cbn in *; unfold append_events, replace_events, commit;
    destruct (insert_events _ _ _ svc _ events) as [db'| |] eqn:Hi; cbn; try done.
  - by eapply insert_events_backed.
  - eapply insert_events_backed; [exact Hi|done|]. by apply delete_events_backed.
Qed.
End backing.

(** * The tables follow the chain *)
Section complete.
Context (keccak256 : list byte -> list byte) (domain_separator : list byte) (settlement_contract : Z).
Context {S : Type} `{OrderQuoting.Quoting S} {EventData EventRow : Type} `{OnchainOrderParsing EventData EventRow}.
Context `{!OnchainOrderParsingLaws EventData EventRow}.
Implicit Types (svc : Services S) (events : list (Event ContractEvent)) (x : @Extracted EventRow).
Abbreviation placement_data := (placement_data keccak256 domain_separator settlement_contract).
Abbreviation extract := (extract_custom_and_general_order_data keccak256 domain_separator settlement_contract).
Abbreviation order_data_of :=
  (extract_order_data_from_onchain_order_placement_event keccak256 domain_separator).

Lemma keep_ok_all {A} (l : list (res unit A)) xs r : keep_ok l = Ok xs -> r ∈ l -> r <> Panic.
Proof.
  revert xs. induction l as [|[a|e|] l IH]; intros xs Hk; [by intros ?%elem_of_nil| | |done]; cbn [keep_ok] in Hk.
  - apply rbind_Ok in Hk as (rest & Hk & _). intros [->|Hr]%elem_of_cons; [done|by eapply IH].
  - intros [->|Hr]%elem_of_cons; [done|by eapply IH].
Qed.
Lemma within_market_not_Err d q : within_market d q <> Err tt.
Proof. unfold within_market, u_add. do 2 (destruct (U256.checked_add _ _); [|done]). done. Qed.
(** A placement with a readable order fails only by panicking. *)
Lemma placement_data_not_Err (s : S) e m event t q r : EventHandling.meta e = Some m -> EventHandling.data e = Placed event ->
  order_data_of event = Ok r -> placement_data s (e, t, q) <> Err tt.
Proof.
  intros Hm Hd Hr. unfold OnchainOrderEvents.placement_data. rewrite Hm, Hd. cbn [opt ok_or rbind]. rewrite Hr. cbn [rbind].
  destruct r as [[[d w] sch] u]. destruct (get_quote s d sch q) as [qt|err|]; cbn [caught rbind]; [..|done];
    unfold convert_onchain_order_placement; cbn [rbind]; [|done].
  pose proof (within_market_not_Err d (mkQuoteAmounts (OrderQuoting.sell_amount qt) (OrderQuoting.buy_amount qt)
    (OrderQuoting.fee_amount qt))). by destruct (within_market d _) as [|[]|].
Qed.

Lemma extract_complete svc events xs parsed e m event r : extract svc events = Ok xs ->
  parse_custom_event_data events = Ok parsed -> e ∈ events -> EventHandling.meta e = Some m ->
  EventHandling.data e = Placed event -> is_Some (quote_ids_of parsed !! ContractEvents.meta_to_event_index m) ->
  order_data_of event = Ok r ->
  exists x, x ∈ xs /\ (broadcasted x).1 = ContractEvents.meta_to_event_index m /\
    order_uid (broadcasted x).2 = r.2 /\ sender (broadcasted x).2 = event_sender event.
Proof.
  unfold extract_custom_and_general_order_data.
  intros (times & Ht & (parsed' & Hp & (l & Hl & (data & Hd & Hxs)%rbind_Ok)%rbind_Ok)%rbind_Ok)%rbind_Ok Hp' He Hm Hev [q Hq] Hr.
  rewrite Hp in Hp'. injection Hp' as ->. apply rmap_Ok in Hl. pose proof He as [k Hk]%list_elem_of_lookup.
  destruct (Forall2_lookup_l _ _ _ _ _ Hl Hk) as (a & Ha%list_elem_of_lookup_2 & Heq).
  unfold event_and_quote in Heq. rewrite Hm, Hq in Heq. apply rbind_Ok in Heq as (t & Htime & [= <-]).
  assert (Hin : (e, t, q) ∈ omap Datatypes.id l) by (apply list_elem_of_omap; by eexists).
  unfold parse_general_onchain_order_placement_data in Hd.
  assert (Hfut : placement_data (quotes svc) (e, t, q) ∈ buffer_unordered svc (map (placement_data (quotes svc)) (omap Datatypes.id l))).
  { rewrite buffer_unordered_all. by apply (list_elem_of_fmap_2 (placement_data (quotes svc))). }
  pose proof (keep_ok_all _ _ _ Hd Hfut) as Hnp. pose proof (placement_data_not_Err (quotes svc) e m event t q r Hm Hev Hr) as Hne.
  destruct (placement_data (quotes svc) (e, t, q)) as [[[[i quote] pl] o]|[]|] eqn:Hpd; [|done..].
  apply (keep_ok_Ok _ _ _ Hd) in Hfut. apply rmap_Ok in Hxs. apply list_elem_of_lookup in Hfut as [k' Hk'].
  destruct (Forall2_lookup_l _ _ _ _ _ Hxs Hk') as (x & Hx%list_elem_of_lookup_2 & Hc). apply rbind_Ok in Hc as (c & _ & [= <-]).
  destruct (placement_data_index _ _ _ _ _ _ _ _ _ _ _ Hpd) as (m' & _ & Hm' & _ & ->). rewrite Hm in Hm'. injection Hm' as <-.
  destruct (placement_data_parts _ _ _ _ _ _ _ _ _ _ _ _ Hpd Hev) as (d & w & sch & [Hpar _ Hpl _]).
  rewrite Hr in Hpar. injection Hpar as ->. eexists. split_and!; [exact Hx|done|cbn; by rewrite Hpl..].
Qed.
End complete.

Lemma parse_complete events parsed e m event q u : parse events = Ok parsed -> e ∈ events ->
  EventHandling.meta e = Some m -> EventHandling.data e = Placed event ->
  convert_to_quote_id_and_user_valid_to event = Ok (q, u) ->
  is_Some (quote_ids_of parsed !! ContractEvents.meta_to_event_index m).
Proof.
  unfold parse. intros (os & Hos & <-)%res_map_Ok [k Hk]%list_elem_of_lookup Hm Hd Hc. apply rmap_Ok in Hos.
  destruct (Forall2_lookup_l _ _ _ _ _ Hos Hk) as (o & Ho%list_elem_of_lookup_2 & Hp). unfold parse_event in Hp.
  rewrite Hm, Hd, Hc in Hp. injection Hp as <-.
  apply (foldl_dom fst (fun m c => <[c.1 := quote_id c.2]> m)); [intros; by rewrite dom_insert_L|]. left.
  apply (list_elem_of_fmap_2 fst (omap Datatypes.id os) (ContractEvents.meta_to_event_index m, mkCustomData q (Some u))).
  apply list_elem_of_omap. by eexists.
Qed.

(** ** What identifies an on-chain order *)
Lemma NoDup_omap_inj {A B} (f : A -> option B) (l : list A) x y k :
  NoDup (omap f l) -> x ∈ l -> y ∈ l -> f x = Some k -> f y = Some k -> x = y.
Proof.
  induction l as [|a l IH]; [by intros _ ?%elem_of_nil|]. cbn. intros Hn Hx Hy Hfx Hfy.
  assert (Ha : forall z, f a = Some k -> z ∈ l -> f z = Some k -> False).
  { intros z Hk Hz Hfz. rewrite Hk in Hn. apply NoDup_cons in Hn as [Hn _]. destruct Hn. apply list_elem_of_omap. by exists z. }
  apply elem_of_cons in Hx as [->|Hx], Hy as [->|Hy]; [done|by destruct (Ha y)|by destruct (Ha x)|].
  apply IH; [|done..]. destruct (f a); [by apply NoDup_cons in Hn as [_ ?]|done].
Qed.
Lemma NoDup_map_inj {A B} (f : A -> B) (l : list A) x y : NoDup (map f l) -> x ∈ l -> y ∈ l -> f x = f y -> x = y.
Proof.
  intros Hn Hx Hy Hf. assert (Hm : omap (fun a => Some (f a)) l = map f l).
  { clear. induction l as [|a l IH]; [done|]. cbn. by rewrite IH. }
  apply (NoDup_omap_inj (fun a => Some (f a)) l x y (f x)); [by rewrite Hm|done..|by rewrite Hf].
Qed.
Lemma meta_index_inj m m' : fits_i64 m -> fits_i64 m' ->
  ContractEvents.meta_to_event_index m = ContractEvents.meta_to_event_index m' -> m = m'.
Proof. intros H1 H2. rewrite !index_fits by done. destruct m, m'. cbn. intros [= -> H]. f_equal. lia. Qed.

Section identity.
Context (keccak256 : list byte -> list byte) (domain_separator : list byte).
(** The uid and the sender of an order that is indexed. *)
Definition indexed_order (event : OrderPlacement) : option (Z * Z) :=
  match extract_order_data_from_onchain_order_placement_event keccak256 domain_separator event,
        convert_to_quote_id_and_user_valid_to event with
  | Ok (_, _, _, uid), Ok _ => Some (uid, event_sender event)
  | _, _ => None
  end.
Definition onchain_key (d : ContractEvent) : option (bool * Z) :=
  match d with
  | Placed event => (fun o => (true, o.1)) <$> indexed_order event
  | Invalidated bytes => match ContractEvents.bytes_to_order_uid bytes with Ok uid => Some (false, uid) | _ => None end
  end.
(** A contract places and invalidates an order at most once. *)
Definition onchain_order_key : EventKey ContractEvent := {| key_type := bool * Z; event_key := onchain_key |}.

(** What an event adds to the tables: the place and the sender of an order by
    its uid, the place of an invalidation. *)
Definition live_row (e : Event ContractEvent) : option (Z * (EventIndex * Z)) :=
  m ← EventHandling.meta e;
  match EventHandling.data e with
  | Placed event => (fun o => (o.1, (ContractEvents.meta_to_event_index m, o.2))) <$> indexed_order event
  | Invalidated _ => None
  end.
Definition invalid_row (e : Event ContractEvent) : option (Z * EventIndex) :=
  m ← EventHandling.meta e;
  match EventHandling.data e with
  | Placed _ => None
  | Invalidated bytes =>
      match ContractEvents.bytes_to_order_uid bytes with Ok uid => Some (uid, ContractEvents.meta_to_event_index m) | _ => None end
  end.
(** The rows that are not marked as reorganized. *)
Definition live (db : Db) (uid : Z) : option (EventIndex * Z) :=
  row ← onchain_placed_orders (indexed db) !! uid;
  if is_reorged row then None else Some (placed_at row, placement_sender row).
Record follows (db : Db) (l : list (Event ContractEvent)) : Prop := {
  follows_live uid v : live db uid = Some v <-> (uid, v) ∈ omap live_row l;
  follows_invalid uid i : onchain_order_invalidations (indexed db) !! uid = Some i <-> (uid, i) ∈ omap invalid_row l;
}.
Definition placed_events := @EventHandling.placed ContractEvent onchain_order_key.
Definition holds (db : Db) (l : list (Event ContractEvent)) : Prop := placed_events l /\ follows db l.

Lemma live_row_key e uid v : live_row e = Some (uid, v) -> onchain_key (EventHandling.data e) = Some (true, uid).
Proof.
  unfold live_row. destruct (EventHandling.meta e) as [m|]; [|done]. cbn.
  destruct (EventHandling.data e) as [event|]; [|done]. cbn. destruct (indexed_order event); [|done]. cbn. by intros [= -> _].
Qed.
Lemma invalid_row_key e uid i : invalid_row e = Some (uid, i) -> onchain_key (EventHandling.data e) = Some (false, uid).
Proof.
  unfold invalid_row. destruct (EventHandling.meta e) as [m|]; [|done]. cbn.
  destruct (EventHandling.data e) as [|bytes]; [done|]. cbn.
  destruct (ContractEvents.bytes_to_order_uid bytes); [|done..]. by intros [= -> _].
Qed.
(** Rows of one uid are of one event. *)
Lemma live_row_unique l e e' uid v v' : placed_events l -> e ∈ l -> e' ∈ l ->
  live_row e = Some (uid, v) -> live_row e' = Some (uid, v') -> v = v'.
Proof.
  intros (_ & _ & Hk) He He' H1 H2. assert (e = e') as <-; [|congruence].
  by eapply (NoDup_omap_inj _ _ _ _ _ Hk He He'); cbn; [exact (live_row_key _ _ _ H1)|exact (live_row_key _ _ _ H2)].
Qed.
Lemma invalid_row_unique l e e' uid v v' : placed_events l -> e ∈ l -> e' ∈ l ->
  invalid_row e = Some (uid, v) -> invalid_row e' = Some (uid, v') -> v = v'.
Proof.
  intros (_ & _ & Hk) He He' H1 H2. assert (e = e') as <-; [|congruence].
  by eapply (NoDup_omap_inj _ _ _ _ _ Hk He He'); cbn; [exact (invalid_row_key _ _ _ H1)|exact (invalid_row_key _ _ _ H2)].
Qed.

(** ** Marking what was reorganized *)
Lemma before_row {V} (f : Event ContractEvent -> option (Z * V)) (at_ : V -> EventIndex) l from uid v :
  (forall e uid v, f e = Some (uid, v) -> exists m, EventHandling.meta e = Some m /\ at_ v = ContractEvents.meta_to_event_index m) ->
  placed_events l ->
  (uid, v) ∈ omap f (before from l) <-> (uid, v) ∈ omap f l /\ ~ Z.min from I64_MAX <= (at_ v).1.
Proof.
  intros Hf (Hp & _). rewrite !list_elem_of_omap. unfold before. setoid_rewrite list_elem_of_filter.
  assert (Hblock : forall e, e ∈ l -> f e = Some (uid, v) -> event_block e < from <-> ~ Z.min from I64_MAX <= (at_ v).1).
  { intros e He Hr. destruct (Hf _ _ _ Hr) as (m & Hm & Hat). destruct (Forall_elem _ _ _ Hp He) as (m' & Hm' & Hfit).
    rewrite Hm in Hm'. injection Hm' as <-. unfold event_block. rewrite Hat, index_fits, Hm by done. destruct m as [b j].
    destruct Hfit. cbn in *. unfold I64_MAX. lia. }
  split.
  - intros (e & [Hb He] & Hr). split; [by exists e|]. by apply (Hblock e).
  - intros [(e & He & Hr) Hb]. exists e. split; [|done]. split; [|done]. by apply (Hblock e).
Qed.
Lemma live_row_place e uid v : live_row e = Some (uid, v) ->
  exists m, EventHandling.meta e = Some m /\ v.1 = ContractEvents.meta_to_event_index m.
Proof.
  unfold live_row. destruct (EventHandling.meta e) as [m|]; [|done]. cbn. destruct (EventHandling.data e) as [event|]; [|done].
  destruct (indexed_order event); [|done]. intros [= _ <-]. by exists m.
Qed.
Lemma invalid_row_place e uid i : invalid_row e = Some (uid, i) ->
  exists m, EventHandling.meta e = Some m /\ i = ContractEvents.meta_to_event_index m.
Proof.
  unfold invalid_row. destruct (EventHandling.meta e) as [m|]; [|done]. cbn. destruct (EventHandling.data e) as [|bytes]; [done|].
  destruct (ContractEvents.bytes_to_order_uid bytes); [|done..]. intros [= _ <-]. by exists m.
Qed.

Lemma delete_events_follows db l range : placed_events l -> follows db l ->
  follows (delete_events db range) (before (CurrentBlock.start range) l).
Proof.
  intros Hp [H1 H2]. split.
  - intros uid v. rewrite (before_row live_row fst); [|intros e u w Hr; by eapply live_row_place|done].
    rewrite <- H1. unfold live. cbn. rewrite lookup_fmap.
    destruct (onchain_placed_orders (indexed db) !! uid) as [row|]; cbn; [|naive_solver].
    unfold reorged. destruct (Z.leb_spec (Z.min (CurrentBlock.start range) I64_MAX) (placed_at row).1) as [Hle|Hlt]; cbn.
    + split; [done|]. intros [Hr Hn]. destruct (is_reorged row); [done|]. injection Hr as <-. cbn in Hn. lia.
    + destruct (is_reorged row); [naive_solver|]. split; [|by intros [? _]]. intros [= <-]. cbn. split; [done|lia].
  - intros uid i. rewrite (before_row invalid_row Datatypes.id); [|intros e u w Hr; by eapply invalid_row_place|done].
    rewrite <- H2. cbn. rewrite map_lookup_filter_Some. done.
Qed.
End identity.

(** ** The store keeps the promise of [EventStoring] *)
Section laws.
Context (keccak256 : list byte -> list byte) (domain_separator : list byte) (settlement_contract : Z).
Context {S : Type} `{OrderQuoting.Quoting S} (svc : Services S).
Implicit Types (l events : list (Event ContractEvent)) (xs : list (@Extracted EthFlowDataForDb)).
Abbreviation extract := (extract_custom_and_general_order_data keccak256 domain_separator settlement_contract).
Abbreviation live_row := (live_row keccak256 domain_separator).
Abbreviation invalid_row := (invalid_row).
Abbreviation placed_events := (placed_events keccak256 domain_separator).
Abbreviation follows := (follows keccak256 domain_separator).

(** What is extracted is what an event of the batch places: the order with the
    data of the event, at its place, and with the validity of its own data. *)
Record extracted_as (x : @Extracted EthFlowDataForDb) m event t d w sch v : Prop := {
  as_parsed : extract_order_data_from_onchain_order_placement_event keccak256 domain_separator event =
    Ok (d, w, sch, (extracted_order x).1);
  as_converted : exists q, convert_to_quote_id_and_user_valid_to event = Ok (q, v);
  as_row : (extracted_order x).2 = placed_order_row settlement_contract event t d sch w;
  as_place : (broadcasted x).1 = ContractEvents.meta_to_event_index m;
  as_uid : order_uid (broadcasted x).2 = (extracted_order x).1;
  as_sender : sender (broadcasted x).2 = event_sender event;
  as_custom : custom x = mkEthFlowDataForDb ((extracted_order x).1, v) (wrap_all w);
}.
Lemma extracted_event events xs x : placed_events events -> extract svc (List.filter is_placement events) = Ok xs -> x ∈ xs ->
  exists m event t d w sch v, mkEvent (Some m) (Placed event) ∈ events /\
    timestamp_of_block_in_seconds svc (ContractEvents.meta_to_event_index m).1 = Ok t /\
    extracted_as x m event t d w sch v.
Proof.
  intros (Hfit & Hmeta & _) Hx Hin.
  destruct (extract_elem _ _ _ _ _ _ _ Hx Hin) as (parsed & e & m & event & Hp & [He Hm Hd (t & c & Hc & Ht & Hpd) (o & p & Ho & Hcu)]).
  apply elem_of_placements in He as [He _].
  destruct (placement_data_parts _ _ _ _ _ _ _ _ _ _ _ _ Hpd Hd) as (d & w & sch & [Hpar Hrow Hsent _]).
  cbn in Hcu. unfold customized in Hcu. apply rbind_Ok in Hcu as (v & Hv%opt_expect_Ok & [= Hcu]).
  destruct (custom_data_elem keccak256 domain_separator _ _ _ Hv) as (c' & Hc' & Hadd).
  destruct (parse_elem _ _ _ _ Hp Hc') as (e' & m' & event' & q & v' & [He' _]%elem_of_placements & Hm' & Hd' & Hi & Hconv & ->).
  injection Hadd as ->.
  destruct (Forall_elem _ _ _ Hfit He) as (m1 & Hm1 & Hf1). rewrite Hm in Hm1. injection Hm1 as <-.
  destruct (Forall_elem _ _ _ Hfit He') as (m2 & Hm2 & Hf2). rewrite Hm' in Hm2. injection Hm2 as <-.
  apply meta_index_inj in Hi as ->; [|done..].
  assert (e' = e) as -> by (apply (NoDup_map_inj EventHandling.meta events); [done..|congruence]).
  rewrite Hd in Hd'. injection Hd' as <-. exists m', event, t, d, w, sch, v.
  assert (Hidx : (broadcasted x).1 = ContractEvents.meta_to_event_index m').
  { destruct (placement_data_index _ _ _ _ _ _ _ _ _ _ _ Hpd) as (m3 & _ & Hm3 & _ & ->). rewrite Hm in Hm3. by injection Hm3 as <-. }
  split_and!; [by destruct e as [me de]; cbn in Hm, Hd; subst|done|].
  split; [done|by exists q|done|done|by rewrite Hsent|by rewrite Hsent|]. by rewrite <- Hcu, <- Ho, Hrow.
Qed.

(** What is extracted of a batch is what its events place. *)
Lemma extracted_live events xs uid i s : placed_events events -> extract svc (List.filter is_placement events) = Ok xs ->
  (uid, (i, s)) ∈ omap live_row events <->
  exists x, x ∈ xs /\ order_uid (broadcasted x).2 = uid /\ (broadcasted x).1 = i /\ sender (broadcasted x).2 = s.
Proof.
  intros Hp Hx. rewrite list_elem_of_omap. split.
  - intros (e & He & Hr). unfold OnchainOrders.live_row in Hr. destruct (EventHandling.meta e) as [m|] eqn:Hm; [|done]. cbn in Hr.
    destruct (EventHandling.data e) as [event|] eqn:Hd; [|done]. unfold indexed_order in Hr.
    destruct (extract_order_data_from_onchain_order_placement_event _ _ event) as [[[[d w] sch] u]| |] eqn:Hod; [|done..].
    destruct (convert_to_quote_id_and_user_valid_to event) as [[q v]| |] eqn:Hc; [|done..]. cbn in Hr. injection Hr as -> <- <-.
    assert (He' : e ∈ List.filter is_placement events).
    { apply elem_of_placements. split; [done|]. unfold is_placement. by rewrite Hd. }
    destruct (parse (List.filter is_placement events)) as [parsed| |] eqn:Hparse.
    2,3: unfold extract_custom_and_general_order_data in Hx; cbn in Hx; rewrite Hparse in Hx;
      by destruct (get_block_numbers_of_events svc _).
    destruct (extract_complete _ _ _ _ _ _ _ _ _ _ _ Hx Hparse He' Hm Hd (parse_complete _ _ _ _ _ _ _ Hparse He' Hm Hd Hc) Hod)
      as (x & Hin & H1 & H2 & H3). by exists x.
  - intros (x & Hin & <- & <- & <-).
    destruct (extracted_event _ _ _ Hp Hx Hin) as (m & event & t & d & w & sch & v & He & _ & [H1 [q H2] _ H4 H5 H6 _]).
    eexists. split; [exact He|]. unfold OnchainOrders.live_row. cbn. unfold indexed_order. rewrite H1, H2. cbn.
    by rewrite H4, H5, H6.
Qed.
Lemma invalidated_rows events is_ uids uid i : get_invalidation_events events = Ok is_ ->
  extract_invalidated_order_uids is_ = Ok uids -> (i, uid) ∈ uids <-> (uid, i) ∈ omap invalid_row events.
Proof.
  unfold get_invalidation_events, extract_invalidated_order_uids. intros (os & Hos & <-)%res_map_Ok Hu.
  apply rmap_Ok in Hos, Hu. rewrite list_elem_of_omap. split.
  - intros [k Hk]%list_elem_of_lookup. destruct (Forall2_lookup_r _ _ _ _ _ Hu Hk) as ([j bytes] & Hin%list_elem_of_lookup_2 & Hc).
    apply rbind_Ok in Hc as (u & Hb & [= -> ->]). apply list_elem_of_omap in Hin as (o & [k' Ho]%list_elem_of_lookup & Hid). cbn in Hid.
    subst o. destruct (Forall2_lookup_r _ _ _ _ _ Hos Ho) as (e & He%list_elem_of_lookup_2 & Hr). exists e. split; [done|].
    unfold OnchainOrders.invalid_row. destruct (EventHandling.meta e) as [m|]; [|done]. cbn in Hr |- *.
    destruct (EventHandling.data e) as [|b]; [done|]. injection Hr as <- <-. cbn in Hb. by rewrite Hb.
  - intros (e & [k Hk]%list_elem_of_lookup & Hr). destruct (Forall2_lookup_l _ _ _ _ _ Hos Hk) as (o & Ho%list_elem_of_lookup_2 & He).
    unfold OnchainOrders.invalid_row in Hr. destruct (EventHandling.meta e) as [m|]; [|done]. cbn in He, Hr.
    destruct (EventHandling.data e) as [|b]; [done|]. injection He as <-.
    destruct (ContractEvents.bytes_to_order_uid b) as [u| |] eqn:Hb; [|done..]. injection Hr as <- <-.
    assert (Hin : (ContractEvents.meta_to_event_index m, b) ∈ omap Datatypes.id os) by (apply list_elem_of_omap; by eexists).
    apply list_elem_of_lookup in Hin as [k' Hk']. destruct (Forall2_lookup_l _ _ _ _ _ Hu Hk') as (p & Hp%list_elem_of_lookup_2 & Hc).
    cbn in Hc. rewrite Hb in Hc. by injection Hc as <-.
Qed.

(** Keys of the new events are not those of the old ones. *)
Lemma upserted_table {V} (f : Event ContractEvent -> option (Z * V)) l events (old new : Z -> option V) :
  (forall l e e' uid v v', placed_events l -> e ∈ l -> e' ∈ l -> f e = Some (uid, v) -> f e' = Some (uid, v') -> v = v') ->
  placed_events (l ++ events) -> (forall e e' uid v v', e ∈ l -> e' ∈ events -> f e = Some (uid, v) -> f e' = Some (uid, v') -> False) ->
  (forall uid v, old uid = Some v <-> (uid, v) ∈ omap f l) ->
  (forall uid v, new uid = Some v -> (uid, v) ∈ omap f events \/ old uid = Some v) ->
  (forall uid, (exists v, (uid, v) ∈ omap f events) -> is_Some (new uid)) ->
  (forall uid, (forall v, (uid, v) ∉ omap f events) -> new uid = old uid) ->
  forall uid v, new uid = Some v <-> (uid, v) ∈ omap f (l ++ events).
Proof.
  intros Huniq Hp Hdis Hold Hsound Hnew Hkeep uid v. rewrite omap_app, elem_of_app. split.
  - intros [?|?%Hold]%Hsound; [by right|by left].
  - intros [Hin|Hin].
    + rewrite Hkeep; [by apply Hold|]. intros v'. rewrite list_elem_of_omap. intros (e' & He' & Hr').
      apply list_elem_of_omap in Hin as (e & He & Hr). by eapply Hdis.
    + destruct (Hnew uid) as [v' Hv']; [by exists v|]. rewrite Hv'. f_equal. destruct (Hsound _ _ Hv') as [Hin'|Hin'%Hold];
        apply list_elem_of_omap in Hin as (e & He & Hr), Hin' as (e' & He' & Hr').
      * eapply (Huniq _ e' e); [exact Hp|apply elem_of_app; by right..|exact Hr'|exact Hr].
      * by destruct (Hdis e' e uid v' v).
Qed.

Lemma keys_disjoint l events k e e' : placed_events (l ++ events) -> e ∈ l -> e' ∈ events ->
  onchain_key keccak256 domain_separator (EventHandling.data e) = Some k ->
  onchain_key keccak256 domain_separator (EventHandling.data e') = Some k -> False.
Proof.
  intros (_ & _ & Hk) He He' H1 H2. unfold keys in Hk. rewrite omap_app in Hk. apply NoDup_app in Hk as (_ & Hk & _).
  apply (Hk k); apply list_elem_of_omap; [by exists e|by exists e'].
Qed.
Lemma placed_events_part l events : placed_events (l ++ events) -> placed_events l /\ placed_events events.
Proof.
  intros Hp. pose proof (onchain_order_key keccak256 domain_separator) as _. split.
  - eapply (@placed_prefix _ (onchain_order_key keccak256 domain_separator)). exact Hp.
  - eapply (@placed_prefix _ (onchain_order_key keccak256 domain_separator)).
    eapply (@placed_perm _ (onchain_order_key keccak256 domain_separator)); [|exact Hp]. apply Permutation_app_comm.
Qed.

Lemma insert_events_follows db l events db' :
  insert_events keccak256 domain_separator settlement_contract svc db events = Ok db' ->
  placed_events (l ++ events) -> follows db l -> follows db' (l ++ events).
Proof.
  unfold insert_events. intros (is_ & Hi & (uids & Hu & (xs & Hx & [= <-])%rbind_Ok)%rbind_Ok)%rbind_Ok Hp [Hl Hinv].
  destruct (placed_events_part _ _ Hp) as [_ Hpe]. destruct (write_written (now svc) db uids xs) as [_ _ W3 W4].
  pose proof (fun uid i s => extracted_live events xs uid i s Hpe Hx) as Hlive.
  pose proof (fun uid i => invalidated_rows events is_ uids uid i Hi Hu) as Hrows.
  split.
  - apply (upserted_table live_row l events (live db)); [by eapply live_row_unique|done| |done|..].
    + intros e e' uid v v' He He' H1 H2. eapply (keys_disjoint l events); [exact Hp|exact He|exact He'|by eapply live_row_key..].
    + intros uid v Hv. unfold live in Hv. rewrite W3 in Hv. apply bind_Some in Hv as (row & Hrow & Hv).
      apply (foldl_upsert_elem (fun b => order_uid b.2) (fun b => placement_row b.1 b.2)) in Hrow as [(b & Hb & <- & ->)|Hrow].
      * left. cbn in Hv. injection Hv as <-. apply list_elem_of_fmap in Hb as (x & -> & Hin). apply Hlive. by exists x.
      * right. unfold live. by rewrite Hrow.
    + intros uid ([i s] & (x & Hin & <- & _)%Hlive). unfold live. rewrite W3.
      destruct (foldl upsert_placement _ _ !! _) as [row|] eqn:Hrow.
      * apply (foldl_upsert_last (fun b => order_uid b.2) (fun b => placement_row b.1 b.2)) in Hrow as (b & _ & _ & ->); [by eexists|].
        by apply (list_elem_of_fmap_2 broadcasted).
      * apply eq_None_not_Some in Hrow. destruct Hrow. apply (foldl_dom (fun b => order_uid b.2)).
        -- intros m b. apply dom_insert_L.
        -- left. rewrite map_map. by apply (list_elem_of_fmap_2 (fun x => order_uid (broadcasted x).2)).
    + intros uid Hn. unfold live. rewrite W3. f_equal. unfold upsert_placement. rewrite (foldl_upsert (fun b => order_uid b.2) (fun b => placement_row b.1 b.2)).
      destruct (last (filter _ _)) as [b|] eqn:Hb; [|done]. exfalso.
      apply last_Some_elem_of, list_elem_of_filter in Hb as [<- (x & -> & Hin)%list_elem_of_fmap].
      eapply Hn. apply Hlive. by exists x.
  - apply (upserted_table invalid_row l events (fun uid => onchain_order_invalidations (indexed db) !! uid));
      [by eapply invalid_row_unique|done| |done|..].
    + intros e e' uid v v' He He' H1 H2. eapply (keys_disjoint l events); [exact Hp|exact He|exact He'|by eapply invalid_row_key..].
    + intros uid i Hr. rewrite W4 in Hr. apply (foldl_upsert_elem snd fst) in Hr as [([j u] & Hin & <- & ->)|Hr]; [left|by right].
      by apply Hrows.
    + intros uid (i & Hin%Hrows). rewrite W4. apply (foldl_dom snd); [intros m b; apply dom_insert_L|]. left.
      by apply (list_elem_of_fmap_2 snd uids (i, uid)).
    + intros uid Hn. rewrite W4, (foldl_upsert snd fst). destruct (last (filter _ _)) as [b|] eqn:Hb; [|done]. exfalso.
      apply last_Some_elem_of, list_elem_of_filter in Hb as [<- Hin]. apply (Hn b.1), Hrows. by destruct b.
Qed.

Lemma insert_missing_elem (m : gmap Z OrderRow) rows uid row : foldl insert_missing m rows !! uid = Some row ->
  (uid, row) ∈ rows \/ m !! uid = Some row.
Proof.
  revert m. induction rows as [|[u r] rows IH]; intros m; cbn [foldl]; [by right|]. intros [Hin|Hm]%IH; [left; by right|].
  unfold insert_missing, insert_new in Hm. cbn in Hm. destruct (m !! u) eqn:Hu; [by right|].
  apply lookup_insert_Some in Hm as [[<- <-]|[_ Hm]]; [left; by left|by right].
Qed.
(** An order that was not known is stored with the data of its event. *)
Lemma indexed_order_rows db events db' m event uid :
  insert_events keccak256 domain_separator settlement_contract svc db events = Ok db' -> placed_events events ->
  mkEvent (Some m) (Placed event) ∈ events -> indexed_order keccak256 domain_separator event = Some (uid, event_sender event) ->
  orders db !! uid = None ->
  exists t d w sch q v,
    extract_order_data_from_onchain_order_placement_event keccak256 domain_separator event = Ok (d, w, sch, uid) /\
    convert_to_quote_id_and_user_valid_to event = Ok (q, v) /\
    orders db' !! uid = Some (placed_order_row settlement_contract event t d sch w) /\
    ethflow_orders (indexed db') !! uid = Some v.
Proof.
  intros Hins Hp Hin Hio Hnew. unfold insert_events in Hins.
  apply rbind_Ok in Hins as (is_ & _ & (uids & _ & (xs & Hx & [= <-])%rbind_Ok)%rbind_Ok).
  assert (Hof : forall x, x ∈ xs -> (extracted_order x).1 = uid -> exists t d w sch v, extracted_as x m event t d w sch v).
  { intros x Hxin Hu. destruct (extracted_event _ _ _ Hp Hx Hxin) as (m' & event' & t & d & w & sch & v & Hin' & _ & Has).
    assert (Heq : mkEvent (Some m) (Placed event) = mkEvent (Some m') (Placed event')); [|injection Heq as <- <-; by exists t, d, w, sch, v].
    destruct Hp as (_ & _ & Hk). eapply (NoDup_omap_inj _ _ _ _ (true, uid) Hk Hin Hin'); cbn; [by rewrite Hio|].
    destruct Has as [H1 [q H2] _ _ _ _ _]. unfold indexed_order. rewrite H1, H2. cbn. by rewrite Hu. }
  assert (Hlive : (uid, (ContractEvents.meta_to_event_index m, event_sender event)) ∈ omap live_row events).
  { apply list_elem_of_omap. eexists. split; [exact Hin|]. unfold OnchainOrders.live_row. cbn. by rewrite Hio. }
  apply (extracted_live _ _ _ _ _ Hp Hx) in Hlive as (x & Hxin & Hu & _).
  destruct (extracted_event _ _ _ Hp Hx Hxin) as (_ & _ & _ & _ & _ & _ & _ & _ & _ & [_ _ _ _ Hu' _ _]). rewrite Hu in Hu'.
  destruct (write_written (now svc) db uids xs) as [W1 _ _ _]. destruct (ethflow_write (now svc) db uids xs) as [W4 _].
  assert (Ho : is_Some (orders (write (now svc) db uids xs) !! uid)).
  { rewrite W1. apply (foldl_dom fst).
    - intros mm o. unfold insert_missing, insert_new. destruct (mm !! o.1) eqn:Hm; [|by rewrite dom_insert_L].
      apply set_eq. intros k. rewrite elem_of_union, elem_of_singleton, elem_of_dom. naive_solver.
    - left. rewrite map_map, Hu'. by apply (list_elem_of_fmap_2 (fun x => (extracted_order x).1)). }
  assert (He : is_Some (ethflow_orders (indexed (write (now svc) db uids xs)) !! uid)).
  { rewrite W4. apply (foldl_dom fst); [intros; by rewrite dom_insert_L|]. left. rewrite map_map.
    apply list_elem_of_fmap. exists x. split; [|done]. destruct (Hof x Hxin (eq_sym Hu')) as (t & d & w & sch & v & Has).
    rewrite (as_custom _ _ _ _ _ _ _ _ Has). cbn. done. }
  destruct Ho as [row Hrow], He as [v Hv].
  pose proof Hrow as Hrow'. rewrite W1 in Hrow'. apply insert_missing_elem in Hrow' as [(y & Hy & Hyin)%list_elem_of_fmap|Hold];
    [|by rewrite Hnew in Hold].
  destruct (Hof y Hyin) as (t & d & w & sch & v1 & Has); [by rewrite <- Hy|].
  destruct (Hof x Hxin (eq_sym Hu')) as (tx & dx & wx & schx & vx & Hax).
  assert (Hpl : (uid, vx) ∈ map (fun x => eth_order_placement (custom x)) xs).
  { apply list_elem_of_fmap. exists x. split; [|done]. by rewrite (as_custom _ _ _ _ _ _ _ _ Hax), <- Hu'. }
  pose proof Hv as Hv'. rewrite W4 in Hv'.
  destruct (foldl_upsert_last fst snd _ _ (uid, vx) v Hpl Hv') as (pl & (z & -> & Hzin)%list_elem_of_fmap & Hz & ->).
  assert (Hzu : (extracted_order z).1 = uid).
  { destruct (extracted_event _ _ _ Hp Hx Hzin) as (? & ? & ? & ? & ? & ? & ? & _ & _ & Haz).
    rewrite (as_custom _ _ _ _ _ _ _ _ Haz) in Hz. exact Hz. }
  destruct (Hof z Hzin Hzu) as (t' & d' & w' & sch' & v' & Haz).
  destruct Has as [A1 [q A2] A3 _ _ _ _], Haz as [Z1 [q' Z2] _ _ _ _ Z7]. rewrite A2 in Z2. injection Z2 as <- <-.
  rewrite <- Hy in A1, A3. cbn in A1, A3. exists t, d, w, sch, q, v1. rewrite Hrow, A3. rewrite Z7 in Hv. by rewrite Hv.
Qed.

#[export] Instance holds_events_perm db : Proper ((≡ₚ) ==> iff) (holds keccak256 domain_separator db).
Proof.
  intros l l' Hl. assert (Hf : follows db l <-> follows db l').
  { split; intros [H1 H2]; split; intros; (etrans; [apply H1 || apply H2|]); by rewrite Hl. }
  unfold holds. rewrite Hf. split; (intros [Hp ?]; split; [|done]);
    (eapply (@placed_perm _ (onchain_order_key keccak256 domain_separator)); [|exact Hp]); done.
Qed.
Definition onchain_storing : EventStoring ContractEvent Db := storing keccak256 domain_separator settlement_contract svc.
#[export] Instance onchain_laws :
  @EventStoringLaws _ _ onchain_storing (onchain_order_key keccak256 domain_separator) (holds keccak256 domain_separator).
Proof.
  split; [apply _|..].
  - intros db l events range [Hp Hf] Hpl. cbn. unfold replace_events, commit.
    destruct (insert_events _ _ _ svc _ events) as [db'| |] eqn:Hi; [|done..]. split; [done|].
    eapply insert_events_follows; [exact Hi|done|]. by apply delete_events_follows.
  - intros db l events [Hp Hf] Hpl. cbn. unfold append_events, commit.
    destruct (insert_events _ _ _ svc _ events) as [db'| |] eqn:Hi; [|done..]. split; [done|].
    by eapply insert_events_follows.
Qed.
End laws.

(** ** What the rows say of the chain, and what the queries see *)
Lemma live_row_event keccak256 domain_separator l uid b li s :
  placed_events keccak256 domain_separator l ->
  (uid, ((b, Z.of_N li), s)) ∈ omap (live_row keccak256 domain_separator) l <->
  exists event, mkEvent (Some (b, li)) (Placed event) ∈ l /\ indexed_order keccak256 domain_separator event = Some (uid, s).
Proof.
  intros (Hfit & _). rewrite list_elem_of_omap. split.
  - intros (e & He & Hr). destruct (Forall_elem _ _ _ Hfit He) as (m & Hm & Hf). destruct e as [me d]. cbn in Hm. subst me.
    unfold live_row in Hr. cbn in Hr. destruct d as [event|]; [|done].
    destruct (indexed_order keccak256 domain_separator event) as [[u w]|] eqn:Ho; [|done]. cbn in Hr.
    rewrite index_fits in Hr by done. injection Hr as -> Hb Hli ->. destruct m as [b' li']. cbn in *.
    exists event. split; [|done]. subst. by assert (li' = li) as <- by lia.
  - intros (event & He & Ho). eexists. split; [exact He|]. destruct (Forall_elem _ _ _ Hfit He) as (m & [= <-] & Hf).
    unfold live_row. cbn. by rewrite Ho, index_fits.
Qed.
Lemma invalid_row_event keccak256 domain_separator l uid b li :
  placed_events keccak256 domain_separator l ->
  (uid, (b, Z.of_N li)) ∈ omap invalid_row l <->
  exists bytes, mkEvent (Some (b, li)) (Invalidated bytes) ∈ l /\ ContractEvents.bytes_to_order_uid bytes = Ok uid.
Proof.
  intros (Hfit & _). rewrite list_elem_of_omap. split.
  - intros (e & He & Hr). destruct (Forall_elem _ _ _ Hfit He) as (m & Hm & Hf). destruct e as [me d]. cbn in Hm. subst me.
    unfold invalid_row in Hr. cbn in Hr. destruct d as [|bytes]; [done|].
    destruct (ContractEvents.bytes_to_order_uid bytes) as [u| |] eqn:Ho; [|done..].
    rewrite index_fits in Hr by done. injection Hr as -> Hb Hli. destruct m as [b' li']. cbn in *.
    exists bytes. split; [|done]. subst. by assert (li' = li) as <- by lia.
  - intros (bytes & He & Ho). eexists. split; [exact He|]. destruct (Forall_elem _ _ _ Hfit He) as (m & [= <-] & Hf).
    unfold invalid_row. cbn. by rewrite Ho, index_fits.
Qed.
Lemma wraps_interactions db uid : wraps (interaction_rows db) uid -> wrap_all (OrderUid.owner uid) ∈ interactions_of db uid Pre.
Proof.
  intros Hw. unfold interactions_of. rewrite merge_sort_Permutation.
  apply (list_elem_of_fmap_2 snd _ (uid, wrap_all (OrderUid.owner uid))). by apply list_elem_of_filter.
Qed.
Lemma insert_nothing {S} `{OrderQuoting.Quoting S} keccak256 domain_separator settlement_contract (svc : Services S) db :
  insert_events keccak256 domain_separator settlement_contract svc db [] = Ok db.
Proof.
  unfold insert_events, extract_custom_and_general_order_data, parse_general_onchain_order_placement_data. cbn.
  assert (Hb : buffer_unordered svc [] = []) by (apply Permutation_nil_r, buffer_unordered_all). rewrite Hb. cbn. by destruct db.
Qed.
Lemma full_orders_marked db from : full_orders (mark_as_reorged db from) = full_orders db.
Proof.
  unfold full_orders. apply map_ext. intros [uid row]. unfold full_order. cbn. rewrite lookup_fmap.
  destruct (onchain_placed_orders (indexed db) !! uid) as [p|]; [|done]. cbn. unfold reorged. by destruct (_ <=? _).
Qed.

(** * Properties *)
Section properties.
Context (keccak256 : list byte -> list byte) (domain_separator : list byte) (settlement_contract : Z).
Context {S : Type} `{OrderQuoting.Quoting S}.

(** C13: the on-chain orders of the database follow the chain: after an update of
    the event handler succeeds, the rows that are not marked as reorganized are
    those of the orders the contract placed on the new chain, at their place and
    with their sender, and the invalidations are those of the new chain, through
    reorganizations (or, when the node fell back to a part of the old chain,
    nothing changed). The contract is trusted to place and invalidate an order at
    most once. *)
Theorem onchain_orders_follow_chain (svc : Services S) (ev : Z -> list (Event ContractEvent)) n
    (h h' : @EventHandling.EventHandler Db) old new
    (storage := onchain_storing keccak256 domain_separator settlement_contract svc)
    (key := onchain_order_key keccak256 domain_separator) :
  @good_chain _ key ev old -> @good_chain _ key ev new -> linked old new -> node_of ev n new ->
  take (length old - 65) old = take (length old - 65) new ->
  synced (holds keccak256 domain_separator) ev h old -> resumable h old new ->
  @EventHandling.update_events _ _ storage n h = (h', Ok tt) ->
  (h' = h /\ new `prefix_of` old) \/
  (let db := EventHandling.store h' in
   (forall uid b li sender, live db uid = Some ((b, Z.of_N li), sender) <->
     exists event, mkEvent (Some (b, li)) (Placed event) ∈ events_of ev new /\
       indexed_order keccak256 domain_separator event = Some (uid, sender)) /\
   (forall uid b li, onchain_order_invalidations (indexed db) !! uid = Some (b, Z.of_N li) <->
     exists bytes, mkEvent (Some (b, li)) (Invalidated bytes) ∈ events_of ev new /\
       ContractEvents.bytes_to_order_uid bytes = Ok uid)).
Proof.
  intros Ho Hn Hl Hnode Hr Hs Hres Hu.
  destruct (@update_events_spec _ _ storage key (holds keccak256 domain_separator) _ ev n h h' old new (Ok tt)
    Ho Hn Hl Hnode Hr Hs Hres Hu) as (_ & Hok & _).
  destruct (Hok eq_refl) as [[[Hp [H1 H2]] _ _]|?]; [right|by left]. split.
  - intros uid b li s. rewrite H1. by apply live_row_event.
  - intros uid b li. rewrite H2. by eapply invalid_row_event.
Qed.



(** Marking orders as reorganized withdraws nothing: when blocks are replaced by
    blocks without events, the orders that were placed in the old blocks are as
    solvable as before; all that changes is that invalidations in those blocks no
    longer count. *)
Theorem reorganized_orders_stay_solvable (svc : Services S) (db : Db) (range : CurrentBlock.RangeInclusive) (min_valid_to : Z) :
  let '(db', ok) := replace_events keccak256 domain_separator settlement_contract svc db [] range in
  ok = true /\
  solvable_orders db' min_valid_to =
  solvable_orders (delete_invalidations db (Z.min (CurrentBlock.start range) I64_MAX)) min_valid_to.
Proof.
  unfold replace_events. rewrite insert_nothing. cbn [commit]. split; [done|]. unfold delete_events, solvable_orders.
  set (from := Z.min _ _). change (full_orders (delete_invalidations (mark_as_reorged db from) from))
    with (full_orders (mark_as_reorged (delete_invalidations db from) from)).
  by rewrite full_orders_marked.
Qed.
End properties.

(** * Witnesses *)
Section witnesses.
Import OrderQuoting.
(** A quoter with one quote, and the order it is for, at several validities. *)
Let fee_parameters : Fee.FeeParameters := Fee.mkFeeParameters (F64.of_Z 100) (F64.of_Z 2) (F64.of_Z 1).
Let one_quote : OrderQuoting.Quote :=
  mkQuote (Some 5) (mkQuoteData 10 11 1000 900 fee_parameters Sell 0 Eip1271OnchainOrder 77 false) 1000 900 0.
#[local] Instance quoting : Quoting unit := {|
  quoting_calculate _ _ := Err CalculateOther;
  quoting_store _ _ := Err tt;
  quoting_find _ i _ := if decide (i = Some 5) then Ok one_quote else Err (NotFound i);
|}.
Let svc : Services unit := mkServices tt (fun block => Ok (1000 + block)) 2000 (@rev _) (fun l => symmetry (Permutation_rev l)).
Let order (valid_to quote : Z) : OrderPlacement :=
  mkOrderPlacement 40
    (mkContractOrder 10 11 50 1000 900 valid_to (be_bytes 32 7) 0 (kind_bytes Sell) false
       (sell_token_source_bytes SellErc20) (buy_token_destination_bytes BuyErc20))
    (0, be_bytes 20 30) (be_bytes 8 quote ++ be_bytes 4 600).
Let at_ (block : Z) (i : N) (d : ContractEvent) : Event ContractEvent := mkEvent (Some (block, i)) d.
Let order_uid_of (valid_to : Z) : Z := default 0 (fst <$> indexed_order (take 32) [] (order valid_to 5)).
Let invalidation (valid_to : Z) : ContractEvent := Invalidated (be_bytes 56 (order_uid_of valid_to)).
Let no_orders : Db := mkDb ∅ [] ∅ [] ∅ (mkIndexed ∅ ∅ ∅ ∅ ∅ ∅ ∅ ∅ ∅ ∅).
Abbreviation append := (append_events (take 32) [] 3 svc).

(** A batch with an order that has a quote, one without, and one that cannot be read. *)
Let unreadable : OrderPlacement :=
  mkOrderPlacement 40 (mkContractOrder 10 11 50 1000 900 3 [] 0 [] false [] []) (1, []) (be_bytes 12 0).
Let batch : list (Event ContractEvent) :=
  [at_ 1 0 (Placed (order 100 5)); at_ 1 1 (Placed (order 200 6)); at_ 2 0 (Placed unreadable); at_ 2 1 (invalidation 100)].
Example batch_is_indexed :
  let '(db, ok) := append no_orders batch in
  (ok, size (orders db), live db (order_uid_of 100),
   (fun p => placement_error p) <$> onchain_placed_orders (indexed db) !! order_uid_of 200,
   size (order_quotes db), ethflow_orders (indexed db) !! order_uid_of 200,
   onchain_order_invalidations (indexed db) !! order_uid_of 100) =
  (true, 2%nat, Some ((1, 0), 40), Some (Some PlacementQuoteNotFound), 1%nat, Some 600, Some (2, 1)).
Proof. vm_compute. reflexivity. Qed.

Let backed_ops : list (@OnchainOp unit) :=
  [Appended svc [at_ 1 0 (Placed (order 100 5))]; Replaced svc [at_ 1 0 (Placed (order 200 6))] (CurrentBlock.mkRange 1 1)].
Abbreviation backed_db := (onchain_ops (take 32) [] 3 no_orders backed_ops).
Lemma backed_order_offered : exists row, orders backed_db !! order_uid_of 100 = Some row /\
  full_order backed_db (order_uid_of 100) row ∈ solvable_orders backed_db 50 /\
  full_onchain_user (full_order backed_db (order_uid_of 100) row) = Some 40.
Proof.
  assert (Hb : from_option (fun row => is_open backed_db 50 (full_order backed_db (order_uid_of 100) row)) false
    (orders backed_db !! order_uid_of 100) = true) by (vm_compute; reflexivity).
  assert (Hu : placement_sender <$> onchain_placed_orders (indexed backed_db) !! order_uid_of 100 = Some 40) by (vm_compute; reflexivity).
  revert Hb Hu. generalize (order_uid_of 100). generalize backed_db. intros db uid Hb Hu.
  destruct (orders db !! uid) as [row|] eqn:Hr; [|discriminate Hb]. exists row. split; [done|]. split; [|exact Hu].
  apply list_elem_of_In, filter_In. split; [|exact Hb]. apply list_elem_of_In.
  apply (list_elem_of_fmap_2 (fun '(uid, row) => full_order db uid row) _ (uid, row)). by apply elem_of_map_to_list.
Qed.


(** The chain of the tables, and one that replaces its last block *)
Let old : list CurrentBlock.BlockNumberHash := [(0, 10); (1, 11); (2, 12)].
Let new : list CurrentBlock.BlockNumberHash := [(0, 10); (1, 11); (2, 22); (3, 23)].
Let ev (h : Z) : list (Event ContractEvent) :=
  if h =? 11 then [at_ 1 0 (Placed (order 100 5)); at_ 1 1 (Placed unreadable)]
  else if h =? 12 then [at_ 2 0 (Placed (order 200 5)); at_ 2 3 (invalidation 100)]
  else if h =? 23 then [at_ 3 0 (Placed (order 300 6)); at_ 3 1 (invalidation 300)] else [].
Let range_answer (r : CurrentBlock.RangeInclusive) : bool := (0 <=? CurrentBlock.start r) && (CurrentBlock.end_ r <? 4).
Let n : @EventHandling.node ContractEvent := {|
  EventHandling.current_block := Some (CurrentBlock.mkBlockInfo 3 23 22);
  EventHandling.blocks r := if range_answer r then Some (slice new r) else None;
  EventHandling.block_events h := Some (ev h);
  EventHandling.range_events r := if range_answer r then Some (map Some (events_of ev (slice new r))) else None;
|}.
Let handler : @EventHandling.EventHandler Db :=
  EventHandling.mkEventHandler (append no_orders (events_of ev old)).1 [(1, 11); (2, 12)].
#[local] Instance key : EventKey ContractEvent := onchain_order_key (take 32) [].
#[local] Instance storage : EventStoring ContractEvent Db := onchain_storing (take 32) [] 3 svc.

Lemma onchain_chains_good : good_chain ev old /\ good_chain ev new /\ linked old new.
Proof.
  split_and!; [split|split|].
  4, 8: apply (bool_decide_eq_true_1 (NoDup (A := bool * Z) _)); vm_compute; reflexivity.
  1, 4: intros [|[|[|[|i]]]] b Hb; first [discriminate Hb|by injection Hb as <-].
  1, 3: intros b Hb; repeat (apply elem_of_cons in Hb as [->|Hb];
    [repeat (constructor; [eexists; split; [reflexivity|repeat split; closed]|]); constructor|]); by apply elem_of_nil in Hb.
  1, 2: apply (bool_decide_eq_true_1 _); vm_compute; reflexivity.
  intros [|[|[|i]]] [|[|[|[|j]]]] bi bj Hi Hj Heq; try discriminate Hi; try discriminate Hj; injection Hi as <-;
    injection Hj as <-; first [discriminate Heq|done].
Qed.
Lemma onchain_node_of : node_of ev n new.
Proof.
  assert (Ha : forall r, range_answer r = true -> CurrentBlock.end_ r < 4)
    by (unfold range_answer; intros r Hr; bool_to_prop; lia).
  split.
  - intros info [= <-]. by exists [(0, 10); (1, 11)], (2, 22), (3, 23).
  - intros r bs Hr _. cbn in Hr. destruct (range_answer r) eqn:Hra; [|done]. injection Hr as <-. split; [by apply Ha|done].
  - by intros b es [= <-].
  - intros r items Hr. cbn in Hr. destruct (range_answer r); [|done]. injection Hr as <-.
    exists (events_of ev (slice new r)), []. rewrite app_nil_r. by split_and!.
Qed.
Lemma onchain_synced : synced (holds (take 32) []) ev handler old.
Proof.
  split; [|by exists [(0, 10)]|cbn; lia].
  assert (Hl : holds (take 32) [] no_orders []).
  { split; [split_and!; constructor|]. split; cbn; intros u v; (split; [done|intros []%not_elem_of_nil]). }
  pose proof (append_spec no_orders [] (events_of ev old) Hl (good_placed ev old (proj1 onchain_chains_good))) as H.
  assert (Hok : (append no_orders (events_of ev old)).2 = true) by (vm_compute; reflexivity).
  change (EventHandling.append_events no_orders (events_of ev old)) with (append no_orders (events_of ev old)) in H.
  unfold handler. cbn [EventHandling.store]. destruct (append no_orders (events_of ev old)) as [db ok]. cbn in Hok. by subst ok.
Qed.

Lemma onchain_orders_follow_chain_witness : exists h',
  EventHandling.update_events n handler = (h', Ok tt) /\
  live (EventHandling.store h') (order_uid_of 100) = Some ((1, 0), 40) /\
  live (EventHandling.store h') (order_uid_of 300) = Some ((3, 0), 40) /\
  onchain_order_invalidations (indexed (EventHandling.store h')) !! order_uid_of 300 = Some (3, 1).
Proof.
  destruct (EventHandling.update_events n handler) as [h' r] eqn:Hu.
  assert (Hr : r = Ok tt) by (apply (f_equal snd) in Hu; vm_compute in Hu; by rewrite <- Hu).
  subst r. exists h'. split; [reflexivity|].
  destruct onchain_chains_good as (H1 & H2 & H3).
  assert (Hres : resumable handler old new) by (left; discriminate).
  assert (Hsame : take (length old - 65) old = take (length old - 65) new) by reflexivity.
  destruct (onchain_orders_follow_chain (take 32) [] 3 svc ev n handler h' old new H1 H2 H3 onchain_node_of Hsame onchain_synced Hres Hu)
    as [[_ Hk]|[Hl Hi]].
  - destruct Hk as [k Hk]. discriminate Hk.
  - split_and!.
    + apply (Hl _ 1 0%N). exists (order 100 5). split; [left|vm_compute; reflexivity].
    + apply (Hl _ 3 0%N). exists (order 300 6). split; [do 2 right; left|vm_compute; reflexivity].
    + apply (Hi _ 3 1%N). eexists. split; [do 3 right; left|vm_compute; reflexivity].
Defined.
End witnesses.
