(* ===== verification/Refunder.v ===== *)
(** The refunder: crates/refunder/src. It refunds the ETH flow orders that
    expired without being traded: the service (refund_service.rs) asks the
    database for them, asks the contract which are still there, and submits
    one transaction (submitter.rs) with the data of the contract's orders
    (ethflow_order.rs).

    The node, the contract and the estimator of gas prices answer through
    parameters; [bump] is that of the crate gas_estimation. The tables are those
    that OnchainOrders.v fills. *)
From Stdlib Require Import ZArith Lia.
From Stdlib Require Import SpecFloat.
From S2P Require Import Prelude U256 Bytes Floats EventHandling ModelOrder OrderQuoting OrderValidation OrderStore.
From S2P Require Import ProtocolFees SettlementIndex OnchainOrders.
From stdpp Require Import prelude gmap numbers.
Import list_basics.list list_relations.list list_monad.list list_misc.list.

Open Scope Z_scope.
Open Scope rust_scope.
Import ModelSignature ModelOrder Database OnchainDb.

(** * ethflow_order.rs *)
Module EthflowOrder.
Record EthflowOrder : Type := mkEthflowOrder {
  ethflow_buy_token : Z;
  ethflow_receiver : Z;
  ethflow_sell_amount : Z;
  ethflow_buy_amount : Z;
  ethflow_app_data : list byte;
  ethflow_fee_amount : Z;
  ethflow_valid_to : Z;
  ethflow_partially_fillable : bool;
  ethflow_quote_id : Z;
}.
(** An order without a receiver, and an amount that is no [U256], panic. *)
Definition order_to_ethflow_data (order : OrderRow) (ethflow_order_placement : EthOrderData) : res unit EthflowOrder :=
  let* receiver := opt_expect (row_receiver order) in
  let* sell_amount := opt_expect (OrderStoring.big_decimal_to_u256 (row_sell_amount order)) in
  let* buy_amount := opt_expect (OrderStoring.big_decimal_to_u256 (row_buy_amount order)) in
  let* fee_amount := opt_expect (OrderStoring.big_decimal_to_u256 (row_fee_amount order)) in
  Ok (mkEthflowOrder (row_buy_token order) receiver sell_amount buy_amount (row_app_data order) fee_amount
        (eth_valid_to ethflow_order_placement mod 2 ^ 32) (row_partially_fillable order) 0).
End EthflowOrder.
Import EthflowEvents EthflowOrder.

(** * submitter.rs *)
Module Submitter.
Record GasPrice1559 : Type := mkGasPrice1559 {
  base_fee_per_gas : F64.f64;
  max_fee_per_gas : F64.f64;
  max_priority_fee_per_gas : F64.f64;
}.
Record Submitter : Type := mkSubmitter {
  gas_parameters_of_last_tx : option GasPrice1559;
  nonce_of_last_submission : option Z;
}.
(** The call that is signed and sent; its outcome is only logged. *)
Record RefundTx : Type := mkRefundTx { tx_orders : list EthflowOrder; tx_gas_price : GasPrice1559; tx_nonce : Z }.

Definition MAX_GAS_PRICE : Z := 800000000000.
Definition START_PRIORITY_FEE_TIP : Z := 2000000000.
(** 1.3 and 1.125 *)
Definition GAS_PRICE_BUFFER_FACTOR : F64.f64 := F64.div (F64.of_Z 13) (F64.of_Z 10).
Definition GAS_PRICE_BUMP : F64.f64 := F64.div (F64.of_Z 9) (F64.of_Z 8).

Section submitter.
Context (bump : GasPrice1559 -> F64.f64 -> GasPrice1559).
Definition calculate_submission_gas_price (gas_price_of_last_submission : option GasPrice1559)
    (web3_gas_estimation : GasPrice1559) (newest_nonce : Z) (nonce_of_last_submission : option Z) : GasPrice1559 :=
  let price := bump web3_gas_estimation GAS_PRICE_BUFFER_FACTOR in
  let max_fee := max_fee_per_gas price in
  let tip := FeeFactor.fmin (F64.of_Z START_PRIORITY_FEE_TIP) max_fee in
  let '(max_fee, tip) :=
    match gas_price_of_last_submission with
    | Some last =>
        if decide (Some newest_nonce = nonce_of_last_submission) then
          let last := bump last GAS_PRICE_BUMP in
          (FeeFactor.fmax max_fee (max_fee_per_gas last), FeeFactor.fmax tip (max_priority_fee_per_gas last))
        else (max_fee, tip)
    | None => (max_fee, tip)
    end in
  let max_fee :=
    if F64.ltb (F64.of_Z MAX_GAS_PRICE) max_fee then FeeFactor.fmin (F64.of_Z MAX_GAS_PRICE) max_fee else max_fee in
  mkGasPrice1559 (base_fee_per_gas price) max_fee (FeeFactor.fmin tip max_fee).
(** The estimate and the nonce of the latest block *)
Definition submit (estimate : res unit GasPrice1559) (transaction_count : res unit Z)
    (encoded_ethflow_orders : list EthflowOrder) : st Submitter unit RefundTx := fun self =>
  match (let* gas_price_estimation := estimate in
         let* nonce := transaction_count in
         Ok (calculate_submission_gas_price (gas_parameters_of_last_tx self) gas_price_estimation nonce
               (nonce_of_last_submission self), nonce)) with
  | Ok (gas_price, nonce) => (mkSubmitter (Some gas_price) (Some nonce), Ok (mkRefundTx encoded_ethflow_orders gas_price nonce))
  | Err e => (self, Err e)
  | Panic => (self, Panic)
  end.
End submitter.
End Submitter.
Import Submitter.

(** * refund_service.rs *)
Module RefundService.
Definition NO_OWNER : Z := 0.
Definition INVALIDATED_OWNER : Z := 2 ^ 160 - 1.
Definition MAX_NUMBER_OF_UIDS_PER_REFUND_TX : nat := 30.
Inductive RefundStatus : Type := Refunded | NotYetRefunded | Invalid.
Record RefundService : Type := mkRefundService { min_validity_duration : Z; min_slippage : F64.f64 }.
Definition new (min_validity_duration min_slippage_bps : Z) : RefundService :=
  mkRefundService min_validity_duration (F64.div (F64.of_Z min_slippage_bps) (F64.of_Z 10000)).

(** What the node and the contract answer in an iteration of the loop, and the
    order in which the futures of [buffer_unordered] complete. *)
Record Web3 : Type := mkWeb3 {
  timestamp_of_current_block_in_seconds : res unit Z;
  contract_orders : list byte -> res unit Z;
  estimate : res unit GasPrice1559;
  transaction_count : res unit Z;
  buffer_unordered : list (res unit EthflowOrder) -> list (res unit EthflowOrder);
  buffer_unordered_all l : buffer_unordered l ≡ₚ l;
}.

Section service.
Context (bump : GasPrice1559 -> F64.f64 -> GasPrice1559) (slippage_reached : Z -> Z -> F64.f64 -> bool).
Definition get_refundable_ethflow_orders_from_db (self : RefundService) (web3 : Web3) (db : Db) : res unit (list (Z * Z)) :=
  let* block_time := timestamp_of_current_block_in_seconds web3 in
  Ok (refundable_orders slippage_reached block_time (min_validity_duration self) (min_slippage self) db).
Definition refund_status (order_owner : Z) : RefundStatus :=
  if order_owner =? INVALIDATED_OWNER then Refunded else if order_owner =? NO_OWNER then Invalid else NotYetRefunded.
(** A uid starts with the hash by which the contract knows the order; a call that
    fails leaves the order out. *)
Definition uid_status (web3 : Web3) (order : Z * Z) : res unit (option (Z * RefundStatus)) :=
  match contract_orders web3 (take 32 (be_bytes 56 order.1)) with
  | Ok owner => Ok (Some (order.1, refund_status owner))
  | Err _ => Ok None
  | Panic => Panic
  end.
Definition identify_uids_refunding_status_via_web3_calls (web3 : Web3) (refundable_order_uids : list (Z * Z))
  : res unit (list Z) :=
  let* statuses := rmap (uid_status web3) refundable_order_uids in
  Ok (omap (fun s => match s with Some (uid, NotYetRefunded) => Some uid | _ => None end) statuses).
Definition get_ethflow_data_from_db (db : Db) (uid : Z) : res unit EthflowOrder :=
  let* order := opt (orders db !! uid) in
  let* ethflow_order := opt (read_order db uid) in
  order_to_ethflow_data order ethflow_order.
Definition send_out_refunding_tx (web3 : Web3) (db : Db) (uids : list Z) : st Submitter unit (option RefundTx) :=
  match uids with
  | [] => st_lift (Ok None)
  | _ =>
      let uids := take MAX_NUMBER_OF_UIDS_PER_REFUND_TX uids in
      let! encoded_ethflow_orders :=
        st_lift (OnchainOrderEvents.keep_ok (buffer_unordered web3 (map (get_ethflow_data_from_db db) uids))) in
      let! tx := submit bump (estimate web3) (transaction_count web3) encoded_ethflow_orders in
      st_lift (Ok (Some tx))
  end.
(** An iteration: the transaction that is sent, if any. *)
Definition try_to_refund_all_eligble_orders (self : RefundService) (web3 : Web3) (db : Db)
  : st Submitter unit (option RefundTx) :=
  let! refundable_order_uids := st_lift (get_refundable_ethflow_orders_from_db self web3 db) in
  let! to_be_refunded_uids := st_lift (identify_uids_refunding_status_via_web3_calls web3 refundable_order_uids) in
  send_out_refunding_tx web3 db to_be_refunded_uids.
(** The loop of lib.rs, over what it finds in each iteration: an error is
    logged, a panic ends it. *)
Fixpoint run (self : RefundService) (rounds : list (Web3 * Db)) (submitter : Submitter) : Submitter * list RefundTx :=
  match rounds with
  | [] => (submitter, [])
  | (web3, db) :: rounds =>
      match try_to_refund_all_eligble_orders self web3 db submitter with
      | (submitter, Panic) => (submitter, [])
      | (submitter, Ok (Some tx)) => let '(submitter, txs) := run self rounds submitter in (submitter, tx :: txs)
      | (submitter, _) => run self rounds submitter
      end
  end.
End service.
End RefundService.

(** * The order of the floats that are numbers *)
Section floats.
Import FeeFactor.
Implicit Types x y z : F64.f64.
(** Sign and kind, exponent, mantissa: they compare lexicographically. *)
Definition rank x : Z * Z * Z :=
  match x with
  | S754_infinity true => (-2, 0, 0)
  | S754_finite true m e => (-1, - e, Zneg m)
  | S754_zero _ | S754_nan => (0, 0, 0)
  | S754_finite false m e => (1, e, Zpos m)
  | S754_infinity false => (2, 0, 0)
  end.
Definition rank_le (a b : Z * Z * Z) : Prop :=
  a.1.1 < b.1.1 \/ (a.1.1 = b.1.1 /\ (a.1.2 < b.1.2 \/ (a.1.2 = b.1.2 /\ a.2 <= b.2))).

Lemma compare_rank x y : is_nan x = false -> is_nan y = false ->
  match SFcompare x y with
  | Some Lt => rank_le (rank x) (rank y) /\ ~ rank_le (rank y) (rank x)
  | Some Eq => rank_le (rank x) (rank y) /\ rank_le (rank y) (rank x)
  | Some Gt => ~ rank_le (rank x) (rank y) /\ rank_le (rank y) (rank x)
  | None => False
  end.
Proof.
  unfold rank_le. destruct x as [?|[]| |[] m e], y as [?|[]| |[] m' e']; try done; intros _ _; cbn; try lia.
  all: destruct (Z.compare_spec e e') as [->|?|?]; cbn; try lia.
  all: change (Pos.compare_cont Eq m m') with (Pos.compare m m'); destruct (Pos.compare_spec m m') as [->|?|?]; cbn; lia.
Qed.
Lemma leb_rank x y : is_nan x = false -> is_nan y = false -> F64.leb x y = true <-> rank_le (rank x) (rank y).
Proof.
  intros Hx Hy. pose proof (compare_rank x y Hx Hy) as Hc. unfold F64.leb, SFleb.
  destruct (SFcompare x y) as [[]|]; [|..|done]; split; tauto || done.
Qed.
Lemma ltb_rank x y : is_nan x = false -> is_nan y = false -> F64.ltb x y = true <-> ~ rank_le (rank y) (rank x).
Proof.
  intros Hx Hy. pose proof (compare_rank x y Hx Hy) as Hc. unfold F64.ltb, SFltb.
  destruct (SFcompare x y) as [[]|]; [|..|done]; split; tauto || done.
Qed.

Lemma leb_refl x : is_nan x = false -> F64.leb x x = true.
Proof. intros Hx. apply leb_rank; [done..|]. unfold rank_le. lia. Qed.
Lemma leb_trans x y z : is_nan x = false -> is_nan y = false -> is_nan z = false ->
  F64.leb x y = true -> F64.leb y z = true -> F64.leb x z = true.
Proof. intros Hx Hy Hz. rewrite !leb_rank by done. unfold rank_le. lia. Qed.
Lemma not_ltb_leb x y : is_nan x = false -> is_nan y = false -> F64.ltb x y = false -> F64.leb y x = true.
Proof.
  intros Hx Hy Hl. apply leb_rank; [done..|]. apply not_true_iff_false in Hl. rewrite ltb_rank in Hl by done.
  unfold rank_le in *. lia.
Qed.
Lemma ltb_leb x y : is_nan x = false -> is_nan y = false -> F64.ltb x y = true -> F64.leb x y = true.
Proof. intros Hx Hy. rewrite ltb_rank, leb_rank by done. unfold rank_le. lia. Qed.

Lemma fmax_spec x y (m := fmax x y) : is_nan x = false -> is_nan y = false ->
  is_nan m = false /\ F64.leb x m = true /\ F64.leb y m = true.
Proof.
  intros Hx Hy. unfold m, fmax. rewrite Hx, Hy. destruct (F64.ltb x y) eqn:Hl.
  - split_and!; [done|by apply ltb_leb|by apply leb_refl].
  - split_and!; [done|by apply leb_refl|by apply not_ltb_leb].
Qed.
Lemma fmin_spec x y (m := fmin x y) : is_nan x = false -> is_nan y = false ->
  is_nan m = false /\ F64.leb m x = true /\ F64.leb m y = true /\ (m = x \/ m = y).
Proof.
  intros Hx Hy. unfold m, fmin. rewrite Hx, Hy. destruct (F64.ltb y x) eqn:Hl.
  - split_and!; [done|by apply ltb_leb|by apply leb_refl|by right].
  - split_and!; [done|by apply leb_refl|by apply not_ltb_leb|by left].
Qed.
End floats.

(** * Gas prices *)
Section gas.
Import FeeFactor.
Context (bump : GasPrice1559 -> F64.f64 -> GasPrice1559).
(** The fees are numbers. *)
Definition numeric (p : GasPrice1559) : Prop :=
  is_nan (max_fee_per_gas p) = false /\ is_nan (max_priority_fee_per_gas p) = false.
Definition within_cap (p : GasPrice1559) : Prop :=
  F64.leb (max_priority_fee_per_gas p) (max_fee_per_gas p) = true /\
  F64.leb (max_fee_per_gas p) (F64.of_Z MAX_GAS_PRICE) = true.
(** Both fees are raised by the factor, as far as the cap allows. *)
Definition outbids (p last : GasPrice1559) : Prop :=
  F64.leb (fmin (F64.of_Z MAX_GAS_PRICE) (max_fee_per_gas (bump last GAS_PRICE_BUMP))) (max_fee_per_gas p) = true /\
  F64.leb (fmin (max_priority_fee_per_gas (bump last GAS_PRICE_BUMP)) (max_fee_per_gas p)) (max_priority_fee_per_gas p) = true.
Context (Hbump : forall p factor, factor ∈ [GAS_PRICE_BUFFER_FACTOR; GAS_PRICE_BUMP] -> numeric p -> numeric (bump p factor)).

Lemma cap_is_number : is_nan (F64.of_Z MAX_GAS_PRICE) = false.
Proof. reflexivity. Qed.
Lemma start_is_number : is_nan (F64.of_Z START_PRIORITY_FEE_TIP) = false.
Proof. reflexivity. Qed.

(** The fee after the cap: at most the cap, and all of the fee that is below it. *)
Lemma capped_fee fee (capped := if F64.ltb (F64.of_Z MAX_GAS_PRICE) fee then fmin (F64.of_Z MAX_GAS_PRICE) fee else fee) :
  is_nan fee = false ->
  is_nan capped = false /\ F64.leb capped (F64.of_Z MAX_GAS_PRICE) = true /\
  forall y, is_nan y = false -> F64.leb y fee = true -> F64.leb (fmin (F64.of_Z MAX_GAS_PRICE) y) capped = true.
Proof.
  pose proof cap_is_number as Hcap. revert capped. generalize dependent (F64.of_Z MAX_GAS_PRICE). intros cap Hcap capped Hf.
  unfold capped. destruct (F64.ltb cap fee) eqn:Hl.
  - destruct (fmin_spec cap fee Hcap Hf) as (H1 & H2 & H3 & H4). split_and!; [done..|]. intros y Hy Hle.
    destruct (fmin_spec cap y Hcap Hy) as (K1 & K2 & K3 & _). destruct H4 as [-> | ->]; [done|by apply (leb_trans _ y)].
  - split_and!; [done|by apply not_ltb_leb|]. intros y Hy Hle. destruct (fmin_spec cap y Hcap Hy) as (K1 & K2 & K3 & _).
    by apply (leb_trans _ y).
Qed.
Lemma submission_gas_price last est nonce last_nonce
    (p := calculate_submission_gas_price bump last est nonce last_nonce) :
  numeric est -> (forall l, last = Some l -> numeric l) ->
  numeric p /\ within_cap p /\ (forall l, last = Some l -> last_nonce = Some nonce -> outbids p l).
Proof.
  assert (H1 : GAS_PRICE_BUFFER_FACTOR ∈ [GAS_PRICE_BUFFER_FACTOR; GAS_PRICE_BUMP]) by left.
  assert (H2 : GAS_PRICE_BUMP ∈ [GAS_PRICE_BUFFER_FACTOR; GAS_PRICE_BUMP]) by (right; left).
  intros [He1 He2]%(Hbump _ _ H1) Hlast. subst p. unfold calculate_submission_gas_price.
  set (price := bump est GAS_PRICE_BUFFER_FACTOR) in *.
  destruct (fmin_spec (F64.of_Z START_PRIORITY_FEE_TIP) (max_fee_per_gas price) start_is_number He1) as (Ht1 & _).
  set (tip := fmin (F64.of_Z START_PRIORITY_FEE_TIP) (max_fee_per_gas price)) in *.
  (* the fees before the cap *)
  assert (Hraised : forall fee tip', is_nan fee = false -> is_nan tip' = false ->
    (forall l, last = Some l -> last_nonce = Some nonce ->
      F64.leb (max_fee_per_gas (bump l GAS_PRICE_BUMP)) fee = true /\
      F64.leb (max_priority_fee_per_gas (bump l GAS_PRICE_BUMP)) tip' = true) ->
    let max_fee := if F64.ltb (F64.of_Z MAX_GAS_PRICE) fee then fmin (F64.of_Z MAX_GAS_PRICE) fee else fee in
    let r := mkGasPrice1559 (base_fee_per_gas price) max_fee (fmin tip' max_fee) in
    numeric r /\ within_cap r /\ (forall l, last = Some l -> last_nonce = Some nonce -> outbids r l)).
  { intros fee tip' Hf Ht Hr. destruct (capped_fee fee Hf) as (C1 & C2 & C3). cbn zeta.
    set (max_fee := if F64.ltb _ fee then _ else fee) in *.
    destruct (fmin_spec tip' max_fee Ht C1) as (M1 & M2 & M3 & M4). unfold numeric, within_cap, outbids. cbn.
    split_and!; [done..|]. intros l Hl Hn. destruct (Hr l Hl Hn) as [R1 R2].
    destruct (Hbump l _ H2 (Hlast l Hl)) as [B1 B2]. split; [by apply C3|].
    destruct (fmin_spec (max_priority_fee_per_gas (bump l GAS_PRICE_BUMP)) max_fee B2 C1) as (K1 & K2 & K3 & _).
    destruct M4 as [-> | ->]; [by apply (leb_trans _ (max_priority_fee_per_gas (bump l GAS_PRICE_BUMP)))|done]. }
  destruct last as [l|]; [|by apply Hraised].
  case_decide as Hn; [|apply Hraised; [done..|by intros l' _ Hn'; rewrite Hn' in Hn]].
  destruct (Hbump l _ H2 (Hlast l eq_refl)) as [B1 B2].
  destruct (fmax_spec (max_fee_per_gas price) (max_fee_per_gas (bump l GAS_PRICE_BUMP)) He1 B1) as (F1 & _ & F3).
  destruct (fmax_spec tip (max_priority_fee_per_gas (bump l GAS_PRICE_BUMP)) Ht1 B2) as (T1 & _ & T3).
  apply Hraised; [done..|]. intros l' [= <-] _. done.
Qed.
End gas.

(** * An iteration of the loop *)
Section iteration.
Import RefundService.
Context (bump : GasPrice1559 -> F64.f64 -> GasPrice1559) (slippage_reached : Z -> Z -> F64.f64 -> bool).
Abbreviation try_to_refund := (try_to_refund_all_eligble_orders bump slippage_reached).

(** The orders that the service tries to refund, in order. *)
Lemma try_to_refund_Ok self web3 db s s' r : try_to_refund self web3 db s = (s', Ok r) ->
  exists now uids, timestamp_of_current_block_in_seconds web3 = Ok now /\
    identify_uids_refunding_status_via_web3_calls web3
      (refundable_orders slippage_reached now (min_validity_duration self) (min_slippage self) db) = Ok uids /\
    match r with
    | None => uids = [] /\ s' = s
    | Some tx => exists orders est nonce, uids <> [] /\
        OnchainOrderEvents.keep_ok (buffer_unordered web3
          (map (get_ethflow_data_from_db db) (take MAX_NUMBER_OF_UIDS_PER_REFUND_TX uids))) = Ok orders /\
        estimate web3 = Ok est /\ transaction_count web3 = Ok nonce /\
        tx = mkRefundTx orders
          (calculate_submission_gas_price bump (gas_parameters_of_last_tx s) est nonce (nonce_of_last_submission s)) nonce /\
        s' = mkSubmitter (Some (tx_gas_price tx)) (Some nonce)
    end.
Proof.
  unfold try_to_refund_all_eligble_orders. intros (s1 & l & [-> Hl]%st_lift_Ok & H)%st_bind_Ok.
  unfold get_refundable_ethflow_orders_from_db in Hl. apply rbind_Ok in Hl as (now & Hnow & [= <-]).
  apply st_bind_Ok in H as (s2 & uids & [-> Hu]%st_lift_Ok & H). exists now, uids. split; [done|]. split; [done|].
  unfold send_out_refunding_tx in H. destruct uids as [|uid uids].
  { apply st_lift_Ok in H as [-> [= <-]]. done. }
  apply st_bind_Ok in H as (s3 & orders & [-> Ho]%st_lift_Ok & H).
  apply st_bind_Ok in H as (s4 & tx & Hs & [-> [= <-]]%st_lift_Ok). unfold submit in Hs.
  destruct (estimate web3) as [est| |] eqn:He; [|done..]. cbn [rbind] in Hs.
  destruct (transaction_count web3) as [nonce| |] eqn:Hn; [|done..]. cbn [rbind] in Hs. injection Hs as <- <-.
  by exists orders, est, nonce.
Qed.
Lemma try_to_refund_fails self web3 db s s' r : try_to_refund self web3 db s = (s', r) -> (forall a, r <> Ok a) -> s' = s.
Proof.
  unfold try_to_refund_all_eligble_orders, st_bind, st_lift. intros H Hr.
  destruct (get_refundable_ethflow_orders_from_db _ _ _ _) as [l| |]; [|by injection H..].
  destruct (identify_uids_refunding_status_via_web3_calls _ l) as [uids| |]; [|by injection H..].
  unfold send_out_refunding_tx, st_bind, st_lift, submit in H. destruct uids as [|uid uids]; [by injection H|].
  destruct (OnchainOrderEvents.keep_ok _) as [orders| |]; [|by injection H..].
  destruct (estimate web3) as [est| |]; [|by injection H..]. cbn [rbind] in H.
  destruct (transaction_count web3) as [nonce| |]; [|by injection H..]. cbn [rbind] in H. injection H as _ <-. by edestruct Hr.
Qed.

(** What makes an order due for a refund at the time [now]. *)
Record due (self : RefundService) (web3 : Web3) (db : Db) (now uid : Z) : Prop := {
  due_rows : exists row eth_valid_to quote, orders db !! uid = Some row /\
    ethflow_orders (indexed db) !! uid = Some eth_valid_to /\ order_quotes db !! uid = Some quote /\
    eth_valid_to < now /\ min_validity_duration self < eth_valid_to - creation_timestamp row /\
    row_partially_fillable row = false /\ row_sell_amount row = quote_sell_amount quote /\
    slippage_reached (row_buy_amount row) (Z.max (quote_buy_amount quote) 1) (min_slippage self) = true;
  due_untraded : trades_of db uid = [];
  due_valid : onchain_order_invalidations (indexed db) !! uid = None;
  due_unrefunded : ethflow_refunds (indexed db) !! uid = None;
  due_owned : exists owner, contract_orders web3 (take 32 (be_bytes 56 uid)) = Ok owner /\
    owner <> NO_OWNER /\ owner <> INVALIDATED_OWNER;
}.
Lemma refundable_elem since min_validity slippage db uid v :
  (uid, v) ∈ refundable_orders slippage_reached since min_validity slippage db <->
  exists row quote, orders db !! uid = Some row /\ ethflow_orders (indexed db) !! uid = Some v /\
    order_quotes db !! uid = Some quote /\
    refundable slippage_reached since min_validity slippage db uid row v quote = true.
Proof.
  unfold refundable_orders. rewrite list_elem_of_omap. split.
  - intros ([u row] & Hin%elem_of_map_to_list & Hr). unfold refundable_row in Hr. cbn in Hr.
    apply bind_Some in Hr as (v' & Hv & (quote & Hq & Hr)%bind_Some).
    destruct (refundable _ _ _ _ _ _ _ _ _) eqn:Hd; [|done]. injection Hr as <- <-. by exists row, quote.
  - intros (row & quote & Ho & Hv & Hq & Hr). exists (uid, row). split; [by apply elem_of_map_to_list|].
    unfold refundable_row. cbn. rewrite Hv. cbn. rewrite Hq. cbn. by rewrite Hr.
Qed.
Lemma refundable_true since min_validity slippage db uid row v quote :
  refundable slippage_reached since min_validity slippage db uid row v quote = true <->
  ethflow_refunds (indexed db) !! uid = None /\ onchain_order_invalidations (indexed db) !! uid = None /\
  row_partially_fillable row = false /\ trades_of db uid = [] /\ v < since /\
  row_sell_amount row = quote_sell_amount quote /\
  slippage_reached (row_buy_amount row) (Z.max (quote_buy_amount quote) 1) slippage = true /\
  min_validity < v - creation_timestamp row.
Proof.
  unfold refundable. rewrite !andb_true_iff, !bool_decide_eq_true, negb_true_iff, !Z.ltb_lt, Z.eqb_eq. tauto.
Qed.
Lemma identified web3 l uids uid : identify_uids_refunding_status_via_web3_calls web3 l = Ok uids ->
  uid ∈ uids <-> exists v owner, (uid, v) ∈ l /\ contract_orders web3 (take 32 (be_bytes 56 uid)) = Ok owner /\
    owner <> NO_OWNER /\ owner <> INVALIDATED_OWNER.
Proof.
  unfold identify_uids_refunding_status_via_web3_calls. intros (ss & Hs & [= <-])%rbind_Ok. apply rmap_Ok in Hs.
  assert (Hst : forall owner, refund_status owner = NotYetRefunded <-> owner <> NO_OWNER /\ owner <> INVALIDATED_OWNER).
  { intros owner. unfold refund_status. destruct (Z.eqb_spec owner INVALIDATED_OWNER); [naive_solver|].
    destruct (Z.eqb_spec owner NO_OWNER); naive_solver. }
  rewrite list_elem_of_omap. split.
  - intros (st & [k Hk]%list_elem_of_lookup & Hu). destruct (Forall2_lookup_r _ _ _ _ _ Hs Hk) as ([u v] & Hin%list_elem_of_lookup_2 & Hc).
    unfold uid_status in Hc. cbn [fst] in Hc. destruct (contract_orders web3 _) as [owner| |] eqn:Ho; [|by injection Hc as <-|done].
    injection Hc as <-. destruct (refund_status owner) eqn:Hr; [done| |done]. injection Hu as <-. exists v, owner.
    split; [done|]. split; [done|]. by apply Hst.
  - intros (v & owner & [k Hk]%list_elem_of_lookup & Ho & Hown). destruct (Forall2_lookup_l _ _ _ _ _ Hs Hk) as (st & Hst'%list_elem_of_lookup_2 & Hc).
    unfold uid_status in Hc. cbn [fst] in Hc. rewrite Ho in Hc. injection Hc as <-. exists (Some (uid, refund_status owner)).
    split; [done|]. by rewrite (proj2 (Hst owner) Hown).
Qed.
Lemma identified_due self web3 db now uids uid :
  identify_uids_refunding_status_via_web3_calls web3
    (refundable_orders slippage_reached now (min_validity_duration self) (min_slippage self) db) = Ok uids ->
  uid ∈ uids <-> due self web3 db now uid.
Proof.
  intros Hi. rewrite (identified _ _ _ _ Hi). setoid_rewrite refundable_elem. setoid_rewrite refundable_true. split.
  - intros (v & owner & (row & quote & H1 & H2 & H3 & H4 & H5 & H6 & H7 & H8 & H9 & H10 & H11) & H12).
    split; [by exists row, v, quote|done..|by exists owner].
  - intros [(row & v & quote & H1 & H2 & H3 & H4 & H5 & H6 & H7 & H8) H9 H10 H11 (owner & H12)].
    exists v, owner. split; [|done]. by exists row, quote.
Qed.
Lemma identified_length web3 l uids : identify_uids_refunding_status_via_web3_calls web3 l = Ok uids -> (length uids <= length l)%nat.
Proof.
  unfold identify_uids_refunding_status_via_web3_calls. intros (ss & Hs & [= <-])%rbind_Ok. apply rmap_Ok in Hs.
  rewrite (Forall2_length _ _ _ Hs). clear. induction ss as [|[[u []]|] ss IH]; cbn in *; lia.
Qed.
End iteration.

(** * The transactions over time *)
Section rounds.
Import RefundService.
Context (bump : GasPrice1559 -> F64.f64 -> GasPrice1559) (slippage_reached : Z -> Z -> F64.f64 -> bool).
Context (Hbump : forall p factor, factor ∈ [GAS_PRICE_BUFFER_FACTOR; GAS_PRICE_BUMP] -> numeric p -> numeric (bump p factor)).

(** A transaction follows another: at the same nonce it replaces it. *)
Definition replaces (tx last : RefundTx) : Prop :=
  tx_nonce tx = tx_nonce last -> outbids bump (tx_gas_price tx) (tx_gas_price last).
Fixpoint succeed_each_other (last : option RefundTx) (txs : list RefundTx) : Prop :=
  match txs with
  | [] => True
  | tx :: txs => from_option (replaces tx) True last /\ succeed_each_other (Some tx) txs
  end.
Definition submitted (last : option RefundTx) : Submitter := mkSubmitter (tx_gas_price <$> last) (tx_nonce <$> last).

Lemma run_spec self rounds last s txs :
  Forall (fun round => forall est, estimate round.1 = Ok est -> numeric est) rounds ->
  (forall tx, last = Some tx -> numeric (tx_gas_price tx)) ->
  run bump slippage_reached self rounds (submitted last) = (s, txs) ->
  Forall (fun tx => within_cap (tx_gas_price tx)) txs /\ succeed_each_other last txs.
Proof.
  revert last s txs. induction rounds as [|[web3 db] rounds IH]; intros last s txs Hr Hl; cbn [run].
  { by intros [= <- <-]. }
  apply Forall_cons in Hr as [He Hr].
  destruct (try_to_refund_all_eligble_orders bump slippage_reached self web3 db (submitted last)) as [s1 r] eqn:Ht.
  destruct r as [[tx|]|e|].
  - destruct (run bump slippage_reached self rounds s1) as [s2 txs2] eqn:Hrun. intros [= <- <-].
    destruct (try_to_refund_Ok _ _ _ _ _ _ _ _ Ht) as (now & uids & _ & _ & (orders & est & nonce & _ & _ & Hest & _ & -> & ->)).
    cbn [tx_gas_price] in Hrun. destruct (submission_gas_price bump Hbump (gas_parameters_of_last_tx (submitted last)) est nonce
      (nonce_of_last_submission (submitted last))) as (Hnum & Hcap & Hout).
    { by apply He. }
    { intros l Hg. cbn in Hg. apply fmap_Some in Hg as (tx & -> & ->). by apply Hl. }
    set (price := calculate_submission_gas_price _ _ _ _ _) in *. set (tx := mkRefundTx orders price nonce) in *.
    destruct (IH (Some tx) s2 txs2 Hr) as [H1 H2]; [by intros ? [= <-]|exact Hrun|]. split; [by constructor|]. cbn.
    split; [|done]. destruct last as [l|]; [|done]. cbn. intros Hn. apply Hout; [done|]. cbn. by f_equal.
  - destruct (try_to_refund_Ok _ _ _ _ _ _ _ _ Ht) as (now & uids & _ & _ & _ & ->). by apply IH.
  - rewrite (try_to_refund_fails _ _ _ _ _ _ _ _ Ht) by done. by apply IH.
  - by intros [= <- <-].
Qed.
Lemma succeed_lookup last txs i tx tx' : succeed_each_other last txs -> txs !! i = Some tx -> txs !! S i = Some tx' -> replaces tx' tx.
Proof.
  revert last i. induction txs as [|t txs IH]; intros last i Hs Hi Hi'; [done|]. destruct Hs as [_ Ht]. destruct i as [|i].
  - injection Hi as ->. destruct txs as [|t' txs]; [done|]. injection Hi' as ->. by destruct Ht as [? _].
  - by eapply IH.
Qed.
End rounds.

Lemma big_decimal_expect z : u256 z -> opt_expect (E:=unit) (OrderStoring.big_decimal_to_u256 z) = Ok z.
Proof. intros [H1%Z.leb_le H2%Z.leb_le]. unfold OrderStoring.big_decimal_to_u256, u256b. by rewrite H1, H2. Qed.

(** * Properties *)
Section properties.
Import RefundService.
Context (bump : GasPrice1559 -> F64.f64 -> GasPrice1559) (slippage_reached : Z -> Z -> F64.f64 -> bool).

(** C17: only what is due is refunded, and everything that is: the orders of a refund
    transaction are the contract's data of at most 30 orders that expired
    without being traded, invalidated, partially fillable or refunded before, had
    the required validity and slippage, and still have an owner in the contract;
    and when no more than 30 orders qualify in the database, every order that is
    due and can be read is in it. *)
Theorem refunds_are_due (self : RefundService) (web3 : Web3) (db : Db) (s s' : Submitter) (tx : RefundTx) (now : Z) :
  timestamp_of_current_block_in_seconds web3 = Ok now ->
  try_to_refund_all_eligble_orders bump slippage_reached self web3 db s = (s', Ok (Some tx)) ->
  (length (tx_orders tx) <= 30)%nat /\
  (forall order, order ∈ tx_orders tx ->
    exists uid, due slippage_reached self web3 db now uid /\ get_ethflow_data_from_db db uid = Ok order) /\
  ((length (refundable_orders slippage_reached now (min_validity_duration self) (min_slippage self) db) <= 30)%nat ->
   forall uid order, due slippage_reached self web3 db now uid -> get_ethflow_data_from_db db uid = Ok order ->
     order ∈ tx_orders tx).
Proof.
  intros Hnow Ht. apply try_to_refund_Ok in Ht as (now' & uids & Hnow' & Hi & (orders & est & nonce & _ & Ho & _ & _ & -> & _)).
  rewrite Hnow in Hnow'. injection Hnow' as <-. cbn [tx_orders].
  assert (Helem : forall order, order ∈ orders <->
    exists uid, uid ∈ take MAX_NUMBER_OF_UIDS_PER_REFUND_TX uids /\ get_ethflow_data_from_db db uid = Ok order).
  { intros order. rewrite (OnchainOrders.keep_ok_Ok _ _ _ Ho), buffer_unordered_all, list_elem_of_fmap. naive_solver. }
  split_and!.
  - etrans; [apply (OnchainOrders.keep_ok_length _ _ Ho)|]. rewrite buffer_unordered_all, length_map, length_take.
    unfold MAX_NUMBER_OF_UIDS_PER_REFUND_TX. lia.
  - intros order (uid & Hin%elem_of_take & Hg)%Helem. exists uid. split; [|done].
    apply (identified_due _ _ _ _ _ _ _ Hi). destruct Hin as (i & Hin & _). by apply list_elem_of_lookup_2 in Hin.
  - intros Hlen uid order Hd Hg. apply Helem. exists uid. split; [|done].
    rewrite take_ge; [by apply (identified_due _ _ _ _ _ _ _ Hi)|].
    apply identified_length in Hi. unfold MAX_NUMBER_OF_UIDS_PER_REFUND_TX. lia.
Qed.

(** C26: the gas prices of the refunder: whatever is estimated and whatever fails, in
    every transaction it sends the tip is at most the fee and the fee at most the
    cap; and a transaction with the nonce of the one before, which was not mined,
    raises both fees by the factor that nodes require of a replacement, as far as
    the cap allows. *)
Theorem resubmissions_outbid (self : RefundService) (rounds : list (Web3 * Db)) (s : Submitter) (txs : list RefundTx) :
  (forall p factor, factor ∈ [GAS_PRICE_BUFFER_FACTOR; GAS_PRICE_BUMP] -> numeric p -> numeric (bump p factor)) ->
  Forall (fun round => forall est, estimate round.1 = Ok est -> numeric est) rounds ->
  run bump slippage_reached self rounds (mkSubmitter None None) = (s, txs) ->
  (forall i tx, txs !! i = Some tx -> within_cap (tx_gas_price tx)) /\
  (forall i tx tx', txs !! i = Some tx -> txs !! S i = Some tx' -> tx_nonce tx' = tx_nonce tx ->
    outbids bump (tx_gas_price tx') (tx_gas_price tx)).
Proof.
  intros Hb Hr Hrun. destruct (run_spec bump slippage_reached Hb self rounds None s txs Hr ltac:(done) Hrun) as [H1 H2]. split.
  - intros i tx Hi. by eapply Forall_lookup_1 in H1.
  - intros i tx tx' Hi Hi'. exact (succeed_lookup bump None txs i tx tx' H2 Hi Hi').
Qed.

(** C18: a refund names the order that was placed: of an order that is indexed from
    an event with distinct keys in its batch and was not known before, the refunder
    submits exactly the tokens, amounts, receiver, app data and validity for which
    the contract of the event keeps the funds. *)
Theorem refund_names_the_placed_order {S} `{OrderQuoting.Quoting S} (keccak256 : list byte -> list byte)
    (domain_separator : list byte) (settlement_contract : Z) (svc : OnchainOrderEvents.Services S) (db db' : Db)
    (events : list (Event CowswapOnchainOrders.ContractEvent)) (m : Z * N) (event : CowswapOnchainOrders.OrderPlacement) (uid : Z)
    (o := CowswapOnchainOrders.event_order event) :
  OnchainOrderEvents.append_events keccak256 domain_separator settlement_contract svc db events = (db', true) ->
  placed_events keccak256 domain_separator events ->
  mkEvent (Some m) (CowswapOnchainOrders.Placed event) ∈ events ->
  indexed_order keccak256 domain_separator event = Some (uid, CowswapOnchainOrders.event_sender event) ->
  orders db !! uid = None ->
  CowswapOnchainOrders.c_receiver o <> 0 -> u256 (CowswapOnchainOrders.c_sell_amount o) ->
  u256 (CowswapOnchainOrders.c_buy_amount o) -> u256 (CowswapOnchainOrders.c_fee_amount o) ->
  get_ethflow_data_from_db db' uid =
  Ok (mkEthflowOrder (CowswapOnchainOrders.c_buy_token o) (CowswapOnchainOrders.c_receiver o)
        (CowswapOnchainOrders.c_sell_amount o) (CowswapOnchainOrders.c_buy_amount o) (CowswapOnchainOrders.c_app_data o)
        (CowswapOnchainOrders.c_fee_amount o) (from_be_bytes (drop 8 (CowswapOnchainOrders.event_data event)))
        (CowswapOnchainOrders.c_partially_fillable o) 0).
Proof.
  intros Ha Hp Hin Hio Hnew Hr H1 H2 H3. unfold OnchainOrderEvents.append_events, OnchainOrderEvents.commit in Ha.
  destruct (OnchainOrderEvents.insert_events _ _ _ svc db events) as [db1| |] eqn:Hins; [|done..]. injection Ha as ->.
  destruct (indexed_order_rows _ _ _ _ _ _ _ _ _ _ Hins Hp Hin Hio Hnew) as (t & d & w & sch & q & v & Hd & Hc & Ho & He).
  unfold get_ethflow_data_from_db, read_order. rewrite Ho, He. cbn [opt ok_or rbind fmap option_fmap option_map].
  apply placed_order_data in Hd. cbn in Hd. fold o in Hd. destruct (Z.eqb_spec (CowswapOnchainOrders.c_receiver o) 0) as [|_]; [done|].
  destruct Hd as ((D1 & D2) & D3 & D4 & D5 & D6 & D7). unfold order_to_ethflow_data, OnchainOrderEvents.placed_order_row.
  cbn [row_receiver row_sell_amount row_buy_amount row_fee_amount row_buy_token row_app_data row_partially_fillable].
  rewrite D1, D2, D3, D4, D5, D6, D7. cbn [opt_expect rbind]. rewrite !big_decimal_expect by done. cbn [rbind].
  unfold EthflowEvents.convert_to_quote_id_and_user_valid_to in Hc.
  destruct (Nat.eqb_spec (length (CowswapOnchainOrders.event_data event)) 12) as [Hlen|]; [|done]. injection Hc as _ <-.
  rewrite Z.mod_small; [done|]. pose proof (from_be_bytes_bound (drop 8 (CowswapOnchainOrders.event_data event))) as Hb.
  rewrite length_drop, Hlen in Hb. exact Hb.
Qed.
End properties.

(** * Witnesses *)
Section witnesses.
Import OrderQuoting CowswapOnchainOrders OnchainOrderEvents RefundService.
#[local] Instance quoting : Quoting unit := {|
  quoting_calculate _ _ := Err CalculateOther;
  quoting_store _ _ := Err tt;
  quoting_find _ i _ :=
    if decide (i = Some 5) then
      Ok (mkQuote (Some 5) (mkQuoteData 10 11 1000 900 (Fee.mkFeeParameters (F64.of_Z 100) (F64.of_Z 2) (F64.of_Z 1)) Sell 0
            Eip1271OnchainOrder 77 false) 1000 900 0)
    else Err (NotFound i);
|}.
Let svc : Services unit := mkServices tt (fun block => Ok (100 + block)) 200 (@rev _) (fun l => symmetry (Permutation_rev l)).
Let order (valid_to quote : Z) : OrderPlacement :=
  mkOrderPlacement 40
    (mkContractOrder 10 11 50 1000 900 valid_to (be_bytes 32 7) 0 (kind_bytes Sell) false
       (sell_token_source_bytes SellErc20) (buy_token_destination_bytes BuyErc20))
    (0, be_bytes 20 30) (be_bytes 8 quote ++ be_bytes 4 600).
Let uid_of (valid_to : Z) : Z := default 0 (fst <$> OnchainOrders.indexed_order (take 32) [] (order valid_to 5)).
Let at_ (block : Z) (i : N) (event : OrderPlacement) : Event ContractEvent := mkEvent (Some (block, i)) (Placed event).
Abbreviation empty_db := (mkDb ∅ [] ∅ [] ∅ (mkIndexed ∅ ∅ ∅ ∅ ∅ ∅ ∅ ∅ ∅ ∅)).
(** One order has a quote, the other does not. *)
Let batch : list (Event ContractEvent) := [at_ 1 0 (order 100 5); at_ 1 1 (order 200 6)].
Abbreviation append := (append_events (take 32) [] 3 svc empty_db batch).

Lemma committed (p : Db * bool) : p.2 = true -> p = (p.1, true).
Proof. destruct p as [db ok]. by intros [= ->]. Qed.
Lemma refund_names_the_placed_order_witness :
  get_ethflow_data_from_db append.1 (uid_of 200) = Ok (mkEthflowOrder 11 50 1000 900 (be_bytes 32 7) 0 600 false 0).
Proof.
  assert (Ha : append = (append.1, true)) by (apply committed; vm_compute; reflexivity).
  assert (Hp : OnchainOrders.placed_events (take 32) [] batch).
  { split_and!; [repeat constructor; cbn; (eexists; split; [reflexivity|repeat split; closed])| |];
      (apply (bool_decide_eq_true_1 _); vm_compute; reflexivity). }
  assert (Hin : at_ 1 1 (order 200 6) ∈ batch) by (right; left).
  assert (Hi : OnchainOrders.indexed_order (take 32) [] (order 200 6) = Some (uid_of 200, 40)) by (vm_compute; reflexivity).
  etransitivity; [refine (refund_names_the_placed_order (take 32) [] 3 svc empty_db append.1 batch (1, 1%N) (order 200 6) (uid_of 200)
    Ha Hp Hin Hi (lookup_empty _) _ _ _ _)|vm_compute; reflexivity]; [closed|split; closed..].
Defined.

(** Fees are multiplied; the node asks for 10 Gwei, and mines nothing. *)
Let raise (x factor : F64.f64) : F64.f64 := let y := F64.mul x factor in if FeeFactor.is_nan y then x else y.
Let bump (p : GasPrice1559) (factor : F64.f64) : GasPrice1559 :=
  mkGasPrice1559 (raise (base_fee_per_gas p) factor) (raise (max_fee_per_gas p) factor) (raise (max_priority_fee_per_gas p) factor).
Let gas : GasPrice1559 := mkGasPrice1559 (F64.of_Z 5000000000) (F64.of_Z 10000000000) (F64.of_Z 1000000000).
Let web3 (gas : GasPrice1559) : Web3 :=
  mkWeb3 (Ok 700) (fun _ => Ok 40) (Ok gas) (Ok 6) (@rev _) (fun l => symmetry (Permutation_rev l)).
Let service : RefundService := new 60 200.
Let slippage (bought quoted : Z) (_ : F64.f64) : bool := bought <=? quoted.

Lemma refunds_are_due_witness : exists s tx order,
  try_to_refund_all_eligble_orders bump slippage service (web3 gas) append.1 (mkSubmitter None None) = (s, Ok (Some tx)) /\
  get_ethflow_data_from_db append.1 (uid_of 100) = Ok order /\ order ∈ tx_orders tx.
Proof.
  destruct (try_to_refund_all_eligble_orders bump slippage service (web3 gas) append.1 (mkSubmitter None None)) as [s r] eqn:Ht.
  assert (Hr : match (s, r).2 with Ok (Some _) => true | _ => false end = true) by (rewrite <- Ht; vm_compute; reflexivity).
  assert (Hd : match get_ethflow_data_from_db append.1 (uid_of 100) with Ok _ => true | _ => false end = true) by (vm_compute; reflexivity).
  cbn in Hr. destruct r as [[tx|]| |]; try discriminate Hr. destruct (get_ethflow_data_from_db append.1 (uid_of 100)) as [o| |] eqn:Ho.
  2, 3: discriminate Hd.
  exists s, tx, o. split; [reflexivity|]. split; [reflexivity|].
  destruct (refunds_are_due bump slippage service (web3 gas) append.1 _ s tx 700 eq_refl Ht) as (_ & _ & Hall).
  assert (Hlen : (length (refundable_orders slippage 700 (min_validity_duration service) (min_slippage service) append.1) <= 30)%nat)
    by (apply Nat.leb_le; vm_compute; reflexivity).
  apply (Hall Hlen (uid_of 100) o); [|exact Ho].
  assert (Hi : identify_uids_refunding_status_via_web3_calls (web3 gas)
    (refundable_orders slippage 700 (min_validity_duration service) (min_slippage service) append.1) = Ok [uid_of 100])
    by (vm_compute; reflexivity).
  apply (identified_due slippage service (web3 gas) append.1 700 [uid_of 100] (uid_of 100) Hi). by left.
Defined.

Lemma raise_number x factor : FeeFactor.is_nan x = false -> FeeFactor.is_nan (raise x factor) = false.
Proof. intros Hx. unfold raise. by destruct (FeeFactor.is_nan (F64.mul x factor)) eqn:Hn. Qed.
Lemma resubmissions_outbid_witness : exists s tx1 tx2,
  run bump slippage service [(web3 gas, append.1); (web3 gas, append.1)] (mkSubmitter None None) = (s, [tx1; tx2]) /\
  outbids bump (tx_gas_price tx2) (tx_gas_price tx1).
Proof.
  destruct (run bump slippage service [(web3 gas, append.1); (web3 gas, append.1)] (mkSubmitter None None)) as [s txs] eqn:Hr.
  assert (Hn : map tx_nonce txs = [6; 6]).
  { transitivity (map tx_nonce (s, txs).2); [reflexivity|]. rewrite <- Hr. vm_compute. reflexivity. }
  destruct txs as [|tx1 [|tx2 [|]]]; try discriminate Hn. exists s, tx1, tx2. split; [reflexivity|].
  injection Hn as H1 H2.
  assert (Hg : forall est, Ok gas = Ok (E := unit) est -> numeric est) by (intros est [= <-]; split; reflexivity).
  refine (proj2 (resubmissions_outbid bump slippage service _ s [tx1; tx2] _ _ Hr) 0%nat tx1 tx2 eq_refl eq_refl _).
  - intros p factor _ [Hp1 Hp2]. split; apply raise_number; assumption.
  - apply List.Forall_cons; [exact Hg|]. apply List.Forall_cons; [exact Hg|]. apply List.Forall_nil.
  - by rewrite H1, H2.
Defined.
End witnesses.
